(* ===== verification/_CoqProject ===== *)
-Q . S2P
Prelude.v
ASpace.v
Bus.v
Mapping.v
PhysMap.v
PhysMapInv.v
GuestMem.v
VirtQueue.v
VirtQueueInv.v
VirtQueueThm.v
IntrPins.v
PciBar.v
PciDevice.v
PciThm.v
PciMsix.v
Uart.v
MigCodec.v
MigPages.v
MigProg.v
MigSafe.v
MigRam.v
NvmePrp.v
Nvme.v
NvmeInv.v
NvmeThm.v
Quiesce.v
NvmeConc.v
Vsock.v
VsockThm.v
VirtioPci.v
VirtioPciInv.v
VirtioPciThm.v
VirtioMig.v
VirtioIntr.v
Aml.v
Acpi.v
AcpiThm.v
AcpiDsdt.v
FwCfg.v
Smbios.v
Machine.v
Firmware.v
