(* ===== verification/Prelude.v ===== *)
(** * A verification of rshyve, a Rust virtual machine monitor for bhyve

    rshyve runs a guest on illumos bhyve: the kernel executes the vCPUs, and
    the program provides guest memory, the buses, the devices and live
    migration. This library models the parts whose correctness the guest's
    data depends on, translated from the sources under [src/crates/], and
    proves what they promise. File and function names below are the
    program's; a definition carries the name of the function it models.

    ** The program and the files that model it

    - _Address spaces and buses_ (vmm-core). [ASpace] is aspace.rs, the
      container of disjoint ranges. [Bus] is common.rs, pio.rs and mmio.rs:
      the register operations and the two buses, each an address space of
      handlers. [Mapping] is mem/mapping.rs, bounds-checked views of process
      memory. [PhysMap] is mem.rs, the guest physical address space with its
      claims and RAM runs; [PhysMapInv] has its invariant. [GuestMem] is the
      interface between that and the devices: the class [GuestMap], what a
      lookup promises, with an instance for every well-formed [PhysMap].
    - _VirtIO_ (vmm-virtio). [VirtQueue] is queue.rs and
      queue/completion.rs, the device side of a split ring, with its theorems
      in [VirtQueueInv] and [VirtQueueThm]. [VirtioPci] is pci.rs and
      pci/legacy.rs, modern.rs, bus.rs, intr.rs and migrate.rs: the
      transitional PCI transport over the class [VirtioDevice]. A register
      write returns what the thread does once it has dropped the lock (its
      [Tail]). [VirtioPciInv] and [VirtioPciThm] have the registers' theorems,
      [VirtioMig] migration, [VirtioIntr] interrupts and resets interleaved.
      [Vsock] is vsock/packet.rs,
      conn.rs, mux.rs and the chain ends of device/rx.rs and device/tx.rs;
      [VsockThm] has the interleaved system and its theorems.
    - _Interrupts, PCI and the serial port_ (vmm-core, vmm-devices).
      [IntrPins] is intr_pins.rs, with the class [Router] for its two pin
      banks; [PciBar] is pci/bar.rs; [PciDevice] is pci/mod.rs, bus.rs and
      device.rs, chipset/i440fx.rs and the BAR registrations of vmm-virtio's
      pci/bus.rs, with its theorems in [PciThm]; [PciMsix] is pci/msix.rs; [Uart] is
      uart/uart16550.rs.
    - _NVMe_ (vmm-storage, vmm-devices). [NvmePrp] is nvme/prp.rs; [Nvme] is
      bits.rs, queues.rs, regs.rs, admin.rs, io.rs and the migration state of
      mod.rs; [NvmeInv] and [NvmeThm] have its invariant and theorems.
      [Quiesce] is quiesce.rs, the gate that parks worker threads, one
      visible memory operation per step. [NvmeConc] composes gate,
      controller and workers.rs into one interleaved system.
    - _Live migration_ (vmm-migrate). [MigCodec] is codec.rs and limits.rs;
      [MigPages] is pages.rs, protocol.rs, and the accessors of
      vmm-core/src/mem/ctx.rs; [MigProg] is source.rs, destination.rs,
      wire.rs and cpu.rs as programs over their effects. [MigSafe] and
      [MigRam] run the two programs against each other.

    - _Firmware tables_ (vmm-devices, vmm-core, vmm-machine). [Aml] is aml.rs,
      the AML builder, with a reader of ACPI byte code as its specification.
      [Acpi] is acpi/config.rs, mod.rs, facs.rs, fadt.rs, madt.rs, tables.rs,
      rsdp.rs, dsdt.rs, loader.rs and e820.rs; [AcpiThm] has the firmware that
      runs a loader script ([fw_loader]) and the operating system that walks
      the tables ([acpi_os]); [AcpiDsdt] reads the DSDT. [FwCfg] is fwcfg.rs,
      with the firmware's side of its two ports; [Smbios] is smbios.rs, with a
      reader of its structures; [Machine] is machine.rs, the builder of guest
      RAM. [Firmware] is vmm-machine/src/firmware.rs, which puts the tables
      into fw_cfg and guest memory, and composes all of these.

    This file has what they share: [Result] and its operators, integers at
    their width with the release profile's wrap-around, little-endian bytes,
    sorted entry lists for [BTreeMap], and lemmas on them.

    ** How the code is modelled

    A pure function is a function. A method that changes [self] returns the
    new state; [?] and early returns are the notations of this file. A
    function whose body can panic returns an [option] whose [None] is the
    panic: the release profile aborts on one, so a theorem that the answer
    is [Some] is a theorem that the process survives. Machine integers are
    [Z] at their width: [wadd], [wsub] and [wmul] wrap as the release build
    does, [checked_*] and [saturating_*] are the standard library's.

    Guest memory is shared with the guest. In every device model the guest
    rewrites memory before each access the device makes; only theorems that
    say so assume it still. Threads are interleaved step by step where the
    code relies on their order: the gate, the NVMe workers, the two ends of
    a migration, the vsock threads, the VirtIO transport's interrupts.

    Kernel calls, RON, zstd, the backing file and the dirty log are
    arguments or classes, with what the code relies on as hypotheses that
    are instantiated in the witnesses.

    ** What the theorems show

    - Memory: every history of adds, claims and drops keeps regions disjoint
      and claims exclusive ([reachable_ok]); a lookup is the byte-by-byte
      translation of its range and never grants more than the region's kind
      ([lookup_sound], [lookup_ram_complete]).
    - Virtqueues: on still memory a chain is what VirtIO 1.3 defines
      ([collect_chain_refines]); against every guest it is bounded
      ([collect_chain_bounded]); a drain is first in first out and ends
      ([drain_avail_fifo], [drain_avail_ends]).
    - NVMe: no guest access panics after any history, made-up migration
      payloads included ([nvme_never_panics]); rings stay rings; requests
      stay inside the namespace; what a controller exports makes another
      the same but for the instance of its queues, unless a payload was made
      up; PRP lists are walked as the specification says and in
      bounded time. Between threads: a driver told that a reset is done can
      reuse its pages, unless a drain timed out ([reset_fences_workers]); the
      gate holds ([gate_keeps_workers], [pause_survives_resets]) and closes
      while the workers go on ([held_gate_closes]).
    - Migration: whatever fails, the guest never runs on both hosts as long
      as the network does not half-deliver the last message
      ([never_two_copies], [torn_send_two_copies] is a run of that case); and a
      migration between matching machines ends with the RAM moved byte for
      byte ([migration_moves_ram]).
    - The VirtIO transport: its registers hold together whatever driver,
      backend, interrupts and resets do ([registers_hold]); what a session has
      negotiated stays ([session_keeps]); the capability list leads to the
      structures ([caps_lead_to_structures]); an exported device is accepted
      and the same elsewhere, if its driver kept to the rules
      ([device_migrates]). Interleaved: an interrupt
      arrives in the session it was admitted for ([deliveries_in_session]), a
      reset publishes blank registers and comes to its end
      ([reset_publishes_clean], [reset_ends]), and undisturbed the phases are
      the sequential code ([phases_agree]).
    - PCI: the configuration ports reach the register they name
      ([config_mechanism]), and the buses hold exactly the BARs a header has
      enabled, but for those that did not fit or were detached, unless two
      writes that move a function meet and hang
      ([bar_registrations_exact]).
    - Interrupts and registers: a shared line is high exactly while a pin
      holds it, at the I/O APIC and, if routes change only while idle, at the
      ATPIC; no MSI-X message is left pending behind an open mask; BAR
      sizing follows PCI; the UART reports its first pending source.
    - Vsock: an honest guest that leaves its ports until they are drained is
      never sent more than its buffer holds ([credit_respected]); what goes to
      a pair of ports is a stream ([vsock_stream]), and a packet arrives in
      its chain ([packet_lands]); everything held is bounded.
    - Firmware tables: byte code reads back as what was built
      ([aml_roundtrip]), and its interrupt routing is the chipset's
      ([dsdt_routes]); a file of fw_cfg reads back ([fwcfg_serves]); the tables
      reach an operating system through the firmware's loader, wherever it
      places them ([acpi_via_loader]), and at their fixed addresses
      ([acpi_via_scan]); the memory map is the RAM the machine has
      ([e820_exact]); SMBIOS structures are found ([smbios_found]).

    Some theorems show where the code and its comments part: heads out of
    range do not count towards a drain's cap, a refused pulse leaves a line
    stuck, a migrated queue may post to the admin completion queue,
    [is_quiesced] can be early, a vsock connection opened again under the
    ports of a forgotten one inherits its payload or its close, ring features
    outlive a reset ([features_outlive_reset]), negotiation reopens
    ([negotiation_reopens]), a wrapped used index or a vector past the table
    does not migrate ([twin_refuses]), a PCI line rerouted while it is
    asserted leaves its old input raised ([pci_reroute_stuck]), two writes
    that move a function can wait for each other for good
    ([moving_writes_deadlock]), an unmask during a reset delivers
    the last driver's message to the next ([stale_message_released]), and the
    SMBIOS manufacturer reads with two bytes of its structure before it
    ([smbios_found]).

    ** Fuel and bounds

    A loop that is not structural takes fuel, and the theorems say how much
    is enough: a descriptor chain the ring's size; a drain its cap and one
    ([drain_avail_ends]); the NVMe admin loop 4097 turns, one more than
    the largest queue ([nvme_never_panics]); a PRP walk two list reads per
    segment; a migration pass one turn per batch ([pass_fuel]). The
    destination's message loop stops only at the end of its stream, so its
    fuel is a hypothesis of [migration_moves_ram] that the source meets.

    ** Not modelled

    The vCPU run loop, kernel ioctls and mmap (I/O); host sockets, threads
    and files behind vsock, virtio-block, virtio-net and the consoles; the
    VNC, RPC and configuration front ends; the loaders of firmware and kernels;
    CPU, memory and PCI hot-plug, whose AML is a parameter of the DSDT
    ([HotplugAml]); and the other devices. Log output and the text of error messages are left
    out everywhere. *)

From stdpp Require Export base numbers list option gmap sorting.
From Stdlib Require Export ZArith Lia.

#[global] Open Scope Z_scope.

(** ** Notations *)

Declare Scope vmm_scope.
Delimit Scope vmm_scope with vmm.

(** ** Results *)

(** Rust's [Result<A, E>]. *)
Inductive result (E A : Type) : Type :=
| Ok (a : A)
| Err (e : E).
Arguments Ok {E A} a.
Arguments Err {E A} e.

#[global] Instance result_eq_dec {E A} `{EqDecision E, EqDecision A} :
  EqDecision (result E A).
Proof. solve_decision. Defined.

(** [Option::ok_or]. *)
Definition ok_or {E A} (o : option A) (e : E) : result E A :=
  match o with Some a => Ok a | None => Err e end.

(** [Result::is_ok]. *)
Definition is_ok {E A} (r : result E A) : bool :=
  match r with Ok _ => true | Err _ => false end.

(** The [?] operator on [Result] and on [Option]. *)
Notation "'let?' x ':=' e 'in' k" :=
  (match e with Ok x => k | Err err => Err err end)
  (at level 10, x name, e at level 100, k at level 200) : vmm_scope.
Notation "'let*' x ':=' e 'in' k" :=
  (match e with Some x => k | None => None end)
  (at level 10, x name, e at level 100, k at level 200) : vmm_scope.
Notation "'let*' ' p ':=' e 'in' k" :=
  (match e with Some p => k | None => None end)
  (at level 10, p strict pattern, e at level 100, k at level 200) : vmm_scope.
#[global] Open Scope vmm_scope.

(** ** Machine integers

    A [w]-bit unsigned integer is a [Z] in [0, 2^w). The release profile
    leaves overflow checks off, so [+], [-] and [*] wrap. *)

Definition uint (w x : Z) : Prop := 0 <= x < 2 ^ w.

Definition wadd (w x y : Z) : Z := (x + y) mod 2 ^ w.
Definition wsub (w x y : Z) : Z := (x - y) mod 2 ^ w.
Definition wmul (w x y : Z) : Z := (x * y) mod 2 ^ w.

Definition checked_add (w x y : Z) : option Z :=
  if x + y <? 2 ^ w then Some (x + y) else None.
Definition checked_sub (x y : Z) : option Z :=
  if y <=? x then Some (x - y) else None.
Definition checked_mul (w x y : Z) : option Z :=
  if x * y <? 2 ^ w then Some (x * y) else None.
Definition saturating_add (w x y : Z) : Z := Z.min (x + y) (2 ^ w - 1).
Definition saturating_sub (x y : Z) : Z := Z.max 0 (x - y).

(** The [as] casts to a narrower unsigned type. *)
Definition as_u (w x : Z) : Z := x mod 2 ^ w.

Definition is_power_of_two (x : Z) : bool :=
  (0 <? x) && (Z.land x (x - 1) =? 0).

(** [u64::is_multiple_of]. *)
Definition is_multiple_of (x y : Z) : bool :=
  if y =? 0 then x =? 0 else x mod y =? 0.

Definition bit_set (x mask : Z) : bool := negb (Z.land x mask =? 0).

Lemma land_bit_zero word b :
  0 <= b -> (Z.land word (Z.shiftl 1 b) =? 0) = negb (Z.testbit word b).
Proof.
  intros Hb. rewrite Z.shiftl_1_l. destruct (Z.testbit word b) eqn:E; simpl.
  - apply Z.eqb_neq. intros Hz. apply (f_equal (fun z => Z.testbit z b)) in Hz.
    rewrite Z.land_spec, Z.pow2_bits_true, Z.bits_0, E in Hz by done. done.
  - apply Z.eqb_eq, Z.bits_inj'. intros n Hn. rewrite Z.land_spec, Z.pow2_bits_eqb, Z.bits_0 by done.
    destruct (Z.eqb_spec b n) as [<-|]; [by rewrite E|]. apply andb_false_r.
Qed.

Lemma bit_set_testbit x k : 0 <= k -> bit_set x (2 ^ k) = Z.testbit x k.
Proof. intros Hk. unfold bit_set. by rewrite <- Z.shiftl_1_l, land_bit_zero, negb_involutive. Qed.

Lemma uint_wadd w x y : 0 <= w -> uint w (wadd w x y).
Proof. intros. apply Z.mod_pos_bound, Z.pow_pos_nonneg; lia. Qed.

Lemma uint_wsub w x y : 0 <= w -> uint w (wsub w x y).
Proof. intros. apply Z.mod_pos_bound, Z.pow_pos_nonneg; lia. Qed.

Lemma uint_as_u w x : 0 <= w -> uint w (as_u w x).
Proof. intros. apply Z.mod_pos_bound, Z.pow_pos_nonneg; lia. Qed.

Lemma wadd_small w x y : 0 <= x + y < 2 ^ w -> wadd w x y = x + y.
Proof. intros. by apply Z.mod_small. Qed.

Lemma wsub_small w x y : 0 <= x - y < 2 ^ w -> wsub w x y = x - y.
Proof. intros. by apply Z.mod_small. Qed.

Lemma as_u_small w x : uint w x -> as_u w x = x.
Proof. intros. by apply Z.mod_small. Qed.

Lemma as_u_uint w x : 0 <= w -> uint w (as_u w x).
Proof. intros Hw. apply Z.mod_pos_bound. lia. Qed.

Lemma checked_add_Some w x y z :
  checked_add w x y = Some z <-> z = x + y /\ x + y < 2 ^ w.
Proof.
  unfold checked_add. destruct (Z.ltb_spec (x + y) (2 ^ w)).
  - split; [by intros [= <-]|by intros [-> _]].
  - split; [done|lia].
Qed.

Lemma checked_add_None w x y : checked_add w x y = None <-> 2 ^ w <= x + y.
Proof.
  unfold checked_add. destruct (Z.ltb_spec (x + y) (2 ^ w)); split; done || lia.
Qed.

Lemma uint_wmul w x y : 0 <= w -> uint w (wmul w x y).
Proof. intros. apply Z.mod_pos_bound, Z.pow_pos_nonneg; lia. Qed.

Lemma wmul_small w x y : 0 <= x * y < 2 ^ w -> wmul w x y = x * y.
Proof. intros. by apply Z.mod_small. Qed.

Lemma uint_land w x m : 0 <= w -> uint w x -> uint w (Z.land x m).
Proof.
  intros Hw Hx. rewrite <- (Z.mod_small x (2 ^ w) Hx), <- Z.land_ones by done.
  rewrite <- Z.land_assoc, (Z.land_comm _ m), Z.land_assoc, Z.land_ones by done.
  apply Z.mod_pos_bound. lia.
Qed.

(** Clearing the low [k] bits of a [w]-bit integer. *)
Lemma land_high w k x :
  0 <= k <= w -> uint w x -> Z.land x (2 ^ w - 1 - (2 ^ k - 1)) = x / 2 ^ k * 2 ^ k.
Proof.
  intros Hk Hx.
  replace (2 ^ w - 1 - (2 ^ k - 1)) with (Z.ldiff (Z.ones w) (Z.ones k)).
  - rewrite Z.ldiff_land, Z.land_assoc, Z.land_ones, Z.mod_small by (done || lia).
    rewrite <- Z.ldiff_land, Z.ldiff_ones_r, Z.shiftl_mul_pow2, Z.shiftr_div_pow2 by lia. done.
  - rewrite Z.ldiff_ones_r, Z.shiftl_mul_pow2, Z.shiftr_div_pow2, Z.ones_equiv by lia.
    replace (Z.pred (2 ^ w)) with (2 ^ k - 1 + (2 ^ (w - k) - 1) * 2 ^ k).
    + rewrite Z.div_add, Z.div_small by lia.
      rewrite Z.add_0_l, Z.mul_sub_distr_r, <- Z.pow_add_r by lia.
      replace (w - k + k) with w by lia. lia.
    + rewrite Z.mul_sub_distr_r, <- Z.pow_add_r by lia. replace (w - k + k) with w by lia. lia.
Qed.

Lemma is_power_of_two_pow x : is_power_of_two x = true -> exists k, 0 <= k /\ x = 2 ^ k.
Proof.
  unfold is_power_of_two. rewrite andb_true_iff, Z.ltb_lt, Z.eqb_eq. intros [Hx Hl].
  pose proof (Z.log2_spec x Hx) as [H1 H2]. pose proof (Z.log2_nonneg x).
  exists (Z.log2 x). split; [done|].
  destruct (Z.eq_dec x (2 ^ Z.log2 x)) as [|Hne]; [done|exfalso].
  assert (Hlog : Z.log2 (x - 1) = Z.log2 x) by (apply Z.log2_unique; lia).
  apply (f_equal (fun z => Z.testbit z (Z.log2 x))) in Hl.
  rewrite Z.land_spec, Z.bit_log2, Z.bits_0 in Hl by done.
  rewrite <- Hlog in Hl at 1. rewrite Z.bit_log2 in Hl; [done|].
  assert (2 ^ 0 <= 2 ^ Z.log2 x) by (apply Z.pow_le_mono_r; lia). lia.
Qed.

(** A multiple of [2^k] and a [k]-bit value share no bit. *)
Lemma lor_shift_add k a b : 0 <= k -> uint k b -> Z.lor (a * 2 ^ k) b = a * 2 ^ k + b.
Proof.
  intros Hk Hb. symmetry. apply Z.add_nocarry_lor, Z.bits_inj'. intros n Hn.
  rewrite Z.land_spec, Z.bits_0. destruct (Z.lt_ge_cases n k).
  - by rewrite Z.mul_pow2_bits_low.
  - rewrite <- (Z.mod_small b (2 ^ k) Hb), Z.mod_pow2_bits_high by lia. apply andb_false_r.
Qed.

(** Masking a value to the bits [k] and above of a [w]-bit register. *)
Lemma land_mask w k v :
  0 <= k <= w -> Z.land v (2 ^ w - 1 - (2 ^ k - 1)) = v mod 2 ^ w / 2 ^ k * 2 ^ k.
Proof.
  intros Hk. assert (Hm : uint w (v mod 2 ^ w)) by (apply Z.mod_pos_bound; lia).
  rewrite <- (land_high w k _ Hk Hm), <- Z.land_ones by lia. rewrite <- Z.land_assoc. f_equal.
  rewrite Z.land_comm, Z.land_ones by lia. symmetry. apply Z.mod_small.
  assert (2 ^ k <= 2 ^ w) by (apply Z.pow_le_mono_r; lia). assert (0 < 2 ^ k) by lia. lia.
Qed.

Create HintDb vmm discriminated.
#[export] Hint Resolve uint_wadd uint_wsub uint_wmul uint_as_u uint_land : vmm.
#[export] Hint Extern 2 (_ <= _) => lia : vmm.
#[export] Hint Extern 2 (_ < _) => lia : vmm.

(** ** Tactics *)

(** Case analysis on the boolean comparisons of the goal and context. *)
Ltac case_cmp :=
  match goal with
  | |- context [?x =? ?y] => destruct (Z.eqb_spec x y)
  | |- context [?x <? ?y] => destruct (Z.ltb_spec x y)
  | |- context [?x <=? ?y] => destruct (Z.leb_spec x y)
  | _ : context [?x =? ?y] |- _ => destruct (Z.eqb_spec x y)
  | _ : context [?x <? ?y] |- _ => destruct (Z.ltb_spec x y)
  | _ : context [?x <=? ?y] |- _ => destruct (Z.leb_spec x y)
  end.

(** Case analysis on the scrutinee of the leftmost [match] of the goal. *)
Ltac case_goal :=
  match goal with
  | |- context [match ?x with _ => _ end] =>
      lazymatch x with
      | context [match _ with _ => _ end] => fail
      | _ => destruct x eqn:?
      end
  end.

(** ** Little-endian bytes *)

(** [uN::to_le_bytes] and [uN::from_le_bytes]; a byte is a [Z] in [0, 256). *)
Fixpoint le_bytes (n : nat) (z : Z) : list Z :=
  match n with
  | O => []
  | S n => z mod 256 :: le_bytes n (z / 256)
  end.

Fixpoint le_val (l : list Z) : Z :=
  match l with
  | [] => 0
  | b :: l => b + 256 * le_val l
  end.

Definition is_bytes (l : list Z) : Prop := Forall (uint 8) l.

Lemma length_le_bytes n z : length (le_bytes n z) = n.
Proof. revert z. induction n; intros; simpl; auto. Qed.

Lemma le_bytes_is_bytes n z : is_bytes (le_bytes n z).
Proof.
  revert z. induction n; intros; simpl; constructor; [|apply IHn].
  split; [apply Z.mod_pos_bound; lia|]. apply Z.mod_pos_bound; lia.
Qed.

Lemma le_val_bound l :
  is_bytes l -> 0 <= le_val l < 2 ^ (8 * Z.of_nat (length l)).
Proof.
  induction 1 as [|b l Hb Hl IH]; simpl; [lia|].
  unfold uint in Hb. change (2 ^ 8) with 256 in Hb.
  replace (8 * Z.of_nat (S (length l))) with (8 + 8 * Z.of_nat (length l)) by lia.
  rewrite Z.pow_add_r by lia. change (2 ^ 8) with 256. lia.
Qed.

Lemma le_val_le_bytes n z :
  0 <= z < 2 ^ (8 * Z.of_nat n) -> le_val (le_bytes n z) = z.
Proof.
  revert z. induction n as [|n IH]; intros z Hz; simpl.
  - simpl in Hz. lia.
  - rewrite IH.
    + pose proof (Z.div_mod z 256). lia.
    + replace (8 * Z.of_nat (S n)) with (8 + 8 * Z.of_nat n) in Hz by lia.
      rewrite Z.pow_add_r in Hz by lia. change (2 ^ 8) with 256 in Hz.
      split; [apply Z.div_pos; lia|]. apply Z.div_lt_upper_bound; lia.
Qed.

Lemma le_bytes_le_val l : is_bytes l -> le_bytes (length l) (le_val l) = l.
Proof.
  induction 1 as [|b l Hb Hl IH]; simpl; [done|].
  unfold uint in Hb. change (2 ^ 8) with 256 in Hb.
  f_equal.
  - rewrite (Z.mul_comm 256), Z.mod_add by lia. apply Z.mod_small. lia.
  - rewrite (Z.mul_comm 256), Z.div_add by lia.
    rewrite Z.div_small by lia. rewrite Z.add_0_l. apply IH.
Qed.

(** ** Ordered maps

    [BTreeMap<usize, V>] as the list of its entries in key order. *)

Definition btree (V : Type) : Type := list (Z * V).

Inductive bound : Type :=
| Included (z : Z)
| Excluded (z : Z)
| Unbounded.

Definition above (lo : bound) (k : Z) : bool :=
  match lo with
  | Included z => z <=? k
  | Excluded z => z <? k
  | Unbounded => true
  end.

Definition below (hi : bound) (k : Z) : bool :=
  match hi with
  | Included z => k <=? z
  | Excluded z => k <? z
  | Unbounded => true
  end.

(** [BTreeMap::insert]: the new map and the value the key had before. *)
Fixpoint bt_insert {V} (k : Z) (v : V) (m : btree V) : btree V * option V :=
  match m with
  | [] => ([(k, v)], None)
  | (k', v') :: m' =>
      if k <? k' then ((k, v) :: m, None)
      else if k =? k' then ((k, v) :: m', Some v')
      else let r := bt_insert k v m' in ((k', v') :: r.1, r.2)
  end.

(** [BTreeMap::remove]. *)
Fixpoint bt_remove {V} (k : Z) (m : btree V) : btree V * option V :=
  match m with
  | [] => ([], None)
  | (k', v') :: m' =>
      if k =? k' then (m', Some v')
      else let r := bt_remove k m' in ((k', v') :: r.1, r.2)
  end.

(** [BTreeMap::range] panics ([None]) on a range whose start is past its
    end, or on an empty range with both ends excluded. *)
Definition bt_range_ok (lo hi : bound) : bool :=
  match lo, hi with
  | Unbounded, _ | _, Unbounded => true
  | Excluded a, Excluded b => a <? b
  | Included a, (Included b | Excluded b) => a <=? b
  | Excluded a, Included b => a <=? b
  end.

Definition bt_range {V} (lo hi : bound) (m : btree V) : option (btree V) :=
  if bt_range_ok lo hi
  then Some (List.filter (fun e => above lo e.1 && below hi e.1) m)
  else None.

Definition bt_sorted {V} (m : btree V) : Prop :=
  StronglySorted (fun a b : Z * V => a.1 < b.1) m.

Lemma bt_sorted_cons {V} (e : Z * V) m :
  bt_sorted (e :: m) <-> bt_sorted m /\ Forall (fun b => e.1 < b.1) m.
Proof. split; [by inversion 1|]. intros []. by constructor. Qed.

Lemma bt_sorted_filter {V} f (m : btree V) :
  bt_sorted m -> bt_sorted (List.filter f m).
Proof.
  induction 1 as [|e m Hm IH He]; simpl; [constructor|].
  case_match; [|done]. apply bt_sorted_cons. split; [done|].
  rewrite Forall_forall in *. intros x Hx. apply He.
  apply list_elem_of_In, filter_In in Hx as [Hx _]. by apply list_elem_of_In.
Qed.

Lemma bt_insert_elem {V} k v (m : btree V) e :
  e ∈ (bt_insert k v m).1 -> e = (k, v) \/ e ∈ m.
Proof.
  induction m as [|[k' v'] m IH]; simpl.
  - rewrite list_elem_of_singleton. auto.
  - repeat case_cmp; simpl; rewrite ?elem_of_cons; naive_solver.
Qed.

Lemma bt_insert_fresh {V} k v (m : btree V) :
  bt_sorted m -> (forall e, e ∈ m -> e.1 <> k) ->
  bt_sorted (bt_insert k v m).1 /\ (bt_insert k v m).2 = None /\
  forall e, e ∈ (bt_insert k v m).1 <-> e = (k, v) \/ e ∈ m.
Proof.
  intros Hs. induction Hs as [|[k' v'] m Hs IH Hle]; intros Hk; simpl.
  - split; [repeat constructor|]. split; [done|]. intros e.
    rewrite list_elem_of_singleton, elem_of_nil. tauto.
  - assert (k <> k') by (intros ->; by apply (Hk (k', v')); [left|]).
    destruct IH as (IHs & IHn & IHe); [intros e He; apply Hk; by right|].
    destruct (Z.ltb_spec k k'), (Z.eqb_spec k k'); simpl; try done; try lia.
    + split; [|split; [done|intros e; rewrite !elem_of_cons; tauto]].
      apply bt_sorted_cons. split; [by constructor|].
      constructor; [done|]. eapply Forall_impl; [done|]. simpl. intros. lia.
    + split; [|split; [done|]].
      * apply bt_sorted_cons. split; [done|]. rewrite Forall_forall in *.
        intros e He. apply IHe in He as [->|He]; simpl; [lia|by apply Hle].
      * intros e. rewrite !elem_of_cons, IHe. tauto.
Qed.

Lemma bt_remove_sorted {V} k (m : btree V) :
  bt_sorted m -> bt_sorted (bt_remove k m).1 /\
  (forall e, e ∈ (bt_remove k m).1 <-> e ∈ m /\ e.1 <> k) /\
  (forall v, (bt_remove k m).2 = Some v <-> (k, v) ∈ m).
Proof.
  induction 1 as [|[k' v'] m Hs (IHs & IHe & IHv) Hle]; simpl.
  - split; [constructor|]. split; intros; rewrite elem_of_nil; naive_solver.
  - rewrite Forall_forall in Hle. case_cmp; simpl.
    + subst k'. split; [done|]. split.
      * intros e. rewrite elem_of_cons. split; [intros He|naive_solver].
        apply Hle in He as ?. naive_solver lia.
      * intros v. rewrite elem_of_cons. split; [naive_solver|].
        intros [?|He]; [naive_solver|]. apply Hle in He. simpl in He. lia.
    + split; [|split].
      * apply bt_sorted_cons. split; [done|]. rewrite Forall_forall.
        intros e He. apply IHe in He as []. by apply Hle.
      * intros e. rewrite !elem_of_cons, IHe. naive_solver.
      * intros v. rewrite IHv, elem_of_cons. naive_solver.
Qed.

Lemma bt_range_elem {V} lo hi (m m' : btree V) e :
  bt_range lo hi m = Some m' ->
  e ∈ m' <-> e ∈ m /\ above lo e.1 = true /\ below hi e.1 = true.
Proof.
  unfold bt_range. case_match; [|done]. intros [= <-].
  rewrite !list_elem_of_In, filter_In, andb_true_iff. tauto.
Qed.

(** ** Binary search

    [slice::binary_search_by]: [f] says how an element compares with the
    target. The loop halves [size] until one candidate is left. *)

Fixpoint bs_loop {A} (fuel : nat) (f : A -> comparison) (l : list A)
    (base size : nat) : nat :=
  match fuel with
  | O => base
  | S fuel =>
      if (size <=? 1)%nat then base
      else
        let half := (size / 2)%nat in
        let mid := (base + half)%nat in
        let base' :=
          match l !! mid with
          | Some x => match f x with Gt => base | _ => mid end
          | None => base
          end in
        bs_loop fuel f l base' (size - half)%nat
  end.

Definition binary_search_by {A} (f : A -> comparison) (l : list A) :
    result nat nat :=
  let b := bs_loop (length l) f l 0 (length l) in
  match l !! b with
  | Some x =>
      match f x with
      | Eq => Ok b
      | Lt => Err (S b)
      | Gt => Err b
      end
  | None => Err 0%nat
  end.

(** The list reads [Lt ... Eq ... Gt]. *)
Definition partitioned {A} (f : A -> comparison) (l : list A) : Prop :=
  forall i j x y, (i < j)%nat -> l !! i = Some x -> l !! j = Some y ->
    (f x = Gt -> f y = Gt) /\ (f y = Lt -> f x = Lt).

Lemma bs_loop_inv {A} (f : A -> comparison) l fuel base size :
  partitioned f l ->
  (size <= S fuel)%nat -> (0 < size)%nat -> (base + size <= length l)%nat ->
  (base = 0%nat \/ exists x, l !! base = Some x /\ f x <> Gt) ->
  (forall j y, (base + size <= j)%nat -> l !! j = Some y -> f y = Gt) ->
  let b := bs_loop fuel f l base size in
  (b < length l)%nat /\
  (b = 0%nat \/ exists x, l !! b = Some x /\ f x <> Gt) /\
  (forall j y, (b < j)%nat -> l !! j = Some y -> f y = Gt).
Proof.
  intros Hp. revert base size.
  induction fuel as [|fuel IH]; intros base size Hf H0 Hlen Hb Hhi;
    cbn [bs_loop].
  { split; [lia|]. split; [done|]. intros j y ? ?. apply (Hhi j); [lia|done]. }
  destruct (Nat.leb_spec size 1).
  { split; [lia|]. split; [done|]. intros j y ? ?. apply (Hhi j); [lia|done]. }
  pose proof (Nat.div_lt size 2 ltac:(lia) ltac:(lia)).
  assert (0 < size / 2)%nat by (apply Nat.div_str_pos; lia).
  destruct (lookup_lt_is_Some_2 l (base + size / 2)) as [x Hx]; [lia|].
  rewrite Hx. destruct (f x) eqn:Hfx.
  - apply IH; try lia; [right; exists x; by rewrite Hfx|].
    intros j y ? ?. apply (Hhi j); [lia|done].
  - apply IH; try lia; [right; exists x; by rewrite Hfx|].
    intros j y ? ?. apply (Hhi j); [lia|done].
  - apply IH; try lia; [done|]. intros j y Hj Hy.
    pose proof (Nat.div_mod_eq size 2). pose proof (Nat.mod_upper_bound size 2).
    destruct (decide (j = base + size / 2)%nat) as [->|]; [congruence|].
    apply (Hp (base + size / 2)%nat j x y); try done. lia.
Qed.

Lemma binary_search_by_Ok {A} (f : A -> comparison) l i :
  binary_search_by f l = Ok i -> exists x, l !! i = Some x /\ f x = Eq.
Proof.
  unfold binary_search_by. case_match eqn:E; [|done].
  case_match eqn:E2; intros [= <-]. eauto.
Qed.

Lemma binary_search_by_Err {A} (f : A -> comparison) l i :
  partitioned f l -> binary_search_by f l = Err i ->
  (i <= length l)%nat /\
  (forall j y, (j < i)%nat -> l !! j = Some y -> f y = Lt) /\
  (forall j y, (i <= j)%nat -> l !! j = Some y -> f y = Gt).
Proof.
  intros Hp. unfold binary_search_by. destruct l as [|x0 l0] eqn:El.
  { simpl. intros [= <-]. split; [done|]. split; intros ? ? ?; by rewrite lookup_nil. }
  rewrite <- El in *.
  destruct (bs_loop_inv f l (length l) 0 (length l)) as (Hlt & Hlo & Hhi);
    subst l; simpl length in *; try lia; eauto.
  { intros j y ? Hy. apply lookup_lt_Some in Hy. simpl in Hy. lia. }
  set (b := bs_loop _ _ _ _ _) in *. set (l := x0 :: l0) in *.
  destruct (lookup_lt_is_Some_2 l b) as [x Hx]; [done|]. rewrite Hx.
  destruct (f x) eqn:Hfx; intros [= <-]; (split; [lia|]).
  - split; [|intros j y ? ?; apply (Hhi j); [lia|done]].
    intros j y ? Hy. destruct (decide (j = b)) as [->|]; [congruence|].
    eapply (Hp j b); eauto. lia.
  - destruct Hlo as [Hb|(x' & Hx' & Hn)]; [|congruence].
    split; [intros; lia|]. intros j y ? Hy.
    destruct (decide (j = b)) as [->|]; [congruence|]. apply (Hhi j); [lia|done].
Qed.

(** ** Lists *)

Lemma length_filter_lt {A} (P Q : A -> bool) (l : list A) x :
  (forall y, P y = true -> Q y = true) ->
  x ∈ l -> P x = false -> Q x = true ->
  (length (List.filter P l) < length (List.filter Q l))%nat.
Proof.
  intros Hpq Hx Hp Hq.
  assert (Hle : forall l', (length (List.filter P l') <= length (List.filter Q l'))%nat).
  { induction l' as [|y l' IH]; simpl; [done|].
    destruct (P y) eqn:Ey; [rewrite (Hpq y Ey); simpl; lia|].
    destruct (Q y); simpl; lia. }
  induction Hx as [x l|x y l Hx IH]; simpl.
  - rewrite Hp, Hq. simpl. specialize (Hle l). lia.
  - specialize (IH Hp Hq). destruct (P y) eqn:Ey; [rewrite (Hpq y Ey); simpl; lia|].
    destruct (Q y); simpl; lia.
Qed.

Lemma sum_list_insert {A} (f : A -> nat) l i p q :
  l !! i = Some p -> (sum_list_with f (<[i := q]> l) + f p = sum_list_with f l + f q)%nat.
Proof. revert i. induction l as [|a l IH]; intros [|i] Hi; simplify_eq/=; [lia|]. specialize (IH i Hi). lia. Qed.

Lemma find_some_elem {A} (f : A -> bool) l x :
  List.find f l = Some x -> x ∈ l /\ f x = true.
Proof. intros [? ?]%List.find_some. by rewrite list_elem_of_In. Qed.

Lemma find_none_elem {A} (f : A -> bool) l x :
  List.find f l = None -> x ∈ l -> f x = false.
Proof. intros H ?%list_elem_of_In. by apply (List.find_none _ _ H). Qed.

Lemma existsb_elem {A} (f : A -> bool) (l : list A) :
  existsb f l = true <-> exists x, x ∈ l /\ f x = true.
Proof. rewrite existsb_exists. by setoid_rewrite list_elem_of_In. Qed.

Lemma existsb_elem_false {A} (f : A -> bool) (l : list A) :
  existsb f l = false <-> forall x, x ∈ l -> f x = false.
Proof.
  rewrite <- not_true_iff_false, existsb_elem. split.
  - intros H x Hx. destruct (f x) eqn:E; [|done]. exfalso. eauto.
  - intros H (x & Hx & Hf). by rewrite H in Hf.
Qed.

