(* ===== verification/ASpace.v ===== *)
(** * The generic address space container

    [crates/vmm-core/src/aspace.rs]: non-overlapping [(start, length) -> T]
    regions inside a bounded range of [usize]. The [BTreeMap] is the sorted
    entry list of the prelude. A function whose Rust body can panic
    ([assert!], [unwrap], [BTreeMap::range]) returns an [option], where
    [None] is the panic; the theorems show that no panic is reachable from
    a well-formed container. *)

From S2P Require Import Prelude.

Module aspace.

Record ASpace (T : Type) : Type := mkASpace {
  start : Z;
  end_ : Z;
  map : btree (Z * T)
}.
Arguments mkASpace {T} start end_ map.
Arguments start {T} a.
Arguments end_ {T} a.
Arguments map {T} a.

Inductive Error : Type :=
| OutOfRange
| BadLength
| Conflict
| NotFound.

#[export] Instance Error_eq_dec : EqDecision Error.
Proof. solve_decision. Defined.

(** [(start, length, item)] of a region. *)
Definition SpaceItem (T : Type) : Type := Z * Z * T.

Section operations.
Context {T : Type}.
Implicit Types (s : ASpace T) (item : T).

(** The inclusive end of a region; [None] when the length is zero or the
    end does not fit a [usize]. *)
Definition safe_end (start len : Z) : option Z :=
  if len =? 0 then None
  else if start =? 0 then Some ((start + len) - 1)
  else checked_add 64 (start - 1) len.

(** Panics when [start > end]. *)
Definition new (start end_ : Z) : option (ASpace T) :=
  if start <=? end_ then Some (mkASpace start end_ []) else None.

Definition kv_flatten (e : Z * (Z * T)) : SpaceItem T :=
  (e.1, e.2.1, e.2.2).

Definition iter s : list (SpaceItem T) := List.map kv_flatten (map s).

(** The region that contains [point]: the last entry that starts at or
    below it, if that entry reaches it. *)
Definition region_at s (point : Z) : option (result Error (SpaceItem T)) :=
  if (point <? start s) || (end_ s <? point) then Some (Err OutOfRange)
  else
    let* below := bt_range Unbounded (Included point) (map s) in
    match last below with
    | Some (st, ent) =>
        let* e := safe_end st ent.1 in
        if point <=? e then Some (Ok (st, ent.1, ent.2))
        else Some (Err NotFound)
    | None => Some (Err NotFound)
    end.

(** The front bound of [covered_by], moved back to the start of the region
    that holds the first point of the range. *)
Definition fixed_front s (lo : bound) : option bound :=
  match lo with
  | Unbounded => Some Unbounded
  | Excluded pos =>
      let* r := region_at s (wadd 64 pos 1) in
      match r with
      | Ok (st, _, _) => Some (Included st)
      | Err _ => Some (Excluded pos)
      end
  | Included pos =>
      let* r := region_at s pos in
      match r with
      | Ok (st, _, _) => Some (Included st)
      | Err _ => Some (Excluded pos)
      end
  end.

(** The regions a range covers, in part or in whole. *)
Definition covered_by s (lo hi : bound) : option (list (SpaceItem T)) :=
  let* front := fixed_front s lo in
  let* m := bt_range front hi (map s) in
  Some (List.map kv_flatten m).

(** Register a region; the [assert!] that nothing was overwritten is the
    last [None]. *)
Definition register s (st len : Z) item : option (result Error (ASpace T)) :=
  match safe_end st len with
  | None => Some (Err BadLength)
  | Some e =>
      if (st <? start s) || (end_ s <? st) || (end_ s <? e)
      then Some (Err OutOfRange)
      else
        let* cover := covered_by s (Included st) (Included e) in
        match cover with
        | _ :: _ => Some (Err Conflict)
        | [] =>
            let r := bt_insert st (len, item) (map s) in
            match r.2 with
            | None => Some (Ok (mkASpace (start s) (end_ s) r.1))
            | Some _ => None
            end
        end
  end.

(** Unregister the region that begins at [st]. *)
Definition unregister s (st : Z) : result Error (T * ASpace T) :=
  let r := bt_remove st (map s) in
  match r.2 with
  | Some (_, item) => Ok (item, mkASpace (start s) (end_ s) r.1)
  | None => Err NotFound
  end.

Definition clear s : ASpace T := mkASpace (start s) (end_ s) [].

(** ** The invariant *)

(** The bytes of an entry. *)
Definition covers (e : Z * (Z * T)) (p : Z) : Prop := e.1 <= p < e.1 + e.2.1.

(** Every entry lies inside the bounds, and an entry ends before the next
    one starts. *)
Record wf s : Prop := {
  wf_bounds : 0 <= start s <= end_ s /\ end_ s < 2 ^ 64;
  wf_sorted : bt_sorted (map s);
  wf_entry : forall e, e ∈ map s ->
    0 < e.2.1 < 2 ^ 64 /\ start s <= e.1 /\ e.1 + e.2.1 - 1 <= end_ s;
  wf_disjoint : forall e1 e2, e1 ∈ map s -> e2 ∈ map s ->
    e1.1 < e2.1 -> e1.1 + e1.2.1 <= e2.1
}.

Lemma safe_end_spec st len :
  uint 64 st -> uint 64 len ->
  safe_end st len =
    if (0 <? len) && (st + len - 1 <? 2 ^ 64) then Some (st + len - 1) else None.
Proof.
  unfold safe_end, checked_add, uint. intros.
  destruct (Z.eqb_spec len 0), (Z.ltb_spec 0 len); simpl; try lia; try done.
  destruct (Z.eqb_spec st 0).
  - destruct (Z.ltb_spec (st + len - 1) (2 ^ 64)); [f_equal|]; lia.
  - replace (st - 1 + len) with (st + len - 1) by lia. done.
Qed.

Lemma safe_end_entry s e :
  wf s -> e ∈ map s -> safe_end e.1 e.2.1 = Some (e.1 + e.2.1 - 1).
Proof.
  intros Hwf He. destruct (wf_entry s Hwf e He) as (? & ? & ?).
  destruct (wf_bounds s Hwf).
  rewrite safe_end_spec by (unfold uint; lia).
  destruct (Z.ltb_spec 0 e.2.1), (Z.ltb_spec (e.1 + e.2.1 - 1) (2 ^ 64)); try lia.
  done.
Qed.

Lemma sorted_unique s e1 e2 :
  wf s -> e1 ∈ map s -> e2 ∈ map s -> e1.1 = e2.1 -> e1 = e2.
Proof.
  intros Hwf. generalize (wf_sorted s Hwf). generalize (map s) as m.
  induction 1 as [|e m Hs IH Hle]; [by rewrite elem_of_nil|].
  rewrite Forall_forall in Hle. rewrite !elem_of_cons.
  intros [->|H1] [->|H2] Heq; auto.
  - apply Hle in H2. lia.
  - apply Hle in H1. lia.
Qed.

(** At most one entry holds a point. *)
Lemma covers_unique s e1 e2 p :
  wf s -> e1 ∈ map s -> e2 ∈ map s -> covers e1 p -> covers e2 p -> e1 = e2.
Proof.
  unfold covers. intros Hwf H1 H2 ? ?.
  destruct (Z.lt_total e1.1 e2.1) as [Hlt|[Heq|Hgt]].
  - pose proof (wf_disjoint s Hwf e1 e2 H1 H2 Hlt). lia.
  - by apply (sorted_unique s).
  - pose proof (wf_disjoint s Hwf e2 e1 H2 H1 Hgt). lia.
Qed.

(** The last entry of a sorted list has the greatest key. *)
Lemma last_greatest (m : btree (Z * T)) e :
  bt_sorted m -> last m = Some e -> e ∈ m /\ forall e', e' ∈ m -> e'.1 <= e.1.
Proof.
  intros Hs. induction Hs as [|x m Hs IH Hle]; [done|].
  destruct m as [|y m].
  - simpl. intros [= <-]. split; [by left|]. intros e'. rewrite list_elem_of_singleton.
    intros ->. done.
  - rewrite last_cons_cons. intros Hl. destruct (IH Hl) as [Hin Hmax].
    split; [by right|]. intros e' [->|He']%elem_of_cons; [|by apply Hmax].
    rewrite Forall_forall in Hle. apply Hle in Hin. lia.
Qed.

(** ** Lookup *)

Lemma region_at_Ok s p :
  wf s -> start s <= p <= end_ s ->
  forall e, e ∈ map s -> covers e p ->
  region_at s p = Some (Ok (kv_flatten e)).
Proof.
  intros Hwf Hp e He Hc. unfold region_at.
  destruct (Z.ltb_spec p (start s)), (Z.ltb_spec (end_ s) p); try lia. simpl.
  set (m := List.filter _ _).
  assert (Hm : forall x, x ∈ m <-> x ∈ map s /\ x.1 <= p).
  { intros x. unfold m. rewrite !list_elem_of_In, filter_In. simpl.
    rewrite Z.leb_le. tauto. }
  assert (He' : e ∈ m) by (apply Hm; unfold covers in Hc; split; [done|lia]).
  destruct (last m) as [[k ent]|] eqn:Hl.
  2:{ apply last_None in Hl. rewrite Hl in He'. by apply elem_of_nil in He'. }
  destruct (last_greatest m (k, ent)) as [Hin Hmax]; [|done|].
  { apply bt_sorted_filter, wf_sorted, Hwf. }
  apply Hm in Hin as [Hin Hk]. simpl in Hk.
  specialize (Hmax e He'). simpl in Hmax.
  assert (Heq : (k, ent) = e).
  { apply (sorted_unique s); try done. simpl. unfold covers in Hc.
    destruct (Z.eq_dec k e.1); [done|].
    pose proof (wf_disjoint s Hwf e (k, ent) He Hin). simpl in *. lia. }
  pose proof (safe_end_entry s (k, ent) Hwf Hin) as Hse. simpl in Hse.
  rewrite Hse. subst e. unfold covers in Hc. simpl in Hc.
  destruct (Z.leb_spec p (k + ent.1 - 1)); [done|lia].
Qed.

Lemma region_at_NotFound s p :
  wf s -> start s <= p <= end_ s ->
  (forall e, e ∈ map s -> ~ covers e p) ->
  region_at s p = Some (Err NotFound).
Proof.
  intros Hwf Hp Hn. unfold region_at.
  destruct (Z.ltb_spec p (start s)), (Z.ltb_spec (end_ s) p); try lia. simpl.
  set (m := List.filter _ _).
  destruct (last m) as [[k ent]|] eqn:Hl; [|done].
  destruct (last_greatest m (k, ent)) as [Hin _]; [|done|].
  { apply bt_sorted_filter, wf_sorted, Hwf. }
  unfold m in Hin. rewrite list_elem_of_In, filter_In in Hin. simpl in Hin.
  rewrite Z.leb_le, <- list_elem_of_In in Hin. destruct Hin as [Hin Hk].
  pose proof (safe_end_entry s (k, ent) Hwf Hin) as Hse. simpl in Hse. rewrite Hse.
  specialize (Hn _ Hin). unfold covers in Hn. simpl in Hn.
  destruct (Z.leb_spec p (k + ent.1 - 1)); [lia|done].
Qed.

#[local] Instance covers_dec e p : Decision (covers e p).
Proof. unfold covers. apply _. Defined.

(** The entry that holds a point, if there is one. *)
Lemma covers_or_not s p :
  (exists e, e ∈ map s /\ covers e p) \/ (forall e, e ∈ map s -> ~ covers e p).
Proof.
  destruct (decide (Exists (fun e => covers e p) (map s))) as [H|H].
  - left. by apply Exists_exists in H.
  - right. intros e He Hc. apply H. apply Exists_exists. eauto.
Qed.

Lemma region_at_inv s p it :
  wf s -> region_at s p = Some (Ok it) ->
  exists e, e ∈ map s /\ covers e p /\ it = kv_flatten e.
Proof.
  intros Hwf Hr.
  assert (start s <= p <= end_ s).
  { unfold region_at in Hr.
    destruct (Z.ltb_spec p (start s)), (Z.ltb_spec (end_ s) p); simpl in Hr; done || lia. }
  destruct (covers_or_not s p) as [(e & He & Hc)|Hn].
  - rewrite (region_at_Ok s p Hwf) with (e := e) in Hr by done.
    exists e. by simplify_eq.
  - by rewrite region_at_NotFound in Hr.
Qed.

(** Two spaces whose entries over a point agree answer alike there. *)
Lemma region_at_other s s' p :
  wf s -> wf s' -> start s' = start s -> end_ s' = end_ s ->
  (forall e, e ∈ map s' /\ covers e p <-> e ∈ map s /\ covers e p) ->
  region_at s' p = region_at s p.
Proof.
  intros Hwf Hwf' Hs He Hel.
  destruct (decide (start s <= p <= end_ s)) as [Hp|Hp].
  - destruct (covers_or_not s p) as [(e & He' & Hc)|Hn].
    + rewrite !(region_at_Ok _ p) with (e := e); try done; [by rewrite Hs, He|].
      by apply Hel.
    + rewrite !region_at_NotFound; try done; [by rewrite Hs, He|].
      intros e He' Hc. destruct (proj1 (Hel e) (conj He' Hc)). by apply (Hn e).
  - unfold region_at. rewrite Hs, He.
    destruct (Z.ltb_spec p (start s)), (Z.ltb_spec (end_ s) p); done || lia.
Qed.

(** ** Range queries *)

(** A region shares a point with the inclusive range. *)
Definition overlaps (e : Z * (Z * T)) (lo hi : Z) : Prop :=
  e.1 <= hi /\ lo < e.1 + e.2.1.

Lemma covered_by_incl s lo hi :
  wf s -> start s <= lo <= hi -> hi <= end_ s ->
  exists m, covered_by s (Included lo) (Included hi) = Some (List.map kv_flatten m) /\
    bt_sorted m /\ forall e, e ∈ m <-> e ∈ map s /\ overlaps e lo hi.
Proof.
  intros Hwf Hlo Hhi. unfold covered_by, fixed_front.
  destruct (covers_or_not s lo) as [(e0 & He0 & Hc)|Hn].
  - rewrite (region_at_Ok s lo Hwf) with (e := e0) by (done || lia).
    unfold kv_flatten, covers in *. simpl.
    unfold bt_range. simpl. destruct (Z.leb_spec e0.1 hi); [|lia].
    eexists. split; [done|]. split; [apply bt_sorted_filter, wf_sorted, Hwf|].
    intros e. rewrite !list_elem_of_In, filter_In, <- !list_elem_of_In.
    rewrite andb_true_iff, !Z.leb_le. unfold overlaps.
    split; intros [He ?]; (split; [done|]).
    + destruct (Z.eq_dec e0.1 e.1) as [Heq|].
      * rewrite <- (sorted_unique s e0 e) by done. lia.
      * pose proof (wf_disjoint s Hwf e0 e He0 He). pose proof (wf_entry s Hwf e He). lia.
    + destruct (Z.lt_ge_cases e.1 e0.1); [|lia].
      pose proof (wf_disjoint s Hwf e e0 He He0). lia.
  - rewrite (region_at_NotFound s lo Hwf) by (done || lia).
    unfold bt_range. simpl. destruct (Z.leb_spec lo hi); [|lia].
    eexists. split; [done|]. split; [apply bt_sorted_filter, wf_sorted, Hwf|].
    intros e. rewrite !list_elem_of_In, filter_In, <- !list_elem_of_In.
    rewrite andb_true_iff, Z.leb_le, Z.ltb_lt. unfold overlaps.
    split; intros [He ?]; (split; [done|]); specialize (Hn e He);
      unfold covers in Hn; pose proof (wf_entry s Hwf e He); lia.
Qed.

Lemma wf_new st e s : 0 <= st -> e < 2 ^ 64 -> new st e = Some s -> wf s.
Proof.
  unfold new. intros ? ?. destruct (Z.leb_spec st e); [|done]. intros [= <-].
  split; simpl; [lia|apply SSorted_nil| |].
  - by intros ? ?%elem_of_nil.
  - by intros ? ? ?%elem_of_nil.
Qed.

Lemma wf_insert s st len item :
  wf s -> 0 < len < 2 ^ 64 -> start s <= st -> st + len - 1 <= end_ s ->
  (forall e, e ∈ map s -> ~ overlaps e st (st + len - 1)) ->
  let r := bt_insert st (len, item) (map s) in
  r.2 = None /\ wf (mkASpace (start s) (end_ s) r.1) /\
  forall e, e ∈ r.1 <-> e = (st, (len, item)) \/ e ∈ map s.
Proof.
  intros Hwf Hlen Hst Hend Hno.
  assert (Hk : forall e, e ∈ map s -> e.1 + e.2.1 <= st \/ st + len <= e.1).
  { intros e He. specialize (Hno e He). unfold overlaps in Hno. lia. }
  destruct (bt_insert_fresh st (len, item) (map s)) as (Hs & Hn & Hel).
  { apply wf_sorted, Hwf. }
  { intros e He. pose proof (wf_entry s Hwf e He). specialize (Hk e He). lia. }
  split; [done|]. split; [|done]. split; simpl.
  - apply Hwf.
  - done.
  - intros e [->|He]%Hel; simpl; [lia|]. by apply (wf_entry s).
  - intros e1 e2 [->|H1]%Hel [->|H2]%Hel; simpl.
    + lia.
    + specialize (Hk e2 H2). pose proof (wf_entry s Hwf e2 H2). lia.
    + specialize (Hk e1 H1). pose proof (wf_entry s Hwf e1 H1). lia.
    + by apply (wf_disjoint s).
Qed.

Lemma wf_remove s st : wf s -> wf (mkASpace (start s) (end_ s) (bt_remove st (map s)).1).
Proof.
  intros Hwf. destruct (bt_remove_sorted st (map s)) as (Hs & He & _).
  { apply wf_sorted, Hwf. }
  split; simpl.
  - apply Hwf.
  - done.
  - intros e [? _]%He. by apply (wf_entry s).
  - intros e1 e2 [? _]%He [? _]%He. by apply (wf_disjoint s).
Qed.

Lemma bt_remove_insert (k : Z) (v : Z * T) (m : btree (Z * T)) :
  bt_sorted m -> (forall e, e ∈ m -> e.1 <> k) ->
  bt_remove k (bt_insert k v m).1 = (m, Some v).
Proof.
  induction 1 as [|[k' v'] m Hs IH Hle]; intros Hk; simpl.
  - by rewrite Z.eqb_refl.
  - assert (k <> k') by (intros ->; by apply (Hk (k', v')); [left|]).
    destruct (Z.ltb_spec k k'); simpl; [by rewrite Z.eqb_refl|].
    destruct (Z.eqb_spec k k'); simpl; [done|].
    destruct (Z.eqb_spec k k'); simpl; [done|].
    rewrite IH; [done|]. intros e He. apply Hk. by right.
Qed.

(** ** Theorems *)

Definition register_post s (st len : Z) item
    (r : option (result Error (ASpace T))) : Prop :=
  match r with
  | Some (Err BadLength) => len = 0 \/ 2 ^ 64 <= st + len - 1
  | Some (Err OutOfRange) =>
      0 < len /\ st + len - 1 < 2 ^ 64 /\ (st < start s \/ end_ s < st + len - 1)
  | Some (Err Conflict) =>
      0 < len /\ start s <= st /\ st + len - 1 <= end_ s /\
      exists e, e ∈ map s /\ overlaps e st (st + len - 1)
  | Some (Ok s') =>
      0 < len /\ start s <= st /\ st + len - 1 <= end_ s /\
      (forall e, e ∈ map s -> ~ overlaps e st (st + len - 1)) /\
      wf s' /\ start s' = start s /\ end_ s' = end_ s /\
      forall e, e ∈ map s' <-> e = (st, (len, item)) \/ e ∈ map s
  | Some (Err NotFound) | None => False
  end.

Lemma register_spec s st len item :
  wf s -> uint 64 st -> uint 64 len ->
  register_post s st len item (register s st len item).
Proof.
  intros Hwf Hst Hlen. unfold register. rewrite safe_end_spec by done.
  unfold uint in *.
  destruct (Z.ltb_spec 0 len), (Z.ltb_spec (st + len - 1) (2 ^ 64)); simpl; try lia.
  destruct (wf_bounds s Hwf).
  destruct (Z.ltb_spec st (start s)); simpl; [lia|].
  destruct (Z.ltb_spec (end_ s) st); simpl; [lia|].
  destruct (Z.ltb_spec (end_ s) (st + len - 1)); simpl; [lia|].
  destruct (covered_by_incl s st (st + len - 1)) as (m & -> & _ & Hm); try done; try lia.
  destruct m as [|e m]; simpl.
  - destruct (wf_insert s st len item) as (-> & Hwf' & Hel); try done; try lia.
    { intros e He Ho. assert (e ∈ []) as Hnil by (by apply Hm). by apply elem_of_nil in Hnil. }
    simpl. split_and!; try done; try lia.
    intros e He Ho. assert (e ∈ []) as Hnil by (by apply Hm). by apply elem_of_nil in Hnil.
  - split_and!; try lia. exists e. apply Hm. by left.
Qed.

(** [register] never panics on a well-formed space, reports each error
    exactly when its cause holds, and otherwise adds the one region and
    keeps the space well formed. *)
Theorem register_correct s st len item :
  wf s -> uint 64 st -> uint 64 len ->
  register_post s st len item (register s st len item).
Proof. apply register_spec. Qed.

Definition region_at_post s (p : Z) (r : option (result Error (SpaceItem T))) : Prop :=
  match r with
  | Some (Ok (st, len, item)) =>
      (st, (len, item)) ∈ map s /\ st <= p < st + len
  | Some (Err OutOfRange) => p < start s \/ end_ s < p
  | Some (Err NotFound) =>
      start s <= p <= end_ s /\
      forall e, e ∈ map s -> ~ covers e p
  | _ => False
  end.

Lemma region_at_total s p :
  wf s -> region_at_post s p (region_at s p).
Proof.
  intros Hwf.
  destruct (decide (start s <= p <= end_ s)) as [Hp|Hp].
  - destruct (covers_or_not s p) as [([k [l x]] & He & Hc)|Hn].
    + rewrite (region_at_Ok s p Hwf) with (e := (k, (l, x))) by done. done.
    + rewrite region_at_NotFound by done. done.
  - unfold region_at.
    destruct (Z.ltb_spec p (start s)), (Z.ltb_spec (end_ s) p); simpl; lia.
Qed.

(** [region_at] never panics on a well-formed space. It answers the one
    registered region that holds the point, [NotFound] when none does, and
    [OutOfRange] outside the bounds. *)
Theorem region_at_correct s p :
  wf s -> region_at_post s p (region_at s p).
Proof. apply region_at_total. Qed.

(** [covered_by] over a range of the space yields, in address order,
    exactly the regions that share a point with the range. *)
Theorem covered_by_correct s lo hi :
  wf s -> start s <= lo <= hi -> hi <= end_ s ->
  exists m, covered_by s (Included lo) (Included hi) = Some (List.map kv_flatten m) /\
    bt_sorted m /\
    forall e, e ∈ m <-> e ∈ map s /\ exists p, covers e p /\ lo <= p <= hi.
Proof.
  intros Hwf Hlo Hhi.
  destruct (covered_by_incl s lo hi) as (m & Hc & Hs & Hm); try done.
  exists m. split_and!; try done. intros e. split.
  - intros [He [? ?]]%Hm. split; [done|]. pose proof (wf_entry s Hwf e He).
    exists (Z.max lo e.1). unfold covers. lia.
  - intros (He & p & Hp & ?). apply Hm. unfold covers, overlaps in *. split; [done|lia].
Qed.

(** The item that answers an access to a point. *)
Definition owner s (p : Z) : option T :=
  match region_at s p with
  | Some (Ok (_, _, item)) => Some item
  | _ => None
  end.

Lemma owner_spec s p x :
  wf s -> owner s p = Some x <-> exists e, e ∈ map s /\ covers e p /\ x = e.2.2.
Proof.
  intros Hwf. unfold owner. split.
  - destruct (region_at s p) as [[[[st len] y]|]|] eqn:Hr; try done. intros [= <-].
    apply region_at_inv in Hr as (e & He & Hc & Heq); [|done].
    exists e. unfold kv_flatten in Heq. by simplify_eq.
  - intros (e & He & Hc & ->).
    assert (start s <= p <= end_ s).
    { pose proof (wf_entry s Hwf e He). unfold covers in Hc. lia. }
    rewrite (region_at_Ok s p Hwf) with (e := e) by done. done.
Qed.

Lemma owner_ext s1 s2 p1 p2 :
  wf s1 -> wf s2 ->
  (forall x, (exists e, e ∈ map s1 /\ covers e p1 /\ x = e.2.2) <->
             (exists e, e ∈ map s2 /\ covers e p2 /\ x = e.2.2)) ->
  owner s1 p1 = owner s2 p2.
Proof.
  intros H1 H2 Hx. apply option_eq. intros x.
  rewrite !owner_spec by done. apply Hx.
Qed.

(** A successful [register] changes which item answers an access at
    exactly the points of the new region: the refinement of the container
    to a partial function from points to items. *)
Theorem register_owner s st len item s' p :
  wf s -> uint 64 st -> uint 64 len ->
  register s st len item = Some (Ok s') ->
  owner s' p = if (st <=? p) && (p <? st + len) then Some item else owner s p.
Proof.
  intros Hwf Hst Hlen Hr. pose proof (register_spec s st len item Hwf Hst Hlen) as Hp.
  rewrite Hr in Hp. destruct Hp as (? & ? & ? & Hno & Hwf' & ? & ? & Hel).
  destruct (Z.leb_spec st p); simpl.
  2:{ apply owner_ext; try done. intros x. split.
      - intros (e & [->|He]%Hel & Hc & ->); [unfold covers in Hc; simpl in Hc; lia|eauto].
      - intros (e & He & ?). exists e. rewrite Hel. auto. }
  destruct (Z.ltb_spec p (st + len)).
  - apply owner_spec; [done|]. exists (st, (len, item)). rewrite Hel.
    unfold covers. simpl. split; [by left|]. split; [lia|done].
  - apply owner_ext; try done. intros x. split.
    + intros (e & [->|He]%Hel & Hc & ->); [unfold covers in Hc; simpl in Hc; lia|eauto].
    + intros (e & He & ?). exists e. rewrite Hel. auto.
Qed.

(** [unregister] gives back the item a [register] stored and restores
    the container to what it was. *)
Theorem register_unregister s st len item s' :
  wf s -> uint 64 st -> uint 64 len ->
  register s st len item = Some (Ok s') ->
  unregister s' st = Ok (item, s).
Proof.
  intros Hwf Hst Hlen Hr. pose proof (register_spec s st len item Hwf Hst Hlen) as Hp.
  rewrite Hr in Hp. destruct Hp as (? & ? & ? & Hno & _ & _ & _ & _).
  unfold register in Hr. repeat case_match; simplify_eq. unfold unregister. simpl.
  rewrite bt_remove_insert; [by destruct s|apply wf_sorted, Hwf|].
  intros e He Hk. apply (Hno e He). unfold overlaps.
  pose proof (wf_entry s Hwf e He). lia.
Qed.

End operations.

#[export] Hint Resolve wf_insert wf_remove : vmm.

(** ** Witnesses: a port space with one UART registered *)

Definition com_space : ASpace Z := mkASpace 0 65535 [(1016, (8, 1))].

Lemma wf_com_space : wf com_space.
Proof.
  split; simpl; [lia|repeat constructor| |].
  - intros e ->%list_elem_of_singleton. simpl. lia.
  - intros e1 e2 ->%list_elem_of_singleton ->%list_elem_of_singleton. simpl. lia.
Qed.

Lemma register_correct_witness :
  register_post com_space 760 8 2 (register com_space 760 8 2).
Proof. apply register_correct; [apply wf_com_space| |]; unfold uint; lia. Defined.

Lemma region_at_correct_witness : region_at_post com_space 1020 (region_at com_space 1020).
Proof. apply region_at_correct, wf_com_space. Defined.

Lemma covered_by_correct_witness :
  exists m, covered_by com_space (Included 1000) (Included 1016) = Some (List.map kv_flatten m) /\
    bt_sorted m /\
    forall e, e ∈ m <-> e ∈ map com_space /\ exists p, covers e p /\ 1000 <= p <= 1016.
Proof. apply covered_by_correct; [apply wf_com_space| |]; simpl; lia. Defined.

Lemma register_owner_witness :
  owner (mkASpace 0 65535 [(760, (8, 2)); (1016, (8, 1))]) 763 =
    if (760 <=? 763) && (763 <? 760 + 8) then Some 2 else owner com_space 763.
Proof.
  apply register_owner; [apply wf_com_space|unfold uint; lia|unfold uint; lia|].
  vm_compute. reflexivity.
Defined.

Lemma register_unregister_witness :
  unregister (mkASpace 0 65535 [(760, (8, 2)); (1016, (8, 1))]) 760 = Ok (2, com_space).
Proof.
  apply (register_unregister com_space 760 8 2 _ wf_com_space); [unfold uint; lia..|].
  vm_compute. reflexivity.
Defined.

End aspace.
