(* ===== verification/Bus.v ===== *)
(** * Port and memory-mapped I/O dispatch

    [crates/vmm-core/src/common.rs] ([ReadOp], [WriteOp], [RWOp]),
    [pio.rs] ([PioBus]) and [mmio.rs] ([MmioBus]). A bus is the address
    space of [ASpace] over handlers. A handler is Rust's
    [Fn(offset, RWOp)] over the state [W] of all devices: what it does
    with [RWOp::Read(&mut ro)], which may write [ro], and what it does
    with [RWOp::Write(&wo)]. *)

From S2P Require Import Prelude ASpace.

Module common.

(** [buf] is the 8-byte array and [len] the number of valid bytes. *)
Record ReadOp : Type := mkReadOp { ro_buf : list Z; ro_len : Z }.
Record WriteOp : Type := mkWriteOp { wo_buf : list Z; wo_len : Z }.

Section read_op.
Implicit Types ro : ReadOp.

(** Panics unless the width is 1 to 8. *)
Definition read_new (len : Z) : option ReadOp :=
  if (0 <? len) && (len <=? 8)
  then Some (mkReadOp (replicate 8 0) (as_u 8 len)) else None.

(** [buf[..n].copy_from_slice(&val.to_le_bytes())]. *)
Definition write_le (n : nat) ro (val : Z) : ReadOp :=
  mkReadOp (le_bytes n val ++ drop n (ro_buf ro)) (ro_len ro).

Definition write_u8 ro val := write_le 1 ro val.
Definition write_u16 ro val := write_le 2 ro val.
Definition write_u32 ro val := write_le 4 ro val.
Definition write_u64 ro val := write_le 8 ro val.

(** Answer from the dword register [val], as seen from one of its bytes. *)
Definition write_dword_at ro (val byte_off : Z) : ReadOp :=
  let shifted := Z.shiftr val (Z.land byte_off 3 * 8) in
  if ro_len ro =? 1 then write_u8 ro (as_u 8 shifted)
  else if ro_len ro =? 2 then write_u16 ro (as_u 16 shifted)
  else write_u32 ro shifted.

Definition write_dword ro (val : Z) : ReadOp := write_dword_at ro val 0.

(** The valid portion of the buffer. *)
Definition read_buf ro : list Z := take (Z.to_nat (ro_len ro)) (ro_buf ro).
End read_op.

Section write_op.
Implicit Types wo : WriteOp.

(** Panics unless the slice has 1 to 8 bytes. *)
Definition from_buf (data : list Z) : option WriteOp :=
  let n := Z.of_nat (length data) in
  if (0 <? n) && (n <=? 8)
  then Some (mkWriteOp (data ++ drop (length data) (replicate 8 0)) (as_u 8 n))
  else None.

Definition read_u8 wo : Z := le_val (take 1 (wo_buf wo)).
Definition read_u16 wo : Z := le_val (take 2 (wo_buf wo)).
Definition read_u32 wo : Z := le_val (take 4 (wo_buf wo)).
Definition read_u64 wo : Z := le_val (wo_buf wo).

(** The value written, widened to a dword. *)
Definition read_dword wo : Z :=
  if wo_len wo =? 1 then read_u8 wo
  else if wo_len wo =? 2 then read_u16 wo
  else read_u32 wo.
End write_op.

(** A device handler over the device state [W]. *)
Record Handler (W : Type) : Type := mkHandler {
  on_read : Z -> ReadOp -> W -> W * ReadOp;
  on_write : Z -> WriteOp -> W -> W
}.
Arguments mkHandler {W} on_read on_write.
Arguments on_read {W} h offset ro w.
Arguments on_write {W} h offset wo w.

(** The array has 8 bytes and the width is one a bus produces. *)
Definition ro_wf (ro : ReadOp) : Prop :=
  length (ro_buf ro) = 8%nat /\ is_bytes (ro_buf ro) /\ 1 <= ro_len ro <= 8.

Lemma ro_wf_new n ro : read_new n = Some ro -> ro_wf ro /\ ro_len ro = n.
Proof.
  unfold read_new. destruct (Z.ltb_spec 0 n), (Z.leb_spec n 8); try done. simpl.
  intros [= <-]. unfold ro_wf, as_u. simpl. rewrite Z.mod_small by lia.
  split_and!; try done; try lia.
  apply (Forall_replicate (uint 8) 8). unfold uint. lia.
Qed.

Lemma write_le_wf n ro val : (n <= 8)%nat -> ro_wf ro -> ro_wf (write_le n ro val).
Proof.
  intros Hn (Hl & Hb & ?). unfold ro_wf, write_le. simpl. split_and!; try lia.
  - rewrite length_app, length_le_bytes, length_drop. lia.
  - apply Forall_app. split; [apply le_bytes_is_bytes|]. by apply Forall_drop.
Qed.

Lemma write_dword_at_wf ro val off : ro_wf ro -> ro_wf (write_dword_at ro val off).
Proof.
  intros. unfold write_dword_at. repeat case_match; apply write_le_wf; done || lia.
Qed.

Lemma read_buf_write_le n ro val :
  Z.to_nat (ro_len ro) = n -> read_buf (write_le n ro val) = le_bytes n val.
Proof.
  intros Hn. unfold read_buf, write_le. simpl. rewrite Hn.
  apply take_app_length'. by rewrite length_le_bytes.
Qed.

Lemma le_bytes_mod n z : le_bytes n (z mod 2 ^ (8 * Z.of_nat n)) = le_bytes n z.
Proof.
  revert z. induction n as [|n IH]; intros z; [done|]. cbn [le_bytes].
  replace (8 * Z.of_nat (S n)) with (8 + 8 * Z.of_nat n) by lia.
  rewrite Z.pow_add_r by lia. change (2 ^ 8) with 256.
  assert (0 < 2 ^ (8 * Z.of_nat n)) by (apply Z.pow_pos_nonneg; lia).
  rewrite Z.rem_mul_r by lia. f_equal.
  - rewrite (Z.mul_comm 256), Z.mod_add, Z.mod_mod by lia. done.
  - rewrite (Z.mul_comm 256), Z.div_add by lia.
    rewrite (Z.div_small (z mod 256)) by (apply Z.mod_pos_bound; lia).
    rewrite Z.add_0_l. apply IH.
Qed.

Lemma le_val_le_bytes_mod n z : le_val (le_bytes n z) = z mod 2 ^ (8 * Z.of_nat n).
Proof.
  rewrite <- le_bytes_mod. apply le_val_le_bytes. apply Z.mod_pos_bound.
  apply Z.pow_pos_nonneg; lia.
Qed.

(** What the device left in the buffer, as one little-endian number. *)
Definition answer (ro : ReadOp) : Z := le_val (read_buf ro).

Lemma answer_write_dword_at ro val off :
  0 <= val -> (ro_len ro = 1 \/ ro_len ro = 2 \/ ro_len ro = 4) ->
  answer (write_dword_at ro val off) =
    Z.shiftr val (8 * (off mod 4)) mod 2 ^ (8 * ro_len ro).
Proof.
  intros Hv Hl. unfold answer, write_dword_at, write_u8, write_u16, write_u32.
  assert (Hm : Z.land off 3 = off mod 4) by (change 3 with (Z.ones 2); by rewrite Z.land_ones).
  rewrite Hm, (Z.mul_comm (off mod 4)).
  destruct Hl as [Hl|[Hl|Hl]]; rewrite Hl; simpl Z.eqb; cbv iota;
    rewrite read_buf_write_le by (rewrite Hl; done);
    rewrite le_val_le_bytes_mod; unfold as_u; simpl Z.of_nat;
    [by rewrite Z.mod_mod by lia..|done].
Qed.

Lemma from_buf_le n val :
  (1 <= n <= 8)%nat ->
  from_buf (le_bytes n val) =
    Some (mkWriteOp (le_bytes n val ++ replicate (8 - n) 0) (Z.of_nat n)).
Proof.
  intros Hn. unfold from_buf. rewrite length_le_bytes.
  destruct (Z.ltb_spec 0 (Z.of_nat n)), (Z.leb_spec (Z.of_nat n) 8); try lia.
  cbn [andb].
  unfold as_u. rewrite Z.mod_small by lia. by rewrite drop_replicate.
Qed.

Lemma take_le_bytes k n z : (k <= n)%nat -> take k (le_bytes n z) = le_bytes k z.
Proof.
  revert n z. induction k as [|k IH]; intros n z Hk; [done|].
  destruct n as [|n]; [lia|]. simpl. f_equal. apply IH. lia.
Qed.

Lemma le_val_zeros l n : le_val (l ++ replicate n 0) = le_val l.
Proof.
  induction l as [|b l IH]; simpl; [|by rewrite IH].
  induction n; simpl; lia.
Qed.

End common.

Module pio.
Import aspace common.

Section pio.
Context {W : Type}.

(** [Mutex<ASpace<Arc<PioFn>>>]: each operation holds the lock for its one
    container call, and a handler runs after the lock is dropped. *)
Definition PioBus : Type := ASpace (Handler W).
Implicit Types (bus : PioBus) (h : Handler W) (w : W).

Definition pio_new : option PioBus := new 0 65535.

Definition pio_register bus (port len : Z) h : option (result Error PioBus) :=
  register bus port len h.

Definition pio_unregister bus (port : Z) : result Error PioBus :=
  match unregister bus port with
  | Ok (_, bus') => Ok bus'
  | Err e => Err e
  end.

(** The offset inside the region and its handler. *)
Definition pio_lookup bus (port : Z) : option (option (Z * Handler W)) :=
  let* r := region_at bus port in
  match r with
  | Ok (st, _, h) => Some (Some (wsub 16 port (as_u 16 st), h))
  | Err _ => Some None
  end.

(** [buf[i]] on the valid slice panics past its end. *)
Definition buf_value (n : nat) (buf : list Z) : option Z :=
  if (n <=? length buf)%nat then Some (le_val (take n buf)) else None.

Definition handle_in bus w (port bytes : Z) : option (W * Z) :=
  if (bytes =? 1) || (bytes =? 2) || (bytes =? 4) then
    let* ro := read_new bytes in
    let* l := pio_lookup bus port in
    let '(w', ro') :=
      match l with
      | Some (offset, h) => on_read h offset ro w
      | None => (w, write_u32 ro 0xFFFFFFFF)
      end in
    let* value :=
      if bytes =? 1 then buf_value 1 (read_buf ro')
      else if bytes =? 2 then buf_value 2 (read_buf ro')
      else buf_value 4 (read_buf ro') in
    Some (w', value)
  else Some (w, 0xFFFFFFFF).

Definition handle_out bus w (port bytes val : Z) : option W :=
  if (bytes =? 1) || (bytes =? 2) || (bytes =? 4) then
    let* wo := from_buf (take (Z.to_nat bytes) (le_bytes 4 val)) in
    let* l := pio_lookup bus port in
    match l with
    | Some (offset, h) => Some (on_write h offset wo w)
    | None => Some w
    end
  else Some w.

(** A bus [pio_new] made and [pio_register] grew. *)
Definition bus_wf bus : Prop := wf bus /\ start bus = 0 /\ end_ bus = 65535.

Lemma pio_new_wf bus : pio_new = Some bus -> bus_wf bus.
Proof.
  intros H. split; [eapply wf_new; [| |exact H]; lia|].
  unfold pio_new, new in H. simpl in H. by simplify_eq.
Qed.

Lemma pio_lookup_spec bus port :
  bus_wf bus -> uint 16 port ->
  pio_lookup bus port = Some (
    match region_at bus port with
    | Some (Ok (st, _, h)) => Some (port - st, h)
    | _ => None
    end).
Proof.
  intros (Hwf & Hs & He) Hp. unfold pio_lookup.
  pose proof (region_at_total bus port Hwf) as Ht.
  destruct (region_at bus port) as [[[[st len] h]|e]|]; [|done|by destruct Ht].
  destruct Ht as [Hin Hc]. pose proof (wf_entry bus Hwf _ Hin) as Hent.
  simpl in Hent. unfold uint in Hp. rewrite Hs in Hent.
  rewrite (as_u_small 16) by (unfold uint; lia).
  rewrite wsub_small by lia. done.
Qed.

Lemma buf_value_full n buf :
  length buf = n -> buf_value n buf = Some (le_val buf).
Proof.
  intros Hn. unfold buf_value. rewrite Hn, Nat.leb_refl.
  rewrite take_ge by lia. done.
Qed.

(** Every answer a handler gives is a well-formed buffer of the same width. *)
Definition handler_wf h : Prop :=
  forall off ro w, ro_wf ro ->
    ro_wf (on_read h off ro w).2 /\ ro_len (on_read h off ro w).2 = ro_len ro.

(** The access of [bytes] bytes at [port], given what the lookup found. *)
Lemma handle_in_found bus w port bytes ro :
  bus_wf bus -> uint 16 port -> bytes ∈ [1; 2; 4] -> read_new bytes = Some ro ->
  (forall st len h, region_at bus port = Some (Ok (st, len, h)) -> handler_wf h) ->
  handle_in bus w port bytes = Some (
    match region_at bus port with
    | Some (Ok (st, _, h)) =>
        let r := on_read h (port - st) ro w in (r.1, answer r.2)
    | _ => (w, 2 ^ (8 * bytes) - 1)
    end).
Proof.
  intros Hb Hp Hn Hro Hh. unfold handle_in.
  rewrite pio_lookup_spec by done. rewrite Hro.
  apply ro_wf_new in Hro as [Hrow Hlen].
  assert (Hv : forall n ro', ro_wf ro' -> ro_len ro' = bytes -> Z.of_nat n = bytes ->
    buf_value n (read_buf ro') = Some (answer ro')).
  { intros n ro' (Hl & _ & ?) <- Hnb. apply buf_value_full. unfold read_buf.
    rewrite length_take. lia. }
  rewrite !elem_of_cons, elem_of_nil in Hn.
  destruct Hb as (Hwf & _). pose proof (region_at_total bus port Hwf) as Ht.
  destruct (region_at bus port) as [[[[st len] h]|e]|]; [| |by destruct Ht].
  - destruct (Hh _ _ _ eq_refl (port - st) ro w Hrow) as [Hw' Hl']. simpl in Hw', Hl'.
    destruct (on_read h (port - st) ro w) as [w' ro']. simpl in *.
    destruct Hn as [->|[->|[->|[]]]]; simpl; rewrite Hv by (done || congruence); done.
  - assert (Hw' : ro_wf (write_u32 ro 0xFFFFFFFF)) by (apply write_le_wf; [lia|done]).
    assert (Ha : answer (write_u32 ro 0xFFFFFFFF) = 2 ^ (8 * bytes) - 1).
    { unfold answer, read_buf, write_u32, write_le. simpl. rewrite Hlen.
      destruct Hn as [->|[->|[->|[]]]]; done. }
    rewrite <- Ha.
    destruct Hn as [->|[->|[->|[]]]]; simpl; rewrite Hv by done; done.
Qed.

Lemma handle_in_spec bus w port bytes ro :
  bus_wf bus -> uint 16 port -> bytes ∈ [1; 2; 4] -> read_new bytes = Some ro ->
  (forall e, e ∈ map bus -> handler_wf e.2.2) ->
  handle_in bus w port bytes = Some (
    match region_at bus port with
    | Some (Ok (st, _, h)) =>
        let r := on_read h (port - st) ro w in (r.1, answer r.2)
    | _ => (w, 2 ^ (8 * bytes) - 1)
    end).
Proof.
  intros Hb Hp Hn Hro Hh. apply handle_in_found; try done. intros st len h Hr.
  pose proof (region_at_total bus port (proj1 Hb)) as Ht. rewrite Hr in Ht. destruct Ht as [Hin _]. apply (Hh _ Hin).
Qed.

Lemma region_at_owner bus st len h bus' p :
  bus_wf bus -> uint 16 st -> uint 16 len ->
  pio_register bus st len h = Some (Ok bus') ->
  bus_wf bus' /\
  region_at bus' p =
    if (st <=? p) && (p <? st + len) then Some (Ok (st, len, h)) else region_at bus p.
Proof.
  intros (Hwf & Hs & He) Hst Hlen Hr. unfold pio_register in Hr.
  unfold uint in *. change (2 ^ 16) with 65536 in *.
  pose proof (register_spec bus st len h Hwf) as Hp. rewrite Hr in Hp.
  destruct Hp as (? & ? & ? & Hno & Hwf' & Hs' & He' & Hel); [unfold uint; lia..|].
  split; [unfold bus_wf; split_and!; [done|congruence..]|].
  destruct (Z.leb_spec st p), (Z.ltb_spec p (st + len)); simpl;
    try (apply (region_at_other bus bus' p); [done..|];
         intros e; rewrite Hel; unfold covers; split; [|tauto];
         intros [[->|?] ?]; simpl in *; [lia|done]).
  apply (region_at_Ok bus' p Hwf') with (e := (st, (len, h))).
  - rewrite Hs', He'. lia.
  - apply Hel. by left.
  - unfold covers. simpl. lia.
Qed.

(** A successful [register] routes exactly the ports of its range to
    the new handler, with the offset inside the range and the width of the
    access; every other port answers as before. *)
Theorem pio_register_routes bus st len h bus' :
  bus_wf bus -> uint 16 st -> uint 16 len ->
  (forall e, e ∈ map bus -> handler_wf e.2.2) -> handler_wf h ->
  pio_register bus st len h = Some (Ok bus') ->
  forall w p bytes ro, uint 16 p -> bytes ∈ [1; 2; 4] -> read_new bytes = Some ro ->
  handle_in bus' w p bytes =
    if (st <=? p) && (p <? st + len)
    then let r := on_read h (p - st) ro w in Some (r.1, answer r.2)
    else handle_in bus w p bytes.
Proof.
  intros Hb Hst Hlen Hh Hh' Hr w p bytes ro Hp Hn Hro.
  destruct (region_at_owner bus st len h bus' p) as [Hb' Hreg]; try done.
  rewrite !(handle_in_spec _ w p bytes ro); try done.
  - rewrite Hreg. by destruct ((st <=? p) && (p <? st + len)).
  - intros e He. unfold pio_register in Hr.
    destruct Hb as (Hwf & _). unfold uint in *. change (2 ^ 16) with 65536 in *.
    pose proof (register_spec bus st len h Hwf) as Hsp. rewrite Hr in Hsp.
    destruct Hsp as (_ & _ & _ & _ & _ & _ & _ & Hel); [unfold uint; lia..|].
    apply Hel in He as [->|He]; [done|by apply Hh].
Qed.

(** An access to a port no handler claims reads all ones at its width,
    ignores a write, and leaves every device alone; an access of a width
    other than 1, 2 or 4 reaches no device. *)
Theorem pio_unclaimed_floats bus w p bytes val :
  bus_wf bus -> uint 16 p -> uint 8 bytes ->
  (forall e, e ∈ map bus -> ~ covers e p) \/ bytes ∉ [1; 2; 4] ->
  handle_in bus w p bytes =
    Some (w, if bool_decide (bytes ∈ [1; 2]) then 2 ^ (8 * bytes) - 1 else 0xFFFFFFFF) /\
  handle_out bus w p bytes val = Some w.
Proof.
  intros Hb Hp Hby Hc.
  destruct (decide (bytes ∈ [1; 2; 4])) as [Hn|Hn].
  - destruct Hc as [Hc|Hc]; [|done].
    assert (Hreg : region_at bus p = Some (Err NotFound)).
    { destruct Hb as (Hwf & Hs & He). unfold uint in Hp.
      apply region_at_NotFound; [done|rewrite Hs, He; lia|done]. }
    unfold handle_in, handle_out. rewrite !pio_lookup_spec, Hreg by done.
    rewrite !elem_of_cons, elem_of_nil in Hn. by destruct Hn as [->|[->|[->|[]]]].
  - unfold handle_in, handle_out. rewrite !elem_of_cons, elem_of_nil in Hn.
    destruct (Z.eqb_spec bytes 1), (Z.eqb_spec bytes 2), (Z.eqb_spec bytes 4);
      try (exfalso; tauto). simpl.
    rewrite bool_decide_false; [done|]. rewrite !elem_of_cons, elem_of_nil. tauto.
Qed.

(** The value of an OUT reaches the handler cut to the access width,
    and a register a handler answers with [write_dword_at] reads back as
    the bytes the access named. *)
Theorem pio_value_exact bus w p bytes val st len h :
  bus_wf bus -> uint 16 p -> bytes ∈ [1; 2; 4] -> uint 32 val ->
  region_at bus p = Some (Ok (st, len, h)) ->
  exists wo, handle_out bus w p bytes val = Some (on_write h (p - st) wo w) /\
    read_dword wo = val mod 2 ^ (8 * bytes) /\ wo_len wo = bytes /\
    forall ro, read_new bytes = Some ro ->
      answer (write_dword_at ro val (p - st)) =
        Z.shiftr val (8 * ((p - st) mod 4)) mod 2 ^ (8 * bytes).
Proof.
  intros Hb Hp Hn Hv Hreg.
  assert (Ha : forall ro, read_new bytes = Some ro ->
      answer (write_dword_at ro val (p - st)) =
        Z.shiftr val (8 * ((p - st) mod 4)) mod 2 ^ (8 * bytes)).
  { intros ro [_ <-]%ro_wf_new. apply answer_write_dword_at; [unfold uint in Hv; lia|].
    rewrite !elem_of_cons, elem_of_nil in Hn. tauto. } unfold handle_out. rewrite pio_lookup_spec, Hreg by done.
  rewrite !elem_of_cons, elem_of_nil in Hn.
  destruct Hn as [->|[->|[->|[]]]]; simpl orb; cbv iota.
  - rewrite take_le_bytes, from_buf_le by (simpl; lia). eexists. split; [done|].
    split; [apply (le_val_le_bytes_mod 1)|done].
  - rewrite take_le_bytes, from_buf_le by (simpl; lia). eexists. split; [done|].
    split; [apply (le_val_le_bytes_mod 2)|done].
  - rewrite take_le_bytes, from_buf_le by (simpl; lia). eexists. split; [done|].
    split; [apply (le_val_le_bytes_mod 4)|done].
Qed.

End pio.
Arguments PioBus : clear implicits.
End pio.

Module mmio.
Import aspace common.

Section mmio.
Context {W : Type}.

Definition MAX_PHYSMEM : Z := 0x100000000000.

Definition MmioBus : Type := ASpace (Handler W).
Implicit Types (bus : MmioBus) (h : Handler W) (w : W).

Definition mmio_new : option MmioBus := new 0 (MAX_PHYSMEM - 1).

Definition mmio_register bus (addr len : Z) h : option (result Error MmioBus) :=
  register bus addr len h.

Definition mmio_unregister bus (addr : Z) : result Error MmioBus :=
  match unregister bus addr with
  | Ok (_, bus') => Ok bus'
  | Err e => Err e
  end.

Definition mmio_lookup bus (addr : Z) : option (option (Z * Handler W)) :=
  let* r := region_at bus addr in
  match r with
  | Ok (st, _, h) => Some (Some (wsub 64 addr st, h))
  | Err _ => Some None
  end.

Definition handle_read bus w (addr bytes : Z) : option (W * Z) :=
  if (bytes =? 1) || (bytes =? 2) || (bytes =? 4) || (bytes =? 8) then
    let* ro := read_new bytes in
    let* l := mmio_lookup bus addr in
    let '(w', ro') :=
      match l with
      | Some (offset, h) => on_read h offset ro w
      | None => (w, write_u64 ro 0xFFFFFFFFFFFFFFFF)
      end in
    let* value :=
      if bytes =? 1 then pio.buf_value 1 (read_buf ro')
      else if bytes =? 2 then pio.buf_value 2 (read_buf ro')
      else if bytes =? 4 then pio.buf_value 4 (read_buf ro')
      else pio.buf_value 8 (read_buf ro') in
    Some (w', value)
  else Some (w, 0xFFFFFFFFFFFFFFFF).

Definition handle_write bus w (addr bytes val : Z) : option W :=
  if (bytes =? 1) || (bytes =? 2) || (bytes =? 4) || (bytes =? 8) then
    let* wo := from_buf (take (Z.to_nat bytes) (le_bytes 8 val)) in
    let* l := mmio_lookup bus addr in
    match l with
    | Some (offset, h) => Some (on_write h offset wo w)
    | None => Some w
    end
  else Some w.

Definition mmio_wf bus : Prop := wf bus /\ start bus = 0 /\ end_ bus = MAX_PHYSMEM - 1.

Lemma mmio_new_wf bus : mmio_new = Some bus -> mmio_wf bus.
Proof.
  intros H. split; [eapply wf_new; [| |exact H]; unfold MAX_PHYSMEM; lia|].
  unfold mmio_new, new in H. simpl in H. by simplify_eq.
Qed.

Lemma mmio_lookup_spec bus addr :
  mmio_wf bus -> uint 64 addr ->
  mmio_lookup bus addr = Some (
    match region_at bus addr with
    | Some (Ok (st, _, h)) => Some (addr - st, h)
    | _ => None
    end).
Proof.
  intros (Hwf & Hs & He) Hp. unfold mmio_lookup.
  pose proof (region_at_total bus addr Hwf) as Ht.
  destruct (region_at bus addr) as [[[[st len] h]|e]|]; [|done|by destruct Ht].
  destruct Ht as [Hin Hc]. pose proof (wf_entry bus Hwf _ Hin) as Hent.
  simpl in Hent. unfold uint in Hp. rewrite Hs in Hent.
  rewrite wsub_small by lia. done.
Qed.

(** An MMIO access of 1, 2, 4 or 8 bytes never panics. One inside a
    registered region reaches that region's handler, with the offset from
    the region's base and the written value cut to the access width; one
    outside every region reads all ones and writes nothing. *)
Theorem mmio_dispatch bus w addr bytes val ro :
  mmio_wf bus -> uint 64 addr -> bytes ∈ [1; 2; 4; 8] -> uint 64 val ->
  (forall e, e ∈ map bus -> pio.handler_wf e.2.2) -> read_new bytes = Some ro ->
  match region_at bus addr with
  | Some (Ok (st, len, h)) =>
      st <= addr < st + len /\
      handle_read bus w addr bytes =
        (let r := on_read h (addr - st) ro w in Some (r.1, answer r.2)) /\
      exists wo, handle_write bus w addr bytes val = Some (on_write h (addr - st) wo w) /\
        read_u64 wo = val mod 2 ^ (8 * bytes) /\ wo_len wo = bytes
  | _ =>
      handle_read bus w addr bytes = Some (w, 2 ^ (8 * bytes) - 1) /\
      handle_write bus w addr bytes val = Some w
  end.
Proof.
  intros Hb Hp Hn Hval Hh Hro.
  assert (Hwr : exists wo, from_buf (take (Z.to_nat bytes) (le_bytes 8 val)) = Some wo /\
    read_u64 wo = val mod 2 ^ (8 * bytes) /\ wo_len wo = bytes).
  { assert (1 <= Z.to_nat bytes <= 8)%nat.
    { rewrite !elem_of_cons, elem_of_nil in Hn. lia. }
    rewrite take_le_bytes, from_buf_le by lia. eexists. split; [done|].
    unfold read_u64. simpl. rewrite le_val_zeros, le_val_le_bytes_mod.
    split; [repeat f_equal|]; lia. }
  destruct Hwr as (wo & Hwo & Hval' & Hwl).
  unfold handle_read, handle_write. rewrite mmio_lookup_spec, Hro, Hwo by done.
  apply ro_wf_new in Hro as [Hrow Hlen].
  assert (Hv : forall n ro', ro_wf ro' -> ro_len ro' = bytes -> Z.of_nat n = bytes ->
    pio.buf_value n (read_buf ro') = Some (answer ro')).
  { intros n ro' (Hl & _ & ?) <- Hnb. apply pio.buf_value_full. unfold read_buf.
    rewrite length_take. lia. }
  rewrite !elem_of_cons, elem_of_nil in Hn.
  destruct Hb as (Hwf & _). pose proof (region_at_total bus addr Hwf) as Ht.
  destruct (region_at bus addr) as [[[[st len] h]|e]|]; [| |by destruct Ht].
  - destruct Ht as [Hin Hc]. split; [done|].
    destruct (Hh _ Hin (addr - st) ro w Hrow) as [Hw' Hl']. simpl in Hw', Hl'.
    destruct (on_read h (addr - st) ro w) as [w' ro']. simpl in *. split.
    + destruct Hn as [->|[->|[->|[->|[]]]]]; simpl; rewrite Hv by (done || congruence); done.
    + exists wo. by destruct Hn as [->|[->|[->|[->|[]]]]].
  - assert (Hw' : ro_wf (write_u64 ro 0xFFFFFFFFFFFFFFFF)) by (apply write_le_wf; [lia|done]).
    assert (Ha : answer (write_u64 ro 0xFFFFFFFFFFFFFFFF) = 2 ^ (8 * bytes) - 1).
    { unfold answer, read_buf, write_u64, write_le. simpl. rewrite Hlen.
      destruct Hn as [->|[->|[->|[->|[]]]]]; done. }
    rewrite <- Ha. split.
    + destruct Hn as [->|[->|[->|[->|[]]]]]; simpl; rewrite Hv by done; done.
    + by destruct Hn as [->|[->|[->|[->|[]]]]].
Qed.

End mmio.
Arguments MmioBus : clear implicits.
End mmio.

(** ** Witnesses: a device that answers its offset and logs its writes *)

Module bus_example.
Import aspace common pio mmio.

Definition echo : Handler (list (Z * Z)) :=
  mkHandler (fun off ro w => (w, write_dword ro (0x42 + off)))
            (fun off wo w => (off, read_dword wo) :: w).

Definition echo_bus (hi : Z) : ASpace (Handler (list (Z * Z))) :=
  mkASpace 0 hi [(1016, (8, echo))].

Lemma echo_wf : handler_wf echo.
Proof.
  intros off ro w Hro. split; [by apply write_dword_at_wf|].
  simpl. unfold write_dword, write_dword_at. by repeat case_match.
Qed.

Lemma echo_bus_wf hi : 65535 <= hi < 2 ^ 64 -> wf (echo_bus hi).
Proof.
  intros Hhi. split; simpl; [lia|repeat constructor| |].
  - intros e ->%list_elem_of_singleton. simpl. lia.
  - intros e1 e2 ->%list_elem_of_singleton ->%list_elem_of_singleton. simpl. lia.
Qed.

Lemma echo_bus_handlers hi e : e ∈ map (echo_bus hi) -> handler_wf e.2.2.
Proof. intros ->%list_elem_of_singleton. apply echo_wf. Qed.

Lemma pio_register_routes_witness :
  handle_in (mkASpace 0 65535 [(760, (8, echo)); (1016, (8, echo))]) [] 762 1 =
    if (760 <=? 762) && (762 <? 760 + 8)
    then let r := on_read echo (762 - 760) (mkReadOp (replicate 8 0) 1) [] in
         Some (r.1, answer r.2)
    else handle_in (echo_bus 65535) [] 762 1.
Proof.
  apply (pio_register_routes (echo_bus 65535) 760 8 echo).
  - split; [apply echo_bus_wf; lia|done].
  - unfold uint; lia.
  - unfold uint; lia.
  - apply echo_bus_handlers.
  - apply echo_wf.
  - reflexivity.
  - unfold uint; lia.
  - left.
  - reflexivity.
Defined.

Lemma pio_unclaimed_floats_witness :
  handle_in (echo_bus 65535) [] 0x80 2 =
    Some ([], if bool_decide (2 ∈ [1; 2]) then 2 ^ (8 * 2) - 1 else 0xFFFFFFFF) /\
  handle_out (echo_bus 65535) [] 0x80 2 7 = Some [].
Proof.
  apply (pio_unclaimed_floats (echo_bus 65535)).
  - split; [apply echo_bus_wf; lia|done].
  - unfold uint; lia.
  - unfold uint; lia.
  - left. intros e ->%list_elem_of_singleton. unfold covers. simpl. lia.
Defined.

Lemma pio_value_exact_witness :
  exists wo, handle_out (echo_bus 65535) [] 1017 2 0xABCDE = Some (on_write echo (1017 - 1016) wo []) /\
    read_dword wo = 0xABCDE mod 2 ^ (8 * 2) /\ wo_len wo = 2 /\
    forall ro, read_new 2 = Some ro ->
      answer (write_dword_at ro 0xABCDE (1017 - 1016)) =
        Z.shiftr 0xABCDE (8 * ((1017 - 1016) mod 4)) mod 2 ^ (8 * 2).
Proof.
  apply (pio_value_exact (echo_bus 65535) [] 1017 2 0xABCDE 1016 8 echo).
  - split; [apply echo_bus_wf; lia|done].
  - unfold uint; lia.
  - right; left.
  - unfold uint; lia.
  - reflexivity.
Defined.

Lemma mmio_dispatch_witness :
  handle_read (echo_bus (MAX_PHYSMEM - 1)) [] 0x80 8 = Some ([], 2 ^ (8 * 8) - 1) /\
  handle_write (echo_bus (MAX_PHYSMEM - 1)) [] 0x80 8 7 = Some [].
Proof.
  apply (mmio_dispatch (echo_bus (MAX_PHYSMEM - 1)) [] 0x80 8 7 (mkReadOp (replicate 8 0) 8)).
  - split; [apply echo_bus_wf; unfold MAX_PHYSMEM; lia|done].
  - unfold uint; lia.
  - right; right; right; left.
  - unfold uint; lia.
  - apply echo_bus_handlers.
  - reflexivity.
Defined.

End bus_example.
