(* ===== verification/Mapping.v ===== *)
(** * Host mappings of guest memory

    [crates/vmm-core/src/mem/mapping.rs]: [Mapping], an mmap of guest
    memory, and [SubMapping], a bounds-checked view of one. The process
    memory that the raw pointers reach is a finite map from host addresses
    to bytes; [mmap] gives the pointer of a mapping. *)

From S2P Require Import Prelude.

Module mapping.

(** [std::io::ErrorKind], as far as the crate uses it. *)
Inductive ErrorKind : Type :=
| InvalidInput
| PermissionDenied
| AlreadyExists
| AddrNotAvailable
| UnexpectedEof
| Interrupted
| Other.

#[export] Instance ErrorKind_eq_dec : EqDecision ErrorKind.
Proof. solve_decision. Defined.

(** ** Protection flags *)

Definition READ : Z := 1.
Definition WRITE : Z := 2.
Definition EXEC : Z := 4.
Definition RW : Z := Z.lor READ WRITE.
Definition RWX : Z := Z.lor (Z.lor READ WRITE) EXEC.

Definition intersection (p q : Z) : Z := Z.land p q.
Definition contains (p q : Z) : bool := Z.land p q =? q.

(** ** Host memory *)

Abbreviation hostmem := (gmap Z Z).

Definition peek (hm : hostmem) (a : Z) : Z := default 0 (hm !! a).

Definition peek_range (hm : hostmem) (a : Z) (n : nat) : list Z :=
  (fun i => peek hm (a + Z.of_nat i)) <$> seq 0 n.

Fixpoint poke_range (hm : hostmem) (a : Z) (data : list Z) : hostmem :=
  match data with
  | [] => hm
  | b :: data => poke_range (<[a := b]> hm) (a + 1) data
  end.

Lemma peek_poke_out hm a data x :
  x < a \/ a + Z.of_nat (length data) <= x ->
  peek (poke_range hm a data) x = peek hm x.
Proof.
  revert hm a. induction data as [|b data IH]; intros hm a Hx; [done|].
  simpl in *. rewrite IH by lia. unfold peek. by rewrite lookup_insert_ne by lia.
Qed.

Lemma peek_poke_in hm a data i b :
  data !! i = Some b -> peek (poke_range hm a data) (a + Z.of_nat i) = b.
Proof.
  revert hm a i. induction data as [|c data IH]; intros hm a i Hi; [done|].
  destruct i as [|i]; simpl in *.
  - simplify_eq. rewrite Z.add_0_r, peek_poke_out by lia.
    unfold peek. by rewrite lookup_insert_eq.
  - replace (a + Z.of_nat (S i)) with (a + 1 + Z.of_nat i) by lia. by apply IH.
Qed.

Lemma length_peek_range hm a n : length (peek_range hm a n) = n.
Proof. unfold peek_range. by rewrite length_fmap, length_seq. Qed.

Lemma peek_range_lookup hm a n i :
  (i < n)%nat -> peek_range hm a n !! i = Some (peek hm (a + Z.of_nat i)).
Proof.
  intros Hi. unfold peek_range. rewrite list_lookup_fmap, lookup_seq_lt by done. done.
Qed.

Lemma peek_range_ext hm hm' a a' n :
  (forall i, (i < n)%nat -> peek hm (a + Z.of_nat i) = peek hm' (a' + Z.of_nat i)) ->
  peek_range hm a n = peek_range hm' a' n.
Proof.
  intros H. apply list_eq. intros i.
  destruct (decide (i < n)%nat).
  - rewrite !peek_range_lookup by done. by rewrite H.
  - rewrite !lookup_ge_None_2; rewrite ?length_peek_range; done || lia.
Qed.

Lemma peek_range_poke_same hm a data :
  peek_range (poke_range hm a data) a (length data) = data.
Proof.
  apply list_eq. intros i. destruct (decide (i < length data)%nat) as [Hi|].
  - rewrite peek_range_lookup by done.
    destruct (lookup_lt_is_Some_2 data i Hi) as [b Hb].
    rewrite (peek_poke_in _ _ _ _ _ Hb). done.
  - rewrite !lookup_ge_None_2; rewrite ?length_peek_range; done || lia.
Qed.

Lemma peek_range_poke_in hm a data i n :
  (i + n <= length data)%nat ->
  peek_range (poke_range hm a data) (a + Z.of_nat i) n = take n (drop i data).
Proof.
  intros Hle. apply list_eq. intros j. destruct (decide (j < n)%nat) as [Hj|].
  - rewrite peek_range_lookup, lookup_take_lt, lookup_drop by done.
    destruct (lookup_lt_is_Some_2 data (i + j)) as [b Hb]; [lia|]. rewrite Hb.
    rewrite <- Z.add_assoc, <- Nat2Z.inj_add. by rewrite (peek_poke_in _ _ _ _ _ Hb).
  - rewrite !lookup_ge_None_2; rewrite ?length_peek_range, ?length_take; done || lia.
Qed.

Lemma peek_range_poke_disjoint hm a data x n :
  x + Z.of_nat n <= a \/ a + Z.of_nat (length data) <= x ->
  peek_range (poke_range hm a data) x n = peek_range hm x n.
Proof. intros H. apply peek_range_ext. intros i Hi. apply peek_poke_out. lia. Qed.

Lemma peek_bytes hm a :
  (forall x b, hm !! x = Some b -> uint 8 b) -> uint 8 (peek hm a).
Proof.
  intros Hb. unfold peek. destruct (hm !! a) eqn:E; simpl; [by eapply Hb|].
  unfold uint. lia.
Qed.

(** ** Mappings and views *)

Record Mapping : Type := mkMapping { m_ptr : Z; m_len : Z; m_prot : Z }.

#[export] Instance Mapping_eq_dec : EqDecision Mapping.
Proof. solve_decision. Defined.

Record SubMapping : Type := mkSub { s_ptr : Z; s_len : Z; s_prot : Z }.

(** [Mapping::new]: [mmap] is the kernel's answer, a pointer or an error. *)
Definition mapping_new (size prot : Z) (mmap : result ErrorKind Z) :
    result ErrorKind Mapping :=
  if size =? 0 then Err InvalidInput
  else let? ptr := mmap in Ok (mkMapping ptr size prot).

Definition sub_new (m : Mapping) : SubMapping :=
  mkSub (m_ptr m) (m_len m) (m_prot m).

Definition restrict (s : SubMapping) (prot : Z) : SubMapping :=
  mkSub (s_ptr s) (s_len s) (intersection (s_prot s) prot).

Definition subregion (s : SubMapping) (offset len : Z) : option SubMapping :=
  let* e := checked_add 64 offset len in
  if s_len s <? e then None
  else Some (mkSub (s_ptr s + offset) len (s_prot s)).

(** [SubMapping::read::<T>] for a [T] of [size] bytes aligned to [align]:
    the bytes of the value. *)
Definition read (hm : hostmem) (s : SubMapping) (size align : Z) :
    result ErrorKind (list Z) :=
  if negb (contains (s_prot s) READ) then Err PermissionDenied
  else if s_len s <? size then Err InvalidInput
  else if negb (is_multiple_of (s_ptr s) align) then Err InvalidInput
  else Ok (peek_range hm (s_ptr s) (Z.to_nat size)).

(** [SubMapping::write::<T>] of a value given by its bytes. *)
Definition write (hm : hostmem) (s : SubMapping) (align : Z) (val : list Z) :
    result ErrorKind hostmem :=
  if negb (contains (s_prot s) WRITE) then Err PermissionDenied
  else if s_len s <? Z.of_nat (length val) then Err InvalidInput
  else if negb (is_multiple_of (s_ptr s) align) then Err InvalidInput
  else Ok (poke_range hm (s_ptr s) val).

(** [read_bytes] into a buffer of [n] bytes. *)
Definition read_bytes (hm : hostmem) (s : SubMapping) (n : nat) :
    result ErrorKind (list Z) :=
  if negb (contains (s_prot s) READ) then Err PermissionDenied
  else if s_len s <? Z.of_nat n then Err InvalidInput
  else Ok (peek_range hm (s_ptr s) n).

(** [copy_out] is the same copy with a plain memcpy. *)
Definition copy_out (hm : hostmem) (s : SubMapping) (n : nat) :
    result ErrorKind (list Z) :=
  if negb (contains (s_prot s) READ) then Err PermissionDenied
  else if s_len s <? Z.of_nat n then Err InvalidInput
  else Ok (peek_range hm (s_ptr s) n).

Definition write_bytes (hm : hostmem) (s : SubMapping) (data : list Z) :
    result ErrorKind hostmem :=
  if negb (contains (s_prot s) WRITE) then Err PermissionDenied
  else if s_len s <? Z.of_nat (length data) then Err InvalidInput
  else Ok (poke_range hm (s_ptr s) data).

Definition copy_in (hm : hostmem) (s : SubMapping) (src : list Z) :
    result ErrorKind hostmem :=
  if negb (contains (s_prot s) WRITE) then Err PermissionDenied
  else if s_len s <? Z.of_nat (length src) then Err InvalidInput
  else Ok (poke_range hm (s_ptr s) src).

(** ** Filling a mapping from a file *)

(** One answer of [pread]: bytes, or an error. The kernel never returns
    more bytes than it was asked for. *)
Inductive pread_answer : Type :=
| Got (data : list Z)
| Failed (e : ErrorKind).

(** [read_exact_from]: [pread i offset count] is the answer to the [i]-th
    call. [None] means the fuel ran out, which only an unbounded run of
    interrupted calls can cause. *)
Fixpoint read_exact_loop (fuel : nat) (pread : nat -> Z -> Z -> pread_answer)
    (i : nat) (hm : hostmem) (s : SubMapping) (file_offset len done : Z) :
    option (result ErrorKind hostmem) :=
  match fuel with
  | O => None
  | S fuel =>
      if done <? len then
        match checked_add 64 file_offset done with
        | None => Some (Err InvalidInput)
        | Some o =>
            if 2 ^ 63 <=? o then Some (Err InvalidInput)
            else
              match pread i o (len - done) with
              | Failed Interrupted =>
                  read_exact_loop fuel pread (S i) hm s file_offset len done
              | Failed e => Some (Err e)
              | Got [] => Some (Err UnexpectedEof)
              | Got data =>
                  read_exact_loop fuel pread (S i)
                    (poke_range hm (s_ptr s + done) data) s file_offset len
                    (done + Z.of_nat (length data))
              end
        end
      else Some (Ok hm)
  end.

Definition read_exact_from (fuel : nat) (pread : nat -> Z -> Z -> pread_answer)
    (hm : hostmem) (s : SubMapping) (file_offset len : Z) :
    option (result ErrorKind hostmem) :=
  if negb (contains (s_prot s) WRITE) then Some (Err PermissionDenied)
  else if s_len s <? len then Some (Err InvalidInput)
  else read_exact_loop fuel pread 0 hm s file_offset len 0.

(** [pread] returns what the file holds, and no more than it was asked. *)
Definition honest (pread : nat -> Z -> Z -> pread_answer) (content : Z -> Z) : Prop :=
  forall i o n data, 0 <= n -> pread i o n = Got data ->
    Z.of_nat (length data) <= n /\
    forall j b, data !! j = Some b -> b = content (o + Z.of_nat j).

(** The first [done] bytes of the view hold the file, and nothing outside
    the view changed. *)
Definition filled (content : Z -> Z) (hm0 hm : hostmem) (s : SubMapping)
    (off len done : Z) : Prop :=
  (forall i, 0 <= i < done -> peek hm (s_ptr s + i) = content (off + i)) /\
  (forall x, x < s_ptr s \/ s_ptr s + len <= x -> peek hm x = peek hm0 x).

Lemma filled_step content hm0 hm s off len done data :
  filled content hm0 hm s off len done -> 0 <= done ->
  done + Z.of_nat (length data) <= len ->
  (forall j b, data !! j = Some b -> b = content (off + done + Z.of_nat j)) ->
  filled content hm0 (poke_range hm (s_ptr s + done) data) s off len
    (done + Z.of_nat (length data)).
Proof.
  intros [Hin Hout] H0 Hle Hd. split.
  - intros i Hi. destruct (Z.lt_ge_cases i done).
    + rewrite peek_poke_out by lia. apply Hin. lia.
    + destruct (lookup_lt_is_Some_2 data (Z.to_nat (i - done))) as [b Hb]; [lia|].
      replace (s_ptr s + i) with (s_ptr s + done + Z.of_nat (Z.to_nat (i - done))) by lia.
      rewrite (peek_poke_in _ _ _ _ _ Hb), (Hd _ _ Hb). f_equal. lia.
  - intros x Hx. rewrite peek_poke_out by lia. by apply Hout.
Qed.

Lemma read_exact_loop_correct content pread hm0 s off len k :
  honest pread content ->
  (forall i o n, (k <= i)%nat -> pread i o n <> Failed Interrupted) ->
  0 <= off -> off + len < 2 ^ 63 ->
  forall fuel i hm done, 0 <= done <= len ->
  (Z.to_nat (len - done) + (k - i) < fuel)%nat ->
  filled content hm0 hm s off len done ->
  exists r, read_exact_loop fuel pread i hm s off len done = Some r /\
    forall hm', r = Ok hm' -> filled content hm0 hm' s off len len.
Proof.
  intros Hh Hk Hoff Hend. induction fuel as [|fuel IH]; intros i hm done Hd Hf Hfill; [lia|].
  cbn [read_exact_loop]. destruct (Z.ltb_spec done len).
  2:{ exists (Ok hm). split; [done|]. intros ? [= <-]. by replace len with done at 2 by lia. }
  unfold checked_add. destruct (Z.ltb_spec (off + done) (2 ^ 64)); [|lia].
  destruct (Z.leb_spec (2 ^ 63) (off + done)); [lia|].
  destruct (pread i (off + done) (len - done)) as [data|e] eqn:Hp.
  - destruct data as [|b data]; [by eexists|].
    destruct (Hh i (off + done) (len - done) (b :: data)) as [Hn Hdata]; [lia|done|].
    assert (0 < length (b :: data))%nat by (simpl; lia).
    apply IH; [lia|lia|]. by apply filled_step; [done|lia|lia|].
  - destruct e; try by eexists.
    apply IH; try done. destruct (decide (k <= i)%nat) as [Hki|]; [|lia].
    by apply (Hk i (off + done) (len - done)) in Hki.
Qed.

(** Loading a boot image segment returns once the kernel stops
    interrupting the reads, whatever short reads it makes; success means
    that the whole view holds the file's bytes, and nothing outside the
    view is written. *)
Theorem read_exact_from_correct content pread hm s off len k :
  honest pread content ->
  (forall i o n, (k <= i)%nat -> pread i o n <> Failed Interrupted) ->
  contains (s_prot s) WRITE = true -> 0 <= len <= s_len s ->
  0 <= off -> off + len < 2 ^ 63 ->
  exists r, read_exact_from (S (Z.to_nat len + k)) pread hm s off len = Some r /\
    forall hm', r = Ok hm' -> filled content hm hm' s off len len.
Proof.
  intros Hh Hk Hw Hl Hoff Hend. unfold read_exact_from. rewrite Hw. simpl negb. cbv iota.
  destruct (Z.ltb_spec (s_len s) len); [lia|].
  apply (read_exact_loop_correct content pread hm s off len k); try done; try lia.
  split; [lia|done].
Qed.

(** A file of zeros read two bytes at a time, after one interruption. *)
Definition zero_pread (i : nat) (o n : Z) : pread_answer :=
  match i with
  | O => Failed Interrupted
  | _ => Got (replicate (Z.to_nat (Z.min 2 n)) 0)
  end.

Lemma read_exact_from_correct_witness :
  exists r, read_exact_from 7 zero_pread ∅ (mkSub 4096 8 RW) 0 5 = Some r /\
    forall hm', r = Ok hm' -> filled (fun _ => 0) ∅ hm' (mkSub 4096 8 RW) 0 5 5.
Proof.
  apply (read_exact_from_correct (fun _ => 0) zero_pread ∅ (mkSub 4096 8 RW) 0 5 1).
  - intros i o n data Hn Hd. unfold zero_pread in Hd. destruct i; [done|]. simplify_eq.
    rewrite length_replicate. split; [lia|by intros j b [-> _]%lookup_replicate].
  - intros i o n Hi. unfold zero_pread. destruct i; [lia|done].
  - reflexivity.
  - simpl. lia.
  - lia.
  - lia.
Defined.

End mapping.
