(* ===== verification/PhysMap.v ===== *)
(** * The guest physical address space

    [crates/vmm-core/src/mem.rs]: [PhysMap] keeps the published regions,
    sorted by guest address, and the ranges an add in progress has claimed.
    [lookup] hands devices a view of the run of abutting RAM around an
    address. The kernel calls of an add ([VM_ALLOC_MEMSEG], [VM_MMAP_MEMSEG],
    [mmap], ...) are arguments: the answer each one gave. *)

From S2P Require Import Prelude Mapping.

Module physmap.
Import mapping.

Definition PAGE_SIZE : Z := 4096.
Definition MMIO_HOLE_BASE : Z := 0xC0000000.
Definition MMIO_HOLE_END : Z := 0x100000000.

Inductive RegionKind : Type := Ram | Rom | Mmio.
Inductive Placement : Type := Firmware | RunTime.

#[export] Instance RegionKind_eq_dec : EqDecision RegionKind.
Proof. solve_decision. Defined.

(** One mapping over a run of abutting RAM regions. *)
Record TrackedRun : Type := mkRun {
  run_gpa : Z;
  run_map : Mapping;
  run_prot : Z
}.

#[export] Instance TrackedRun_eq_dec : EqDecision TrackedRun.
Proof. solve_decision. Defined.

Definition run_end (t : TrackedRun) : Z := wadd 64 (run_gpa t) (m_len (run_map t)).

Record Region : Type := mkRegion {
  r_gpa : Z;
  r_len : Z;
  r_kind : RegionKind;
  r_tracked : TrackedRun;
  r_direct : Mapping
}.

Definition r_end (r : Region) : Z := wadd 64 (r_gpa r) (r_len r).

(** [AddressSpace] with the segment counter of [PhysMap]. *)
Record PhysMap : Type := mkPhysMap {
  regions : list Region;
  claims : list (Z * Z);
  next_segid : Z
}.

Definition physmap_new : PhysMap := mkPhysMap [] [] 0.

(** A held range; dropping a live one gives it back. *)
Record RamClaim : Type := mkClaim {
  c_gpa : Z;
  c_len : Z;
  c_kind : RegionKind;
  c_prot : Z
}.

(** The exclusive end of a requested region. *)
Definition region_end (gpa len : Z) : result ErrorKind Z :=
  if len =? 0 then Err InvalidInput
  else ok_or (checked_add 64 gpa len) InvalidInput.

Definition check_free (pm : PhysMap) (gpa e : Z) : result ErrorKind unit :=
  if existsb (fun r => (gpa <? r_end r) && (r_gpa r <? e)) (regions pm)
  then Err AlreadyExists
  else if existsb (fun c : Z * Z => (gpa <? c.2) && (c.1 <? e)) (claims pm)
  then Err AlreadyExists
  else Ok tt.

Definition guest_prot_for (kind : RegionKind) : Z :=
  match kind with
  | Rom => Z.lor READ EXEC
  | Ram | Mmio => RWX
  end.

(** The run-time placement rules of [claim]. *)
Definition placement_ok (placement : Placement) (gpa len e : Z) : bool :=
  match placement with
  | Firmware => true
  | RunTime =>
      is_multiple_of gpa PAGE_SIZE && is_multiple_of len PAGE_SIZE &&
      negb ((gpa <? MMIO_HOLE_END) && (MMIO_HOLE_BASE <? e))
  end.

Definition claim (pm : PhysMap) (gpa len : Z) (kind : RegionKind) (prot : Z)
    (placement : Placement) : result ErrorKind (PhysMap * RamClaim) :=
  let? e := region_end gpa len in
  if negb (placement_ok placement gpa len e) then Err InvalidInput
  else
    let? _u := check_free pm gpa e in
    Ok (mkPhysMap (regions pm) (claims pm ++ [(gpa, e)]) (next_segid pm),
        mkClaim gpa len kind prot).

Definition claim_ram (pm : PhysMap) (gpa len : Z) : result ErrorKind (PhysMap * RamClaim) :=
  claim pm gpa len Ram RWX RunTime.

(** [Vec::swap_remove]. *)
Definition swap_remove {A} (i : nat) (l : list A) : list A :=
  match last l with
  | Some x =>
      if decide (S i = length l) then removelast l
      else <[i := x]> (removelast l)
  | None => l
  end.

(** [iter().position(..)] then [swap_remove]. *)
Definition remove_claim (gpa : Z) (cs : list (Z * Z)) : list (Z * Z) :=
  match list_find (fun c : Z * Z => c.1 = gpa) cs with
  | Some (i, _) => swap_remove i cs
  | None => cs
  end.

(** Give a claimed range back: what [Drop] does for a live claim. *)
Definition release_claim (pm : PhysMap) (gpa : Z) : PhysMap :=
  mkPhysMap (regions pm) (remove_claim gpa (claims pm)) (next_segid pm).

Definition is_ram (r : Region) : bool := bool_decide (r_kind r = Ram).

(** The two walks of [run_bounds]. Each step passes one region, so the
    number of regions bounds them. *)
Fixpoint walk_below (fuel : nat) (rs : list Region) (start : Z) : Z :=
  match fuel with
  | O => start
  | S fuel =>
      match List.find (fun r => is_ram r && (r_end r =? start)) rs with
      | Some below => walk_below fuel rs (r_gpa below)
      | None => start
      end
  end.

Fixpoint walk_above (fuel : nat) (rs : list Region) (e : Z) : Z :=
  match fuel with
  | O => e
  | S fuel =>
      match List.find (fun r => is_ram r && (r_gpa r =? e)) rs with
      | Some above => walk_above fuel rs (r_end above)
      | None => e
      end
  end.

(** The guest addresses one tracked mapping has to cover for a new region:
    its start and its length. *)
Definition run_bounds (pm : PhysMap) (gpa len : Z) (kind : RegionKind) : Z * Z :=
  match kind with
  | Ram =>
      let n := length (regions pm) in
      let start := walk_below n (regions pm) gpa in
      let e := walk_above n (regions pm) (wadd 64 gpa len) in
      (start, wsub 64 e start)
  | _ => (gpa, len)
  end.

(** Give every region inside the run the run's mapping. *)
Definition adopt_run (rs : list Region) (run : TrackedRun) : list Region :=
  (fun r =>
     if (run_gpa run <=? r_gpa r) && (r_end r <=? run_end run)
     then mkRegion (r_gpa r) (r_len r) (r_kind r) run (r_direct r)
     else r) <$> rs.

Definition cmp_gpa (gpa : Z) (r : Region) : comparison := Z.compare (r_gpa r) gpa.

(** [Vec::insert]. *)
Definition vec_insert {A} (i : nat) (x : A) (l : list A) : list A :=
  take i l ++ x :: drop i l.

Definition publish_claim (pm : PhysMap) (c : RamClaim) (tracked : TrackedRun)
    (direct : Mapping) : PhysMap :=
  let insert_idx :=
    match binary_search_by (cmp_gpa (c_gpa c)) (regions pm) with
    | Ok i => i
    | Err i => i
    end in
  let r := mkRegion (c_gpa c) (c_len c) (c_kind c) tracked direct in
  mkPhysMap (adopt_run (vec_insert insert_idx r (regions pm)) tracked)
            (remove_claim (c_gpa c) (claims pm)) (next_segid pm).

(** ** Adding a region *)

(** What the kernel answered during one [commit]. *)
Record answers : Type := mkAnswers {
  a_mmap_run : result ErrorKind Z;
  a_map_memseg : result ErrorKind unit;
  a_devmem_offset : result ErrorKind Z;
  a_mmap_seg : result ErrorKind Z;
  a_munmap_memseg : result ErrorKind unit
}.

(** The view the kernel tracks; [None] for a region the guest cannot write. *)
Definition tracked_view (gpa len : Z) (kind : RegionKind) (prot : Z)
    (mmap : result ErrorKind Z) : result ErrorKind (option TrackedRun) :=
  match kind with
  | Ram =>
      if 2 ^ 63 <=? gpa then Err InvalidInput
      else let? m := mapping_new len prot mmap in Ok (Some (mkRun gpa m prot))
  | _ => Ok None
  end.

Definition devmem_view (segoff len : Z) (devmem_offset mmap : result ErrorKind Z) :
    result ErrorKind Mapping :=
  let? base := devmem_offset in
  if (2 ^ 63 <=? base + segoff) || (base + segoff <? - 2 ^ 63) then Err InvalidInput
  else mapping_new len RW mmap.

(** [RamClaim::commit]. Every error return drops the claim, except the one
    after a mapping that could not be taken back. *)
Definition commit (pm : PhysMap) (c : RamClaim) (segoff : Z) (k : answers) :
    PhysMap * result ErrorKind unit :=
  let dropped := release_claim pm (c_gpa c) in
  if (segoff <? 0) || negb (is_multiple_of segoff PAGE_SIZE)
  then (dropped, Err InvalidInput)
  else
    let '(run_gpa, run_len) := run_bounds pm (c_gpa c) (c_len c) (c_kind c) in
    match tracked_view run_gpa run_len (c_kind c) (c_prot c) (a_mmap_run k) with
    | Err e => (dropped, Err e)
    | Ok tracked =>
        match a_map_memseg k with
        | Err e => (dropped, Err e)
        | Ok _ =>
            match devmem_view segoff (c_len c) (a_devmem_offset k) (a_mmap_seg k) with
            | Ok direct =>
                let tracked := default (mkRun (c_gpa c) direct (c_prot c)) tracked in
                (publish_claim pm c tracked direct, Ok tt)
            | Err e =>
                match a_munmap_memseg k with
                | Ok _ => (dropped, Err e)
                | Err _ => (pm, Err Other)
                end
            end
        end
    end.

Definition bump_segid (pm : PhysMap) : PhysMap :=
  mkPhysMap (regions pm) (claims pm) (next_segid pm + 1).

(** [add_region]: claim, allocate a segment, commit. A segment that was
    created is spent whether or not its mapping worked. *)
Definition add_region (pm : PhysMap) (gpa len : Z) (kind : RegionKind) (prot : Z)
    (create_memseg : result ErrorKind unit) (k : answers) :
    PhysMap * result ErrorKind unit :=
  match claim pm gpa len kind prot Firmware with
  | Err e => (pm, Err e)
  | Ok (pm1, c) =>
      match create_memseg with
      | Err e => (release_claim pm1 (c_gpa c), Err e)
      | Ok _ => let '(pm2, r) := commit pm1 c 0 k in (bump_segid pm2, r)
      end
  end.

Definition add_ram (pm : PhysMap) (gpa len : Z) (create_memseg : result ErrorKind unit)
    (k : answers) : PhysMap * result ErrorKind unit :=
  add_region pm gpa len Ram RWX create_memseg k.

(** [add_rom_with_ram_tail]: a ROM and the RAM past it share one segment. *)
Definition add_rom_with_ram_tail (pm : PhysMap) (rom_gpa rom_len ram_gpa ram_len : Z)
    (create_memseg : result ErrorKind unit) (k_rom k_ram : answers) :
    PhysMap * result ErrorKind unit :=
  match checked_add 64 rom_len ram_len with
  | None => (pm, Err InvalidInput)
  | Some _ =>
      if 2 ^ 63 <=? rom_len then (pm, Err InvalidInput)
      else
        match claim pm rom_gpa rom_len Rom (guest_prot_for Rom) Firmware with
        | Err e => (pm, Err e)
        | Ok (pm1, rom) =>
            match claim pm1 ram_gpa ram_len Ram (guest_prot_for Ram) Firmware with
            | Err e => (release_claim pm1 (c_gpa rom), Err e)
            | Ok (pm2, ram) =>
                match create_memseg with
                | Err e =>
                    (release_claim (release_claim pm2 (c_gpa ram)) (c_gpa rom), Err e)
                | Ok _ =>
                    match commit pm2 rom 0 k_rom with
                    | (pm3, Err e) => (bump_segid (release_claim pm3 (c_gpa ram)), Err e)
                    | (pm3, Ok _) =>
                        let '(pm4, r) := commit pm3 ram rom_len k_ram in
                        (bump_segid pm4, r)
                    end
                end
            end
        end
  end.

(** ** Lookup *)

Definition cmp_addr (gpa : Z) (r : Region) : comparison :=
  if gpa <? r_gpa r then Gt else if r_end r <=? gpa then Lt else Eq.

(** The region that holds an address, by binary search. *)
Definition region_at (rs : list Region) (gpa : Z) : option Region :=
  match binary_search_by (cmp_addr gpa) rs with
  | Ok i => rs !! i
  | Err _ => None
  end.

Definition lookup (pm : PhysMap) (gpa len : Z) : option SubMapping :=
  let* e := checked_add 64 gpa len in
  let* region := region_at (regions pm) gpa in
  let run := r_tracked region in
  if run_end run <? e then None
  else
    let offset := wsub 64 gpa (run_gpa run) in
    let* view := subregion (sub_new (run_map run)) offset len in
    Some (restrict view (run_prot run)).

Definition lookup_untracked (pm : PhysMap) (gpa len : Z) : option SubMapping :=
  let* e := checked_add 64 gpa len in
  let* region := region_at (regions pm) gpa in
  if r_end region <? e then None
  else subregion (sub_new (r_direct region)) (wsub 64 gpa (r_gpa region)) len.

Definition region_list (pm : PhysMap) : list (Z * Z * RegionKind) :=
  (fun r => (r_gpa r, r_len r, r_kind r)) <$> regions pm.

Definition total_memory (pm : PhysMap) : Z :=
  foldr (fun r acc => if bool_decide (r_kind r = Mmio) then acc else wadd 64 (r_len r) acc) 0
    (regions pm).

Definition num_regions (pm : PhysMap) : nat := length (regions pm).

End physmap.
