(* ===== verification/PhysMapInv.v ===== *)
(** * Correctness of the guest physical address space

    The invariant of [PhysMap], kept by every add, claim, drop and commit
    whatever the kernel answers, and what [lookup] guarantees to a device. *)

From S2P Require Import Prelude Mapping PhysMap.

Module physmap_inv.
Import mapping physmap.

Definition inr (r : Region) (a : Z) : Prop := r_gpa r <= a < r_gpa r + r_len r.

Definition wf_region (r : Region) : Prop :=
  0 <= r_gpa r /\ 0 < r_len r /\ r_gpa r + r_len r < 2 ^ 64.

Definition in_run (t : TrackedRun) (a : Z) : Prop :=
  run_gpa t <= a < run_gpa t + m_len (run_map t).

Definition disjoint2 (c1 c2 : Z * Z) : Prop := c1.2 <= c2.1 \/ c2.2 <= c1.1.

Definition page (z : Z) : Prop := z mod PAGE_SIZE = 0.

Definition before (r1 r2 : Region) : Prop := r_gpa r1 + r_len r1 <= r_gpa r2.

(** The published regions: sorted, disjoint, each inside the mapping of its
    run, and every address of a run inside a region of that run. *)
Record wf_regions (rs : list Region) : Prop := {
  wr_region : forall r, r ∈ rs -> wf_region r;
  wr_sorted : StronglySorted before rs;
  wr_in_run : forall r, r ∈ rs ->
    run_gpa (r_tracked r) <= r_gpa r /\
    r_gpa r + r_len r <= run_gpa (r_tracked r) + m_len (run_map (r_tracked r)) < 2 ^ 64 /\
    0 <= run_gpa (r_tracked r);
  wr_covered : forall r a, r ∈ rs -> in_run (r_tracked r) a ->
    exists r', r' ∈ rs /\ inr r' a /\ r_tracked r' = r_tracked r /\ r_kind r' = r_kind r;
  wr_maximal : forall r r', r ∈ rs -> r' ∈ rs -> r_kind r = Ram -> r_kind r' = Ram ->
    r_gpa r + r_len r = r_gpa r' -> r_tracked r = r_tracked r';
  wr_prot : forall r, r ∈ rs -> run_prot (r_tracked r) = guest_prot_for (r_kind r) /\
    contains (m_prot (run_map (r_tracked r))) RW = true;
  wr_page : forall r, r ∈ rs ->
    page (r_gpa r) /\ page (run_gpa (r_tracked r)) /\ page (m_ptr (run_map (r_tracked r)));
  wr_direct : forall r, r ∈ rs -> m_len (r_direct r) = r_len r /\ m_prot (r_direct r) = RW
}.

Record wf_claims (rs : list Region) (cs : list (Z * Z)) : Prop := {
  wc_range : forall c, c ∈ cs -> 0 <= c.1 < c.2 /\ c.2 < 2 ^ 64;
  wc_nodup : NoDup cs;
  wc_disjoint : forall c1 c2, c1 ∈ cs -> c2 ∈ cs -> c1 <> c2 -> disjoint2 c1 c2;
  wc_regions : forall r c, r ∈ rs -> c ∈ cs ->
    disjoint2 c (r_gpa r, r_gpa r + r_len r)
}.

Definition wf (pm : PhysMap) : Prop :=
  wf_regions (regions pm) /\ wf_claims (regions pm) (claims pm).

Lemma r_end_eq r : wf_region r -> r_end r = r_gpa r + r_len r.
Proof. intros (? & ? & ?). apply wadd_small. lia. Qed.

(** ** Region lookup *)

Lemma sorted_lookup rs i j r1 r2 :
  StronglySorted before rs -> (i < j)%nat ->
  rs !! i = Some r1 -> rs !! j = Some r2 -> before r1 r2.
Proof.
  intros Hs. revert i j. induction Hs as [|r rs Hs IH Hf]; intros i j Hij; [done|].
  destruct j as [|j]; [lia|]. destruct i as [|i]; simpl.
  - intros [= <-] Hj. rewrite Forall_forall in Hf. apply Hf.
    by eapply list_elem_of_lookup_2.
  - apply IH. lia.
Qed.

Lemma inr_unique rs r1 r2 a :
  wf_regions rs -> r1 ∈ rs -> r2 ∈ rs -> inr r1 a -> inr r2 a -> r1 = r2.
Proof.
  intros Hwf [i Hi]%list_elem_of_lookup [j Hj]%list_elem_of_lookup H1 H2.
  destruct (Nat.lt_total i j) as [Hlt|[->|Hgt]]; [|congruence|].
  - pose proof (sorted_lookup rs i j r1 r2 (wr_sorted rs Hwf) Hlt Hi Hj).
    unfold before, inr in *. lia.
  - pose proof (sorted_lookup rs j i r2 r1 (wr_sorted rs Hwf) Hgt Hj Hi).
    unfold before, inr in *. lia.
Qed.

Lemma cmp_addr_partitioned rs gpa :
  (forall r, r ∈ rs -> wf_region r) -> StronglySorted before rs ->
  partitioned (cmp_addr gpa) rs.
Proof.
  intros Hr Hs i j x y Hij Hi Hj.
  pose proof (sorted_lookup rs i j x y Hs Hij Hi Hj) as Hb.
  pose proof (Hr x (list_elem_of_lookup_2 _ _ _ Hi)) as Hx.
  pose proof (Hr y (list_elem_of_lookup_2 _ _ _ Hj)) as Hy.
  unfold cmp_addr. rewrite (r_end_eq x Hx), (r_end_eq y Hy).
  unfold before, wf_region in *. repeat case_cmp; split; done || lia.
Qed.

Lemma region_at_spec rs gpa r :
  wf_regions rs -> region_at rs gpa = Some r <-> r ∈ rs /\ inr r gpa.
Proof.
  intros Hwf. unfold region_at.
  assert (Hp : partitioned (cmp_addr gpa) rs) by (apply cmp_addr_partitioned; apply Hwf).
  assert (Heq : forall x, x ∈ rs -> cmp_addr gpa x = Eq <-> inr x gpa).
  { intros x Hx. unfold cmp_addr, inr. pose proof (wr_region rs Hwf x Hx) as Hwx.
    rewrite (r_end_eq x Hwx). unfold wf_region in Hwx.
    repeat case_cmp; split; done || lia. }
  destruct (binary_search_by _ rs) as [i|i] eqn:Hb.
  - apply binary_search_by_Ok in Hb as (x & Hi & Hx).
    assert (Hin : x ∈ rs) by (by eapply list_elem_of_lookup_2).
    apply Heq in Hx; [|done]. split.
    + intros ?. simplify_eq. done.
    + intros [Hr Ha]. rewrite Hi. f_equal. by apply (inr_unique rs x r gpa).
  - apply binary_search_by_Err in Hb as (_ & Hlt & Hgt); [|done]. split; [done|].
    intros [[j Hj]%list_elem_of_lookup Ha].
    apply (Heq r) in Ha; [|by eapply list_elem_of_lookup_2].
    destruct (decide (j < i)%nat).
    + rewrite (Hlt j r) in Ha by done. done.
    + rewrite (Hgt j r) in Ha by (done || lia). done.
Qed.

Lemma region_at_None rs gpa :
  wf_regions rs -> region_at rs gpa = None <-> forall r, r ∈ rs -> ~ inr r gpa.
Proof.
  intros Hwf. split.
  - intros Hn r Hr Ha. by rewrite (proj2 (region_at_spec rs gpa r Hwf)) in Hn.
  - intros H. destruct (region_at rs gpa) as [r|] eqn:E; [|done].
    apply region_at_spec in E as [? ?]; [|done]. by destruct (H r).
Qed.

(** ** The two walks *)

Lemma walk_below_spec rs :
  (forall r, r ∈ rs -> wf_region r) ->
  forall fuel s0,
  (length (List.filter (fun r => (r_gpa r + r_len r <=? s0)%Z) rs) <= fuel)%nat ->
  let s := walk_below fuel rs s0 in
  s <= s0 /\
  (forall a, s <= a < s0 -> exists r, r ∈ rs /\ r_kind r = Ram /\ inr r a) /\
  (forall r, r ∈ rs -> r_kind r = Ram -> r_gpa r + r_len r <> s) /\
  (s = s0 \/ exists r, r ∈ rs /\ r_kind r = Ram /\ r_gpa r = s).
Proof.
  intros Hwf. induction fuel as [|fuel IH]; intros s0 Hf; cbn [walk_below].
  - split; [lia|]. split; [lia|]. split; [|by left]. intros r Hr Hk Hs.
    apply Nat.le_0_r, length_zero_iff_nil in Hf.
    assert (r ∈ []) as []%elem_of_nil.
    rewrite <- Hf. rewrite list_elem_of_In, filter_In, <- list_elem_of_In.
    split; [done|]. lia.
  - destruct (List.find _ rs) as [b|] eqn:Hb.
    + apply find_some_elem in Hb as [Hin Hb].
      pose proof (Hwf b Hin) as Hwb. pose proof Hwb as (? & ? & ?).
      unfold is_ram in Hb. rewrite (r_end_eq b Hwb) in Hb.
      apply andb_true_iff in Hb as [Hk%bool_decide_eq_true He%Z.eqb_eq].
      destruct (IH (r_gpa b)) as (Hle & Hcov & Hno & Hst).
      { assert (length (List.filter (fun r => (r_gpa r + r_len r <=? r_gpa b)%Z) rs) <
          length (List.filter (fun r => (r_gpa r + r_len r <=? s0)%Z) rs))%nat; [|lia].
        apply (length_filter_lt _ _ _ b); [intros y|done|..]; rewrite ?Z.leb_le, ?Z.leb_gt; lia. }
      split; [lia|]. split; [|split; [done|]].
      * intros a Ha. destruct (Z.lt_ge_cases a (r_gpa b)); [apply Hcov; lia|].
        exists b. unfold inr. split_and!; done || lia.
      * right. destruct Hst as [->|Hst]; [by exists b|done].
    + split; [lia|]. split; [lia|]. split; [|by left]. intros r Hr Hk Hs.
      pose proof (find_none_elem _ _ _ Hb Hr) as Hn. simpl in Hn.
      unfold is_ram in Hn. rewrite (r_end_eq r (Hwf r Hr)) in Hn.
      rewrite bool_decide_eq_true_2 in Hn by done. simpl in Hn. lia.
Qed.

Lemma walk_above_spec rs :
  (forall r, r ∈ rs -> wf_region r) ->
  forall fuel e0, 
  (length (List.filter (fun r => (e0 <=? r_gpa r)%Z) rs) <= fuel)%nat ->
  let e := walk_above fuel rs e0 in
  e0 <= e /\ (e0 < 2 ^ 64 -> e < 2 ^ 64) /\
  (forall a, e0 <= a < e -> exists r, r ∈ rs /\ r_kind r = Ram /\ inr r a) /\
  (forall r, r ∈ rs -> r_kind r = Ram -> r_gpa r <> e) /\
  (e = e0 \/ exists r, r ∈ rs /\ r_kind r = Ram /\ r_gpa r + r_len r = e).
Proof.
  intros Hwf. induction fuel as [|fuel IH]; intros e0 Hf; cbn [walk_above].
  - split; [lia|]. split; [lia|]. split; [lia|]. split; [|by left]. intros r Hr Hk Hs.
    apply Nat.le_0_r, length_zero_iff_nil in Hf.
    assert (r ∈ []) as []%elem_of_nil.
    rewrite <- Hf. rewrite list_elem_of_In, filter_In, <- list_elem_of_In.
    split; [done|]. lia.
  - destruct (List.find _ rs) as [b|] eqn:Hb.
    + apply find_some_elem in Hb as [Hin Hb].
      pose proof (Hwf b Hin) as Hwb. pose proof Hwb as (? & ? & ?).
      unfold is_ram in Hb.
      apply andb_true_iff in Hb as [Hk%bool_decide_eq_true He%Z.eqb_eq].
      rewrite (r_end_eq b Hwb).
      destruct (IH (r_gpa b + r_len b)) as (Hle & Hlt & Hcov & Hno & Hst).
      { assert (length (List.filter (fun r => (r_gpa b + r_len b <=? r_gpa r)%Z) rs) <
          length (List.filter (fun r => (e0 <=? r_gpa r)%Z) rs))%nat; [|lia].
        apply (length_filter_lt _ _ _ b); [intros y|done|..]; rewrite ?Z.leb_le, ?Z.leb_gt; lia. }
      split; [lia|]. split; [lia|]. split; [|split; [done|]].
      * intros a Ha. destruct (Z.lt_ge_cases a (r_gpa b + r_len b)); [|apply Hcov; lia].
        exists b. unfold inr. split_and!; done || lia.
      * right. destruct Hst as [->|Hst]; [by exists b|done].
    + split; [lia|]. split; [lia|]. split; [lia|]. split; [|by left]. intros r Hr Hk Hs.
      pose proof (find_none_elem _ _ _ Hb Hr) as Hn. simpl in Hn.
      unfold is_ram in Hn. rewrite bool_decide_eq_true_2 in Hn by done. simpl in Hn. lia.
Qed.

(** ** The run a new region joins *)

(** The new region [g, g + l) is free of every published region. *)
Definition free (rs : list Region) (g l : Z) : Prop :=
  forall r, r ∈ rs -> g + l <= r_gpa r \/ r_gpa r + r_len r <= g.

(** [s, e) holds the new region, is covered by it and by RAM, and splits no
    region and no run. *)
Record run_ok (rs : list Region) (g l : Z) (kind : RegionKind) (s e : Z) : Prop := {
  ro_le : 0 <= s <= g /\ g + l <= e < 2 ^ 64;
  ro_cov : forall a, s <= a < e ->
    g <= a < g + l \/ exists r, r ∈ rs /\ inr r a /\ kind = Ram;
  ro_inside : forall r a, r ∈ rs -> inr r a -> s <= a < e ->
    s <= r_gpa r /\ r_gpa r + r_len r <= e /\ kind = Ram /\ r_kind r = Ram;
  ro_old : forall r a b, r ∈ rs -> in_run (r_tracked r) a -> s <= a < e ->
    in_run (r_tracked r) b -> s <= b < e;
  ro_closed : kind = Ram -> forall r, r ∈ rs -> r_kind r = Ram ->
    r_gpa r + r_len r <> s /\ r_gpa r <> e
}.

Lemma run_ok_ram rs g l s e :
  wf_regions rs -> free rs g l -> 0 <= g -> 0 < l -> g + l < 2 ^ 64 ->
  s = walk_below (length rs) rs g -> e = walk_above (length rs) rs (g + l) ->
  run_ok rs g l Ram s e /\ (page g -> page s).
Proof.
  intros Hwf Hfree Hg Hl Hgl -> ->. set (s := walk_below _ _ _). set (e := walk_above _ _ _).
  destruct (walk_below_spec rs (wr_region rs Hwf) (length rs) g) as (Hs1 & Hs2 & Hs3 & Hs4).
  { apply List.filter_length_le. }
  destruct (walk_above_spec rs (wr_region rs Hwf) (length rs) (g + l))
    as (He1 & He2 & He3 & He4 & He5).
  { apply List.filter_length_le. }
  fold s in Hs1, Hs2, Hs3, Hs4. fold e in He1, He2, He3, He4, He5.
  assert (Hin : forall r a, r ∈ rs -> inr r a -> s <= a < e ->
    s <= r_gpa r /\ r_gpa r + r_len r <= e /\ r_kind r = Ram).
  { intros r a Hr Ha Hae. pose proof (Hfree r Hr) as Hd.
    pose proof (wr_region rs Hwf r Hr) as Hwr. unfold wf_region, inr in *. split_and!.
    - destruct (Z.lt_ge_cases (r_gpa r) s) as [Hlt|]; [exfalso|done].
      destruct Hs4 as [Heq|(r0 & Hr0 & _ & Hg0)]; [lia|].
      pose proof (wr_region rs Hwf r0 Hr0) as Hwr0. unfold wf_region in Hwr0.
      assert (r0 = r) as -> by (apply (inr_unique rs r0 r s); try done; unfold inr; lia).
      lia.
    - destruct (Z.le_gt_cases (r_gpa r + r_len r) e) as [|Hlt]; [done|exfalso].
      destruct He5 as [Heq|(r0 & Hr0 & _ & Hg0)]; [lia|].
      pose proof (wr_region rs Hwf r0 Hr0) as Hwr0. unfold wf_region in Hwr0.
      assert (r0 = r) as -> by (apply (inr_unique rs r0 r (e - 1)); try done; unfold inr; lia).
      lia.
    - destruct (Z.lt_ge_cases a g).
      + destruct (Hs2 a) as (r0 & Hr0 & Hk & Ha0); [lia|].
        by rewrite <- (inr_unique rs r0 r a).
      + destruct (He3 a) as (r0 & Hr0 & Hk & Ha0); [lia|].
        by rewrite <- (inr_unique rs r0 r a). }
  split.
  - split.
    + split; [|lia]. split; [|done]. destruct Hs4 as [->|(r & Hr & _ & <-)]; [done|].
      apply (wr_region rs Hwf r Hr).
    + intros a Ha. destruct (Z.lt_ge_cases a g).
      { right. destruct (Hs2 a) as (r & ? & ? & ?); [lia|]. by exists r. }
      destruct (Z.lt_ge_cases a (g + l)); [by left|right].
      destruct (He3 a) as (r & ? & ? & ?); [lia|]. by exists r.
    + intros r a Hr Ha Hae. destruct (Hin r a Hr Ha Hae) as (? & ? & ?). done.
    + intros r a b Hr Ha Hae Hb.
      destruct (wr_covered rs Hwf r a Hr Ha) as (r1 & Hr1 & Ha1 & _ & Hk1).
      destruct (Hin r1 a Hr1 Ha1 Hae) as (_ & _ & Hk1').
      split.
      * destruct (Z.lt_ge_cases b s) as [Hlt|]; [exfalso|done].
        destruct (wr_covered rs Hwf r (s - 1) Hr) as (r2 & Hr2 & Ha2 & _ & Hk2).
        { unfold in_run in *. lia. }
        rewrite Hk1 in Hk1'. rewrite Hk1' in Hk2. specialize (Hs3 r2 Hr2 Hk2).
        unfold inr in *. destruct (Hin r2 s Hr2) as [? _]; unfold inr; lia.
      * destruct (Z.lt_ge_cases b e) as [|Hlt]; [done|exfalso].
        destruct (wr_covered rs Hwf r e Hr) as (r2 & Hr2 & Ha2 & _ & Hk2).
        { unfold in_run in *. lia. }
        rewrite Hk1 in Hk1'. rewrite Hk1' in Hk2. specialize (He4 r2 Hr2 Hk2).
        unfold inr in *. destruct (Hin r2 (e - 1) Hr2) as (_ & ? & _); unfold inr; lia.
    + intros _ r Hr Hk. split; [by apply Hs3|by apply He4].
  - intros Hpg. destruct Hs4 as [->|(r & Hr & _ & <-)]; [done|].
    apply (wr_page rs Hwf r Hr).
Qed.

Lemma run_ok_other rs g l kind :
  wf_regions rs -> free rs g l -> 0 <= g -> 0 < l -> g + l < 2 ^ 64 -> kind <> Ram ->
  run_ok rs g l kind g (g + l).
Proof.
  intros Hwf Hfree Hg Hl Hgl Hk. split; [lia|by left| | |done].
  - intros r a Hr Ha Hae. pose proof (Hfree r Hr). unfold inr in Ha. lia.
  - intros r a b Hr Ha Hae _.
    destruct (wr_covered rs Hwf r a Hr Ha) as (r1 & Hr1 & Ha1 & _).
    pose proof (Hfree r1 Hr1). unfold inr in Ha1. lia.
Qed.

(** ** Publishing a region *)

Definition adopt1 (run : TrackedRun) (r : Region) : Region :=
  if (run_gpa run <=? r_gpa r) && (r_end r <=? run_end run)
  then mkRegion (r_gpa r) (r_len r) (r_kind r) run (r_direct r)
  else r.

Lemma adopt1_shape run r :
  r_gpa (adopt1 run r) = r_gpa r /\ r_len (adopt1 run r) = r_len r /\
  r_kind (adopt1 run r) = r_kind r.
Proof. unfold adopt1. by case_match. Qed.

Lemma adopt1_direct run r : r_direct (adopt1 run r) = r_direct r.
Proof. unfold adopt1. by case_match. Qed.

Lemma adopt1_tracked run r :
  wf_region r -> run_end run = run_gpa run + m_len (run_map run) ->
  r_tracked (adopt1 run r) = run /\ run_gpa run <= r_gpa r /\
    r_gpa r + r_len r <= run_gpa run + m_len (run_map run) \/
  adopt1 run r = r /\
    ~ (run_gpa run <= r_gpa r /\ r_gpa r + r_len r <= run_gpa run + m_len (run_map run)).
Proof.
  intros Hr He. unfold adopt1. rewrite (r_end_eq r Hr), He.
  destruct (Z.leb_spec (run_gpa run) (r_gpa r)),
    (Z.leb_spec (r_gpa r + r_len r) (run_gpa run + m_len (run_map run)));
    simpl; [left; done|right; split; [done|lia]..].
Qed.

Lemma elem_of_vec_insert {A} i (x y : A) l : y ∈ vec_insert i x l <-> y = x \/ y ∈ l.
Proof.
  unfold vec_insert. rewrite elem_of_app, elem_of_cons.
  rewrite <- (take_drop i l) at 3. rewrite elem_of_app. tauto.
Qed.

(** Inserting at the index the binary search gives keeps the list sorted. *)
Lemma sorted_insert rs n :
  (forall r, r ∈ rs -> wf_region r) -> StronglySorted before rs -> wf_region n ->
  free rs (r_gpa n) (r_len n) ->
  StronglySorted before (vec_insert
    match binary_search_by (cmp_gpa (r_gpa n)) rs with Ok i => i | Err i => i end n rs).
Proof.
  intros Hr Hs Hn Hfree.
  assert (Hp : partitioned (cmp_gpa (r_gpa n)) rs).
  { intros i j x y Hij Hi Hj. pose proof (sorted_lookup rs i j x y Hs Hij Hi Hj) as Hb.
    pose proof (Hr x (list_elem_of_lookup_2 _ _ _ Hi)).
    unfold before, wf_region, cmp_gpa in *.
    rewrite !Z.compare_gt_iff, !Z.compare_lt_iff. lia. }
  destruct (binary_search_by _ rs) as [i|i] eqn:Hb.
  { apply binary_search_by_Ok in Hb as (x & Hi & Hx%Z.compare_eq).
    assert (Hin : x ∈ rs) by (by eapply list_elem_of_lookup_2).
    specialize (Hfree x Hin). pose proof (Hr x Hin). unfold wf_region in *. lia. }
  apply binary_search_by_Err in Hb as (Hlen & Hlt & Hgt); [|done]. clear Hp.
  unfold cmp_gpa in *.
  assert (Hlo : forall x, x ∈ take i rs -> before x n).
  { intros x [j [Hj Hji]%lookup_take_Some]%list_elem_of_lookup.
    pose proof (list_elem_of_lookup_2 _ _ _ Hj) as Hin.
    specialize (Hlt j x Hji Hj). rewrite Z.compare_lt_iff in Hlt.
    specialize (Hfree x Hin). unfold before, wf_region in *. lia. }
  assert (Hhi : forall x, x ∈ drop i rs -> before n x).
  { intros x [j Hj]%list_elem_of_lookup. rewrite lookup_drop in Hj.
    pose proof (list_elem_of_lookup_2 _ _ _ Hj) as Hin.
    specialize (Hgt (i + j)%nat x (Nat.le_add_r i j) Hj). rewrite Z.compare_gt_iff in Hgt.
    specialize (Hfree x Hin). unfold before, wf_region in *. pose proof (Hr x Hin). lia. }
  unfold vec_insert. rewrite <- (take_drop i rs) in Hs.
  apply StronglySorted_app in Hs as (H1 & H2 & H3).
  apply StronglySorted_app. split_and!; [|done|].
  - intros x y Hx [->|Hy]%elem_of_cons; [by apply Hlo|by apply H1].
  - constructor; [done|]. apply Forall_forall. done.
Qed.

Section publish.
Context (rs : list Region) (n : Region) (run : TrackedRun).
Context (Hwf : wf_regions rs) (Hn : wf_region n).
Context (Hfree : free rs (r_gpa n) (r_len n)).
Context (Hend : run_end run = run_gpa run + m_len (run_map run)).
Context (Hok : run_ok rs (r_gpa n) (r_len n) (r_kind n) (run_gpa run)
                 (run_gpa run + m_len (run_map run))).
Context (Hprot : run_prot run = guest_prot_for (r_kind n) /\
                   contains (m_prot (run_map run)) RW = true).
Context (Hpage : page (r_gpa n) /\ page (run_gpa run) /\ page (m_ptr (run_map run))).
Context (Hdirect : m_len (r_direct n) = r_len n /\ m_prot (r_direct n) = RW).
Context (i : nat) (Hsorted : StronglySorted before (vec_insert i n rs)).

#[local] Abbreviation rs' := (adopt_run (vec_insert i n rs) run).

#[local] Lemma elem_new x : x ∈ rs' <-> exists y, x = adopt1 run y /\ (y = n \/ y ∈ rs).
Proof.
  unfold adopt_run. rewrite list_elem_of_fmap. by setoid_rewrite elem_of_vec_insert.
Qed.

#[local] Lemma wf_old y : y = n \/ y ∈ rs -> wf_region y.
Proof. intros [->|Hy]; [done|by apply (wr_region rs Hwf)]. Qed.

#[local] Lemma n_inside :
  run_gpa run <= r_gpa n /\ r_gpa n + r_len n <= run_gpa run + m_len (run_map run).
Proof. pose proof (ro_le _ _ _ _ _ _ Hok). lia. Qed.

(** An old region outside the run keeps its own run outside too. *)
#[local] Lemma outside_run y a :
  y ∈ rs ->
  ~ (run_gpa run <= r_gpa y /\ r_gpa y + r_len y <= run_gpa run + m_len (run_map run)) ->
  in_run (r_tracked y) a -> ~ in_run run a.
Proof.
  intros Hy Hout Ha Hra. apply Hout.
  pose proof (wr_in_run rs Hwf y Hy) as (? & ? & ?).
  pose proof (wr_region rs Hwf y Hy) as (? & ? & ?).
  pose proof (ro_old _ _ _ _ _ _ Hok y a (r_gpa y) Hy Ha Hra).
  pose proof (ro_old _ _ _ _ _ _ Hok y a (r_gpa y + r_len y - 1) Hy Ha Hra).
  unfold in_run in *. lia.
Qed.

#[local] Lemma inside_kind y :
  (y = n \/ y ∈ rs) -> run_gpa run <= r_gpa y ->
  r_gpa y + r_len y <= run_gpa run + m_len (run_map run) -> r_kind y = r_kind n.
Proof.
  intros [->|Hy] H1 H2; [done|]. pose proof (wr_region rs Hwf y Hy) as (? & ? & ?).
  destruct (ro_inside _ _ _ _ _ _ Hok y (r_gpa y) Hy) as (_ & _ & ? & ?);
    [unfold inr; lia|lia|congruence].
Qed.

#[local] Lemma publish_covered x a :
  x ∈ rs' -> in_run (r_tracked x) a ->
  exists r', r' ∈ rs' /\ inr r' a /\ r_tracked r' = r_tracked x /\ r_kind r' = r_kind x.
Proof.
  intros (y & -> & Hy)%elem_new Ha.
  destruct (adopt1_shape run y) as (_ & _ & Hk). rewrite Hk.
  destruct (adopt1_tracked run y (wf_old y Hy) Hend) as [(Ht & H1 & H2)|[Ht Hout]].
  - rewrite Ht in Ha |- *. rewrite (inside_kind y Hy H1 H2).
    assert (Hz : exists z, (z = n \/ z ∈ rs) /\ inr z a).
    { destruct (ro_cov _ _ _ _ _ _ Hok a Ha) as [Hg|(r & Hr & Hra & _)];
        [exists n|exists r]; auto. }
    destruct Hz as (z & Hz & Hza). exists (adopt1 run z).
    pose proof (wf_old z Hz) as Hwz.
    assert (Hin : run_gpa run <= r_gpa z /\ r_gpa z + r_len z <= run_gpa run + m_len (run_map run)).
    { destruct Hz as [->|Hz]; [apply n_inside|].
      destruct (ro_inside _ _ _ _ _ _ Hok z a Hz Hza Ha) as (? & ? & _). done. }
    destruct (adopt1_shape run z) as (Hgz & Hlz & Hkz).
    split; [apply elem_new; eauto|]. split; [unfold inr in *; by rewrite Hgz, Hlz|].
    destruct (adopt1_tracked run z Hwz Hend) as [[-> _]|[_ Hno]]; [|done].
    split; [done|]. rewrite Hkz. by destruct Hin; apply inside_kind.
  - destruct Hy as [->|Hy]; [by destruct Hout; apply n_inside|]. rewrite Ht in Ha |- *.
    destruct (wr_covered rs Hwf y a Hy Ha) as (r & Hr & Hra & Hrt & Hrk).
    exists (adopt1 run r). destruct (adopt1_shape run r) as (Hgr & Hlr & Hkr).
    split; [apply elem_new; eauto|]. split; [unfold inr in *; by rewrite Hgr, Hlr|].
    rewrite Hkr. split; [|done].
    destruct (adopt1_tracked run r (wf_old r (or_intror Hr)) Hend) as [(_ & H1 & H2)|[-> _]];
      [|done].
    exfalso. apply (outside_run y a Hy Hout Ha).
    unfold inr, in_run in *. lia.
Qed.

#[local] Lemma publish_maximal x x' :
  x ∈ rs' -> x' ∈ rs' -> r_kind x = Ram -> r_kind x' = Ram ->
  r_gpa x + r_len x = r_gpa x' -> r_tracked x = r_tracked x'.
Proof.
  intros (y & -> & Hy)%elem_new (y' & -> & Hy')%elem_new.
  destruct (adopt1_shape run y) as (-> & -> & ->).
  destruct (adopt1_shape run y') as (-> & _ & ->). intros Hk Hk' Hadj.
  pose proof (wf_old y Hy) as (? & ? & ?). pose proof (wf_old y' Hy') as (? & ? & ?).
  pose proof (ro_le _ _ _ _ _ _ Hok) as [? ?].
  assert (Hcl : r_kind n = Ram -> forall z, (z = n \/ z ∈ rs) -> r_kind z = Ram ->
    r_gpa z + r_len z <> run_gpa run /\ r_gpa z <> run_gpa run + m_len (run_map run)).
  { destruct Hn as (? & ? & ?). intros Hkn z [->|Hz] Hkz; [lia|].
    by apply (ro_closed _ _ _ _ _ _ Hok Hkn). }
  assert (Hins : forall z a, (z = n \/ z ∈ rs) -> inr z a -> in_run run a ->
    run_gpa run <= r_gpa z /\ r_gpa z + r_len z <= run_gpa run + m_len (run_map run)).
  { intros z a [->|Hz] Hza Ha; [lia|].
    destruct (ro_inside _ _ _ _ _ _ Hok z a Hz Hza Ha) as (? & ? & _). done. }
  destruct (adopt1_tracked run y (wf_old y Hy) Hend) as [(Ht & Hlo & Hhi)|[Ht Hout]];
  destruct (adopt1_tracked run y' (wf_old y' Hy') Hend) as [(Ht' & Hlo' & Hhi')|[Ht' Hout']].
  - congruence.
  - exfalso. assert (Hkn : r_kind n = Ram) by (by rewrite <- (inside_kind y Hy Hlo Hhi)).
    destruct (Hcl Hkn y' Hy' Hk'). apply Hout'.
    apply (Hins y' (r_gpa y')); [done|unfold inr; lia|unfold in_run; lia].
  - exfalso. assert (Hkn : r_kind n = Ram) by (by rewrite <- (inside_kind y' Hy' Hlo' Hhi')).
    destruct (Hcl Hkn y Hy Hk). apply Hout.
    apply (Hins y (r_gpa y' - 1)); [done|unfold inr; lia|unfold in_run; lia].
  - rewrite Ht, Ht'. destruct Hy as [->|Hy]; [by destruct Hout; apply n_inside|].
    destruct Hy' as [->|Hy']; [by destruct Hout'; apply n_inside|].
    by apply (wr_maximal rs Hwf).
Qed.

Lemma wf_publish : wf_regions rs'.
Proof.
  split.
  - intros x (y & -> & Hy)%elem_new. destruct (adopt1_shape run y) as (Hg & Hl & _).
    unfold wf_region. rewrite Hg, Hl. by apply wf_old.
  - unfold adopt_run. eapply StronglySorted_fmap; [|exact Hsorted].
    intros a b Hab. change (before (adopt1 run a) (adopt1 run b)). unfold before in *.
    destruct (adopt1_shape run a) as (-> & -> & _), (adopt1_shape run b) as (-> & _). done.
  - intros x (y & -> & Hy)%elem_new.
    destruct (adopt1_shape run y) as (Hg & Hl & _). rewrite Hg, Hl.
    pose proof (ro_le _ _ _ _ _ _ Hok).
    destruct (adopt1_tracked run y (wf_old y Hy) Hend) as [(-> & ? & ?)|[-> Hout]]; [lia|].
    destruct Hy as [->|Hy]; [by destruct Hout; apply n_inside|]. by apply (wr_in_run rs Hwf).
  - apply publish_covered.
  - apply publish_maximal.
  - intros x (y & -> & Hy)%elem_new. destruct (adopt1_shape run y) as (_ & _ & ->).
    destruct (adopt1_tracked run y (wf_old y Hy) Hend) as [(-> & H1 & H2)|[-> Hout]].
    + by rewrite (inside_kind y Hy H1 H2).
    + destruct Hy as [->|Hy]; [by destruct Hout; apply n_inside|]. by apply (wr_prot rs Hwf).
  - intros x (y & -> & Hy)%elem_new. destruct (adopt1_shape run y) as (-> & _ & _).
    assert (page (r_gpa y)).
    { destruct Hy as [->|Hy]; [apply Hpage|]. by apply (wr_page rs Hwf). }
    destruct (adopt1_tracked run y (wf_old y Hy) Hend) as [(-> & H1 & H2)|[-> Hout]].
    + split; [done|apply Hpage].
    + destruct Hy as [->|Hy]; [by destruct Hout; apply n_inside|]. by apply (wr_page rs Hwf).
  - intros x (y & -> & Hy)%elem_new. destruct (adopt1_shape run y) as (_ & -> & _).
    rewrite adopt1_direct. destruct Hy as [->|Hy]; [done|]. by apply (wr_direct rs Hwf).
Qed.

End publish.

(** ** Claims *)

Lemma swap_remove_perm {A} i (x : A) l :
  l !! i = Some x -> l ≡ₚ x :: swap_remove i l.
Proof.
  intros Hi. pose proof (lookup_lt_Some _ _ _ Hi) as Hlen.
  destruct l as [|z l _] using rev_ind; [done|].
  unfold swap_remove. rewrite last_snoc, removelast_last, length_app in *. simpl in *.
  case_decide as Hd.
  - rewrite lookup_app_r in Hi by lia.
    replace (i - length l)%nat with 0%nat in Hi by lia. simpl in Hi. simplify_eq.
    by rewrite Permutation_app_comm.
  - rewrite lookup_app_l in Hi by lia.
    rewrite (insert_take_drop l i z) by lia.
    rewrite <- (take_drop_middle l i x Hi) at 1.
    rewrite <- app_assoc. simpl. rewrite <- Permutation_middle. apply Permutation_skip.
    apply Permutation_app_head. symmetry. apply Permutation_cons_append.
Qed.

Lemma remove_claim_perm rs cs g e :
  wf_claims rs cs -> (g, e) ∈ cs -> cs ≡ₚ (g, e) :: remove_claim g cs.
Proof.
  intros Hwf Hin. unfold remove_claim.
  destruct (list_find _ cs) as [[i c]|] eqn:Hf.
  - apply list_find_Some in Hf as (Hi & Hc & _).
    pose proof (list_elem_of_lookup_2 _ _ _ Hi) as Hcin.
    assert (c = (g, e)) as ->; [|by apply swap_remove_perm].
    destruct (decide (c = (g, e))) as [|Hne]; [done|exfalso].
    pose proof (wc_disjoint rs cs Hwf c (g, e) Hcin Hin Hne) as Hd.
    pose proof (wc_range rs cs Hwf c Hcin). pose proof (wc_range rs cs Hwf (g, e) Hin).
    unfold disjoint2 in Hd. simpl in *. lia.
  - apply list_find_None in Hf. rewrite Forall_forall in Hf. by destruct (Hf (g, e)).
Qed.

Lemma wf_claims_sub rs cs c cs' :
  wf_claims rs cs -> cs ≡ₚ c :: cs' -> wf_claims rs cs'.
Proof.
  intros Hwf Hp.
  assert (Hsub : forall x, x ∈ cs' -> x ∈ cs) by (intros x Hx; rewrite Hp; by right).
  split.
  - intros x Hx. by apply (wc_range rs cs Hwf), Hsub.
  - pose proof (wc_nodup rs cs Hwf) as Hn. rewrite Hp in Hn. by apply NoDup_cons in Hn as [_ ?].
  - intros c1 c2 H1 H2. by apply (wc_disjoint rs cs Hwf); apply Hsub.
  - intros r x Hr Hx. by apply (wc_regions rs cs Hwf); [|apply Hsub].
Qed.

Definition range (c : RamClaim) : Z * Z := (c_gpa c, c_gpa c + c_len c).

Definition claim_ok (c : RamClaim) : Prop :=
  0 <= c_gpa c /\ 0 < c_len c /\ c_gpa c + c_len c < 2 ^ 64 /\
  c_prot c = guest_prot_for (c_kind c).

(** A granted claim touches nothing published and nothing claimed. *)
Lemma claim_spec pm gpa len kind prot pl pm' c :
  wf pm -> 0 <= gpa -> 0 <= len -> claim pm gpa len kind prot pl = Ok (pm', c) ->
  c = mkClaim gpa len kind prot /\ 0 < len /\ gpa + len < 2 ^ 64 /\
  placement_ok pl gpa len (gpa + len) = true /\
  regions pm' = regions pm /\ claims pm' = claims pm ++ [(gpa, gpa + len)] /\
  next_segid pm' = next_segid pm /\
  free (regions pm) gpa len /\ wf pm'.
Proof.
  intros [Hr Hc] Hg Hl. unfold claim, region_end, checked_add.
  destruct (Z.eqb_spec len 0); [done|].
  destruct (Z.ltb_spec (gpa + len) (2 ^ 64)); simpl; [|done].
  destruct (placement_ok pl gpa len (gpa + len)) eqn:Hpl; simpl; [|done].
  unfold check_free. destruct (existsb _ (regions pm)) eqn:He1; [done|].
  destruct (existsb _ (claims pm)) eqn:He2; [done|]. intros [= <- <-].
  rewrite existsb_elem_false in He1. rewrite existsb_elem_false in He2.
  assert (Hfree : free (regions pm) gpa len).
  { intros r Hin. specialize (He1 r Hin). rewrite r_end_eq in He1 by (by apply (wr_region _ Hr)).
    simpl in He1. lia. }
  assert (Hcl : forall x, x ∈ claims pm -> disjoint2 x (gpa, gpa + len)).
  { intros x Hx. specialize (He2 x Hx). unfold disjoint2. simpl in *. lia. }
  split_and!; try done; try lia.
  split; simpl; [done|]. split.
  - intros x [Hx| ->%list_elem_of_singleton]%elem_of_app; [by apply (wc_range _ _ Hc)|]. simpl. lia.
  - apply NoDup_app. split_and!; [apply Hc| |apply NoDup_singleton].
    intros x Hx ->%list_elem_of_singleton. specialize (Hcl _ Hx). unfold disjoint2 in Hcl.
    simpl in Hcl. lia.
  - intros c1 c2 [H1| ->%list_elem_of_singleton]%elem_of_app
      [H2| ->%list_elem_of_singleton]%elem_of_app Hne; [by apply (wc_disjoint _ _ Hc)| | |done].
    + by apply Hcl.
    + specialize (Hcl _ H2). unfold disjoint2 in *. tauto.
  - intros r x Hin [Hx| ->%list_elem_of_singleton]%elem_of_app; [by apply (wc_regions _ _ Hc)|].
    specialize (Hfree r Hin). unfold disjoint2. simpl. lia.
Qed.

Lemma release_spec pm c :
  wf pm -> range c ∈ claims pm ->
  wf (release_claim pm (c_gpa c)) /\
  claims pm ≡ₚ range c :: claims (release_claim pm (c_gpa c)).
Proof.
  intros [Hr Hc] Hin. pose proof (remove_claim_perm _ _ _ _ Hc Hin) as Hp.
  split; [|done]. split; [done|]. by eapply wf_claims_sub.
Qed.

(** What the kernel promises: [mmap] answers page-aligned pointers, and a
    segment is mapped only at a page boundary. *)
Definition kernel_ok (k : answers) (c : RamClaim) : Prop :=
  (forall p, a_mmap_run k = Ok p -> page p) /\
  (forall p, a_mmap_seg k = Ok p -> page p) /\
  (a_map_memseg k = Ok tt -> page (c_gpa c)).

Lemma publish_spec pm c run direct :
  wf pm -> range c ∈ claims pm -> claim_ok c ->
  run_end run = run_gpa run + m_len (run_map run) ->
  run_ok (regions pm) (c_gpa c) (c_len c) (c_kind c) (run_gpa run)
    (run_gpa run + m_len (run_map run)) ->
  run_prot run = guest_prot_for (c_kind c) /\ contains (m_prot (run_map run)) RW = true ->
  page (c_gpa c) /\ page (run_gpa run) /\ page (m_ptr (run_map run)) ->
  m_len direct = c_len c /\ m_prot direct = RW ->
  wf (publish_claim pm c run direct) /\
  claims pm ≡ₚ range c :: claims (publish_claim pm c run direct).
Proof.
  intros [Hr Hc] Hin (Hg & Hl & Hlt & _) Hend Hok Hprot Hpage Hdirect.
  pose proof (remove_claim_perm _ _ _ _ Hc Hin) as Hp. split; [|done].
  set (n := mkRegion (c_gpa c) (c_len c) (c_kind c) run direct).
  assert (Hfree : free (regions pm) (c_gpa c) (c_len c)).
  { intros r Hrin. pose proof (wc_regions _ _ Hc r _ Hrin Hin) as Hd.
    unfold disjoint2 in Hd. simpl in Hd. lia. }
  split; unfold publish_claim; cbn [regions claims].
  - apply (wf_publish (regions pm) n run); try done.
    apply (sorted_insert (regions pm) n); try done; apply Hr.
  - assert (Hel : forall x, x ∈ adopt_run (vec_insert
        match binary_search_by (cmp_gpa (c_gpa c)) (regions pm) with Ok i => i | Err i => i end
        n (regions pm)) run -> exists y, r_gpa x = r_gpa y /\ r_len x = r_len y /\
        (y = n \/ y ∈ regions pm)).
    { intros x (y & -> & Hy)%list_elem_of_fmap. exists y.
      destruct (adopt1_shape run y) as (? & ? & _). rewrite elem_of_vec_insert in Hy. done. }
    pose proof (wf_claims_sub _ _ _ _ Hc Hp) as Hc'. split; try apply Hc'.
    intros r x (y & -> & -> & [->|Hy])%Hel Hx; [|by apply (wc_regions _ _ Hc')].
    simpl. apply (wc_disjoint _ _ Hc); [rewrite Hp; by right|done|].
    intros ->. pose proof (wc_nodup _ _ Hc) as Hn. rewrite Hp in Hn.
    by apply NoDup_cons in Hn as [? _].
Qed.

Lemma run_bounds_ram pm c :
  wf pm -> range c ∈ claims pm -> claim_ok c ->
  let rs := regions pm in
  let s := walk_below (length rs) rs (c_gpa c) in
  let e := walk_above (length rs) rs (c_gpa c + c_len c) in
  run_bounds pm (c_gpa c) (c_len c) Ram = (s, e - s) /\
  run_ok rs (c_gpa c) (c_len c) Ram s e /\ (page (c_gpa c) -> page s).
Proof.
  intros [Hr Hc] Hin (Hg & Hl & Hlt & _) rs s e.
  assert (Hfree : free rs (c_gpa c) (c_len c)).
  { intros r Hrin. pose proof (wc_regions _ _ Hc r _ Hrin Hin) as Hd.
    unfold disjoint2 in Hd. simpl in Hd. lia. }
  destruct (run_ok_ram rs (c_gpa c) (c_len c) s e) as [Hok Hpg]; try done.
  pose proof (ro_le _ _ _ _ _ _ Hok) as [? ?].
  split; [|done]. unfold run_bounds. rewrite wadd_small by lia.
  fold rs. fold s. fold e. by rewrite wsub_small by lia.
Qed.

Lemma mapping_new_Ok size prot mmap m :
  mapping_new size prot mmap = Ok m -> exists ptr, mmap = Ok ptr /\ m = mkMapping ptr size prot.
Proof.
  unfold mapping_new. case_match; [done|]. destruct mmap as [ptr|]; [|done].
  intros [= <-]. eauto.
Qed.

(** A commit publishes the claim, gives it back, or leaves it in place
    forever; in each case the map stays well formed. *)
Definition commit_post (pm : PhysMap) (c : RamClaim)
    (out : PhysMap * result ErrorKind unit) : Prop :=
  wf out.1 /\ (claims out.1 = claims pm \/ claims pm ≡ₚ range c :: claims out.1) /\
  (out.2 = Ok tt -> exists n, n ∈ regions out.1 /\ r_gpa n = c_gpa c /\
    r_len n = c_len c /\ r_kind n = c_kind c).

Lemma commit_drop pm c e :
  wf pm -> range c ∈ claims pm -> commit_post pm c (release_claim pm (c_gpa c), Err e).
Proof.
  intros Hwf Hin. destruct (release_spec pm c Hwf Hin) as [Hwr Hpr].
  split; [done|]. split; [by right|done].
Qed.

Lemma commit_publish pm c run direct :
  wf pm -> range c ∈ claims pm -> claim_ok c ->
  run_end run = run_gpa run + m_len (run_map run) ->
  run_ok (regions pm) (c_gpa c) (c_len c) (c_kind c) (run_gpa run)
    (run_gpa run + m_len (run_map run)) ->
  run_prot run = guest_prot_for (c_kind c) /\ contains (m_prot (run_map run)) RW = true ->
  page (c_gpa c) /\ page (run_gpa run) /\ page (m_ptr (run_map run)) ->
  m_len direct = c_len c /\ m_prot direct = RW ->
  commit_post pm c (publish_claim pm c run direct, Ok tt).
Proof.
  intros Hwf Hin Hc H1 H2 H3 H4 H5.
  destruct (publish_spec pm c run direct) as [Hwp Hpp]; try done.
  split; [done|]. split; [by right|]. intros _.
  exists (adopt1 run (mkRegion (c_gpa c) (c_len c) (c_kind c) run direct)).
  split; [|apply adopt1_shape]. apply list_elem_of_fmap_2, elem_of_vec_insert. by left.
Qed.

Lemma devmem_view_Ok segoff len devmem_offset mmap m :
  devmem_view segoff len devmem_offset mmap = Ok m ->
  exists ptr, mmap = Ok ptr /\ m = mkMapping ptr len RW.
Proof.
  unfold devmem_view. destruct devmem_offset; [|done]. case_match; [done|].
  apply mapping_new_Ok.
Qed.

Lemma commit_ram pm c m k p :
  wf pm -> range c ∈ claims pm -> claim_ok c -> kernel_ok k c -> c_kind c = Ram ->
  a_map_memseg k = Ok tt ->
  mapping_new (run_bounds pm (c_gpa c) (c_len c) Ram).2 (c_prot c) (a_mmap_run k) = Ok m ->
  commit_post pm c
    (publish_claim pm c (mkRun (run_bounds pm (c_gpa c) (c_len c) Ram).1 m (c_prot c))
       (mkMapping p (c_len c) RW), Ok tt).
Proof.
  intros Hwf Hin Hc (Hk1 & Hk2 & Hk3) Hkr Hmap Hm.
  destruct (run_bounds_ram pm c) as (Hb & Hok & Hpg); try done. rewrite Hb in *.
  apply mapping_new_Ok in Hm as (q & Hq & ->).
  pose proof (ro_le _ _ _ _ _ _ Hok) as [? ?].
  apply commit_publish; try done; simpl in *.
  - unfold run_end. simpl. apply wadd_small. destruct Hc. lia.
  - by rewrite Zplus_minus, Hkr.
  - destruct Hc as (_ & _ & _ & ->). by rewrite Hkr.
  - split_and!; [by apply Hk3|by apply Hpg, Hk3|by apply Hk1].
Qed.

Lemma commit_rom pm c p k :
  wf pm -> range c ∈ claims pm -> claim_ok c -> kernel_ok k c -> c_kind c <> Ram ->
  a_map_memseg k = Ok tt -> a_mmap_seg k = Ok p ->
  commit_post pm c (publish_claim pm c (mkRun (c_gpa c) (mkMapping p (c_len c) RW) (c_prot c))
    (mkMapping p (c_len c) RW), Ok tt).
Proof.
  intros Hwf Hin Hc (Hk1 & Hk2 & Hk3) Hkr Hmap Hp. pose proof Hc as (Hg & Hl & Hlt & Hprot).
  apply commit_publish; [done..| | | | |done]; simpl.
  - unfold run_end. simpl. apply wadd_small. lia.
  - destruct Hwf as [Hr Hcl]. apply run_ok_other; try done.
    intros r0 Hrin. pose proof (wc_regions _ _ Hcl r0 _ Hrin Hin) as Hdj.
    unfold disjoint2 in Hdj. simpl in Hdj. lia.
  - by rewrite Hprot.
  - split_and!; [by apply Hk3|by apply Hk3|by apply Hk2].
Qed.

Lemma commit_spec pm c segoff k :
  wf pm -> range c ∈ claims pm -> claim_ok c -> kernel_ok k c ->
  commit_post pm c (commit pm c segoff k).
Proof.
  intros Hwf Hin Hc Hk. unfold commit. case_match; [by apply commit_drop|].
  rewrite (surjective_pairing (run_bounds _ _ _ _)). cbv beta iota zeta.
  unfold tracked_view. destruct (decide (c_kind c = Ram)) as [Hkr|Hkr].
  - rewrite Hkr. destruct (2 ^ 63 <=? _); [by apply commit_drop|].
    destruct (mapping_new _ _ _) as [m|] eqn:Hm; [|by apply commit_drop].
    destruct (a_map_memseg k) as [[]|] eqn:Hmap; [|by apply commit_drop].
    destruct (devmem_view _ _ _ _) as [direct|] eqn:Hd.
    { apply devmem_view_Ok in Hd as (p & Hp & ->). by apply (commit_ram pm c m k p). }
    destruct (a_munmap_memseg k); [by apply commit_drop|].
    split; [done|]. split; [by left|done].
  - replace (match c_kind c with Ram => _ | _ => _ end) with (@Ok ErrorKind _ (@None TrackedRun))
      by (by destruct (c_kind c)).
    destruct (a_map_memseg k) as [[]|] eqn:Hmap; [|by apply commit_drop].
    destruct (devmem_view _ _ _ _) as [direct|] eqn:Hd.
    + apply devmem_view_Ok in Hd as (p & Hp & ->). by apply (commit_rom pm c p k).
    + destruct (a_munmap_memseg k); [by apply commit_drop|].
      split; [done|]. split; [by left|done].
Qed.

(** ** Reachable address spaces *)

(** The map together with the claims its users still hold. *)
Record sys : Type := mkSys { s_pm : PhysMap; s_out : list RamClaim }.

Inductive step : sys -> sys -> Prop :=
| step_claim_ram pm out gpa len pm' c :
    uint 64 gpa -> uint 64 len -> claim_ram pm gpa len = Ok (pm', c) ->
    step (mkSys pm out) (mkSys pm' (c :: out))
| step_drop pm out1 c out2 :
    step (mkSys pm (out1 ++ c :: out2))
         (mkSys (release_claim pm (c_gpa c)) (out1 ++ out2))
| step_commit pm out1 c out2 segoff k :
    kernel_ok k c ->
    step (mkSys pm (out1 ++ c :: out2)) (mkSys (commit pm c segoff k).1 (out1 ++ out2))
| step_add_ram pm out gpa len mk k :
    uint 64 gpa -> uint 64 len -> kernel_ok k (mkClaim gpa len Ram RWX) ->
    step (mkSys pm out) (mkSys (add_ram pm gpa len mk k).1 out)
| step_add_rom pm out rom_gpa rom_len ram_gpa ram_len mk k1 k2 :
    uint 64 rom_gpa -> uint 64 rom_len -> uint 64 ram_gpa -> uint 64 ram_len ->
    kernel_ok k1 (mkClaim rom_gpa rom_len Rom (guest_prot_for Rom)) ->
    kernel_ok k2 (mkClaim ram_gpa ram_len Ram (guest_prot_for Ram)) ->
    step (mkSys pm out)
         (mkSys (add_rom_with_ram_tail pm rom_gpa rom_len ram_gpa ram_len mk k1 k2).1 out).

(** Every held claim is one the map records, once. *)
Definition sys_ok (s : sys) : Prop :=
  wf (s_pm s) /\ Forall claim_ok (s_out s) /\
  exists rest, claims (s_pm s) ≡ₚ (range <$> s_out s) ++ rest.

Lemma sys_ok_claim pm out gpa len kind pl pm' c :
  sys_ok (mkSys pm out) -> uint 64 gpa -> uint 64 len ->
  claim pm gpa len kind (guest_prot_for kind) pl = Ok (pm', c) ->
  c = mkClaim gpa len kind (guest_prot_for kind) /\ sys_ok (mkSys pm' (c :: out)).
Proof.
  intros (Hwf & Hout & rest & Hrest) Hg Hl Hc. simpl in *. unfold uint in *.
  apply claim_spec in Hc as (-> & ? & ? & _ & _ & Hcl & _ & _ & Hwf'); [|done|lia|lia].
  split; [done|]. split; [done|]. split; simpl.
  - constructor; [|done]. unfold claim_ok. simpl. split_and!; done || lia.
  - exists rest. rewrite Hcl, Hrest. by rewrite Permutation_app_comm.
Qed.

Lemma sys_ok_end pm out1 c out2 pm' :
  sys_ok (mkSys pm (out1 ++ c :: out2)) -> wf pm' ->
  claims pm' = claims pm \/ claims pm ≡ₚ range c :: claims pm' ->
  sys_ok (mkSys pm' (out1 ++ out2)).
Proof.
  intros (Hwf & Hout & rest & Hrest) Hwf' Hcl. simpl in *. split; [done|].
  rewrite Forall_app, Forall_cons in Hout. destruct Hout as (? & _ & ?).
  split; [by apply Forall_app|]. simpl.
  rewrite fmap_app, fmap_cons, <- app_assoc in Hrest. simpl in Hrest.
  rewrite <- Permutation_middle in Hrest. destruct Hcl as [Hcl|Hcl].
  - exists (range c :: rest). rewrite Hcl, Hrest, <- Permutation_middle.
    by rewrite fmap_app, <- app_assoc.
  - exists rest. rewrite Hcl in Hrest. apply Permutation_cons_inv in Hrest.
    by rewrite Hrest, fmap_app, <- app_assoc.
Qed.

Lemma sys_ok_in pm out1 c out2 :
  sys_ok (mkSys pm (out1 ++ c :: out2)) -> range c ∈ claims pm /\ claim_ok c.
Proof.
  intros (Hwf & Hout & rest & Hrest). simpl in *. split.
  - rewrite Hrest, fmap_app, fmap_cons, !elem_of_app, elem_of_cons. tauto.
  - rewrite Forall_app, Forall_cons in Hout. tauto.
Qed.

Lemma sys_ok_drop pm out1 c out2 :
  sys_ok (mkSys pm (out1 ++ c :: out2)) ->
  sys_ok (mkSys (release_claim pm (c_gpa c)) (out1 ++ out2)).
Proof.
  intros Hs. destruct (sys_ok_in _ _ _ _ Hs) as [Hin Hc].
  destruct (release_spec pm c) as [? ?]; [apply Hs|done|].
  eapply sys_ok_end; [done|done|by right].
Qed.

Lemma sys_ok_commit pm out1 c out2 segoff k :
  sys_ok (mkSys pm (out1 ++ c :: out2)) -> kernel_ok k c ->
  sys_ok (mkSys (commit pm c segoff k).1 (out1 ++ out2)).
Proof.
  intros Hs Hk. destruct (sys_ok_in _ _ _ _ Hs) as [Hin Hc].
  destruct (commit_spec pm c segoff k) as (? & ? & _); [apply Hs|done..|].
  by eapply sys_ok_end.
Qed.

Lemma sys_ok_bump pm out : sys_ok (mkSys pm out) -> sys_ok (mkSys (bump_segid pm) out).
Proof. done. Qed.

Lemma sys_ok_add_ram pm out gpa len mk k :
  sys_ok (mkSys pm out) -> uint 64 gpa -> uint 64 len ->
  kernel_ok k (mkClaim gpa len Ram RWX) ->
  sys_ok (mkSys (add_ram pm gpa len mk k).1 out).
Proof.
  intros Hs Hg Hl Hk. unfold add_ram, add_region.
  destruct (claim pm gpa len Ram RWX Firmware) as [[pm1 c]|] eqn:Hc; [|done].
  apply (sys_ok_claim _ out) in Hc as [-> Hs1]; try done.
  destruct mk; [|by apply (sys_ok_drop _ [] _ out)].
  pose proof (sys_ok_commit _ [] _ out 0 k Hs1 Hk) as Hs2. simpl in Hs2.
  by destruct (commit pm1 _ 0 k).
Qed.

Lemma sys_ok_add_rom pm out rg rl ag al mk k1 k2 :
  sys_ok (mkSys pm out) -> uint 64 rg -> uint 64 rl -> uint 64 ag -> uint 64 al ->
  kernel_ok k1 (mkClaim rg rl Rom (guest_prot_for Rom)) ->
  kernel_ok k2 (mkClaim ag al Ram (guest_prot_for Ram)) ->
  sys_ok (mkSys (add_rom_with_ram_tail pm rg rl ag al mk k1 k2).1 out).
Proof.
  intros Hs Hrg Hrl Hag Hal Hk1 Hk2. unfold add_rom_with_ram_tail.
  destruct (checked_add _ _ _); [|done]. case_match; [done|].
  destruct (claim pm rg rl _ _ _) as [[pm1 rom]|] eqn:Hc1; [|done].
  apply (sys_ok_claim _ out) in Hc1 as [-> Hs1]; try done.
  destruct (claim pm1 ag al _ _ _) as [[pm2 ram]|] eqn:Hc2;
    [|by apply (sys_ok_drop _ [] _ out)].
  eapply sys_ok_claim in Hc2 as [-> Hs2]; [|exact Hs1|done..].
  destruct mk.
  2:{ apply (sys_ok_drop _ [] _ out). by apply (sys_ok_drop _ [] _ (_ :: out)). }
  pose proof (sys_ok_commit _ [_] _ out 0 k1 Hs2 Hk1) as Hs3. simpl in Hs3.
  destruct (commit pm2 _ 0 k1) as [pm3 [[]|]]; simpl in Hs3.
  - pose proof (sys_ok_commit _ [] _ out rl k2 Hs3 Hk2) as Hs4. simpl in Hs4.
    by destruct (commit pm3 _ rl k2).
  - by apply (sys_ok_drop _ [] _ out).
Qed.

Lemma step_ok s s' : step s s' -> sys_ok s -> sys_ok s'.
Proof.
  destruct 1 as [pm out gpa len pm' c Hg Hl Hc| | | |]; intros Hs.
  - by apply (sys_ok_claim pm out gpa len Ram RunTime pm' c) in Hc as [_ ?].
  - by apply sys_ok_drop.
  - by apply sys_ok_commit.
  - by apply sys_ok_add_ram.
  - by apply sys_ok_add_rom.
Qed.

Definition init : sys := mkSys physmap_new [].

Lemma sys_ok_init : sys_ok init.
Proof.
  assert (Hnil : forall A (x : A), x ∉ []) by (intros A x; apply not_elem_of_nil).
  split; [|split; [constructor|by exists []]].
  split; split; simpl; try constructor; intros; exfalso; by eapply Hnil.
Qed.

Lemma reach_ok s : rtc step init s -> sys_ok s.
Proof.
  generalize sys_ok_init. intros Hi Hr.
  induction Hr as [|x y z Hxy _ IH]; [done|]. by apply IH, (step_ok x).
Qed.

Lemma reach_wf s : rtc step init s -> wf (s_pm s).
Proof. intros Hr. apply (reach_ok s Hr). Qed.

(** ** What a lookup guarantees *)

(** The reference translation of one guest address: where its byte lives in
    host memory, and what kind of memory it is. *)
Definition translate (pm : PhysMap) (a : Z) : option (Z * RegionKind) :=
  let* r := region_at (regions pm) a in
  Some (m_ptr (run_map (r_tracked r)) + (a - run_gpa (r_tracked r)), r_kind r).

Lemma run_end_eq rs r :
  wf_regions rs -> r ∈ rs ->
  run_end (r_tracked r) = run_gpa (r_tracked r) + m_len (run_map (r_tracked r)).
Proof.
  intros Hwf Hr. pose proof (wr_in_run _ Hwf r Hr). pose proof (wr_region _ Hwf r Hr) as (?&?&?).
  apply wadd_small. lia.
Qed.

Lemma prot_of_kind rs r :
  wf_regions rs -> r ∈ rs ->
  let p := intersection (m_prot (run_map (r_tracked r))) (run_prot (r_tracked r)) in
  contains p READ = true /\ contains p WRITE = bool_decide (r_kind r <> Rom).
Proof.
  intros Hwf Hr. destruct (wr_prot _ Hwf r Hr) as [-> Hrw].
  unfold contains, intersection in *. apply Z.eqb_eq in Hrw.
  assert (H1 : Z.land (m_prot (run_map (r_tracked r))) READ = READ).
  { change READ with (Z.land RW READ) at 1. by rewrite Z.land_assoc, Hrw. }
  assert (H2 : Z.land (m_prot (run_map (r_tracked r))) WRITE = WRITE).
  { change WRITE with (Z.land RW WRITE) at 1. by rewrite Z.land_assoc, Hrw. }
  rewrite <- !Z.land_assoc.
  replace (Z.land (guest_prot_for (r_kind r)) READ) with READ by (by destruct (r_kind r)).
  rewrite H1. split; [done|].
  destruct (r_kind r); cbn [guest_prot_for].
  - change (Z.land RWX WRITE) with WRITE. by rewrite H2.
  - change (Z.land (Z.lor READ EXEC) WRITE) with 0. by rewrite Z.land_0_r.
  - change (Z.land RWX WRITE) with WRITE. by rewrite H2.
Qed.

Lemma lookup_inv pm gpa len v :
  wf pm -> 0 <= gpa -> 0 <= len -> lookup pm gpa len = Some v ->
  exists r, r ∈ regions pm /\ inr r gpa /\ gpa + len < 2 ^ 64 /\
    gpa + len <= run_gpa (r_tracked r) + m_len (run_map (r_tracked r)) /\
    v = mkSub (m_ptr (run_map (r_tracked r)) + (gpa - run_gpa (r_tracked r))) len
          (intersection (m_prot (run_map (r_tracked r))) (run_prot (r_tracked r))).
Proof.
  intros [Hr _] Hg Hl. unfold lookup. destruct (checked_add 64 gpa len) as [e|] eqn:He; [|done].
  apply checked_add_Some in He as [-> ?].
  destruct (region_at _ gpa) as [r|] eqn:Hra; [|done]. cbn [option_bind].
  apply region_at_spec in Hra as [Hin Ha]; [|done].
  pose proof (wr_in_run _ Hr r Hin) as (? & ? & ?). pose proof (wr_region _ Hr r Hin) as (?&?&?).
  unfold inr in Ha. rewrite (run_end_eq _ r Hr Hin).
  destruct (Z.ltb_spec (run_gpa (r_tracked r) + m_len (run_map (r_tracked r))) (gpa + len)); [done|].
  rewrite wsub_small by lia. unfold subregion, sub_new, checked_add. simpl s_len.
  destruct (Z.ltb_spec (gpa - run_gpa (r_tracked r) + len) (2 ^ 64)); [|done]. simpl.
  destruct (Z.ltb_spec (m_len (run_map (r_tracked r)))
    (gpa - run_gpa (r_tracked r) + len)); [done|].
  intros [= <-]. exists r. split_and!; done || lia.
Qed.

Lemma lookup_intro pm gpa len r :
  wf pm -> 0 <= gpa -> 0 <= len -> r ∈ regions pm -> inr r gpa ->
  gpa + len <= run_gpa (r_tracked r) + m_len (run_map (r_tracked r)) ->
  exists v, lookup pm gpa len = Some v.
Proof.
  intros [Hr _] Hg Hl Hin Ha Hle. unfold lookup.
  pose proof (wr_in_run _ Hr r Hin) as (? & ? & ?). pose proof (wr_region _ Hr r Hin) as (?&?&?).
  unfold checked_add at 1. destruct (Z.ltb_spec (gpa + len) (2 ^ 64)); [|lia]. simpl.
  rewrite (proj2 (region_at_spec _ gpa r Hr)) by done. simpl.
  rewrite (run_end_eq _ r Hr Hin). unfold inr in Ha.
  destruct (Z.ltb_spec (run_gpa (r_tracked r) + m_len (run_map (r_tracked r))) (gpa + len)); [lia|].
  rewrite wsub_small by lia. unfold subregion, sub_new, checked_add. simpl s_len.
  destruct (Z.ltb_spec (gpa - run_gpa (r_tracked r) + len) (2 ^ 64)); [|lia]. simpl.
  destruct (Z.ltb_spec (m_len (run_map (r_tracked r)))
    (gpa - run_gpa (r_tracked r) + len)); [lia|]. by eexists.
Qed.

(** A run ends where its RAM ends: the byte past it is not RAM. *)
Lemma run_end_not_ram pm r r' :
  wf pm -> r ∈ regions pm -> r_kind r = Ram -> r' ∈ regions pm -> r_kind r' = Ram ->
  ~ inr r' (run_gpa (r_tracked r) + m_len (run_map (r_tracked r))).
Proof.
  intros [Hr _] Hin Hk Hin' Hk' Ha.
  set (e := run_gpa (r_tracked r) + m_len (run_map (r_tracked r))) in *.
  pose proof (wr_in_run _ Hr r Hin) as (? & ? & ?). pose proof (wr_region _ Hr r Hin) as (?&?&?).
  destruct (wr_covered _ Hr r (e - 1) Hin) as (r1 & Hin1 & Ha1 & Ht1 & Hk1).
  { unfold in_run. lia. }
  pose proof (wr_in_run _ Hr r1 Hin1) as (? & Hend1 & ?). rewrite Ht1 in *. unfold inr in *. 
  destruct (decide (r_gpa r' = e)) as [He|].
  - pose proof (wr_maximal _ Hr r1 r' Hin1 Hin' ltac:(congruence) Hk' ltac:(lia)) as Ht.
    pose proof (wr_in_run _ Hr r' Hin') as (? & ? & ?). rewrite <- Ht, Ht1 in *. lia.
  - assert (r' = r1) as -> by (apply (inr_unique (regions pm) r' r1 (e - 1)); unfold inr; done || lia).
    lia.
Qed.

Lemma lookup_run pm gpa len r i :
  wf pm -> r ∈ regions pm -> inr r gpa -> 0 <= i < len ->
  gpa + len <= run_gpa (r_tracked r) + m_len (run_map (r_tracked r)) ->
  translate pm (gpa + i) =
    Some (m_ptr (run_map (r_tracked r)) + (gpa - run_gpa (r_tracked r)) + i, r_kind r).
Proof.
  intros [Hr _] Hin Ha Hi Hle. pose proof (wr_in_run _ Hr r Hin) as (? & ? & ?). unfold inr in Ha.
  destruct (wr_covered _ Hr r (gpa + i) Hin) as (r' & Hin' & Ha' & Ht & Hk).
  { unfold in_run. lia. }
  unfold translate. rewrite (proj2 (region_at_spec _ _ r' Hr)) by done. simpl.
  rewrite Ht, Hk. do 2 f_equal. lia.
Qed.

Lemma translate_None pm gpa len :
  wf pm -> 0 < len ->
  free (regions pm) gpa len <->
  forall a, gpa <= a < gpa + len -> translate pm a = None.
Proof.
  intros [Hr _] Hl. unfold translate. split.
  - intros Hf a Ha. replace (region_at (regions pm) a) with (@None Region); [done|].
    symmetry. apply region_at_None; [done|]. intros r Hin Hina. specialize (Hf r Hin).
    unfold inr in Hina. lia.
  - intros Ht r Hin. pose proof (wr_region _ Hr r Hin) as (? & ? & ?).
    destruct (decide (r_gpa r < gpa + len /\ gpa < r_gpa r + r_len r)) as [Ho|]; [exfalso|lia].
    assert (Ha : inr r (Z.max gpa (r_gpa r)) /\ gpa <= Z.max gpa (r_gpa r) < gpa + len)
      by (unfold inr; lia).
    destruct Ha as [Ha Hb]. apply Ht in Hb.
    by rewrite (proj2 (region_at_spec _ _ r Hr)) in Hb.
Qed.

(** ** The properties *)

(** C9: whatever the kernel answers to each request, and in whatever order
    claims are taken, dropped and committed, the published regions stay
    sorted and disjoint, every outstanding claim is disjoint from every
    region and every other claim, each region lies inside the mapping of its
    run, abutting RAM shares one run, and every claim a caller still holds is
    recorded exactly once. *)
Theorem reachable_ok s : rtc step init s -> sys_ok s.
Proof. apply reach_ok. Qed.

(** C10: a lookup that answers is the byte-by-byte translation: each guest
    address of the range is published memory of one kind, the view maps it to
    the host byte the translation names, and the view is readable always and
    writable exactly when the memory is not ROM. *)
Theorem lookup_sound s gpa len v :
  rtc step init s -> uint 64 gpa -> 0 < len -> lookup (s_pm s) gpa len = Some v ->
  exists kind,
    (forall i, 0 <= i < len ->
       translate (s_pm s) (gpa + i) = Some (s_ptr v + i, kind)) /\
    s_len v = len /\ contains (s_prot v) READ = true /\
    contains (s_prot v) WRITE = bool_decide (kind <> Rom).
Proof.
  intros Hwf%reach_wf Hg Hl Hv. unfold uint in *.
  apply lookup_inv in Hv as (r & Hin & Ha & Hlt & Hle & ->); [|done|lia|lia].
  exists (r_kind r). simpl. destruct (prot_of_kind _ r (proj1 Hwf) Hin) as [? ?].
  split_and!; try done. intros i Hi. by apply (lookup_run _ _ len).
Qed.

(** C35: a range of RAM is answered exactly when every byte of it is
    published RAM, however many regions it crosses. *)
Theorem lookup_ram_complete s gpa len :
  rtc step init s -> uint 64 gpa -> 0 < len ->
  (exists hva, translate (s_pm s) gpa = Some (hva, Ram)) ->
  is_Some (lookup (s_pm s) gpa len) <->
  forall i, 0 <= i < len -> exists hva, translate (s_pm s) (gpa + i) = Some (hva, Ram).
Proof.
  intros Hwf%reach_wf Hg Hl [hva0 H0]. unfold uint in *.
  assert (Htr : forall a hva, translate (s_pm s) a = Some (hva, Ram) ->
    exists r, r ∈ regions (s_pm s) /\ inr r a /\ r_kind r = Ram).
  { intros a hva. unfold translate. destruct (region_at _ a) as [r|] eqn:E; [|done].
    simpl. intros [= _ Hk]. apply region_at_spec in E as [? ?]; [eauto|apply Hwf]. }
  destruct (Htr _ _ H0) as (r & Hin & Ha & Hk). split.
  - intros [v Hv]. apply lookup_inv in Hv as (r' & Hin' & Ha' & _ & Hle & _); [|done|lia|lia].
    assert (r' = r) as -> by (by apply (inr_unique _ r' r gpa (proj1 Hwf))).
    intros i Hi. eexists. rewrite (lookup_run _ _ len r); try done. by rewrite Hk.
  - intros Hall. apply (lookup_intro _ _ _ r); try done; try lia.
    set (e := run_gpa (r_tracked r) + m_len (run_map (r_tracked r))).
    destruct (Z.le_gt_cases (gpa + len) e) as [|Hgt]; [done|exfalso].
    pose proof (wr_in_run _ (proj1 Hwf) r Hin) as (? & ? & ?). unfold inr in Ha.
    destruct (Hall (e - gpa)) as [hva He]; [lia|].
    replace (gpa + (e - gpa)) with e in He by lia.
    destruct (Htr _ _ He) as (r' & Hin' & Ha' & Hk').
    by apply (run_end_not_ram (s_pm s) r r').
Qed.

(** Run-time RAM is granted exactly when the request is a non-empty,
    page-aligned range below 2^64 that misses the MMIO hole, every published
    region and every outstanding claim. *)
Theorem claim_ram_granted s gpa len :
  rtc step init s -> uint 64 gpa -> uint 64 len ->
  is_ok (claim_ram (s_pm s) gpa len) = true <->
  0 < len /\ gpa + len < 2 ^ 64 /\ page gpa /\ page len /\
  (MMIO_HOLE_END <= gpa \/ gpa + len <= MMIO_HOLE_BASE) /\
  (forall a, gpa <= a < gpa + len -> translate (s_pm s) a = None) /\
  (forall c, c ∈ claims (s_pm s) -> disjoint2 c (gpa, gpa + len)).
Proof.
  intros Hwf%reach_wf Hg Hl. unfold uint in *. split.
  - destruct (claim_ram _ _ _) as [[pm' c]|] eqn:Hc; [|done]. intros _.
    pose proof (claim_spec _ _ _ _ _ _ _ _ Hwf (proj1 Hg) (proj1 Hl) Hc)
      as (_ & ? & ? & Hpl & _ & Hcl & _ & Hfree & _ & Hc').
    rewrite <- translate_None by done. unfold placement_ok, is_multiple_of in Hpl. unfold page.
    repeat rewrite andb_true_iff in Hpl. rewrite negb_true_iff in Hpl.
    split_and!; try done; try (unfold PAGE_SIZE in *; simpl in *; lia).
    intros x Hx. apply (wc_disjoint _ _ Hc'); rewrite ?Hcl, ?elem_of_app, ?list_elem_of_singleton;
      [by left|by right|].
    intros ->. pose proof (wc_nodup _ _ Hc') as Hn. rewrite Hcl in Hn.
    apply NoDup_app in Hn as (_ & Hn & _). apply (Hn _ Hx). by apply list_elem_of_singleton.
  - intros (H1 & H2 & H3 & H4 & H5 & Hfree & Hcl).
    rewrite <- translate_None in Hfree by done. unfold claim_ram, claim, region_end, checked_add.
    destruct (Z.eqb_spec len 0); [lia|]. destruct (Z.ltb_spec (gpa + len) (2 ^ 64)); [|lia]. simpl.
    replace (is_multiple_of gpa PAGE_SIZE) with true by (symmetry; by apply Z.eqb_eq).
    replace (is_multiple_of len PAGE_SIZE) with true by (symmetry; by apply Z.eqb_eq). simpl.
    replace (_ && _) with false by (symmetry; lia). simpl.
    unfold check_free. rewrite (proj2 (existsb_elem_false _ (regions _))).
    2:{ intros r Hin. rewrite r_end_eq by (by apply (wr_region _ (proj1 Hwf))).
        specialize (Hfree r Hin). lia. }
    rewrite (proj2 (existsb_elem_false _ (claims _))); [done|].
    intros x Hx. specialize (Hcl x Hx). unfold disjoint2 in Hcl. simpl in *. lia.
Qed.

(** ** A concrete run *)

(** Two abutting pages of RAM, then a run-time claim that is dropped. *)
Definition answers_at (run seg : Z) : answers :=
  mkAnswers (Ok run) (Ok tt) (Ok 0) (Ok seg) (Ok tt).

Definition example_pm : PhysMap :=
  (add_ram (add_ram physmap_new 0 4096 (Ok tt) (answers_at 0x10000 0x20000)).1
     4096 8192 (Ok tt) (answers_at 0x40000 0x80000)).1.

Lemma example_reachable : rtc step init (mkSys example_pm []).
Proof.
  assert (Hk : forall run seg c, run mod 4096 = 0 -> seg mod 4096 = 0 -> c_gpa c mod 4096 = 0 ->
    kernel_ok (answers_at run seg) c).
  { intros run seg c Hr Hs Hc. split_and!; simpl; intros; simplify_eq; done. }
  eapply rtc_l; [apply (step_add_ram _ _ 0 4096 (Ok tt) (answers_at 0x10000 0x20000));
    [done|done|by apply Hk]|].
  eapply rtc_l; [apply (step_add_ram _ _ 4096 8192 (Ok tt) (answers_at 0x40000 0x80000));
    [done|done|by apply Hk]|].
  apply rtc_refl.
Qed.

Lemma reachable_ok_witness : sys_ok (mkSys example_pm []).
Proof. apply (reachable_ok (mkSys example_pm [])). exact example_reachable. Defined.

Lemma lookup_sound_witness :
  exists kind,
    (forall i, 0 <= i < 4 -> translate example_pm (4094 + i) = Some (0x40ffe + i, kind)) /\
    s_len (mkSub 0x40ffe 4 RWX) = 4 /\ contains RWX READ = true /\
    contains RWX WRITE = bool_decide (kind <> Rom).
Proof.
  apply (lookup_sound (mkSys example_pm []) 4094 4 (mkSub 0x40ffe 4 RWX)).
  - exact example_reachable.
  - done.
  - lia.
  - vm_compute. reflexivity.
Defined.

Lemma lookup_ram_complete_witness :
  is_Some (lookup example_pm 4094 4) <->
  forall i, 0 <= i < 4 -> exists hva, translate example_pm (4094 + i) = Some (hva, Ram).
Proof.
  apply (lookup_ram_complete (mkSys example_pm []) 4094 4).
  - exact example_reachable.
  - done.
  - lia.
  - exists 0x40ffe. vm_compute. reflexivity.
Defined.

Lemma claim_ram_granted_witness :
  is_ok (claim_ram example_pm 0x100000000 4096) = true <->
  0 < 4096 /\ 0x100000000 + 4096 < 2 ^ 64 /\ page 0x100000000 /\ page 4096 /\
  (MMIO_HOLE_END <= 0x100000000 \/ 0x100000000 + 4096 <= MMIO_HOLE_BASE) /\
  (forall a, 0x100000000 <= a < 0x100000000 + 4096 -> translate example_pm a = None) /\
  (forall c, c ∈ claims example_pm -> disjoint2 c (0x100000000, 0x100000000 + 4096)).
Proof.
  apply (claim_ram_granted (mkSys example_pm []) 0x100000000 4096).
  - exact example_reachable.
  - done.
  - done.
Defined.

End physmap_inv.
