(* ===== verification/GuestMem.v ===== *)
(** * Guest memory as a device sees it

    Devices reach guest memory through [PhysMap::lookup] and the accessors
    of the [SubMapping] it answers ([crates/vmm-core/src/mem.rs],
    [mem/mapping.rs]). [GuestMap] is what they rely on; [physmap_guest_map]
    shows that every well-formed [PhysMap] provides it. The guest runs
    between any two accesses of a device: a [guest] rewrites memory as it
    likes each time the device is about to touch it. *)

From S2P Require Import Prelude Mapping PhysMap PhysMapInv.

Module guestmem.
Import mapping.

(** ** The interface *)

Class GuestMap (P : Type) : Type := {
  gm_ok : P -> Prop;
  gm_lookup : P -> Z -> Z -> option SubMapping;
  gm_view : forall p gpa len v, gm_ok p -> 0 <= gpa -> 0 < len ->
    gm_lookup p gpa len = Some v ->
    s_len v = len /\ gpa + len < 2 ^ 64 /\ contains (s_prot v) READ = true /\
    s_ptr v mod physmap.PAGE_SIZE = gpa mod physmap.PAGE_SIZE;
  gm_sub : forall p gpa len v a n, gm_ok p -> 0 <= gpa ->
    gm_lookup p gpa len = Some v -> gpa <= a -> 0 < n -> a + n <= gpa + len ->
    gm_lookup p a n = Some (mkSub (s_ptr v + (a - gpa)) n (s_prot v))
}.

(** ** The guest and the world it shares with the device *)

Definition guest : Type := nat -> hostmem -> hostmem.

(** A guest that writes nothing. *)
Definition idle : guest := fun _ hm => hm.

Record world : Type := mkWorld { w_mem : hostmem; w_time : nat }.

(** The guest runs, then the device makes its access. *)
Definition turn (g : guest) (w : world) : world :=
  mkWorld (g (w_time w) (w_mem w)) (S (w_time w)).

Lemma w_mem_idle w : w_mem (turn idle w) = w_mem w.
Proof. done. Qed.

(** Device code that touches guest memory and may give up. *)
Definition io (A : Type) : Type := world -> option A * world.

Definition io_ret {A} (a : A) : io A := fun w => (Some a, w).
Definition io_fail {A} : io A := fun w => (None, w).
Definition io_bind {A B} (m : io A) (k : A -> io B) : io B := fun w =>
  match m w with
  | (Some a, w) => k a w
  | (None, w) => (None, w)
  end.

(** [let x = e?;] *)
Notation "'let!' x := e 'in' k" := (io_bind e (fun x => k))
  (at level 10, x pattern, e at level 200, k at level 200).

Section access.
Context `{GuestMap P} (pm : P) (g : guest).

(** [physmap.lookup(gpa, size_of::<T>()).and_then(|s| s.read::<T>().ok())]. *)
Definition read_at (gpa size align : Z) : io (list Z) := fun w =>
  let w := turn g w in
  (let* sub := gm_lookup pm gpa size in
   match read (w_mem w) sub size align with Ok b => Some b | Err _ => None end, w).

Definition read_u16 (gpa : Z) : io Z :=
  let! b := read_at gpa 2 2 in io_ret (le_val b).

Lemma read_u16_world gpa w : (read_u16 gpa w).2 = turn g w.
Proof.
  unfold read_u16, io_bind, read_at. by destruct (let* sub := gm_lookup pm gpa 2 in _).
Qed.

(** [if let Some(sub) = physmap.lookup(..) { let _ = sub.write(..); }]. *)
Definition write_at (gpa align : Z) (val : list Z) (w : world) : world :=
  let w := turn g w in
  match gm_lookup pm gpa (Z.of_nat (length val)) with
  | None => w
  | Some sub =>
      match write (w_mem w) sub align val with
      | Ok hm => mkWorld hm (w_time w)
      | Err _ => w
      end
  end.

Definition write_u16 (gpa v : Z) (w : world) : world := write_at gpa 2 (le_bytes 2 v) w.

(** ** Accesses inside a view that was looked up once *)

Context (Hok : gm_ok pm) (base len : Z) (v : SubMapping).
Context (Hbase : 0 <= base) (Hv : gm_lookup pm base len = Some v).

Lemma sub_view a n :
  base <= a -> 0 < n -> a + n <= base + len ->
  gm_lookup pm a n = Some (mkSub (s_ptr v + (a - base)) n (s_prot v)) /\
  contains (s_prot v) READ = true /\
  (s_ptr v + (a - base)) mod physmap.PAGE_SIZE = a mod physmap.PAGE_SIZE /\
  a + n < 2 ^ 64.
Proof.
  intros Ha Hn Hle.
  destruct (gm_view pm base len v) as (_ & ? & ? & Hp); [done|done|lia|done|].
  split_and!; [by apply (gm_sub pm base len)|done| |lia].
  rewrite Z.add_mod, Hp, <- Z.add_mod by done. f_equal. lia.
Qed.

(** The alignment of a guest address is the alignment of its host byte. *)
Lemma view_aligned a n align :
  base <= a -> 0 < n -> a + n <= base + len ->
  0 < align -> (align | physmap.PAGE_SIZE) -> a mod align = 0 ->
  is_multiple_of (s_ptr v + (a - base)) align = true.
Proof.
  intros Ha Hn Hle Hpos Hd Hal. destruct (sub_view a n) as (_ & _ & Hp & _); [done..|].
  unfold is_multiple_of. destruct (Z.eqb_spec align 0); [lia|]. apply Z.eqb_eq.
  by rewrite <- (Z.mod_mod_divide _ physmap.PAGE_SIZE align Hd), Hp, Z.mod_mod_divide.
Qed.

Lemma read_at_view a n align w :
  base <= a -> 0 < n -> a + n <= base + len ->
  0 < align -> (align | physmap.PAGE_SIZE) -> a mod align = 0 ->
  read_at a n align w =
    (Some (peek_range (w_mem (turn g w)) (s_ptr v + (a - base)) (Z.to_nat n)), turn g w).
Proof.
  intros Ha Hn Hle Hpos Hd Hal. destruct (sub_view a n) as (Hl & Hr & _ & _); [done..|].
  unfold read_at, read. rewrite Hl. simpl option_bind. cbn [s_prot s_len s_ptr].
  rewrite Hr, Z.ltb_irrefl, (view_aligned a n align) by done. done.
Qed.

Lemma read_u16_view a w :
  base <= a -> a + 2 <= base + len -> a mod 2 = 0 ->
  read_u16 a w =
    (Some (le_val (peek_range (w_mem (turn g w)) (s_ptr v + (a - base)) 2)), turn g w).
Proof.
  intros Ha Hle Hal. unfold read_u16, io_bind. rewrite read_at_view by (done || lia || (by exists 2048)). done.
Qed.

Lemma write_at_view a align val w :
  base <= a -> 0 < Z.of_nat (length val) -> a + Z.of_nat (length val) <= base + len ->
  0 < align -> (align | physmap.PAGE_SIZE) -> a mod align = 0 ->
  contains (s_prot v) WRITE = true ->
  write_at a align val w =
    mkWorld (poke_range (w_mem (turn g w)) (s_ptr v + (a - base)) val) (S (w_time w)).
Proof.
  intros Ha Hn Hle Hpos Hd Hal Hw. destruct (sub_view a _ Ha Hn Hle) as (Hl & _).
  unfold write_at, write. rewrite Hl. cbn [s_prot s_len s_ptr].
  rewrite Hw, Z.ltb_irrefl, (view_aligned a (Z.of_nat (length val)) align) by done. done.
Qed.

Lemma write_at_readonly a align val w :
  base <= a -> 0 < Z.of_nat (length val) -> a + Z.of_nat (length val) <= base + len ->
  contains (s_prot v) WRITE = false -> write_at a align val w = turn g w.
Proof.
  intros Ha Hn Hle Hw. destruct (sub_view a _ Ha Hn Hle) as (Hl & _).
  unfold write_at, write. rewrite Hl. cbn [s_prot]. by rewrite Hw.
Qed.

End access.

(** ** The guest physical address space provides it *)

Section physmap_instance.
Import physmap physmap_inv.

Lemma physmap_view pm gpa len v :
  wf pm -> 0 <= gpa -> 0 < len -> lookup pm gpa len = Some v ->
  s_len v = len /\ gpa + len < 2 ^ 64 /\ contains (s_prot v) READ = true /\
  s_ptr v mod PAGE_SIZE = gpa mod PAGE_SIZE.
Proof.
  intros Hwf Hg Hl (r & Hin & _ & ? & _ & ->)%lookup_inv; [|done|lia|lia].
  destruct (prot_of_kind _ r (proj1 Hwf) Hin) as [Hr _]. simpl. split_and!; try done.
  destruct (wr_page _ (proj1 Hwf) r Hin) as (_ & Hp & Hq). unfold page in *.
  rewrite Z.add_mod, Hq, Zminus_mod, Hp by done.
  by rewrite Z.sub_0_r, Z.add_0_l, !Z.mod_mod by done.
Qed.

Lemma physmap_sub pm gpa len v a n :
  wf pm -> 0 <= gpa -> lookup pm gpa len = Some v -> gpa <= a -> 0 < n -> a + n <= gpa + len ->
  lookup pm a n = Some (mkSub (s_ptr v + (a - gpa)) n (s_prot v)).
Proof.
  intros Hwf Hg Hv Ha Hn Hle.
  apply lookup_inv in Hv as (r & Hin & Hinr & ? & Hend & ->); [|done|lia|lia].
  pose proof (wr_in_run _ (proj1 Hwf) r Hin) as (? & ? & ?). unfold inr in Hinr.
  destruct (wr_covered _ (proj1 Hwf) r a Hin) as (r' & Hin' & Hinr' & Ht & _).
  { unfold in_run. lia. }
  destruct (lookup_intro pm a n r') as [v' Hv']; rewrite ?Ht; try done; try lia.
  rewrite Hv'. apply lookup_inv in Hv' as (r2 & Hin2 & Hinr2 & _ & _ & ->); [|done|lia|lia].
  assert (r2 = r') as -> by (by apply (inr_unique _ r2 r' a (proj1 Hwf))).
  rewrite Ht. simpl. do 2 f_equal. lia.
Qed.

#[export] Instance physmap_guest_map : GuestMap PhysMap := {
  gm_ok := wf;
  gm_lookup := lookup;
  gm_view := physmap_view;
  gm_sub := physmap_sub
}.

End physmap_instance.
End guestmem.
