(* ===== verification/VirtQueue.v ===== *)
(** * The split virtqueue

    [crates/vmm-virtio/src/queue.rs] and [queue/completion.rs]: the device
    side of a VirtIO split ring. Heads come off the available ring
    ([pop_avail], [drain_avail]), a head names a chain of descriptors
    ([collect_chain]), and finished heads go to the used ring ([push_used],
    [publish_batch]). Every access to guest memory goes through the
    [GuestMap] interface and lets the guest run first. Log output is not
    modelled. *)

From S2P Require Import Prelude Mapping GuestMem.

Module queue.
Import mapping guestmem.

Definition MAX_QUEUE_SIZE : Z := 32768.
Definition PAGE_SIZE : Z := 4096.
Definition VRING_DESC_F_NEXT : Z := 1.
Definition VRING_DESC_F_WRITE : Z := 2.
Definition VRING_DESC_F_INDIRECT : Z := 4.
Definition VIRTQ_AVAIL_F_NO_INTERRUPT : Z := 1.

(** ** Descriptors *)

Record VirtqDesc : Type := mkDesc { d_addr : Z; d_len : Z; d_flags : Z; d_next : Z }.

Definition has_next (d : VirtqDesc) : bool := bit_set (d_flags d) VRING_DESC_F_NEXT.
Definition is_write (d : VirtqDesc) : bool := bit_set (d_flags d) VRING_DESC_F_WRITE.
Definition is_indirect (d : VirtqDesc) : bool := bit_set (d_flags d) VRING_DESC_F_INDIRECT.

(** The [repr(C)] layout of the 16 bytes. *)
Definition desc_of_bytes (b : list Z) : VirtqDesc :=
  mkDesc (le_val (take 8 b)) (le_val (take 4 (drop 8 b)))
         (le_val (take 2 (drop 12 b))) (le_val (take 2 (drop 14 b))).

Inductive ChainBuf : Type :=
| Readable (addr len : Z)
| Writable (addr len : Z).

Definition buf_of (d : VirtqDesc) : ChainBuf :=
  if is_write d then Writable (d_addr d) (d_len d) else Readable (d_addr d) (d_len d).

Inductive Ring : Type := Desc | Avail | Used.

Definition ring_align (r : Ring) : Z :=
  match r with Desc => 16 | Avail => 2 | Used => 4 end.

Inductive QueueAddrError : Type :=
| Unset (r : Ring)
| Misaligned (r : Ring) (addr : Z)
| Unmapped (r : Ring) (addr len : Z).

Inductive QueueSizeError : Type :=
| InvalidSize (size max : Z)
| Live.

(** ** The queue *)

Record VirtQueue : Type := mkQueue {
  q_size : Z;
  q_max_size : Z;
  q_desc : Z;
  q_avail : Z;
  q_used : Z;
  q_last_avail : Z;
  q_shadow_used : Z;
  q_event_idx : bool;
  q_indirect : bool;
  q_addrs_ok : option bool
}.

(** [VirtQueue::new]; [None] is its panic. *)
Definition queue_new (size : Z) : option VirtQueue :=
  if negb ((0 <? size) && is_power_of_two size) then None
  else if MAX_QUEUE_SIZE <? size then None
  else Some (mkQueue size size 0 0 0 0 0 false false None).

Definition is_configured (q : VirtQueue) : bool := negb (q_desc q =? 0).

Definition set_size (q : VirtQueue) (size : Z) : VirtQueue * result QueueSizeError unit :=
  if (size =? 0) || negb (is_power_of_two size) || (q_max_size q <? size)
  then (q, Err (InvalidSize size (q_max_size q)))
  else if is_configured q then (q, Err Live)
  else (mkQueue size (q_max_size q) (q_desc q) (q_avail q) (q_used q) (q_last_avail q)
          (q_shadow_used q) (q_event_idx q) (q_indirect q) (q_addrs_ok q), Ok tt).

Definition set_event_idx (q : VirtQueue) (enabled : bool) : VirtQueue :=
  mkQueue (q_size q) (q_max_size q) (q_desc q) (q_avail q) (q_used q) (q_last_avail q)
    (q_shadow_used q) enabled (q_indirect q)
    (if eqb (q_event_idx q) enabled then q_addrs_ok q else None).

Definition set_indirect_supported (q : VirtQueue) (supported : bool) : VirtQueue :=
  mkQueue (q_size q) (q_max_size q) (q_desc q) (q_avail q) (q_used q) (q_last_avail q)
    (q_shadow_used q) (q_event_idx q) supported (q_addrs_ok q).

Definition set_last_avail_idx (q : VirtQueue) (idx : Z) : VirtQueue :=
  mkQueue (q_size q) (q_max_size q) (q_desc q) (q_avail q) (q_used q) idx
    (q_shadow_used q) (q_event_idx q) (q_indirect q) (q_addrs_ok q).

Definition set_shadow_used_idx (q : VirtQueue) (idx : Z) : VirtQueue :=
  mkQueue (q_size q) (q_max_size q) (q_desc q) (q_avail q) (q_used q) (q_last_avail q)
    idx (q_event_idx q) (q_indirect q) (q_addrs_ok q).

Definition set_addrs_ok (q : VirtQueue) (v : option bool) : VirtQueue :=
  mkQueue (q_size q) (q_max_size q) (q_desc q) (q_avail q) (q_used q) (q_last_avail q)
    (q_shadow_used q) (q_event_idx q) (q_indirect q) v.

(** [(val + align - 1) & !(align - 1)] on 64 bits. *)
Definition align_up (val align : Z) : Z :=
  Z.land (wsub 64 (wadd 64 val align) 1) (2 ^ 64 - 1 - (align - 1)).

Definition set_addr_legacy (q : VirtQueue) (pfn : Z) : VirtQueue :=
  if pfn =? 0 then
    mkQueue (q_size q) (q_max_size q) 0 0 0 0 0 (q_event_idx q) (q_indirect q) None
  else
    let base := wmul 64 pfn PAGE_SIZE in
    let avail := wadd 64 base (wmul 64 (q_size q) 16) in
    let avail_end := wadd 64 (wadd 64 avail 6) (wmul 64 (q_size q) 2) in
    mkQueue (q_size q) (q_max_size q) base avail (align_up avail_end PAGE_SIZE)
      (q_last_avail q) (q_shadow_used q) (q_event_idx q) (q_indirect q) None.

Definition set_addr_modern (q : VirtQueue) (desc avail used : Z) : VirtQueue :=
  mkQueue (q_size q) (q_max_size q) desc avail used 0 0 (q_event_idx q) (q_indirect q) None.

Definition pfn (q : VirtQueue) : Z :=
  if q_desc q =? 0 then 0 else as_u 32 (q_desc q / PAGE_SIZE).

Definition reset (q : VirtQueue) : VirtQueue :=
  mkQueue (q_max_size q) (q_max_size q) 0 0 0 0 0 (q_event_idx q) (q_indirect q) None.

Definition event_field_bytes (q : VirtQueue) : Z := if q_event_idx q then 2 else 0.
Definition desc_table_bytes (q : VirtQueue) : Z := q_size q * 16.
Definition avail_ring_bytes (q : VirtQueue) : Z := 4 + q_size q * 2 + event_field_bytes q.
Definition used_ring_bytes (q : VirtQueue) : Z := 4 + q_size q * 8 + event_field_bytes q.

Definition needs_reset (q : VirtQueue) : bool :=
  match q_addrs_ok q with Some false => true | _ => false end.

(** The wrapping comparison of VirtIO 1.3 sec 2.7.7.1. *)
Definition vring_need_event (event_idx new_idx old_idx : Z) : bool :=
  wsub 16 (wsub 16 new_idx event_idx) 1 <? wsub 16 new_idx old_idx.

(** [used_ring_info] *)
Definition used_ring_info (q : VirtQueue) : Z * Z := (q_used q, q_size q).

Section device.
Context `{GuestMap P} (pm : P) (g : guest).

(** ** Address checks *)

Definition check_ring (r : Ring) (addr len : Z) : result QueueAddrError unit :=
  if addr =? 0 then Err (Unset r)
  else if negb (is_multiple_of addr (ring_align r)) then Err (Misaligned r addr)
  else match gm_lookup pm addr len with
       | None => Err (Unmapped r addr len)
       | Some _ => Ok tt
       end.

Definition validate_addrs (q : VirtQueue) : result QueueAddrError unit :=
  let? _d := check_ring Desc (q_desc q) (desc_table_bytes q) in
  let? _a := check_ring Avail (q_avail q) (avail_ring_bytes q) in
  check_ring Used (q_used q) (used_ring_bytes q).

Definition addrs_usable (q : VirtQueue) : bool * VirtQueue :=
  match q_addrs_ok q with
  | Some ok => (ok, q)
  | None =>
      match validate_addrs q with
      | Ok _ => (true, set_addrs_ok q (Some true))
      | Err _ => (false, set_addrs_ok q (Some false))
      end
  end.

(** ** Index registers in guest memory *)

Definition read_avail_idx (q : VirtQueue) (w : world) : Z * world :=
  if q_avail q =? 0 then (0, w)
  else let '(v, w) := read_u16 pm g (wadd 64 (q_avail q) 2) w in (default 0 v, w).

Definition read_used_ring_idx (q : VirtQueue) (w : world) : Z * world :=
  if q_used q =? 0 then (0, w)
  else let '(v, w) := read_u16 pm g (wadd 64 (q_used q) 2) w in (default 0 v, w).

(** ** Descriptor chains *)

Definition read_desc (q : VirtQueue) (idx : Z) : io VirtqDesc :=
  if q_size q <=? idx then io_fail
  else let! b := read_at pm g (wadd 64 (q_desc q) (wmul 64 idx 16)) 16 8 in
       io_ret (desc_of_bytes b).

(** [gpa.checked_add((idx as u64).checked_mul(16)?)?] *)
Definition table_gpa (gpa idx : Z) : option Z :=
  let* off := checked_mul 64 idx 16 in checked_add 64 gpa off.

(** The loop of [walk_indirect_table]: [rem] is [num_descs - iterations], so
    it is zero exactly when [iterations >= num_descs]. *)
Fixpoint walk_indirect_loop (rem : nat) (num_descs gpa idx : Z) : io (list ChainBuf) :=
  match rem with
  | O => io_fail
  | S rem =>
      if num_descs <=? idx then io_fail
      else
        match table_gpa gpa idx with
        | None => io_fail
        | Some desc_gpa =>
            let! b := read_at pm g desc_gpa 16 8 in
            let desc := desc_of_bytes b in
            if is_indirect desc then io_fail
            else if has_next desc then
              let! rest := walk_indirect_loop rem num_descs gpa (d_next desc) in
              io_ret (buf_of desc :: rest)
            else io_ret [buf_of desc]
        end
  end.

Definition walk_indirect_table (gpa len budget : Z) : io (list ChainBuf) :=
  let num_descs := len / 16 in
  if (num_descs =? 0) || negb (is_multiple_of len 16) then io_fail
  else if budget <? num_descs then io_fail
  else walk_indirect_loop (Z.to_nat num_descs) num_descs gpa 0.

(** The loop of [collect_chain]: [rem] is [size - count], so it is zero
    exactly when [count >= size]. *)
Fixpoint collect_loop (rem : nat) (q : VirtQueue) (idx : Z) : io (list ChainBuf) :=
  match rem with
  | O => io_fail
  | S rem =>
      let! desc := read_desc q idx in
      if is_indirect desc then
        if negb (q_indirect q) then io_fail
        else if has_next desc then io_fail
        else
          let count := q_size q - Z.of_nat rem in
          walk_indirect_table (d_addr desc) (d_len desc) (q_size q - count + 1)
      else if has_next desc then
        let! rest := collect_loop rem q (d_next desc) in
        io_ret (buf_of desc :: rest)
      else io_ret [buf_of desc]
  end.

Definition collect_chain (q : VirtQueue) (head : Z) : io (list ChainBuf) :=
  collect_loop (Z.to_nat (q_size q)) q head.

(** ** The available ring *)

Definition pop_avail (q : VirtQueue) (w : world) : option Z * VirtQueue * world :=
  if negb (is_configured q) then (None, q, w)
  else
    let '(ok, q) := addrs_usable q in
    if negb ok then (None, q, w)
    else
      match read_u16 pm g (wadd 64 (q_avail q) 2) w with
      | (None, w) => (None, q, w)
      | (Some avail_idx, w) =>
          if q_last_avail q =? avail_idx then (None, q, w)
          else
            let ring_offset := wmul 64 (q_last_avail q mod q_size q) 2 in
            match read_u16 pm g (wadd 64 (wadd 64 (q_avail q) 4) ring_offset) w with
            | (None, w) => (None, q, w)
            | (Some desc_idx, w) =>
                let q := set_last_avail_idx q (wadd 16 (q_last_avail q) 1) in
                if q_size q <=? desc_idx then (None, q, w) else (Some desc_idx, q, w)
            end
      end.

Definition update_used_event (q : VirtQueue) (w : world) : world :=
  if negb (q_event_idx q) then w
  else write_u16 pm g (wadd 64 (wadd 64 (q_used q) 4) (wmul 64 (q_size q) 8))
         (q_last_avail q) w.

Definition has_new_avail (q : VirtQueue) (w : world) : bool * world :=
  if negb (q_event_idx q) || negb (is_configured q) then (false, w)
  else
    match read_u16 pm g (wadd 64 (q_avail q) 2) w with
    | (Some avail_idx, w) => (negb (avail_idx =? q_last_avail q), w)
    | (None, w) => (false, w)
    end.

(** The [||] of the source evaluates left to right and stops early. *)
Definition queue_drain_should_stop (q : VirtQueue) (before : Z) (hit_request_cap : bool)
    (w : world) : bool * world :=
  if (q_last_avail q =? before) || hit_request_cap then (true, w)
  else let '(new, w) := has_new_avail q w in (negb new, w).

(** What a device does with a head; [S] is the device's own state. *)
Definition visitor (S : Type) : Type :=
  VirtQueue -> Z -> S -> world -> VirtQueue * S * world.

(** The inner [while popped < max] of [drain_avail], with [room] the number
    of heads still allowed; the first component is how many it took. *)
Fixpoint drain_pass {S} (each : visitor S) (room : nat) (q : VirtQueue) (s : S) (w : world) :
    nat * VirtQueue * S * world :=
  match room with
  | O => (O, q, s, w)
  | Datatypes.S room =>
      match pop_avail q w with
      | (None, q, w) => (O, q, s, w)
      | (Some head, q, w) =>
          let '(q, s, w) := each q head s w in
          let '(n, q, s, w) := drain_pass each room q s w in
          (Datatypes.S n, q, s, w)
      end
  end.

(** The outer loop of [drain_avail], one pass per unit of fuel; [None] when
    the fuel runs out. *)
Fixpoint drain_loop {S} (fuel : nat) (each : visitor S) (max popped : nat)
    (q : VirtQueue) (s : S) (w : world) : option (nat * VirtQueue * S * world) :=
  match fuel with
  | O => None
  | Datatypes.S fuel =>
      let before := q_last_avail q in
      let '(n, q, s, w) := drain_pass each (max - popped) q s w in
      let popped := (popped + n)%nat in
      let w := update_used_event q w in
      let '(stop, w) := queue_drain_should_stop q before (max <=? popped)%nat w in
      if stop then Some (popped, q, s, w)
      else drain_loop fuel each max popped q s w
  end.

Definition drain_avail {S} (fuel : nat) (each : visitor S) (max : nat)
    (q : VirtQueue) (s : S) (w : world) : option (nat * VirtQueue * S * world) :=
  drain_loop fuel each max 0 q s w.

(** ** The used ring *)

(** Whether the driver wants an interrupt for [new_idx], from its
    suppression fields. *)
Definition wants_interrupt (event_idx : bool) (avail_addr size new_idx old_idx : Z)
    (w : world) : bool * world :=
  if negb event_idx then
    if avail_addr =? 0 then (true, w)
    else
      match read_u16 pm g avail_addr w with
      | (Some flags, w) => (Z.land flags VIRTQ_AVAIL_F_NO_INTERRUPT =? 0, w)
      | (None, w) => (true, w)
      end
  else
    match read_u16 pm g (wadd 64 (wadd 64 avail_addr 4) (wmul 64 size 2)) w with
    | (Some used_event, w) => (vring_need_event used_event new_idx old_idx, w)
    | (None, w) => (true, w)
    end.

Definition should_notify_guest (q : VirtQueue) (old_used_idx : Z) (w : world) : bool * world :=
  wants_interrupt (q_event_idx q) (q_avail q) (q_size q) (q_shadow_used q) old_used_idx w.

(** The two words of a used entry: one lookup of eight bytes, then a write of
    each half. *)
Definition write_entry (gpa desc_idx len : Z) (w : world) : world :=
  match gm_lookup pm gpa 8 with
  | None => w
  | Some sub =>
      let w := turn g w in
      let hm := match write (w_mem w) sub 4 (le_bytes 4 desc_idx) with
                | Ok hm => hm | Err _ => w_mem w end in
      let w := mkWorld hm (w_time w) in
      match subregion sub 4 4 with
      | None => w
      | Some len_sub =>
          let w := turn g w in
          match write (w_mem w) len_sub 4 (le_bytes 4 len) with
          | Ok hm => mkWorld hm (w_time w)
          | Err _ => w
          end
      end
  end.

(** One used entry at index [idx], then the index past it. *)
Definition write_used (used_addr size idx desc_idx len : Z) (w : world) : world :=
  let slot := wmul 64 (idx mod size) 8 in
  let w := write_entry (wadd 64 (wadd 64 used_addr 4) slot) desc_idx len w in
  write_u16 pm g (wadd 64 used_addr 2) (wadd 16 idx 1) w.

Definition push_used (q : VirtQueue) (desc_idx len : Z) (w : world) : VirtQueue * world :=
  let used_idx := q_shadow_used q in
  let w := write_used (q_used q) (q_size q) used_idx desc_idx len w in
  (set_shadow_used_idx q (wadd 16 used_idx 1), w).

End device.
End queue.

(** * Completions from worker threads

    [VirtioCompletion]: the used ring writer of an asynchronous device. Each
    method holds the lock for its writes, so a history of calls is a sequence
    of whole calls; the interrupt callback and its session are the
    transport's and appear as the boolean [publish_batch] returns. *)
Module completion.
Import mapping guestmem queue.

Record VirtioCompletion : Type := mkCompletion {
  used_addr : Z;
  avail_addr : Z;
  queue_size : Z;
  write_idx : Z;
  event_idx : bool;
  force_intr_count : Z
}.

Definition set_write_idx (c : VirtioCompletion) (i : Z) : VirtioCompletion :=
  mkCompletion (used_addr c) (avail_addr c) (queue_size c) i (event_idx c)
    (force_intr_count c).

Definition set_force_interrupt (c : VirtioCompletion) (count : Z) : VirtioCompletion :=
  mkCompletion (used_addr c) (avail_addr c) (queue_size c) (write_idx c) (event_idx c) count.

Section device.
Context `{GuestMap P} (pm : P) (g : guest).

Definition completion_new (q : VirtQueue) (w : world) : VirtioCompletion * world :=
  let '(u, size) := used_ring_info q in
  let '(i, w) := read_u16 pm g (wadd 64 u 2) w in
  (mkCompletion u (q_avail q) size (default 0 i) (q_event_idx q) 0, w).

Definition write_used_entry (c : VirtioCompletion) (e : Z * Z) (w : world) :
    VirtioCompletion * world :=
  let idx := write_idx c in
  (set_write_idx c (wadd 16 idx 1),
   write_used pm g (used_addr c) (queue_size c) idx e.1 e.2 w).

Fixpoint write_used_entries (c : VirtioCompletion) (entries : list (Z * Z)) (w : world) :
    VirtioCompletion * world :=
  match entries with
  | [] => (c, w)
  | e :: entries =>
      let '(c, w) := write_used_entry c e w in write_used_entries c entries w
  end.

(** The forced counter is claimed by one [fetch_update]. *)
Definition should_interrupt (c : VirtioCompletion) (old_idx new_idx : Z) (w : world) :
    bool * VirtioCompletion * world :=
  match checked_sub (force_intr_count c) 1 with
  | Some n => (true, set_force_interrupt c n, w)
  | None =>
      let '(b, w) := wants_interrupt pm g (event_idx c) (avail_addr c) (queue_size c)
                       new_idx old_idx w in
      (b, c, w)
  end.

Definition publish_batch (c : VirtioCompletion) (entries : list (Z * Z)) (w : world) :
    bool * VirtioCompletion * world :=
  match entries with
  | [] => (false, c, w)
  | _ =>
      let old_idx := write_idx c in
      let '(c, w) := write_used_entries c entries w in
      should_interrupt c old_idx (write_idx c) w
  end.

(** Whether the call raised the interrupt. *)
Definition complete (c : VirtioCompletion) (desc_idx len : Z) (w : world) :
    bool * VirtioCompletion * world :=
  publish_batch c [(desc_idx, len)] w.

End device.
End completion.
