(* ===== verification/VirtQueueInv.v ===== *)
(** * Correctness of the split virtqueue

    The configuration invariant, the legacy layout, notification
    suppression, descriptor chains, and the two rings, against every guest
    unless a theorem names the guest. *)

From S2P Require Import Prelude Mapping GuestMem VirtQueue.

Module queue_inv.
Import mapping guestmem queue.

(** ** Notification suppression *)

Lemma wsub_as k w x y : 0 <= k < 2 ^ w -> (exists z, x - y = k + z * 2 ^ w) -> wsub w x y = k.
Proof.
  intros Hk [z Hz]. unfold wsub. rewrite Hz, Z.mod_add by lia. by apply Z.mod_small.
Qed.

Lemma wsub_spec w x y :
  0 <= w -> exists z, x - y = wsub w x y + z * 2 ^ w /\ 0 <= wsub w x y < 2 ^ w.
Proof.
  intros Hw. assert (0 < 2 ^ w) by lia. exists ((x - y) / 2 ^ w). unfold wsub.
  pose proof (Z.div_mod (x - y) (2 ^ w)). pose proof (Z.mod_pos_bound (x - y) (2 ^ w)). lia.
Qed.

Lemma need_event_spec event new old :
  uint 16 event -> uint 16 new -> uint 16 old ->
  vring_need_event event new old = true <->
  exists k, 0 <= k < wsub 16 new old /\ wadd 16 old k = event.
Proof.
  intros He Hn Ho. unfold uint in *. unfold vring_need_event. rewrite Z.ltb_lt.
  destruct (wsub_spec 16 new old) as (z1 & Hz1 & Hd); [lia|].
  destruct (wsub_spec 16 event old) as (z2 & Hz2 & Hk); [lia|].
  set (d := wsub 16 new old) in *. set (k := wsub 16 event old) in *.
  assert (Hadd : wadd 16 old k = event).
  { unfold wadd. replace (old + k) with (event + - z2 * 2 ^ 16) by lia.
    rewrite Z.mod_add by lia. by apply Z.mod_small. }
  assert (Hsub : wsub 16 (wsub 16 new event) 1 = if k <? d then d - 1 - k else d - 1 - k + 2 ^ 16).
  { destruct (wsub_spec 16 new event) as (z3 & Hz3 & _); [lia|].
    apply wsub_as; destruct (Z.ltb_spec k d); try lia.
    - exists (z1 - z2 - z3). lia.
    - exists (z1 - z2 - z3 - 1). lia. }
  rewrite Hsub. split.
  - intros Hlt. exists k. split; [|done]. destruct (Z.ltb_spec k d); lia.
  - intros (j & Hj & Hje). assert (j = k) as ->.
    { unfold wadd in Hje, Hadd.
      assert (Hmod : (old + j) mod 2 ^ 16 = (old + k) mod 2 ^ 16) by congruence.
      destruct (Z.lt_trichotomy j k) as [Hlt|[->|Hlt]]; [|done|].
      - assert (Hd2 : (k - j) mod 2 ^ 16 = 0).
        { replace (k - j) with ((old + k) - (old + j)) by lia.
          by rewrite Zminus_mod, Hmod, Z.sub_diag. }
        rewrite Z.mod_small in Hd2 by lia. lia.
      - assert (Hd2 : (j - k) mod 2 ^ 16 = 0).
        { replace (j - k) with ((old + j) - (old + k)) by lia.
          by rewrite Zminus_mod, Hmod, Z.sub_diag. }
        rewrite Z.mod_small in Hd2 by lia. lia. }
    destruct (Z.ltb_spec k d); lia.
Qed.

(** ** The configuration invariant *)

Definition size_ok (z : Z) : Prop := 0 < z <= MAX_QUEUE_SIZE /\ is_power_of_two z = true.

Record q_ok (q : VirtQueue) : Prop := {
  qo_size : size_ok (q_size q);
  qo_max : size_ok (q_max_size q);
  qo_le : q_size q <= q_max_size q;
  qo_desc : uint 64 (q_desc q);
  qo_avail : uint 64 (q_avail q);
  qo_used : uint 64 (q_used q);
  qo_last : uint 16 (q_last_avail q);
  qo_shadow : uint 16 (q_shadow_used q)
}.

Section config.
Context `{GuestMap P} (pm : P).

(** A cached verdict is the verdict of a check made now. *)
Definition cache_ok (q : VirtQueue) : Prop :=
  forall b, q_addrs_ok q = Some b ->
    is_configured q = true /\ b = is_ok (validate_addrs pm q).

(** Everything the transport and the device do to a queue. *)
Inductive qstep : VirtQueue -> VirtQueue -> Prop :=
| qs_set_size q n : uint 16 n -> qstep q (set_size q n).1
| qs_event_idx q b : qstep q (set_event_idx q b)
| qs_indirect q b : qstep q (set_indirect_supported q b)
| qs_last q i : uint 16 i -> qstep q (set_last_avail_idx q i)
| qs_shadow q i : uint 16 i -> qstep q (set_shadow_used_idx q i)
| qs_legacy q n : uint 32 n -> qstep q (set_addr_legacy q n)
| qs_modern q d a u : uint 64 d -> uint 64 a -> uint 64 u -> qstep q (set_addr_modern q d a u)
| qs_reset q : qstep q (reset q)
| qs_pop q g w : qstep q (pop_avail pm g q w).1.2
| qs_push q g i n w : qstep q (push_used pm g q i n w).1.

Lemma size_ok_of n m :
  (n =? 0) || negb (is_power_of_two n) || (m <? n) = false -> m <= MAX_QUEUE_SIZE -> 0 <= n ->
  size_ok n /\ n <= m.
Proof.
  destruct (Z.eqb_spec n 0); [done|]. destruct (is_power_of_two n) eqn:E; [|done].
  destruct (Z.ltb_spec m n); [done|]. unfold size_ok. intros _ ? ?. split_and!; done || lia.
Qed.

Lemma uint_align_up v a : uint 64 (align_up v a).
Proof. apply uint_land, uint_wsub; lia. Qed.

Lemma q_ok_set_last q i : q_ok q -> uint 16 i -> q_ok (set_last_avail_idx q i).
Proof. intros [] ?. by split. Qed.

Lemma addrs_usable_ok q :
  q_ok q -> is_configured q = true -> cache_ok q ->
  q_ok (addrs_usable pm q).2 /\ cache_ok (addrs_usable pm q).2 /\
  (addrs_usable pm q).1 = is_ok (validate_addrs pm q) /\
  (addrs_usable pm q).2 = set_addrs_ok q (Some (addrs_usable pm q).1).
Proof.
  intros Hq Hc Hcache. unfold addrs_usable. destruct (q_addrs_ok q) as [b|] eqn:E.
  - split_and!; try done; simpl; [by apply (Hcache b)|].
    unfold set_addrs_ok. rewrite <- E. by destruct q.
  - destruct (validate_addrs pm q) as [[]|e] eqn:V; simpl; (split; [by destruct Hq|]);
      (split_and!; [|done|done]); intros b' [= <-]; (split; [done|]);
      change (validate_addrs pm (set_addrs_ok q _)) with (validate_addrs pm q); by rewrite V.
Qed.

Lemma pop_queue g q w :
  (pop_avail pm g q w).1.2 = q \/
  is_configured q = true /\
  ((pop_avail pm g q w).1.2 = (addrs_usable pm q).2 \/
   (pop_avail pm g q w).1.2 =
     set_last_avail_idx (addrs_usable pm q).2 (wadd 16 (q_last_avail (addrs_usable pm q).2) 1)).
Proof.
  unfold pop_avail. destruct (is_configured q); [|by left].
  destruct (addrs_usable pm q) as [[] q']; simpl; [|by right; auto].
  destruct (read_u16 _ _ _ _) as [[a|] w']; [|by right; auto].
  case_match; [by right; auto|]. destruct (read_u16 _ _ _ w') as [[d|] w'']; [|by right; auto].
  case_match; by right; auto.
Qed.

Lemma qstep_ok q q' : qstep q q' -> q_ok q -> cache_ok q -> q_ok q' /\ cache_ok q'.
Proof.
  intros Hs Hq Hc. destruct Hs.
  - unfold set_size. destruct (_ || _) eqn:E; [done|].
    destruct (is_configured q) eqn:Hcfg; [done|]. destruct Hq. simpl.
    destruct (size_ok_of n (q_max_size q)) as [? ?]; [done|apply qo_max0|unfold uint in *; lia|].
    split; [by split|]. intros b Hb. destruct (Hc b Hb). congruence.
  - split; [by destruct Hq|]. intros v. simpl. destruct (eqb (q_event_idx q) b) eqn:E; [|done].
    apply eqb_prop in E as <-. intros Hv. destruct (Hc v Hv). done.
  - split; [by destruct Hq|done].
  - split; [by destruct Hq|done].
  - split; [by destruct Hq|done].
  - unfold set_addr_legacy. destruct (n =? 0); destruct Hq; (split; [split|]); simpl;
      try done; eauto using uint_align_up with vmm.
  - destruct Hq. by split; [split|].
  - destruct Hq. split; [split|]; simpl; done.
  - destruct (pop_queue g q w) as [->|[Hcfg Hp]]; [done|].
    destruct (addrs_usable_ok q) as (? & ? & _ & _); try done. destruct Hp as [->| ->]; [done|].
    split; [|done]. apply q_ok_set_last; [done|]. by apply uint_wadd.
  - split; [|done]. destruct Hq. split; simpl; try done. by apply uint_wadd.
Qed.

(** Once programmed, a ring keeps its size until it is unprogrammed. *)
Lemma qstep_size q q' :
  qstep q q' -> is_configured q = true -> is_configured q' = true -> q_size q' = q_size q.
Proof.
  intros Hs Hc Hc'. destruct Hs; try done.
  - unfold set_size. rewrite Hc. by case_match.
  - unfold set_addr_legacy. by case_match.
  - assert (Hu : q_size (addrs_usable pm q).2 = q_size q).
    { unfold addrs_usable. by repeat case_match. }
    by destruct (pop_queue g q w) as [->|[_ [->| ->]]].
Qed.

End config.

(** ** The legacy layout *)

Lemma align_up_page v :
  0 <= v < 2 ^ 63 ->
  v <= align_up v PAGE_SIZE < v + PAGE_SIZE /\ align_up v PAGE_SIZE mod PAGE_SIZE = 0.
Proof.
  intros Hv. unfold align_up, PAGE_SIZE. rewrite wadd_small, wsub_small by lia.
  change (2 ^ 64 - 1 - (4096 - 1)) with (2 ^ 64 - 1 - (2 ^ 12 - 1)).
  rewrite land_high by (unfold uint; lia). change (2 ^ 12) with 4096.
  rewrite Z.mod_mul by lia. pose proof (Z.div_mod (v + 4096 - 1) 4096).
  pose proof (Z.mod_pos_bound (v + 4096 - 1) 4096). lia.
Qed.

Lemma legacy_addrs q n :
  q_ok q -> 0 < n < 2 ^ 32 ->
  let q' := set_addr_legacy q n in
  let avail := n * PAGE_SIZE + q_size q * 16 in
  q_desc q' = n * PAGE_SIZE /\ q_avail q' = avail /\
  q_used q' = align_up (avail + 6 + q_size q * 2) PAGE_SIZE /\ q_size q' = q_size q /\
  0 < q_size q <= 32768.
Proof.
  intros Hq Hn. destruct (qo_size q Hq) as [Hs _]. unfold MAX_QUEUE_SIZE in Hs.
  unfold set_addr_legacy, PAGE_SIZE. destruct (Z.eqb_spec n 0); [lia|]. simpl.
  rewrite !wmul_small, (wadd_small _ (n * 4096) _) by lia.
  rewrite (wadd_small _ _ 6), wadd_small by lia. done.
Qed.

(** ** Descriptor chains *)

Section chains.
Context `{GuestMap P} (pm : P).

(** At most [n] accesses from [w], and at most [k] buffers, at least one. *)
Definition bounded (n k : nat) (w : world) (r : option (list ChainBuf) * world) : Prop :=
  (w_time r.2 <= w_time w + n)%nat /\
  forall bufs, r.1 = Some bufs -> (1 <= length bufs <= k)%nat.

Lemma bounded_fail n k w : bounded n k w (io_fail w).
Proof. split; simpl; [lia|done]. Qed.

Lemma bounded_one n k w b : bounded n (S k) w (io_ret [b] w).
Proof. split; simpl; [lia|]. intros ? [= <-]. simpl. lia. Qed.

Lemma bounded_read {A} n k w (m : io A) (f : A -> io (list ChainBuf)) :
  (w_time (m w).2 <= S (w_time w))%nat -> (forall a w', bounded n k w' (f a w')) ->
  bounded (S n) k w (io_bind m f w).
Proof.
  intros Hm Hf. unfold io_bind. destruct (m w) as [[a|] w']; simpl in Hm.
  - destruct (Hf a w') as [? ?]. split; [lia|done].
  - split; simpl; [lia|done].
Qed.

Lemma bounded_cons n k w m b :
  bounded n k w (m w) -> bounded n (S k) w (io_bind m (fun rest => io_ret (b :: rest)) w).
Proof.
  intros [Ht Hl]. unfold io_bind. destruct (m w) as [[rest|] w']; simpl in *.
  - split; [done|]. intros ? [= <-]. specialize (Hl _ eq_refl). simpl. lia.
  - split; [done|]. done.
Qed.

Lemma bounded_le n k n' k' w r :
  (n <= n')%nat -> (k <= k')%nat -> bounded n k w r -> bounded n' k' w r.
Proof.
  intros ? ? [? Hl]. split; [lia|]. intros bufs Hb. specialize (Hl bufs Hb). lia.
Qed.

Lemma walk_indirect_bound g rem num gpa idx w :
  bounded rem rem w (walk_indirect_loop pm g rem num gpa idx w).
Proof.
  revert idx w. induction rem as [|rem IH]; intros idx w; cbn [walk_indirect_loop];
    [apply bounded_fail|].
  destruct (num <=? idx); [apply bounded_fail|].
  destruct (table_gpa gpa idx) as [a|]; [|apply bounded_fail].
  apply bounded_read; [done|]. intros b w'.
  destruct (is_indirect _); [apply bounded_fail|]. destruct (has_next _).
  - apply bounded_cons, IH.
  - apply bounded_one.
Qed.

Lemma walk_table_bound g gpa len budget w :
  bounded (Z.to_nat budget) (Z.to_nat budget) w (walk_indirect_table pm g gpa len budget w).
Proof.
  unfold walk_indirect_table. destruct (_ || _); [apply bounded_fail|].
  destruct (Z.ltb_spec budget (len / 16)); [apply bounded_fail|].
  eapply bounded_le, walk_indirect_bound; lia.
Qed.

Lemma collect_loop_bound g q rem idx w :
  bounded (S rem) rem w (collect_loop pm g rem q idx w).
Proof.
  revert idx w. induction rem as [|rem IH]; intros idx w; cbn [collect_loop];
    [apply bounded_fail|].
  apply bounded_read.
  { unfold read_desc. destruct (q_size q <=? idx); [simpl; lia|]. unfold io_bind.
    destruct (read_at _ _ _ _ _ w) as [[b|] w'] eqn:E; unfold read_at in E; simplify_eq; simpl; lia. }
  intros d w'. destruct (is_indirect d).
  - destruct (negb _); [apply bounded_fail|]. destruct (has_next d); [apply bounded_fail|].
    eapply bounded_le, walk_table_bound; lia.
  - destruct (has_next d).
    + apply bounded_cons, IH.
    + apply bounded_one.
Qed.

(** A linked list of descriptors, by the rules of VirtIO 1.3 sec 2.7.5. *)
Inductive chain (fetch : Z -> option VirtqDesc) : Z -> list VirtqDesc -> Prop :=
| chain_last i d : fetch i = Some d -> has_next d = false -> chain fetch i [d]
| chain_next i d ds : fetch i = Some d -> has_next d = true ->
    chain fetch (d_next d) ds -> chain fetch i (d :: ds).

(** Sixteen bytes of guest memory as a descriptor. *)
Definition fetch_at (hm : hostmem) (gpa : Z) : option VirtqDesc :=
  desc_of_bytes <$> (read_at pm idle gpa 16 8 (mkWorld hm 0)).1.

(** Entry [i] of the descriptor table, and of an indirect table of [num]
    entries at [gpa]. *)
Definition ring_fetch (q : VirtQueue) (hm : hostmem) (i : Z) : option VirtqDesc :=
  if q_size q <=? i then None else fetch_at hm (wadd 64 (q_desc q) (wmul 64 i 16)).

Definition table_fetch (hm : hostmem) (gpa num i : Z) : option VirtqDesc :=
  if num <=? i then None
  else let* a := table_gpa gpa i in
       fetch_at hm a.

(** An indirect table, as VirtIO 1.3 sec 2.7.5.3.1 restricts it. *)
Definition table_ok (hm : hostmem) (gpa len budget : Z) (ds : list VirtqDesc) : Prop :=
  0 < len / 16 <= budget /\ is_multiple_of len 16 = true /\
  chain (table_fetch hm gpa (len / 16)) 0 ds /\ Z.of_nat (length ds) <= len / 16 /\
  Forall (fun d => is_indirect d = false) ds.

(** A request: direct descriptors, then either a last direct one or one
    indirect table. *)
Inductive request (q : VirtQueue) (hm : hostmem) (room : Z) (i : Z) : list ChainBuf -> Prop :=
| req_direct ds :
    chain (ring_fetch q hm) i ds -> Z.of_nat (length ds) <= room ->
    Forall (fun d => is_indirect d = false) ds ->
    request q hm room i (buf_of <$> ds)
| req_indirect ds d ts :
    chain (ring_fetch q hm) i (ds ++ [d]) -> Z.of_nat (length ds) < room ->
    Forall (fun d => is_indirect d = false) ds ->
    is_indirect d = true -> q_indirect q = true ->
    table_ok hm (d_addr d) (d_len d) (room - Z.of_nat (length ds)) ts ->
    request q hm room i ((buf_of <$> ds) ++ (buf_of <$> ts)).

Lemma read_at_idle gpa n a w :
  read_at pm idle gpa n a w =
    ((read_at pm idle gpa n a (mkWorld (w_mem w) 0)).1, mkWorld (w_mem w) (S (w_time w))).
Proof. done. Qed.

Lemma chain_inv fetch i ds :
  chain fetch i ds -> exists d ds', ds = d :: ds' /\ fetch i = Some d /\
    ((has_next d = false /\ ds' = []) \/ (has_next d = true /\ chain fetch (d_next d) ds')).
Proof. destruct 1; eauto 10. Qed.

(** One step of either walk: what the descriptor at [i] makes of it. *)
Lemma table_step hm rem num gpa i t :
  (walk_indirect_loop pm idle (S rem) num gpa i (mkWorld hm t)).1 =
  let* d := table_fetch hm gpa num i in
  if is_indirect d then None
  else if has_next d then
    cons (buf_of d) <$>
      (walk_indirect_loop pm idle rem num gpa (d_next d) (mkWorld hm (S t))).1
  else Some [buf_of d].
Proof.
  cbn [walk_indirect_loop]. unfold table_fetch. destruct (num <=? i); [done|].
  destruct (table_gpa gpa i) as [a|]; [|done]. cbn [option_bind].
  unfold fetch_at, io_bind, read_at, turn, idle. cbn [w_mem w_time fst].
  destruct (let* sub := gm_lookup pm a 16 in _) as [b|]; [|done]. cbn [fmap option_fmap option_map].
  simpl option_bind. destruct (is_indirect _); [done|]. destruct (has_next _); [|done].
  by destruct (walk_indirect_loop _ _ _ _ _ _ _) as [[rest|] w'].
Qed.

Lemma ring_step hm rem q i t :
  (collect_loop pm idle (S rem) q i (mkWorld hm t)).1 =
  let* d := ring_fetch q hm i in
  if is_indirect d then
    if q_indirect q && negb (has_next d) then
      (walk_indirect_table pm idle (d_addr d) (d_len d) (Z.of_nat (S rem))
        (mkWorld hm (S t))).1
    else None
  else if has_next d then
    cons (buf_of d) <$> (collect_loop pm idle rem q (d_next d) (mkWorld hm (S t))).1
  else Some [buf_of d].
Proof.
  cbn [collect_loop]. unfold ring_fetch, read_desc, io_bind.
  destruct (q_size q <=? i); [done|]. unfold fetch_at, read_at, turn, idle. cbn [w_mem w_time fst].
  destruct (let* sub := gm_lookup pm _ 16 in _) as [b|]; [|done].
  cbn [fmap option_fmap option_map]. unfold io_ret at 1. simpl option_bind.
  destruct (is_indirect _).
  - destruct (q_indirect q); [|done]. destruct (has_next _); [done|]. cbn [andb negb].
    do 2 f_equal. lia.
  - destruct (has_next _); [|done].
    by destruct (collect_loop _ _ _ _ _ _) as [[rest|] w'].
Qed.

Lemma walk_loop_refines hm rem num gpa i t bufs :
  (walk_indirect_loop pm idle rem num gpa i (mkWorld hm t)).1 = Some bufs <->
  exists ds, chain (table_fetch hm gpa num) i ds /\ (length ds <= rem)%nat /\
    Forall (fun d => is_indirect d = false) ds /\ bufs = buf_of <$> ds.
Proof.
  revert i t bufs. induction rem as [|rem IH]; intros i t bufs.
  { split; [done|]. intros (ds & (d & ds' & -> & _)%chain_inv & Hl & _). simpl in Hl. lia. }
  rewrite table_step. destruct (table_fetch hm gpa num i) as [d|] eqn:Hd; cbn [option_bind].
  2:{ split; [done|]. intros (ds & (d & ds' & _ & Hf & _)%chain_inv & _). congruence. }
  destruct (is_indirect d) eqn:Hi.
  { split; [done|]. intros (ds & (d' & ds' & -> & Hf & _)%chain_inv & _ & Hn & _).
    apply Forall_cons in Hn as [? _]. congruence. }
  destruct (has_next d) eqn:Hn.
  - rewrite fmap_Some. split.
    + intros (rest & (ds & Hc & Hl & Hf & ->)%IH & ->). exists (d :: ds). simpl.
      split_and!; [by eapply chain_next|lia|by constructor|done].
    + intros (ds & (d' & ds' & -> & Hf & Hcase)%chain_inv & Hl & Hfa & ->).
      replace d' with d in * by congruence. destruct Hcase as [[? _]|[_ Hc]]; [congruence|].
      apply Forall_cons in Hfa as [_ Hfa]. simpl in Hl. eexists. split; [|done].
      apply IH. exists ds'. split_and!; done || lia.
  - simpl. split.
    + intros [= <-]. exists [d]. simpl. split_and!; [by apply chain_last|lia|by constructor|done].
    + intros (ds & (d' & ds' & -> & Hf & Hcase)%chain_inv & Hl & Hfa & ->).
      replace d' with d in * by congruence. destruct Hcase as [[_ ->]|[? _]]; [done|congruence].
Qed.

Lemma walk_table_refines hm gpa len budget t bufs :
  (walk_indirect_table pm idle gpa len budget (mkWorld hm t)).1 = Some bufs <->
  exists ts, table_ok hm gpa len budget ts /\ bufs = buf_of <$> ts.
Proof.
  unfold walk_indirect_table, table_ok.
  assert (Hpos : 0 < len / 16 \/ len / 16 <= 0) by lia.
  destruct (Z.eqb_spec (len / 16) 0) as [H0|H0]; simpl.
  { split; [done|]. intros (ts & (? & _) & _). lia. }
  destruct (is_multiple_of len 16); simpl.
  2:{ split; [done|]. intros (ts & (_ & ? & _) & _). done. }
  destruct (Z.ltb_spec budget (len / 16)).
  { split; [done|]. intros (ts & (? & _) & _). lia. }
  rewrite walk_loop_refines. split.
  - intros (ds & Hc & Hl & Hf & ->). exists ds.
    pose proof (chain_inv _ _ _ Hc) as (d & ds' & -> & _). simpl in Hl.
    split_and!; try done; simpl; lia.
  - intros (ts & (? & _ & Hc & Hl & Hf) & ->). exists ts. split_and!; try done. lia.
Qed.

(** A request grows by one direct descriptor in front. *)
Lemma request_cons q hm room i d rest :
  ring_fetch q hm i = Some d -> is_indirect d = false -> has_next d = true ->
  request q hm room (d_next d) rest -> request q hm (room + 1) i (buf_of d :: rest).
Proof.
  intros Hd Hi Hn [ds Hc Hl Hf|ds d' ts Hc Hl Hf Hi' Hq Ht].
  - apply (req_direct _ _ _ _ (d :: ds)); [by eapply chain_next|simpl; lia|by constructor].
  - apply (req_indirect _ _ _ _ (d :: ds) d' ts); try done.
    + by apply (chain_next _ i d (ds ++ [d'])).
    + simpl. lia.
    + by constructor.
    + simpl. by replace (room + 1 - Z.of_nat (S (length ds))) with (room - Z.of_nat (length ds)) by lia.
Qed.

Lemma request_inv q hm room i bufs :
  request q hm room i bufs -> exists d, ring_fetch q hm i = Some d /\ 0 < room /\
    ((is_indirect d = false /\ has_next d = false /\ bufs = [buf_of d]) \/
     (is_indirect d = false /\ has_next d = true /\
       exists rest, bufs = buf_of d :: rest /\ request q hm (room - 1) (d_next d) rest) \/
     (is_indirect d = true /\ has_next d = false /\ q_indirect q = true /\
       exists ts, table_ok hm (d_addr d) (d_len d) room ts /\ bufs = buf_of <$> ts)).
Proof.
  intros [ds Hc Hl Hf|ds d' ts Hc Hl Hf Hi' Hq Ht].
  - apply chain_inv in Hc as (d & ds' & -> & Hd & Hcase). apply Forall_cons in Hf as [Hi Hf].
    simpl in Hl. exists d. split_and!; [done|lia|].
    destruct Hcase as [[Hn ->]|[Hn Hc]]; [by left|right; left].
    split_and!; try done. eexists. split; [done|]. apply req_direct; done || lia.
  - apply chain_inv in Hc as (d & ds' & Heq & Hd & Hcase). exists d. split_and!; [done|lia|].
    destruct ds as [|e ds]; simpl in Heq; injection Heq as ? Heq2; subst d ds'.
    + destruct Hcase as [[Hn _]|[_ Hc]]; [|by inversion Hc].
      right; right. split_and!; try done. exists ts. split; [|done].
      simpl in Ht. by rewrite Z.sub_0_r in Ht.
    + apply Forall_cons in Hf as [Hi Hf].
      destruct Hcase as [[Hn ?]|[Hn Hc]]; [by destruct ds|right; left].
      split_and!; try done. eexists. split; [done|].
      simpl in Hl, Ht. apply (req_indirect _ _ _ _ ds d' ts); try done; [lia|].
      by replace (room - 1 - Z.of_nat (length ds)) with (room - Z.of_nat (S (length ds))) by lia.
Qed.

Lemma collect_loop_refines q hm rem i t bufs :
  (collect_loop pm idle rem q i (mkWorld hm t)).1 = Some bufs <->
  request q hm (Z.of_nat rem) i bufs.
Proof.
  revert i t bufs. induction rem as [|rem IH]; intros i t bufs.
  { split; [done|]. intros (d & _ & ? & _)%request_inv. lia. }
  rewrite ring_step. destruct (ring_fetch q hm i) as [d|] eqn:Hd; cbn [option_bind].
  2:{ split; [done|]. intros (d & ? & _)%request_inv. congruence. }
  split.
  - destruct (is_indirect d) eqn:Hi.
    + destruct (q_indirect q) eqn:Hq; [|done]. destruct (has_next d) eqn:Hn; [done|]. cbn [andb negb].
      intros (ts & Ht & ->)%walk_table_refines.
      apply (req_indirect _ _ _ _ [] d ts); simpl; rewrite ?Z.sub_0_r; try done.
      by apply chain_last.
    + destruct (has_next d) eqn:Hn.
      * intros (rest & Hr%IH & ->)%fmap_Some. replace (Z.of_nat (S rem)) with (Z.of_nat rem + 1) by lia.
        by apply request_cons.
      * intros [= <-]. apply (req_direct _ _ _ _ [d]); [by apply chain_last|simpl; lia|by constructor].
  - intros (d' & Hd' & _ & Hcase)%request_inv. replace d' with d in * by congruence.
    destruct Hcase as [(-> & -> & ->)|[(-> & -> & rest & -> & Hr)|(-> & -> & -> & ts & Ht & ->)]].
    + done.
    + replace (Z.of_nat (S rem) - 1) with (Z.of_nat rem) in Hr by lia.
      apply fmap_Some. exists rest. split; [by apply IH|done].
    + cbn [andb negb]. apply walk_table_refines. by exists ts.
Qed.

End chains.

(** ** The rings of a checked queue *)

Section rings.
Context `{GuestMap P} (pm : P) (Hpm : gm_ok pm).

Lemma check_ring_Ok r addr len :
  check_ring pm r addr len = Ok tt <->
  addr <> 0 /\ is_multiple_of addr (ring_align r) = true /\
  exists v, gm_lookup pm addr len = Some v.
Proof.
  unfold check_ring. destruct (Z.eqb_spec addr 0); [by split; [|intros (? & _)]|].
  destruct (is_multiple_of addr _); simpl; [|by split; [|intros (_ & ? & _)]].
  destruct (gm_lookup pm addr len).
  - split; [intros _; eauto|done].
  - split; [done|]. by intros (_ & _ & ? & ?).
Qed.

(** What a passed check gives every later access to the rings. *)
Record views (q : VirtQueue) (av uv : SubMapping) : Prop := {
  vw_avail : gm_lookup pm (q_avail q) (avail_ring_bytes q) = Some av;
  vw_used : gm_lookup pm (q_used q) (used_ring_bytes q) = Some uv;
  vw_avail_align : q_avail q mod 2 = 0;
  vw_used_align : q_used q mod 4 = 0
}.

Lemma validate_views q :
  validate_addrs pm q = Ok tt ->
  is_configured q = true /\ exists av uv, views q av uv.
Proof.
  unfold validate_addrs. destruct (check_ring pm Desc _ _) as [[]|] eqn:Hd; [|done].
  destruct (check_ring pm Avail _ _) as [[]|] eqn:Ha; [|done]. simpl. intros Hu.
  apply check_ring_Ok in Hd as (Hd & _). apply check_ring_Ok in Ha as (_ & Hal & av & Hav).
  apply check_ring_Ok in Hu as (_ & Hul & uv & Huv).
  split; [unfold is_configured; by destruct (Z.eqb_spec (q_desc q) 0)|].
  exists av, uv. split; try done; by apply Z.eqb_eq.
Qed.

(** The driver's index, entry [k] of its ring, and the suppression word of
    the used ring. *)
Definition avail_idx_of (av : SubMapping) (hm : hostmem) : Z :=
  le_val (peek_range hm (s_ptr av + 2) 2).
Definition ring_entry (av : SubMapping) (hm : hostmem) (k : Z) : Z :=
  le_val (peek_range hm (s_ptr av + 4 + 2 * k) 2).
Definition avail_event_of (q : VirtQueue) (uv : SubMapping) (hm : hostmem) : Z :=
  le_val (peek_range hm (s_ptr uv + 4 + 8 * q_size q) 2).

Section checked.
Context (q : VirtQueue) (av uv : SubMapping) (Hq : q_ok q) (Hv : views q av uv).

Lemma checked_bounds :
  0 < q_size q <= 32768 /\ 0 <= q_avail q /\ 0 <= q_used q /\
  q_avail q + avail_ring_bytes q < 2 ^ 64 /\ q_used q + used_ring_bytes q < 2 ^ 64 /\
  0 <= event_field_bytes q.
Proof.
  destruct Hq as [[Hs _] _ _ _ Ha Hu _ _]. unfold uint, MAX_QUEUE_SIZE in *.
  assert (0 <= event_field_bytes q) by (unfold event_field_bytes; by destruct (q_event_idx q)).
  destruct (gm_view pm (q_avail q) (avail_ring_bytes q) av) as (_ & ? & _); try done;
    [lia|unfold avail_ring_bytes; lia|apply Hv|].
  destruct (gm_view pm (q_used q) (used_ring_bytes q) uv) as (_ & ? & _); try done;
    [lia|unfold used_ring_bytes; lia|apply Hv|].
  split_and!; done || lia.
Qed.

Lemma mod2_add a b : a mod 2 = 0 -> b mod 2 = 0 -> (a + b) mod 2 = 0.
Proof. intros Ha Hb. by rewrite Z.add_mod, Ha, Hb. Qed.

Lemma read_avail_at g off w :
  0 <= off -> off + 2 <= avail_ring_bytes q -> off mod 2 = 0 ->
  read_u16 pm g (q_avail q + off) w =
    (Some (le_val (peek_range (w_mem (turn g w)) (s_ptr av + off) 2)), turn g w).
Proof.
  intros H0 Hle Hm. pose proof checked_bounds as (_ & ? & _).
  rewrite (read_u16_view pm g Hpm (q_avail q) (avail_ring_bytes q) av);
    [|done|apply Hv|lia|lia|by apply mod2_add, Hm; apply Hv].
  by replace (q_avail q + off - q_avail q) with off by lia.
Qed.

Lemma pop_checked g w :
  q_addrs_ok q <> Some false -> validate_addrs pm q = Ok tt ->
  pop_avail pm g q w =
    let q1 := set_addrs_ok q (Some true) in
    let w1 := turn g w in
    if q_last_avail q =? avail_idx_of av (w_mem w1) then (None, q1, w1)
    else
      let w2 := turn g w1 in
      let h := ring_entry av (w_mem w2) (q_last_avail q mod q_size q) in
      let q2 := set_last_avail_idx q1 (wadd 16 (q_last_avail q) 1) in
      (if q_size q <=? h then None else Some h, q2, w2).
Proof.
  intros Hnf Hval. pose proof checked_bounds as (? & ? & ? & Hb & ? & ?).
  unfold pop_avail. rewrite (proj1 (validate_views q Hval)). cbn [negb].
  replace (addrs_usable pm q) with (true, set_addrs_ok q (Some true)).
  2:{ unfold addrs_usable. rewrite Hval. destruct (q_addrs_ok q) as [[]|] eqn:E; try done.
      unfold set_addrs_ok. rewrite <- E. by destruct q. }
  cbn [negb q_avail q_size q_last_avail set_addrs_ok].
  assert (0 <= q_last_avail q mod q_size q < q_size q) by (apply Z.mod_pos_bound; lia).
  unfold avail_ring_bytes in Hb. rewrite wadd_small by lia.
  rewrite read_avail_at; [|lia|unfold avail_ring_bytes; lia|done].
  unfold avail_idx_of. destruct (q_last_avail q =? _); [done|].
  rewrite wmul_small, (wadd_small _ (q_avail q) 4) by lia. rewrite wadd_small by lia.
  rewrite <- Z.add_assoc, read_avail_at; [|lia|unfold avail_ring_bytes; lia|].
  - unfold ring_entry. replace (s_ptr av + (4 + q_last_avail q mod q_size q * 2))
      with (s_ptr av + 4 + 2 * (q_last_avail q mod q_size q)) by lia.
    change (q_size (set_last_avail_idx _ _)) with (q_size q). by destruct (q_size q <=? _).
  - apply mod2_add; [done|]. by rewrite Z.mod_mul.
Qed.

End checked.

(** ** Draining in order *)

(** Two queues that differ at most in what a device does to a queue while it
    handles a head. *)
Definition ring_eq (q q' : VirtQueue) : Prop :=
  q' = set_shadow_used_idx q (q_shadow_used q') /\ uint 16 (q_shadow_used q').

(** A device that handles a head without touching the available ring, and
    keeps a record of the heads it got. *)
Definition tame {S} (trace : S -> list Z) (av : SubMapping) (len : Z) (each : visitor S) : Prop :=
  forall q h s w, q_ok q ->
    let '(q', s', w') := each q h s w in
    ring_eq q q' /\ trace s' = trace s ++ [h] /\
    forall x, s_ptr av <= x < s_ptr av + len -> peek (w_mem w') x = peek (w_mem w) x.

(** Memory that agrees on a view. *)
Definition agree (v : SubMapping) (len : Z) (hm hm' : hostmem) : Prop :=
  forall x, s_ptr v <= x < s_ptr v + len -> peek hm' x = peek hm x.

(** The heads the driver offers from index [last] on. *)
Definition head_at (q : VirtQueue) (av : SubMapping) (hm : hostmem) (k : nat) : Z :=
  ring_entry av hm (wadd 16 (q_last_avail q) (Z.of_nat k) mod q_size q).
Definition pending (q : VirtQueue) (av : SubMapping) (hm : hostmem) : nat :=
  Z.to_nat (wsub 16 (avail_idx_of av hm) (q_last_avail q)).

Lemma agree_word v len hm hm' a :
  agree v len hm hm' -> s_ptr v <= a -> a + 2 <= s_ptr v + len ->
  peek_range hm' a 2 = peek_range hm a 2.
Proof. intros Ha H1 H2. apply peek_range_ext. intros i Hi. apply Ha. lia. Qed.

Lemma agree_avail q av hm hm' :
  0 < q_size q -> agree av (avail_ring_bytes q) hm hm' ->
  avail_idx_of av hm' = avail_idx_of av hm /\
  forall k, 0 <= k < q_size q -> ring_entry av hm' k = ring_entry av hm k.
Proof.
  intros Hs Ha. assert (0 <= event_field_bytes q)
    by (unfold event_field_bytes; by destruct (q_event_idx q)).
  unfold avail_idx_of, ring_entry, avail_ring_bytes in *. split.
  - by rewrite (agree_word av (4 + q_size q * 2 + event_field_bytes q) hm hm') by (done || lia).
  - intros k Hk. by rewrite (agree_word av (4 + q_size q * 2 + event_field_bytes q) hm hm')
      by (done || lia).
Qed.

Lemma avail_idx_uint av hm :
  (forall x b, hm !! x = Some b -> uint 8 b) -> uint 16 (avail_idx_of av hm).
Proof.
  intros Hb. apply (le_val_bound (peek_range hm (s_ptr av + 2) 2)).
  apply Forall_forall. intros y (i & -> & _)%list_elem_of_fmap. by apply peek_bytes.
Qed.

(** The same rings, still in use. *)
Record ring_same (q q' : VirtQueue) : Prop := {
  rs_size : q_size q' = q_size q;
  rs_max : q_max_size q' = q_max_size q;
  rs_desc : q_desc q' = q_desc q;
  rs_avail : q_avail q' = q_avail q;
  rs_used : q_used q' = q_used q;
  rs_event : q_event_idx q' = q_event_idx q;
  rs_ok : q_addrs_ok q' <> Some false
}.

Lemma ring_same_trans q1 q2 q3 : ring_same q1 q2 -> ring_same q2 q3 -> ring_same q1 q3.
Proof. intros [] []. split; congruence. Qed.

Lemma ring_same_bytes q q' :
  ring_same q q' -> avail_ring_bytes q' = avail_ring_bytes q /\
  used_ring_bytes q' = used_ring_bytes q /\ validate_addrs pm q' = validate_addrs pm q.
Proof.
  intros [Hs _ Hd Ha Hu He _].
  unfold validate_addrs, desc_table_bytes, avail_ring_bytes, used_ring_bytes, event_field_bytes.
  by rewrite Hs, Hd, Ha, Hu, He.
Qed.

Lemma ring_same_views q q' av uv : ring_same q q' -> views q av uv -> views q' av uv.
Proof.
  intros Hs Hv. destruct (ring_same_bytes q q' Hs) as (Ha & Hu & _). destruct Hs, Hv.
  split; rewrite ?Ha, ?Hu; congruence.
Qed.

Section drain.
Context {S : Type} (trace : S -> list Z) (each : visitor S) (av uv : SubMapping).
Context (hm0 : hostmem) (Hbytes : forall x b, hm0 !! x = Some b -> uint 8 b).

(** A checked queue whose available ring still holds what it held in [hm0]. *)
Record draining (q : VirtQueue) (w : world) : Prop := {
  dr_ok : q_ok q;
  dr_views : views q av uv;
  dr_valid : validate_addrs pm q = Ok tt;
  dr_cache : q_addrs_ok q <> Some false;
  dr_mem : agree av (avail_ring_bytes q) hm0 (w_mem w)
}.

Lemma draining_same q q' w w' :
  draining q w -> ring_same q q' -> q_ok q' ->
  agree av (avail_ring_bytes q) (w_mem w) (w_mem w') -> draining q' w'.
Proof.
  intros [Hq Hv Hval Hc Hm] Hs Hq' Ha. destruct (ring_same_bytes q q' Hs) as (Hb & _ & Hv').
  split; [done|by apply (ring_same_views q)|congruence|apply Hs|].
  rewrite Hb. intros x Hx. by rewrite (Ha x Hx), (Hm x Hx).
Qed.

(** The heads [q] was offered, from the [k]th on. *)
Definition offered (q : VirtQueue) (n : nat) : list Z :=
  head_at q av hm0 <$> seq 0 n.

Lemma wadd_wadd w x y z : 0 <= w -> wadd w (wadd w x y) z = wadd w x (y + z).
Proof. intros Hw. unfold wadd. rewrite Zplus_mod_idemp_l. f_equal. lia. Qed.

Lemma pending_zero q :
  q_ok q -> (q_last_avail q =? avail_idx_of av hm0) = true <-> pending q av hm0 = 0%nat.
Proof.
  intros Hq. pose proof (qo_last q Hq) as Hl. pose proof (avail_idx_uint av hm0 Hbytes) as Hi.
  unfold pending, wsub, uint in *. split.
  - intros ->%Z.eqb_eq. by rewrite Z.sub_diag.
  - intros Hp. apply Z.eqb_eq.
    destruct (Z.mod_pos_bound (avail_idx_of av hm0 - q_last_avail q) (2 ^ 16)); [lia|].
    assert (Hm : (avail_idx_of av hm0 - q_last_avail q) mod 2 ^ 16 = 0) by lia.
    apply Z.mod_divide in Hm as [z Hz]; [|lia]. lia.
Qed.

Lemma pending_next q q' :
  q_ok q -> pending q av hm0 <> 0%nat -> q_size q' = q_size q ->
  q_last_avail q' = wadd 16 (q_last_avail q) 1 ->
  pending q av hm0 = Datatypes.S (pending q' av hm0) /\
  (forall k, head_at q' av hm0 k = head_at q av hm0 (Datatypes.S k)).
Proof.
  intros Hq Hne Hs Hl. split.
  - unfold pending in *. rewrite Hl.
    destruct (wsub_spec 16 (avail_idx_of av hm0) (q_last_avail q)) as (z & Hz & Hb); [lia|].
    rewrite (wsub_as (wsub 16 (avail_idx_of av hm0) (q_last_avail q) - 1) 16 _
      (wadd 16 (q_last_avail q) 1)); [lia|lia|].
    unfold wadd. pose proof (Z.div_mod (q_last_avail q + 1) (2 ^ 16)).
    exists (z + (q_last_avail q + 1) / 2 ^ 16). lia.
  - intros k. unfold head_at. rewrite Hs, Hl, wadd_wadd by lia. do 3 f_equal. lia.
Qed.

Lemma offered_next q q' n :
  (forall k, head_at q' av hm0 k = head_at q av hm0 (Datatypes.S k)) ->
  offered q (Datatypes.S n) = head_at q av hm0 0 :: offered q' n.
Proof.
  intros Hn. unfold offered. simpl. f_equal. rewrite <- fmap_S_seq, <- list_fmap_compose.
  apply list_fmap_ext. intros i k _. by rewrite Hn.
Qed.

Lemma draining_pop q w :
  draining q w -> pending q av hm0 = 0%nat ->
  let q' := set_addrs_ok q (Some true) in
  pop_avail pm idle q w = (None, q', turn idle w) /\ draining q' (turn idle w) /\ ring_same q q'.
Proof.
  intros Hd Hp q'. pose proof Hd as [Hq Hv Hval Hc Hm].
  destruct (agree_avail q av hm0 (w_mem w)) as [Hi _]; [apply Hq|done|].
  rewrite (pop_checked q av uv) by done. cbv zeta. rewrite !w_mem_idle, Hi.
  rewrite (proj2 (pending_zero q Hq) Hp).
  assert (ring_same q q') by done. split_and!; try done.
  apply (draining_same q _ w); try done. by destruct Hq.
Qed.

Lemma draining_pop_head q w :
  draining q w -> pending q av hm0 <> 0%nat -> head_at q av hm0 0 < q_size q ->
  let q' := set_last_avail_idx (set_addrs_ok q (Some true)) (wadd 16 (q_last_avail q) 1) in
  pop_avail pm idle q w = (Some (head_at q av hm0 0), q', turn idle (turn idle w)) /\
  draining q' (turn idle (turn idle w)) /\ ring_same q q'.
Proof.
  intros Hd Hp Hlt q'. pose proof Hd as [Hq Hv Hval Hc Hm]. pose proof (qo_size q Hq) as [? _].
  destruct (agree_avail q av hm0 (w_mem w)) as [Hi He]; [lia|done|].
  assert (Hb : 0 <= q_last_avail q mod q_size q < q_size q) by (apply Z.mod_pos_bound; lia).
  assert (Hh : ring_entry av (w_mem w) (q_last_avail q mod q_size q) = head_at q av hm0 0).
  { rewrite He by done. unfold head_at. do 2 f_equal. rewrite wadd_small; [lia|].
    pose proof (qo_last q Hq) as Hl. unfold uint in Hl. simpl. lia. }
  rewrite (pop_checked q av uv) by done. cbv zeta. rewrite !w_mem_idle, Hi, Hh.
  destruct (q_last_avail q =? avail_idx_of av hm0) eqn:E.
  { by apply (pending_zero q Hq) in E. }
  destruct (Z.leb_spec (q_size q) (head_at q av hm0 0)); [lia|].
  assert (ring_same q q') by done. split_and!; try done.
  apply (draining_same q _ w); try done. apply q_ok_set_last; [by destruct Hq|]. by apply uint_wadd.
Qed.

Lemma drain_pass_fifo len room q s w :
  tame trace av len each -> draining q w -> avail_ring_bytes q = len ->
  (forall k, (k < pending q av hm0)%nat -> head_at q av hm0 k < q_size q) ->
  let k := Nat.min (pending q av hm0) room in
  exists q' s' w', drain_pass pm idle each room q s w = (k, q', s', w') /\
    draining q' w' /\ ring_same q q' /\
    q_last_avail q' = wadd 16 (q_last_avail q) (Z.of_nat k) /\
    trace s' = trace s ++ offered q k.
Proof.
  intros Ht. revert q s w. induction room as [|room IH]; intros q s w Hd Hl Hh; cbn [drain_pass].
  all: assert (Hlast : wadd 16 (q_last_avail q) 0 = q_last_avail q)
    by (rewrite wadd_small, Z.add_0_r; [done|]; rewrite Z.add_0_r; apply Hd).
  { rewrite Nat.min_0_r. exists q, s, w. change (Z.of_nat 0) with 0. change (offered q 0) with (@nil Z).
    rewrite Hlast, app_nil_r.
    split_and!; try done. split; try done. apply Hd. }
  destruct (decide (pending q av hm0 = 0%nat)) as [Hp|Hp].
  { destruct (draining_pop q w Hd Hp) as (-> & ? & ?). rewrite Hp. cbn [Nat.min].
    eexists _, _, _. change (Z.of_nat 0) with 0. change (offered q 0) with (@nil Z). rewrite Hlast, app_nil_r. split_and!; done. }
  destruct (draining_pop_head q w Hd Hp) as (-> & Hd1 & Hs1); [apply Hh; lia|].
  set (q1 := set_last_avail_idx _ _) in *. set (h := head_at q av hm0 0).
  specialize (Ht q1 h s (turn idle (turn idle w)) (dr_ok _ _ Hd1)).
  destruct (each q1 h s _) as [[q2 s2] w2]. destruct Ht as ([Heq Hsh] & Htr & Hmem).
  assert (Hs2 : ring_same q1 q2) by (rewrite Heq; done).
  assert (Hq2 : q_ok q2) by (rewrite Heq; pose proof (dr_ok _ _ Hd1) as []; by split).
  assert (Hd2 : draining q2 w2).
  { apply (draining_same q1 q2 (turn idle (turn idle w))); try done.
    change (avail_ring_bytes q1) with (avail_ring_bytes q). by rewrite Hl. }
  assert (Hs02 : ring_same q q2) by (by apply (ring_same_trans q q1)).
  assert (Hl2 : q_last_avail q2 = wadd 16 (q_last_avail q) 1) by (by rewrite Heq).
  destruct (pending_next q q2 (dr_ok _ _ Hd) Hp (rs_size _ _ Hs02) Hl2) as [Hpn Hhn].
  destruct (IH q2 s2 w2 Hd2) as (q3 & s3 & w3 & -> & Hd3 & Hs3 & Hl3 & Htr3).
  { by rewrite (proj1 (ring_same_bytes q q2 Hs02)). }
  { intros k Hk. rewrite Hhn, (rs_size _ _ Hs02). apply Hh. lia. }
  rewrite Hpn. cbn [Nat.min]. eexists q3, s3, w3.
  split_and!; [done|done|by apply (ring_same_trans q q2)| |].
  - rewrite Hl3, Hl2, wadd_wadd by lia. f_equal. lia.
  - rewrite Htr3, Htr, <- app_assoc. simpl. by rewrite (offered_next q q2 _ Hhn).
Qed.

Definition apart (q : VirtQueue) : Prop :=
  s_ptr av + avail_ring_bytes q <= s_ptr uv \/ s_ptr uv + used_ring_bytes q <= s_ptr av.

Lemma update_event_spec q w :
  q_ok q -> views q av uv -> apart q ->
  let w' := update_used_event pm idle q w in
  agree av (avail_ring_bytes q) (w_mem w) (w_mem w') /\
  (q_event_idx q = true -> contains (s_prot uv) WRITE = true ->
   avail_event_of q uv (w_mem w') = q_last_avail q).
Proof.
  intros Hq Hv Hap. unfold update_used_event. destruct (q_event_idx q) eqn:He; [|done]. cbn [negb].
  pose proof (checked_bounds q av uv Hq Hv) as (? & ? & ? & ? & Hb & _).
  assert (Hu : used_ring_bytes q = 6 + q_size q * 8)
    by (unfold used_ring_bytes, event_field_bytes; rewrite He; lia).
  rewrite Hu in Hb. rewrite wmul_small, (wadd_small _ (q_used q) 4) by lia.
  rewrite wadd_small by lia. unfold write_u16.
  destruct (contains (s_prot uv) WRITE) eqn:Hw.
  - rewrite (write_at_view pm idle Hpm (q_used q) (used_ring_bytes q) uv);
      rewrite ?length_le_bytes; try done; try lia; [|apply Hv|by exists 2048|].
    2:{ rewrite <- Z.add_assoc. apply mod2_add; [|apply mod2_add; [done|]].
        2:{ replace (q_size q * 8) with (q_size q * 4 * 2) by lia. by apply Z.mod_mul. }
        pose proof (vw_used_align q av uv Hv) as Hal.
        by rewrite <- (Z.mod_mod_divide _ 4 2), Hal by (by exists 2). }
    cbn [w_mem]. rewrite w_mem_idle. split.
    + intros x Hx. apply peek_poke_out. rewrite length_le_bytes. unfold apart in Hap. lia.
    + intros _ _. unfold avail_event_of.
      replace (s_ptr uv + (q_used q + 4 + q_size q * 8 - q_used q)) with
        (s_ptr uv + 4 + 8 * q_size q) by lia.
      rewrite <- (length_le_bytes 2 (q_last_avail q)) at 2. rewrite peek_range_poke_same.
      apply le_val_le_bytes. apply (qo_last q Hq).
  - rewrite (write_at_readonly pm idle Hpm (q_used q) (used_ring_bytes q) uv);
      rewrite ?length_le_bytes; try done; try lia. apply Hv.
Qed.

(** The drain that [drain_avail] promises when the guest does not interfere. *)
Lemma drain_fifo_spec fuel max q s w :
  tame trace av (avail_ring_bytes q) each -> draining q w -> apart q ->
  (forall k, (k < pending q av hm0)%nat -> head_at q av hm0 k < q_size q) ->
  let k := Nat.min (pending q av hm0) max in
  exists q' s' w',
    drain_avail pm idle (Datatypes.S fuel) each max q s w = Some (k, q', s', w') /\
    trace s' = trace s ++ offered q k /\
    q_last_avail q' = wadd 16 (q_last_avail q) (Z.of_nat k) /\
    (q_event_idx q = true -> contains (s_prot uv) WRITE = true ->
     avail_event_of q uv (w_mem w') = q_last_avail q').
Proof.
  intros Ht Hd Hap Hh k. unfold drain_avail. cbn [drain_loop]. rewrite Nat.sub_0_r.
  destruct (drain_pass_fifo _ max q s w Ht Hd eq_refl Hh)
    as (q1 & s1 & w1 & -> & Hd1 & Hs1 & Hl1 & Htr1). fold k in Hl1, Htr1 |- *.
  destruct (ring_same_bytes q q1 Hs1) as (Hb1 & Hb2 & _).
  destruct (update_event_spec q1 w1) as [Hag Hev]; [apply Hd1|apply Hd1| |].
  { unfold apart. by rewrite Hb1, Hb2. }
  rewrite Nat.add_0_l. set (w2 := update_used_event pm idle q1 w1) in *.
  assert (Hev' : q_event_idx q = true -> contains (s_prot uv) WRITE = true ->
     avail_event_of q uv (w_mem w2) = q_last_avail q1).
  { intros He Hw. rewrite <- Hev by (rewrite ?(rs_event _ _ Hs1); done).
    unfold avail_event_of. by rewrite (rs_size _ _ Hs1). }
  unfold queue_drain_should_stop.
  destruct (q_last_avail q1 =? q_last_avail q) eqn:Hsame; [by eexists _, _, _|].
  destruct (max <=? k)%nat eqn:Hcap; [by eexists _, _, _|]. cbn [orb].
  assert (Hk : k = pending q av hm0) by (apply Nat.leb_gt in Hcap; lia).
  unfold has_new_avail. destruct (q_event_idx q1); [|by eexists _, _, _].
  rewrite (proj1 (validate_views q1 (dr_valid _ _ Hd1))). cbn [negb orb].
  pose proof (checked_bounds q1 av uv (dr_ok _ _ Hd1) (dr_views _ _ Hd1)) as (? & ? & ? & Hlt & _ & ?).
  unfold avail_ring_bytes in Hlt. rewrite wadd_small by lia.
  rewrite (read_avail_at q1 av uv (dr_ok _ _ Hd1) (dr_views _ _ Hd1));
    [|lia|unfold avail_ring_bytes; lia|done].
  rewrite w_mem_idle. fold (avail_idx_of av (w_mem w2)).
  destruct (agree_avail q1 av hm0 (w_mem w2)) as [-> _]; [lia| |].
  { intros x Hx. rewrite (Hag x Hx). by apply (dr_mem _ _ Hd1). }
  replace (avail_idx_of av hm0 =? q_last_avail q1) with true; [by eexists _, _, _|].
  symmetry. apply Z.eqb_eq. rewrite Hl1, Hk. unfold pending.
  pose proof (avail_idx_uint av hm0 Hbytes) as Hi. unfold uint in Hi.
  destruct (wsub_spec 16 (avail_idx_of av hm0) (q_last_avail q)) as (z & Hz & ?); [lia|].
  rewrite Z2Nat.id by lia. unfold wadd.
  replace (q_last_avail q + _) with (avail_idx_of av hm0 + (- z) * 2 ^ 16) by lia.
  rewrite Z.mod_add by lia. symmetry. by apply Z.mod_small.
Qed.

End drain.

(** ** Draining against a guest that keeps adding *)

Section busy.
Context {S : Type} (each : visitor S) (av uv : SubMapping) (g : guest).

Record live (q : VirtQueue) : Prop := {
  lv_ok : q_ok q;
  lv_views : views q av uv;
  lv_valid : validate_addrs pm q = Ok tt;
  lv_cache : q_addrs_ok q <> Some false
}.

Lemma live_same q q' : live q -> ring_same q q' -> q_ok q' -> live q'.
Proof.
  intros [Hq Hv Hval Hc] Hs Hq'. destruct (ring_same_bytes q q' Hs) as (_ & _ & Hv').
  split; [done|by apply (ring_same_views q)|congruence|apply Hs].
Qed.

(** The device keeps the rings as they are while it handles a head. *)
Definition keeps : Prop := forall q h s w, q_ok q -> ring_eq q (each q h s w).1.1.

(** The guest never leaves an out-of-range head in its ring. *)
Definition valid_heads (size : Z) : Prop :=
  forall t hm k, 0 <= k < size -> ring_entry av (g t hm) k < size.

Lemma pop_progress q w :
  live q -> valid_heads (q_size q) ->
  let r := pop_avail pm g q w in
  live r.1.2 /\ ring_same q r.1.2 /\
  (r.1.1 = None -> q_last_avail r.1.2 = q_last_avail q).
Proof.
  intros Hlv Hh. pose proof Hlv as [Hq Hv Hval Hc]. pose proof (qo_size q Hq) as [? _].
  assert (Hb : 0 <= q_last_avail q mod q_size q < q_size q) by (apply Z.mod_pos_bound; lia).
  rewrite (pop_checked q av uv) by done. cbv zeta. destruct (_ =? _); cbn [fst snd].
  - split_and!; try done. apply (live_same q); try done. by destruct Hq.
  - split_and!; [|done|].
    + apply (live_same q); try done. apply q_ok_set_last; [by destruct Hq|by apply uint_wadd].
    + pose proof (Hh (w_time (turn g w)) (w_mem (turn g w)) _ Hb : ring_entry av
        (w_mem (turn g (turn g w))) (q_last_avail q mod q_size q) < q_size q) as Hlt.
      set (h := ring_entry av (w_mem (turn g (turn g w))) _) in *.
      by destruct (Z.leb_spec (q_size q) h); [lia|].
Qed.

Lemma pass_progress room q s w :
  keeps -> live q -> valid_heads (q_size q) ->
  exists n q' s' w', drain_pass pm g each room q s w = (n, q', s', w') /\ (n <= room)%nat /\
    live q' /\ ring_same q q' /\ (n = 0%nat -> q_last_avail q' = q_last_avail q).
Proof.
  intros Hk. revert q s w. induction room as [|room IH]; intros q s w Hl Hh; cbn [drain_pass].
  { exists 0%nat, q, s, w. split_and!; try done. split; try done. apply Hl. }
  destruct (pop_progress q w Hl Hh) as (Hl1 & Hs1 & Hn1).
  destruct (pop_avail pm g q w) as [[[h|] q1] w1]; cbn [fst snd] in *.
  2:{ exists 0%nat, q1, s, w1. split_and!; try done; [lia|]. intros _. by apply Hn1. }
  specialize (Hk q1 h s w1 (lv_ok _ Hl1)). destruct (each q1 h s w1) as [[q2 s2] w2].
  cbn [fst] in Hk. destruct Hk as [Heq Hsh].
  assert (Hs2 : ring_same q1 q2) by (rewrite Heq; split; try done; apply Hl1).
  assert (Hl2 : live q2).
  { apply (live_same q1); try done. rewrite Heq. pose proof (lv_ok _ Hl1) as []. by split. }
  destruct (IH q2 s2 w2 Hl2) as (n & q3 & s3 & w3 & -> & ? & Hl3 & Hs3 & _).
  { by rewrite (rs_size _ _ Hs2), (rs_size _ _ Hs1). }
  exists (Datatypes.S n), q3, s3, w3. split_and!; [done|lia|done| |done].
  eapply ring_same_trans; [exact Hs1|]. by eapply ring_same_trans.
Qed.

Lemma drain_loop_ends fuel max popped q s w :
  keeps -> live q -> valid_heads (q_size q) -> (popped <= max)%nat -> (max - popped < fuel)%nat ->
  exists n q' s' w', drain_loop pm g fuel each max popped q s w = Some (n, q', s', w') /\
    (n <= max)%nat.
Proof.
  intros Hk. revert popped q s w. induction fuel as [|fuel IH]; intros popped q s w Hl Hh Hle Hf; [lia|].
  cbn [drain_loop].
  destruct (pass_progress (max - popped) q s w Hk Hl Hh)
    as (n & q1 & s1 & w1 & -> & Hn & Hl1 & Hs1 & Hz).
  set (w2 := update_used_event pm g q1 w1). unfold queue_drain_should_stop.
  destruct (Z.eqb_spec (q_last_avail q1) (q_last_avail q)) as [|Hne]; cbn [orb].
  { eexists _, _, _, _. split; [done|]. lia. }
  destruct (Nat.leb_spec max (popped + n)); cbn [orb].
  { eexists _, _, _, _. split; [done|]. lia. }
  destruct (has_new_avail pm g q1 w2) as [[] w3]; cbn [negb].
  - apply IH; try done; [by rewrite (rs_size _ _ Hs1)|lia|].
    destruct n; [by destruct Hne; apply Hz|lia].
  - eexists _, _, _, _. split; [done|]. lia.
Qed.

End busy.

(** ** The used ring *)

Section used.
Context (u size ev : Z) (uv : SubMapping).
Context (Hu : 0 <= u) (Hal : u mod 4 = 0) (Hsz : size_ok size) (Hev : 0 <= ev).
Context (Huv : gm_lookup pm u (4 + size * 8 + ev) = Some uv).
Context (Hw : contains (s_prot uv) WRITE = true).

(** The index and the entries as the driver reads them. *)
Definition used_idx_of (hm : hostmem) : Z := le_val (peek_range hm (s_ptr uv + 2) 2).
Definition used_entry (hm : hostmem) (k : Z) : Z * Z :=
  (le_val (peek_range hm (s_ptr uv + 4 + 8 * k) 4),
   le_val (peek_range hm (s_ptr uv + 8 + 8 * k) 4)).

(** What one used entry does to memory. *)
Definition used_poke (hm : hostmem) (idx d n : Z) : hostmem :=
  poke_range (poke_range (poke_range hm (s_ptr uv + 4 + 8 * (idx mod size)) (le_bytes 4 d))
    (s_ptr uv + 8 + 8 * (idx mod size)) (le_bytes 4 n))
    (s_ptr uv + 2) (le_bytes 2 (wadd 16 idx 1)).

Lemma used_bounds : 0 < size <= 32768 /\ u + (4 + size * 8 + ev) < 2 ^ 64.
Proof.
  destruct Hsz as [? _]. unfold MAX_QUEUE_SIZE in *.
  destruct (gm_view pm u (4 + size * 8 + ev) uv) as (_ & ? & _); [done|done|lia|done|]. lia.
Qed.

Lemma used_slot idx : 0 <= idx mod size < size.
Proof. pose proof used_bounds. apply Z.mod_pos_bound. lia. Qed.

Lemma used_align a b : a mod 4 = 0 -> b mod 4 = 0 -> (a + b) mod 4 = 0.
Proof. intros Ha Hb. by rewrite Z.add_mod, Ha, Hb. Qed.

Lemma write_entry_checked idx d n w :
  write_entry pm idle (u + 4 + 8 * (idx mod size)) d n w =
  mkWorld (poke_range (poke_range (w_mem w) (s_ptr uv + 4 + 8 * (idx mod size)) (le_bytes 4 d))
    (s_ptr uv + 8 + 8 * (idx mod size)) (le_bytes 4 n)) (S (S (w_time w))).
Proof.
  pose proof used_bounds as [? ?]. pose proof (used_slot idx) as Hs. set (k := idx mod size) in *.
  destruct (sub_view pm Hpm u (4 + size * 8 + ev) uv Hu Huv (u + 4 + 8 * k) 8)
    as (Hl & _); try lia.
  assert (Hm : is_multiple_of (s_ptr uv + (u + 4 + 8 * k - u)) 4 = true).
  { apply (view_aligned pm Hpm u (4 + size * 8 + ev) uv Hu Huv _ 8); try lia; [by exists 1024|].
    rewrite <- Z.add_assoc. apply used_align; [done|]. apply used_align; [done|].
    replace (8 * k) with (2 * k * 4) by lia. by apply Z.mod_mul. }
  assert (Hm' : is_multiple_of (s_ptr uv + (u + 4 + 8 * k - u) + 4) 4 = true).
  { apply Z.eqb_eq. apply Z.eqb_eq in Hm. by apply used_align. }
  unfold write_entry. rewrite Hl. unfold write, subregion. cbn [s_prot s_len s_ptr].
  rewrite Hw, length_le_bytes, Hm. cbn [negb]. change (8 <? Z.of_nat 4) with false.
  change (checked_add 64 4 4) with (Some 8). cbn [option_bind]. rewrite Z.ltb_irrefl.
  cbn [s_prot s_len s_ptr]. rewrite Hw, length_le_bytes, Hm'. cbn [negb].
  change (4 <? Z.of_nat 4) with false. unfold turn, idle. cbn [w_mem w_time].
  by replace (s_ptr uv + (u + 4 + 8 * k - u)) with (s_ptr uv + 4 + 8 * k) by lia;
    replace (s_ptr uv + 4 + 8 * k + 4) with (s_ptr uv + 8 + 8 * k) by lia.
Qed.

Lemma write_used_checked idx d n w :
  write_used pm idle u size idx d n w =
    mkWorld (used_poke (w_mem w) idx d n) (S (S (S (w_time w)))).
Proof.
  pose proof used_bounds as [? ?]. pose proof (used_slot idx). unfold write_used.
  rewrite wmul_small, (wadd_small _ u 4) by lia. rewrite (wadd_small _ (u + 4)) by lia.
  rewrite (Z.mul_comm (idx mod size) 8), write_entry_checked. unfold write_u16.
  rewrite wadd_small by lia.
  rewrite (write_at_view pm idle Hpm u (4 + size * 8 + ev) uv);
    rewrite ?length_le_bytes; try done; try lia; [|by exists 2048|].
  - rewrite w_mem_idle. cbn [w_mem w_time]. unfold used_poke.
    by replace (s_ptr uv + (u + 2 - u)) with (s_ptr uv + 2) by lia.
  - apply mod2_add; [|done]. by rewrite <- (Z.mod_mod_divide _ 4 2), Hal by (by exists 2).
Qed.

Lemma used_poke_spec hm idx d n :
  uint 32 d -> uint 32 n ->
  used_idx_of (used_poke hm idx d n) = wadd 16 idx 1 /\
  used_entry (used_poke hm idx d n) (idx mod size) = (d, n) /\
  (forall k, 0 <= k -> k <> idx mod size ->
     used_entry (used_poke hm idx d n) k = used_entry hm k) /\
  (forall x, x < s_ptr uv + 2 \/ s_ptr uv + 4 + 8 * size <= x ->
     peek (used_poke hm idx d n) x = peek hm x).
Proof.
  intros Hd Hn. pose proof (used_slot idx) as Hs. unfold used_poke, used_idx_of, used_entry.
  set (j := idx mod size) in *. assert (Hlen : forall m z, Z.of_nat (length (le_bytes m z)) = Z.of_nat m)
    by (intros; by rewrite length_le_bytes).
  assert (Hself : forall hm a m z, 0 <= z < 2 ^ (8 * Z.of_nat m) ->
    le_val (peek_range (poke_range hm a (le_bytes m z)) a m) = z).
  { intros hm' a m z Hz. rewrite <- (length_le_bytes m z) at 2. rewrite peek_range_poke_same.
    by apply le_val_le_bytes. }
  split_and!.
  - apply Hself. by apply uint_wadd.
  - f_equal.
    + rewrite !(peek_range_poke_disjoint _ _ _ (s_ptr uv + 4 + 8 * j)) by (rewrite Hlen; lia).
      by apply Hself.
    + rewrite (peek_range_poke_disjoint _ (s_ptr uv + 2)) by (rewrite Hlen; lia). by apply Hself.
  - intros k Hk Hne. f_equal; by rewrite !peek_range_poke_disjoint by (rewrite Hlen; lia).
  - intros x Hx. by rewrite !peek_poke_out by (rewrite Hlen; lia).
Qed.

Lemma slot_wrap i : wadd 16 i 0 mod size = i mod size /\ forall j, wadd 16 i j mod size = (i + j) mod size.
Proof.
  destruct Hsz as [Hle (k & Hk & Hpow)%is_power_of_two_pow]. unfold MAX_QUEUE_SIZE in Hle.
  assert (Hdiv : (size | 2 ^ 16)).
  { exists (2 ^ (16 - k)). rewrite Hpow, <- Z.pow_add_r; [f_equal; lia| |done].
    destruct (Z.le_gt_cases k 16); [lia|]. assert (2 ^ 16 <= 2 ^ k) by (apply Z.pow_le_mono_r; lia). lia. }
  assert (Hj : forall j, wadd 16 i j mod size = (i + j) mod size)
    by (intros j; unfold wadd; by apply Z.mod_mod_divide).
  split; [|done]. rewrite Hj. f_equal. lia.
Qed.

(** Fewer than [size] entries apart, two indices name different slots. *)
Lemma slot_distinct i j : 0 < j < size -> wadd 16 i j mod size <> i mod size.
Proof.
  intros Hj. rewrite (proj2 (slot_wrap i)). intros Heq.
  assert (Hm : ((i + j) - i) mod size = 0) by (by rewrite Zminus_mod, Heq, Z.sub_diag).
  replace (i + j - i) with j in Hm by lia. rewrite Z.mod_small in Hm by lia. lia.
Qed.

Import completion.

Lemma used_entries_spec es c w :
  used_addr c = u -> queue_size c = size -> uint 16 (write_idx c) ->
  Forall (fun e => uint 32 e.1 /\ uint 32 e.2) es -> Z.of_nat (length es) <= size ->
  exists w', write_used_entries pm idle c es w =
      (set_write_idx c (wadd 16 (write_idx c) (Z.of_nat (length es))), w') /\
    (forall j e, es !! j = Some e ->
       used_entry (w_mem w') (wadd 16 (write_idx c) (Z.of_nat j) mod size) = e) /\
    (forall k, 0 <= k ->
       (forall j, (j < length es)%nat -> k <> wadd 16 (write_idx c) (Z.of_nat j) mod size) ->
       used_entry (w_mem w') k = used_entry (w_mem w) k) /\
    used_idx_of (w_mem w') = (if decide (es = []) then used_idx_of (w_mem w)
      else wadd 16 (write_idx c) (Z.of_nat (length es))).
Proof.
  revert c w. induction es as [|e es IH]; intros c w Hua Hqs Hi Hes Hlen; cbn [write_used_entries].
  { exists w. split_and!; try done. unfold set_write_idx. change (Z.of_nat _) with 0.
    rewrite wadd_small, Z.add_0_r by (unfold uint in Hi; lia). by destruct c. }
  apply Forall_cons in Hes as [[He1 He2] Hes]. unfold write_used_entry.
  rewrite Hua, Hqs, write_used_checked.
  set (i := write_idx c) in *. set (c1 := set_write_idx c (wadd 16 i 1)).
  set (w1 := mkWorld (used_poke (w_mem w) i e.1 e.2) _).
  destruct (used_poke_spec (w_mem w) i e.1 e.2 He1 He2) as (Hidx & Hent & Hoth & _).
  cbn [length] in Hlen.
  destruct (IH c1 w1) as (w' & -> & Hin & Hout & Hidx'); try done; [by apply uint_wadd|lia|].
  cbn [write_idx set_write_idx c1] in Hin, Hout, Hidx' |- *. exists w'.
  assert (Hslot : forall j, wadd 16 (wadd 16 i 1) (Z.of_nat j) = wadd 16 i (Z.of_nat (S j))).
  { intros j. rewrite wadd_wadd by lia. f_equal. lia. }
  rewrite Hslot in Hidx'. rewrite Hslot. split_and!.
  - done.
  - intros [|j] e' Hj; cbn in Hj; [|rewrite <- Hslot; by apply Hin].
    injection Hj as <-. change (Z.of_nat 0) with 0. rewrite (proj1 (slot_wrap i)).
    rewrite Hout; [|apply used_slot|]; [unfold w1; cbn [w_mem]; rewrite Hent; by destruct e|].
    intros j Hj. rewrite Hslot. apply not_eq_sym, slot_distinct. lia.
  - intros k Hk Hne. rewrite Hout; [|done|].
    + apply Hoth; [done|]. rewrite <- (proj1 (slot_wrap i)). apply (Hne 0%nat). simpl. lia.
    + intros j Hj. rewrite Hslot. apply Hne. simpl. lia.
  - rewrite Hidx'. by destruct es.
Qed.

End used.
End rings.

(** Asking the driver writes nothing. *)
Lemma wants_interrupt_mem `{GuestMap P} (pm : P) e a size new old w :
  w_mem (wants_interrupt pm idle e a size new old w).2 = w_mem w.
Proof.
  unfold wants_interrupt. destruct (negb e).
  - destruct (a =? 0); [done|]. pose proof (read_u16_world pm idle a w) as Hr.
    destruct (read_u16 _ _ _ _) as [[f|] w1]; simpl in *; by subst w1.
  - pose proof (read_u16_world pm idle (wadd 64 (wadd 64 a 4) (wmul 64 size 2)) w) as Hr.
    destruct (read_u16 _ _ _ _) as [[f|] w1]; simpl in *; by subst w1.
Qed.

(** ** Forced interrupts *)

Section forced.
Context `{GuestMap P} (pm : P) (g : guest).
Import completion.

(** The answers of a sequence of completions, in the order their threads
    reached the counter. *)
Fixpoint interrupts (c : VirtioCompletion) (moves : list (Z * Z)) (w : world) :
    list bool * VirtioCompletion * world :=
  match moves with
  | [] => ([], c, w)
  | m :: moves =>
      let '(b, c, w) := should_interrupt pm g c m.1 m.2 w in
      let '(bs, c, w) := interrupts c moves w in
      (b :: bs, c, w)
  end.

(** The driver has moved its event index out of reach. *)
Definition suppressed (c : VirtioCompletion) : Prop :=
  forall old new w, (wants_interrupt pm g (event_idx c) (avail_addr c) (queue_size c) new old w).1
    = false.

Lemma interrupts_spec moves c w :
  suppressed c -> 0 <= force_intr_count c ->
  let f := Z.to_nat (force_intr_count c) in
  (interrupts c moves w).1.1 =
    replicate (Nat.min f (length moves)) true ++ replicate (length moves - f) false /\
  force_intr_count (interrupts c moves w).1.2 =
    force_intr_count c - Z.of_nat (Nat.min f (length moves)).
Proof.
  revert c w. induction moves as [|m moves IH]; intros c w Hs Hf; cbn [interrupts].
  { rewrite Nat.min_0_r. simpl. split; [done|lia]. }
  unfold should_interrupt, checked_sub. destruct (Z.leb_spec 1 (force_intr_count c)).
  - set (c1 := set_force_interrupt c (force_intr_count c - 1)).
    destruct (IH c1 w) as [IH1 IH2]; [done|simpl; lia|]. cbn [force_intr_count c1 set_force_interrupt] in *.
    destruct (interrupts c1 moves w) as [[bs c'] w']. cbn [fst snd length] in *.
    replace (Z.to_nat (force_intr_count c)) with (S (Z.to_nat (force_intr_count c - 1))) by lia.
    cbn [Nat.min replicate Nat.sub]. rewrite IH1, IH2. split; [done|lia].
  - pose proof (Hs m.1 m.2 w) as Hw.
    destruct (wants_interrupt pm g _ _ _ m.2 m.1 w) as [b w1]. cbn [fst] in Hw. subst b.
    destruct (IH c w1) as [IH1 IH2]; [done|done|].
    destruct (interrupts c moves w1) as [[bs c'] w']. cbn [fst snd length] in *.
    replace (Z.to_nat (force_intr_count c)) with 0%nat in * by lia.
    cbn [Nat.min replicate Nat.sub app] in *. rewrite IH1, IH2.
    rewrite Nat.sub_0_r. simpl. split; [done|lia].
Qed.

End forced.

End queue_inv.
