(* ===== verification/VirtQueueThm.v ===== *)
(** * The virtqueue theorems

    What the lemmas of [VirtQueueInv] add up to, each with an instance on a
    concrete [PhysMap] of two abutting RAM regions. *)

From S2P Require Import Prelude Mapping PhysMap PhysMapInv GuestMem VirtQueue VirtQueueInv.

Module queue_thm.
Import mapping guestmem queue queue_inv completion.

(** ** A ring in guest memory *)

Definition ram : physmap.PhysMap := physmap_inv.example_pm.

Lemma ram_ok : gm_ok ram.
Proof. exact (physmap_inv.reach_wf _ physmap_inv.example_reachable). Qed.

(** Four descriptors at 0x1000, the rings after them; EVENT_IDX negotiated. *)
Definition q4 : VirtQueue :=
  set_addr_modern (mkQueue 4 256 0 0 0 0 0 true true None) 0x1000 0x1040 0x1080.

Definition av4 : SubMapping := mkSub 0x41040 14 RWX.
Definition uv4 : SubMapping := mkSub 0x41080 38 RWX.

(** Descriptor 0 leads to descriptor 2; the driver offers heads 0 and 2. *)
Definition mem4 : hostmem :=
  poke_range (poke_range (poke_range ∅ 0x41000
    (le_bytes 8 0x2000 ++ le_bytes 4 16 ++ le_bytes 2 1 ++ le_bytes 2 2))
    0x41020 (le_bytes 8 0x2100 ++ le_bytes 4 32 ++ le_bytes 2 2 ++ le_bytes 2 0))
    0x41040 (le_bytes 2 0 ++ le_bytes 2 2 ++ le_bytes 2 0 ++ le_bytes 2 2).

Lemma q4_ok : q_ok q4.
Proof. split; done. Qed.

Lemma q4_valid : validate_addrs ram q4 = Ok tt.
Proof. vm_compute. reflexivity. Qed.

Lemma q4_views : views ram q4 av4 uv4.
Proof. split; vm_compute; reflexivity. Qed.

Lemma poke_bytes hm a data :
  (forall x b, hm !! x = Some b -> uint 8 b) -> is_bytes data ->
  forall x b, poke_range hm a data !! x = Some b -> uint 8 b.
Proof.
  revert hm a. induction data as [|d data IH]; intros hm a Hm Hd x b; [apply Hm|].
  apply Forall_cons in Hd as [Hd Hds]. simpl. apply IH; [|done].
  intros y c. destruct (decide (y = a)) as [->|].
  - rewrite lookup_insert_eq. by intros [= <-].
  - rewrite lookup_insert_ne by done. apply Hm.
Qed.

Lemma mem4_bytes x b : mem4 !! x = Some b -> uint 8 b.
Proof.
  revert x b. repeat apply poke_bytes; try (by repeat constructor).
Qed.

(** ** Configuration *)

(** From a new queue, whatever the driver programs and the device does,
    the ring size stays a power of two no larger than the device offered, the
    indices stay 16-bit, a cached address verdict is what a fresh check would
    say, and the size of a programmed ring does not change while it stays
    programmed. *)
Theorem queue_invariant `{GuestMap P} (pm : P) size q0 q :
  uint 16 size -> queue_new size = Some q0 -> rtc (qstep pm) q0 q ->
  q_ok q /\ cache_ok pm q /\
  forall q', qstep pm q q' -> is_configured q = true -> is_configured q' = true ->
    q_size q' = q_size q.
Proof.
  intros Hs Hnew Hr.
  assert (H0 : q_ok q0 /\ cache_ok pm q0).
  { unfold queue_new in Hnew. destruct (negb _) eqn:E; [done|].
    destruct (Z.ltb_spec MAX_QUEUE_SIZE size); [done|]. injection Hnew as <-.
    apply negb_false_iff, andb_true_iff in E as [Hpos%Z.ltb_lt Hp].
    assert (size_ok size) by (split; [lia|done]). split; [split; simpl; done || lia|done]. }
  clear Hnew. induction Hr as [q|x y z Hxy _ IH].
  - destruct H0. split_and!; try done. intros q' Hq. by apply (qstep_size pm).
  - apply IH. destruct H0. by apply (qstep_ok pm x y).
Qed.

Lemma queue_invariant_witness :
  q_ok (reset (mkQueue 256 256 0 0 0 0 0 false false None)) /\
  cache_ok ram (reset (mkQueue 256 256 0 0 0 0 0 false false None)) /\
  forall q', qstep ram (reset (mkQueue 256 256 0 0 0 0 0 false false None)) q' ->
    is_configured (reset (mkQueue 256 256 0 0 0 0 0 false false None)) = true ->
    is_configured q' = true -> q_size q' = 256.
Proof.
  apply (queue_invariant ram 256 (mkQueue 256 256 0 0 0 0 0 false false None)).
  - done.
  - reflexivity.
  - apply rtc_once, qs_reset.
Defined.

(** The legacy page frame number puts the three rings in one area
    without overlap or wrap: descriptors at the page, the available ring right
    after them, the used ring at the first page boundary past it, each aligned
    as VirtIO asks; and reading the register back gives the number written. *)
Theorem legacy_layout q n :
  q_ok q -> 0 < n < 2 ^ 32 ->
  let q' := set_addr_legacy q n in
  pfn q' = n /\ q_desc q' + desc_table_bytes q' = q_avail q' /\
  q_avail q' + avail_ring_bytes q' <= q_used q' /\
  q_used q' < q_avail q' + 6 + 2 * q_size q' + PAGE_SIZE /\
  q_used q' + used_ring_bytes q' < 2 ^ 64 /\
  q_desc q' mod ring_align Desc = 0 /\ q_avail q' mod ring_align Avail = 0 /\
  q_used q' mod PAGE_SIZE = 0.
Proof.
  intros Hq Hn. destruct (legacy_addrs q n Hq Hn) as (Hd & Ha & Hu & Hs & Hb). cbv zeta.
  unfold pfn, desc_table_bytes, avail_ring_bytes, used_ring_bytes.
  assert (He : 0 <= event_field_bytes (set_addr_legacy q n) <= 2)
    by (unfold event_field_bytes; case_match; lia).
  rewrite Hd, Ha, Hu, Hs. unfold PAGE_SIZE in *.
  destruct (align_up_page (n * 4096 + q_size q * 16 + 6 + q_size q * 2)) as [Hr Hm];
    unfold PAGE_SIZE in *; [lia|].
  split_and!; try lia; try done.
  - destruct (Z.eqb_spec (n * 4096) 0); [lia|]. rewrite Z.div_mul by done.
    by apply as_u_small; unfold uint; lia.
  - simpl. replace (n * 4096) with (n * 256 * 16) by lia. by apply Z.mod_mul.
  - simpl. replace (n * 4096 + q_size q * 16) with ((n * 2048 + q_size q * 8) * 2) by lia.
    by apply Z.mod_mul.
Qed.

Lemma legacy_layout_witness :
  let q' := set_addr_legacy q4 5 in
  pfn q' = 5 /\ q_desc q' + desc_table_bytes q' = q_avail q' /\
  q_avail q' + avail_ring_bytes q' <= q_used q' /\
  q_used q' < q_avail q' + 6 + 2 * q_size q' + PAGE_SIZE /\
  q_used q' + used_ring_bytes q' < 2 ^ 64 /\
  q_desc q' mod ring_align Desc = 0 /\ q_avail q' mod ring_align Avail = 0 /\
  q_used q' mod PAGE_SIZE = 0.
Proof. apply (legacy_layout q4 5); [apply q4_ok|lia]. Defined.

(** The 16-bit comparison behind interrupt suppression asks for an
    interrupt exactly when the driver's event index is one of the used indices
    the device just filled, whether or not the index wrapped. *)
Theorem vring_need_event_correct event new old :
  uint 16 event -> uint 16 new -> uint 16 old ->
  vring_need_event event new old = true <->
  exists k, 0 <= k < wsub 16 new old /\ wadd 16 old k = event.
Proof. apply need_event_spec. Qed.

Lemma vring_need_event_correct_witness :
  vring_need_event 65535 2 65530 = true <->
  exists k, 0 <= k < wsub 16 2 65530 /\ wadd 16 65530 k = 65535.
Proof. apply (vring_need_event_correct 65535 2 65530); done. Defined.

(** ** Descriptor chains *)

(** Whatever the guest does to memory while the device walks, a chain
    takes at most [size + 1] guest accesses and names at most [size] buffers;
    no loop of descriptors, direct or indirect, keeps the device busy. *)
Theorem collect_chain_bounded `{GuestMap P} (pm : P) (g : guest) q head w :
  let r := collect_chain pm g q head w in
  (w_time r.2 <= w_time w + S (Z.to_nat (q_size q)))%nat /\
  forall bufs, r.1 = Some bufs -> (1 <= length bufs <= Z.to_nat (q_size q))%nat.
Proof. apply collect_loop_bound. Qed.

(** C8: on memory that holds still, the walk returns exactly the requests
    VirtIO 1.3 sec 2.7.5 describes: a list of direct descriptors linked by
    NEXT, no longer than the ring, that ends in a direct descriptor or, when
    the feature is negotiated, in one indirect table whose length is a
    multiple of 16 and fits in what is left of the ring. *)
Theorem collect_chain_refines `{GuestMap P} (pm : P) q hm t head bufs :
  q_ok q ->
  (collect_chain pm idle q head (mkWorld hm t)).1 = Some bufs <->
  request pm q hm (q_size q) head bufs.
Proof.
  intros Hq. unfold collect_chain. rewrite collect_loop_refines.
  by rewrite Z2Nat.id by (pose proof (qo_size q Hq) as [? _]; lia).
Qed.

Lemma collect_chain_refines_witness :
  (collect_chain ram idle q4 0 (mkWorld mem4 0)).1 =
    Some [Readable 0x2000 16; Writable 0x2100 32] <->
  request ram q4 mem4 4 0 [Readable 0x2000 16; Writable 0x2100 32].
Proof. apply (collect_chain_refines ram q4 mem4 0 0). exact q4_ok. Defined.

(** ** Draining the available ring *)

Definition record_head : visitor (list Z) := fun q h s w => (q, s ++ [h], w).

(** C13: suppose the guest holds still, the rings are valid and do not
    overlap, every head the driver has offered is below the size of the
    queue, and the device's visitor leaves the available ring alone. Then a
    drain hands the device the heads the driver offered, in order and each
    once, up to the cap; it moves the index past exactly those and, with
    EVENT_IDX, leaves [avail_event] at the index the next kick must come
    from. One pass is enough. *)
Theorem drain_avail_fifo `{GuestMap P} (pm : P) {S} (trace : S -> list Z) (each : visitor S)
    q av uv s w max :
  gm_ok pm -> q_ok q -> validate_addrs pm q = Ok tt -> q_addrs_ok q <> Some false ->
  views pm q av uv -> apart av uv q ->
  (forall x b, w_mem w !! x = Some b -> uint 8 b) ->
  tame trace av (avail_ring_bytes q) each ->
  (forall k, (k < pending q av (w_mem w))%nat -> head_at q av (w_mem w) k < q_size q) ->
  let k := Nat.min (pending q av (w_mem w)) max in
  exists q' s' w',
    drain_avail pm idle 1 each max q s w = Some (k, q', s', w') /\
    trace s' = trace s ++ (head_at q av (w_mem w) <$> seq 0 k) /\
    q_last_avail q' = wadd 16 (q_last_avail q) (Z.of_nat k) /\
    (q_event_idx q = true -> contains (s_prot uv) WRITE = true ->
     avail_event_of q uv (w_mem w') = q_last_avail q').
Proof.
  intros Hpm Hq Hval Hc Hv Hap Hb Ht Hh.
  by apply (drain_fifo_spec pm Hpm trace each av uv (w_mem w) Hb 0 max q s w).
Qed.

Lemma drain_avail_fifo_witness :
  exists q' s' w',
    drain_avail ram idle 1 record_head 8 q4 [] (mkWorld mem4 0) = Some (2%nat, q', s', w') /\
    s' = [0; 2] /\ q_last_avail q' = 2 /\
    (true = true -> contains RWX WRITE = true ->
     avail_event_of q4 uv4 (w_mem w') = q_last_avail q').
Proof.
  apply (drain_avail_fifo ram (fun s => s) record_head q4 av4 uv4 [] (mkWorld mem4 0) 8).
  - exact ram_ok.
  - exact q4_ok.
  - exact q4_valid.
  - done.
  - exact q4_views.
  - left. vm_compute. discriminate.
  - exact mem4_bytes.
  - intros q h s w Hq. split; [|done]. split; [by destruct q|apply Hq].
  - intros k Hk. change (pending _ _ _) with 2%nat in Hk.
    destruct k as [|[|k]]; [vm_compute; reflexivity..|lia].
Defined.

(** A drain ends and takes no more than its cap of heads even while the
    guest keeps adding, provided every head the guest leaves in its ring is in
    range. *)
Theorem drain_avail_ends `{GuestMap P} (pm : P) {S} (each : visitor S) (g : guest)
    q av uv s w max :
  gm_ok pm -> q_ok q -> validate_addrs pm q = Ok tt -> q_addrs_ok q <> Some false ->
  views pm q av uv -> keeps each -> valid_heads av g (q_size q) ->
  exists n q' s' w',
    drain_avail pm g (Datatypes.S max) each max q s w = Some (n, q', s', w') /\ (n <= max)%nat.
Proof.
  intros Hpm Hq Hval Hc Hv Hk Hh.
  apply (drain_loop_ends pm Hpm each av uv g); [done| |done|lia|lia]. by split.
Qed.

(** A guest that offers head 1 again before every access of the device. *)
Definition adding_guest : guest := fun t hm =>
  poke_range hm 0x41042 (le_bytes 2 (Z.of_nat t mod 2 ^ 16) ++
    le_bytes 2 1 ++ le_bytes 2 1 ++ le_bytes 2 1 ++ le_bytes 2 1).

Lemma adding_guest_valid : valid_heads av4 adding_guest 4.
Proof.
  intros t hm k Hk.
  assert (Heq : ring_entry av4 (adding_guest t hm) k = 1); [|lia].
  unfold ring_entry, adding_guest. cbn [s_ptr av4].
  replace (0x41040 + 4 + 2 * k) with (0x41042 + Z.of_nat (2 + Z.to_nat (2 * k))) by lia.
  rewrite peek_range_poke_in by (rewrite !length_app, !length_le_bytes; lia).
  assert (k = 0 \/ k = 1 \/ k = 2 \/ k = 3) as [-> |[-> |[-> | ->]]] by lia; reflexivity.
Qed.

Lemma drain_avail_ends_witness :
  exists n q' s' w',
    drain_avail ram adding_guest 9 record_head 8 q4 [] (mkWorld mem4 0) = Some (n, q', s', w') /\
    (n <= 8)%nat.
Proof.
  apply (drain_avail_ends ram record_head adding_guest q4 av4 uv4 [] (mkWorld mem4 0) 8).
  - exact ram_ok.
  - exact q4_ok.
  - exact q4_valid.
  - done.
  - exact q4_views.
  - intros q h s w Hq. split; [by destruct q|apply Hq].
  - exact adding_guest_valid.
Defined.

(** A guest that offers one more out-of-range head before every access. *)
Definition hostile_guest : guest := fun t hm =>
  poke_range hm 0x41012 (le_bytes 2 (wadd 16 (Z.of_nat t / 4) 2) ++ le_bytes 2 0xffff).

(** A ring of one entry at [last], checked. *)
Definition q1 (last : Z) : VirtQueue := mkQueue 1 1 0x1000 0x1010 0x1020 last 0 true false (Some true).
Definition av1 : SubMapping := mkSub 0x41010 8 RWX.
Definition uv1 : SubMapping := mkSub 0x41020 14 RWX.

Lemma q1_ok last : uint 16 last -> q_ok (q1 last).
Proof. intros. by split. Qed.

Lemma q1_views last : views ram (q1 last) av1 uv1.
Proof. split; vm_compute; reflexivity. Qed.

Lemma hostile_reads t hm :
  avail_idx_of av1 (hostile_guest t hm) = wadd 16 (Z.of_nat t / 4) 2 /\
  ring_entry av1 (hostile_guest t hm) 0 = 0xffff.
Proof.
  unfold avail_idx_of, ring_entry, hostile_guest. cbn [s_ptr av1]. split.
  - change (0x41010 + 2) with (0x41012 + Z.of_nat 0). rewrite peek_range_poke_in by (simpl; lia).
    rewrite drop_0, take_app_length' by done. apply le_val_le_bytes. by apply uint_wadd.
  - change (0x41010 + 4 + 2 * 0) with (0x41012 + Z.of_nat 2).
    rewrite peek_range_poke_in by (simpl; lia). reflexivity.
Qed.

Lemma wadd_neq k i : 0 < i < 2 ^ 16 -> (wadd 16 k i =? k mod 2 ^ 16) = false.
Proof.
  intros Hi. apply Z.eqb_neq. unfold wadd. intros Heq.
  assert (Hm : ((k + i) - k) mod 2 ^ 16 = 0) by (by rewrite Zminus_mod, Heq, Z.sub_diag).
  replace (k + i - k) with i in Hm by lia. rewrite Z.mod_small in Hm by lia. lia.
Qed.

Definition idx (k : nat) : Z := Z.of_nat k mod 2 ^ 16.

Lemma idx_uint k : uint 16 (idx k).
Proof. apply Z.mod_pos_bound. lia. Qed.

Lemma idx_S k : wadd 16 (idx k) 1 = idx (S k).
Proof. unfold wadd, idx. rewrite Zplus_mod_idemp_l. f_equal. lia. Qed.

Lemma idx_neq k : (idx (S k) =? idx k) = false.
Proof.
  unfold idx at 2. rewrite <- (wadd_neq (Z.of_nat k) 1) by lia. f_equal.
  unfold idx, wadd. f_equal. lia.
Qed.

(** The index the guest shows during the four accesses of pass [k]. *)
Lemma hostile_idx k i hm :
  (i < 4)%nat -> avail_idx_of av1 (hostile_guest (4 * k + i)%nat hm) = wadd 16 (Z.of_nat k) 2.
Proof.
  intros Hi. rewrite (proj1 (hostile_reads _ _)). f_equal.
  replace (Z.of_nat (4 * k + i)) with (Z.of_nat i + Z.of_nat k * 4) by lia.
  rewrite Z.div_add, Z.div_small by lia. lia.
Qed.

Lemma hostile_pop k w :
  w_time w = (4 * k)%nat ->
  exists w', pop_avail ram hostile_guest (q1 (idx k)) w = (None, q1 (idx (S k)), w') /\
    w_time w' = (4 * k + 2)%nat.
Proof.
  intros Ht. exists (turn hostile_guest (turn hostile_guest w)). split; [|simpl; lia].
  rewrite (pop_checked ram ram_ok (q1 (idx k)) av1 uv1 (q1_ok _ (idx_uint k)) (q1_views _)) by done.
  cbv zeta. unfold turn at 1. cbn [w_mem q_last_avail q1 q_size].
  replace (w_time w) with (4 * k + 0)%nat by lia. rewrite hostile_idx by lia.
  rewrite Z.eqb_sym. unfold idx at 1. rewrite wadd_neq by lia. rewrite Z.mod_1_r.
  unfold turn at 1. cbn [w_mem]. rewrite (proj2 (hostile_reads _ _)).
  change (1 <=? 0xffff) with true. cbv iota. by rewrite idx_S.
Qed.

Lemma hostile_more k w :
  w_time w = (4 * k + 3)%nat ->
  exists w', has_new_avail ram hostile_guest (q1 (idx (S k))) w = (true, w') /\
    w_time w' = (4 * S k)%nat.
Proof.
  intros Ht. exists (turn hostile_guest w). split; [|simpl; lia].
  unfold has_new_avail. cbn [q_event_idx q1 negb orb is_configured q_desc Z.eqb].
  change (wadd 64 (q_avail (q1 (idx (S k)))) 2) with (q_avail (q1 (idx (S k))) + 2).
  rewrite (read_avail_at ram ram_ok (q1 (idx (S k))) av1 uv1 (q1_ok _ (idx_uint _)) (q1_views _))
    by (done || lia).
  fold (avail_idx_of av1 (w_mem (turn hostile_guest w))). unfold turn at 1. cbn [w_mem].
  rewrite Ht, hostile_idx by lia. cbn [q_last_avail q1].
  replace (wadd 16 (Z.of_nat k) 2) with (wadd 16 (Z.of_nat (S k)) 1)
    by (unfold wadd; f_equal; lia).
  unfold idx. by rewrite wadd_neq by lia.
Qed.

Lemma hostile_loop fuel k s w :
  w_time w = (4 * k)%nat ->
  drain_loop ram hostile_guest fuel record_head 1 0 (q1 (idx k)) s w = None.
Proof.
  revert k s w. induction fuel as [|fuel IH]; intros k s w Ht; [done|]. cbn [drain_loop].
  change (1 - 0)%nat with 1%nat. cbn [drain_pass].
  destruct (hostile_pop k w Ht) as (w2 & -> & Ht2).
  change (0 + 0)%nat with 0%nat. unfold queue_drain_should_stop.
  change (q_last_avail (q1 ?z)) with z. rewrite idx_neq. cbn [orb Nat.leb].
  set (w3 := update_used_event _ _ _ w2).
  assert (Ht3 : w_time w3 = (4 * k + 3)%nat).
  { unfold w3, update_used_event, write_u16, write_at. cbn [q_event_idx q1 negb].
    destruct (gm_lookup _ _ _); [destruct (write _ _ _ _)|]; simpl; lia. }
  destruct (hostile_more k w3 Ht3) as (w4 & Hm & Ht4).
  rewrite Hm. cbn [negb]. by apply IH.
Qed.

(** An out-of-range head moves the index but counts as no head taken: a guest
    that offers one more such head before every access keeps the loop of
    [drain_avail] going for any number of passes, though the cap is one. *)
Theorem drain_avail_livelock fuel s hm :
  drain_avail ram hostile_guest fuel record_head 1 (q1 0) s (mkWorld hm 0) = None.
Proof. apply (hostile_loop fuel 0). done. Qed.

(** ** The used ring *)

(** A batch of completions leaves the entries in consecutive slots from
    the device's own index on, whatever the guest had written to the used
    index, touches no other slot, and publishes the index past the last. *)
Theorem publish_batch_correct `{GuestMap P} (pm : P) c ev uv es w :
  gm_ok pm -> 0 <= used_addr c -> used_addr c mod 4 = 0 -> size_ok (queue_size c) ->
  0 <= ev -> gm_lookup pm (used_addr c) (4 + queue_size c * 8 + ev) = Some uv ->
  contains (s_prot uv) WRITE = true -> uint 16 (write_idx c) ->
  Forall (fun e => uint 32 e.1 /\ uint 32 e.2) es ->
  0 < Z.of_nat (length es) <= queue_size c ->
  let slot := fun j => wadd 16 (write_idx c) (Z.of_nat j) mod queue_size c in
  exists b c' w',
    publish_batch pm idle c es w = (b, c', w') /\
    write_idx c' = wadd 16 (write_idx c) (Z.of_nat (length es)) /\
    used_idx_of uv (w_mem w') = write_idx c' /\
    (forall j e, es !! j = Some e -> used_entry uv (w_mem w') (slot j) = e) /\
    (forall k, 0 <= k -> (forall j, (j < length es)%nat -> k <> slot j) ->
       used_entry uv (w_mem w') k = used_entry uv (w_mem w) k).
Proof.
  intros Hpm Hu Hal Hsz Hev Huv Hw Hi Hes Hlen slot.
  destruct (used_entries_spec pm Hpm (used_addr c) (queue_size c) ev uv Hu Hal Hsz Hev Huv Hw
    es c w) as (w1 & Hwr & Hin & Hout & Hidx); try done; [lia|].
  destruct es as [|e es]; [simpl in Hlen; lia|]. unfold publish_batch. rewrite Hwr.
  unfold should_interrupt. cbn [write_idx set_write_idx force_intr_count].
  destruct (checked_sub (force_intr_count c) 1) as [n|].
  - eexists _, _, _. split_and!; done.
  - pose proof (wants_interrupt_mem pm (event_idx (set_write_idx c
      (wadd 16 (write_idx c) (Z.of_nat (length (e :: es)))))) (avail_addr c) (queue_size c)
      (wadd 16 (write_idx c) (Z.of_nat (length (e :: es)))) (write_idx c) w1) as Hmem.
    cbn [avail_addr queue_size set_write_idx]. destruct (wants_interrupt _ _ _ _ _ _ _ w1) as [b w2].
    cbn [snd] in Hmem.
    eexists _, _, _. rewrite Hmem. split_and!; done.
Qed.

Definition c4 : VirtioCompletion := mkCompletion 0x1080 0x1040 4 65535 true 0.

Lemma publish_batch_correct_witness :
  exists b c' w',
    publish_batch ram idle c4 [(3, 512); (1, 0)] (mkWorld mem4 0) = (b, c', w') /\
    write_idx c' = 1 /\ used_idx_of uv4 (w_mem w') = write_idx c' /\
    (forall j e, [(3, 512); (1, 0)] !! j = Some e ->
       used_entry uv4 (w_mem w') (wadd 16 65535 (Z.of_nat j) mod 4) = e) /\
    (forall k, 0 <= k -> (forall j, (j < 2)%nat -> k <> wadd 16 65535 (Z.of_nat j) mod 4) ->
       used_entry uv4 (w_mem w') k = used_entry uv4 mem4 k).
Proof.
  apply (publish_batch_correct ram c4 2 uv4 [(3, 512); (1, 0)] (mkWorld mem4 0)); try done.
  - exact ram_ok.
  - repeat constructor; done.
Defined.

(** However many threads complete at once, [set_force_interrupt n] makes
    exactly the next [n] completions interrupt a driver that suppresses them,
    and the counter never wraps. *)
Theorem forced_interrupts_exact `{GuestMap P} (pm : P) (g : guest) c n moves w :
  suppressed pm g c -> uint 32 n ->
  let r := interrupts pm g (set_force_interrupt c n) moves w in
  r.1.1 = replicate (Nat.min (Z.to_nat n) (length moves)) true ++
          replicate (length moves - Z.to_nat n) false /\
  force_intr_count r.1.2 = n - Z.of_nat (Nat.min (Z.to_nat n) (length moves)).
Proof. intros Hs Hn. apply (interrupts_spec pm g moves (set_force_interrupt c n) w); [done|apply Hn]. Qed.

(** The driver has set NO_INTERRUPT and keeps it set. *)
Definition quiet_guest : guest := fun t hm => poke_range hm 0x41040 (le_bytes 2 1).

Lemma forced_interrupts_exact_witness :
  let c := mkCompletion 0x1080 0x1040 4 0 false 0 in
  let r := interrupts ram quiet_guest (set_force_interrupt c 2) [(0, 1); (1, 2); (2, 3)]
             (mkWorld ∅ 0) in
  r.1.1 = [true; true; false] /\ force_intr_count r.1.2 = 0.
Proof.
  apply (forced_interrupts_exact ram quiet_guest (mkCompletion 0x1080 0x1040 4 0 false 0) 2
    [(0, 1); (1, 2); (2, 3)] (mkWorld ∅ 0)); [|done].
  intros old new w. unfold wants_interrupt. cbn [event_idx avail_addr queue_size negb Z.eqb].
  pose proof (read_avail_at ram ram_ok q4 av4 uv4 q4_ok q4_views quiet_guest 0 w) as Hrd.
  change (q_avail q4 + 0) with 0x1040 in Hrd. rewrite Hrd by (done || lia).
  unfold turn, quiet_guest. cbn [w_mem s_ptr av4]. rewrite Z.add_0_r.
  by rewrite (peek_range_poke_same _ 0x41040 (le_bytes 2 1)).
Defined.

End queue_thm.
