(* ===== verification/IntrPins.v ===== *)
(** * Interrupt pins

    [crates/vmm-core/src/intr_pins.rs]: devices assert pins, several pins
    share a line, and the kernel is told of a line's 0->1 and 1->0 moves
    only. [LegacyPIC] and [PciIntrRoutes] are two instances of [Router], the
    interface a pin needs; the kernel's answer to each ioctl is an argument.
    A refused ioctl leaves the kernel's line as it was. *)

From S2P Require Import Prelude.

Module intr_pins.

Definition PIN_COUNT : Z := 16.
Definition PIR_DISABLE : Z := 0x80.
Definition PIR_IRQ_MASK : Z := 0x0f.
Definition PIR_COUNT : Z := 4.
Definition PCI_GSI_COUNT : Z := 8.
Definition PCI_GSI_BASE : Z := 16.

Inductive PinOp : Type := Assert | Deassert | Pulse.

(** [Entry::process_op]: the new level and whether the kernel must know. *)
Definition process_op (level : Z) (op : PinOp) : Z * bool :=
  match op with
  | Assert => let level := wadd 64 level 1 in (level, level =? 1)
  | Deassert =>
      if level =? 0 then (level, false)
      else let level := level - 1 in (level, level =? 0)
  | Pulse => (level, level =? 0)
  end.

Definition undo_op (level : Z) (op : PinOp) : Z :=
  match op with
  | Assert => wsub 64 level 1
  | Deassert => wadd 64 level 1
  | Pulse => level
  end.

(** ** The kernel's lines *)

(** The level of each I/O APIC input, and for each ATPIC input the raises the
    kernel took less the lowers: several lines may be routed to one. *)
Record kernel : Type := mkKernel { k_ioapic : gmap Z bool; k_atpic : gmap Z Z }.

Definition line_high (k : kernel) (irq : Z) : bool := default false (k_ioapic k !! irq).
Definition atpic_net (k : kernel) (irq : Z) : Z := default 0 (k_atpic k !! irq).

(** One ioctl; [ok] is the kernel's answer. *)
Definition ioapic_irq (ok level : bool) (k : kernel) (irq : Z) : kernel * bool :=
  if ok then (mkKernel (<[irq := level]> (k_ioapic k)) (k_atpic k), true) else (k, false).

(** What an operation leaves on an I/O APIC input, and adds to an ATPIC one. *)
Definition op_level (op : PinOp) : bool := match op with Assert => true | _ => false end.
Definition op_net (op : PinOp) : Z := match op with Assert => 1 | Deassert => -1 | Pulse => 0 end.

(** [isa_assert_irq], [isa_deassert_irq] and [isa_pulse_irq]. *)
Definition isa_irq (ok : bool) (op : PinOp) (k : kernel) (atpic ioapic : Z) : kernel * bool :=
  if ok then
    (mkKernel (<[ioapic := op_level op]> (k_ioapic k)) (<[atpic := atpic_net k atpic + op_net op]> (k_atpic k)), true)
  else (k, false).

(** ** The shared state of a bank of lines *)

Record bank : Type := mkBank { levels : list Z; pir_regs : list Z; kern : kernel }.

(** A pin: the irq of a [LegacyPin], or the line and PIRQ of a [PciIntrPin]. *)
Record Pin : Type := mkPin { p_line : nat; p_pirq : nat; p_asserted : bool }.

(** What the kernel answers to the ioctls of one operation, in order. *)
Definition replies : Type := (bool * bool)%type.

Definition set_level (b : bank) (line : nat) (level : Z) : bank :=
  mkBank (<[line := level]> (levels b)) (pir_regs b) (kern b).
Definition set_kern (b : bank) (k : kernel) : bank := mkBank (levels b) (pir_regs b) k.

(** [LegacyPIC::do_irq]; [None] is an index out of range. *)
Definition legacy_do_irq (op : PinOp) (p : Pin) (r : replies) (b : bank) : option (bool * bank) :=
  let* level := levels b !! p_line p in
  let '(level', notify) := process_op level op in
  let b := set_level b (p_line p) level' in
  if negb notify then Some (true, b)
  else
    let irq := Z.of_nat (p_line p) in
    let '(k, ok) :=
      match op with
      | Assert => isa_irq r.1 Assert (kern b) irq irq
      | Deassert => isa_irq r.1 Deassert (kern b) irq irq
      | Pulse => isa_irq r.1 Pulse (kern b) irq irq
      end in
    let b := set_kern b k in
    if ok then Some (true, b)
    else Some (false, set_level b (p_line p) (undo_op level' op)).

(** [PciIntrRoutes::atpic_irq]; the outer [None] is an index out of range. *)
Definition atpic_irq (pir : list Z) (pirq_idx : nat) : option (option Z) :=
  let* val := pir !! pirq_idx in
  if bit_set val PIR_DISABLE then Some None
  else
    let irq := Z.land val PIR_IRQ_MASK in
    Some (if 0 <? irq then Some irq else None).

(** [PciIntrRoutes::do_irq] with a VM handle. *)
Definition pci_do_irq (op : PinOp) (p : Pin) (r : replies) (b : bank) : option (bool * bank) :=
  let* level := levels b !! p_line p in
  let '(level', notify) := process_op level op in
  let b := set_level b (p_line p) level' in
  if negb notify then Some (true, b)
  else
    let ioapic := PCI_GSI_BASE + Z.of_nat (p_line p) in
    let* atpic := atpic_irq (pir_regs b) (p_pirq p) in
    let '(k, ok) :=
      match op, atpic with
      | Assert, Some atpic => isa_irq r.1 Assert (kern b) atpic ioapic
      | Deassert, Some atpic => isa_irq r.1 Deassert (kern b) atpic ioapic
      | Pulse, Some atpic => isa_irq r.1 Pulse (kern b) atpic ioapic
      | Assert, None => ioapic_irq r.1 true (kern b) ioapic
      | Deassert, None => ioapic_irq r.1 false (kern b) ioapic
      | Pulse, None =>
          let '(k, ok) := ioapic_irq r.1 true (kern b) ioapic in
          if ok then ioapic_irq r.2 false k ioapic else (k, false)
      end in
    let b := set_kern b k in
    if ok then Some (true, b)
    else Some (false, set_level b (p_line p) (undo_op level' op)).

(** ** Routers and their pins *)

(** The pulse of a line without a pulse ioctl was half taken: raised, and
    the call that lowers it refused. *)
Definition half_pulse (op : PinOp) (r : replies) : Prop := op = Pulse /\ r = (true, false).

Definition bank_wf (n : nat) (b : bank) : Prop :=
  length (levels b) = n /\ length (pir_regs b) = Z.to_nat PIR_COUNT.

(** What an operation on a line does to the bank: it stands, with the
    kernel's lines moved when the level crossed zero, or nothing changed. *)
Definition irq_post (base : Z) (route : option Z) (op : PinOp) (line : nat) (level : Z) (b : bank)
    (out : bool * bank) : Prop :=
  let level' := if out.1 then (process_op level op).1 else level in
  levels out.2 = <[line := level']> (levels b) /\ pir_regs out.2 = pir_regs b /\
  (out.1 = false -> (process_op level op).2 = true) /\
  (forall i, line_high (kern out.2) i =
    if out.1 && (process_op level op).2 && (i =? base + Z.of_nat line) then op_level op else line_high (kern b) i) /\
  (forall i, atpic_net (kern out.2) i = atpic_net (kern b) i +
    if out.1 && (process_op level op).2 && bool_decide (route = Some i) then op_net op else 0).

Class Router : Type := {
  r_lines : nat;
  r_base : Z;
  r_pirq : nat -> nat;
  r_route : list Z -> nat -> option Z;
  r_do_irq : PinOp -> Pin -> replies -> bank -> option (bool * bank);
  r_local : forall pir i v l, r_pirq l <> i -> r_route (<[i := v]> pir) l = r_route pir l;
  r_spec : forall op p r b level,
    bank_wf r_lines b -> levels b !! p_line p = Some level -> uint 64 (level + 1) ->
    0 <= level -> p_pirq p = r_pirq (p_line p) -> ~ half_pulse op r ->
    exists out, r_do_irq op p r b = Some out /\ irq_post r_base (r_route (pir_regs b) (p_line p)) op (p_line p) level b out
}.

Record chip : Type := mkChip { c_bank : bank; c_pins : list Pin; c_alive : bool }.

Definition set_asserted (p : Pin) (v : bool) : Pin := mkPin (p_line p) (p_pirq p) v.

Section pin.
Context {R : Router}.

(** [assert], [deassert] and [pulse] of [LegacyPin] and of [PciIntrPin]: the
    two types run the same code on their own [do_irq]. The parent is a weak
    reference, so a pin can outlive it. *)
Definition pin_assert (i : nat) (r : replies) (c : chip) : option chip :=
  let* p := c_pins c !! i in
  if p_asserted p then Some c
  else if c_alive c then
    let* ' (ok, b) := r_do_irq Assert p r (c_bank c) in
    Some (mkChip b (<[i := set_asserted p ok]> (c_pins c)) (c_alive c))
  else Some (mkChip (c_bank c) (<[i := set_asserted p true]> (c_pins c)) (c_alive c)).

Definition pin_deassert (i : nat) (r : replies) (c : chip) : option chip :=
  let* p := c_pins c !! i in
  if p_asserted p then
    if c_alive c then
      let* ' (ok, b) := r_do_irq Deassert p r (c_bank c) in
      Some (mkChip b (<[i := set_asserted p (negb ok)]> (c_pins c)) (c_alive c))
    else Some (mkChip (c_bank c) (<[i := set_asserted p false]> (c_pins c)) (c_alive c))
  else Some c.

Definition pin_pulse (i : nat) (r : replies) (c : chip) : option chip :=
  let* p := c_pins c !! i in
  if p_asserted p then Some c
  else if c_alive c then
    let* ' (_, b) := r_do_irq Pulse p r (c_bank c) in
    Some (mkChip b (c_pins c) (c_alive c))
  else Some c.

(** The default [set_state] of the trait. *)
Definition set_state (i : nat) (is_asserted : bool) (r : replies) (c : chip) : option chip :=
  if is_asserted then pin_assert i r c else pin_deassert i r c.

End pin.

(** [LegacyPIC::new], [pin_handle]. *)
Definition legacy_new (k : kernel) : chip :=
  mkChip (mkBank (replicate (Z.to_nat PIN_COUNT) 0) (replicate (Z.to_nat PIR_COUNT) 0) k) [] true.

Definition legacy_pin_handle (irq : Z) (c : chip) : option chip :=
  if (PIN_COUNT <=? irq) || (irq =? 2) then None
  else Some (mkChip (c_bank c) (c_pins c ++ [mkPin (Z.to_nat irq) 0 false]) (c_alive c)).

(** [PciIntrRoutes::new], [pin_handle] with [PciIntrPin::new]. *)
Definition pci_new (pir : list Z) (k : kernel) : chip :=
  mkChip (mkBank (replicate (Z.to_nat PCI_GSI_COUNT) 0) pir k) [] true.

Definition pci_pin_handle (slot pin : Z) (c : chip) : chip :=
  let pirq_idx := (slot + pin) mod PIR_COUNT in
  let line := (4 + slot + pin) mod PCI_GSI_COUNT in
  mkChip (c_bank c) (c_pins c ++ [mkPin (Z.to_nat line) (Z.to_nat pirq_idx) false]) (c_alive c).

(** ** A single IOAPIC pin *)

Record IoApicPin : Type := mkIoApicPin { io_irq : Z; io_asserted : bool }.

Definition io_assert (ok : bool) (p : IoApicPin) (k : kernel) : IoApicPin * kernel :=
  if io_asserted p then (p, k)
  else (mkIoApicPin (io_irq p) true, (ioapic_irq ok true k (io_irq p)).1).

Definition io_deassert (ok : bool) (p : IoApicPin) (k : kernel) : IoApicPin * kernel :=
  if io_asserted p then
    let '(k, ok) := ioapic_irq ok false k (io_irq p) in
    (mkIoApicPin (io_irq p) (negb ok), k)
  else (p, k).

(** ** The two routers keep the promise *)

Lemma process_undo level op :
  0 <= level -> uint 64 (level + 1) -> (process_op level op).2 = true ->
  undo_op (process_op level op).1 op = level.
Proof.
  unfold uint. intros Hl Hu. destruct op; simpl; [|case_match; simpl; [done|]|done]; intros _.
  - rewrite wadd_small by lia. rewrite wsub_small by lia. lia.
  - rewrite wadd_small by lia. lia.
Qed.

Lemma line_high_isa ok op k a i j :
  line_high (isa_irq ok op k a i).1 j = (if ok && (j =? i) then op_level op else line_high k j) /\
  (isa_irq ok op k a i).2 = ok.
Proof.
  unfold isa_irq, line_high. destruct ok; simpl; [|done]. split; [|done].
  destruct (Z.eqb_spec j i) as [->|]; [by rewrite lookup_insert_eq|by rewrite lookup_insert_ne].
Qed.

Lemma atpic_isa ok op k a i j :
  atpic_net (isa_irq ok op k a i).1 j = atpic_net k j + if ok && bool_decide (Some a = Some j) then op_net op else 0.
Proof.
  unfold isa_irq, atpic_net. destruct ok; simpl; [|lia].
  destruct (decide (a = j)) as [->|Hne]; [rewrite bool_decide_true by done; by rewrite lookup_insert_eq|].
  rewrite bool_decide_false by congruence. rewrite lookup_insert_ne by done. lia.
Qed.

Lemma line_high_ioapic ok lv k i j :
  line_high (ioapic_irq ok lv k i).1 j = (if ok && (j =? i) then lv else line_high k j) /\
  (ioapic_irq ok lv k i).2 = ok.
Proof.
  unfold ioapic_irq, line_high. destruct ok; simpl; [|done]. split; [|done].
  destruct (Z.eqb_spec j i) as [->|]; [by rewrite lookup_insert_eq|by rewrite lookup_insert_ne].
Qed.

(** The common tail of the two [do_irq]. *)
Definition settle (op : PinOp) (line : nat) (level' : Z) (b : bank) (r : kernel * bool) :
    bool * bank :=
  if r.2 then (true, set_kern b r.1)
  else (false, set_level (set_kern b r.1) line (undo_op level' op)).

Lemma settle_spec base route op line level b (r : kernel * bool) :
  levels b !! line = Some level -> 0 <= level -> uint 64 (level + 1) ->
  (process_op level op).2 = true ->
  (forall i, line_high r.1 i = if r.2 && (i =? base + Z.of_nat line) then op_level op else line_high (kern b) i) ->
  (forall i, atpic_net r.1 i = atpic_net (kern b) i + if r.2 && bool_decide (route = Some i) then op_net op else 0) ->
  irq_post base route op line level b
    (settle op line (process_op level op).1 (set_level b line (process_op level op).1) r).
Proof.
  intros Hl H0 Hu Hn Hk Ha. unfold settle, irq_post. destruct r as [k []]; simpl in *.
  - rewrite Hn. split_and!; done.
  - rewrite list_insert_insert_eq, process_undo by done. split_and!; done.
Qed.

Lemma no_notify_spec base route op line level b :
  levels b !! line = Some level -> (process_op level op).2 = false ->
  irq_post base route op line level b (true, set_level b line (process_op level op).1).
Proof.
  intros Hl Hn. unfold irq_post. simpl. rewrite Hn. split_and!; try done. intros i. simpl. lia.
Qed.

Lemma legacy_do_irq_eq op p r b level :
  levels b !! p_line p = Some level ->
  legacy_do_irq op p r b =
    let b' := set_level b (p_line p) (process_op level op).1 in
    Some (if (process_op level op).2 then
      settle op (p_line p) (process_op level op).1 b'
        (isa_irq r.1 op (kern b') (Z.of_nat (p_line p)) (Z.of_nat (p_line p)))
    else (true, b')).
Proof.
  intros Hl. unfold legacy_do_irq. rewrite Hl. simpl option_bind.
  destruct (process_op level op) as [level' []]; [|done]. unfold settle.
  destruct op; simpl; by destruct (isa_irq _ _ _ _ _) as [k []].
Qed.

#[export] Program Instance legacy_router : Router := {
  r_lines := Z.to_nat PIN_COUNT;
  r_base := 0;
  r_pirq _ := 0%nat;
  r_route _ l := Some (Z.of_nat l);
  r_do_irq := legacy_do_irq
}.
Next Obligation. done. Qed.
Next Obligation.
  intros op p r b level _ Hl Hu H0 _ _. rewrite (legacy_do_irq_eq op p r b level Hl). cbv zeta.
  eexists. split; [done|]. destruct (process_op level op).2 eqn:Hn; [|by apply no_notify_spec].
  apply settle_spec; try done; intros i; destruct (line_high_isa r.1 op (kern b) (Z.of_nat (p_line p)) (Z.of_nat (p_line p)) i) as [Hi Hok];
    simpl kern; rewrite Hok.
  - by rewrite Hi, Z.add_0_l.
  - apply atpic_isa.
Qed.

(** The ioctls of one notified PCI operation. *)
Definition pci_ioctl (op : PinOp) (atpic : option Z) (r : replies) (k : kernel) (ioapic : Z) :
    kernel * bool :=
  match op, atpic with
  | op, Some atpic => isa_irq r.1 op k atpic ioapic
  | Assert, None => ioapic_irq r.1 true k ioapic
  | Deassert, None => ioapic_irq r.1 false k ioapic
  | Pulse, None =>
      let '(k, ok) := ioapic_irq r.1 true k ioapic in
      if ok then ioapic_irq r.2 false k ioapic else (k, false)
  end.

Lemma ioapic_net ok lv k i j : atpic_net (ioapic_irq ok lv k i).1 j = atpic_net k j.
Proof. unfold ioapic_irq. by destruct ok. Qed.

Lemma pci_ioctl_spec op atpic r k ioapic i :
  ~ half_pulse op r -> let out := pci_ioctl op atpic r k ioapic in
  line_high out.1 i = (if out.2 && (i =? ioapic) then op_level op else line_high k i) /\
  atpic_net out.1 i = atpic_net k i + (if out.2 && bool_decide (atpic = Some i) then op_net op else 0).
Proof.
  intros Hh. cbv zeta. destruct r as [r1 r2]. destruct atpic as [a|].
  { assert (Hp : pci_ioctl op (Some a) (r1, r2) k ioapic = isa_irq r1 op k a ioapic) by by destruct op. rewrite Hp.
    destruct (line_high_isa r1 op k a ioapic i) as [-> ->]. split; [done|apply atpic_isa]. }
  rewrite bool_decide_false, andb_false_r, Z.add_0_r by done. destruct op; simpl.
  1,2: rewrite ioapic_net; match goal with |- context [ioapic_irq ?r ?lv ?k ?j] => by destruct (line_high_ioapic r lv k j i) as [-> ->] end.
  destruct r1; [|done]. destruct r2; [|by destruct Hh]. unfold ioapic_irq, line_high, atpic_net. simpl. split; [|done].
  destruct (Z.eqb_spec i ioapic) as [->|]; [by rewrite lookup_insert_eq|by rewrite !lookup_insert_ne].
Qed.

(** A PIRQ route control register of the PIIX3: bit 7 disables the route, bits
    3:0 name the ATPIC input, and 0 names none. *)
Definition pirq_route (v : Z) : option Z := if Z.testbit v 7 || (v mod 16 =? 0) then None else Some (v mod 16).

Lemma atpic_route pir n v : pir !! n = Some v -> atpic_irq pir n = Some (pirq_route v).
Proof.
  intros Hv. unfold atpic_irq, pirq_route. rewrite Hv. simpl option_bind. unfold PIR_DISABLE, PIR_IRQ_MASK.
  change 0x80 with (2 ^ 7). rewrite bit_set_testbit by lia. change 0x0f with (Z.ones 4). rewrite Z.land_ones by lia. change (2 ^ 4) with 16.
  destruct (Z.testbit v 7); [done|]. cbn [orb]. pose proof (Z.mod_pos_bound v 16 eq_refl).
  destruct (Z.ltb_spec 0 (v mod 16)), (Z.eqb_spec (v mod 16) 0); try lia; done.
Qed.

(** Lines four apart share a PIRQ, and each is routed where its register says. *)
#[export] Program Instance pci_router : Router := {
  r_lines := Z.to_nat PCI_GSI_COUNT;
  r_base := PCI_GSI_BASE;
  r_pirq l := (l mod Z.to_nat PIR_COUNT)%nat;
  r_route pir l := pir !! (l mod Z.to_nat PIR_COUNT)%nat ≫= pirq_route;
  r_do_irq := pci_do_irq
}.
Next Obligation.
  intros pir i v l Hl. cbn beta in *. by rewrite list_lookup_insert_ne.
Qed.
Next Obligation.
  intros op p r b level [_ Hpir] Hl Hu H0 Hp Hh. rewrite <- Hp.
  destruct (lookup_lt_is_Some_2 (pir_regs b) (p_pirq p)) as [v Hv]; [rewrite Hpir, Hp; by apply Nat.mod_upper_bound|].
  pose proof (atpic_route _ _ _ Hv) as Ha. rewrite Hv. cbn [mbind option_bind]. set (atpic := pirq_route v) in *.
  exists (let b' := set_level b (p_line p) (process_op level op).1 in
    if (process_op level op).2 then
      settle op (p_line p) (process_op level op).1 b'
        (pci_ioctl op atpic r (kern b') (PCI_GSI_BASE + Z.of_nat (p_line p)))
    else (true, b')). split.
  - unfold pci_do_irq. rewrite Hl. simpl option_bind.
    destruct (process_op level op) as [level' []]; [|done]. cbn [fst snd negb pir_regs set_level].
    rewrite Ha. simpl option_bind. unfold settle.
    by destruct op, atpic; simpl; repeat case_match; simplify_eq.
  - cbv zeta. destruct (process_op level op).2 eqn:Hn; [|by apply no_notify_spec].
    apply settle_spec; try done; intros i; by apply pci_ioctl_spec.
Qed.

(** ** Reachable chips *)

(** The pins that hold a line. *)
Definition holds (l : nat) (p : Pin) : Prop := p_line p = l /\ p_asserted p = true.

#[export] Instance holds_dec l p : Decision (holds l p).
Proof. unfold holds. apply _. Defined.

Definition holders (l : nat) (pins : list Pin) : nat := length (filter (holds l) pins).

Lemma holders_insert l i p p' pins :
  pins !! i = Some p ->
  (holders l (<[i := p']> pins) + (if decide (holds l p) then 1 else 0) =
   holders l pins + (if decide (holds l p') then 1 else 0))%nat.
Proof.
  revert i. induction pins as [|x pins IH]; intros [|i] Hi; try done; simpl in *.
  - simplify_eq. unfold holders. rewrite !filter_cons. repeat case_decide; simpl; lia.
  - specialize (IH i Hi). unfold holders in *. rewrite !filter_cons.
    destruct (decide (holds l x)); simpl; lia.
Qed.

Section lines.
Context {R : Router}.

Record lines_ok (c : chip) : Prop := {
  lo_bank : bank_wf r_lines (c_bank c);
  lo_pins : Forall (fun p => (p_line p < r_lines)%nat /\ p_pirq p = r_pirq (p_line p)) (c_pins c);
  lo_few : Z.of_nat (length (c_pins c)) < 2 ^ 63;
  lo_level : c_alive c = true -> forall l level, levels (c_bank c) !! l = Some level ->
    level = Z.of_nat (holders l (c_pins c));
  lo_kernel : c_alive c = true -> forall l, (l < r_lines)%nat ->
    line_high (kern (c_bank c)) (r_base + Z.of_nat l) = bool_decide (0 < holders l (c_pins c))%nat
}.

Lemma holders_le l pins : (holders l pins <= length pins)%nat.
Proof. apply length_filter. Qed.

(** One operation on the line of pin [i], whatever became of the pin. *)
Lemma op_ok c op i p p' level out :
  lines_ok c -> c_alive c = true -> c_pins c !! i = Some p ->
  levels (c_bank c) !! p_line p = Some level ->
  irq_post r_base (r_route (pir_regs (c_bank c)) (p_line p)) op (p_line p) level (c_bank c) out ->
  p_line p' = p_line p -> p_pirq p' = p_pirq p ->
  Z.of_nat (holders (p_line p) (<[i := p']> (c_pins c))) =
    (if out.1 then (process_op level op).1 else level) ->
  lines_ok (mkChip out.2 (<[i := p']> (c_pins c)) (c_alive c)).
Proof.
  intros [[Hb1 Hb2] Hp Hf Hlv Hk] Hal Hi Hl (Hlev & Hpir & Hfail & Hline & _) Hpl Hpp Hcnt.
  assert (Hoth : forall l, l <> p_line p -> holders l (<[i := p']> (c_pins c)) = holders l (c_pins c)).
  { intros l Hne. pose proof (holders_insert l i p p' (c_pins c) Hi) as Hh.
    destruct (decide (holds l p)) as [[? _]|]; [congruence|].
    destruct (decide (holds l p')) as [[? _]|]; [congruence|]. lia. }
  pose proof (Hlv Hal _ _ Hl) as Hlevel. pose proof (holders_le (p_line p) (c_pins c)) as Hle.
  pose proof (lookup_lt_Some _ _ _ Hl) as Hlt.
  split; simpl.
  - split; [by rewrite Hlev, length_insert|congruence].
  - apply Forall_insert; [done|]. rewrite Forall_lookup in Hp. rewrite Hpl, Hpp. by apply (Hp i).
  - by rewrite length_insert.
  - intros _ l lv. rewrite Hlev. destruct (decide (l = p_line p)) as [->|Hne].
    + rewrite list_lookup_insert_eq by done. by intros [= <-].
    + rewrite list_lookup_insert_ne, Hoth by done. by apply Hlv.
  - intros _ l Hlr. rewrite Hline. destruct (decide (l = p_line p)) as [->|Hne].
    + rewrite Z.eqb_refl, andb_true_r, Hk by done.
      destruct out.1; simpl in *.
      * destruct op; simpl in *; unfold wadd in *; rewrite ?Z.mod_small in * by lia;
          repeat case_cmp; simpl in *; try (symmetry; apply bool_decide_ext);
          try (symmetry; apply bool_decide_eq_true); try (symmetry; apply bool_decide_eq_false); lia.
      * apply bool_decide_ext. lia.
    + rewrite Hoth by done. rewrite (proj2 (Z.eqb_neq _ _)) by lia.
      rewrite andb_false_r. by apply Hk.
Qed.

(** The router answers, and what it leaves is one of the two outcomes. *)
Lemma router_runs c op i p r :
  lines_ok c -> c_alive c = true -> c_pins c !! i = Some p -> ~ half_pulse op r ->
  exists level out, levels (c_bank c) !! p_line p = Some level /\ 0 <= level < 2 ^ 63 /\
    level = Z.of_nat (holders (p_line p) (c_pins c)) /\
    r_do_irq op p r (c_bank c) = Some out /\ irq_post r_base (r_route (pir_regs (c_bank c)) (p_line p)) op (p_line p) level (c_bank c) out.
Proof.
  intros [[Hb1 Hb2] Hp Hf Hlv Hk] Hal Hi Hh.
  pose proof (proj1 (Forall_lookup _ _) Hp i p Hi) as [Hln Hpq].
  destruct (lookup_lt_is_Some_2 (levels (c_bank c)) (p_line p)) as [level Hl]; [congruence|].
  pose proof (Hlv Hal _ _ Hl) as Heq. pose proof (holders_le (p_line p) (c_pins c)).
  destruct (r_spec op p r (c_bank c) level) as (out & Ho & Hpost); try done; [unfold uint; lia|lia|].
  exists level, out. split_and!; done || lia.
Qed.

Lemma holders_set i p v pins :
  pins !! i = Some p ->
  (holders (p_line p) (<[i := set_asserted p v]> pins) + (if p_asserted p then 1 else 0) =
   holders (p_line p) pins + (if v then 1 else 0))%nat.
Proof.
  intros Hi. pose proof (holders_insert (p_line p) i p (set_asserted p v) pins Hi) as Hh.
  assert (Hd : forall q, p_line q = p_line p ->
    ((if decide (holds (p_line p) q) then 1 else 0) = if p_asserted q then 1 else 0)%nat).
  { intros q Hq. destruct (decide (holds (p_line p) q)) as [[_ ->]|Hn]; [done|].
    destruct (p_asserted q) eqn:E; [|done]. by destruct Hn. }
  by rewrite !Hd in Hh by done.
Qed.

Lemma dead_ok c pins' :
  lines_ok c -> c_alive c = false -> length pins' = length (c_pins c) ->
  Forall (fun p => (p_line p < r_lines)%nat /\ p_pirq p = r_pirq (p_line p)) pins' ->
  lines_ok (mkChip (c_bank c) pins' (c_alive c)).
Proof. intros [] Hd Hl Hf. split; simpl; try done; congruence. Qed.

Lemma pins_set c i p v :
  lines_ok c -> c_pins c !! i = Some p ->
  Forall (fun p => (p_line p < r_lines)%nat /\ p_pirq p = r_pirq (p_line p))
    (<[i := set_asserted p v]> (c_pins c)).
Proof.
  intros [] Hi. apply Forall_insert; [done|]. rewrite Forall_lookup in lo_pins0. exact (lo_pins0 i p Hi).
Qed.

(** *** The ATPIC inputs *)

(** The lines that are held and routed to an ATPIC input. *)
Definition on_atpic (pir : list Z) (pins : list Pin) (a : Z) (l : nat) : bool :=
  bool_decide (0 < holders l pins)%nat && bool_decide (r_route pir l = Some a).
Definition routed (pir : list Z) (pins : list Pin) (a : Z) : Z := Z.of_nat (length (filter (on_atpic pir pins a) (seq 0 r_lines))).


Definition atpic_ok (c : chip) : Prop :=
  c_alive c = true -> forall a, atpic_net (kern (c_bank c)) a = routed (pir_regs (c_bank c)) (c_pins c) a.

Lemma filter_one (f g : nat -> bool) (l0 : nat) n : (forall l, l <> l0 -> g l = f l) -> forall s, (s <= l0 < s + n)%nat ->
  Z.of_nat (length (filter g (seq s n))) = Z.of_nat (length (filter f (seq s n))) + (if g l0 then 1 else 0) - (if f l0 then 1 else 0).
Proof.
  intros Hne. assert (Hout : forall n s, (l0 < s \/ s + n <= l0)%nat -> filter g (seq s n) = filter f (seq s n)).
  { clear n. induction n as [|n IH]; intros s Hs; [done|]. cbn [seq]. rewrite !filter_cons, Hne by lia. rewrite IH by lia. done. }
  induction n as [|n IH]; intros s Hs; [lia|]. cbn [seq]. rewrite !filter_cons. destruct (decide (s = l0)) as [->|Hs0].
  - rewrite Hout by lia. destruct (g l0), (f l0); repeat case_decide; simpl in *; try done; lia.
  - specialize (IH (S s) ltac:(lia)). rewrite Hne by done. destruct (f s); repeat case_decide; simpl in *; try done; lia.
Qed.

(** An operation moves the input its line is routed to, when the line moves. *)
Lemma op_atpic c op i p p' level out :
  lines_ok c -> atpic_ok c -> c_alive c = true -> c_pins c !! i = Some p ->
  levels (c_bank c) !! p_line p = Some level ->
  irq_post r_base (r_route (pir_regs (c_bank c)) (p_line p)) op (p_line p) level (c_bank c) out ->
  p_line p' = p_line p ->
  Z.of_nat (holders (p_line p) (<[i := p']> (c_pins c))) = (if out.1 then (process_op level op).1 else level) ->
  atpic_ok (mkChip out.2 (<[i := p']> (c_pins c)) (c_alive c)).
Proof.
  intros [[Hb1 Hb2] Hp Hf Hlv Hk] Ha Hal Hi Hl (Hlev & Hpir & Hfail & _ & Hnet) Hpl Hcnt _ a. cbn [c_bank c_pins].
  rewrite Hnet, Hpir, (Ha Hal). set (pir := pir_regs (c_bank c)) in *. unfold routed.
  pose proof (proj1 (Forall_lookup _ _) Hp i p Hi) as [Hlt _]. pose proof (Hlv Hal _ _ Hl) as Hlevel.
  pose proof (holders_le (p_line p) (c_pins c)).
  rewrite (filter_one (on_atpic pir (c_pins c) a) (on_atpic pir (<[i:=p']> (c_pins c)) a) (p_line p)); [| |lia].
  2: { intros l Hne. unfold on_atpic. f_equal. f_equal. apply bool_decide_ext. pose proof (holders_insert l i p p' (c_pins c) Hi) as Hh.
       destruct (decide (holds l p)) as [[? _]|]; [congruence|]. destruct (decide (holds l p')) as [[? _]|]; [congruence|]. lia. }
  unfold on_atpic. destruct (bool_decide (r_route pir (p_line p) = Some a)); rewrite ?andb_false_r, ?andb_true_r; [|lia].
  assert (Hd : forall n, (if bool_decide (0 < n)%nat then 1 else 0) = (if 0 <? Z.of_nat n then 1 else 0)).
  { intros n. destruct (Z.ltb_spec 0 (Z.of_nat n)); [rewrite bool_decide_true by lia|rewrite bool_decide_false by lia]; done. }
  rewrite !Hd, Hcnt, <- Hlevel. destruct out.1; cbn [andb]; [|lia].
  destruct op; simpl in *; unfold wadd in *; rewrite ?Z.mod_small in * by lia; repeat case_cmp; simpl in *; lia.
Qed.

Lemma assert_ok c i r :
  lines_ok c -> is_Some (c_pins c !! i) ->
  exists c', pin_assert i r c = Some c' /\ lines_ok c' /\ (atpic_ok c -> atpic_ok c').
Proof.
  intros Hc [p Hi]. unfold pin_assert. rewrite Hi. simpl option_bind.
  destruct (p_asserted p) eqn:Ha; [by eauto|]. destruct (c_alive c) eqn:Hal.
  - destruct (router_runs c Assert i p r Hc Hal Hi) as (level & [ok b] & Hl & Hb & Heq & -> & Hpost).
    { by intros [? _]. }
    simpl option_bind. eexists. split; [done|]. rewrite <- Hal.
    assert (Hcnt : Z.of_nat (holders (p_line p) (<[i := set_asserted p ok]> (c_pins c))) = if ok then (process_op level Assert).1 else level).
    { pose proof (holders_set i p ok (c_pins c) Hi) as Hh. rewrite Ha in Hh. simpl in *. destruct ok; [rewrite wadd_small by lia|]; lia. }
    split; [by apply (op_ok c Assert i p _ level (ok, b))|]. intros Hat. by apply (op_atpic c Assert i p _ level (ok, b)).
  - eexists. split; [done|]. rewrite <- Hal. split; [|intros _ Hx; cbn in Hx; congruence]. apply dead_ok; try done; [by rewrite length_insert|].
    by apply pins_set.
Qed.

Lemma deassert_ok c i r :
  lines_ok c -> is_Some (c_pins c !! i) ->
  exists c', pin_deassert i r c = Some c' /\ lines_ok c' /\ (atpic_ok c -> atpic_ok c').
Proof.
  intros Hc [p Hi]. unfold pin_deassert. rewrite Hi. simpl option_bind.
  destruct (p_asserted p) eqn:Ha; [|by eauto]. destruct (c_alive c) eqn:Hal.
  - destruct (router_runs c Deassert i p r Hc Hal Hi) as (level & [ok b] & Hl & Hb & Heq & -> & Hpost).
    { by intros [? _]. }
    simpl option_bind. eexists. split; [done|]. rewrite <- Hal.
    assert (Hcnt : Z.of_nat (holders (p_line p) (<[i := set_asserted p (negb ok)]> (c_pins c))) = if ok then (process_op level Deassert).1 else level).
    { pose proof (holders_set i p (negb ok) (c_pins c) Hi) as Hh. rewrite Ha in Hh. simpl in *.
      destruct ok; simpl in *; [destruct (Z.eqb_spec level 0)|]; simpl; lia. }
    split; [by apply (op_ok c Deassert i p _ level (ok, b))|]. intros Hat. by apply (op_atpic c Deassert i p _ level (ok, b)).
  - eexists. split; [done|]. rewrite <- Hal. split; [|intros _ Hx; cbn in Hx; congruence]. apply dead_ok; try done; [by rewrite length_insert|].
    by apply pins_set.
Qed.

Lemma pulse_ok c i r :
  lines_ok c -> is_Some (c_pins c !! i) -> ~ half_pulse Pulse r ->
  exists c', pin_pulse i r c = Some c' /\ lines_ok c' /\ (atpic_ok c -> atpic_ok c').
Proof.
  intros Hc [p Hi] Hh. unfold pin_pulse. rewrite Hi. simpl option_bind.
  destruct (p_asserted p) eqn:Ha; [by eauto|]. destruct (c_alive c) eqn:Hal; [|by eauto].
  destruct (router_runs c Pulse i p r Hc Hal Hi Hh) as (level & [ok b] & Hl & Hb & Heq & -> & Hpost).
  simpl option_bind. eexists. split; [done|].
  assert (Hcnt : Z.of_nat (holders (p_line p) (<[i := p]> (c_pins c))) = if ok then (process_op level Pulse).1 else level).
  { rewrite (list_insert_id (c_pins c) i p Hi). simpl. by destruct ok. }
  rewrite <- Hal. pose proof (op_ok c Pulse i p p level (ok, b) Hc Hal Hi Hl Hpost eq_refl eq_refl Hcnt) as H1.
  pose proof (fun Hat => op_atpic c Pulse i p p level (ok, b) Hc Hat Hal Hi Hl Hpost eq_refl Hcnt) as H2.
  by rewrite (list_insert_id (c_pins c) i p Hi) in H1, H2.
Qed.

(** No pin of this PIRQ is asserted. *)
Definition idle_pirq (i : nat) (c : chip) : Prop := Forall (fun p => p_pirq p = i -> p_asserted p = false) (c_pins c).

(** What devices, the chipset and the kernel do to a chip, with no pulse half
    taken; [settled] says that firmware reprograms a route only while no pin of
    it is asserted. *)
Inductive step (settled : bool) : chip -> chip -> Prop :=
| step_pin c p : (p_line p < r_lines)%nat -> p_pirq p = r_pirq (p_line p) ->
    p_asserted p = false -> Z.of_nat (length (c_pins c)) + 1 < 2 ^ 63 ->
    step settled c (mkChip (c_bank c) (c_pins c ++ [p]) (c_alive c))
| step_assert c i r c' : pin_assert i r c = Some c' -> step settled c c'
| step_deassert c i r c' : pin_deassert i r c = Some c' -> step settled c c'
| step_pulse c i r c' : ~ half_pulse Pulse r -> pin_pulse i r c = Some c' -> step settled c c'
| step_pir c i v : (settled = true -> idle_pirq i c) ->
    step settled c (mkChip (mkBank (levels (c_bank c)) (<[i := v]> (pir_regs (c_bank c))) (kern (c_bank c)))
      (c_pins c) (c_alive c))
| step_drop c : step settled c (mkChip (c_bank c) (c_pins c) false).

Lemma pin_index c i (f : Pin -> option chip) c' :
  (let* p := c_pins c !! i in f p) = Some c' -> is_Some (c_pins c !! i).
Proof. destruct (c_pins c !! i); [eauto|done]. Qed.

Lemma chip_step_ok q c c' : step q c c' -> lines_ok c -> lines_ok c'.
Proof.
  intros Hs Hc. destruct Hs as [c p Hp1 Hp2 Hp3 Hn|c i r c' Hr|c i r c' Hr|c i r c' Hh Hr|c i v Hi|c].
  - destruct Hc as [Hb Hp Hf Hlv Hk]. assert (Heq : forall l, holders l (c_pins c ++ [p]) = holders l (c_pins c)).
    { intros l. unfold holders. rewrite filter_app, filter_cons_False, filter_nil, app_nil_r; [done|].
      intros [_ ?]. congruence. }
    split; simpl; try done.
    + apply Forall_app. split; [done|]. by constructor.
    + rewrite length_app. simpl. lia.
    + intros Ha l lv Hl. rewrite Heq. by apply Hlv.
    + intros Ha l Hl. rewrite Heq. by apply Hk.
  - destruct (assert_ok c i r Hc) as (c2 & Hc2 & ? & _); [by eapply pin_index, Hr|]. congruence.
  - destruct (deassert_ok c i r Hc) as (c2 & Hc2 & ? & _); [by eapply pin_index, Hr|]. congruence.
  - destruct (pulse_ok c i r Hc) as (c2 & Hc2 & ? & _); [by eapply pin_index, Hr|done|]. congruence.
  - destruct Hc as [[? ?] ? ? ? ?]. split; simpl; try done. split; simpl; [done|]. by rewrite length_insert.
  - destruct Hc. by split.
Qed.

Lemma fresh_ok b pins alive : bank_wf r_lines b -> pins = [] ->
  (forall l level, levels b !! l = Some level -> level = 0) ->
  (forall l, (l < r_lines)%nat -> line_high (kern b) (r_base + Z.of_nat l) = false) ->
  lines_ok (mkChip b pins alive).
Proof.
  intros Hb -> Hl Hk. split; simpl; try done.
Qed.

Lemma reach_lines q c0 c : lines_ok c0 -> rtc (step q) c0 c -> lines_ok c.
Proof. intros H0 Hr. induction Hr as [|x y z Hxy _ IH]; [done|]. by apply IH, (chip_step_ok q x). Qed.




End lines.

Lemma legacy_fresh k :
  (forall i, line_high k i = false) -> lines_ok (R:=legacy_router) (legacy_new k).
Proof.
  intros Hk. apply fresh_ok; try done. intros l level [-> _]%lookup_replicate. done.
Qed.



Lemma legacy_handle_step irq c c' :
  0 <= irq -> Z.of_nat (length (c_pins c)) + 1 < 2 ^ 63 -> legacy_pin_handle irq c = Some c' ->
  step (R:=legacy_router) false c c'.
Proof.
  intros Hi Hn. unfold legacy_pin_handle, PIN_COUNT. destruct (Z.leb_spec 16 irq); [done|].
  destruct (irq =? 2); [done|]. intros [= <-]. apply step_pin; simpl; try done; unfold PIN_COUNT, PIR_COUNT; lia.
Qed.

(** ** The properties *)

(** What a chip promises: each shared level is the number of pins that hold
    the line, the kernel's line is high exactly while some pin holds it, and
    no operation indexes out of range. *)
Definition lines_exact {R : Router} (c : chip) : Prop :=
  (forall l, (l < r_lines)%nat ->
     levels (c_bank c) !! l = Some (Z.of_nat (holders l (c_pins c))) /\
     line_high (kern (c_bank c)) (r_base + Z.of_nat l) = bool_decide (0 < holders l (c_pins c))%nat) /\
  (forall i r v, (i < length (c_pins c))%nat -> is_Some (set_state i v r c)).

Lemma lines_ok_exact {R : Router} c : lines_ok c -> c_alive c = true -> lines_exact c.
Proof.
  intros Hc Ha. pose proof Hc as [[Hb _] _ _ Hlv Hk]. split.
  - intros l Hl. split; [|by apply Hk].
    destruct (lookup_lt_is_Some_2 (levels (c_bank c)) l) as [lv Hl']; [congruence|].
    by rewrite <- (Hlv Ha l lv Hl').
  - intros i r v Hi%lookup_lt_is_Some_2. unfold set_state. destruct v.
    + by destruct (assert_ok c i r Hc Hi) as (c' & -> & _).
    + by destruct (deassert_ok c i r Hc Hi) as (c' & -> & _).
Qed.


(** On the legacy PIC, whatever devices share the lines and whichever ioctls
    the kernel refuses, each line's level is the number of pins holding it and
    the kernel's line is high exactly while that number is not zero. *)
Theorem legacy_lines_exact k c :
  (forall i, line_high k i = false) -> rtc (step (R:=legacy_router) false) (legacy_new k) c ->
  c_alive c = true -> lines_exact (R:=legacy_router) c.
Proof. intros Hk Hr. apply lines_ok_exact, (reach_lines false (legacy_new k)); [by apply legacy_fresh|done]. Qed.


(** Two devices on the GSI of slots 2 and 10; PIRQs unrouted. *)
Definition quiet : kernel := mkKernel ∅ ∅.
Definition routes_off : list Z := [0x80; 0x80; 0x80; 0x80].
Definition two_pins : chip := pci_pin_handle 10 0 (pci_pin_handle 2 0 (pci_new routes_off quiet)).

(** A pulse of an unrouted line whose raise the kernel takes and whose
    lower it refuses leaves the kernel's line high while the count is zero and
    no pin is asserted; a later deassert of the pin does nothing about it. *)
Theorem pci_half_pulse_stuck :
  exists c, pin_pulse (R:=pci_router) 0 (true, false) two_pins = Some c /\
    line_high (kern (c_bank c)) 22 = true /\ levels (c_bank c) !! 6%nat = Some 0 /\
    Forall (fun p => p_asserted p = false) (c_pins c) /\
    forall r, pin_deassert (R:=pci_router) 0 r c = Some c.
Proof. eexists. split; [vm_compute; reflexivity|]. split_and!; try done. by repeat constructor. Qed.

(** A route reprogrammed under a held line: the line's lower goes to the new
    ATPIC input, and the old one stays raised with no pin asserted. *)
Definition reroute (i : nat) (v : Z) (c : chip) : chip :=
  mkChip (mkBank (levels (c_bank c)) (<[i := v]> (pir_regs (c_bank c))) (kern (c_bank c))) (c_pins c) (c_alive c).

Example pci_reroute_stuck :
  exists c1 c2, pin_assert (R:=pci_router) 0 (true, true) (reroute 2 10 two_pins) = Some c1 /\
    pin_deassert (R:=pci_router) 0 (true, true) (reroute 2 11 c1) = Some c2 /\
    Forall (fun p => p_asserted p = false) (c_pins c2) /\ atpic_net (kern (c_bank c2)) 10 = 1.
Proof. do 2 eexists. split; [vm_compute; reflexivity|]. split; [vm_compute; reflexivity|]. split; [by repeat constructor|reflexivity]. Qed.

Lemma quiet_low i : line_high quiet i = false.
Proof. unfold line_high, quiet. simpl. by rewrite lookup_empty. Qed.


Definition legacy_one : chip :=
  mkChip (c_bank (legacy_new quiet)) [mkPin 4 0 false] true.
Definition legacy_up : chip :=
  default legacy_one (pin_assert (R:=legacy_router) 0 (true, true) legacy_one).

Lemma legacy_lines_exact_witness : lines_exact (R:=legacy_router) legacy_up.
Proof.
  apply (legacy_lines_exact quiet legacy_up).
  - exact quiet_low.
  - eapply rtc_l; [apply (legacy_handle_step 4 (legacy_new quiet) legacy_one); done|].
    apply rtc_once, (step_assert (R:=legacy_router) _ _ 0 (true, true)). vm_compute. reflexivity.
  - vm_compute. reflexivity.
Defined.



End intr_pins.
