(* ===== verification/PciBar.v ===== *)
(** * PCI base address registers

    [crates/vmm-devices/src/pci/bar.rs]: the six BAR registers of a type 0
    function, their sizing protocol and the 64-bit BARs that take two of
    them. A slot index is a [nat] below six; [None] is a panic. *)

From S2P Require Import Prelude.

Module bar.

Definition BAR_COUNT : nat := 6.
Definition BAR_TYPE_IO : Z := 1.
Definition BAR_TYPE_MEM : Z := 0.
Definition BAR_TYPE_MEM64 : Z := 4.

Inductive BarDefine : Type := DefPio (sz : Z) | DefMmio (sz : Z) | DefMmio64 (sz : Z).

Inductive EntryKind : Type := Empty | Pio (sz : Z) | Mmio (sz : Z) | Mmio64 (sz : Z) | Mmio64High.

Record Entry : Type := mkEntry { e_kind : EntryKind; e_value : Z }.

Record BarWriteResult : Type := mkResult {
  w_bar : nat; w_def : BarDefine; old_addr : Z; new_addr : Z
}.

Definition is_pio (d : BarDefine) : bool := match d with DefPio _ => true | _ => false end.
Definition is_mmio (d : BarDefine) : bool := negb (is_pio d).
Definition def_size (d : BarDefine) : Z :=
  match d with DefPio sz | DefMmio sz | DefMmio64 sz => sz end.

Definition bars_new : list Entry := replicate BAR_COUNT (mkEntry Empty 0).

Definition is_empty (e : Entry) : bool := match e_kind e with Empty => true | _ => false end.

(** [!(size - 1)] on [w] bits. *)
Definition size_mask (w size : Z) : Z := 2 ^ w - 1 - (size - 1).

Definition define (bars : list Entry) (idx : nat) (def : BarDefine) : option (list Entry) :=
  let* e := bars !! idx in
  if negb (is_empty e) then None
  else
    match def with
    | DefPio sz =>
        if is_power_of_two sz then Some (<[idx := mkEntry (Pio sz) (e_value e)]> bars) else None
    | DefMmio sz =>
        if is_power_of_two sz then Some (<[idx := mkEntry (Mmio sz) (e_value e)]> bars) else None
    | DefMmio64 sz =>
        if negb (is_power_of_two sz) then None
        else if negb (idx <? 5)%nat then None
        else
          let* h := bars !! S idx in
          if negb (is_empty h) then None
          else Some (<[S idx := mkEntry Mmio64High (e_value h)]>
                 (<[idx := mkEntry (Mmio64 sz) (e_value e)]> bars))
    end.

Definition reg_read (bars : list Entry) (idx : nat) : option Z :=
  let* e := bars !! idx in
  match e_kind e with
  | Empty => Some 0
  | Pio _ => Some (Z.lor (as_u 16 (e_value e)) BAR_TYPE_IO)
  | Mmio _ => Some (Z.lor (as_u 32 (e_value e)) BAR_TYPE_MEM)
  | Mmio64 _ => Some (Z.lor (as_u 32 (e_value e)) BAR_TYPE_MEM64)
  | Mmio64High =>
      match idx with
      | O => None
      | S i =>
          let* low := bars !! i in
          match e_kind low with
          | Mmio64 _ => Some (as_u 32 (Z.shiftr (e_value low) 32))
          | _ => None
          end
      end
  end.

Definition HIGH : Z := 0xFFFFFFFF00000000.
Definition LOW : Z := 0xFFFFFFFF.

(** The new value and the report of a write that changed it. *)
Definition put (bars : list Entry) (idx : nat) (e : Entry) (def : BarDefine) (new : Z) :
    list Entry * option BarWriteResult :=
  (<[idx := mkEntry (e_kind e) new]> bars,
   if negb (e_value e =? new) then Some (mkResult idx def (e_value e) new) else None).

Definition reg_write (bars : list Entry) (idx : nat) (val : Z) :
    option (list Entry * option BarWriteResult) :=
  let* e := bars !! idx in
  match e_kind e with
  | Empty => Some (bars, None)
  | Pio size => Some (put bars idx e (DefPio size) (Z.land val (size_mask 16 size)))
  | Mmio size => Some (put bars idx e (DefMmio size) (Z.land val (size_mask 32 size)))
  | Mmio64 size =>
      let low := Z.land val (as_u 32 (size_mask 64 size)) in
      Some (put bars idx e (DefMmio64 size) (Z.lor (Z.land (e_value e) HIGH) low))
  | Mmio64High =>
      match idx with
      | O => None
      | S i =>
          let* ent := bars !! i in
          match e_kind ent with
          | Mmio64 size =>
              let high := Z.land (Z.land (Z.shiftl val 32) (size_mask 64 size)) HIGH in
              Some (put bars i ent (DefMmio64 size) (Z.lor high (Z.land (e_value ent) LOW)))
          | _ => None
          end
      end
  end.

Definition get (bars : list Entry) (idx : nat) : option (BarDefine * Z) :=
  let* e := bars !! idx in
  match e_kind e with
  | Empty | Mmio64High => None
  | Pio sz => Some (DefPio sz, e_value e)
  | Mmio sz => Some (DefMmio sz, e_value e)
  | Mmio64 sz => Some (DefMmio64 sz, e_value e)
  end.

(** ** Arithmetic of the masks *)

Lemma land_HIGH v : uint 64 v -> Z.land v HIGH = v / 2 ^ 32 * 2 ^ 32.
Proof.
  intros Hv. change HIGH with (2 ^ 64 - 1 - (2 ^ 32 - 1)). by apply land_high.
Qed.

Lemma land_LOW v : Z.land v LOW = v mod 2 ^ 32.
Proof. change LOW with (Z.ones 32). by rewrite Z.land_ones. Qed.

(** The registers of a 64-bit BAR as one address, and a register as the part
    of the address it holds. *)
Definition rounded (v size : Z) : Z := v / size * size.

(** What a write of [val] asks the address to be. *)
Definition programmed (kind : EntryKind) (high : bool) (old val : Z) : Z :=
  match kind with
  | Pio _ => val mod 2 ^ 16
  | Mmio64 _ => if high then val * 2 ^ 32 + old mod 2 ^ 32 else old / 2 ^ 32 * 2 ^ 32 + val
  | _ => val
  end.

Definition width (kind : EntryKind) : Z :=
  match kind with Pio _ => 16 | Mmio _ => 32 | _ => 64 end.

Definition kind_size (kind : EntryKind) : option Z :=
  match kind with Pio sz | Mmio sz | Mmio64 sz => Some sz | _ => None end.

Lemma low_write k old val :
  0 <= k < 64 -> uint 64 old -> old mod 2 ^ k = 0 -> uint 32 val ->
  Z.lor (Z.land old HIGH) (Z.land val (as_u 32 (size_mask 64 (2 ^ k)))) =
  rounded (old / 2 ^ 32 * 2 ^ 32 + val) (2 ^ k).
Proof.
  intros Hk Hold Hal Hval. rewrite land_HIGH by done. unfold as_u, size_mask, rounded.
  destruct (Z.le_gt_cases k 32) as [Hle|Hgt].
  - assert (Hm : (2 ^ 64 - 1 - (2 ^ k - 1)) mod 2 ^ 32 = 2 ^ 32 - 1 - (2 ^ k - 1)).
    { replace (2 ^ 64 - 1 - (2 ^ k - 1)) with (2 ^ 32 - 1 - (2 ^ k - 1) + (2 ^ 32 - 1) * 2 ^ 32) by lia.
      rewrite Z.mod_add by lia. apply Z.mod_small.
      assert (2 ^ k <= 2 ^ 32) by (apply Z.pow_le_mono_r; lia). assert (0 < 2 ^ k) by lia. lia. }
    rewrite Hm, land_high by (done || lia).
    assert (Hlow : uint 32 (val / 2 ^ k * 2 ^ k)).
    { rewrite <- (land_high 32) by (done || lia). apply uint_land; [lia|done]. }
    rewrite lor_shift_add by (done || lia).
    replace (2 ^ 32) with (2 ^ (32 - k) * 2 ^ k) by (rewrite <- Z.pow_add_r by lia; f_equal; lia).
    rewrite !Z.mul_assoc, Z.div_add_l by lia. lia.
  - assert (Hm : (2 ^ 64 - 1 - (2 ^ k - 1)) mod 2 ^ 32 = 0).
    { replace (2 ^ 64 - 1 - (2 ^ k - 1)) with ((2 ^ (64 - k) - 1) * 2 ^ (k - 32) * 2 ^ 32).
      - by apply Z.mod_mul.
      - rewrite <- Z.mul_assoc, <- Z.pow_add_r by lia. replace (k - 32 + 32) with k by lia.
        rewrite Z.mul_sub_distr_r, <- Z.pow_add_r by lia. replace (64 - k + k) with 64 by lia. lia. }
    rewrite Hm, Z.land_0_r, Z.lor_0_r.
    apply Z.mod_divide in Hal as [a ->]; [|lia].
    replace (2 ^ k) with (2 ^ (k - 32) * 2 ^ 32) by (rewrite <- Z.pow_add_r by lia; f_equal; lia).
    rewrite Z.mul_assoc, Z.div_mul by lia. rewrite <- (Z.mul_assoc a), Z.div_add_l by lia.
    rewrite Z.div_small; [lia|].
    unfold uint in Hval. assert (2 ^ 0 <= 2 ^ (k - 32)) by (apply Z.pow_le_mono_r; lia). lia.
Qed.

Lemma high_write k old val :
  0 <= k < 64 -> uint 64 old -> old mod 2 ^ k = 0 -> uint 32 val ->
  Z.lor (Z.land (Z.land (Z.shiftl val 32) (size_mask 64 (2 ^ k))) HIGH) (Z.land old LOW) =
  rounded (val * 2 ^ 32 + old mod 2 ^ 32) (2 ^ k).
Proof.
  intros Hk Hold Hal Hval. rewrite land_LOW. unfold size_mask, rounded.
  rewrite Z.shiftl_mul_pow2 by lia. unfold uint in Hval.
  rewrite land_high by (unfold uint; lia).
  assert (Hr : uint 64 (val * 2 ^ 32 / 2 ^ k * 2 ^ k)).
  { rewrite <- (land_high 64) by (unfold uint; lia). apply uint_land; unfold uint; lia. }
  rewrite land_HIGH by done.
  destruct (Z.le_gt_cases k 32) as [Hle|Hgt].
  - assert (H32 : 2 ^ 32 = 2 ^ (32 - k) * 2 ^ k) by (rewrite <- Z.pow_add_r by lia; f_equal; lia).
    replace (val * 2 ^ 32 / 2 ^ k * 2 ^ k) with (val * 2 ^ 32)
      by (rewrite H32, Z.mul_assoc, Z.div_mul by lia; done).
    rewrite Z.div_mul, lor_shift_add by (done || lia || (apply Z.mod_pos_bound; lia)).
    assert (Hz : (val * 2 ^ 32 + old mod 2 ^ 32) mod 2 ^ k = 0).
    { rewrite Z.add_mod, Z.mod_mod_divide, Hal by (lia || (exists (2 ^ (32 - k)); done)).
      rewrite H32, Z.mul_assoc, Z.mod_mul by lia. by apply Z.mod_0_l; lia. }
    pose proof (Z.div_mod (val * 2 ^ 32 + old mod 2 ^ 32) (2 ^ k)). lia.
  - assert (Hk2 : 2 ^ k = 2 ^ (k - 32) * 2 ^ 32) by (rewrite <- Z.pow_add_r by lia; f_equal; lia).
    assert (Hz : old mod 2 ^ 32 = 0).
    { apply Z.mod_divide in Hal as [a ->]; [|lia]. rewrite Hk2, Z.mul_assoc. by apply Z.mod_mul. }
    rewrite Hz, Z.lor_0_r, Z.add_0_r. set (x := val * 2 ^ 32 / 2 ^ k).
    rewrite Hk2, Z.mul_assoc, Z.div_mul by lia. done.
Qed.

(** ** The invariant *)

Record entry_ok (bars : list Entry) (i : nat) (e : Entry) : Prop := {
  eo_size : forall sz, kind_size (e_kind e) = Some sz ->
    is_power_of_two sz = true /\ sz < 2 ^ width (e_kind e) /\
    uint (width (e_kind e)) (e_value e) /\ e_value e mod sz = 0;
  eo_high : forall sz, e_kind e = Mmio64 sz ->
    exists h, bars !! S i = Some h /\ e_kind h = Mmio64High;
  eo_low : e_kind e = Mmio64High ->
    exists j lo sz, i = S j /\ bars !! j = Some lo /\ e_kind lo = Mmio64 sz;
  eo_empty : e_kind e = Empty -> e_value e = 0
}.

Definition bars_ok (bars : list Entry) : Prop :=
  length bars = BAR_COUNT /\ forall i e, bars !! i = Some e -> entry_ok bars i e.

(** The entry a register belongs to, and whether it is its high half. *)
Definition owner (bars : list Entry) (i : nat) : option (nat * bool * Entry) :=
  let* e := bars !! i in
  match e_kind e with
  | Empty => None
  | Mmio64High => let* lo := bars !! pred i in Some (pred i, true, lo)
  | _ => Some (i, false, e)
  end.

Lemma bars_ok_value bars i e v :
  bars_ok bars -> bars !! i = Some e ->
  (forall sz, kind_size (e_kind e) = Some sz -> uint (width (e_kind e)) v /\ v mod sz = 0) ->
  e_kind e <> Empty -> bars_ok (<[i := mkEntry (e_kind e) v]> bars).
Proof.
  intros [Hl Hok] Hi Hv Hne. split; [by rewrite length_insert|].
  assert (Hlt : (i < length bars)%nat) by (by eapply lookup_lt_Some).
  assert (Hkind : forall j x, bars !! j = Some x ->
    exists x', <[i := mkEntry (e_kind e) v]> bars !! j = Some x' /\ e_kind x' = e_kind x).
  { intros j x Hj. destruct (decide (j = i)) as [->|Hji].
    - rewrite list_lookup_insert_eq by done. eexists. split; [done|]. simpl. congruence.
    - rewrite list_lookup_insert_ne by done. eauto. }
  intros j x Hj. destruct (decide (j = i)) as [->|Hji].
  - rewrite list_lookup_insert_eq in Hj by done. injection Hj as <-.
    pose proof (Hok i e Hi) as [H1 H2 H3 H4]. split; simpl.
    + intros sz Hsz. destruct (H1 sz Hsz) as (? & ? & _). destruct (Hv sz Hsz). done.
    + intros sz Hsz. destruct (H2 sz Hsz) as (h & Hh & Hk).
      destruct (Hkind _ _ Hh) as (h' & ? & ?). exists h'. split; congruence.
    + intros Hk. destruct (H3 Hk) as (j & lo & sz & -> & Hlo & Hlk).
      destruct (Hkind _ _ Hlo) as (lo' & ? & ?). exists j, lo', sz. split_and!; congruence.
    + done.
  - rewrite list_lookup_insert_ne in Hj by done. pose proof (Hok j x Hj) as [H1 H2 H3 H4]. split; try done.
    + intros sz Hsz. destruct (H2 sz Hsz) as (h & Hh & Hk).
      destruct (Hkind _ _ Hh) as (h' & ? & ?). exists h'. split; congruence.
    + intros Hk. destruct (H3 Hk) as (j' & lo & sz & -> & Hlo & Hlk).
      destruct (Hkind _ _ Hlo) as (lo' & ? & ?). exists j', lo', sz. split_and!; congruence.
Qed.

Lemma rounded_ok w k v :
  0 <= k <= w -> 0 <= v < 2 ^ w -> uint w (rounded v (2 ^ k)) /\ rounded v (2 ^ k) mod 2 ^ k = 0.
Proof.
  intros Hk Hv. unfold rounded. split; [|apply Z.mod_mul; lia].
  rewrite <- (land_high w) by done. apply uint_land; [lia|done].
Qed.

Lemma programmed_bound kind high old val :
  uint (width kind) old -> uint 32 val -> kind <> Empty -> kind <> Mmio64High ->
  uint (width kind) (programmed kind high old val).
Proof.
  unfold uint. intros Ho Hv. destruct kind as [|sz|sz|sz|]; simpl; try done; intros _ _.
  - apply Z.mod_pos_bound. lia.
  - pose proof (Z.div_mod old (2 ^ 32)). pose proof (Z.mod_pos_bound old (2 ^ 32)).
    simpl in Ho. destruct high; lia.
Qed.

(** Every write to the register of a defined BAR rounds what it programs
    down to the size. *)
Lemma reg_write_owner bars i val j high e sz :
  bars_ok bars -> uint 32 val -> owner bars i = Some (j, high, e) ->
  kind_size (e_kind e) = Some sz ->
  exists def, reg_write bars i val =
    Some (put bars j e def (rounded (programmed (e_kind e) high (e_value e) val) sz)) /\
    get bars j = Some (def, e_value e) /\ bars !! j = Some e.
Proof.
  intros [Hl Hok] Hv Ho Hsz. unfold owner in Ho. unfold reg_write, get.
  destruct (bars !! i) as [x|] eqn:Hi; [|done]. simpl option_bind in *.
  assert (Hpow : forall sz', kind_size (e_kind e) = Some sz' -> is_power_of_two sz' = true ->
    sz' < 2 ^ width (e_kind e) -> exists k, 0 <= k < width (e_kind e) /\ sz' = 2 ^ k).
  { intros sz' _ (k & Hk & ->)%is_power_of_two_pow Hlt. exists k. split; [|done]. split; [done|].
    apply (Z.pow_lt_mono_r_iff 2); [lia|destruct (e_kind e); simpl; lia|done]. }
  destruct (e_kind x) as [|s|s|s|] eqn:Hk; simplify_eq.
  1-3: destruct (eo_size _ _ _ (Hok _ _ Hi) sz Hsz) as (Hp & Hlt & Hu & Hal);
    destruct (Hpow sz Hsz Hp Hlt) as (k & Hkk & ->); rewrite Hk in *; simpl in Hkk, Hsz; simplify_eq.
  - eexists. rewrite Hi. simpl. rewrite Hk. split_and!; try done. do 2 f_equal. unfold size_mask.
    rewrite land_mask by lia. done.
  - eexists. rewrite Hi. simpl. rewrite Hk. split_and!; try done. do 2 f_equal. unfold size_mask.
    rewrite land_high by (done || lia). done.
  - eexists. rewrite Hi. simpl. rewrite Hk. split_and!; try done. do 2 f_equal.
    by apply low_write.
  - destruct (eo_low _ _ _ (Hok _ _ Hi) Hk) as (j' & lo & s & -> & Hlo & Hlk).
    simpl in Ho. rewrite Hlo in *. simpl in *. simplify_eq.
    destruct (eo_size _ _ _ (Hok _ _ Hlo) sz Hsz) as (Hp & Hlt & Hu & Hal).
    destruct (Hpow sz Hsz Hp Hlt) as (k & Hkk & ->). rewrite Hlk in *. simpl in Hkk, Hsz. simplify_eq.
    eexists. rewrite Hlo. simpl. rewrite Hlk. split_and!; try done. do 2 f_equal.
    by apply high_write.
Qed.

Lemma bars_ok_new : bars_ok bars_new.
Proof.
  split; [done|]. intros i e [-> _]%lookup_replicate. by split.
Qed.

(** Sizes as the source's types hold them. *)
Definition def_ok (def : BarDefine) : Prop :=
  match def with
  | DefPio sz => uint 16 sz
  | DefMmio sz => uint 32 sz
  | DefMmio64 sz => uint 64 sz
  end.

(** Filling an empty slot that no 64-bit BAR reaches into. *)
Lemma bars_ok_fill bars i kind sz :
  bars_ok bars -> bars !! i = Some (mkEntry Empty 0) -> kind_size kind = Some sz ->
  is_power_of_two sz = true -> sz < 2 ^ width kind -> (forall s, kind <> Mmio64 s) ->
  bars_ok (<[i := mkEntry kind 0]> bars).
Proof.
  intros [Hl Hok] Hi Hsz Hp Hlt Hn. split; [by rewrite length_insert|].
  assert (Hil : (i < length bars)%nat) by (by eapply lookup_lt_Some).
  intros j x Hj. destruct (decide (j = i)) as [->|Hji].
  - rewrite list_lookup_insert_eq in Hj by done. injection Hj as <-. split; simpl.
    + intros s Hs. simplify_eq. split_and!; try done. unfold uint.
      destruct kind; simpl in *; try done; lia.
    + intros s ->. by destruct (Hn s).
    + intros ->. done.
    + done.
  - rewrite list_lookup_insert_ne in Hj by done. pose proof (Hok j x Hj) as [H1 H2 H3 H4].
    split; try done.
    + intros s Hs. destruct (H2 s Hs) as (h & Hh & Hk). exists h. split; [|done].
      rewrite list_lookup_insert_ne; [done|]. intros ->. rewrite Hh in Hi. by simplify_eq.
    + intros Hk. destruct (H3 Hk) as (j' & lo & s & -> & Hlo & Hlk). exists j', lo, s.
      split_and!; try done. rewrite list_lookup_insert_ne; [done|]. intros ->.
      rewrite Hlo in Hi. by simplify_eq.
Qed.

Lemma bars_ok_fill64 bars i sz :
  bars_ok bars -> bars !! i = Some (mkEntry Empty 0) -> bars !! S i = Some (mkEntry Empty 0) ->
  is_power_of_two sz = true -> sz < 2 ^ 64 ->
  bars_ok (<[S i := mkEntry Mmio64High 0]> (<[i := mkEntry (Mmio64 sz) 0]> bars)).
Proof.
  intros [Hl Hok] Hi Hh Hp Hlt. split; [by rewrite !length_insert|].
  assert (Hil : (S i < length bars)%nat) by (by eapply lookup_lt_Some).
  set (bars' := <[S i := _]> _).
  assert (Hlo : bars' !! i = Some (mkEntry (Mmio64 sz) 0)).
  { unfold bars'. rewrite list_lookup_insert_ne, list_lookup_insert_eq by lia. done. }
  assert (Hhi : bars' !! S i = Some (mkEntry Mmio64High 0)).
  { unfold bars'. by rewrite list_lookup_insert_eq by (rewrite length_insert; lia). }
  assert (Hoth : forall j, j <> i -> j <> S i -> bars' !! j = bars !! j).
  { intros j ? ?. unfold bars'. by rewrite !list_lookup_insert_ne by done. }
  intros j x Hj. destruct (decide (j = i)) as [->|Hji]; [|destruct (decide (j = S i)) as [->|Hjs]].
  - rewrite Hlo in Hj. injection Hj as <-. split; simpl; try done.
    + intros s [= <-]. split_and!; try done.
    + intros s _. eauto.
  - rewrite Hhi in Hj. injection Hj as <-. split; simpl; try done. intros _. by exists i, (mkEntry (Mmio64 sz) 0), sz.
  - rewrite Hoth in Hj by done. pose proof (Hok j x Hj) as [H1 H2 H3 H4]. split; try done.
    + intros s Hs. destruct (H2 s Hs) as (h & Hh' & Hk). exists h. split; [|done].
      rewrite Hoth; [done| |congruence]. intros <-. rewrite Hh' in Hi. by simplify_eq.
    + intros Hk. destruct (H3 Hk) as (j' & lo & s & -> & Hl' & Hlk). exists j', lo, s.
      split_and!; try done. rewrite Hoth; [done|congruence|]. intros ->.
      rewrite Hl' in Hh. by simplify_eq.
Qed.

Lemma define_ok bars i def bars' :
  bars_ok bars -> def_ok def -> define bars i def = Some bars' -> bars_ok bars'.
Proof.
  intros Hb Hd. unfold define. destruct (bars !! i) as [e|] eqn:Hi; [|done]. simpl option_bind.
  destruct (is_empty e) eqn:He; [|done]. cbn [negb].
  assert (Hempty : forall j x, bars !! j = Some x -> is_empty x = true -> x = mkEntry Empty 0).
  { intros j [k v] Hj Hx. destruct k; try done. f_equal. by apply (eo_empty _ _ _ (proj2 Hb _ _ Hj)). }
  pose proof (Hempty _ _ Hi He) as ->. unfold def_ok, uint in Hd.
  destruct def as [sz|sz|sz]; destruct (is_power_of_two sz) eqn:Hp; try done; cbn [negb].
  - intros [= <-]. apply (bars_ok_fill bars i (Pio sz) sz); simpl; done || lia.
  - intros [= <-]. apply (bars_ok_fill bars i (Mmio sz) sz); simpl; done || lia.
  - destruct (negb _); [done|]. destruct (bars !! S i) as [h|] eqn:Hh; [|done]. simpl option_bind.
    destruct (is_empty h) eqn:He'; [|done]. pose proof (Hempty _ _ Hh He') as ->.
    intros [= <-]. apply bars_ok_fill64; done || lia.
Qed.

Lemma owner_size bars i j high e :
  bars_ok bars -> owner bars i = Some (j, high, e) ->
  exists sz, kind_size (e_kind e) = Some sz /\ bars !! j = Some e.
Proof.
  intros [Hl Hok] Ho. unfold owner in Ho. destruct (bars !! i) as [x|] eqn:Hi; [|done].
  simpl option_bind in Ho. destruct (e_kind x) eqn:Hk; simplify_eq; try (rewrite Hk; eauto).
  destruct (eo_low _ _ _ (Hok _ _ Hi) Hk) as (j' & lo & s & -> & Hlo & Hlk).
  simpl in Ho. rewrite Hlo in Ho. simpl in Ho. simplify_eq. rewrite Hlk. eauto.
Qed.

Lemma reg_write_total bars i val :
  bars_ok bars -> uint 32 val -> (i < BAR_COUNT)%nat ->
  match owner bars i with
  | None => reg_write bars i val = Some (bars, None)
  | Some (j, high, e) => exists sz def,
      kind_size (e_kind e) = Some sz /\ get bars j = Some (def, e_value e) /\
      let new := rounded (programmed (e_kind e) high (e_value e) val) sz in
      reg_write bars i val = Some (put bars j e def new) /\
      bars_ok (<[j := mkEntry (e_kind e) new]> bars)
  end.
Proof.
  intros Hb Hv Hi. destruct (owner bars i) as [[[j high] e]|] eqn:Ho.
  - destruct (owner_size _ _ _ _ _ Hb Ho) as (sz & Hsz & Hj).
    destruct (reg_write_owner bars i val j high e sz Hb Hv Ho Hsz) as (def & Hw & Hg & _).
    exists sz, def. split_and!; try done. cbv zeta. split; [done|].
    apply bars_ok_value; try done; [|by destruct (e_kind e)].
    intros sz' Hsz'. simplify_eq.
    destruct (eo_size _ _ _ (proj2 Hb _ _ Hj) sz Hsz) as (Hp & Hlt & Hu & _).
    apply is_power_of_two_pow in Hp as (k & Hk & ->).
    apply rounded_ok; [|apply programmed_bound; try done; by destruct (e_kind e)].
    split; [done|]. apply (Z.pow_le_mono_r_iff 2); [lia|destruct (e_kind e); simpl; lia|lia].
  - unfold owner in Ho. unfold reg_write. destruct (lookup_lt_is_Some_2 bars i) as [x Hx].
    { by rewrite (proj1 Hb). }
    rewrite Hx in *. simpl option_bind in *. destruct (e_kind x) eqn:Hk; try done.
    destruct (eo_low _ _ _ (proj2 Hb _ _ Hx) Hk) as (j' & lo & s & -> & Hlo & Hlk).
    simpl in Ho. by rewrite Hlo in Ho.
Qed.

(** ** The properties *)

(** Registers as devices define them and guests write them. *)
Inductive reach : list Entry -> Prop :=
| reach_new : reach bars_new
| reach_define bars i def bars' :
    reach bars -> def_ok def -> define bars i def = Some bars' -> reach bars'
| reach_write bars i val out :
    reach bars -> uint 32 val -> (i < BAR_COUNT)%nat -> reg_write bars i val = Some out ->
    reach out.1.

Lemma reach_bars_ok bars : reach bars -> bars_ok bars.
Proof.
  induction 1 as [|bars i def bars' _ IH Hd He|bars i val out _ IH Hv Hi Hw];
    [apply bars_ok_new|by apply (define_ok bars i def)|].
  pose proof (reg_write_total bars i val IH Hv Hi) as Ht.
  destruct (owner bars i) as [[[j high] e]|].
  - destruct Ht as (sz & def & _ & _ & Hw' & Hb). rewrite Hw in Hw'. by simplify_eq.
  - rewrite Hw in Ht. by simplify_eq.
Qed.

(** C32: a guest write to any of the six registers never panics. A register of no
    BAR ignores it; otherwise the BAR's address becomes what the write programs
    (the value, or the half of a 64-bit address it carries) rounded down to the
    BAR's size, nothing else changes, and the caller is told the old and the
    new address exactly when they differ. *)
Theorem reg_write_correct bars i val :
  reach bars -> uint 32 val -> (i < BAR_COUNT)%nat ->
  match owner bars i with
  | None => reg_write bars i val = Some (bars, None)
  | Some (j, high, e) => exists sz def,
      kind_size (e_kind e) = Some sz /\ get bars j = Some (def, e_value e) /\
      let new := rounded (programmed (e_kind e) high (e_value e) val) sz in
      reg_write bars i val =
        Some (<[j := mkEntry (e_kind e) new]> bars,
              if e_value e =? new then None else Some (mkResult j def (e_value e) new)) /\
      new mod sz = 0
  end.
Proof.
  intros Hr%reach_bars_ok Hv Hi. pose proof (reg_write_total bars i val Hr Hv Hi) as Ht.
  destruct (owner bars i) as [[[j high] e]|] eqn:Ho; [|done].
  destruct Ht as (sz & def & Hsz & Hg & Hw & Hb). exists sz, def. split_and!; try done. split.
  - rewrite Hw. unfold put. by destruct (e_value e =? _).
  - destruct (owner_size _ _ _ _ _ Hr Ho) as (_ & _ & Hj).
    destruct (eo_size _ _ _ (proj2 Hr _ _ Hj) sz Hsz) as (Hp & _). unfold rounded.
    apply is_power_of_two_pow in Hp as (k & Hk & ->). apply Z.mod_mul. lia.
Qed.

(** A 256-byte port BAR and an 8 GiB 64-bit BAR. *)
Definition two_bars : list Entry :=
  [mkEntry (Pio 0x100) 0; mkEntry (Mmio64 0x200000000) 0; mkEntry Mmio64High 0;
   mkEntry Empty 0; mkEntry Empty 0; mkEntry Empty 0].

Lemma two_bars_reach : reach two_bars.
Proof.
  apply (reach_define [mkEntry (Pio 0x100) 0; mkEntry Empty 0; mkEntry Empty 0; mkEntry Empty 0;
    mkEntry Empty 0; mkEntry Empty 0] 1 (DefMmio64 0x200000000)); [|done|reflexivity].
  apply (reach_define bars_new 0 (DefPio 0x100)); [apply reach_new|done|reflexivity].
Qed.

Lemma reg_write_correct_witness :
  exists sz def,
    kind_size (Mmio64 0x200000000) = Some sz /\ get two_bars 1 = Some (def, 0) /\
    let new := rounded (programmed (Mmio64 0x200000000) true 0 0x9) sz in
    reg_write two_bars 2 0x9 =
      Some (<[1%nat := mkEntry (Mmio64 0x200000000) new]> two_bars,
            if 0 =? new then None else Some (mkResult 1 def 0 new)) /\
    new mod sz = 0.
Proof.
  apply (reg_write_correct two_bars 2 0x9); [exact two_bars_reach|done|unfold BAR_COUNT; lia].
Defined.

End bar.
