(* ===== verification/PciDevice.v ===== *)
(** * PCI functions, the bus they sit on and the way to their registers

    [Module pcidev] models vmm-devices/src/pci: the addresses of functions
    and the 0xCF8/0xCFC decoder (mod.rs), the bus of 32 slots (bus.rs) and
    the standard header of a function (device.rs); the chipset that joins
    them to the port I/O bus (chipset/i440fx.rs); and, from
    vmm-virtio/src/pci/bus.rs, how a function keeps its BARs registered on
    the I/O buses. A mutex guards each of these, so an operation on one of
    them is a function of its state; [None] is an index out of range, which
    panics. A write that moves a virtio function takes several of the locks
    in turn; PciThm has what other calls can do in between. *)

From S2P Require Import Prelude ASpace Bus PciBar.

Module pcidev.
Import common bar.

(** ** Addresses (mod.rs) *)

Definition MASK_BUS : Z := 0xFF.
Definition MASK_DEV : Z := 0x1F.
Definition MASK_FUNC : Z := 0x07.

Record Bdf : Type := mkBdf { b_bus : Z; b_dev : Z; b_func : Z }.

#[global] Instance bdf_eq_dec : EqDecision Bdf.
Proof. solve_decision. Defined.

(** [Bdf::new]; its fields are private, so every [Bdf] passed this test. *)
Definition bdf_new (bus dev func : Z) : option Bdf :=
  if (MASK_DEV <? dev) || (MASK_FUNC <? func) then None else Some (mkBdf bus dev func).

Definition cfg_addr_parse (addr : Z) : option (Bdf * Z) :=
  if Z.land addr 0x80000000 =? 0 then None
  else
    Some (mkBdf (Z.land (as_u 8 (Z.shiftr addr 16)) MASK_BUS) (Z.land (as_u 8 (Z.shiftr addr 11)) MASK_DEV)
            (Z.land (as_u 8 (Z.shiftr addr 8)) MASK_FUNC), as_u 8 (Z.land addr 0xFC)).

Definition PORT_PCI_CONFIG_ADDR : Z := 0xCF8.
Definition LEN_PCI_CONFIG_ADDR : Z := 1.
Definition PORT_PCI_CONFIG_DATA : Z := 0xCFC.
Definition LEN_PCI_CONFIG_DATA : Z := 4.

(** [PioCfgDecoder]: the latched address. *)
Definition service_addr_read (port : Z) (ro : ReadOp) (addr : Z) : ReadOp :=
  if negb (port - PORT_PCI_CONFIG_ADDR =? 0) || negb (ro_len ro =? 4) then ro else write_u32 ro addr.

Definition service_addr_write (port : Z) (wo : WriteOp) (addr : Z) : Z :=
  if negb (port - PORT_PCI_CONFIG_ADDR =? 0) || negb (wo_len wo =? 4) then addr else read_u32 wo.

(** Where an access of the data port goes; [None] when the latched address
    has no enable bit. *)
Definition data_target (port addr : Z) : option (Bdf * Z) :=
  let byte_in_dword := as_u 8 (port - PORT_PCI_CONFIG_DATA) in
  let* t := cfg_addr_parse addr in
  Some (t.1, wadd 8 t.2 byte_in_dword).

(** What a disabled decoder answers. *)
Definition data_float (ro : ReadOp) : ReadOp :=
  if ro_len ro =? 1 then write_u8 ro 0xFF
  else if ro_len ro =? 2 then write_u16 ro 0xFFFF
  else write_u32 ro 0xFFFFFFFF.

(** ** The bus (bus.rs) *)

(** [dyn PciDevice], over the state [W] of all devices. *)
Class PciDevice (W D : Type) : Type := mkPciDevice {
  pd_cfg_read : D -> Z -> Z -> W -> W * Z;
  pd_cfg_write : D -> Z -> Z -> Z -> W -> W
}.

Definition SLOTS_PER_BUS : nat := 32.
Definition FUNCS_PER_SLOT : nat := 8.
Definition ROOT_BUS : Z := 0.
Definition REG_HEADER_TYPE : Z := 0x0E.
Definition HEADER_TYPE_MULTIFUNC : Z := 128.

Definition bus_float (len : Z) : Z := if len =? 1 then 0xFF else if len =? 2 then 0xFFFF else 0xFFFFFFFF.

Inductive AttachError : Type := SlotOccupied (bdf : Bdf) | NoSuchBus (bdf : Bdf).

Definition header_type_shift (offset len : Z) : option Z :=
  let* last := checked_add 8 offset len in
  if (offset <=? REG_HEADER_TYPE) && (REG_HEADER_TYPE <? last) then Some ((REG_HEADER_TYPE - offset) * 8) else None.

Section bus.
Context {W D : Type} `{PciDevice W D}.

Definition PciSlots : Type := list (list (option D)).

Definition pci_bus_new : PciSlots := replicate SLOTS_PER_BUS (replicate FUNCS_PER_SLOT None).

Definition at_bdf (slots : PciSlots) (bdf : Bdf) : option (option D) :=
  let* slot := slots !! Z.to_nat (b_dev bdf) in slot !! Z.to_nat (b_func bdf).

Definition put_bdf (slots : PciSlots) (bdf : Bdf) (d : option D) : PciSlots :=
  alter (fun slot => <[Z.to_nat (b_func bdf) := d]> slot) (Z.to_nat (b_dev bdf)) slots.

Definition try_attach (bdf : Bdf) (d : D) (slots : PciSlots) : option (result AttachError PciSlots) :=
  if negb (b_bus bdf =? ROOT_BUS) then Some (Err (NoSuchBus bdf))
  else
    let* cur := at_bdf slots bdf in
    match cur with
    | Some _ => Some (Err (SlotOccupied bdf))
    | None => Some (Ok (put_bdf slots bdf (Some d)))
    end.

Definition detach (bdf : Bdf) (slots : PciSlots) : option (option D * PciSlots) :=
  if negb (b_bus bdf =? ROOT_BUS) then Some (None, slots)
  else let* cur := at_bdf slots bdf in Some (cur, put_bdf slots bdf None).

Definition device_at (bdf : Bdf) (slots : PciSlots) : option (option D) :=
  if negb (b_bus bdf =? ROOT_BUS) then Some None else at_bdf slots bdf.

Definition config_read (slots : PciSlots) (bdf : Bdf) (offset len : Z) (w : W) : option (W * Z) :=
  if negb (b_bus bdf =? ROOT_BUS) then Some (w, bus_float len)
  else
    let* slot := slots !! Z.to_nat (b_dev bdf) in
    let* cur := slot !! Z.to_nat (b_func bdf) in
    match cur with
    | None => Some (w, bus_float len)
    | Some d =>
        let multifunc := (b_func bdf =? 0) && existsb (fun f => bool_decide (is_Some f)) (drop 1 slot) in
        let '(w, val) := pd_cfg_read d offset len w in
        Some (w, match (if multifunc then header_type_shift offset len else None) with
                 | Some shift => Z.lor val (Z.shiftl HEADER_TYPE_MULTIFUNC shift)
                 | None => val
                 end)
    end.

Definition config_write (slots : PciSlots) (bdf : Bdf) (offset len val : Z) (w : W) : option W :=
  if negb (b_bus bdf =? ROOT_BUS) then Some w
  else
    let* cur := at_bdf slots bdf in
    Some (match cur with Some d => pd_cfg_write d offset len val w | None => w end).

(** ** The chipset (i440fx.rs) *)

Record Chipset : Type := mkChipset { cs_slots : PciSlots; cs_addr : Z; cs_post : Z; cs_world : W }.

Definition with_addr (a : Z) (c : Chipset) : Chipset := mkChipset (cs_slots c) a (cs_post c) (cs_world c).
Definition with_post (p : Z) (c : Chipset) : Chipset := mkChipset (cs_slots c) (cs_addr c) p (cs_world c).
Definition with_world (w : W) (c : Chipset) : Chipset := mkChipset (cs_slots c) (cs_addr c) (cs_post c) w.

(** [pio_cfg_data_handler], the two directions. *)
Definition cfg_data_read (port : Z) (ro : ReadOp) (c : Chipset) : option (Chipset * ReadOp) :=
  match data_target port (cs_addr c) with
  | None => Some (c, data_float ro)
  | Some (bdf, offset) =>
      let* r := config_read (cs_slots c) bdf offset (ro_len ro) (cs_world c) in
      Some (with_world r.1 c, write_dword ro r.2)
  end.

Definition cfg_data_write (port : Z) (wo : WriteOp) (c : Chipset) : option Chipset :=
  match data_target port (cs_addr c) with
  | None => Some c
  | Some (bdf, offset) =>
      let* w := config_write (cs_slots c) bdf offset (wo_len wo) (read_u32 wo) (cs_world c) in
      Some (with_world w c)
  end.

Definition PORT_POST_CODE : Z := 0x80.
Definition LEN_POST_CODE : Z := 1.

(** The handlers [create] registers. Bus handlers have no way to panic; the
    data handler keeps the state where the array index would. *)
Definition addr_handler : Handler Chipset :=
  mkHandler (fun offset ro c => (c, service_addr_read (wadd 16 PORT_PCI_CONFIG_ADDR offset) ro (cs_addr c)))
    (fun offset wo c => with_addr (service_addr_write (wadd 16 PORT_PCI_CONFIG_ADDR offset) wo (cs_addr c)) c).
Definition data_handler : Handler Chipset :=
  mkHandler (fun offset ro c => default (c, ro) (cfg_data_read (wadd 16 PORT_PCI_CONFIG_DATA offset) ro c))
    (fun offset wo c => default c (cfg_data_write (wadd 16 PORT_PCI_CONFIG_DATA offset) wo c)).
Definition post_handler : Handler Chipset :=
  mkHandler (fun _ ro c => (c, write_u8 ro (cs_post c))) (fun _ wo c => with_post (read_u8 wo) c).

(** [create], on a bus that may hold other devices: [None] when a port is
    taken, which panics. *)
Definition create_ports (bus : @pio.PioBus Chipset) : option (@pio.PioBus Chipset) :=
  let reg port len h bus :=
    match pio.pio_register bus port len h with Some (Ok bus) => Some bus | _ => None end in
  let* bus := reg PORT_PCI_CONFIG_ADDR LEN_PCI_CONFIG_ADDR addr_handler bus in
  let* bus := reg PORT_PCI_CONFIG_DATA LEN_PCI_CONFIG_DATA data_handler bus in
  reg PORT_POST_CODE LEN_POST_CODE post_handler bus.

End bus.

(** ** The header of a function (device.rs) *)

Definition LEN_CFG_STD : Z := 0x40.
Definition REG_BAR0 : Z := 0x10.
Definition REG_COMMAND : Z := 0x04.
Definition IO_EN : Z := 1.
Definition MMIO_EN : Z := 2.
Definition BUSMSTR_EN : Z := 4.
Definition INTX_DIS : Z := 1024.
Definition CAP_LIST : Z := 16.
Definition HEADER_TYPE_DEVICE : Z := 0.
(** All the flags [RegCmd] knows. *)
Definition CMD_ALL : Z := 1031.

Record DeviceIdent : Type := mkIdent {
  vendor_id : Z; device_id : Z; class : Z; subclass : Z; prog_if : Z; revision : Z; sub_vendor_id : Z; sub_device_id : Z
}.

Record DeviceState : Type := mkDevice {
  ident : DeviceIdent; command : Z; bars : list Entry; intr_line : Z; intr_pin : Z; header_type : Z; cap_ptr : Z
}.

Definition device_new (i : DeviceIdent) : DeviceState := mkDevice i INTX_DIS bars_new 0xFF 0 HEADER_TYPE_DEVICE 0.

Definition with_bars (b : list Entry) (d : DeviceState) : DeviceState :=
  mkDevice (ident d) (command d) b (intr_line d) (intr_pin d) (header_type d) (cap_ptr d).
Definition with_command (c : Z) (d : DeviceState) : DeviceState :=
  mkDevice (ident d) c (bars d) (intr_line d) (intr_pin d) (header_type d) (cap_ptr d).
Definition set_intr_line (irq : Z) (d : DeviceState) : DeviceState :=
  mkDevice (ident d) (command d) (bars d) irq (intr_pin d) (header_type d) (cap_ptr d).
Definition set_intr_pin (pin : Z) (d : DeviceState) : DeviceState :=
  mkDevice (ident d) (command d) (bars d) (intr_line d) pin (header_type d) (cap_ptr d).
Definition set_cap_ptr (offset : Z) (d : DeviceState) : DeviceState :=
  mkDevice (ident d) (command d) (bars d) (intr_line d) (intr_pin d) (header_type d) offset.

Definition define_bar (i : nat) (def : BarDefine) (d : DeviceState) : option DeviceState :=
  let* b := define (bars d) i def in Some (with_bars b d).

Record MigratePciState : Type := mkMigPci { mp_command : Z; mp_bar_addrs : list Z }.

Definition migrate_state (d : DeviceState) : MigratePciState :=
  mkMigPci (command d) ((fun i => match get (bars d) i with Some (_, value) => value | None => 0 end) <$> seq 0 BAR_COUNT).

(** The writes for the BAR at one index. *)
Definition replay_bar (d : DeviceState) (idx : nat) (addr : Z) : list (Z * Z) :=
  let offset := REG_BAR0 + Z.of_nat idx * 4 in
  match get (bars d) idx with
  | None => []
  | Some (DefPio _, _) | Some (DefMmio _, _) => [(offset, as_u 32 addr)]
  | Some (DefMmio64 _, _) => [(offset, as_u 32 addr); (offset + 4, as_u 32 (Z.shiftr addr 32))]
  end.

Definition bar_replay_writes (d : DeviceState) (bar_addrs : list Z) : list (Z * Z) :=
  concat (imap (replay_bar d) bar_addrs).

(** [device::size_mask]. *)
Definition len_mask (len : Z) : Z := if len =? 1 then 0xFF else if len =? 2 then 0xFFFF else 0xFFFFFFFF.

(** [BarN::try_from((off - 0x10) / 4)]. *)
Definition bar_index (dword_off : Z) : option nat :=
  if (0x10 <=? dword_off) && (dword_off <=? 0x24) && (Z.land dword_off 3 =? 0)
  then Some (Z.to_nat ((dword_off - 0x10) / 4)) else None.

(** The dword of a register; [None] is the panic of a malformed BAR pair. *)
Definition cfg_dword (d : DeviceState) (dword_off : Z) : option Z :=
  let i := ident d in
  if dword_off =? 0x00 then Some (Z.lor (vendor_id i) (Z.shiftl (device_id i) 16))
  else if dword_off =? 0x04 then Some (Z.lor (command d) (Z.shiftl (if cap_ptr d =? 0 then 0 else CAP_LIST) 16))
  else if dword_off =? 0x08 then
    Some (Z.lor (Z.lor (Z.lor (revision i) (Z.shiftl (prog_if i) 8)) (Z.shiftl (subclass i) 16)) (Z.shiftl (class i) 24))
  else if dword_off =? 0x0C then Some (Z.shiftl (header_type d) 16)
  else
    match bar_index dword_off with
    | Some b => reg_read (bars d) b
    | None =>
        if dword_off =? 0x2C then Some (Z.lor (sub_vendor_id i) (Z.shiftl (sub_device_id i) 16))
        else if dword_off =? 0x34 then Some (cap_ptr d)
        else if dword_off =? 0x3C then Some (Z.lor (intr_line d) (Z.shiftl (intr_pin d) 8))
        else Some 0
    end.

Definition cfg_read (d : DeviceState) (offset len : Z) : option Z :=
  if LEN_CFG_STD <=? offset then Some 0
  else
    let* v := cfg_dword d (Z.land offset 0xFC) in
    Some (Z.land (Z.shiftr v (Z.land offset 3 * 8)) (len_mask len)).

Definition command_write (d : DeviceState) (byte_off len val : Z) : DeviceState :=
  let shift := byte_off * 8 in
  let mask := as_u 32 (Z.shiftl (len_mask len) shift) in
  let new_bits := Z.lor (Z.ldiff (command d) mask) (Z.land (as_u 32 (Z.shiftl val shift)) mask) in
  let writable := Z.lor (Z.lor (Z.lor IO_EN MMIO_EN) BUSMSTR_EN) INTX_DIS in
  with_command (Z.land CMD_ALL (Z.lor (Z.land (as_u 16 new_bits) writable) (Z.ldiff (command d) writable))) d.

Definition cfg_write (d : DeviceState) (offset len val : Z) : option DeviceState :=
  if LEN_CFG_STD <=? offset then Some d
  else
    let dword_off := Z.land offset 0xFC in
    let byte_off := Z.land offset 3 in
    if (dword_off =? 0x04) && (byte_off <? 2) then Some (command_write d byte_off len val)
    else
      match bar_index dword_off with
      | Some b =>
          if (byte_off =? 0) && (len =? 4) then let* r := reg_write (bars d) b val in Some (with_bars r.1 d)
          else Some d
      | None =>
          if (dword_off =? 0x3C) && (byte_off =? 0) && (1 <=? len) then Some (set_intr_line (as_u 8 val) d)
          else Some d
      end.

(** [replay_migrate_pci_state] on the header alone. *)
Fixpoint replay_writes (writes : list (Z * Z)) (d : DeviceState) : option DeviceState :=
  match writes with
  | [] => Some d
  | (offset, value) :: writes => let* d := cfg_write d offset 4 value in replay_writes writes d
  end.

Definition replay_migrate_pci_state (writes : list (Z * Z)) (cmd : Z) (d : DeviceState) : option DeviceState :=
  let* d := replay_writes writes d in cfg_write d REG_COMMAND 2 cmd.

(** ** The bridges of the chipset (i440fx.rs) *)

Definition VENDOR_INTEL : Z := 0x8086.
Definition PIIX4_HB_DEV_ID : Z := 0x1237.
Definition PIIX3_ISA_DEV_ID : Z := 0x7000.
Definition CLASS_BRIDGE : Z := 6.
Definition SUBCLASS_BRIDGE_HOST : Z := 0.
Definition SUBCLASS_BRIDGE_ISA : Z := 1.

Definition hostbridge_new : DeviceState :=
  device_new (mkIdent VENDOR_INTEL PIIX4_HB_DEV_ID CLASS_BRIDGE SUBCLASS_BRIDGE_HOST 0 0 0 0).

Definition PIR_OFFSET : Z := 0x60.
Definition PIR_COUNT : Z := 4.

(** The bridge and the routing registers it shares with the interrupt
    pins. *)
Record LpcBridge : Type := mkLpc { lpc_state : DeviceState; pir_regs : list Z }.

Definition lpc_new : LpcBridge :=
  mkLpc (device_new (mkIdent VENDOR_INTEL PIIX3_ISA_DEV_ID CLASS_BRIDGE SUBCLASS_BRIDGE_ISA 0 0 0 0))
    (replicate (Z.to_nat PIR_COUNT) 0x80).

Definition lpc_cfg_read (l : LpcBridge) (offset len : Z) : option Z :=
  if (PIR_OFFSET <=? offset) && (offset <? PIR_OFFSET + PIR_COUNT) then pir_regs l !! Z.to_nat (offset - PIR_OFFSET)
  else cfg_read (lpc_state l) offset len.

Definition lpc_cfg_write (l : LpcBridge) (offset len val : Z) : option LpcBridge :=
  if (PIR_OFFSET <=? offset) && (offset <? PIR_OFFSET + PIR_COUNT) && (len =? 1) then
    let idx := Z.to_nat (offset - PIR_OFFSET) in
    let* _old := pir_regs l !! idx in
    Some (mkLpc (lpc_state l) (<[idx := as_u 8 val]> (pir_regs l)))
  else let* d := cfg_write (lpc_state l) offset len val in Some (mkLpc d (pir_regs l)).

End pcidev.

(** ** BARs on the I/O buses (vmm-virtio/src/pci/bus.rs) *)

Module pcireg.
Import aspace bar pcidev.

(** A bus handler is a closure over a device and one of its BARs. *)
Definition bus : Type := ASpace (nat * nat).

(** The header of a function and what it has registered: [registered_bar],
    [registered_bar2] and [registered_bar4]. *)
Record function : Type := mkFunc {
  f_hdr : DeviceState; f_msix : bool; f_bar0 : option Z; f_bar2 : option Z; f_bar4 : option Z
}.

Definition with_hdr (d : DeviceState) (f : function) : function :=
  mkFunc d (f_msix f) (f_bar0 f) (f_bar2 f) (f_bar4 f).

(** [release_pio] and [release_mmio]: a failure is logged. *)
Definition release (reg : option Z) (b : bus) : bus :=
  match reg with
  | None => b
  | Some addr => match unregister b addr with Ok (_, b') => b' | Err _ => b end
  end.

(** Register and record; a conflict leaves the BAR dark. *)
Definition put_bus (addr size : Z) (owner : nat * nat) (b : bus) : option (option Z * bus) :=
  let* r := register b addr size owner in
  Some (match r with Ok b' => (Some addr, b') | Err _ => (None, b) end).

Definition has_cmd (d : DeviceState) (flag : Z) : bool := Z.land (command d) flag =? flag.

Definition update_bar_registration (id : nat) (f : function) (b : bus) : option (function * bus) :=
  let b := release (f_bar0 f) b in
  let set (r : option Z * bus) := (mkFunc (f_hdr f) (f_msix f) r.1 (f_bar2 f) (f_bar4 f), r.2) in
  if has_cmd (f_hdr f) IO_EN then
    match get (bars (f_hdr f)) 0 with
    | Some (DefPio size, addr) =>
        let port := as_u 16 addr in
        if negb (port =? 0) then let* r := put_bus port size (id, 0%nat) b in Some (set r)
        else Some (set (None, b))
    | _ => Some (set (None, b))
    end
  else Some (set (None, b)).

Definition register_mmio (id bar : nat) (f : function) (b : bus) : option (option Z * bus) :=
  match get (bars (f_hdr f)) bar with
  | None => Some (None, b)
  | Some (def, addr) =>
      if (addr =? 0) || negb (is_mmio def) then Some (None, b) else put_bus addr (def_size def) (id, bar) b
  end.

(** One BAR of [update_mmio_registration]: release, then register. *)
Definition update_mmio (id bar : nat) (reg : option Z) (f : function) (b : bus) : option (option Z * bus) :=
  let b := release reg b in
  if has_cmd (f_hdr f) MMIO_EN then register_mmio id bar f b else Some (None, b).

Definition update_mmio_registration (id : nat) (f : function) (b : bus) : option (function * bus) :=
  let* r2 := update_mmio id 2 (f_bar2 f) f b in
  let f := mkFunc (f_hdr f) (f_msix f) (f_bar0 f) r2.1 (f_bar4 f) in
  if negb (f_msix f) then Some (f, r2.2)
  else
    let* r4 := update_mmio id 4 (f_bar4 f) f r2.2 in
    Some (mkFunc (f_hdr f) (f_msix f) (f_bar0 f) (f_bar2 f) r4.1, r4.2).

(** Whether a write of configuration space can move the function. *)
Definition moves (offset : Z) : bool :=
  let dword_off := Z.land offset 0xFC in (dword_off =? 0x04) || ((0x10 <=? dword_off) && (dword_off <=? 0x24)).

Definition detach_regions (f : function) (pio mmio : bus) : function * bus * bus :=
  (mkFunc (f_hdr f) (f_msix f) None None None, release (f_bar0 f) pio, release (f_bar4 f) (release (f_bar2 f) mmio)).

End pcireg.
