(* ===== verification/PciThm.v ===== *)
(** * What the PCI layer promises

    A configuration access through ports 0xCF8 and 0xCFC reaches the one
    function it names; a header keeps its read-only fields and its BARs
    consistent under every write; a migrated header replays to the same
    BARs; and what a function has on the I/O buses is what its header and
    its records say, however vCPUs interleave. *)

From S2P Require Import Prelude ASpace Bus PciBar PciDevice.

Module pci_thm.
Import common bar pcidev.

(** ** The header *)

Record hdr_ok (d : DeviceState) : Prop := mkHdrOk {
  ho_bars : bars_ok (bars d);
  ho_command : Z.land CMD_ALL (command d) = command d
}.

Lemma bar_offset i : (i < BAR_COUNT)%nat -> let off := REG_BAR0 + Z.of_nat i * 4 in
  off < LEN_CFG_STD /\ Z.land off 0xFC = off /\ Z.land off 3 = 0 /\ bar_index off = Some i /\ (off =? 4) = false.
Proof. intros Hi. unfold BAR_COUNT in Hi. do 6 (destruct i as [|i]; [vm_compute; done|]). lia. Qed.

Lemma cfg_write_bar d i val :
  (i < BAR_COUNT)%nat ->
  cfg_write d (REG_BAR0 + Z.of_nat i * 4) 4 val = (let* r := reg_write (bars d) i val in Some (with_bars r.1 d)).
Proof.
  intros Hi. destruct (bar_offset i Hi) as (H1 & H2 & H3 & H4 & H5). unfold cfg_write.
  destruct (Z.leb_spec LEN_CFG_STD (REG_BAR0 + Z.of_nat i * 4)); [lia|]. by rewrite H2, H3, H4, H5.
Qed.

Lemma command_write_ok d b len val : Z.land CMD_ALL (command (command_write d b len val)) = command (command_write d b len val).
Proof. unfold command_write. cbn [command with_command]. by rewrite Z.land_assoc, Z.land_diag. Qed.

(** A write never panics and keeps the header well formed. *)
Lemma cfg_write_ok d offset len val :
  hdr_ok d -> uint 32 val ->
  exists d', cfg_write d offset len val = Some d' /\ hdr_ok d' /\
    ident d' = ident d /\ intr_pin d' = intr_pin d /\ header_type d' = header_type d /\ cap_ptr d' = cap_ptr d /\
    e_kind <$> bars d' = e_kind <$> bars d.
Proof.
  intros [Hb Hc] Hv. unfold cfg_write. destruct (LEN_CFG_STD <=? offset); [eexists; split_and!; done|].
  destruct (_ && _).
  { eexists. split; [done|]. split; [split; [done|apply command_write_ok]|done]. }
  destruct (bar_index _) as [b|] eqn:Hi; [|destruct (_ && _); eexists; split_and!; done].
  destruct (_ && _); [|eexists; split_and!; done].
  assert (Hlt : (b < BAR_COUNT)%nat).
  { unfold bar_index in Hi. destruct (Z.leb_spec 16 (Z.land offset 252)), (Z.leb_spec (Z.land offset 252) 36); try done.
    destruct (_ =? _); [|done]. injection Hi as <-. unfold BAR_COUNT.
    pose proof (Z.div_le_upper_bound (Z.land offset 252 - 16) 4 5). pose proof (Z.div_pos (Z.land offset 252 - 16) 4). lia. }
  pose proof (reg_write_total (bars d) b val Hb Hv Hlt) as Ht.
  destruct (owner (bars d) b) as [[[j high] e]|] eqn:Ho.
  - destruct Ht as (sz & def & Hsz & _ & -> & Hok). eexists. split; [done|]. split; [by split|].
    split_and!; try done. cbn [with_bars bars put fst]. destruct (owner_size _ _ _ _ _ Hb Ho) as (_ & _ & Hj).
    rewrite list_fmap_insert. apply list_insert_id. by rewrite list_lookup_fmap, Hj.
  - rewrite Ht. eexists. split; [done|]. by split_and!.
Qed.

(** Headers as devices build them and guests write them. *)
Inductive hdr_reach : DeviceState -> Prop :=
| hr_new i : hdr_reach (device_new i)
| hr_define d i def d' : hdr_reach d -> def_ok def -> define_bar i def d = Some d' -> hdr_reach d'
| hr_line d x : hdr_reach d -> hdr_reach (set_intr_line x d)
| hr_pin d x : hdr_reach d -> hdr_reach (set_intr_pin x d)
| hr_cap d x : hdr_reach d -> hdr_reach (set_cap_ptr x d)
| hr_write d offset len val d' :
    hdr_reach d -> uint 32 val -> cfg_write d offset len val = Some d' -> hdr_reach d'.

Lemma hdr_reach_ok d : hdr_reach d -> hdr_ok d.
Proof.
  induction 1 as [i|d i def d' _ [Hb Hc] Hd He|d x _ [Hb Hc]|d x _ [Hb Hc]|d x _ [Hb Hc]|d offset len val d' _ IH Hv Hw].
  - split; [apply bars_ok_new|done].
  - unfold define_bar in He. destruct (define (bars d) i def) eqn:Hdef; [|done]. simplify_eq.
    split; [by eapply define_ok|done].
  - by split.
  - by split.
  - by split.
  - destruct (cfg_write_ok d offset len val IH Hv) as (d1 & Hw1 & Hok & _). rewrite Hw in Hw1. by simplify_eq.
Qed.

(** ** Replaying a migrated header *)

Lemma rounded_id v sz : 0 < sz -> v mod sz = 0 -> rounded v sz = v.
Proof. intros Hs Hm. unfold rounded. rewrite Z.mul_comm. symmetry. by apply Z_div_exact_full_2; [lia|]. Qed.

(** Both halves of a 64-bit BAR. *)
Lemma halves64 k old v :
  0 <= k < 64 -> old mod 2 ^ k = 0 -> v mod 2 ^ k = 0 ->
  let r := rounded (old / 2 ^ 32 * 2 ^ 32 + v mod 2 ^ 32) (2 ^ k) in
  rounded (v / 2 ^ 32 * 2 ^ 32 + r mod 2 ^ 32) (2 ^ k) = v.
Proof.
  intros Hk Hold Hv. cbv zeta.
  assert (Hpk : 0 < 2 ^ k) by lia.
  destruct (Z.le_gt_cases k 32) as [Hle|Hgt].
  - assert (Hd : (2 ^ k | 2 ^ 32)).
    { exists (2 ^ (32 - k)). rewrite <- Z.pow_add_r by lia. f_equal. lia. }
    assert (Hvm : (v mod 2 ^ 32) mod 2 ^ k = 0).
    { rewrite <- (Znumtheory.Zmod_div_mod (2 ^ k) (2 ^ 32) v); [done|done|lia|exact Hd]. }
    assert (Hsum : forall a, (a * 2 ^ 32 + v mod 2 ^ 32) mod 2 ^ k = 0).
    { intros a. destruct Hd as [q Hq]. replace (a * 2 ^ 32) with (a * q * 2 ^ k) by (rewrite Hq; lia).
      by rewrite Z.add_comm, Z.mod_add by lia. }
    rewrite (rounded_id (old / 2 ^ 32 * 2 ^ 32 + v mod 2 ^ 32)) by (done || apply Hsum).
    replace ((old / 2 ^ 32 * 2 ^ 32 + v mod 2 ^ 32) mod 2 ^ 32) with (v mod 2 ^ 32)
      by (rewrite Z.add_comm, Z.mod_add, Z.mod_mod by lia; done).
    rewrite rounded_id by (done || apply Hsum). pose proof (Z.div_mod v (2 ^ 32)). lia.
  - assert (Hlow : forall x, x mod 2 ^ k = 0 -> x mod 2 ^ 32 = 0 /\ x / 2 ^ 32 * 2 ^ 32 = x).
    { intros x Hx. apply Z.mod_divide in Hx as [q ->]; [|lia].
      replace (2 ^ k) with (2 ^ (k - 32) * 2 ^ 32) by (rewrite <- Z.pow_add_r by lia; f_equal; lia).
      rewrite Z.mul_assoc, Z.div_mul, Z.mod_mul by lia. done. }
    destruct (Hlow old Hold) as [_ Ho], (Hlow v Hv) as [Hv0 Hv1].
    rewrite Hv0, Z.add_0_r, Ho, (rounded_id old) by done. destruct (Hlow old Hold) as [-> _].
    by rewrite Z.add_0_r, Hv1, rounded_id.
Qed.

(** The address an entry of this kind can hold. *)
Definition fits (kind : EntryKind) (v : Z) : Prop :=
  forall sz, kind_size kind = Some sz -> uint (width kind) v /\ v mod sz = 0.

Lemma bars_value_fits bs i e : bars_ok bs -> bs !! i = Some e -> fits (e_kind e) (e_value e).
Proof. intros [_ Hok] Hi sz Hsz. destruct (eo_size _ _ _ (Hok _ _ Hi) sz Hsz) as (_ & _ & ? & ?). done. Qed.

(** The entry with an address put in, where it has one. *)
Definition aimed (e : Entry) (v : Z) : Entry :=
  match kind_size (e_kind e) with Some _ => mkEntry (e_kind e) v | None => e end.

(** One dword write to a register that belongs to a BAR. *)
Lemma cfg_write_owned d i j high e sz val :
  hdr_ok d -> uint 32 val -> owner (bars d) i = Some (j, high, e) -> kind_size (e_kind e) = Some sz ->
  let new := <[j := mkEntry (e_kind e) (rounded (programmed (e_kind e) high (e_value e) val) sz)]> (bars d) in
  cfg_write d (REG_BAR0 + Z.of_nat i * 4) 4 val = Some (with_bars new d) /\ hdr_ok (with_bars new d).
Proof.
  intros [Hb Hc] Hv Ho Hsz. cbv zeta.
  assert (Hlt : (i < BAR_COUNT)%nat).
  { unfold owner in Ho. destruct (bars d !! i) eqn:Hi; [|done]. rewrite <- (proj1 Hb). by eapply lookup_lt_Some. }
  rewrite cfg_write_bar by done. pose proof (reg_write_total (bars d) i val Hb Hv Hlt) as Ht. rewrite Ho in Ht.
  destruct Ht as (sz' & def & Hsz' & _ & -> & Hok). rewrite Hsz in Hsz'. injection Hsz' as <-. done.
Qed.

Lemma power_pos sz : is_power_of_two sz = true -> 0 < sz.
Proof. intros Hp. apply is_power_of_two_pow in Hp as (k & Hk & ->). lia. Qed.

(** The writes of one BAR program it. *)
Lemma replay_bar_correct d0 d i e0 e v :
  hdr_ok d -> bars d0 !! i = Some e0 -> bars d !! i = Some e -> e_kind e0 = e_kind e -> fits (e_kind e) v ->
  replay_writes (replay_bar d0 i v) d = Some (with_bars (<[i := aimed e v]> (bars d)) d) /\
  hdr_ok (with_bars (<[i := aimed e v]> (bars d)) d).
Proof.
  intros Hd H0 Hi Hk Hv. pose proof (proj2 (ho_bars d Hd) i e Hi) as Hok.
  unfold replay_bar, aimed, get. rewrite H0. simpl option_bind.
  assert (Hskip : kind_size (e_kind e) = None ->
    Some d = Some (with_bars (<[i:=e]> (bars d)) d) /\ hdr_ok (with_bars (<[i:=e]> (bars d)) d)).
  { intros _. rewrite list_insert_id by done. by destruct d. }
  assert (Hone : forall w, width (e_kind e) = w -> w <= 32 -> forall sz, kind_size (e_kind e) = Some sz ->
    owner (bars d) i = Some (i, false, e) -> programmed (e_kind e) false (e_value e) (as_u 32 v) = v ->
    replay_writes [(REG_BAR0 + Z.of_nat i * 4, as_u 32 v)] d = Some (with_bars (<[i:=mkEntry (e_kind e) v]> (bars d)) d) /\
    hdr_ok (with_bars (<[i:=mkEntry (e_kind e) v]> (bars d)) d)).
  { intros w Hw Hw32 sz Hsz Ho Hpr. destruct (Hv sz Hsz) as [Hu Hm]. destruct (eo_size _ _ _ Hok sz Hsz) as (Hp & _).
    destruct (cfg_write_owned d i i false e sz (as_u 32 v) Hd (as_u_uint 32 v ltac:(lia)) Ho Hsz) as [Hcw Hok'].
    rewrite Hpr, rounded_id in Hcw, Hok' by (done || by apply power_pos). simpl. by rewrite Hcw. }
  assert (Hown : forall sz, kind_size (e_kind e) = Some sz -> owner (bars d) i = Some (i, false, e)).
  { intros sz Hsz. unfold owner. rewrite Hi. simpl. by destruct (e_kind e). }
  rewrite Hk. destruct (e_kind e) as [|sz|sz|sz|] eqn:Hke; try (by apply Hskip).
  - destruct (Hv sz eq_refl) as [Hu _]. apply (Hone 16 eq_refl ltac:(lia) sz eq_refl (Hown sz eq_refl)). simpl.
    unfold uint in Hu. simpl in Hu. unfold as_u. rewrite (Z.mod_small v (2 ^ 32)) by lia. by rewrite Z.mod_small.
  - destruct (Hv sz eq_refl) as [Hu _]. apply (Hone 32 eq_refl ltac:(lia) sz eq_refl (Hown sz eq_refl)). simpl.
    by apply Z.mod_small.
  - clear Hone. destruct (Hv sz eq_refl) as [Hu Hm]. destruct (eo_size _ _ _ Hok sz) as (Hp & Hlt & Hou & Hom); [by rewrite Hke|].
    destruct (eo_high _ _ _ Hok sz Hke) as (h & Hh & Hhk). rewrite Hke in Hou, Hlt. simpl in Hou, Hlt, Hu.
    destruct (cfg_write_owned d i i false e sz (as_u 32 v) Hd (as_u_uint 32 v ltac:(lia)) (Hown sz eq_refl)) as [H1 Hok1]; [by rewrite Hke|].
    set (r := rounded _ sz) in H1, Hok1. set (b1 := <[i := mkEntry (e_kind e) r]> (bars d)) in *.
    assert (Hil : (i < length (bars d))%nat) by (by eapply lookup_lt_Some).
    assert (Ho1 : owner (bars (with_bars b1 d)) (S i) = Some (i, true, mkEntry (e_kind e) r)).
    { unfold owner, b1. cbn [with_bars bars]. rewrite list_lookup_insert_ne by lia. rewrite Hh. simpl. rewrite Hhk.
      by rewrite list_lookup_insert_eq. }
    destruct (cfg_write_owned (with_bars b1 d) (S i) i true _ sz (as_u 32 (Z.shiftr v 32)) Hok1
      (as_u_uint 32 _ ltac:(lia)) Ho1) as [H2 Hok2]; [by rewrite Hke|].
    cbn [e_kind e_value] in H2, Hok2. rewrite Hke in H2, Hok2. simpl programmed in H2, Hok2.
    assert (Hval : rounded (as_u 32 (Z.shiftr v 32) * 2 ^ 32 + r mod 2 ^ 32) sz = v).
    { unfold r. rewrite Hke. simpl programmed. unfold as_u. rewrite Z.shiftr_div_pow2 by lia. unfold uint in Hu.
      rewrite (Z.mod_small (v / 2 ^ 32)) by (split; [apply Z.div_pos; lia|apply Z.div_lt_upper_bound; lia]).
      apply is_power_of_two_pow in Hp as (k & Hk0 & ->). apply halves64; [|done|done].
      split; [done|]. apply (Z.pow_lt_mono_r_iff 2); lia. }
    rewrite Hval in H2, Hok2. unfold b1 in H2, Hok2. cbn [with_bars bars] in H2, Hok2. rewrite list_insert_insert_eq in H2, Hok2.
    cbn [replay_writes]. rewrite H1. simpl option_bind. unfold b1.
    replace (REG_BAR0 + Z.of_nat i * 4 + 4) with (REG_BAR0 + Z.of_nat (S i) * 4) by lia. rewrite H2. done.
Qed.

Lemma aimed_kind e v : e_kind (aimed e v) = e_kind e.
Proof. unfold aimed. by case_match. Qed.

Lemma replay_writes_app l1 l2 d : replay_writes (l1 ++ l2) d = (let* d := replay_writes l1 d in replay_writes l2 d).
Proof.
  revert d. induction l1 as [|[o v] l1 IH]; intros d; simpl; [done|]. destruct (cfg_write d o 4 v); simpl; [apply IH|done].
Qed.

(** All of them, from an index on. *)
Lemma replay_from d0 vs k d :
  hdr_ok d -> e_kind <$> bars d0 = e_kind <$> bars d -> (k + length vs = BAR_COUNT)%nat ->
  (forall i v e, vs !! i = Some v -> bars d !! (k + i)%nat = Some e -> fits (e_kind e) v) ->
  exists d', replay_writes (concat (imap (fun i => replay_bar d0 (k + i)) vs)) d = Some d' /\ hdr_ok d' /\
    d' = with_bars (bars d') d /\
    forall i e, bars d !! i = Some e ->
      bars d' !! i = Some (if (i <? k)%nat then e else aimed e (default 0 (vs !! (i - k)%nat))).
Proof.
  revert k d. induction vs as [|v vs IH]; intros k d Hd Hkinds Hlen Hfit.
  { exists d. split_and!; try done; [by destruct d|]. intros i e Hi. simpl in Hlen.
    assert (i < k)%nat by (rewrite <- Nat.add_0_r, Hlen, <- (proj1 (ho_bars d Hd)); by eapply lookup_lt_Some).
    by destruct (Nat.ltb_spec i k); [|lia]. }
  assert (Hk : (k < length (bars d))%nat) by (rewrite (proj1 (ho_bars d Hd)); simpl in Hlen; lia).
  destruct (lookup_lt_is_Some_2 (bars d) k Hk) as [e He].
  assert (He0 : exists e0, bars d0 !! k = Some e0 /\ e_kind e0 = e_kind e).
  { apply (f_equal (.!! k)) in Hkinds. rewrite !list_lookup_fmap, He in Hkinds. destruct (bars d0 !! k); [|done].
    injection Hkinds as ?. eauto. }
  destruct He0 as (e0 & He0 & Hke).
  destruct (replay_bar_correct d0 d k e0 e v Hd He0 He Hke) as [Hr Hok].
  { apply (Hfit 0%nat v e eq_refl). by rewrite Nat.add_0_r. }
  destruct (IH (S k) (with_bars (<[k:=aimed e v]> (bars d)) d) Hok) as (d' & Hr' & Hok' & Hd' & Hl').
  - cbn [with_bars bars]. rewrite Hkinds, list_fmap_insert. symmetry. apply list_insert_id.
    by rewrite list_lookup_fmap, He, aimed_kind.
  - simpl in Hlen. lia.
  - intros i v' x Hv' Hx. cbn [with_bars bars] in Hx. rewrite list_lookup_insert_ne in Hx by lia.
    apply (Hfit (S i) v' x Hv'). by rewrite Nat.add_succ_r.
  - exists d'. split_and!; try done.
    + cbn [imap concat]. rewrite replay_writes_app, Nat.add_0_r, Hr. simpl option_bind. rewrite <- Hr'. f_equal.
      f_equal. apply imap_ext. intros i x _. simpl. by rewrite Nat.add_succ_r.
    + intros i x Hx. destruct (decide (i = k)) as [->|Hik].
      * rewrite Hx in He. injection He as ->. rewrite (Hl' k (aimed e v)) by (cbn [with_bars bars]; by apply list_lookup_insert_eq).
        rewrite Nat.ltb_irrefl, Nat.sub_diag. by destruct (Nat.ltb_spec k (S k)); [|lia].
      * rewrite (Hl' i x) by (cbn [with_bars bars]; by rewrite list_lookup_insert_ne).
        destruct (Nat.ltb_spec i (S k)), (Nat.ltb_spec i k); try lia; [done|].
        replace (i - k)%nat with (S (i - S k)) by lia. done.
Qed.


(** ** The command register *)

Lemma len_mask_ones len : len ∈ [1; 2; 4] -> len_mask len = Z.ones (8 * len).
Proof. rewrite !elem_of_cons, elem_of_nil. by intros [->|[->|[->|[]]]]. Qed.

Lemma cmd_all_high k : 16 <= k -> Z.testbit CMD_ALL k = false.
Proof. intros Hk. apply Z.bits_above_log2; [done|]. change (Z.log2 CMD_ALL) with 10. lia. Qed.

(** Bit by bit: the bytes written, where a driver may write. *)
Lemma command_write_bits d b len val k :
  0 <= b < 2 -> len ∈ [1; 2; 4] -> Z.land CMD_ALL (command d) = command d -> 0 <= k ->
  Z.testbit (command (command_write d b len val)) k =
    if (8 * b <=? k) && (k <? 8 * b + 8 * len) then Z.testbit CMD_ALL k && Z.testbit val (k - 8 * b)
    else Z.testbit (command d) k.
Proof.
  intros Hb Hlen Hcmd Hk. unfold command_write. cbn [command with_command].
  change (Z.lor (Z.lor (Z.lor IO_EN MMIO_EN) BUSMSTR_EN) INTX_DIS) with CMD_ALL.
  assert (Hold : Z.testbit (command d) k = Z.testbit CMD_ALL k && Z.testbit (command d) k).
  { rewrite <- Z.land_spec. by rewrite Hcmd. }
  rewrite Z.land_spec, Z.lor_spec, Z.land_spec, Z.ldiff_spec.
  destruct (Z.testbit CMD_ALL k) eqn:Hall; [|rewrite Hold; by destruct (8 * b <=? k), (k <? 8 * b + 8 * len)].
  assert (Hk16 : k < 16). { destruct (Z.lt_ge_cases k 16); [done|]. by rewrite cmd_all_high in Hall by lia. }
  rewrite andb_true_r, andb_false_r, orb_false_r, andb_true_l. unfold as_u.
  rewrite Z.mod_pow2_bits_low by lia. rewrite Z.lor_spec, Z.ldiff_spec, Z.land_spec, !Z.mod_pow2_bits_low by lia.
  rewrite !Z.shiftl_spec by lia. rewrite len_mask_ones by done. replace (b * 8) with (8 * b) by lia.
  assert (Hl8 : 0 <= 8 * len) by (rewrite !elem_of_cons in Hlen; set_solver by lia).
  destruct (Z.leb_spec (8 * b) k).
  - rewrite Z.testbit_ones_nonneg by lia. destruct (Z.ltb_spec k (8 * b + 8 * len)), (Z.ltb_spec (k - 8 * b) (8 * len)); try lia; simpl.
    + by rewrite andb_false_r, andb_true_r.
    + by rewrite andb_true_r, andb_false_r, orb_false_r.
  - rewrite !(Z.testbit_neg_r _ (k - 8 * b)) by lia. simpl. by rewrite andb_true_r, orb_false_r.
Qed.

Lemma command_restored d cmd :
  Z.land CMD_ALL (command d) = command d -> Z.land CMD_ALL cmd = cmd -> command (command_write d 0 2 cmd) = cmd.
Proof.
  intros Hd Hc. apply Z.bits_inj'. intros k Hk. rewrite command_write_bits by (lia || done || set_solver).
  assert (Hh : forall x, Z.land CMD_ALL x = x -> 16 <= k -> Z.testbit x k = false).
  { intros x <- Hk16. by rewrite Z.land_spec, cmd_all_high. }
  rewrite Z.sub_0_r. destruct (Z.leb_spec (8 * 0) k); [|lia]. destruct (Z.ltb_spec k (8 * 0 + 8 * 2)); simpl.
  - rewrite <- Z.land_spec. by rewrite Hc.
  - by rewrite !Hh by (done || lia).
Qed.

(** Register files that agree on kinds and on the addresses of BARs are the
    same to everyone who reads them. *)
Lemma same_bars b1 b2 :
  e_kind <$> b1 = e_kind <$> b2 ->
  (forall i e1 e2, b1 !! i = Some e1 -> b2 !! i = Some e2 -> kind_size (e_kind e2) <> None -> e_value e1 = e_value e2) ->
  forall i, get b1 i = get b2 i /\ reg_read b1 i = reg_read b2 i.
Proof.
  intros Hk Hv.
  assert (Hi : forall i, match b1 !! i, b2 !! i with
    | Some e1, Some e2 => e_kind e1 = e_kind e2 /\ (kind_size (e_kind e2) <> None -> e_value e1 = e_value e2)
    | None, None => True | _, _ => False end).
  { intros i. apply (f_equal (.!! i)) in Hk. rewrite !list_lookup_fmap in Hk. specialize (Hv i).
    destruct (b1 !! i), (b2 !! i); simpl in Hk; simplify_eq; eauto. }
  intros i. pose proof (Hi i) as Hc. pose proof (Hi (pred i)) as Hp. unfold get, reg_read.
  destruct (b1 !! i) as [e1|], (b2 !! i) as [e2|]; try done. simpl option_bind. destruct Hc as [Hce Hcv]. rewrite Hce.
  destruct (e_kind e2) eqn:Hke; try (by rewrite Hcv); try done. split; [done|]. destruct i as [|i]; [done|]. simpl in Hp.
  destruct (b1 !! i) as [p1|], (b2 !! i) as [p2|]; try done. simpl option_bind. destruct Hp as [Hpe Hpv]. rewrite Hpe.
  destruct (e_kind p2) eqn:Hke2; try done. by rewrite Hpv.
Qed.

Lemma migrate_addrs_lookup d i :
  (i < BAR_COUNT)%nat ->
  mp_bar_addrs (migrate_state d) !! i = Some (match get (bars d) i with Some (_, value) => value | None => 0 end).
Proof. intros Hi. unfold migrate_state. cbn [mp_bar_addrs]. by rewrite list_lookup_fmap, lookup_seq_lt. Qed.

Lemma sized_get bs i e : bs !! i = Some e -> kind_size (e_kind e) <> None -> exists def, get bs i = Some (def, e_value e).
Proof. intros Hi Hk. unfold get. rewrite Hi. simpl. destruct (e_kind e); by eauto. Qed.

Lemma replay_reproduces d d0 :
  hdr_ok d -> hdr_ok d0 -> e_kind <$> bars d0 = e_kind <$> bars d ->
  exists d1,
    replay_migrate_pci_state (bar_replay_writes d0 (mp_bar_addrs (migrate_state d))) (mp_command (migrate_state d)) d0 = Some d1 /\
    migrate_state d1 = migrate_state d /\ (forall i, reg_read (bars d1) i = reg_read (bars d) i) /\
    ident d1 = ident d0.
Proof.
  intros Hd H0 Hk.
  assert (Hkind : forall i e0, bars d0 !! i = Some e0 -> exists e, bars d !! i = Some e /\ e_kind e = e_kind e0).
  { intros i e0 Hi. apply (f_equal (.!! i)) in Hk. rewrite !list_lookup_fmap, Hi in Hk.
    destruct (bars d !! i) as [e|]; [|done]. injection Hk as ?. eauto. }
  assert (Hlt : forall i e0, bars d0 !! i = Some e0 -> (i < BAR_COUNT)%nat).
  { intros i e0 Hi. rewrite <- (proj1 (ho_bars d0 H0)). by eapply lookup_lt_Some. }
  destruct (replay_from d0 (mp_bar_addrs (migrate_state d)) 0 d0 H0 eq_refl) as (d' & Hr & Hok & Hd' & Hl).
  { unfold migrate_state. cbn [mp_bar_addrs]. by rewrite length_fmap, length_seq. }
  { intros i v e0 Hv He0. destruct (Hkind i e0 He0) as (e & He & Hke). rewrite <- Hke. intros sz Hsz.
    rewrite migrate_addrs_lookup in Hv by eauto. destruct (sized_get _ _ _ He) as [def Hg]; [congruence|].
    rewrite Hg in Hv. injection Hv as <-. by apply (bars_value_fits _ _ _ (ho_bars d Hd) He). }
  unfold replay_migrate_pci_state, bar_replay_writes.
  change (replay_writes (concat (imap (replay_bar d0) (mp_bar_addrs (migrate_state d)))) d0 = Some d') in Hr.
  rewrite Hr. simpl option_bind.
  exists (command_write d' 0 2 (command d)). split; [done|].
  assert (Hsame : forall i, get (bars d') i = get (bars d) i /\ reg_read (bars d') i = reg_read (bars d) i).
  { apply same_bars.
    - rewrite <- Hk. apply list_eq. intros i. rewrite !list_lookup_fmap.
      destruct (bars d0 !! i) as [e0|] eqn:He0; [rewrite (Hl i e0 He0); simpl; by rewrite aimed_kind|].
      apply lookup_ge_None in He0. rewrite (proj1 (ho_bars d0 H0)), <- (proj1 (ho_bars d' Hok)) in He0.
      by rewrite (proj2 (lookup_ge_None _ _) He0).
    - intros i e1 e2 He1 He2 Hsz. destruct (bars d0 !! i) as [e0|] eqn:He0.
      + rewrite (Hl i e0 He0) in He1. apply (inj Some) in He1. subst e1. destruct (Hkind i e0 He0) as (e & He & Hke).
        rewrite He2 in He. apply (inj Some) in He. subst e. destruct (Nat.ltb_spec i 0); [lia|]. rewrite Nat.sub_0_r, migrate_addrs_lookup by eauto. destruct (sized_get _ _ _ He2 Hsz) as [def ->].
        unfold aimed. rewrite <- Hke. by destruct (kind_size (e_kind e2)).
      + apply lookup_ge_None in He0. rewrite (proj1 (ho_bars d0 H0)), <- (proj1 (ho_bars d Hd)) in He0.
        by rewrite (proj2 (lookup_ge_None _ _) He0) in He2. }
  split_and!.
  - unfold migrate_state. f_equal.
    + apply command_restored; [apply Hok|apply Hd].
    + apply list_fmap_ext. intros _ i _. cbn [bars command_write with_command]. by rewrite (proj1 (Hsame i)).
  - intros i. apply Hsame.
  - by rewrite Hd'.
Qed.

(** A migrated header replays exactly. On a function with the same BARs,
    wherever they are and whatever its command register holds, the writes a
    restore makes never panic and leave every BAR at the source's address,
    every BAR register reading as the source's, and the command register
    as it was. *)
Theorem header_replays d d0 :
  hdr_reach d -> hdr_reach d0 -> e_kind <$> bars d0 = e_kind <$> bars d ->
  exists d1,
    replay_migrate_pci_state (bar_replay_writes d0 (mp_bar_addrs (migrate_state d))) (mp_command (migrate_state d)) d0 = Some d1 /\
    migrate_state d1 = migrate_state d /\ (forall i, reg_read (bars d1) i = reg_read (bars d) i) /\
    ident d1 = ident d0.
Proof. intros Hd%hdr_reach_ok H0%hdr_reach_ok Hk. by apply replay_reproduces. Qed.

(** ** The configuration mechanism *)

Record bdf_ok (b : Bdf) : Prop := mkBdfOk { bo_bus : uint 8 (b_bus b); bo_dev : uint 5 (b_dev b); bo_func : uint 3 (b_func b) }.

(** The address a driver writes to port 0xCF8. *)
Definition cfg_addr (b : Bdf) (reg : Z) : Z := 2 ^ 31 + b_bus b * 2 ^ 16 + b_dev b * 2 ^ 11 + b_func b * 2 ^ 8 + reg.

Lemma cfg_addr_uint b reg : bdf_ok b -> uint 8 reg -> uint 32 (cfg_addr b reg).
Proof. intros [H1 H2 H3] Hr. unfold cfg_addr, uint in *. lia. Qed.

Lemma cfg_addr_parsed b reg :
  bdf_ok b -> uint 8 reg -> reg mod 4 = 0 -> cfg_addr_parse (cfg_addr b reg) = Some (b, reg).
Proof.
  intros Hb Hr Hm. pose proof (cfg_addr_uint b reg Hb Hr) as Hu. destruct Hb as [H1 H2 H3]. unfold uint in *.
  unfold cfg_addr_parse, as_u, MASK_BUS, MASK_DEV, MASK_FUNC.
  assert (Hen : Z.land (cfg_addr b reg) 0x80000000 = 2 ^ 31).
  { change 0x80000000 with (2 ^ 32 - 1 - (2 ^ 31 - 1)). rewrite land_high by (unfold uint; lia).
    replace (cfg_addr b reg / 2 ^ 31) with 1; [lia|]. apply Z.div_unique with (cfg_addr b reg - 2 ^ 31); unfold cfg_addr; lia. }
  rewrite Hen. simpl Z.eqb. cbv iota. rewrite !Z.shiftr_div_pow2 by lia.
  change 0xFF with (Z.ones 8). change 0x1F with (Z.ones 5). change 0x07 with (Z.ones 3). rewrite !Z.land_ones by lia.
  assert (Hreg : Z.land (cfg_addr b reg) 0xFC = reg).
  { change 0xFC with (2 ^ 8 - 1 - (2 ^ 2 - 1)). rewrite land_mask by lia. unfold cfg_addr.
    replace (2 ^ 31 + b_bus b * 2 ^ 16 + b_dev b * 2 ^ 11 + b_func b * 2 ^ 8 + reg)
      with (reg + (2 ^ 23 + b_bus b * 2 ^ 8 + b_dev b * 2 ^ 3 + b_func b) * 2 ^ 8) by lia.
    rewrite Z.mod_add, Z.mod_small by lia. change (2 ^ 2) with 4. pose proof (Z.div_mod reg 4). lia. }
  rewrite Hreg, (Z.mod_small reg) by lia. do 2 f_equal. destruct b as [bb bd bf]. unfold cfg_addr. cbn [b_bus b_dev b_func] in *.
  change (2 ^ 31) with 2147483648. change (2 ^ 16) with 65536. change (2 ^ 11) with 2048.
  change (2 ^ 8) with 256 in *. change (2 ^ 5) with 32 in *. change (2 ^ 3) with 8 in *.
  f_equal; Z.div_mod_to_equations; lia.
Qed.

Section mechanism.
Context {W D : Type} `{PciDevice W D}.
Implicit Types (bus : pio.PioBus (@Chipset W D)) (c : @Chipset W D).

Definition slots_wf (slots : PciSlots (D := D)) : Prop :=
  length slots = SLOTS_PER_BUS /\ Forall (fun slot => length slot = FUNCS_PER_SLOT) slots.

Lemma slot_there slots b : slots_wf slots -> bdf_ok b ->
  exists slot cur, slots !! Z.to_nat (b_dev b) = Some slot /\ slot !! Z.to_nat (b_func b) = Some cur.
Proof.
  intros [Hl Hf] [_ Hd Hfn]. unfold uint in *. destruct (lookup_lt_is_Some_2 slots (Z.to_nat (b_dev b))) as [slot Hs].
  { rewrite Hl. unfold SLOTS_PER_BUS. lia. }
  rewrite Forall_lookup in Hf. pose proof (Hf _ _ Hs) as Hsl.
  destruct (lookup_lt_is_Some_2 slot (Z.to_nat (b_func b))) as [cur Hc].
  { simpl in Hsl. rewrite Hsl. unfold FUNCS_PER_SLOT. lia. }
  eauto.
Qed.

(** A configuration access of a function there may be never panics. *)
Lemma config_read_total slots b offset n w :
  slots_wf slots -> bdf_ok b -> exists r, config_read slots b offset n w = Some r.
Proof.
  intros Hs Hb. destruct (slot_there slots b Hs Hb) as (slot & cur & H1 & H2). unfold config_read.
  destruct (negb _); [eauto|]. rewrite H1. simpl option_bind. rewrite H2. simpl option_bind.
  destruct cur as [d|]; [|eauto]. destruct (pd_cfg_read d offset n w). eauto.
Qed.

Lemma config_read_nonneg (slots : PciSlots (D := D)) b offset n (w : W) r :
  (forall d o l w, uint 32 (pd_cfg_read d o l w).2) -> config_read slots b offset n w = Some r -> 0 <= r.2.
Proof.
  intros Hd Hr. unfold config_read in Hr. assert (Hf : 0 <= bus_float n) by (unfold bus_float; by repeat case_match).
  destruct (negb _); [by injection Hr as <-|]. destruct (slots !! _) as [slot|]; [|done]. simpl option_bind in Hr.
  destruct (slot !! _) as [[d|]|]; simpl option_bind in Hr; [|by injection Hr as <-|done].
  pose proof (Hd d offset n w) as Hu. destruct (pd_cfg_read d offset n w) as [w' v]. simpl in Hu. destruct Hu as [Hu _].
  injection Hr as <-. simpl. destruct (_ && _); [|done]. destruct (header_type_shift offset n) as [sh|]; [|done].
  apply Z.lor_nonneg. split; [done|]. by apply Z.shiftl_nonneg.
Qed.

Lemma config_write_total slots b offset n x w :
  slots_wf slots -> bdf_ok b -> exists w', config_write slots b offset n x w = Some w'.
Proof.
  intros Hs Hb. destruct (slot_there slots b Hs Hb) as (slot & cur & H1 & H2). unfold config_write, at_bdf.
  destruct (negb _); [eauto|]. rewrite H1. simpl option_bind. rewrite H2. simpl option_bind. eauto.
Qed.

Lemma port_added bus st len h bus' :
  pio.pio_register bus st len h = Some (Ok bus') -> pio.bus_wf bus -> uint 16 st -> uint 16 len ->
  pio.bus_wf bus' /\ forall p, aspace.region_at bus' p =
    if (st <=? p) && (p <? st + len) then Some (Ok (st, len, h)) else aspace.region_at bus p.
Proof.
  intros Hr Hb Hs Hl. split; [by destruct (pio.region_at_owner bus st len h bus' 0)|].
  intros p. by destruct (pio.region_at_owner bus st len h bus' p).
Qed.

(** The ports of the chipset. *)
Lemma create_routes bus0 bus :
  pio.bus_wf bus0 -> create_ports bus0 = Some bus ->
  pio.bus_wf bus /\
  aspace.region_at bus 0xCF8 = Some (Ok (0xCF8, 1, addr_handler)) /\
  (forall b, 0 <= b < 4 -> aspace.region_at bus (0xCFC + b) = Some (Ok (0xCFC, 4, data_handler))) /\
  aspace.region_at bus 0x80 = Some (Ok (0x80, 1, post_handler)).
Proof.
  intros Hb0 Hc. unfold create_ports in Hc.
  destruct (pio.pio_register bus0 PORT_PCI_CONFIG_ADDR LEN_PCI_CONFIG_ADDR addr_handler) as [[b1|]|] eqn:H1; try done.
  simpl option_bind in Hc.
  destruct (pio.pio_register b1 PORT_PCI_CONFIG_DATA LEN_PCI_CONFIG_DATA data_handler) as [[b2|]|] eqn:H2; try done.
  simpl option_bind in Hc.
  destruct (pio.pio_register b2 PORT_POST_CODE LEN_POST_CODE post_handler) as [[b3|]|] eqn:H3; try done. injection Hc as <-.
  destruct (port_added _ _ _ _ _ H1 Hb0) as [Hw1 Hr1]; [done|done|].
  destruct (port_added _ _ _ _ _ H2 Hw1) as [Hw2 Hr2]; [done|done|].
  destruct (port_added _ _ _ _ _ H3 Hw2) as [Hw3 Hr3]; [done|done|].
  assert (Hr : forall p, aspace.region_at b3 p =
    if (0x80 <=? p) && (p <? 0x81) then Some (Ok (0x80, 1, post_handler))
    else if (0xCFC <=? p) && (p <? 0xD00) then Some (Ok (0xCFC, 4, data_handler))
    else if (0xCF8 <=? p) && (p <? 0xCF9) then Some (Ok (0xCF8, 1, addr_handler)) else aspace.region_at bus0 p).
  { intros p. by rewrite Hr3, Hr2, Hr1. }
  split_and!; [done|by rewrite Hr| |by rewrite Hr].
  intros b Hb. rewrite Hr. destruct (Z.ltb_spec (0xCFC + b) 0x81), (Z.leb_spec 0xCFC (0xCFC + b)), (Z.ltb_spec (0xCFC + b) 0xD00); try lia.
  by rewrite andb_false_r.
Qed.

Lemma data_handler_wf : pio.handler_wf (@data_handler W D _).
Proof.
  intros off ro c Hro. unfold data_handler. cbn [on_read].
  assert (Hd : forall v, ro_wf (write_dword ro v) /\ ro_len (write_dword ro v) = ro_len ro).
  { intros v. unfold write_dword, write_dword_at. repeat case_match; split; try done; by apply write_le_wf; [lia|]. }
  assert (Hfl : ro_wf (data_float ro) /\ ro_len (data_float ro) = ro_len ro).
  { unfold data_float. repeat case_match; split; try done; by apply write_le_wf; [lia|]. }
  unfold cfg_data_read. destruct (data_target _ _) as [[b o]|]; [|done].
  destruct (config_read (cs_slots c) b o (ro_len ro) (cs_world c)) as [[w v]|]; simpl; [apply Hd|done].
Qed.

Lemma handle_out_at bus c port n x st len h :
  pio.bus_wf bus -> uint 16 port -> n ∈ [1; 2; 4] -> aspace.region_at bus port = Some (Ok (st, len, h)) ->
  exists wo, pio.handle_out bus c port n x = Some (on_write h (port - st) wo c) /\
    read_u32 wo = x mod 2 ^ (8 * n) /\ wo_len wo = n.
Proof.
  intros Hb Hp Hn Hr. unfold pio.handle_out. rewrite pio.pio_lookup_spec, Hr by done.
  assert (Hz : forall k, (1 <= k <= 4)%nat ->
    le_val (take 4 (le_bytes k x ++ replicate (8 - k) 0)) = x mod 2 ^ (8 * Z.of_nat k)).
  { intros k Hk. rewrite take_app, length_le_bytes, take_ge by (rewrite length_le_bytes; lia).
    rewrite take_replicate, le_val_zeros. apply le_val_le_bytes_mod. }
  rewrite !elem_of_cons, elem_of_nil in Hn.
  destruct Hn as [->|[->|[->|[]]]]; simpl orb; cbv iota; rewrite take_le_bytes, from_buf_le by (simpl; lia);
    (eexists; split; [done|]); (split; [|done]); [apply (Hz 1%nat)|apply (Hz 2%nat)|apply (Hz 4%nat)]; lia.
Qed.

(** C31: the way to a register. With the chipset's ports on the bus, a driver
    that writes a function's address to port 0xCF8 and then accesses a byte
    lane of port 0xCFC reaches that function and no other, at that register
    and width: a read returns what the bus's read returns (the function's
    register, or all ones where there is none), a write is the bus's write.
    Neither panics. *)
Theorem config_mechanism bus0 bus c b reg lane n x :
  pio.bus_wf bus0 -> create_ports bus0 = Some bus -> slots_wf (cs_slots c) ->
  (forall d o l w, uint 32 (pd_cfg_read d o l w).2) ->
  bdf_ok b -> uint 8 reg -> reg mod 4 = 0 -> 0 <= lane < 4 -> n ∈ [1; 2; 4] ->
  exists c1 r w,
    pio.handle_out bus c 0xCF8 4 (cfg_addr b reg) = Some c1 /\ cs_slots c1 = cs_slots c /\ cs_world c1 = cs_world c /\
    config_read (cs_slots c) b (reg + lane) n (cs_world c) = Some r /\
    pio.handle_in bus c1 (0xCFC + lane) n = Some (with_world r.1 c1, r.2 mod 2 ^ (8 * n)) /\
    config_write (cs_slots c) b (reg + lane) n (x mod 2 ^ (8 * n)) (cs_world c) = Some w /\
    pio.handle_out bus c1 (0xCFC + lane) n x = Some (with_world w c1).
Proof.
  intros Hb0 Hcr Hsl Hdev Hb Hreg Hm Hlane Hn.
  destruct (create_routes bus0 bus Hb0 Hcr) as (Hbus & Hra & Hrd & _).
  destruct (handle_out_at bus c 0xCF8 4 (cfg_addr b reg) _ _ _ Hbus ltac:(done) ltac:(set_solver) Hra) as (wa & Ha & Hav & Hal).
  assert (Hc1 : on_write addr_handler (0xCF8 - 0xCF8) wa c = with_addr (cfg_addr b reg) c).
  { simpl. unfold service_addr_write. rewrite Hal. simpl. rewrite Hav, Z.mod_small; [done|]. by apply cfg_addr_uint. }
  rewrite Hc1 in Ha. set (c1 := with_addr (cfg_addr b reg) c) in *.
  destruct (config_read_total (cs_slots c) b (reg + lane) n (cs_world c) Hsl Hb) as [r Hr].
  destruct (config_write_total (cs_slots c) b (reg + lane) n (x mod 2 ^ (8 * n)) (cs_world c) Hsl Hb) as [w Hw].
  exists c1, r, w.
  assert (Htgt : data_target (wadd 16 PORT_PCI_CONFIG_DATA (0xCFC + lane - 0xCFC)) (cs_addr c1) = Some (b, reg + lane)).
  { unfold data_target. change (cs_addr c1) with (cfg_addr b reg). rewrite cfg_addr_parsed by done. simpl.
    unfold uint in Hreg. rewrite (wadd_small 16) by (unfold PORT_PCI_CONFIG_DATA; lia).
    replace (PORT_PCI_CONFIG_DATA + (0xCFC + lane - 0xCFC) - PORT_PCI_CONFIG_DATA) with lane by lia.
    rewrite (as_u_small 8) by (unfold uint; lia). rewrite wadd_small; [done|].
    change (2 ^ 8) with 256 in *. Z.div_mod_to_equations. lia. }
  assert (Hp : uint 16 (0xCFC + lane)) by (unfold uint; lia).
  split_and!; try done.
  - assert (Hro : exists ro, read_new n = Some ro).
    { rewrite !elem_of_cons, elem_of_nil in Hn. destruct Hn as [->|[->|[->|[]]]]; eauto. }
    destruct Hro as [ro Hro]. destruct (ro_wf_new n ro Hro) as [Hrw Hrl].
    rewrite (pio.handle_in_found bus c1 (0xCFC + lane) n ro) by (done || (intros st len h He; rewrite Hrd in He by done; injection He as <- <- <-; apply data_handler_wf)).
    rewrite Hrd by done. cbv zeta. cbn [data_handler on_read]. unfold cfg_data_read. rewrite Htgt, Hrl.
    change (cs_slots c1) with (cs_slots c). change (cs_world c1) with (cs_world c). rewrite Hr. simpl default. cbn [fst snd].
    do 2 f_equal. unfold write_dword. rewrite answer_write_dword_at.
    + rewrite Hrl. by rewrite Z.shiftr_0_r.
    + by apply (config_read_nonneg (cs_slots c) b (reg + lane) n (cs_world c)).
    + rewrite Hrl. rewrite !elem_of_cons, elem_of_nil in Hn. tauto.
  - destruct (handle_out_at bus c1 (0xCFC + lane) n x _ _ _ Hbus Hp Hn (Hrd lane Hlane)) as (wo & -> & Hv & Hl).
    f_equal. cbn [data_handler on_write]. unfold cfg_data_write. rewrite Htgt, Hl, Hv.
    change (cs_slots c1) with (cs_slots c). change (cs_world c1) with (cs_world c). by rewrite Hw.
Qed.

End mechanism.

End pci_thm.

(** ** BARs on the buses *)

Module reg_thm.
Import aspace bar pcidev pcireg.

(** The entries a bus has of an owner: one of the given length at the
    recorded address, or none. *)
Definition own (b : bus) (o : nat * nat) (rec : option Z) (len : Z) : Prop :=
  forall e, e ∈ map b /\ e.2.2 = o <-> exists a, rec = Some a /\ e = (a, (len, o)).

Definition bounds (lo hi : Z) (b : bus) : Prop := wf b /\ start b = lo /\ end_ b = hi.

(** The other owners' entries. *)
Definition others (o : nat * nat) (b b' : bus) : Prop := forall e, e.2.2 <> o -> e ∈ map b' <-> e ∈ map b.

Lemma bus_release_spec lo hi b o rec len :
  bounds lo hi b -> own b o rec len ->
  bounds lo hi (release rec b) /\ (forall e, e ∈ map (release rec b) <-> e ∈ map b /\ e.2.2 <> o).
Proof.
  intros (Hwf & Hlo & Hhi) Ho. destruct rec as [a|]; cbn [release].
  2:{ split; [done|]. intros e. split; [|by intros [? _]]. intros He. split; [done|]. intros Hoe.
      destruct (proj1 (Ho e) (conj He Hoe)) as (a & ? & _). done. }
  assert (Ha : (a, (len, o)) ∈ map b) by (apply (Ho (a, (len, o))); eauto).
  pose proof (wf_remove b a Hwf) as Hwf'.
  destruct (bt_remove_sorted a (map b) (wf_sorted b Hwf)) as (Hs & He & Hv). apply Hv in Ha as Hr.
  unfold unregister. rewrite Hr. split; [done|]. intros e. cbn [map]. rewrite He. split; intros [Hin Hne]; (split; [done|]).
  - intros Hoe. destruct (proj1 (Ho e) (conj Hin Hoe)) as (a' & [= <-] & ->). done.
  - intros Hk. apply Hne. rewrite (sorted_unique b e (a, (len, o)) Hwf Hin Ha Hk). done.
Qed.

(** The range is inside the bus and free. *)
Definition fits (b : bus) (a len : Z) : bool :=
  (0 <? len) && (start b <=? a) && (a + len - 1 <=? end_ b) &&
  forallb (fun e => negb ((e.1 <=? a + len - 1) && (a <? e.1 + e.2.1))) (map b).

Lemma fits_spec (b : bus) a len :
  fits b a len = true <->
  0 < len /\ start b <= a /\ a + len - 1 <= end_ b /\ (forall e, e ∈ map b -> ~ overlaps e a (a + len - 1)).
Proof.
  unfold fits. rewrite !andb_true_iff, List.forallb_forall, Z.ltb_lt, !Z.leb_le. unfold overlaps. split.
  - intros [[[? ?] ?] Hf]. split_and!; try done. intros e He%list_elem_of_In%Hf. apply negb_true_iff, andb_false_iff in He. lia.
  - intros (? & ? & ? & Hf). split_and!; try done. intros e He%list_elem_of_In. specialize (Hf e He).
    apply negb_true_iff, andb_false_iff. lia.
Qed.

(** A registration is refused exactly where the range does not fit. *)
Lemma put_bus_spec lo hi b o addr size :
  bounds lo hi b -> (forall e, e ∈ map b -> e.2.2 <> o) -> uint 64 addr -> uint 64 size ->
  exists b', put_bus addr size o b = Some (if fits b addr size then Some addr else None, b') /\ bounds lo hi b' /\
    own b' o (if fits b addr size then Some addr else None) size /\ others o b b'.
Proof.
  intros (Hwf & Hlo & Hhi) Hno Ha Hs. unfold put_bus. pose proof (register_spec b addr size o Hwf Ha Hs) as Hp.
  destruct (register b addr size o) as [[b'|err]|]; [| |done]; simpl option_bind.
  - destruct Hp as (P1 & P2 & P3 & P4 & Hwf' & Hs' & He' & Hel).
    rewrite (proj2 (fits_spec b addr size)) by done. exists b'. split; [done|].
    split; [split; [done|split; congruence]|]. split.
    + intros e. rewrite Hel. split.
      * intros [[->|He] Hoe]; [by eauto|]. by apply Hno in He.
      * intros (a & [= <-] & ->). split; [by left|done].
    + intros e Hne. rewrite Hel. split; [intros [->|?]; [done|done]|by right].
  - assert (Hf : fits b addr size = false).
    { apply not_true_iff_false. rewrite fits_spec. intros (F1 & F2 & F3 & F4). pose proof (wf_bounds b Hwf).
      destruct err; simpl in Hp; try lia. destruct Hp as (_ & _ & _ & e & He & Hov). by apply (F4 e). }
    rewrite Hf. exists b. split; [done|]. split; [done|]. split; [|done].
    intros e. split; [intros [He Hoe]; by apply Hno in He|by intros (a & ? & _)].
Qed.

Lemma others_trans o b1 b2 b3 : others o b1 b2 -> others o b2 b3 -> others o b1 b3.
Proof. intros H1 H2 e He. rewrite (H2 e He). by apply H1. Qed.

Lemma release_others lo hi b o rec len : bounds lo hi b -> own b o rec len -> others o b (release rec b).
Proof. intros Hb Ho e Hne. rewrite (proj2 (bus_release_spec lo hi b o rec len Hb Ho)). tauto. Qed.

Lemma own_none (b : bus) o len : (forall e, e ∈ map b -> e.2.2 <> o) -> own b o None len.
Proof. intros Hb e. split; [intros [He Hoe]; by apply Hb in He|by intros (a & ? & _)]. Qed.

(** ** Functions and their entries *)

Definition bar_len (f : function) (i : nat) : Z :=
  match get (bars (f_hdr f)) i with Some (def, _) => def_size def | None => 0 end.

(** Where the header has a BAR decode: BAR0 among the ports, the others in
    memory, and the one of the message table only if there is a table. *)
Definition want (f : function) (x : nat) : option Z :=
  match get (bars (f_hdr f)) x with
  | Some (DefPio _, v) =>
      if (x =? 0)%nat && has_cmd (f_hdr f) IO_EN && negb (as_u 16 v =? 0) then Some (as_u 16 v) else None
  | Some (_, v) =>
      if negb (x =? 0)%nat && ((x =? 2)%nat || f_msix f) && has_cmd (f_hdr f) MMIO_EN && negb (v =? 0) then Some v else None
  | None => None
  end.

(** The BARs a virtio function has. *)
Inductive slot : Type := B0 | B2 | B4.

#[global] Instance slot_eq_dec : EqDecision slot.
Proof. solve_decision. Defined.

Definition num (x : slot) : nat := match x with B0 => 0 | B2 => 2 | B4 => 4 end.

(** The record of a BAR. *)
Definition rec_of (f : function) (x : slot) : option Z :=
  match x with B0 => f_bar0 f | B2 => f_bar2 f | B4 => f_bar4 f end.

Definition set_rec (x : slot) (r : option Z) (f : function) : function :=
  match x with
  | B0 => mkFunc (f_hdr f) (f_msix f) r (f_bar2 f) (f_bar4 f)
  | B2 => mkFunc (f_hdr f) (f_msix f) (f_bar0 f) r (f_bar4 f)
  | B4 => mkFunc (f_hdr f) (f_msix f) (f_bar0 f) (f_bar2 f) r
  end.

(** The part of an update that is about one BAR. *)
Definition update_bar (id : nat) (x : slot) (f : function) (b : bus) : option (function * bus) :=
  match x with
  | B0 => update_bar_registration id f b
  | _ => let* r := update_mmio id (num x) (rec_of f x) f b in Some (set_rec x r.1 f, r.2)
  end.

(** It releases what is recorded, and then goes on as if nothing were. *)
Lemma update_halves id x f b : update_bar id x f b = update_bar id x (set_rec x None f) (release (rec_of f x) b).
Proof. by destruct x, f. Qed.

Lemma update_parts id f pio mmio :
  (let* r := update_bar_registration id f pio in let* q := update_mmio_registration id r.1 mmio in Some (q.1, (r.2, q.2))) =
  (let* r := update_bar id B0 f pio in let* q := update_bar id B2 r.1 mmio in
   if f_msix q.1 then let* t := update_bar id B4 q.1 q.2 in Some (t.1, (r.2, t.2)) else Some (q.1, (r.2, q.2))).
Proof.
  simpl. destruct (update_bar_registration id f pio) as [[f1 p1]|]; [|done]. simpl. unfold update_mmio_registration.
  destruct (update_mmio id 2 _ f1 mmio) as [[r2 m2]|]; [|done]. simpl. destruct (f_msix f1); simpl; [|done].
  by destruct (update_mmio id 4 _ _ m2).
Qed.

(** A removal releases them one by one. *)
Lemma detach_parts f pio mmio :
  detach_regions f pio mmio =
  (set_rec B4 None (set_rec B2 None (set_rec B0 None f)), release (rec_of f B0) pio, release (rec_of f B4) (release (rec_of f B2) mmio)).
Proof. by destruct f. Qed.

Lemma get_uint f i def v :
  pci_thm.hdr_ok (f_hdr f) -> get (bars (f_hdr f)) i = Some (def, v) -> uint 64 v /\ uint 64 (def_size def).
Proof.
  intros [[_ Hb] _] Hg. unfold get in Hg. destruct (bars (f_hdr f) !! i) as [e|] eqn:Hi; [|done]. simpl in Hg.
  assert (Hsz : forall sz, kind_size (e_kind e) = Some sz -> uint 64 (e_value e) /\ uint 64 sz).
  { intros sz Hsz. destruct (eo_size _ _ _ (Hb _ _ Hi) sz Hsz) as (Hp & Hlt & Hu & _). pose proof (pci_thm.power_pos sz Hp).
    unfold uint in *. assert (2 ^ width (e_kind e) <= 2 ^ 64) by (apply Z.pow_le_mono_r; [lia|destruct (e_kind e); simpl; lia]). lia. }
  destruct (e_kind e) eqn:Hk; simplify_eq; by apply Hsz.
Qed.

(** What an update records: the wanted address where it fits. *)
Definition granted (f : function) (x : nat) (b : bus) : option Z :=
  match want f x with
  | Some a => if fits b a (bar_len f x) then Some a else None
  | None => None
  end.

Lemma update_bar_spec id x f b hi :
  pci_thm.hdr_ok (f_hdr f) -> bounds 0 hi b -> own b (id, num x) (rec_of f x) (bar_len f (num x)) -> x <> B4 \/ f_msix f = true ->
  let r := granted f (num x) (release (rec_of f x) b) in
  exists b', update_bar id x f b = Some (set_rec x r f, b') /\
    bounds 0 hi b' /\ own b' (id, num x) r (bar_len f (num x)) /\ others (id, num x) b b'.
Proof.
  intros Hok Hb Ho Hx. destruct (bus_release_spec 0 hi b _ _ _ Hb Ho) as [Hb1 He1].
  pose proof (release_others _ _ _ _ _ _ Hb Ho) as Hoth. rewrite update_halves. unfold granted, want, bar_len.
  set (b1 := release (rec_of f x) b) in *. clearbody b1.
  assert (Hfree : forall e, e ∈ map b1 -> e.2.2 <> (id, num x)) by (intros e He; by apply He1 in He as [_ ?]).
  assert (Hnone : forall len, exists b', Some (set_rec x None f, b1) = Some (set_rec x None f, b') /\
    bounds 0 hi b' /\ own b' (id, num x) None len /\ others (id, num x) b b') by (intros len; exists b1; split_and!; try done; by apply own_none).
  assert (Hput : forall addr size, uint 64 addr -> uint 64 size ->
    exists b', (let* r := put_bus addr size (id, num x) b1 in Some (set_rec x r.1 f, r.2)) =
      Some (set_rec x (if fits b1 addr size then Some addr else None) f, b') /\ bounds 0 hi b' /\
      own b' (id, num x) (if fits b1 addr size then Some addr else None) size /\ others (id, num x) b b').
  { intros addr size Ha Hs. destruct (put_bus_spec 0 hi b1 _ addr size Hb1 Hfree Ha Hs) as (b' & -> & Hb' & Ho' & Hoth').
    exists b'. split_and!; try done. by eapply others_trans. }
  clear Hb Ho Hb1 He1 Hoth Hfree. destruct x; simpl in *.
  - unfold update_bar_registration. simpl. destruct (get (bars (f_hdr f)) 0) as [[[size|size|size] v]|] eqn:Hg; simpl; try (destruct (has_cmd _ _); by apply Hnone).
    destruct (has_cmd (f_hdr f) IO_EN); simpl; [|by apply Hnone]. destruct (Z.eqb_spec (as_u 16 v) 0) as [|Hnz]; simpl; [by apply Hnone|].
    apply Hput; [|by apply (get_uint f 0 _ _ Hok Hg)]. pose proof (as_u_uint 16 v ltac:(lia)). unfold uint in *. lia.
  - unfold update_mmio, register_mmio. simpl. destruct (has_cmd (f_hdr f) MMIO_EN); simpl; [|destruct (get _ _) as [[[] ?]|]; by apply Hnone].
    destruct (get (bars (f_hdr f)) 2) as [[[size|size|size] v]|] eqn:Hg; simpl; [rewrite orb_true_r; by apply Hnone| | |by apply Hnone];
      (destruct (get_uint f 2 _ _ Hok Hg); destruct (Z.eqb_spec v 0); simpl; [by apply Hnone|by apply Hput]).
  - unfold update_mmio, register_mmio. simpl. destruct Hx as [|Hx]; [done|]. rewrite Hx in *.
    destruct (has_cmd (f_hdr f) MMIO_EN); simpl; [|destruct (get _ _) as [[[] ?]|]; by apply Hnone].
    destruct (get (bars (f_hdr f)) 4) as [[[size|size|size] v]|] eqn:Hg; simpl; [rewrite orb_true_r; by apply Hnone| | |by apply Hnone];
      (destruct (get_uint f 4 _ _ Hok Hg); destruct (Z.eqb_spec v 0); simpl; [by apply Hnone|by apply Hput]).
Qed.

(** ** The functions of a machine *)

(** Where the one call that is moving a function has got to. [Owed]: it
    has written the header, holds [self_ref] and has let [pci_state] go.
    [Next x]: it has both locks and comes to BAR [x]. [Putting x]: it has
    the record's lock too and has released the old range. [Stuck]: a
    second call holds [pci_state] and waits for [self_ref], which the first
    one holds while it waits for [pci_state]. *)
Inductive phase : Type := Quiet | Owed | Next (x : slot) | Putting (x : slot) | Stuck.

(** What became of a BAR: the last update of it found its range free, or
    found it taken or outside the bus; or it is off the buses since the
    device was made or detached. *)
Inductive fate : Type := Current | Refused | Detached.

Record fstate : Type := mkFs { s_func : function; s_phase : phase; s_fate : slot -> fate }.

(** The ports, the memory and the functions. *)
Record rsys : Type := mkRsys { rs_buses : bus * bus; rs_funcs : list fstate }.

Definition sel (x : slot) (bs : bus * bus) : bus := match x with B0 => bs.1 | _ => bs.2 end.

Definition put_at (x : slot) (b : bus) (bs : bus * bus) : bus * bus :=
  match x with B0 => (b, bs.2) | _ => (bs.1, b) end.

Definition note (x : slot) (v : fate) (g : slot -> fate) : slot -> fate := fun y => if decide (y = x) then v else g y.

(** The BAR an update is about to release. *)
Definition turn (p : phase) : option slot :=
  match p with Owed => Some B0 | Next x => Some x | _ => None end.

Definition after (x : slot) : phase :=
  match x with B0 => Next B2 | B2 => Next B4 | B4 => Quiet end.

(** [pci_state] is free. *)
Definition header_free (p : phase) : bool :=
  match p with Quiet | Owed => true | _ => false end.

Definition after_write (offset : Z) (p : phase) : phase :=
  if moves offset then match p with Quiet => Owed | _ => Stuck end else p.

Definition judge (f : function) (x : slot) (b : bus) : fate :=
  match want f (num x) with
  | Some a => if fits b a (bar_len f (num x)) then Current else Refused
  | None => Current
  end.

(** Another device comes or goes. *)
Inductive foreign (n : nat) : bus -> bus -> Prop :=
| fo_register b st len o b' : (n <= o.1)%nat -> uint 64 st -> uint 64 len -> register b st len o = Some (Ok b') -> foreign n b b'
| fo_unregister b st o b' : (n <= o.1)%nat -> unregister b st = Ok (o, b') -> foreign n b b'.

(** Each step is what happens under the locks it needs: a write of the
    header, the release of a BAR, its registration (with the record empty
    an update only registers), and the removal of one BAR of a detached
    device, which needs the lock of the record only. *)
Inductive rstep : rsys -> rsys -> Prop :=
| rg_write bs l i a offset len val d' :
    l !! i = Some a -> header_free (s_phase a) = true -> uint 32 val -> cfg_write (f_hdr (s_func a)) offset len val = Some d' ->
    rstep (mkRsys bs l) (mkRsys bs (<[i := mkFs (with_hdr d' (s_func a)) (after_write offset (s_phase a)) (s_fate a)]> l))
| rg_release bs l i a x :
    l !! i = Some a -> turn (s_phase a) = Some x -> x <> B4 \/ f_msix (s_func a) = true ->
    rstep (mkRsys bs l)
      (mkRsys (put_at x (release (rec_of (s_func a) x) (sel x bs)) bs)
         (<[i := mkFs (set_rec x None (s_func a)) (Putting x) (s_fate a)]> l))
| rg_put bs l i a x f' b' :
    l !! i = Some a -> s_phase a = Putting x -> update_bar i x (s_func a) (sel x bs) = Some (f', b') ->
    rstep (mkRsys bs l)
      (mkRsys (put_at x b' bs) (<[i := mkFs f' (after x) (note x (judge (s_func a) x (sel x bs)) (s_fate a))]> l))
| rg_skip bs l i a :
    l !! i = Some a -> s_phase a = Next B4 -> f_msix (s_func a) = false ->
    rstep (mkRsys bs l) (mkRsys bs (<[i := mkFs (s_func a) Quiet (note B4 Current (s_fate a))]> l))
| rg_detach bs l i a x :
    l !! i = Some a -> s_phase a <> Putting x ->
    rstep (mkRsys bs l)
      (mkRsys (put_at x (release (rec_of (s_func a) x) (sel x bs)) bs)
         (<[i := mkFs (set_rec x None (s_func a)) (s_phase a) (note x Detached (s_fate a))]> l))
| rg_foreign bs l x b : foreign (length l) (sel x bs) b -> rstep (mkRsys bs l) (mkRsys (put_at x b bs) l).

Definition limits (bs : bus * bus) : Prop :=
  bounds 0 65535 bs.1 /\ bounds 0 (mmio.MAX_PHYSMEM - 1) bs.2.

(** Functions attached to buses that have none of their entries yet. *)
Definition rstart (s : rsys) : Prop :=
  limits (rs_buses s) /\
  (forall x e, e ∈ map (sel x (rs_buses s)) -> (length (rs_funcs s) <= e.2.2.1)%nat) /\
  Forall (fun a => pci_thm.hdr_reach (f_hdr (s_func a)) /\ (forall x, rec_of (s_func a) x = None /\ s_fate a x = Detached) /\
    s_phase a = Quiet) (rs_funcs s).

Definition is_pio (x : slot) : bool := match x with B0 => true | _ => false end.

(** What holds of one function and its entries. *)
Record func_inv (bs : bus * bus) (i : nat) (f : function) : Prop := mkFuncInv {
  fi_hdr : pci_thm.hdr_ok (f_hdr f);
  fi_own : forall x, own (sel x bs) (i, num x) (rec_of f x) (bar_len f (num x));
  fi_only : forall y e, e ∈ map (sel y bs) -> e.2.2.1 = i -> exists x, is_pio x = is_pio y /\ e.2.2.2 = num x;
  fi_no_msix : f_msix f = false -> f_bar4 f = None
}.

(** The BARs the header has not changed under since they were updated. *)
Definition settled (p : phase) (x : slot) : bool :=
  match p with
  | Quiet => true
  | Next B2 | Putting B2 => match x with B0 => true | _ => false end
  | Next B4 | Putting B4 => match x with B4 => false | _ => true end
  | _ => false
  end.

Definition agreed (f : function) (g : slot -> fate) (x : slot) : Prop :=
  rec_of f x = match g x with Current => want f (num x) | _ => None end.

Record fs_inv (bs : bus * bus) (i : nat) (a : fstate) : Prop := mkFsInv {
  fs_func : func_inv bs i (s_func a);
  fs_agreed : forall x, settled (s_phase a) x = true -> agreed (s_func a) (s_fate a) x;
  fs_putting : forall x, s_phase a = Putting x -> rec_of (s_func a) x = None /\ (x <> B4 \/ f_msix (s_func a) = true)
}.

Record rinv (s : rsys) : Prop := mkRinv {
  ri_buses : limits (rs_buses s);
  ri_funcs : forall i a, rs_funcs s !! i = Some a -> fs_inv (rs_buses s) i a
}.

(** Entries of function [j] are the same. *)
Definition keeps (j : nat) (bs bs' : bus * bus) : Prop :=
  forall y e, e.2.2.1 = j -> e ∈ map (sel y bs') <-> e ∈ map (sel y bs).

Lemma others_keeps i j x b bs : others (i, num x) (sel x bs) b -> j <> i -> keeps j bs (put_at x b bs).
Proof.
  intros Ho Hne y e He. assert (e.2.2 <> (i, num x)) by (intros Hoe; rewrite Hoe in He; done). destruct x, y; simpl in *; by try apply Ho.
Qed.

Lemma fs_inv_keeps bs bs' j a : keeps j bs bs' -> fs_inv bs j a -> fs_inv bs' j a.
Proof.
  intros Hk [[H1 H2 H3 H4] H5 H6]. split; try done. split; try done.
  - intros x e. etransitivity; [|apply (H2 x e)]. split; intros [He Hoe]; (split; [|done]); apply (Hk x e); try done; by rewrite Hoe.
  - intros y e He Hj. apply (Hk y e Hj) in He. by apply (H3 y).
Qed.

Lemma own_others o o' b b' rec len : others o b b' -> o' <> o -> own b o' rec len -> own b' o' rec len.
Proof.
  intros Ho Hne Hown e. etransitivity; [|apply (Hown e)]. split; intros [He Hoe]; (split; [|done]); apply (Ho e); congruence.
Qed.

Lemma sel_put x y b bs : sel y (put_at x b bs) = if bool_decide (is_pio x = is_pio y) then b else sel y bs.
Proof. by destruct x, y. Qed.

Lemma num_inj x y : num x = num y -> x = y.
Proof. by destruct x, y. Qed.

Lemma set_rec_same x r f : rec_of (set_rec x r f) x = r /\ f_hdr (set_rec x r f) = f_hdr f /\ f_msix (set_rec x r f) = f_msix f.
Proof. by destruct x. Qed.

Lemma set_rec_other x y r f : y <> x -> rec_of (set_rec x r f) y = rec_of f y.
Proof. by destruct x, y. Qed.

Lemma set_rec_len x r f i : bar_len (set_rec x r f) i = bar_len f i /\ want (set_rec x r f) i = want f i.
Proof. by destruct x. Qed.

(** A BAR gets a new record and its entry with it. *)
Lemma func_inv_set bs i f x r b :
  func_inv bs i f -> own b (i, num x) r (bar_len f (num x)) -> others (i, num x) (sel x bs) b ->
  (f_msix f = false -> x = B4 -> r = None) -> func_inv (put_at x b bs) i (set_rec x r f).
Proof.
  intros [H1 H2 H3 H4] Ho Hoth Hm. destruct (set_rec_same x r f) as (Hr & Hh & Hx). split.
  - by rewrite Hh.
  - intros y. rewrite sel_put, (proj1 (set_rec_len _ _ _ _)). destruct (decide (y = x)) as [->|Hne].
    + by rewrite Hr, bool_decide_eq_true_2.
    + rewrite set_rec_other by done. case_bool_decide as Hp; [|done]. eapply own_others; [exact Hoth| |].
      * intros [=]%(f_equal snd)%num_inj. done.
      * replace (sel x bs) with (sel y bs) by (by destruct x, y). apply H2.
  - intros y e. rewrite sel_put. case_bool_decide as Hp; [|by apply H3]. intros He Hi.
    destruct (decide (e.2.2 = (i, num x))) as [Heq|Hne]; [exists x; by rewrite Heq|]. apply (Hoth e Hne) in He.
    destruct (H3 x e He Hi) as (z & ? & ?). exists z. split; [congruence|done].
  - rewrite Hx. intros Hf. destruct (decide (x = B4)) as [->|Hne]; [exact (Hm Hf eq_refl)|]. destruct x; simpl; try done; by apply H4.
Qed.

Lemma limits_put x b bs hi : limits bs -> hi = end_ (sel x bs) -> bounds 0 hi b -> limits (put_at x b bs).
Proof. intros [(? & ? & E1) (? & ? & E2)] -> Hb. destruct x; simpl in Hb; rewrite ?E1, ?E2 in Hb; by split. Qed.

Lemma limits_sel x bs : limits bs -> bounds 0 (end_ (sel x bs)) (sel x bs).
Proof. intros [(? & ? & ?) (? & ? & ?)]. by destruct x. Qed.

Lemma release_inv bs i f x :
  limits bs -> func_inv bs i f ->
  let bs' := put_at x (release (rec_of f x) (sel x bs)) bs in
  limits bs' /\ func_inv bs' i (set_rec x None f) /\ forall j, j <> i -> keeps j bs bs'.
Proof.
  intros Hl Hf. pose proof (limits_sel x bs Hl) as Hb. pose proof (fi_own _ _ _ Hf x) as Ho.
  destruct (bus_release_spec _ _ _ _ _ _ Hb Ho) as [Hb1 He]. pose proof (release_others _ _ _ _ _ _ Hb Ho) as Hoth.
  split_and!; [by eapply limits_put| |intros j Hj; by eapply others_keeps].
  apply func_inv_set; try done. apply own_none. intros e Hin. by apply He in Hin as [_ ?].
Qed.

Lemma update_inv bs i f x :
  limits bs -> func_inv bs i f -> x <> B4 \/ f_msix f = true ->
  exists b, update_bar i x f (sel x bs) = Some (set_rec x (granted f (num x) (release (rec_of f x) (sel x bs))) f, b) /\
    limits (put_at x b bs) /\ func_inv (put_at x b bs) i (set_rec x (granted f (num x) (release (rec_of f x) (sel x bs))) f) /\
    forall j, j <> i -> keeps j bs (put_at x b bs).
Proof.
  intros Hl Hf Hx. destruct (update_bar_spec i x f (sel x bs) _ (fi_hdr _ _ _ Hf) (limits_sel x bs Hl) (fi_own _ _ _ Hf x) Hx)
    as (b & Hu & Hb & Ho & Hoth).
  exists b. split_and!; [done|by eapply limits_put| |intros j Hj; by eapply others_keeps].
  apply func_inv_set; try done. intros Hm ->. destruct Hx as [|Hx]; congruence.
Qed.

(** A whole update. *)
Lemma update_all p m i f :
  limits (p, m) -> func_inv (p, m) i f ->
  exists f1 p1 f2 m1, update_bar_registration i f p = Some (f1, p1) /\ update_mmio_registration i f1 m = Some (f2, m1) /\
    limits (p1, m1) /\ func_inv (p1, m1) i f2.
Proof.
  intros Hl Hf. destruct (update_inv _ i f B0 Hl Hf) as (p1 & Hu0 & Hl0 & Hf0 & _); [by left|]. cbn [put_at sel fst snd] in *.
  set (f1 := set_rec B0 _ f) in *. destruct (update_inv _ i f1 B2 Hl0 Hf0) as (m2 & Hu2 & Hl2 & Hf2 & _); [by left|]. cbn [put_at sel fst snd] in *.
  set (f2 := set_rec B2 _ f1) in *. pose proof (update_parts i f p m) as Hp. rewrite Hu0 in Hp. cbn [update_bar] in Hu0. rewrite Hu0 in Hp.
  simpl option_bind in Hp. cbn [fst snd] in Hp. rewrite Hu2 in Hp. simpl option_bind in Hp. cbn [fst snd] in Hp.
  destruct (f_msix f2) eqn:Hm.
  - destruct (update_inv _ i f2 B4 Hl2 Hf2) as (m4 & Hu4 & Hl4 & Hf4 & _); [by right|]. cbn [put_at sel fst snd] in *. rewrite Hu4 in Hp.
    simpl option_bind in Hp. apply bind_Some in Hp as ([f4 m5] & Hum & [= -> ->]). by eexists _, _, _, _.
  - apply bind_Some in Hp as ([f4 m5] & Hum & [= -> ->]). by eexists _, _, _, _.
Qed.

(** A write that does not move the function leaves what decoding depends on. *)
Lemma unmoved d offset len val d' :
  cfg_write d offset len val = Some d' -> moves offset = false -> command d' = command d /\ bars d' = bars d.
Proof.
  unfold cfg_write, moves. intros Hw [H4 Hb]%orb_false_iff. destruct (LEN_CFG_STD <=? offset); [by simplify_eq|].
  rewrite H4 in Hw. simpl in Hw. unfold bar_index in Hw. rewrite Hb in Hw. simpl in Hw. by case_match; simplify_eq.
Qed.

Lemma unmoved_want d offset len val f i :
  cfg_write (f_hdr f) offset len val = Some d -> moves offset = false -> want (with_hdr d f) i = want f i.
Proof. intros Hw Hm. destruct (unmoved _ _ _ _ _ Hw Hm) as [Hc Hb]. unfold want, has_cmd. cbn [f_hdr f_msix with_hdr]. by rewrite Hc, Hb. Qed.

Lemma kinds_len d d' f i : e_kind <$> bars d' = e_kind <$> bars d -> f_hdr f = d -> bar_len (with_hdr d' f) i = bar_len f i.
Proof.
  intros Hk <-. unfold bar_len, get. cbn [f_hdr with_hdr]. apply (f_equal (.!! i)) in Hk. rewrite !list_lookup_fmap in Hk.
  destruct (bars d' !! i) as [e1|], (bars (f_hdr f) !! i) as [e2|]; simpl in *; try done. injection Hk as ->. by destruct (e_kind e2).
Qed.

Lemma write_inv bs i f offset len val d' :
  func_inv bs i f -> uint 32 val -> cfg_write (f_hdr f) offset len val = Some d' -> func_inv bs i (with_hdr d' f).
Proof.
  intros [H1 H2 H3 H4] Hv Hw. destruct (pci_thm.cfg_write_ok (f_hdr f) offset len val H1 Hv) as (d1 & Hw1 & Hok & _ & _ & _ & _ & Hk).
  rewrite Hw in Hw1. injection Hw1 as <-. split; try done. intros x. rewrite (kinds_len (f_hdr f)) by done. by destruct x; apply H2.
Qed.

Lemma foreign_inv n x b bs :
  foreign n (sel x bs) b -> limits bs -> limits (put_at x b bs) /\ forall j, (j < n)%nat -> keeps j bs (put_at x b bs).
Proof.
  intros Hfo Hl. pose proof (limits_sel x bs Hl) as Hb.
  cut (bounds 0 (end_ (sel x bs)) b /\ forall e, (e.2.2.1 < n)%nat -> e ∈ map b <-> e ∈ map (sel x bs)).
  { intros [Hb' He]. split; [by eapply limits_put|]. intros j Hj y e <-. rewrite sel_put. case_bool_decide; [|done].
    rewrite (He e Hj). by destruct x, y. }
  destruct Hb as (Hwf & Hlo & Hhi).
  destruct Hfo as [b0 st len o b1 Ho Hst Hlen Hr|b0 st o b1 Ho Hr].
  - pose proof (register_spec b0 st len o Hwf Hst Hlen) as Hp. rewrite Hr in Hp. destruct Hp as (_ & _ & _ & _ & Hwf' & Hs' & He' & Hel).
    split; [split; [done|split; congruence]|]. intros e He. rewrite Hel. split; [|tauto]. intros [->|?]; [|done]. simpl in He. lia.
  - unfold unregister in Hr. pose proof (wf_remove b0 st Hwf) as Hwf'.
    destruct (bt_remove_sorted st (map b0) (wf_sorted b0 Hwf)) as (_ & He & Hv).
    destruct ((bt_remove st (map b0)).2) as [[l x0]|] eqn:Hrm; [|done]. injection Hr as -> <-.
    split; [done|]. intros e Hej. cbn [map]. rewrite He. split; [tauto|]. intros Hin. split; [done|]. intros Hk.
    pose proof (proj1 (Hv (l, o)) eq_refl) as Hin'. rewrite (sorted_unique b0 e (st, (l, o)) Hwf Hin Hin' Hk) in Hej. simpl in Hej. lia.
Qed.

(** One function moves, the entries of the others stay. *)
Lemma rinv_insert bs l bs' i a :
  rinv (mkRsys bs l) -> limits bs' -> fs_inv bs' i a -> (forall j, j <> i -> keeps j bs bs') -> rinv (mkRsys bs' (<[i := a]> l)).
Proof.
  intros [_ Hf] Hl Ha Hk. split; [done|]. cbn [rs_buses rs_funcs] in *. intros j c Hj.
  apply list_lookup_insert_Some in Hj as [(<- & <- & _)|[Hne Hj]]; [done|]. eapply fs_inv_keeps; [by apply Hk|by apply Hf].
Qed.

Lemma keeps_refl j bs : keeps j bs bs.
Proof. by intros y e He. Qed.

Lemma after_write_cases offset p :
  header_free p = true ->
  after_write offset p = p /\ moves offset = false \/ moves offset = true /\ (after_write offset p = Owed \/ after_write offset p = Stuck).
Proof. unfold after_write. destruct (moves offset), p; naive_solver. Qed.

Lemma fs_write bs i a offset len val d' :
  fs_inv bs i a -> header_free (s_phase a) = true -> uint 32 val -> cfg_write (f_hdr (s_func a)) offset len val = Some d' ->
  fs_inv bs i (mkFs (with_hdr d' (s_func a)) (after_write offset (s_phase a)) (s_fate a)).
Proof.
  intros [H1 H2 H3] Hp Hv Hw. pose proof (write_inv _ _ _ _ _ _ _ H1 Hv Hw) as Hf.
  destruct (after_write_cases offset _ Hp) as [[-> Hm]|[Hm [-> | ->]]]; split; try done; cbn [s_func s_phase s_fate] in *.
  intros x Hs. specialize (H2 x Hs). unfold agreed in *. rewrite (unmoved_want _ _ _ _ _ _ Hw Hm). by destruct x.
Qed.

Lemma agreed_other x y r f g v : y <> x -> agreed f g y -> agreed (set_rec x r f) (note x v g) y.
Proof. intros Hne Ha. unfold agreed, note. rewrite set_rec_other, decide_False by done. by rewrite (proj2 (set_rec_len _ _ _ _)). Qed.

Lemma fs_put bs i a x b :
  fs_inv bs i a -> s_phase a = Putting x -> func_inv (put_at x b bs) i (set_rec x (granted (s_func a) (num x) (sel x bs)) (s_func a)) ->
  fs_inv (put_at x b bs) i (mkFs (set_rec x (granted (s_func a) (num x) (sel x bs)) (s_func a)) (after x)
    (note x (judge (s_func a) x (sel x bs)) (s_fate a))).
Proof.
  intros [H1 H2 H3] Hp Hf. rewrite Hp in *. split; cbn [s_func s_phase s_fate] in *; [done| |by destruct x].
  intros y Hy. destruct (decide (y = x)) as [->|Hne].
  - unfold agreed, note. rewrite decide_True, (proj1 (set_rec_same _ _ _)), (proj2 (set_rec_len _ _ _ _)) by done.
    unfold granted, judge. destruct (want _ _) as [w|]; [|done]. by destruct (fits _ _ _).
  - apply agreed_other; [done|]. apply H2. by destruct x, y.
Qed.

Lemma rinv_step s s' : rinv s -> rstep s s' -> rinv s'.
Proof.
  intros Hinv Hstep. destruct Hstep as [bs l i a offset len val d' Hi Hp Hv Hw|bs l i a x Hi Ht Hx|bs l i a x f' b' Hi Hp Hu|
    bs l i a Hi Hp Hm|bs l i a x Hi Hp|bs l x b Hfo]; pose proof (ri_buses _ Hinv) as Hl; simpl in Hl;
    try (pose proof (ri_funcs _ Hinv i a Hi) as Ha; simpl in Ha).
  - eapply (rinv_insert bs l); [exact Hinv|done|by eapply fs_write|intros; apply keeps_refl].
  - destruct (release_inv bs i _ x Hl (fs_func _ _ _ Ha)) as (Hl' & Hf' & Hk). eapply (rinv_insert bs l); [exact Hinv|done| |done].
    split; cbn [s_func s_phase s_fate]; [done| |].
    + intros y Hy. unfold agreed. rewrite (proj2 (set_rec_len _ _ _ _)), set_rec_other by (by destruct x, y).
      apply (fs_agreed _ _ _ Ha). destruct (s_phase a) as [| |z|z|]; simplify_eq/=; by destruct x, y.
    + intros y [= <-]. destruct (set_rec_same x None (s_func a)) as (-> & _ & ->). done.
  - destruct (fs_putting _ _ _ Ha x Hp) as [Hr Hx].
    destruct (update_inv bs i _ x Hl (fs_func _ _ _ Ha) Hx) as (b & Hu' & Hl' & Hf' & Hk). rewrite Hr in *. cbn [release] in *.
    rewrite Hu in Hu'. injection Hu' as -> ->. eapply (rinv_insert bs l); [exact Hinv|done|by apply fs_put|done].
  - eapply (rinv_insert bs l); [exact Hinv|done| |intros; apply keeps_refl]. destruct Ha as [H1 H2 H3]. split; cbn [s_func s_phase s_fate]; try done.
    intros y _. destruct (decide (y = B4)) as [->|Hne].
    + unfold agreed, note. simpl. rewrite (fi_no_msix _ _ _ H1 Hm). unfold want. rewrite Hm. simpl. by destruct (get _ _) as [[[] ?]|].
    + specialize (H2 y). rewrite Hp in H2. unfold agreed, note in *. rewrite decide_False by done. apply H2. by destruct y.
  - destruct (release_inv bs i _ x Hl (fs_func _ _ _ Ha)) as (Hl' & Hf' & Hk). eapply (rinv_insert bs l); [exact Hinv|done| |done].
    destruct Ha as [H1 H2 H3]. split; cbn [s_func s_phase s_fate]; try done.
    + intros y Hy. destruct (decide (y = x)) as [->|Hne]; [|by apply agreed_other, H2].
      unfold agreed, note. by rewrite decide_True, (proj1 (set_rec_same _ _ _)) by done.
    + intros y Hy. rewrite set_rec_other by congruence. destruct (set_rec_same x None (s_func a)) as (_ & _ & ->). by apply H3.
  - destruct (foreign_inv _ _ _ _ Hfo Hl) as [Hl' Hk]. split; [done|]. cbn [rs_buses rs_funcs] in *. intros j c Hj.
    eapply fs_inv_keeps; [apply Hk; by eapply lookup_lt_Some|by apply (ri_funcs _ Hinv)].
Qed.

Lemma rinv_start s : rstart s -> rinv s.
Proof.
  intros (Hl & Hno & Hf). split; [done|]. intros i a Hi. rewrite Forall_lookup in Hf.
  destruct (Hf _ _ Hi) as (Hr & Hrec & Hp). apply lookup_lt_Some in Hi.
  split; [|intros x _; unfold agreed; by destruct (Hrec x) as [-> ->]|by rewrite Hp]. split.
  - by apply pci_thm.hdr_reach_ok.
  - intros x. destruct (Hrec x) as [-> _]. apply own_none. intros e He Hoe. apply Hno in He. rewrite Hoe in He. simpl in He. lia.
  - intros y e He Hei. apply Hno in He. lia.
  - intros _. apply (Hrec B4).
Qed.

(** Two calls that hold each other's lock never let go. *)
Lemma stuck_step s s' i a :
  rstep s s' -> rs_funcs s !! i = Some a -> s_phase a = Stuck ->
  exists c, rs_funcs s' !! i = Some c /\ s_phase c = Stuck /\ f_hdr (s_func c) = f_hdr (s_func a).
Proof.
  intros Hstep Hi Hp. assert (Hlt := lookup_lt_Some _ _ _ Hi).
  destruct Hstep as [bs l j c offset len val d' Hj Hq _ _|bs l j c x Hj Ht _|bs l j c x f' b' Hj Hq _|bs l j c Hj Hq _|bs l j c x Hj _|bs l x b _];
    cbn [rs_funcs] in *; [| | | | |by eauto];
    (destruct (decide (i = j)) as [->|Hne]; [|rewrite list_lookup_insert_ne by done; by eauto]);
    rewrite Hi in Hj; injection Hj as <-; try (by rewrite Hp in * ); try congruence.
  rewrite list_lookup_insert_eq by done. eexists. split; [done|]. split; [done|]. by destruct x.
Qed.

(** Steps an update under way has still to take. *)
Definition left (p : phase) : nat :=
  match p with
  | Quiet | Stuck => 0 | Putting B4 => 1 | Next B4 => 2 | Putting B2 => 3 | Next B2 => 4 | Putting B0 => 5 | Next B0 | Owed => 6
  end.

Lemma update_steps s i a :
  rinv s -> rs_funcs s !! i = Some a -> s_phase a <> Quiet -> s_phase a <> Stuck ->
  exists s' c, rstep s s' /\ rs_funcs s' !! i = Some c /\ s_phase c <> Stuck /\ f_hdr (s_func c) = f_hdr (s_func a) /\
    (left (s_phase c) < left (s_phase a))%nat.
Proof.
  intros Hinv Hi Hq Hs. assert (Hlt := lookup_lt_Some _ _ _ Hi). destruct s as [bs l]. cbn [rs_funcs] in *.
  pose proof (ri_funcs _ Hinv i a Hi) as Ha. simpl in Ha.
  destruct (turn (s_phase a)) as [x|] eqn:Ht.
  - destruct (decide (x <> B4 \/ f_msix (s_func a) = true)) as [Hx|Hx].
    + do 2 eexists. split; [by eapply (rg_release bs l i a x)|]. cbn [rs_funcs]. rewrite list_lookup_insert_eq by done.
      split; [done|]. cbn [s_phase s_func]. split; [done|]. split; [by destruct x|].
      destruct (s_phase a); simplify_eq/=; [lia|]. destruct x; simpl; lia.
    + assert (x = B4) as -> by (destruct x; [exfalso; apply Hx; by left..|done]). assert (Hp : s_phase a = Next B4) by (by destruct (s_phase a); simplify_eq/=).
      do 2 eexists. split; [apply (rg_skip bs l i a); [done|done|apply not_true_iff_false; tauto]|].
      cbn [rs_funcs]. rewrite list_lookup_insert_eq by done. split; [done|]. rewrite Hp. cbn [s_phase s_func]. split; [done|]. split; [done|]. simpl. lia.
  - assert (exists x, s_phase a = Putting x) as [x Hp] by (destruct (s_phase a); simplify_eq/=; eauto).
    destruct (fs_putting _ _ _ Ha x Hp) as [_ Hx]. destruct (update_inv bs i _ x (ri_buses _ Hinv) (fs_func _ _ _ Ha) Hx) as (b & Hu & _).
    do 2 eexists. split; [by eapply (rg_put bs l i a x)|]. cbn [rs_funcs]. rewrite list_lookup_insert_eq by done.
    split; [done|]. rewrite Hp. cbn [s_phase s_func]. destruct x; simpl; (split; [done|]; split; [done|]; lia).
Qed.

Lemma update_finishes s i a :
  rinv s -> rs_funcs s !! i = Some a -> s_phase a <> Stuck ->
  exists s' c, rtc rstep s s' /\ rs_funcs s' !! i = Some c /\ s_phase c = Quiet /\ f_hdr (s_func c) = f_hdr (s_func a).
Proof.
  remember (left (s_phase a)) as n eqn:Hn. revert s a Hn. induction (lt_wf n) as [n _ IH]. intros s a -> Hinv Hi Hs.
  destruct (s_phase a) eqn:Hp; [by exists s, a; split; [apply rtc_refl|]| | | |done];
    (destruct (update_steps s i a Hinv Hi) as (s1 & c1 & Hst & Hi1 & Hs1 & Hh1 & Hlt); [congruence..|];
     rewrite Hp in Hlt; destruct (IH _ Hlt s1 c1 eq_refl (rinv_step _ _ Hinv Hst) Hi1 Hs1) as (s2 & c & Hr & Hi2 & Hq & Hh);
     exists s2, c; split; [by eapply rtc_l|]; split_and!; [done|done|congruence]).
Qed.

Lemma stuck_for_good s s' i a :
  rtc rstep s s' -> rs_funcs s !! i = Some a -> s_phase a = Stuck ->
  exists c, rs_funcs s' !! i = Some c /\ s_phase c = Stuck /\ f_hdr (s_func c) = f_hdr (s_func a).
Proof.
  intros Hr. revert a. induction Hr as [s|s s1 s2 Hst _ IH]; intros a Hi Hp; [by eauto|].
  destruct (stuck_step _ _ _ _ Hst Hi Hp) as (c & Hi1 & Hp1 & Hh1). destruct (IH c Hi1 Hp1) as (c2 & ? & ? & ?). exists c2. split_and!; congruence.
Qed.

(** C25: the buses decode what the functions say. However the vCPUs that
    program functions, other devices and removals interleave, lock by lock,
    each bus holds of a function exactly the BARs its records name, each at
    its defined size. While no update is under way, the record of a BAR is
    where the header has it decode (nowhere, if it is disabled or at zero),
    unless its range did not fit the bus when the BAR was last updated or
    it was detached since: then it is on no bus. An update under way can
    always be finished, also where BARs collide, except when a second write
    that moves the function comes before the first has the header's lock
    back: the two calls then wait for each other for good, and the header
    can never be written again. *)
Theorem bar_registrations_exact s0 s i a :
  rstart s0 -> rtc rstep s0 s -> rs_funcs s !! i = Some a ->
  let f := s_func a in
  (forall st len n, (st, (len, (i, n))) ∈ map (rs_buses s).1 <-> n = 0%nat /\ f_bar0 f = Some st /\ len = bar_len f 0) /\
  (forall st len n, (st, (len, (i, n))) ∈ map (rs_buses s).2 <->
     (n = 2%nat /\ f_bar2 f = Some st \/ n = 4%nat /\ f_bar4 f = Some st) /\ len = bar_len f n) /\
  (s_phase a = Quiet -> forall x, rec_of f x = match s_fate a x with Current => want f (num x) | Refused | Detached => None end) /\
  (s_phase a <> Stuck ->
     exists s' c, rtc rstep s s' /\ rs_funcs s' !! i = Some c /\ s_phase c = Quiet /\ f_hdr (s_func c) = f_hdr f) /\
  (s_phase a = Stuck ->
     forall s', rtc rstep s s' -> exists c, rs_funcs s' !! i = Some c /\ s_phase c = Stuck /\ f_hdr (s_func c) = f_hdr f).
Proof.
  intros H0 Hr Hi. assert (Hinv : rinv s).
  { apply rinv_start in H0. induction Hr; eauto using rinv_step. }
  pose proof (ri_funcs s Hinv i a Hi) as [[_ Ho Hon _] Hag _]. simpl. split_and!.
  - intros st len n. split.
    + intros He. destruct (Hon B0 _ He eq_refl) as ([] & ? & Hn); try done. simpl in Hn. subst n.
      destruct (proj1 (Ho B0 _) (conj He eq_refl)) as (w & Hw & [= <- <-]). done.
    + intros (-> & Hw & ->). apply (Ho B0 (st, (bar_len (s_func a) 0, (i, 0%nat)))). eauto.
  - intros st len n. split.
    + intros He. destruct (Hon B2 _ He eq_refl) as (x & Hx & Hn). simpl in Hn. subst n.
      assert (Hs : sel x (rs_buses s) = (rs_buses s).2) by (by destruct x). specialize (Ho x). rewrite Hs in Ho.
      destruct (proj1 (Ho _) (conj He eq_refl)) as (w & Hw & [= <- <-]). destruct x; simpl in *; naive_solver.
    + intros ([[-> Hw]|[-> Hw]] & ->).
      * apply (Ho B2 (st, (bar_len (s_func a) 2, (i, 2%nat)))). eauto.
      * apply (Ho B4 (st, (bar_len (s_func a) 4, (i, 4%nat)))). eauto.
  - intros Hq x. apply Hag. by rewrite Hq.
  - by apply update_finishes.
  - intros Hp s' Hr'. by eapply stuck_for_good.
Qed.

(** A guest programs BAR0 of a function and enables its ports. *)
Definition demo_hdr : DeviceState :=
  match define_bar 0 (DefPio 32) (device_new (mkIdent 0x1AF4 0x1001 1 0 0 0 0 0)) with Some d => d | None => hostbridge_new end.

Definition off : slot -> fate := fun _ => Detached.

Definition demo_sys : rsys :=
  mkRsys (mkASpace 0 65535 [], mkASpace 0 (mmio.MAX_PHYSMEM - 1) []) [mkFs (mkFunc demo_hdr true None None None) Quiet off].

Definition demo_hdr1 : DeviceState := default demo_hdr (cfg_write demo_hdr 0x10 4 0xC000).
Definition demo_hdr2 : DeviceState := default demo_hdr (cfg_write demo_hdr1 0x04 2 1).
Definition all_current : slot -> fate := note B4 Current (note B2 Current (note B0 Current off)).
Definition demo_sys1 : rsys :=
  mkRsys (mkASpace 0 65535 [], mkASpace 0 (mmio.MAX_PHYSMEM - 1) []) [mkFs (mkFunc demo_hdr1 true None None None) Quiet all_current].
Definition demo_sys2 : rsys :=
  mkRsys (mkASpace 0 65535 [(0xC000, (32, (0%nat, 0%nat)))], mkASpace 0 (mmio.MAX_PHYSMEM - 1) [])
    [mkFs (mkFunc demo_hdr2 true (Some 0xC000) None None) Quiet (note B4 Current (note B2 Current (note B0 Current all_current)))].

Lemma demo_hdr_reach : pci_thm.hdr_reach demo_hdr.
Proof. by apply (pci_thm.hr_define (device_new (mkIdent 0x1AF4 0x1001 1 0 0 0 0 0)) 0 (DefPio 32)); [apply pci_thm.hr_new| |]. Qed.

Lemma demo_starts : rstart demo_sys.
Proof.
  assert (Hb : forall hi, 0 <= hi < 2 ^ 64 -> bounds 0 hi (mkASpace 0 hi [])).
  { intros hi Hhi. split; [|done]. apply (wf_new 0 hi); [lia|lia|]. unfold new. by destruct (Z.leb_spec 0 hi); [|lia]. }
  split_and!; [split; apply Hb; unfold mmio.MAX_PHYSMEM; lia| |].
  - intros [] e He; by apply elem_of_nil in He.
  - apply Forall_singleton. split_and!; [apply demo_hdr_reach|by intros []|done].
Qed.

(** The three BARs of an update, one after the other. *)
Ltac updates :=
  eapply rtc_l; [eapply (rg_release _ _ 0 _ B0); [reflexivity|reflexivity|by left]|];
  eapply rtc_l; [eapply (rg_put _ _ 0 _ B0); [reflexivity|reflexivity|vm_compute; reflexivity]|];
  eapply rtc_l; [eapply (rg_release _ _ 0 _ B2); [reflexivity|reflexivity|by left]|];
  eapply rtc_l; [eapply (rg_put _ _ 0 _ B2); [reflexivity|reflexivity|vm_compute; reflexivity]|];
  eapply rtc_l; [eapply (rg_release _ _ 0 _ B4); [reflexivity|reflexivity|by right]|];
  eapply rtc_l; [eapply (rg_put _ _ 0 _ B4); [reflexivity|reflexivity|vm_compute; reflexivity]|];
  apply rtc_refl.

Lemma demo_runs1 : rtc rstep demo_sys demo_sys1.
Proof. eapply rtc_l; [eapply (rg_write _ _ 0 _ 0x10 4 0xC000 demo_hdr1); [reflexivity|reflexivity|done|reflexivity]|]. updates. Qed.

Lemma demo_runs2 : rtc rstep demo_sys1 demo_sys2.
Proof. eapply rtc_l; [eapply (rg_write _ _ 0 _ 0x04 2 1 demo_hdr2); [reflexivity|reflexivity|done|reflexivity]|]. updates. Qed.

Lemma bar_registrations_exact_witness :
  rec_of (mkFunc demo_hdr2 true (Some 0xC000) None None) B0 = want (mkFunc demo_hdr2 true (Some 0xC000) None None) 0 /\
  want (mkFunc demo_hdr2 true (Some 0xC000) None None) 0 = Some 0xC000.
Proof.
  split; [|vm_compute; reflexivity].
  destruct (bar_registrations_exact demo_sys demo_sys2 0 _ demo_starts (transitivity demo_runs1 demo_runs2) eq_refl) as (_ & _ & H & _).
  exact (H eq_refl B0).
Defined.

(** Two vCPUs write BAR0 at the same time: each waits for the other. *)
Example moving_writes_deadlock :
  exists s, rtc rstep demo_sys s /\ exists a, rs_funcs s !! 0%nat = Some a /\ s_phase a = Stuck.
Proof.
  eexists. split.
  - eapply rtc_l; [eapply (rg_write _ _ 0 _ 0x10 4 0xC000 demo_hdr1); [reflexivity|reflexivity|done|reflexivity]|].
    eapply rtc_l; [eapply (rg_write _ _ 0 _ 0x04 2 1 demo_hdr2); [reflexivity|reflexivity|done|reflexivity]|]. apply rtc_refl.
  - eexists. split; reflexivity.
Qed.

Lemma demo_hdr2_reach : pci_thm.hdr_reach demo_hdr2.
Proof.
  apply (pci_thm.hr_write demo_hdr1 0x04 2 1); [|done|reflexivity].
  apply (pci_thm.hr_write demo_hdr 0x10 4 0xC000); [apply demo_hdr_reach|done|reflexivity].
Qed.

Lemma header_replays_witness :
  exists d1,
    replay_migrate_pci_state (bar_replay_writes demo_hdr (mp_bar_addrs (migrate_state demo_hdr2)))
      (mp_command (migrate_state demo_hdr2)) demo_hdr = Some d1 /\
    migrate_state d1 = migrate_state demo_hdr2 /\ (forall i, reg_read (bars d1) i = reg_read (bars demo_hdr2) i) /\
    ident d1 = ident demo_hdr.
Proof. apply (pci_thm.header_replays demo_hdr2 demo_hdr demo_hdr2_reach demo_hdr_reach). vm_compute. reflexivity. Defined.

(** A function whose registers read as their offsets, at 0.1.0. *)
Definition echo : PciDevice Z unit := mkPciDevice Z unit (fun _ o _ w => (w, as_u 32 o)) (fun _ o _ v w => w + o + v).

Definition echo_chip : @Chipset Z unit :=
  mkChipset (put_bdf pci_bus_new (mkBdf 0 1 0) (Some tt)) 0 0 0.

Definition echo_ports : pio.PioBus (@Chipset Z unit) :=
  default (mkASpace 0 65535 []) (@create_ports Z unit echo (mkASpace 0 65535 [])).

Lemma echo_ports_created : @create_ports Z unit echo (mkASpace 0 65535 []) = Some echo_ports.
Proof.
  unfold echo_ports. assert (Hs : bool_decide (is_Some (@create_ports Z unit echo (mkASpace 0 65535 []))) = true) by (vm_compute; reflexivity).
  apply bool_decide_eq_true in Hs as [p Hp]. by rewrite Hp.
Qed.

Lemma config_mechanism_witness :
  exists c1, pio.handle_out echo_ports echo_chip 0xCF8 4 (pci_thm.cfg_addr (mkBdf 0 1 0) 8) = Some c1 /\
    exists r, pio.handle_in echo_ports c1 0xCFE 2 = Some (r, 10).
Proof.
  destruct (@pci_thm.config_mechanism Z unit echo (mkASpace 0 65535 []) echo_ports echo_chip (mkBdf 0 1 0) 8 2 2 0)
    as (c1 & r & w & H1 & _ & _ & Hr & Hi & _).
  - split; [|done]. by apply (wf_new 0 65535).
  - apply echo_ports_created.
  - split; [reflexivity|]. by repeat constructor.
  - intros d o l w. by apply as_u_uint.
  - by split.
  - done.
  - done.
  - lia.
  - set_solver.
  - exists c1. split; [exact H1|]. vm_compute in Hr. injection Hr as <-. eexists. exact Hi.
Defined.

End reg_thm.
