(* ===== verification/PciMsix.v ===== *)
(** * MSI-X

    [crates/vmm-devices/src/pci/msix.rs]: the vector table, the function and
    vector masks, and the pending bits that hold a message back until it may
    leave. The sink is the kernel's: an operation returns the messages it
    would send. Each method runs under the table's lock, so a history is a
    sequence of whole calls; [None] is an index out of range. *)

From S2P Require Import Prelude.

Module msix.

Definition MSIX_CAP_ID : Z := 0x11.
Definition ENTRY_SIZE : Z := 16.
Definition VECTOR_CTRL_MASK : Z := 1.
Definition MSG_CTRL_ENABLE : Z := 2 ^ 15.
Definition MSG_CTRL_FUNC_MASK : Z := 2 ^ 14.

(** ** Layout of the MSI-X BAR *)

Definition pba_offset_for (count : Z) : Z := Z.land (count * ENTRY_SIZE + 0xFFF) (2 ^ 64 - 1 - 0xFFF).
Definition div_ceil (x y : Z) : Z := (x + y - 1) / y.
Definition pba_bytes_for (count : Z) : Z := div_ceil count 8.
Definition next_power_of_two (x : Z) : Z := if x <=? 1 then 1 else 2 ^ Z.log2_up x.
Definition bar_size_for (count : Z) : Z :=
  Z.max (next_power_of_two (pba_offset_for count + pba_bytes_for count)) 4096.

(** ** The table *)

Record MsixEntry : Type := mkEntry { addr_lo : Z; addr_hi : Z; data : Z; control : Z }.

Definition entry_default : MsixEntry := mkEntry 0 0 0 VECTOR_CTRL_MASK.

Record MsixInner : Type := mkInner {
  entries : list MsixEntry; enabled : bool; func_masked : bool; pba : list Z
}.

Definition msix_new (count : Z) : MsixInner :=
  mkInner (replicate (Z.to_nat count) entry_default) false false
    (replicate (Z.to_nat (div_ceil count 64)) 0).

Definition message : Type := (Z * Z)%type.

Definition entry_addr (e : MsixEntry) : Z := Z.lor (addr_lo e) (Z.shiftl (addr_hi e) 32).
Definition entry_message (e : MsixEntry) : message := (entry_addr e, data e).
Definition vec_masked (e : MsixEntry) : bool := bit_set (control e) VECTOR_CTRL_MASK.

Definition set_pba (t : MsixInner) (p : list Z) : MsixInner :=
  mkInner (entries t) (enabled t) (func_masked t) p.
Definition set_entry (t : MsixInner) (i : nat) (e : MsixEntry) : MsixInner :=
  mkInner (<[i := e]> (entries t)) (enabled t) (func_masked t) (pba t).

Definition fire (t : MsixInner) (vector : nat) : option (MsixInner * option message) :=
  match entries t !! vector with
  | None => Some (t, None)
  | Some e =>
      if negb (enabled t) then Some (t, None)
      else if func_masked t || vec_masked e then
        let* word := pba t !! (vector / 64)%nat in
        let bit := Z.of_nat (vector mod 64) in
        Some (set_pba t (<[(vector / 64)%nat := Z.lor word (Z.shiftl 1 bit)]> (pba t)), None)
      else Some (t, Some (entry_message e))
  end.

Definition clear_pending (t : MsixInner) : MsixInner :=
  set_pba t (replicate (length (pba t)) 0).

Definition read_entry (t : MsixInner) (vector : nat) : message :=
  match entries t !! vector with None => (0, 0) | Some e => entry_message e end.

(** [take_pending]: the message one vector holds, if it can leave now. *)
Definition take_pending (t : MsixInner) (idx : nat) : MsixInner * option message :=
  if negb (enabled t) || func_masked t then (t, None)
  else
    match entries t !! idx with
    | None => (t, None)
    | Some e =>
        if vec_masked e then (t, None)
        else
          let bit := Z.shiftl 1 (Z.of_nat (idx mod 64)) in
          match pba t !! (idx / 64)%nat with
          | None => (t, None)
          | Some word =>
              if Z.land word bit =? 0 then (t, None)
              else (set_pba t (<[(idx / 64)%nat := Z.land word (2 ^ 64 - 1 - bit)]> (pba t)),
                    Some (entry_message e))
          end
    end.

(** [u64::trailing_zeros]: the lowest set bit from [i] on, of [n] bits. *)
Fixpoint lowest_bit (n i : nat) (x : Z) : nat :=
  match n with
  | O => i
  | S n => if Z.testbit x (Z.of_nat i) then i else lowest_bit n (S i) x
  end.
Definition trailing_zeros (x : Z) : nat := lowest_bit 64 0 x.

(** The [while bits != 0] of [drain_pending]; each round clears one of at
    most 64 bits. *)
Fixpoint drain_word (fuel : nat) (t : MsixInner) (word : nat) (bits : Z) :
    MsixInner * list message :=
  match fuel with
  | O => (t, [])
  | S fuel =>
      if bits =? 0 then (t, [])
      else
        let bit := trailing_zeros bits in
        let bits := Z.land bits (bits - 1) in
        let '(t, m) := take_pending t (word * 64 + bit)%nat in
        let '(t, ms) := drain_word fuel t word bits in
        (t, option_list m ++ ms)
  end.

(** The outer loop, from [word] to the end of the PBA. *)
Fixpoint drain_words (n word : nat) (t : MsixInner) : MsixInner * list message :=
  match n with
  | O => (t, [])
  | S n =>
      let '(t, ms) := drain_word 64 t word (default 0 (pba t !! word)) in
      let '(t, ms') := drain_words n (S word) t in
      (t, ms ++ ms')
  end.

Definition drain_pending (t : MsixInner) : MsixInner * list message :=
  drain_words (length (pba t)) 0 t.

Definition table_read (t : MsixInner) (offset : Z) : Z :=
  match entries t !! Z.to_nat (offset / ENTRY_SIZE) with
  | None => 0
  | Some e =>
      let field := offset mod ENTRY_SIZE in
      if field =? 0 then addr_lo e else if field =? 4 then addr_hi e
      else if field =? 8 then data e else if field =? 12 then control e else 0
  end.

Definition put_field (e : MsixEntry) (field val : Z) : MsixEntry :=
  if field =? 0 then mkEntry val (addr_hi e) (data e) (control e)
  else if field =? 4 then mkEntry (addr_lo e) val (data e) (control e)
  else if field =? 8 then mkEntry (addr_lo e) (addr_hi e) val (control e)
  else if field =? 12 then mkEntry (addr_lo e) (addr_hi e) (data e) val
  else e.

(** [table_write] and its deferred form: the message an unmask released. *)
Definition table_write (t : MsixInner) (offset val : Z) : MsixInner * option message :=
  let idx := Z.to_nat (offset / ENTRY_SIZE) in
  match entries t !! idx with
  | None => (t, None)
  | Some e =>
      let e' := put_field e (offset mod ENTRY_SIZE) val in
      let t := set_entry t idx e' in
      if vec_masked e && negb (vec_masked e') then take_pending t idx else (t, None)
  end.

Definition pba_read (t : MsixInner) (offset : Z) : Z :=
  match pba t !! Z.to_nat (offset / 8) with
  | None => 0
  | Some word => if offset mod 8 <? 4 then as_u 32 word else as_u 32 (Z.shiftr word 32)
  end.

Definition cap_read (t : MsixInner) (count offset cap_offset : Z) : option Z :=
  if (offset <? cap_offset) || (wadd 8 cap_offset 12 <=? offset) then None
  else
    let dword_off := Z.land (offset - cap_offset) 0xFC in
    if dword_off =? 0 then
      let table_size := saturating_sub (as_u 16 (Z.of_nat (length (entries t)))) 1 in
      let msg_ctrl := Z.land table_size 0x7FF in
      let msg_ctrl := if enabled t then Z.lor msg_ctrl MSG_CTRL_ENABLE else msg_ctrl in
      let msg_ctrl := if func_masked t then Z.lor msg_ctrl MSG_CTRL_FUNC_MASK else msg_ctrl in
      Some (Z.lor MSIX_CAP_ID (Z.shiftl msg_ctrl 16))
    else if dword_off =? 4 then Some 4
    else if dword_off =? 8 then Some (Z.lor (as_u 32 (pba_offset_for count)) 4)
    else None.

(** [cap_write] and its deferred form: the messages it released. *)
Definition cap_write (t : MsixInner) (offset cap_offset val : Z) : MsixInner * list message :=
  if (offset <? cap_offset) || (wadd 8 cap_offset 12 <=? offset) then (t, [])
  else if negb (Z.land (offset - cap_offset) 0xFC =? 0) then (t, [])
  else
    let msg_ctrl := as_u 16 (Z.shiftr val 16) in
    drain_pending (mkInner (entries t) (bit_set msg_ctrl MSG_CTRL_ENABLE)
      (bit_set msg_ctrl MSG_CTRL_FUNC_MASK) (pba t)).

(** ** The migration wire *)

Record MsixEntryState : Type := mkEntryState { s_addr : Z; s_data : Z; s_control : Z }.
Record MsixMigrateState : Type := mkState {
  s_enabled : bool; s_func_masked : bool; s_entries : list MsixEntryState; s_pba : list Z
}.

Inductive MsixImportError : Type :=
| EntryCount (payload loc : nat)
| PbaLength (payload loc : nat)
| PbaPastTable (vector count : nat).

Definition export_state (t : MsixInner) : MsixMigrateState :=
  mkState (enabled t) (func_masked t)
    ((fun e => mkEntryState (entry_addr e) (data e) (control e)) <$> entries t) (pba t).

(** The check of one PBA word: the first set bit past the table. *)
Fixpoint word_past (fuel : nat) (word count : nat) (bits : Z) : option nat :=
  match fuel with
  | O => None
  | S fuel =>
      if bits =? 0 then None
      else
        let vector := (word * 64 + trailing_zeros bits)%nat in
        if (count <=? vector)%nat then Some vector
        else word_past fuel word count (Z.land bits (bits - 1))
  end.

Fixpoint pba_past (word count : nat) (pba : list Z) : option nat :=
  match pba with
  | [] => None
  | bits :: pba =>
      match word_past 64 word count bits with
      | Some v => Some v
      | None => pba_past (S word) count pba
      end
  end.

Definition entry_of_state (s : MsixEntryState) : MsixEntry :=
  mkEntry (as_u 32 (s_addr s)) (as_u 32 (Z.shiftr (s_addr s) 32)) (s_data s) (s_control s).

Definition import_state (t : MsixInner) (s : MsixMigrateState) :
    MsixInner * result MsixImportError unit :=
  let count := length (entries t) in
  if negb (length (s_entries s) =? count)%nat
  then (t, Err (EntryCount (length (s_entries s)) count))
  else if negb (length (s_pba s) =? length (pba t))%nat
  then (t, Err (PbaLength (length (s_pba s)) (length (pba t))))
  else
    match pba_past 0 count (s_pba s) with
    | Some v => (t, Err (PbaPastTable v count))
    | None => (mkInner (entry_of_state <$> s_entries s) (s_enabled s) (s_func_masked s) (s_pba s),
               Ok tt)
    end.

(** ** Bits *)

(** [x & (x - 1)] clears the lowest set bit. *)
Lemma clear_lowest x k i :
  0 <= k -> 0 <= i -> Z.testbit x k = true -> (forall j, 0 <= j < k -> Z.testbit x j = false) ->
  Z.testbit (Z.land x (x - 1)) i = Z.testbit x i && negb (i =? k).
Proof.
  intros Hk Hi Hb Hlow.
  assert (Hx : x = x / 2 ^ (k + 1) * 2 ^ (k + 1) + 2 ^ k).
  { rewrite <- (Z.shiftr_div_pow2 x (k + 1)) by lia.
    rewrite <- lor_shift_add by (unfold uint; split; [lia|apply Z.pow_lt_mono_r; lia] || lia).
    rewrite <- Z.shiftl_mul_pow2 by lia. apply Z.bits_inj'. intros n Hn.
    rewrite Z.lor_spec, Z.pow2_bits_eqb by lia.
    destruct (Z.lt_ge_cases n (k + 1)).
    - rewrite Z.shiftl_spec_low by lia. destruct (Z.eqb_spec k n) as [<-|]; [done|].
      rewrite Hlow by lia. done.
    - rewrite Z.shiftl_spec, Z.shiftr_spec by lia.
      destruct (Z.eqb_spec k n); [lia|]. rewrite orb_false_r. f_equal. lia. }
  set (a := x / 2 ^ (k + 1)) in *.
  assert (Hpow : 2 ^ k < 2 ^ (k + 1)) by (apply Z.pow_lt_mono_r; lia).
  assert (Hl : Z.land x (x - 1) = a * 2 ^ (k + 1)).
  { rewrite Hx. replace (a * 2 ^ (k + 1) + 2 ^ k - 1) with (a * 2 ^ (k + 1) + (2 ^ k - 1)) by lia.
    rewrite <- !lor_shift_add by (unfold uint; lia). rewrite <- Z.lor_land_distr_r.
    replace (Z.land (2 ^ k) (2 ^ k - 1)) with 0; [apply Z.lor_0_r|].
    change (2 ^ k - 1) with (Z.pred (2 ^ k)). rewrite <- Z.ones_equiv, Z.land_ones by lia.
    symmetry. apply Z.mod_same. lia. }
  rewrite Hl. rewrite Hx at 1. rewrite <- lor_shift_add by (unfold uint; lia).
  rewrite Z.lor_spec, Z.pow2_bits_eqb by lia.
  destruct (Z.eqb_spec k i) as [->|Hne].
  - rewrite Z.mul_pow2_bits_low by lia. rewrite Z.eqb_refl. by rewrite andb_false_r.
  - rewrite orb_false_r. destruct (Z.eqb_spec i k); [lia|]. by rewrite andb_true_r.
Qed.


Lemma lowest_bit_spec n i x :
  let k := lowest_bit n i x in
  (i <= k <= i + n)%nat /\
  (forall j, (i <= j < k)%nat -> Z.testbit x (Z.of_nat j) = false) /\
  ((k < i + n)%nat -> Z.testbit x (Z.of_nat k) = true).
Proof.
  revert i. induction n as [|n IH]; intros i; simpl; [split_and!; intros; lia|].
  destruct (Z.testbit x (Z.of_nat i)) eqn:E; [split_and!; intros; done || lia|].
  destruct (IH (S i)) as (Hk & Hlow & Hat). split_and!; [lia|lia| |].
  - intros j Hj. destruct (decide (j = i)) as [->|]; [done|]. apply Hlow. lia.
  - intros Hlt. apply Hat. lia.
Qed.

Lemma uint64_zero x :
  uint 64 x -> (forall i, (i < 64)%nat -> Z.testbit x (Z.of_nat i) = false) -> x = 0.
Proof.
  intros Hx Hb. apply Z.bits_inj'. intros n Hn. rewrite Z.bits_0.
  destruct (Z.lt_ge_cases n 64).
  - rewrite <- (Z2Nat.id n) by lia. apply Hb. lia.
  - rewrite <- (Z.mod_small x (2 ^ 64) Hx), Z.mod_pow2_bits_high by lia. done.
Qed.

(** ** What is pending and what may leave *)

Definition pending (t : MsixInner) (v : nat) : bool :=
  Z.testbit (default 0 (pba t !! (v / 64)%nat)) (Z.of_nat (v mod 64)).

Definition deliverable (t : MsixInner) (v : nat) : bool :=
  enabled t && negb (func_masked t) &&
  match entries t !! v with Some e => negb (vec_masked e) | None => false end.

Definition pba_wf (t : MsixInner) : Prop := Forall (uint 64) (pba t).

(** The same table with other pending bits. *)
Definition same_but_pba (t t' : MsixInner) : Prop :=
  t' = set_pba t (pba t') /\ length (pba t') = length (pba t) /\ pba_wf t'.

Lemma same_trans t1 t2 t3 : same_but_pba t1 t2 -> same_but_pba t2 t3 -> same_but_pba t1 t3.
Proof.
  intros (H1 & Hl1 & _) (H2 & Hl2 & Hw). split_and!; [|congruence|done].
  rewrite H2, H1. done.
Qed.

Lemma same_deliverable t t' v :
  same_but_pba t t' -> deliverable t' v = deliverable t v /\ read_entry t' v = read_entry t v.
Proof. intros (-> & _). done. Qed.

Lemma clear_bit_spec word b i :
  uint 64 word -> 0 <= b < 64 -> 0 <= i ->
  uint 64 (Z.land word (2 ^ 64 - 1 - Z.shiftl 1 b)) /\
  Z.testbit (Z.land word (2 ^ 64 - 1 - Z.shiftl 1 b)) i = Z.testbit word i && negb (i =? b).
Proof.
  intros Hw Hb Hi. split; [apply uint_land; [lia|done]|]. rewrite Z.land_spec.
  destruct (Z.lt_ge_cases i 64).
  2:{ rewrite <- (Z.mod_small word (2 ^ 64) Hw), Z.mod_pow2_bits_high by lia. done. }
  f_equal. rewrite Z.shiftl_1_l.
  replace (2 ^ 64 - 1 - 2 ^ b) with (Z.ldiff (Z.ones 64) (2 ^ b)).
  - rewrite Z.ldiff_spec, Z.ones_spec_low, Z.pow2_bits_eqb by lia. rewrite Z.eqb_sym. done.
  - symmetry. change (2 ^ 64 - 1) with (Z.ones 64). apply Z.sub_nocarry_ldiff.
    apply Z.bits_inj'. intros n Hn. rewrite Z.ldiff_spec, Z.pow2_bits_eqb, Z.bits_0 by lia.
    destruct (Z.eqb_spec b n) as [<-|]; [|done]. by rewrite Z.ones_spec_low by lia.
Qed.

Lemma index_split u v :
  (u / 64 = v / 64)%nat -> (u mod 64 = v mod 64)%nat -> u = v.
Proof. intros Hd Hm. pose proof (Nat.div_mod_eq u 64). pose proof (Nat.div_mod_eq v 64). lia. Qed.

Lemma take_pending_spec t v :
  pba_wf t ->
  exists t', take_pending t v =
      (t', if pending t v && deliverable t v then Some (read_entry t v) else None) /\
    same_but_pba t t' /\
    (forall u, pending t' u = pending t u && negb (bool_decide (u = v) && deliverable t v)).
Proof.
  intros Hw. unfold take_pending, deliverable, read_entry.
  assert (Hsame : same_but_pba t t) by (by destruct t).
  assert (Hno : forall u, pending t u = pending t u && negb (bool_decide (u = v) && false)).
  { intros u. by rewrite andb_false_r, andb_true_r. }
  destruct (enabled t); [|exists t; by rewrite andb_false_r].
  destruct (func_masked t); [exists t; by rewrite andb_false_r|]. cbn [negb orb andb].
  destruct (entries t !! v) as [e|]; [|exists t; by rewrite andb_false_r].
  destruct (vec_masked e); [exists t; by rewrite andb_false_r|]. cbn [negb]. rewrite andb_true_r.
  destruct (pba t !! (v / 64)%nat) as [word|] eqn:Hword.
  - assert (Hpv : pending t v = Z.testbit word (Z.of_nat (v mod 64)))
      by (unfold pending; by rewrite Hword).
    rewrite land_bit_zero, <- Hpv by lia. destruct (pending t v) eqn:Hbit; cbn [negb].
    + set (w' := Z.land word _). pose proof (Nat.mod_upper_bound v 64 ltac:(done)).
      assert (Hword64 : uint 64 word) by (by eapply Forall_lookup_1).
      eexists. split; [done|]. split.
      * split_and!; [done|simpl; by rewrite length_insert|]. apply Forall_insert; [done|].
        by apply (clear_bit_spec word (Z.of_nat (v mod 64)) 0); [|lia|lia].
      * intros u. unfold pending. cbn [pba set_pba]. rewrite andb_true_r.
        pose proof (lookup_lt_Some _ _ _ Hword).
        destruct (decide ((u / 64)%nat = (v / 64)%nat)) as [Heq|Hne].
        -- rewrite Heq, list_lookup_insert_eq, Hword by done. cbn [from_option id]. unfold w'.
           rewrite (proj2 (clear_bit_spec word (Z.of_nat (v mod 64)) (Z.of_nat (u mod 64))
             Hword64 ltac:(lia) ltac:(lia))). f_equal. f_equal.
           destruct (Z.eqb_spec (Z.of_nat (u mod 64)) (Z.of_nat (v mod 64))) as [Hm|Hm]; symmetry;
             [apply bool_decide_eq_true, index_split; lia|apply bool_decide_eq_false; congruence].
        -- rewrite list_lookup_insert_ne by done.
           rewrite (bool_decide_eq_false_2 (u = v)) by congruence. by rewrite andb_true_r.
    + exists t. split_and!; try done. intros u. rewrite andb_true_r.
      destruct (decide (u = v)) as [->|]; [by rewrite Hbit|].
      rewrite bool_decide_eq_false_2 by done. by rewrite andb_true_r.
  - assert (Hpv : pending t v = false) by (unfold pending; rewrite Hword; apply Z.bits_0).
    rewrite Hpv. exists t. split_and!; try done. intros u. rewrite andb_true_r.
    destruct (decide (u = v)) as [->|]; [by rewrite Hpv|].
    rewrite bool_decide_eq_false_2 by done. by rewrite andb_true_r.
Qed.


(** ** The walk over set bits and the scan over all vectors *)

(** The reference: ask every vector in turn. *)
Fixpoint scan (t : MsixInner) (vs : list nat) : MsixInner * list message :=
  match vs with
  | [] => (t, [])
  | v :: vs =>
      let '(t, m) := take_pending t v in
      let '(t, ms) := scan t vs in
      (t, option_list m ++ ms)
  end.

Definition released (t : MsixInner) (v : nat) : option message :=
  if pending t v && deliverable t v then Some (read_entry t v) else None.

(** The messages a list of vectors releases, in order. *)
Fixpoint releases (t : MsixInner) (vs : list nat) : list message :=
  match vs with
  | [] => []
  | v :: vs => option_list (released t v) ++ releases t vs
  end.

Lemma releases_ext t t' vs :
  (forall v, v ∈ vs -> released t' v = released t v) -> releases t' vs = releases t vs.
Proof.
  induction vs as [|v vs IH]; intros Hv; [done|]. simpl.
  rewrite (Hv v), IH; [done| |by left]. intros u Hu. apply Hv. by right.
Qed.

Lemma scan_spec t vs :
  pba_wf t -> NoDup vs ->
  exists t', scan t vs = (t', releases t vs) /\ same_but_pba t t' /\
    forall u, pending t' u = pending t u && negb (bool_decide (u ∈ vs) && deliverable t u).
Proof.
  revert t. induction vs as [|v vs IH]; intros t Hw Hnd; cbn [scan releases].
  { exists t. split_and!; try done; [by destruct t|]. intros u.
    rewrite bool_decide_eq_false_2 by apply not_elem_of_nil. by rewrite andb_true_r. }
  apply NoDup_cons in Hnd as [Hnin Hnd].
  destruct (take_pending_spec t v Hw) as (t1 & -> & Hs1 & Hp1).
  destruct (IH t1) as (t2 & -> & Hs2 & Hp2); [apply Hs1|done|].
  exists t2. split_and!; [|by eapply same_trans|].
  - do 2 f_equal. apply releases_ext. intros u Hu. unfold released.
    destruct (same_deliverable t t1 u Hs1) as [-> ->].
    rewrite Hp1, (bool_decide_eq_false_2 (u = v)) by congruence. by rewrite andb_true_r.
  - intros u. rewrite Hp2, Hp1, (proj1 (same_deliverable t t1 u Hs1)).
    rewrite (bool_decide_ext (u ∈ v :: vs) (u = v \/ u ∈ vs)) by apply elem_of_cons.
    rewrite bool_decide_or. destruct (decide (u = v)) as [->|Hne].
    + rewrite (bool_decide_eq_true_2 (v = v)), (bool_decide_eq_false_2 (v ∈ vs)) by done.
      by destruct (pending t v), (deliverable t v).
    + rewrite (bool_decide_eq_false_2 (u = v)) by done. simpl. by rewrite andb_true_r.
Qed.

Lemma scan_app t vs vs' :
  scan t (vs ++ vs') =
    let '(t1, ms) := scan t vs in let '(t2, ms') := scan t1 vs' in (t2, ms ++ ms').
Proof.
  revert t. induction vs as [|v vs IH]; intros t; simpl; [by destruct (scan t vs')|].
  destruct (take_pending t v) as [t1 m]. rewrite IH. destruct (scan t1 vs) as [t2 ms].
  destruct (scan t2 vs') as [t3 ms']. by rewrite app_assoc.
Qed.

Lemma div_mod_index word i :
  (i < 64)%nat -> ((word * 64 + i) / 64 = word)%nat /\ ((word * 64 + i) mod 64 = i)%nat.
Proof.
  intros Hi. split.
  - rewrite Nat.div_add_l, Nat.div_small by lia. lia.
  - rewrite Nat.add_comm, Nat.Div0.mod_add. by apply Nat.mod_small.
Qed.

(** Clearing the lowest set bit keeps the word a 64-bit word. *)
Lemma drain_word_scan n p fuel t word bits :
  (p + n = 64)%nat -> (n <= fuel)%nat -> pba_wf t -> uint 64 bits ->
  (forall i, (i < p)%nat -> Z.testbit bits (Z.of_nat i) = false) ->
  (forall i, (p <= i < 64)%nat -> Z.testbit bits (Z.of_nat i) = pending t (word * 64 + i)%nat) ->
  drain_word fuel t word bits = scan t ((fun i => (word * 64 + i)%nat) <$> seq p n).
Proof.
  revert p fuel t bits. induction n as [|n IH]; intros p fuel t bits Hpn Hf Hw Hb Hlow Hat.
  { replace bits with 0; [by destruct fuel|]. symmetry. apply uint64_zero; [done|].
    intros i Hi. apply Hlow. lia. }
  cbn [seq fmap list_fmap scan]. destruct (Z.testbit bits (Z.of_nat p)) eqn:Hp.
  - destruct fuel as [|fuel]; [lia|]. cbn [drain_word].
    destruct (Z.eqb_spec bits 0) as [->|Hnz]; [by rewrite Z.bits_0 in Hp|].
    assert (Htz : trailing_zeros bits = p).
    { unfold trailing_zeros. destruct (lowest_bit_spec 64 0 bits) as (Hr & Hl & Hs).
      set (k := lowest_bit 64 0 bits) in *. destruct (Nat.lt_trichotomy k p) as [Hlt|[->|Hgt]]; [|done|].
      - rewrite Hlow in Hs by done. discriminate Hs. lia.
      - rewrite Hl in Hp by lia. done. }
    rewrite Htz. destruct (take_pending_spec t (word * 64 + p)%nat Hw) as (t1 & -> & Hs1 & Hp1).
    assert (Hclear : forall i, (i < 64)%nat -> Z.testbit (Z.land bits (bits - 1)) (Z.of_nat i) =
      Z.testbit bits (Z.of_nat i) && negb (Z.of_nat i =? Z.of_nat p)).
    { intros i Hi. apply clear_lowest; try lia; [done|]. intros j Hj.
      rewrite <- (Z2Nat.id j) by lia. apply Hlow. lia. }
    rewrite (IH (S p) fuel t1); [done|lia|lia|apply Hs1|apply uint_land; [lia|done]| |].
    + intros i Hi. rewrite Hclear by lia. destruct (decide (i = p)) as [->|].
      * by rewrite Z.eqb_refl, andb_false_r.
      * by rewrite Hlow by lia.
    + intros i Hi. rewrite Hclear, Hp1, Hat by lia.
      destruct (Z.eqb_spec (Z.of_nat i) (Z.of_nat p)); [lia|].
      by rewrite (bool_decide_eq_false_2 (_ = _)) by lia.
  - destruct (take_pending_spec t (word * 64 + p)%nat Hw) as (t1 & Ht & Hs1 & Hp1).
    rewrite <- Hat, Hp in Ht by lia. cbn [andb] in Ht.
    assert (Heq : take_pending t (word * 64 + p) = (t, None)).
    { revert Ht. unfold take_pending. by repeat case_match. }
    rewrite Heq. cbn [option_list app].
    rewrite (IH (S p) fuel t bits); [by destruct (scan _ _)|lia|lia|done|done| |].
    + intros i Hi. destruct (decide (i = p)) as [->|]; [done|]. apply Hlow. lia.
    + intros i Hi. apply Hat. lia.
Qed.

Lemma drain_words_scan n word t :
  pba_wf t -> (word + n = length (pba t))%nat ->
  drain_words n word t = scan t (seq (word * 64) (n * 64)).
Proof.
  revert word t. induction n as [|n IH]; intros word t Hw Hl; [reflexivity|]. cbn [drain_words].
  replace (S n * 64)%nat with (64 + n * 64)%nat by lia. rewrite seq_app, scan_app.
  destruct (lookup_lt_is_Some_2 (pba t) word) as [bits Hb]; [lia|]. rewrite Hb. cbn [from_option id].
  rewrite (drain_word_scan 64 0 64 t word bits eq_refl (le_n 64) Hw);
    [|by eapply Forall_lookup_1|intros i Hi; lia|].
  2:{ intros i Hi. unfold pending. destruct (div_mod_index word i) as [-> ->]; [lia|]. by rewrite Hb. }
  rewrite fmap_add_seq, Nat.add_0_r.
  destruct (scan_spec t (seq (word * 64) 64) Hw (NoDup_seq _ _)) as (t1 & -> & Hs & _).
  rewrite IH; [|apply Hs|rewrite (proj1 (proj2 Hs)); lia].
  replace (word * 64 + 64)%nat with (S word * 64)%nat by lia. reflexivity.
Qed.

Lemma drain_pending_scan t :
  pba_wf t -> drain_pending t = scan t (seq 0 (length (pba t) * 64)).
Proof. intros Hw. unfold drain_pending. rewrite drain_words_scan by done. reflexivity. Qed.

(** ** The invariant *)

Definition entry_wf (e : MsixEntry) : Prop :=
  uint 32 (addr_lo e) /\ uint 32 (addr_hi e) /\ uint 32 (data e) /\ uint 32 (control e).

Record msix_ok (t : MsixInner) : Prop := {
  mo_entries : Forall entry_wf (entries t);
  mo_words : pba_wf t;
  mo_room : (length (entries t) <= length (pba t) * 64)%nat;
  mo_inside : forall v, (length (entries t) <= v)%nat -> pending t v = false;
  mo_quiet : forall v, pending t v = true -> deliverable t v = false
}.

Lemma pending_bound t v : (length (pba t) * 64 <= v)%nat -> pending t v = false.
Proof.
  intros Hv. unfold pending. rewrite lookup_ge_None_2; [apply Z.bits_0|].
  apply Nat.div_le_lower_bound; lia.
Qed.

Lemma msix_new_ok count : 0 <= count -> msix_ok (msix_new count).
Proof.
  intros Hc. assert (Hp : forall v, pending (msix_new count) v = false).
  { intros v. unfold pending. simpl. destruct (replicate _ 0 !! _) eqn:E; [|apply Z.bits_0].
    apply lookup_replicate in E as [-> _]. apply Z.bits_0. }
  split; simpl.
  - apply Forall_replicate. unfold entry_wf, entry_default, uint, VECTOR_CTRL_MASK. simpl. lia.
  - apply Forall_replicate. unfold uint. lia.
  - rewrite !length_replicate. unfold div_ceil.
    pose proof (Z.div_mod (count + 64 - 1) 64). pose proof (Z.mod_pos_bound (count + 64 - 1) 64). lia.
  - intros v _. apply Hp.
  - intros v Hv. by rewrite Hp in Hv.
Qed.

Lemma released_quiet t v : pending t v = true -> deliverable t v = false -> released t v = None.
Proof. intros Hp Hd. unfold released. by rewrite Hp, Hd. Qed.

(** Draining restores the invariant whatever the masks have become. *)
Lemma drain_ok t :
  Forall entry_wf (entries t) -> pba_wf t -> (length (entries t) <= length (pba t) * 64)%nat ->
  (forall v, (length (entries t) <= v)%nat -> pending t v = false) ->
  msix_ok (drain_pending t).1 /\ same_but_pba t (drain_pending t).1 /\
  (drain_pending t).2 = releases t (seq 0 (length (entries t))) /\
  forall v, pending (drain_pending t).1 v = pending t v && negb (deliverable t v).
Proof.
  intros He Hw Hr Hi. rewrite drain_pending_scan by done.
  destruct (scan_spec t (seq 0 (length (pba t) * 64)) Hw (NoDup_seq _ _)) as (t1 & Hsc & Hs & Hp).
  rewrite Hsc. cbn [fst snd].
  assert (Hp' : forall v, pending t1 v = pending t v && negb (deliverable t v)).
  { intros v. rewrite Hp. destruct (decide (v < length (pba t) * 64)%nat).
    - rewrite bool_decide_eq_true_2 by (apply elem_of_seq; lia). done.
    - by rewrite (pending_bound t v) by lia. }
  pose proof Hs as (Heq & Hl & Hw1).
  assert (He1 : entries t1 = entries t) by (by rewrite Heq).
  split_and!; try done.
  - split; rewrite ?Hl, ?He1; try done.
    + intros v Hv. by rewrite Hp', Hi.
    + intros v Hv. rewrite Hp' in Hv. rewrite (proj1 (same_deliverable t t1 v Hs)).
      by destruct (pending t v), (deliverable t v).
  - replace (length (pba t) * 64)%nat with
      (length (entries t) + (length (pba t) * 64 - length (entries t)))%nat by lia.
    rewrite seq_app. generalize (length (pba t) * 64 - length (entries t))%nat as m. intros m.
    assert (Happ : forall l l', releases t (l ++ l') = releases t l ++ releases t l').
    { intros l l'. induction l as [|x l IH]; simpl; [done|]. by rewrite IH, app_assoc. }
    rewrite Happ. rewrite <- (app_nil_r (releases t (seq 0 (length (entries t))))) at 2. f_equal.
    assert (Hnone : forall l, (forall v, v ∈ l -> released t v = None) -> releases t l = []).
    { induction l as [|x l IH]; intros Hl'; [done|]. simpl. rewrite Hl' by (by left). simpl.
      apply IH. intros v Hv. apply Hl'. by right. }
    apply Hnone. intros v Hv%elem_of_seq. unfold released. by rewrite Hi by lia.
Qed.

Lemma set_bit_spec word b :
  uint 64 word -> 0 <= b < 64 ->
  uint 64 (Z.lor word (Z.shiftl 1 b)) /\
  forall i, 0 <= i -> Z.testbit (Z.lor word (Z.shiftl 1 b)) i = Z.testbit word i || (i =? b).
Proof.
  intros Hw Hb. rewrite Z.shiftl_1_l. split.
  - assert (H0 : 0 <= Z.lor word (2 ^ b)) by (apply Z.lor_nonneg; unfold uint in Hw; lia).
    split; [done|]. apply Z.bounded_iff_bits_nonneg; [lia|done|]. intros l Hl.
    rewrite Z.lor_spec, Z.pow2_bits_false by lia.
    rewrite <- (Z.mod_small word (2 ^ 64) Hw), Z.mod_pow2_bits_high by lia. done.
  - intros i Hi. rewrite Z.lor_spec, Z.pow2_bits_eqb by lia. f_equal. apply Z.eqb_sym.
Qed.

Lemma fire_ok t v :
  msix_ok t -> exists t' m, fire t v = Some (t', m) /\ msix_ok t' /\ same_but_pba t t' /\
    (m = if deliverable t v then Some (read_entry t v) else None) /\
    forall u, pending t' u = pending t u ||
      (bool_decide (u = v) && enabled t && negb (deliverable t v) &&
       bool_decide (v < length (entries t))%nat).
Proof.
  intros Hok. pose proof Hok as [He Hw Hr Hi Hq]. unfold fire, deliverable, read_entry.
  assert (Hsame : same_but_pba t t) by (by destruct t).
  destruct (entries t !! v) as [e|] eqn:Hv.
  2:{ exists t, None. rewrite !andb_false_r. split_and!; try done. intros u.
      apply lookup_ge_None_1 in Hv. rewrite (bool_decide_eq_false_2 (v < _)%nat) by lia.
      by rewrite andb_false_r, orb_false_r. }
  destruct (enabled t) eqn:Hen; cbn [negb andb].
  2:{ exists t, None. split_and!; try done. intros u. by rewrite andb_false_r, orb_false_r. }
  destruct (func_masked t || vec_masked e) eqn:Hm.
  2:{ apply orb_false_iff in Hm as [-> ->]. cbn [negb andb]. eexists _, _. split_and!; try done.
      intros u. by rewrite andb_false_r, orb_false_r. }
  replace (negb (func_masked t) && negb (vec_masked e)) with false
    by (by destruct (func_masked t), (vec_masked e)).
  pose proof (lookup_lt_Some _ _ _ Hv) as Hlt.
  destruct (lookup_lt_is_Some_2 (pba t) (v / 64)) as [word Hword].
  { apply Nat.Div0.div_lt_upper_bound. lia. }
  rewrite Hword. cbn [option_bind]. simpl option_bind. set (w' := Z.lor word _).
  set (t' := set_pba t _).
  assert (Hword64 : uint 64 word) by (by eapply Forall_lookup_1).
  pose proof (Nat.mod_upper_bound v 64 ltac:(done)).
  assert (Hw' : uint 64 w' /\ forall i, 0 <= i ->
    Z.testbit w' i = Z.testbit word i || (i =? Z.of_nat (v mod 64))) by (apply set_bit_spec; [done|lia]).
  destruct Hw' as [Hw64 Hbit].
  assert (Hs : same_but_pba t t').
  { split_and!; [done|simpl; by rewrite length_insert|]. by apply Forall_insert. }
  assert (Hp : forall u, pending t' u = pending t u || bool_decide (u = v)).
  { intros u. unfold pending. cbn [pba set_pba t'].
    destruct (decide ((u / 64)%nat = (v / 64)%nat)) as [Heq|Hne].
    - rewrite Heq, list_lookup_insert_eq, Hword by (by eapply lookup_lt_Some).
      cbn [from_option id]. rewrite Hbit by lia. f_equal.
      destruct (Z.eqb_spec (Z.of_nat (u mod 64)) (Z.of_nat (v mod 64))) as [E|E]; symmetry;
        [apply bool_decide_eq_true, index_split; lia|apply bool_decide_eq_false; congruence].
    - rewrite list_lookup_insert_ne by done.
      rewrite (bool_decide_eq_false_2 (u = v)) by congruence. by rewrite orb_false_r. }
  exists t', None. split_and!; try done.
  - split; cbn [entries t' set_pba]; try done; try (by apply Hs).
    + by rewrite (proj1 (proj2 Hs)).
    + intros u Hu. rewrite Hp, Hi by done. apply bool_decide_eq_false. intros ->. lia.
    + intros u. rewrite Hp, (proj1 (same_deliverable t t' u Hs)), orb_true_iff.
      intros [?| ->%bool_decide_eq_true]; [by apply Hq|].
      unfold deliverable. rewrite Hv, Hen. by destruct (func_masked t), (vec_masked e).
  - intros u. rewrite Hp, (bool_decide_eq_true_2 (v < _)%nat) by done. by rewrite !andb_true_r.
Qed.

Lemma put_field_wf e field val : entry_wf e -> uint 32 val -> entry_wf (put_field e field val).
Proof. intros (? & ? & ? & ?) Hv. unfold put_field. by repeat case_match. Qed.

Lemma table_write_ok t offset val :
  msix_ok t -> uint 32 val -> msix_ok (table_write t offset val).1.
Proof.
  intros Hok Hv. pose proof Hok as [He Hw Hr Hi Hq]. unfold table_write.
  set (idx := Z.to_nat (offset / ENTRY_SIZE)). destruct (entries t !! idx) as [e|] eqn:Hidx; [|done].
  set (e' := put_field e _ val). set (t1 := set_entry t idx e').
  assert (He' : Forall entry_wf (entries t1)).
  { apply Forall_insert; [done|]. apply put_field_wf; [by eapply Forall_lookup_1|done]. }
  pose proof (lookup_lt_Some _ _ _ Hidx) as Hlt.
  assert (Hlen : length (entries t1) = length (entries t)) by apply length_insert.
  assert (Hdel : forall u, u <> idx -> deliverable t1 u = deliverable t u).
  { intros u Hu. unfold deliverable. cbn [entries t1 set_entry enabled func_masked].
    by rewrite list_lookup_insert_ne by done. }
  assert (Hdi : deliverable t1 idx = enabled t && negb (func_masked t) && negb (vec_masked e')).
  { unfold deliverable. cbn [entries t1 set_entry enabled func_masked].
    by rewrite list_lookup_insert_eq. }
  destruct (vec_masked e && negb (vec_masked e')) eqn:Hun.
  - destruct (take_pending_spec t1 idx Hw) as (t2 & -> & Hs & Hp). cbn [fst].
    pose proof Hs as (Heq & Hl & Hw2).
    assert (He2 : entries t2 = entries t1) by (by rewrite Heq).
    split; rewrite ?Hl, ?He2, ?Hlen; try done.
    + intros u Hu. rewrite Hp. change (pending t1 u) with (pending t u). by rewrite Hi.
    + intros u. rewrite Hp, (proj1 (same_deliverable t1 t2 u Hs)).
      change (pending t1 u) with (pending t u). intros [Hpu Hn]%andb_true_iff.
      destruct (decide (u = idx)) as [->|Hne]; [|rewrite Hdel by done; by apply Hq].
      rewrite bool_decide_eq_true_2 in Hn by done. by destruct (deliverable t1 idx).
  - cbn [fst]. split; rewrite ?Hlen; try done. intros u Hpu.
    destruct (decide (u = idx)) as [->|Hne]; [|rewrite Hdel by done; by apply Hq].
    specialize (Hq idx Hpu). unfold deliverable in Hq. rewrite Hidx in Hq. rewrite Hdi.
    by destruct (enabled t), (func_masked t), (vec_masked e), (vec_masked e').
Qed.

Lemma cap_write_ok t offset cap val : msix_ok t -> msix_ok (cap_write t offset cap val).1.
Proof.
  intros Hok. unfold cap_write. destruct (_ || _); [done|]. destruct (negb _); [done|].
  apply drain_ok; apply Hok.
Qed.

Lemma clear_pending_none t v : pending (clear_pending t) v = false.
Proof.
  unfold pending, clear_pending. cbn [pba set_pba]. destruct (replicate _ 0 !! _) eqn:E; [|apply Z.bits_0].
  apply lookup_replicate in E as [-> _]. apply Z.bits_0.
Qed.

Lemma clear_pending_ok t : msix_ok t -> msix_ok (clear_pending t).
Proof.
  intros [He Hw Hr Hi Hq]. split; cbn [entries pba clear_pending set_pba]; try done.
  - apply Forall_replicate. unfold uint. lia.
  - by rewrite length_replicate.
  - intros v Hv. apply clear_pending_none.
  - intros v Hv. by rewrite clear_pending_none in Hv.
Qed.

(** The guest's writes release messages and never make one pending. *)
Lemma table_write_pending t offset val v :
  msix_ok t -> pending (table_write t offset val).1 v = true -> pending t v = true.
Proof.
  intros Hok. unfold table_write. destruct (entries t !! _) as [e|]; [|done].
  destruct (vec_masked e && _); [|done]. set (t1 := set_entry t _ _).
  destruct (take_pending_spec t1 (Z.to_nat (offset / ENTRY_SIZE))) as (t2 & -> & _ & Hp); [apply Hok|].
  cbn [fst]. rewrite Hp. change (pending t1 v) with (pending t v). by intros [? _]%andb_true_iff.
Qed.

Lemma cap_write_pending t offset cap val v :
  msix_ok t -> pending (cap_write t offset cap val).1 v = true -> pending t v = true.
Proof.
  intros Hok. unfold cap_write. destruct (_ || _); [done|]. destruct (negb _); [done|].
  set (t1 := mkInner _ _ _ _). destruct (drain_ok t1) as (_ & _ & _ & Hp); try apply Hok.
  rewrite Hp. change (pending t1 v) with (pending t v). by intros [? _]%andb_true_iff.
Qed.

(** ** Migration *)

(** The first set bit of a word, when all below [p] are clear. *)
Lemma trailing_zeros_at bits p :
  (p < 64)%nat -> Z.testbit bits (Z.of_nat p) = true ->
  (forall i, (i < p)%nat -> Z.testbit bits (Z.of_nat i) = false) -> trailing_zeros bits = p.
Proof.
  intros Hp Hb Hlow. unfold trailing_zeros. destruct (lowest_bit_spec 64 0 bits) as (Hr & Hl & Hs).
  set (k := lowest_bit 64 0 bits) in *. destruct (Nat.lt_trichotomy k p) as [Hlt|[->|Hgt]]; [|done|].
  - rewrite Hlow in Hs by done. discriminate Hs. lia.
  - rewrite Hl in Hb by lia. done.
Qed.

Lemma word_past_spec n p fuel word count bits :
  (p + n = 64)%nat -> (n <= fuel)%nat -> uint 64 bits ->
  (forall i, (i < p)%nat -> Z.testbit bits (Z.of_nat i) = false) ->
  word_past fuel word count bits = None <->
  forall i, (i < 64)%nat -> Z.testbit bits (Z.of_nat i) = true -> (word * 64 + i < count)%nat.
Proof.
  revert p fuel bits. induction n as [|n IH]; intros p fuel bits Hpn Hf Hb Hlow.
  { assert (bits = 0) as -> by (apply uint64_zero; [done|]; intros i Hi; apply Hlow; lia).
    split; [|by destruct fuel]. intros _ i _ Hi. by rewrite Z.bits_0 in Hi. }
  destruct (Z.testbit bits (Z.of_nat p)) eqn:Hp.
  2:{ apply (IH (S p)); try done; try lia. intros i Hi.
      destruct (decide (i = p)) as [->|]; [done|]. apply Hlow. lia. }
  destruct fuel as [|fuel]; [lia|]. cbn [word_past].
  destruct (Z.eqb_spec bits 0) as [->|_]; [by rewrite Z.bits_0 in Hp|].
  rewrite (trailing_zeros_at bits p) by (done || lia).
  destruct (Nat.leb_spec count (word * 64 + p)) as [Hge|Hlt].
  { split; [done|]. intros Hall. specialize (Hall p ltac:(lia) Hp). lia. }
  assert (Hclear : forall i, (i < 64)%nat -> Z.testbit (Z.land bits (bits - 1)) (Z.of_nat i) =
    Z.testbit bits (Z.of_nat i) && negb (Z.of_nat i =? Z.of_nat p)).
  { intros i Hi. apply clear_lowest; try lia; [done|]. intros j Hj.
    rewrite <- (Z2Nat.id j) by lia. apply Hlow. lia. }
  rewrite (IH (S p)); [|lia|lia|apply uint_land; [lia|done]|].
  - split; intros Hall i Hi Hbit.
    + destruct (decide (i = p)) as [->|]; [done|]. apply Hall; [done|]. rewrite Hclear by done.
      destruct (Z.eqb_spec (Z.of_nat i) (Z.of_nat p)); [lia|]. by rewrite Hbit.
    + rewrite Hclear in Hbit by done. apply andb_true_iff in Hbit as [Hbit _]. by apply Hall.
  - intros i Hi. rewrite Hclear by lia. destruct (decide (i = p)) as [->|].
    + by rewrite Z.eqb_refl, andb_false_r.
    + by rewrite Hlow by lia.
Qed.

Lemma pba_past_spec words word count :
  Forall (uint 64) words ->
  pba_past word count words = None <->
  forall k w i, words !! k = Some w -> (i < 64)%nat -> Z.testbit w (Z.of_nat i) = true ->
    ((word + k) * 64 + i < count)%nat.
Proof.
  revert word. induction words as [|w words IH]; intros word Hw; cbn [pba_past].
  { split; [|done]. by intros _ k x i Hk. }
  apply Forall_cons in Hw as [Hw Hws].
  pose proof (word_past_spec 64 0 64 word count w eq_refl (le_n 64) Hw
    (fun i Hi => False_ind _ (Nat.nlt_0_r i Hi))) as Hwp.
  destruct (word_past 64 word count w) as [v|].
  - split; [done|]. intros Hall. apply Hwp. intros i Hi Hb.
    specialize (Hall 0%nat w i eq_refl Hi Hb). by rewrite Nat.add_0_r in Hall.
  - rewrite IH by done. split.
    + intros Hall [|k] x i Hk Hi Hb.
      * injection Hk as <-. rewrite Nat.add_0_r. by apply (proj1 Hwp).
      * replace (word + S k)%nat with (S word + k)%nat by lia. by apply (Hall k x).
    + intros Hall k x i Hk Hi Hb. replace (S word + k)%nat with (word + S k)%nat by lia.
      by apply (Hall (S k) x).
Qed.

Lemma entry_roundtrip e : entry_wf e ->
  entry_of_state (mkEntryState (entry_addr e) (data e) (control e)) = e.
Proof.
  intros (Hl & Hh & _ & _). unfold entry_of_state, entry_addr, as_u, uint in *. simpl.
  rewrite Z.shiftl_mul_pow2, Z.lor_comm, lor_shift_add by (unfold uint; lia).
  rewrite Z.add_comm, Z.mod_add, Z.mod_small by lia.
  rewrite Z.shiftr_div_pow2, Z.div_add, Z.div_small, Z.add_0_l, Z.mod_small by lia. by destruct e.
Qed.

Lemma import_export t t0 :
  msix_ok t -> length (entries t0) = length (entries t) -> length (pba t0) = length (pba t) ->
  import_state t0 (export_state t) = (t, Ok tt).
Proof.
  intros [He Hw Hr Hi Hq] Hle Hlp. unfold import_state, export_state.
  cbn [s_entries s_pba s_enabled s_func_masked].
  rewrite length_fmap, Hle, Hlp, !Nat.eqb_refl. cbn [negb].
  rewrite (proj2 (pba_past_spec (pba t) 0 (length (entries t)) Hw)).
  - rewrite <- list_fmap_compose. f_equal.
    replace ((entry_of_state ∘ _) <$> entries t) with (entries t); [by destruct t|].
    rewrite <- (list_fmap_id (entries t)) at 1. apply list_fmap_ext. intros i e Hie.
    symmetry. simpl. apply entry_roundtrip. by eapply Forall_lookup_1.
  - intros k w i Hk Hi' Hb. destruct (Nat.le_gt_cases (length (entries t)) ((0 + k) * 64 + i)) as [Hge|]; [|done].
    apply Hi in Hge. unfold pending in Hge. rewrite Nat.add_0_l in Hge.
    destruct (div_mod_index k i Hi') as [Hd Hm]. rewrite Hd, Hm, Hk in Hge. simpl in Hge. congruence.
Qed.

(** ** The properties *)

(** Everything that happens to a table. A restore gets what another table of
    the same size exported. *)
Inductive reach (count : nat) : MsixInner -> Prop :=
| reach_new : reach count (msix_new (Z.of_nat count))
| reach_fire t v t' m : reach count t -> fire t v = Some (t', m) -> reach count t'
| reach_table t off val : reach count t -> uint 32 val -> reach count (table_write t off val).1
| reach_cap t off cap val : reach count t -> reach count (cap_write t off cap val).1
| reach_clear t : reach count t -> reach count (clear_pending t)
| reach_import t t' : reach count t -> reach count t' ->
    reach count (import_state t (export_state t')).1.

Lemma take_pending_lengths t v :
  length (entries (take_pending t v).1) = length (entries t) /\
  length (pba (take_pending t v).1) = length (pba t).
Proof. unfold take_pending. repeat case_match; simpl; rewrite ?length_insert; done. Qed.

Lemma drain_lengths t :
  length (entries (drain_pending t).1) = length (entries t) /\
  length (pba (drain_pending t).1) = length (pba t).
Proof.
  assert (Hw : forall fuel t word bits, length (entries (drain_word fuel t word bits).1) = length (entries t) /\
    length (pba (drain_word fuel t word bits).1) = length (pba t)).
  { induction fuel as [|fuel IH]; intros t1 word bits; [done|]. cbn [drain_word]. destruct (_ =? 0); [done|].
    match goal with |- context [take_pending ?x ?y] => pose proof (take_pending_lengths x y);
      destruct (take_pending x y) as [t2 m] end.
    match goal with |- context [drain_word ?f ?x ?y ?z] => specialize (IH x y z); destruct (drain_word f x y z) end.
    simpl in *. intuition congruence. }
  assert (Hws : forall n word t, length (entries (drain_words n word t).1) = length (entries t) /\
    length (pba (drain_words n word t).1) = length (pba t)); [|apply Hws].
  clear t. induction n as [|n IH]; intros word t; [done|]. cbn [drain_words].
  match goal with |- context [drain_word ?f ?x ?y ?z] => specialize (Hw f x y z); destruct (drain_word f x y z) as [t1 m1] end.
  specialize (IH (S word) t1). destruct (drain_words _ _ _). simpl in *. intuition congruence.
Qed.

Lemma table_write_lengths t off val :
  length (entries (table_write t off val).1) = length (entries t) /\
  length (pba (table_write t off val).1) = length (pba t).
Proof.
  unfold table_write. destruct (entries t !! _); [|done]. destruct (_ && _); [|simpl; by rewrite length_insert].
  match goal with |- context [take_pending ?x ?y] => destruct (take_pending_lengths x y) as [-> ->] end.
  simpl. by rewrite length_insert.
Qed.

Lemma cap_write_lengths t off cap val :
  length (entries (cap_write t off cap val).1) = length (entries t) /\
  length (pba (cap_write t off cap val).1) = length (pba t).
Proof. unfold cap_write. destruct (_ || _); [done|]. destruct (negb _); [done|]. by edestruct drain_lengths as [-> ->]. Qed.

Lemma import_lengths t s :
  length (entries (import_state t s).1) = length (entries t) /\
  length (pba (import_state t s).1) = length (pba t).
Proof.
  unfold import_state. destruct (Nat.eqb_spec (length (s_entries s)) (length (entries t))) as [He|]; [|done].
  destruct (Nat.eqb_spec (length (s_pba s)) (length (pba t))); [|done]. simpl.
  destruct (pba_past _ _ _); [done|]. simpl. by rewrite length_fmap.
Qed.

Lemma reach_table_ok count t :
  reach count t -> msix_ok t /\ length (entries t) = count /\
  length (pba t) = Z.to_nat (div_ceil (Z.of_nat count) 64).
Proof.
  induction 1 as [|t v t' m _ (IH & Hl1 & Hl2) Hf|t off val _ (IH & Hl1 & Hl2) Hv
    |t off cap val _ (IH & Hl1 & Hl2)|t _ (IH & Hl1 & Hl2)|t t' _ (IH & Hl1 & Hl2) _ (IH' & Hl1' & Hl2')].
  - split; [apply msix_new_ok; lia|]. simpl. by rewrite !length_replicate, Nat2Z.id.
  - destruct (fire_ok t v IH) as (t2 & m2 & Hf2 & Hok & (Heq & Hl & _) & _).
    rewrite Hf in Hf2. injection Hf2 as <- <-. split_and!; [done| |congruence]. by rewrite Heq.
  - split; [by apply table_write_ok|]. by destruct (table_write_lengths t off val) as [-> ->].
  - split; [by apply cap_write_ok|]. by destruct (cap_write_lengths t off cap val) as [-> ->].
  - split; [by apply clear_pending_ok|]. simpl. by rewrite length_replicate.
  - rewrite import_export by (done || congruence). done.
Qed.

(** C26: no history of interrupts, guest writes, resets and restores leaves a
    message stuck: a vector is pending only while MSI-X is disabled, the
    function is masked or the vector is masked; and no pending bit lies past
    the table. *)
Theorem msix_never_stuck count t v :
  reach count t -> pending t v = true -> (v < count)%nat /\ deliverable t v = false.
Proof.
  intros (Hok & Hl & _)%reach_table_ok Hp. split; [|by apply (mo_quiet t Hok)].
  destruct (Nat.le_gt_cases count v) as [Hge|]; [|done].
  rewrite (mo_inside t Hok v) in Hp; [done|]. by rewrite Hl.
Qed.

(** A write to Message Control sends exactly the messages that were pending
    and may now leave, each once and in vector order, and forgets those; the
    walk over set bits is the same as asking every vector of the table. *)
Theorem cap_write_releases count t off cap val :
  reach count t -> cap <= off < wadd 8 cap 12 -> Z.land (off - cap) 0xFC = 0 ->
  let ctrl := as_u 16 (Z.shiftr val 16) in
  let t1 := mkInner (entries t) (bit_set ctrl MSG_CTRL_ENABLE) (bit_set ctrl MSG_CTRL_FUNC_MASK) (pba t) in
  let out := cap_write t off cap val in
  out.2 = releases t1 (seq 0 count) /\
  out.1 = set_pba t1 (pba out.1) /\
  forall v, pending out.1 v = pending t v && negb (deliverable t1 v).
Proof.
  intros (Hok & Hl & _)%reach_table_ok Hoff Hdw ctrl t1. unfold cap_write. fold ctrl. fold t1.
  replace (_ || _) with false by (symmetry; apply orb_false_iff; split; lia).
  rewrite Hdw. cbn [negb Z.eqb].
  destruct (drain_ok t1) as (_ & (Heq & _) & Hm & Hp); try apply Hok. subst count. done.
Qed.

(** Firing a vector never panics; an unmasked one sends its programmed
    message at once and leaves the table alone, a masked one of an enabled
    table becomes pending and nothing else changes, and a disabled table or an
    unknown vector drops it. *)
Theorem fire_correct count t v :
  reach count t -> exists t' m, fire t v = Some (t', m) /\
    (m = if deliverable t v then Some (read_entry t v) else None) /\
    t' = set_pba t (pba t') /\
    forall u, pending t' u = pending t u ||
      (bool_decide (u = v) && enabled t && negb (deliverable t v) && bool_decide (v < count)%nat).
Proof.
  intros (Hok & Hl & _)%reach_table_ok. destruct (fire_ok t v Hok) as (t' & m & Hf & _ & (Heq & _) & Hm & Hp).
  exists t', m. subst count. done.
Qed.

(** What one table exports, any table of the same size imports as the very
    same state, masks and pending bits included. *)
Theorem msix_export_import count t t0 :
  reach count t -> reach count t0 -> import_state t0 (export_state t) = (t, Ok tt).
Proof.
  intros (Hok & Hl & Hp)%reach_table_ok (_ & Hl0 & Hp0)%reach_table_ok. apply import_export; congruence || done.
Qed.

(** For every table a function may declare, the BAR size is a power of two
    that holds the table and the pending bits, which start on a page of their
    own past the table where the capability says they do. *)
Theorem msix_bar_layout t count cap :
  0 < count <= 2048 -> 0 <= cap -> cap + 12 < 256 ->
  count * ENTRY_SIZE <= pba_offset_for count /\ pba_offset_for count mod 4096 = 0 /\
  pba_offset_for count + pba_bytes_for count <= bar_size_for count /\
  is_power_of_two (bar_size_for count) = true /\ count <= 8 * pba_bytes_for count /\
  cap_read t count (cap + 8) cap = Some (pba_offset_for count + 4).
Proof.
  intros Hc Hcap Hcap2.
  assert (Hoff : pba_offset_for count = (count * 16 + 4095) / 4096 * 4096).
  { unfold pba_offset_for, ENTRY_SIZE. change (2 ^ 64 - 1 - 0xFFF) with (2 ^ 64 - 1 - (2 ^ 12 - 1)).
    rewrite land_high by (unfold uint; lia). done. }
  pose proof (Z.div_mod (count * 16 + 4095) 4096). pose proof (Z.mod_pos_bound (count * 16 + 4095) 4096).
  assert (Hb : count <= 8 * pba_bytes_for count /\ 0 < pba_bytes_for count).
  { unfold pba_bytes_for, div_ceil. pose proof (Z.div_mod (count + 8 - 1) 8).
    pose proof (Z.mod_pos_bound (count + 8 - 1) 8). lia. }
  unfold bar_size_for, next_power_of_two. set (x := pba_offset_for count + pba_bytes_for count) in *.
  destruct (Z.leb_spec x 1); [lia|].
  pose proof (Z.log2_up_spec x ltac:(lia)) as [_ Hlog].
  assert (Hpow : forall k, 0 <= k -> is_power_of_two (2 ^ k) = true).
  { intros k Hk. unfold is_power_of_two. apply andb_true_iff. split; [apply Z.ltb_lt; lia|].
    apply Z.eqb_eq. change (2 ^ k - 1) with (Z.pred (2 ^ k)). rewrite <- Z.ones_equiv, Z.land_ones by done.
    apply Z.mod_same. lia. }
  split_and!; try lia.
  - unfold ENTRY_SIZE. lia.
  - rewrite Hoff. by apply Z.mod_mul.
  - destruct (Z.max_spec (2 ^ Z.log2_up x) 4096) as [[_ ->]|[_ ->]]; [done|]. apply Hpow, Z.log2_up_nonneg.
  - unfold cap_read. rewrite wadd_small by lia.
    replace (_ || _) with false by (symmetry; apply orb_false_iff; split; lia).
    replace (cap + 8 - cap) with 8 by lia. change (Z.land 8 0xFC) with 8.
    cbn [Z.eqb Pos.eqb]. f_equal. rewrite as_u_small by (unfold uint; lia).
    rewrite Hoff. change 4096 with (2 ^ 12). by rewrite lor_shift_add.
Qed.

(** A table of two vectors, enabled, with vector 1 fired while masked. *)
Definition two_vectors : MsixInner :=
  mkInner [entry_default; entry_default] true false [2].

Lemma two_vectors_reach : reach 2 two_vectors.
Proof.
  apply (reach_fire 2 (cap_write (msix_new 2) 0 0 (2 ^ 31)).1 1 two_vectors None).
  - apply reach_cap, (reach_new 2).
  - vm_compute. reflexivity.
Qed.

Lemma msix_never_stuck_witness : (1 < 2)%nat /\ deliverable two_vectors 1 = false.
Proof.
  apply (msix_never_stuck 2 two_vectors 1); [exact two_vectors_reach|vm_compute; reflexivity].
Defined.

Lemma cap_write_releases_witness :
  let t1 := mkInner [entry_default; entry_default] true true [2] in
  let out := cap_write two_vectors 0x42 0x40 0xC0000000 in
  out.2 = releases t1 (seq 0 2) /\ out.1 = set_pba t1 (pba out.1) /\
  forall v, pending out.1 v = pending two_vectors v && negb (deliverable t1 v).
Proof.
  apply (cap_write_releases 2 two_vectors 0x42 0x40 0xC0000000).
  - exact two_vectors_reach.
  - split; vm_compute; [discriminate|reflexivity].
  - reflexivity.
Defined.

Lemma fire_correct_witness :
  exists t' m, fire two_vectors 0 = Some (t', m) /\
    (m = if deliverable two_vectors 0 then Some (read_entry two_vectors 0) else None) /\
    t' = set_pba two_vectors (pba t') /\
    forall u, pending t' u = pending two_vectors u ||
      (bool_decide (u = 0%nat) && true && negb (deliverable two_vectors 0) && bool_decide (0 < 2)%nat).
Proof. apply (fire_correct 2 two_vectors 0). exact two_vectors_reach. Defined.

Lemma msix_export_import_witness :
  import_state (msix_new 2) (export_state two_vectors) = (two_vectors, Ok tt).
Proof.
  apply (msix_export_import 2 two_vectors (msix_new 2)); [exact two_vectors_reach|apply (reach_new 2)].
Defined.

Lemma msix_bar_layout_witness :
  33 * ENTRY_SIZE <= pba_offset_for 33 /\ pba_offset_for 33 mod 4096 = 0 /\
  pba_offset_for 33 + pba_bytes_for 33 <= bar_size_for 33 /\
  is_power_of_two (bar_size_for 33) = true /\ 33 <= 8 * pba_bytes_for 33 /\
  cap_read two_vectors 33 (0x40 + 8) 0x40 = Some (pba_offset_for 33 + 4).
Proof. apply (msix_bar_layout two_vectors 33 0x40); lia. Defined.

End msix.
