(* ===== verification/Uart.v ===== *)
(** * The 16550 UART

    [crates/vmm-devices/src/uart/uart16550.rs]: the register file, the two
    FIFOs and the interrupt logic. Registers are bytes; a [bitflags] test or
    update is the bit operation it compiles to. *)

From S2P Require Import Prelude.

Module uart.

(** ** Register bits *)

Definition ERBFI : Z := 1.
Definition ETBEI : Z := 2.
Definition ELSI : Z := 4.
Definition EDSSI : Z := 8.
Definition NOPEND : Z := 1.
Definition INTID : Z := 14.
Definition DLAB : Z := 128.
Definition DR : Z := 1.
Definition OE : Z := 2.
Definition THRE : Z := 32.
Definition TEMT : Z := 64.
Definition LOOP : Z := 16.

Definition contains (r f : Z) : bool := Z.land r f =? f.
Definition insert_flag (r f : Z) : Z := Z.lor r f.
Definition remove_flag (r f : Z) : Z := Z.land r (255 - f).
Definition set_flag (r f : Z) (v : bool) : Z := if v then insert_flag r f else remove_flag r f.

Inductive IntrIdent : Type := IdMdm | IdThre | IdDR | IdRls.

Definition ident_bits (i : IntrIdent) : Z :=
  match i with IdMdm => 0 | IdThre => 2 | IdDR => 4 | IdRls => 6 end.

Definition ident_from_bits (v : Z) : option IntrIdent :=
  if v =? 0 then Some IdMdm else if v =? 2 then Some IdThre
  else if v =? 4 then Some IdDR else if v =? 6 then Some IdRls else None.

Definition set_intr (iir : Z) (id : option IntrIdent) : Z :=
  let iir := remove_flag iir INTID in
  match id with
  | Some i => remove_flag (Z.lor (Z.land iir (255 - INTID)) (ident_bits i)) NOPEND
  | None => insert_flag iir NOPEND
  end.

Definition get_intr (iir : Z) : option IntrIdent :=
  if contains iir NOPEND then None else ident_from_bits (Z.land iir INTID).

(** ** FIFOs *)

Record Fifo : Type := mkFifo { capacity : nat; buf : list Z }.

Definition fifo_new (capacity : nat) : Fifo := mkFifo capacity [].

Definition fifo_write (f : Fifo) (d : Z) : Fifo * bool :=
  if (length (buf f) <? capacity f)%nat then (mkFifo (capacity f) (buf f ++ [d]), true)
  else (f, false).

Definition fifo_read (f : Fifo) : option (Z * Fifo) :=
  match buf f with [] => None | d :: b => Some (d, mkFifo (capacity f) b) end.

Definition fifo_reset (f : Fifo) : Fifo := mkFifo (capacity f) [].
Definition fifo_is_empty (f : Fifo) : bool := match buf f with [] => true | _ => false end.

(** ** The device *)

Record Uart : Type := mkUart {
  ier : Z; iir : Z; lcr : Z; lsr : Z; mcr : Z; msr : Z; scr : Z; div_low : Z; div_high : Z;
  thre_intr : bool; intr_pin : bool; rx_fifo : Fifo; tx_fifo : Fifo
}.

Definition uart_new : Uart :=
  mkUart 0 NOPEND 0 (Z.lor THRE TEMT) 0 0 0 0 0 false false (fifo_new 256) (fifo_new 256).

Definition reset (u : Uart) : Uart :=
  mkUart 0 NOPEND 0 (Z.lor THRE TEMT) 0 0 0 0 0 false false
    (fifo_reset (rx_fifo u)) (fifo_reset (tx_fifo u)).

Definition is_dlab (u : Uart) : bool := contains (lcr u) DLAB.
Definition is_loopback (u : Uart) : bool := contains (mcr u) LOOP.

Definition set_ier (u : Uart) (v : Z) : Uart :=
  mkUart v (iir u) (lcr u) (lsr u) (mcr u) (msr u) (scr u) (div_low u) (div_high u)
    (thre_intr u) (intr_pin u) (rx_fifo u) (tx_fifo u).
Definition set_lcr (u : Uart) (v : Z) : Uart :=
  mkUart (ier u) (iir u) v (lsr u) (mcr u) (msr u) (scr u) (div_low u) (div_high u)
    (thre_intr u) (intr_pin u) (rx_fifo u) (tx_fifo u).
Definition set_lsr (u : Uart) (v : Z) : Uart :=
  mkUart (ier u) (iir u) (lcr u) v (mcr u) (msr u) (scr u) (div_low u) (div_high u)
    (thre_intr u) (intr_pin u) (rx_fifo u) (tx_fifo u).
Definition set_mcr (u : Uart) (v : Z) : Uart :=
  mkUart (ier u) (iir u) (lcr u) (lsr u) v (msr u) (scr u) (div_low u) (div_high u)
    (thre_intr u) (intr_pin u) (rx_fifo u) (tx_fifo u).
Definition set_scr (u : Uart) (v : Z) : Uart :=
  mkUart (ier u) (iir u) (lcr u) (lsr u) (mcr u) (msr u) v (div_low u) (div_high u)
    (thre_intr u) (intr_pin u) (rx_fifo u) (tx_fifo u).
Definition set_div (u : Uart) (l h : Z) : Uart :=
  mkUart (ier u) (iir u) (lcr u) (lsr u) (mcr u) (msr u) (scr u) l h
    (thre_intr u) (intr_pin u) (rx_fifo u) (tx_fifo u).
Definition set_thre_intr (u : Uart) (v : bool) : Uart :=
  mkUart (ier u) (iir u) (lcr u) (lsr u) (mcr u) (msr u) (scr u) (div_low u) (div_high u)
    v (intr_pin u) (rx_fifo u) (tx_fifo u).
Definition set_rx (u : Uart) (f : Fifo) : Uart :=
  mkUart (ier u) (iir u) (lcr u) (lsr u) (mcr u) (msr u) (scr u) (div_low u) (div_high u)
    (thre_intr u) (intr_pin u) f (tx_fifo u).
Definition set_tx (u : Uart) (f : Fifo) : Uart :=
  mkUart (ier u) (iir u) (lcr u) (lsr u) (mcr u) (msr u) (scr u) (div_low u) (div_high u)
    (thre_intr u) (intr_pin u) (rx_fifo u) f.

(** The highest-priority interrupt that is enabled and pending. *)
Definition next_intr (u : Uart) : option IntrIdent :=
  if contains (ier u) ELSI && contains (lsr u) OE then Some IdRls
  else if contains (ier u) ERBFI && contains (lsr u) DR then Some IdDR
  else if contains (ier u) ETBEI && thre_intr u then Some IdThre
  else if contains (ier u) EDSSI && negb (msr u =? 0) then Some IdMdm
  else None.

Definition update_isr (u : Uart) : Uart :=
  let new := next_intr u in
  mkUart (ier u) (set_intr (iir u) new) (lcr u) (lsr u) (mcr u) (msr u) (scr u)
    (div_low u) (div_high u) (thre_intr u) (match new with Some _ => true | None => false end)
    (rx_fifo u) (tx_fifo u).

Definition set_thre (u : Uart) (state : bool) : Uart :=
  update_isr (set_thre_intr (set_lsr u (set_flag (lsr u) (Z.lor THRE TEMT) state)) state).

Definition update_dr (u : Uart) : Uart :=
  set_lsr u (set_flag (lsr u) DR (negb (fifo_is_empty (rx_fifo u)))).

Inductive Reg : Type :=
| RecvHold | TransmitHold | IntrEnable | RIntrIdent | FifoCtrl | LineCtrl | ModemCtrl
| LineStatus | ModemStatus | Scratch | DivisorLow | DivisorHigh.

Definition reg_for_read (offset : Z) (dlab : bool) : option Reg :=
  match offset, dlab with
  | 0, true => Some DivisorLow
  | 0, false => Some RecvHold
  | 1, true => Some DivisorHigh
  | 1, false => Some IntrEnable
  | 2, _ => Some RIntrIdent
  | 3, _ => Some LineCtrl
  | 4, _ => Some ModemCtrl
  | 5, _ => Some LineStatus
  | 6, _ => Some ModemStatus
  | 7, _ => Some Scratch
  | _, _ => None
  end.

Definition reg_for_write (offset : Z) (dlab : bool) : option Reg :=
  match offset, dlab with
  | 0, true => Some DivisorLow
  | 0, false => Some TransmitHold
  | 1, true => Some DivisorHigh
  | 1, false => Some IntrEnable
  | 2, _ => Some FifoCtrl
  | 3, _ => Some LineCtrl
  | 4, _ => Some ModemCtrl
  | 7, _ => Some Scratch
  | _, _ => None
  end.

Definition reg_read (u : Uart) (offset : Z) : Uart * Z :=
  match reg_for_read offset (is_dlab u) with
  | Some DivisorLow => (u, div_low u)
  | Some DivisorHigh => (u, div_high u)
  | Some RecvHold =>
      match fifo_read (rx_fifo u) with
      | Some (d, f) => (update_isr (update_dr (set_rx u f)), d)
      | None => (u, 0)
      end
  | Some IntrEnable => (u, ier u)
  | Some RIntrIdent =>
      let val := iir u in
      match get_intr val with
      | Some IdThre => (update_isr (set_thre_intr u false), val)
      | _ => (u, val)
      end
  | Some LineCtrl => (u, lcr u)
  | Some ModemCtrl => (u, mcr u)
  | Some LineStatus => (update_isr (set_lsr u (remove_flag (lsr u) OE)), lsr u)
  | Some ModemStatus => (u, msr u)
  | Some Scratch => (u, scr u)
  | _ => (u, 0)
  end.

Definition reg_write (u : Uart) (offset data : Z) : Uart :=
  match reg_for_write offset (is_dlab u) with
  | Some DivisorLow => set_div u data (div_high u)
  | Some DivisorHigh => set_div u (div_low u) data
  | Some TransmitHold =>
      if negb (is_loopback u) then set_thre (set_tx u (fifo_write (tx_fifo u) data).1) true
      else
        let '(f, ok) := fifo_write (rx_fifo u) data in
        let u := set_rx u f in
        let u := if ok then u else set_lsr u (insert_flag (lsr u) OE) in
        set_thre (update_dr u) true
  | Some IntrEnable =>
      let old := ier u in
      let new := Z.land data 15 in
      let u := set_ier u new in
      let u := if negb (contains old ETBEI) && contains new ETBEI && fifo_is_empty (tx_fifo u)
               then set_thre_intr u true else u in
      update_isr u
  | Some LineCtrl => set_lcr u data
  | Some ModemCtrl => set_mcr u (Z.land data LOOP)
  | Some Scratch => set_scr u data
  | _ => u
  end.

(** The host drains a byte the guest sent. *)
Definition data_read (u : Uart) : Uart * option Z :=
  match fifo_read (tx_fifo u) with
  | None => (u, None)
  | Some (d, f) => (set_thre (set_tx u f) (fifo_is_empty f), Some d)
  end.

(** The host offers a byte to the guest. *)
Definition data_write (u : Uart) (data : Z) : Uart * bool :=
  if is_loopback u then (u, true)
  else
    let '(f, accepted) := fifo_write (rx_fifo u) data in
    (update_isr (update_dr (set_rx u f)), accepted).

(** ** The invariant *)

(** The interrupt outputs, the data-ready bit and the FIFO bounds agree with
    the rest of the state. *)
Record uart_ok (u : Uart) : Prop := {
  uo_iir : get_intr (iir u) = next_intr u /\ (iir u = 1 \/ exists i, iir u = ident_bits i);
  uo_pin : intr_pin u = match next_intr u with Some _ => true | None => false end;
  uo_dr : contains (lsr u) DR = negb (fifo_is_empty (rx_fifo u));
  uo_rx : capacity (rx_fifo u) = 256%nat /\ (length (buf (rx_fifo u)) <= 256)%nat;
  uo_tx : capacity (tx_fifo u) = 256%nat /\ (length (buf (tx_fifo u)) <= 256)%nat
}.

Lemma set_intr_encode iir id :
  (iir = 1 \/ exists i, iir = ident_bits i) ->
  get_intr (set_intr iir id) = id /\
  (set_intr iir id = 1 \/ exists i, set_intr iir id = ident_bits i).
Proof.
  intros [->|[[] ->]]; destruct id as [[]|]; (split; [reflexivity|]);
    first [by left|right; exists IdMdm; reflexivity|right; exists IdThre; reflexivity
          |right; exists IdDR; reflexivity|right; exists IdRls; reflexivity].
Qed.

(** [update_isr] is what makes the outputs agree. *)
Lemma update_isr_ok u :
  (iir u = 1 \/ exists i, iir u = ident_bits i) ->
  contains (lsr u) DR = negb (fifo_is_empty (rx_fifo u)) ->
  capacity (rx_fifo u) = 256%nat -> (length (buf (rx_fifo u)) <= 256)%nat ->
  capacity (tx_fifo u) = 256%nat -> (length (buf (tx_fifo u)) <= 256)%nat ->
  uart_ok (update_isr u).
Proof.
  intros Hi Hdr H1 H2 H3 H4. destruct (set_intr_encode (iir u) (next_intr u) Hi). by split.
Qed.

(** Flags do not disturb one another. *)
Lemma contains_set_same r f v :
  f <> 0 -> Z.land (255 - f) f = 0 -> contains (set_flag r f v) f = v.
Proof.
  intros Hf Hz. unfold contains, set_flag, insert_flag, remove_flag. destruct v.
  - apply Z.eqb_eq, Z.bits_inj'. intros n _. rewrite Z.land_spec, Z.lor_spec.
    by destruct (Z.testbit r n), (Z.testbit f n).
  - rewrite <- Z.land_assoc, Hz, Z.land_0_r. apply Z.eqb_neq. congruence.
Qed.

Lemma contains_set_other r f g v :
  Z.land f g = 0 -> Z.land (255 - f) g = g -> contains (set_flag r f v) g = contains r g.
Proof.
  intros H0 Hg. unfold contains, set_flag, insert_flag, remove_flag. destruct v.
  - by rewrite Z.land_lor_distr_l, H0, Z.lor_0_r.
  - by rewrite <- Z.land_assoc, Hg.
Qed.

Lemma fifo_write_ok f d :
  capacity f = 256%nat -> (length (buf f) <= 256)%nat ->
  capacity (fifo_write f d).1 = 256%nat /\ (length (buf (fifo_write f d).1) <= 256)%nat.
Proof.
  intros Hc Hl. unfold fifo_write. rewrite Hc.
  destruct (Nat.ltb_spec (length (buf f)) 256); simpl; [|done].
  split; [done|]. rewrite length_app. simpl. lia.
Qed.

Lemma set_thre_ok u v :
  (iir u = 1 \/ exists i, iir u = ident_bits i) ->
  contains (lsr u) DR = negb (fifo_is_empty (rx_fifo u)) ->
  capacity (rx_fifo u) = 256%nat -> (length (buf (rx_fifo u)) <= 256)%nat ->
  capacity (tx_fifo u) = 256%nat -> (length (buf (tx_fifo u)) <= 256)%nat ->
  uart_ok (set_thre u v).
Proof.
  intros Hi Hdr H1 H2 H3 H4. apply update_isr_ok; simpl; try done.
  by rewrite contains_set_other.
Qed.

Lemma update_dr_bit u : contains (lsr (update_dr u)) DR = negb (fifo_is_empty (rx_fifo u)).
Proof. by apply contains_set_same. Qed.

Lemma fifo_read_Some f d f' :
  fifo_read f = Some (d, f') -> buf f = d :: buf f' /\ capacity f' = capacity f.
Proof. unfold fifo_read. destruct (buf f); [done|]. by intros [= <- <-]. Qed.

Lemma reg_read_ok u offset : uart_ok u -> uart_ok (reg_read u offset).1.
Proof.
  intros Hok. pose proof Hok as [[Hg Hi] Hp Hdr [Hr1 Hr2] [Ht1 Ht2]]. unfold reg_read.
  destruct (reg_for_read offset (is_dlab u)) as [[]|]; try done.
  - destruct (fifo_read (rx_fifo u)) as [[d f]|] eqn:Hf; [|done].
    apply fifo_read_Some in Hf as [Hb Hc]. rewrite Hb in Hr2. simpl in Hr2.
    apply update_isr_ok; simpl; try done; [by apply contains_set_same|congruence|lia].
  - destruct (get_intr (iir u)) as [[]|]; try done. apply update_isr_ok; simpl; done.
  - apply update_isr_ok; simpl; try done.
    change (remove_flag (lsr u) OE) with (set_flag (lsr u) OE false). by rewrite contains_set_other.
Qed.

Lemma reg_write_ok u offset data : uart_ok u -> uart_ok (reg_write u offset data).
Proof.
  intros Hok. pose proof Hok as [[Hg Hi] Hp Hdr [Hr1 Hr2] [Ht1 Ht2]]. unfold reg_write.
  destruct (reg_for_write offset (is_dlab u)) as [[]|]; try done; try (by split).
  - destruct (negb (is_loopback u)).
    + destruct (fifo_write_ok (tx_fifo u) data) as [? ?]; try done. by apply set_thre_ok.
    + destruct (fifo_write_ok (rx_fifo u) data) as [Hc Hl]; try done.
      destruct (fifo_write (rx_fifo u) data) as [f []]; simpl in Hc, Hl;
        apply set_thre_ok; simpl; try done; by apply contains_set_same.
  - set (u1 := set_ier u _). destruct (_ && _); apply update_isr_ok; simpl; done.
Qed.

Lemma data_read_ok u : uart_ok u -> uart_ok (data_read u).1.
Proof.
  intros Hok. pose proof Hok as [[Hg Hi] Hp Hdr [Hr1 Hr2] [Ht1 Ht2]]. unfold data_read.
  destruct (fifo_read (tx_fifo u)) as [[d f]|] eqn:Hf; [|done].
  apply fifo_read_Some in Hf as [Hb Hc]. rewrite Hb in Ht2. simpl in Ht2.
  apply set_thre_ok; simpl; try done; [congruence|lia].
Qed.

Lemma data_write_ok u d : uart_ok u -> uart_ok (data_write u d).1.
Proof.
  intros Hok. pose proof Hok as [[Hg Hi] Hp Hdr [Hr1 Hr2] [Ht1 Ht2]]. unfold data_write.
  destruct (is_loopback u); [done|]. destruct (fifo_write_ok (rx_fifo u) d) as [Hc Hl]; try done.
  destruct (fifo_write (rx_fifo u) d) as [f ok]. simpl in *.
  apply update_isr_ok; simpl; try done. by apply contains_set_same.
Qed.

(** ** Histories *)

(** What the guest and the host do, and the bytes that cross the device:
    those the transmit and the receive FIFO took and gave since the last
    reset, oldest first. *)
Record log : Type := mkLog { tx_in : list Z; tx_out : list Z; rx_in : list Z; rx_out : list Z }.

Inductive op : Type :=
| OpRead (offset : Z) | OpWrite (offset data : Z) | OpDrain | OpFeed (data : Z) | OpReset.

(** The byte a guest write puts in each FIFO, if the FIFO has room. *)
Definition sends (u : Uart) (offset : Z) : bool :=
  match reg_for_write offset (is_dlab u) with Some TransmitHold => true | _ => false end.
Definition room (f : Fifo) : bool := (length (buf f) <? capacity f)%nat.

Definition run1 (u : Uart) (l : log) (o : op) : Uart * log :=
  match o with
  | OpRead offset =>
      let '(u', v) := reg_read u offset in
      let got := match reg_for_read offset (is_dlab u), buf (rx_fifo u) with
                 | Some RecvHold, _ :: _ => [v] | _, _ => [] end in
      (u', mkLog (tx_in l) (tx_out l) (rx_in l) (rx_out l ++ got))
  | OpWrite offset data =>
      let tx := if sends u offset && negb (is_loopback u) && room (tx_fifo u) then [data] else [] in
      let rx := if sends u offset && is_loopback u && room (rx_fifo u) then [data] else [] in
      (reg_write u offset data, mkLog (tx_in l ++ tx) (tx_out l) (rx_in l ++ rx) (rx_out l))
  | OpDrain =>
      let '(u', v) := data_read u in
      (u', mkLog (tx_in l) (tx_out l ++ option_list v) (rx_in l) (rx_out l))
  | OpFeed data =>
      let '(u', ok) := data_write u data in
      let rx := if negb (is_loopback u) && ok then [data] else [] in
      (u', mkLog (tx_in l) (tx_out l) (rx_in l ++ rx) (rx_out l))
  | OpReset => (reset u, mkLog [] [] [] [])
  end.

Definition run (ops : list op) : Uart * log :=
  foldl (fun s o => run1 s.1 s.2 o) (uart_new, mkLog [] [] [] []) ops.

(** Nothing is lost, repeated or reordered between the two ends. *)
Definition flow_ok (u : Uart) (l : log) : Prop :=
  tx_in l = tx_out l ++ buf (tx_fifo u) /\ rx_in l = rx_out l ++ buf (rx_fifo u).

Lemma fifo_write_buf f d : buf (fifo_write f d).1 = buf f ++ (if room f then [d] else []).
Proof. unfold fifo_write, room. case_match; simpl; [done|]. by rewrite app_nil_r. Qed.

Lemma run1_flow u l o : uart_ok u -> flow_ok u l -> flow_ok (run1 u l o).1 (run1 u l o).2.
Proof.
  intros Hok [Htx Hrx]. destruct o as [offset|offset data| |data|]; simpl.
  - unfold reg_read. destruct (reg_for_read offset (is_dlab u)) as [[]|]; simpl;
      try (split; simpl; rewrite ?app_nil_r; done).
    + unfold fifo_read. destruct (buf (rx_fifo u)) as [|d b] eqn:Hb; simpl.
      * split; simpl; rewrite ?app_nil_r; [done|congruence].
      * split; simpl; [done|]. by rewrite <- app_assoc.
    + destruct (get_intr (iir u)) as [[]|]; split; simpl; rewrite ?app_nil_r; done.
  - unfold reg_write, sends. destruct (reg_for_write offset (is_dlab u)) as [[]|]; simpl;
      try (split; simpl; rewrite ?app_nil_r; done).
    + destruct (is_loopback u); simpl.
      * pose proof (fifo_write_buf (rx_fifo u) data) as Hb.
        destruct (fifo_write (rx_fifo u) data) as [f ok]. simpl in Hb.
        destruct ok; split; simpl; rewrite ?app_nil_r; try done; rewrite Hb, Hrx; by rewrite app_assoc.
      * split; simpl; rewrite ?app_nil_r; [|done]. rewrite fifo_write_buf, Htx. by rewrite app_assoc.
    + destruct (_ && _); split; simpl; rewrite ?app_nil_r; done.
  - unfold data_read, fifo_read. destruct (buf (tx_fifo u)) as [|d b] eqn:Hb; simpl.
    + split; simpl; rewrite ?app_nil_r; [congruence|done].
    + split; simpl; [|done]. by rewrite <- app_assoc.
  - unfold data_write. destruct (is_loopback u); simpl; [by rewrite app_nil_r|].
    pose proof (fifo_write_buf (rx_fifo u) data) as Hb.
    assert (Hr : (fifo_write (rx_fifo u) data).2 = room (rx_fifo u))
      by (unfold fifo_write, room; by destruct (_ <? _)%nat).
    destruct (fifo_write (rx_fifo u) data) as [f ok]. simpl in Hb, Hr. subst ok.
    split; simpl; [done|]. by rewrite Hb, Hrx, app_assoc.
  - done.
Qed.

Lemma run_ok ops : uart_ok (run ops).1 /\ flow_ok (run ops).1 (run ops).2.
Proof.
  unfold run. assert (H0 : uart_ok uart_new /\ flow_ok uart_new (mkLog [] [] [] [])).
  { split; [|done]. split; simpl; try done; [split; [done|by left]|split; [done|lia]..]. }
  generalize (mkLog [] [] [] []) as l, uart_new as u, H0. clear H0.
  induction ops as [|o ops IH]; intros l u [Hu Hf]; [done|]. cbn [foldl fst snd].
  destruct (run1 u l o) as [u' l'] eqn:Hr. apply IH.
  pose proof (run1_flow u l o Hu Hf) as Hfl. rewrite Hr in Hfl. split; [|done].
  destruct o as [offset|offset data| |data|]; simpl in Hr.
  - pose proof (reg_read_ok u offset Hu). destruct (reg_read u offset). by simplify_eq.
  - simplify_eq. by apply reg_write_ok.
  - pose proof (data_read_ok u Hu). destruct (data_read u). by simplify_eq.
  - pose proof (data_write_ok u data Hu). destruct (data_write u data). by simplify_eq.
  - simplify_eq. destruct Hu as [_ _ _ [? _] [? _]].
    split; simpl; try done; [split; [done|by left]|split; [done|lia]..].
Qed.

(** ** The properties *)

(** The interrupt sources of a 16550, highest priority first: what the
    identification register reads for it, the number of its enable bit, and
    whether its condition holds: a receiver overrun, a byte to read, a
    transmitter that ran empty since the guest was told, a modem line. *)
Definition sources (u : Uart) : list (Z * Z * bool) :=
  [(6, 2, Z.testbit (lsr u) 1); (4, 0, negb (fifo_is_empty (rx_fifo u))); (2, 1, thre_intr u); (0, 3, negb (msr u =? 0))].

Fixpoint first_source (enabled : Z) (l : list (Z * Z * bool)) : option Z :=
  match l with
  | [] => None
  | (id, bit, pending) :: l => if Z.testbit enabled bit && pending then Some id else first_source enabled l
  end.

Lemma contains_bit r k : 0 <= k -> contains r (2 ^ k) = Z.testbit r k.
Proof.
  intros Hk. unfold contains. rewrite <- bit_set_testbit by done. unfold bit_set.
  assert (Z.land r (2 ^ k) = 0 \/ Z.land r (2 ^ k) = 2 ^ k) as [-> | ->].
  { destruct (Z.testbit r k) eqn:E; [right|left]; apply Z.bits_inj'; intros n Hn; rewrite Z.land_spec, Z.pow2_bits_eqb, ?Z.bits_0 by done;
      destruct (Z.eqb_spec k n) as [<-|]; rewrite ?E, ?andb_false_r; done. }
  - rewrite Z.eqb_refl. pose proof (Z.pow_pos_nonneg 2 k eq_refl Hk). apply Z.eqb_neq. lia.
  - rewrite Z.eqb_refl. pose proof (Z.pow_pos_nonneg 2 k eq_refl Hk). symmetry. apply negb_true_iff, Z.eqb_neq. lia.
Qed.

Lemma next_intr_first u : uart_ok u -> first_source (ier u) (sources u) = ident_bits <$> next_intr u.
Proof.
  intros Hok. unfold next_intr. rewrite (uo_dr u Hok). unfold ELSI, ERBFI, ETBEI, EDSSI, OE.
  change (contains (ier u) 4) with (contains (ier u) (2 ^ 2)). change (contains (ier u) 1) with (contains (ier u) (2 ^ 0)).
  change (contains (ier u) 2) with (contains (ier u) (2 ^ 1)). change (contains (ier u) 8) with (contains (ier u) (2 ^ 3)).
  change (contains (lsr u) 2) with (contains (lsr u) (2 ^ 1)). rewrite !contains_bit by done.
  cbn [first_source sources]. by repeat case_match.
Qed.

(** C30: whatever the guest and the host do, the interrupt identification
    register reads as the highest-priority source of a 16550 that is enabled and
    pending, or 1 for none, the interrupt pin is high exactly when there is one,
    the data-ready bit says whether a byte waits, and neither FIFO outgrows its
    256 bytes. *)
Theorem uart_outputs_agree ops :
  let u := (run ops).1 in
  (reg_read u 2).2 = default 1 (first_source (ier u) (sources u)) /\
  intr_pin u = bool_decide (is_Some (first_source (ier u) (sources u))) /\
  Z.testbit (reg_read u 5).2 0 = negb (fifo_is_empty (rx_fifo u)) /\
  (length (buf (rx_fifo u)) <= 256)%nat /\ (length (buf (tx_fifo u)) <= 256)%nat.
Proof.
  destruct (run_ok ops) as [Hok _]. cbv zeta. rewrite (next_intr_first _ Hok). destruct Hok as [[Hg Hi] Hp Hdr [_ H1] [_ H2]].
  set (u := (run ops).1) in *. split_and!; [| | |done|done].
  - assert ((reg_read u 2).2 = iir u) as -> by (unfold reg_read; cbn [reg_for_read]; by repeat case_match).
    rewrite <- Hg. by destruct Hi as [->|[[] ->]].
  - rewrite Hp. by destruct (next_intr u).
  - rewrite <- Hdr. change DR with (2 ^ 0). by rewrite contains_bit.
Qed.

(** In either direction the bytes that came out, followed by those still in
    the FIFO, are the bytes that went in, in order: the device drops a byte only
    when its FIFO is full and never repeats or reorders one. *)
Theorem uart_bytes_in_order ops :
  let '(u, l) := run ops in
  tx_in l = tx_out l ++ buf (tx_fifo u) /\ rx_in l = rx_out l ++ buf (rx_fifo u).
Proof. pose proof (run_ok ops) as [_ Hf]. by destruct (run ops). Qed.

End uart.
