(* ===== verification/MigCodec.v ===== *)
(** * The migration codec

    [crates/vmm-migrate/src/codec.rs] and [limits.rs]: the messages of the
    migration protocol and their WebSocket frames, [payload ++ [tag]]. RON,
    a third-party text format, is the class [Ron]; what the protocol relies
    on, that a value printed is read back, is [ron_ok]. An error text is
    its fixed part: the values a [format!] splices in are left out. *)

From Stdlib Require Import String Ascii.
From S2P Require Import Prelude.

Module codec.

(** ** Text *)

Definition bytes_of (s : string) : list Z :=
  (fun c => Z.of_nat (nat_of_ascii c)) <$> list_ascii_of_string s.

Definition within (lo hi b : Z) : bool := (lo <=? b) && (b <=? hi).
Definition cont (b : Z) : bool := within 0x80 0xBF b.

(** [std::str::from_utf8]: the byte sequences it accepts. *)
Fixpoint utf8_valid (l : list Z) : bool :=
  match l with
  | [] => true
  | b0 :: l0 =>
      if within 0 0x7F b0 then utf8_valid l0
      else
        match l0 with
        | [] => false
        | b1 :: l1 =>
            if within 0xC2 0xDF b0 then cont b1 && utf8_valid l1
            else
              match l1 with
              | [] => false
              | b2 :: l2 =>
                  if within 0xE0 0xEF b0 then
                    cont b1 && cont b2 &&
                    (if b0 =? 0xE0 then 0xA0 <=? b1 else true) &&
                    (if b0 =? 0xED then b1 <=? 0x9F else true) && utf8_valid l2
                  else
                    match l2 with
                    | [] => false
                    | b3 :: l3 =>
                        within 0xF0 0xF4 b0 && cont b1 && cont b2 && cont b3 &&
                        (if b0 =? 0xF0 then 0x90 <=? b1 else true) &&
                        (if b0 =? 0xF4 then b1 <=? 0x8F else true) && utf8_valid l3
                    end
              end
        end
  end.

(** ** Limits *)

Definition PAGE_SIZE : Z := 4096.
Definition MAX_PAGES_PER_BATCH : Z := 256.
Definition MAX_BATCH_RAW_BYTES : Z := MAX_PAGES_PER_BATCH * PAGE_SIZE.
Definition MAX_BATCH_COMPRESSED_BYTES : Z := MAX_BATCH_RAW_BYTES + MAX_BATCH_RAW_BYTES / 8 + 4096.
Definition MAX_SPARSE_GPAS : Z := MAX_PAGES_PER_BATCH.
Definition BATCH_SIZE : nat := 64.

(** ** Messages *)

Inductive MessageType : Type :=
| TOkay | TError | TSerialized | TMemFetch | TMemEnd | TMemDone | TPageBatch | TPauseSignal.

(** [tag as u8]. *)
Definition tag_u8 (t : MessageType) : Z :=
  match t with
  | TOkay => 0
  | TError => 1
  | TSerialized => 2
  | TMemFetch => 7
  | TMemEnd => 9
  | TMemDone => 10
  | TPageBatch => 11
  | TPauseSignal => 12
  end.

Definition from_u8 (v : Z) : option MessageType :=
  if v =? 0 then Some TOkay
  else if v =? 1 then Some TError
  else if v =? 2 then Some TSerialized
  else if v =? 7 then Some TMemFetch
  else if v =? 9 then Some TMemEnd
  else if v =? 10 then Some TMemDone
  else if v =? 11 then Some TPageBatch
  else if v =? 12 then Some TPauseSignal
  else None.

Inductive MigrateError : Type :=
| ProtocolMismatch (what : string)
| PreambleMismatch (what : string)
| UnexpectedMessage (expected got : string)
| Codec (what : string)
| WebSocket (what : string)
| Io (what : string)
| VmmData (what : string)
| State (what : string)
| RemoteError (what : string)
| Phase (what : string)
| Committed (what : string).

Inductive Message : Type :=
| Okay
| Error (e : MigrateError)
| Serialized (data : list Z)
| MemFetch (gpas : list Z)
| MemEnd
| MemDone
| PageBatch (base_gpa page_count flags : Z) (data : list Z)
| PauseSignal.

Definition name (m : Message) : string :=
  match m with
  | Okay => "Okay"
  | Error _ => "Error"
  | Serialized _ => "Serialized"
  | MemFetch _ => "MemFetch"
  | MemEnd => "MemEnd"
  | MemDone => "MemDone"
  | PageBatch _ _ _ _ => "PageBatch"
  | PauseSignal => "PauseSignal"
  end%string.

Definition PAGE_BATCH_FLAG_ZSTD : Z := 1.

(** [ron::ser::to_string] and [ron::from_str] at one type. *)
Class Ron (T : Type) : Type := {
  ron_to_string : T -> option (list Z);
  ron_from_str : list Z -> option T
}.

(** A value that prints as text and reads back. *)
Definition ron_ok `{Ron T} (v : T) : Prop :=
  exists s, ron_to_string v = Some s /\ utf8_valid s = true /\ ron_from_str s = Some v.

(** What the WebSocket layer hands over. *)
Inductive ws_message : Type :=
| Binary (d : list Z)
| Close
| OtherFrame.

Definition text (payload : list Z) : result MigrateError (list Z) :=
  if utf8_valid payload then Ok payload else Err (Codec "invalid UTF-8").

Definition from_str `{Ron T} (s : list Z) : result MigrateError T :=
  ok_or (ron_from_str s) (Codec "RON deserialize").

Definition serialized `{Ron T} (val : T) : result MigrateError Message :=
  let? data := ok_or (ron_to_string val) (Codec "RON serialize") in
  Ok (Serialized data).

Definition deserialize `{Ron T} (data : list Z) : result MigrateError T :=
  let? s := text data in from_str s.

Section codec.
Context `{Ron MigrateError, Ron (list Z)}.

Definition encode (m : Message) : list Z :=
  let '(tag, payload) :=
    match m with
    | Okay => (TOkay, [])
    | Error e => (TError, default (bytes_of "serialization_failed") (ron_to_string e))
    | Serialized data => (TSerialized, data)
    | MemFetch gpas => (TMemFetch, default (bytes_of "[]") (ron_to_string gpas))
    | MemEnd => (TMemEnd, [])
    | MemDone => (TMemDone, [])
    | PageBatch base_gpa page_count flags data =>
        (TPageBatch,
         le_bytes 8 base_gpa ++ le_bytes 4 page_count ++ le_bytes 4 flags ++ data)
    | PauseSignal => (TPauseSignal, [])
    end in
  payload ++ [tag_u8 tag].

(** The [PageBatch] arm of [decode]. *)
Definition decode_batch (payload : list Z) : result MigrateError Message :=
  if (length payload <? 16)%nat then Err (Codec "PageBatch too short for header")
  else
    let base_gpa := le_val (take 8 payload) in
    let page_count := le_val (take 4 (drop 8 payload)) in
    let flags := le_val (take 4 (drop 12 payload)) in
    if (page_count =? 0) || (MAX_PAGES_PER_BATCH <? page_count)
    then Err (Codec "invalid PageBatch page count")
    else if negb (Z.land flags (Z.lxor PAGE_BATCH_FLAG_ZSTD (2 ^ 32 - 1)) =? 0)
    then Err (Codec "unknown PageBatch flags")
    else Ok (PageBatch base_gpa page_count flags (drop 16 payload)).

Definition decode (ws_msg : ws_message) : result MigrateError Message :=
  match ws_msg with
  | Close => Err (WebSocket "connection closed")
  | OtherFrame => Err (Codec "expected binary frame")
  | Binary data =>
      match last data with
      | None => Err (Codec "empty frame (no tag byte)")
      | Some tag_byte =>
          let payload := take (length data - 1) data in
          match from_u8 tag_byte with
          | None => Err (Codec "unknown message tag")
          | Some TOkay => Ok Okay
          | Some TError =>
              let? s := text payload in
              let? err := from_str s in
              Ok (Error err)
          | Some TSerialized => Ok (Serialized payload)
          | Some TMemFetch =>
              let? s := text payload in
              let? gpas := from_str s in
              if MAX_SPARSE_GPAS <? Z.of_nat (length gpas)
              then Err (Codec "MemFetch has too many GPAs")
              else Ok (MemFetch gpas)
          | Some TMemEnd => Ok MemEnd
          | Some TMemDone => Ok MemDone
          | Some TPageBatch => decode_batch payload
          | Some TPauseSignal => Ok PauseSignal
          end
      end
  end.

(** ** Round trip *)

Definition flags_ok (flags : Z) : Prop := flags = 0 \/ flags = PAGE_BATCH_FLAG_ZSTD.

(** The messages an end may send. *)
Definition msg_ok (m : Message) : Prop :=
  match m with
  | Error e => ron_ok e
  | MemFetch gpas => ron_ok gpas /\ Z.of_nat (length gpas) <= MAX_SPARSE_GPAS
  | PageBatch base_gpa page_count flags _ =>
      uint 64 base_gpa /\ 0 < page_count <= MAX_PAGES_PER_BATCH /\ flags_ok flags
  | _ => True
  end.

Lemma from_u8_tag t : from_u8 (tag_u8 t) = Some t.
Proof. by destruct t. Qed.

Lemma frame_last (payload : list Z) t : last (payload ++ [t]) = Some t.
Proof. apply last_snoc. Qed.

Lemma frame_payload (payload : list Z) t :
  take (length (payload ++ [t]) - 1) (payload ++ [t]) = payload.
Proof.
  rewrite length_app, Nat.add_sub. apply take_app_length.
Qed.

Lemma flags_ok_spec flags :
  0 <= flags < 2 ^ 32 ->
  (Z.land flags (Z.lxor PAGE_BATCH_FLAG_ZSTD (2 ^ 32 - 1)) =? 0) = true <-> flags_ok flags.
Proof.
  intros Hf. change (Z.lxor PAGE_BATCH_FLAG_ZSTD (2 ^ 32 - 1)) with (2 ^ 32 - 1 - (2 ^ 1 - 1)).
  rewrite land_high by (unfold uint; lia). rewrite Z.eqb_eq. unfold flags_ok, PAGE_BATCH_FLAG_ZSTD.
  change (2 ^ 1) with 2.
  pose proof (Z.div_mod flags 2). pose proof (Z.mod_pos_bound flags 2). lia.
Qed.

Lemma decode_batch_encode base_gpa page_count flags data :
  msg_ok (PageBatch base_gpa page_count flags data) ->
  decode_batch (le_bytes 8 base_gpa ++ le_bytes 4 page_count ++ le_bytes 4 flags ++ data) =
    Ok (PageBatch base_gpa page_count flags data).
Proof.
  intros (Hb & Hp & Hf). unfold decode_batch, MAX_PAGES_PER_BATCH in *.
  set (a := le_bytes 8 base_gpa). set (b := le_bytes 4 page_count). set (c := le_bytes 4 flags).
  assert (Ha : length a = 8%nat) by apply length_le_bytes.
  assert (Hlb : length b = 4%nat) by apply length_le_bytes.
  assert (Hlc : length c = 4%nat) by apply length_le_bytes.
  replace (length _ <? 16)%nat with false
    by (symmetry; apply Nat.ltb_ge; rewrite !length_app; lia).
  rewrite (take_app_length' a) by done.
  rewrite (drop_app_length' a _ 8), (take_app_length' b) by done.
  replace (drop 12 (a ++ b ++ c ++ data)) with (c ++ data)
    by (by rewrite app_assoc, drop_app_length' by (rewrite length_app; lia)).
  replace (drop 16 (a ++ b ++ c ++ data)) with data
    by (by rewrite !app_assoc, drop_app_length' by (rewrite !length_app; lia)).
  rewrite (take_app_length' c) by done. unfold a, b, c.
  assert (0 <= flags < 2 ^ 32) by (destruct Hf; subst; done).
  rewrite !le_val_le_bytes by (simpl; unfold uint in *; lia).
  replace (_ || _) with false by (symmetry; apply orb_false_iff; split; lia).
  rewrite (proj2 (flags_ok_spec flags ltac:(done)) Hf). done.
Qed.

Lemma decode_encode m : msg_ok m -> decode (Binary (encode m)) = Ok m.
Proof.
  intros Hm. unfold encode.
  destruct m as [|e|data|gpas| | |base_gpa page_count flags data|]; try done;
    unfold decode; rewrite frame_last, frame_payload, from_u8_tag; cbn iota; try done.
  - destruct Hm as (s & -> & Hu & Hr). unfold text, from_str. simpl. by rewrite Hu, Hr.
  - destruct Hm as [(s & -> & Hu & Hr) Hl]. unfold text, from_str. simpl. rewrite Hu, Hr. simpl.
    destruct (Z.ltb_spec MAX_SPARSE_GPAS (Z.of_nat (length gpas))); [lia|done].
  - by apply decode_batch_encode.
Qed.

(** ** What a peer can make this end believe *)

(** The bounds a decoded message keeps, whatever bytes the peer sent. *)
Definition msg_bounded (frame : list Z) (m : Message) : Prop :=
  match m with
  | Serialized data => S (length data) = length frame
  | MemFetch gpas => Z.of_nat (length gpas) <= MAX_SPARSE_GPAS
  | PageBatch base_gpa page_count flags data =>
      uint 64 base_gpa /\ 0 < page_count <= MAX_PAGES_PER_BATCH /\ flags_ok flags /\
      (17 + length data = length frame)%nat
  | _ => True
  end.

Lemma le_val_take n l : is_bytes l -> uint (8 * Z.of_nat n) (le_val (take n l)).
Proof.
  intros Hl. assert (Ht : is_bytes (take n l)) by by apply Forall_take.
  pose proof (le_val_bound _ Ht) as Hb. rewrite length_take in Hb. split; [lia|].
  eapply Z.lt_le_trans; [apply Hb|]. apply Z.pow_le_mono_r; lia.
Qed.

Lemma decode_batch_bounded payload m t :
  is_bytes payload -> decode_batch payload = Ok m -> msg_bounded (payload ++ [t]) m.
Proof.
  intros Hb. unfold decode_batch. destruct (Nat.ltb_spec (length payload) 16); [done|].
  set (count := le_val (take 4 (drop 8 payload))). set (flags := le_val (take 4 (drop 12 payload))).
  assert (Hc : uint 32 count) by (apply (le_val_take 4); by apply Forall_drop).
  assert (Hf : uint 32 flags) by (apply (le_val_take 4); by apply Forall_drop).
  destruct ((count =? 0) || _) eqn:E; [done|]. apply orb_false_iff in E as [].
  destruct (Z.land flags _ =? 0) eqn:E; [|done]. apply flags_ok_spec in E; [|done].
  simpl negb. intros [= <-]. simpl. split_and!; [by apply (le_val_take 8)| |lia|done|].
  - unfold uint in Hc. lia.
  - rewrite length_app, length_drop. simpl. lia.
Qed.

(** C29: every message an end may send is decoded as itself. *)
Theorem codec_roundtrip m : msg_ok m -> decode (Binary (encode m)) = Ok m.
Proof. apply decode_encode. Qed.

(** Whatever frame a peer sends is refused, or decoded to a message whose
    page count, GPA count and flags are in range and whose data is part of the
    frame. *)
Theorem decode_bounded frame m :
  is_bytes frame -> decode (Binary frame) = Ok m -> msg_bounded frame m.
Proof.
  intros Hb Hd. unfold decode in Hd.
  destruct (last frame) as [t|] eqn:Hl; [|done]. apply last_Some in Hl as [payload ->].
  rewrite frame_payload in Hd. apply Forall_app in Hb as [Hb _].
  destruct (from_u8 t) as [[]|]; simplify_eq; try done.
  - by destruct (text payload); [destruct (from_str a)|]; simplify_eq.
  - simpl. rewrite length_app. simpl. lia.
  - destruct (text payload) as [s|]; [|done]. destruct (from_str s) as [gpas|]; [|done].
    destruct (Z.ltb_spec MAX_SPARSE_GPAS (Z.of_nat (length gpas))); simplify_eq. simpl. lia.
  - by apply decode_batch_bounded.
Qed.

End codec.

(** ** A printer and a parser to run the codec with

    Numbers in ten base-128 digits, lowest first: plain ASCII text. *)

Fixpoint digits (n : nat) (z : Z) : list Z :=
  match n with
  | O => []
  | S n => z mod 128 :: digits n (z / 128)
  end.

Fixpoint undigits (l : list Z) : Z :=
  match l with
  | [] => 0
  | d :: l => d + 128 * undigits l
  end.

Fixpoint print_gpas (l : list Z) : list Z :=
  match l with
  | [] => []
  | z :: l => digits 10 z ++ print_gpas l
  end.

Fixpoint parse_gpas (fuel : nat) (s : list Z) : list Z :=
  match fuel, s with
  | S fuel, _ :: _ => undigits (take 10 s) :: parse_gpas fuel (drop 10 s)
  | _, _ => []
  end.

#[export] Instance ron_gpas : Ron (list Z) := {|
  ron_to_string := fun l => Some (print_gpas l);
  ron_from_str := fun s => Some (parse_gpas (length s) s)
|}.

(** No error text is sent in the examples. *)
#[export] Instance ron_error : Ron MigrateError := {|
  ron_to_string := fun _ => None;
  ron_from_str := fun _ => None
|}.

Lemma length_digits n z : length (digits n z) = n.
Proof. revert z. induction n; intros; simpl; auto. Qed.

Lemma undigits_digits n z : 0 <= z < 128 ^ Z.of_nat n -> undigits (digits n z) = z.
Proof.
  revert z. induction n as [|n IH]; intros z Hz; [simpl in *; lia|].
  simpl undigits. rewrite IH; [pose proof (Z.div_mod z 128); lia|].
  rewrite Nat2Z.inj_succ, Z.pow_succ_r in Hz by lia.
  split; [apply Z.div_pos; lia|apply Z.div_lt_upper_bound; lia].
Qed.

Lemma utf8_ascii l : Forall (fun b => 0 <= b < 128) l -> utf8_valid l = true.
Proof.
  induction 1 as [|b l Hb _ IH]; [done|]. simpl. unfold within.
  destruct (Z.leb_spec 0 b); [|lia]. destruct (Z.leb_spec b 127); [|lia]. done.
Qed.

Lemma digits_ascii n z : Forall (fun b => 0 <= b < 128) (digits n z).
Proof.
  revert z. induction n; intros; simpl; constructor; [|done]. apply Z.mod_pos_bound. lia.
Qed.

Lemma parse_print l fuel :
  Forall (uint 64) l -> (length l <= fuel)%nat -> parse_gpas fuel (print_gpas l) = l.
Proof.
  intros Hl. revert fuel. induction Hl as [|z l Hz Hl IH]; intros fuel Hf; [by destruct fuel|].
  destruct fuel as [|fuel]; simpl in Hf; [lia|]. cbn [print_gpas parse_gpas].
  destruct (digits 10 z ++ print_gpas l) eqn:E; [by apply (f_equal length) in E|]. rewrite <- E.
  rewrite take_app_length', drop_app_length' by (by rewrite length_digits).
  rewrite undigits_digits, IH by (done || lia || (unfold uint in Hz; lia)). done.
Qed.

Lemma ron_gpas_ok l : Forall (uint 64) l -> ron_ok l.
Proof.
  intros Hl. exists (print_gpas l). split_and!; [done| |].
  - apply utf8_ascii. induction Hl; [constructor|]. apply Forall_app. split; [apply digits_ascii|done].
  - simpl. f_equal. apply parse_print; [done|]. clear Hl. induction l; cbn [print_gpas length]; [lia|].
    rewrite length_app, length_digits. lia.
Qed.

Definition sparse_msg : Message := MemFetch [0x8000; 0xC000].

Lemma codec_roundtrip_witness :
  msg_ok sparse_msg /\ decode (Binary (encode sparse_msg)) = Ok sparse_msg.
Proof.
  assert (Hm : msg_ok sparse_msg).
  { split; [|done]. apply ron_gpas_ok. by repeat constructor. }
  split; [done|]. by apply (codec_roundtrip sparse_msg).
Defined.

(** A batch of one page cut short after four bytes of data. *)
Definition short_batch : list Z := encode (PageBatch 0x5000 1 0 [1; 2; 3; 4]).

Lemma decode_bounded_witness :
  decode (Binary short_batch) = Ok (PageBatch 0x5000 1 0 [1; 2; 3; 4]) /\
  msg_bounded short_batch (PageBatch 0x5000 1 0 [1; 2; 3; 4]).
Proof.
  split; [reflexivity|]. apply (decode_bounded short_batch); [|reflexivity].
  by repeat (apply Forall_cons_2; [split; [by vm_compute|by vm_compute]|]).
Defined.

End codec.
