(* ===== verification/MigPages.v ===== *)
(** * Guest pages in a migration

    [crates/vmm-migrate/src/pages.rs] (reading and applying batches of
    pages), [protocol.rs] (the dirty bitmap), the guest memory accessors of
    [crates/vmm-core/src/mem/ctx.rs] and the bitmap walk of
    [crates/vmm-core/src/hdl.rs]. Both mappings of a region, the tracked
    and the direct one, show the same guest memory, so here memory is
    addressed by guest physical address. zstd is the class [Zstd]. *)

From Stdlib Require Import String.
From S2P Require Import Prelude Mapping PhysMap MigCodec.

Module pages.
Import mapping codec.

(** ** [MemCtx] *)

(** A view that [PhysMap] answered for [gpa], addressed by guest address. *)
Definition guest_view (gpa : Z) (sub : SubMapping) : SubMapping :=
  mkSub gpa (s_len sub) (s_prot sub).

Definition mem_lookup (pm : physmap.PhysMap) (gpa len : Z) : option SubMapping :=
  let* sub := physmap.lookup pm gpa len in Some (guest_view gpa sub).

(** [MemCtx::read] before its copy: the view it reads [n] bytes of. *)
Definition mem_read_view (pm : physmap.PhysMap) (gpa : Z) (n : nat) :
    result ErrorKind SubMapping :=
  let? sub := ok_or (physmap.lookup_untracked pm gpa (Z.of_nat n)) AddrNotAvailable in
  if negb (contains (s_prot sub) READ) then Err PermissionDenied
  else if s_len sub <? Z.of_nat n then Err InvalidInput
  else Ok (guest_view gpa sub).

Definition mem_write (pm : physmap.PhysMap) (gm : hostmem) (gpa : Z) (data : list Z) :
    result ErrorKind hostmem :=
  let? sub := ok_or (mem_lookup pm gpa (Z.of_nat (length data))) AddrNotAvailable in
  write_bytes gm sub data.

(** ** Progress *)

Inductive MigrationPhase : Type :=
| Sync | RamPushPrePause | Pause | RamPushPostPause | PhaseTimeData | PhaseDeviceState
| RamPull | Finish | PhaseCommitted | PhaseError.

Record MigrationStatus : Type := mkStatus {
  phase : MigrationPhase;
  bytes_transferred : Z;
  pages_transferred : Z;
  dirty_pages_remaining : Z
}.

Definition status_new : MigrationStatus := mkStatus Sync 0 0 0.

Definition with_phase (p : MigrationPhase) (s : MigrationStatus) : MigrationStatus :=
  mkStatus p (bytes_transferred s) (pages_transferred s) (dirty_pages_remaining s).

Definition transferred (pages bytes : Z) (s : MigrationStatus) : MigrationStatus :=
  mkStatus (phase s) (wadd 64 (bytes_transferred s) bytes)
    (wadd 64 (pages_transferred s) pages) (dirty_pages_remaining s).

Definition with_dirty (total : Z) (s : MigrationStatus) : MigrationStatus :=
  mkStatus (phase s) (bytes_transferred s) (pages_transferred s) total.

(** ** Lists of pages *)

Definition page_buffer_len (page_count : Z) : result MigrateError Z :=
  if (page_count =? 0) || (MAX_PAGES_PER_BATCH <? page_count)
  then Err (Codec "invalid page count")
  else ok_or (checked_mul 64 page_count PAGE_SIZE) (Codec "page byte count overflow").

(** [i * PAGE_SIZE] past [base_gpa], checked. *)
Definition nth_gpa (base_gpa : Z) (i : nat) : result MigrateError Z :=
  let? offset := ok_or (checked_mul 64 (Z.of_nat i) PAGE_SIZE) (Codec "page GPA offset overflow") in
  ok_or (checked_add 64 base_gpa offset) (Codec "page GPA overflow").

Fixpoint contiguous_loop (base_gpa : Z) (idx : list nat) : result MigrateError (list Z) :=
  match idx with
  | [] => Ok []
  | i :: idx =>
      let? gpa := nth_gpa base_gpa i in
      let? gpas := contiguous_loop base_gpa idx in
      Ok (gpa :: gpas)
  end.

Definition build_contiguous_gpas (base_gpa : Z) (page_count : nat) :
    result MigrateError (list Z) :=
  let? _len := page_buffer_len (Z.of_nat page_count) in
  contiguous_loop base_gpa (seq 0 page_count).

Definition are_contiguous (gpas : list Z) : bool :=
  match gpas with
  | [] => false
  | base_gpa :: _ =>
      forallb (fun '(i, gpa) =>
        bool_decide ((let* offset := checked_mul 64 (Z.of_nat i) PAGE_SIZE in
                      checked_add 64 base_gpa offset) = Some gpa))
        (zip (seq 0 (length gpas)) gpas)
  end.

Definition PAGE : nat := Z.to_nat PAGE_SIZE.

(** [slice::as_chunks::<PAGE_SIZE>().0]. *)
Definition as_chunks (raw : list Z) : list (list Z) :=
  (fun i => take PAGE (drop (i * PAGE) raw)) <$> seq 0 (length raw / PAGE).

(** ** Applying a batch *)

(** [zstd::bulk]; the second argument of [zstd_decompress] bounds the output. *)
Class Zstd : Type := {
  zstd_compress : list Z -> option (list Z);
  zstd_decompress : list Z -> Z -> option (list Z)
}.

Definition page_unmapped : MigrateError := Io "guest memory write: page is not mapped".
Definition page_refused : MigrateError := Io "guest memory write".

(** The check of every page before the first write. *)
Fixpoint preflight (pm : physmap.PhysMap) (gm : hostmem) (gpas : list Z) :
    result MigrateError unit :=
  match gpas with
  | [] => Ok tt
  | gpa :: gpas =>
      let? sub := ok_or (mem_lookup pm gpa PAGE_SIZE) page_unmapped in
      match write_bytes gm sub [] with
      | Err _ => Err page_refused
      | Ok _ => preflight pm gm gpas
      end
  end.

(** The write loop: the memory it leaves, and whether it got through. *)
Fixpoint write_pages (pm : physmap.PhysMap) (gm : hostmem) (l : list (Z * list Z)) :
    hostmem * result MigrateError unit :=
  match l with
  | [] => (gm, Ok tt)
  | (gpa, page) :: l =>
      match mem_write pm gm gpa page with
      | Err _ => (gm, Err page_refused)
      | Ok gm => write_pages pm gm l
      end
  end.

Section apply.
Context `{Zstd}.

(** The pages of a batch as raw bytes. *)
Definition unpack (flags : Z) (data : list Z) (expected : Z) : result MigrateError (list Z) :=
  let? raw :=
    (if negb (Z.land flags PAGE_BATCH_FLAG_ZSTD =? 0) then
       if MAX_BATCH_COMPRESSED_BYTES <? Z.of_nat (length data)
       then Err (Codec "compressed PageBatch too large")
       else ok_or (zstd_decompress data expected) (Codec "zstd decompress")
     else
       if negb (Z.of_nat (length data) =? expected)
       then Err (Codec "PageBatch size mismatch")
       else Ok data) in
  if negb (Z.of_nat (length raw) =? expected) then Err (Codec "PageBatch size mismatch")
  else Ok raw.

(** Where the pages of a batch go. *)
Definition batch_gpas (base_gpa page_count : Z) (sparse : option (list Z)) :
    result MigrateError (list Z) :=
  match sparse with
  | Some gpas =>
      if negb (Z.of_nat (length gpas) =? page_count)
      then Err (Codec "sparse GPA count mismatch")
      else Ok gpas
  | None => build_contiguous_gpas base_gpa (Z.to_nat page_count)
  end.

(** The checks of [apply_page_batch]: the pages to write, or why not. *)
Definition batch_pages (pm : physmap.PhysMap) (gm : hostmem)
    (base_gpa page_count flags : Z) (data : list Z) (sparse : option (list Z)) :
    result MigrateError (list (Z * list Z)) :=
  if (page_count =? 0) || (MAX_PAGES_PER_BATCH <? page_count)
  then Err (Codec "invalid PageBatch page count")
  else if negb (Z.land flags (Z.lxor PAGE_BATCH_FLAG_ZSTD (2 ^ 32 - 1)) =? 0)
  then Err (Codec "unknown PageBatch flags")
  else
    let? expected := ok_or (checked_mul 64 page_count PAGE_SIZE)
                       (Codec "PageBatch byte count overflow") in
    let? raw := unpack flags data expected in
    let? gpas := batch_gpas base_gpa page_count sparse in
    let? _ok := preflight pm gm gpas in
    Ok (zip gpas (as_chunks raw)).

Definition apply_page_batch (pm : physmap.PhysMap)
    (base_gpa page_count flags : Z) (data : list Z) (sparse : option (list Z))
    (m : hostmem * MigrationStatus) : (hostmem * MigrationStatus) * result MigrateError unit :=
  let '(gm, st) := m in
  match batch_pages pm gm base_gpa page_count flags data sparse with
  | Err e => ((gm, st), Err e)
  | Ok l =>
      match write_pages pm gm l with
      | (gm, Err e) => ((gm, st), Err e)
      | (gm, Ok _) => ((gm, transferred page_count (page_count * PAGE_SIZE) st), Ok tt)
      end
  end.

(** [compress]: the data to send and its flags. *)
Definition compress (raw : list Z) : list Z * Z :=
  match zstd_compress raw with
  | Some c => if (length c <? length raw)%nat then (c, PAGE_BATCH_FLAG_ZSTD) else (raw, 0)
  | None => (raw, 0)
  end.

End apply.

(** ** The dirty bitmap *)

Definition div_ceil (x y : Z) : Z := (x + y - 1) / y.

Definition bitmap_size (region_len : Z) : Z := div_ceil (div_ceil region_len PAGE_SIZE) 8.

(** Whether a bit of the map is set; a bit past its end is not. *)
Definition bit_at (bitmap : list Z) (bit : nat) : bool :=
  match bitmap !! (bit / 8)%nat with
  | Some byte => Z.testbit byte (Z.of_nat (bit mod 8))
  | None => false
  end.

(** [PageIter]: the pages whose bit is set, lowest first. *)
Definition page_iter (bitmap : list Z) (base_gpa region_len : Z) : list Z :=
  omap (fun bit : nat =>
    if bit_at bitmap bit
    then Some (wadd 64 base_gpa (wmul 64 (Z.of_nat bit) PAGE_SIZE))
    else None) (seq 0 (Z.to_nat (region_len / PAGE_SIZE))).

Definition DIRTY_CHUNK : Z := 8 * PAGE_SIZE * 8 * PAGE_SIZE.

Record DirtyChunk : Type := mkChunk { dc_gpa : Z; dc_len : Z; dc_lo : Z; dc_hi : Z }.

(** The loop of [dirty_chunks]; each turn covers [DIRTY_CHUNK] bytes. *)
Fixpoint chunk_loop (fuel : nat) (gpa e bit_off : Z) : list DirtyChunk :=
  match fuel with
  | O => []
  | S fuel =>
      if gpa <? e then
        let chunk_len := Z.min DIRTY_CHUNK (wsub 64 e gpa) in
        let bit_len := div_ceil (chunk_len / PAGE_SIZE) 8 in
        mkChunk gpa chunk_len bit_off (wadd 64 bit_off bit_len) ::
          chunk_loop fuel (wadd 64 gpa chunk_len) e
            (wadd 64 bit_off (DIRTY_CHUNK / PAGE_SIZE / 8))
      else []
  end.

Definition dirty_chunks (start_gpa len bitmap_len : Z) : result ErrorKind (list DirtyChunk) :=
  if negb (is_multiple_of start_gpa PAGE_SIZE) || negb (is_multiple_of len PAGE_SIZE)
  then Err InvalidInput
  else
    let? e := ok_or (checked_add 64 start_gpa len) InvalidInput in
    let pages := len / PAGE_SIZE in
    let required := div_ceil pages 8 in
    if bitmap_len <? required then Err InvalidInput
    else Ok (chunk_loop (Z.to_nat (div_ceil len DIRTY_CHUNK)) start_gpa e 0).

(** ** A batch is applied whole or not at all *)

(** The memory after writing a list of pages, in order. *)
Definition poke_pages (gm : hostmem) (l : list (Z * list Z)) : hostmem :=
  foldl (fun gm '(gpa, page) => poke_range gm gpa page) gm l.

Lemma mem_lookup_view pm gpa len v : mem_lookup pm gpa len = Some v -> s_ptr v = gpa /\ s_len v = len.
Proof.
  unfold mem_lookup, physmap.lookup, subregion. intros Hv.
  repeat (case_match; simplify_eq). done.
Qed.

Lemma preflight_writable pm gm gpas gpa :
  preflight pm gm gpas = Ok tt -> gpa ∈ gpas ->
  exists v, mem_lookup pm gpa PAGE_SIZE = Some v /\ contains (s_prot v) WRITE = true.
Proof.
  induction gpas as [|g gpas IH]; simpl; [by intros _ ?%elem_of_nil|].
  destruct (mem_lookup pm g PAGE_SIZE) as [v|] eqn:Hv; simpl; [|done].
  destruct (write_bytes gm v []) as [gm'|] eqn:Hw; [|done].
  intros Hp [->|Hin]%elem_of_cons; [|by apply IH].
  exists v. split; [done|]. unfold write_bytes in Hw. by destruct (contains (s_prot v) WRITE).
Qed.

(** The protection does not depend on memory, so the check holds later. *)
Lemma mem_write_ok pm gm gpa page v :
  mem_lookup pm gpa PAGE_SIZE = Some v -> contains (s_prot v) WRITE = true ->
  Z.of_nat (length page) = PAGE_SIZE -> mem_write pm gm gpa page = Ok (poke_range gm gpa page).
Proof.
  intros Hv Hw Hl. unfold mem_write, write_bytes. rewrite Hl, Hv. simpl ok_or. cbv iota.
  destruct (mem_lookup_view _ _ _ _ Hv) as [-> ->]. by rewrite Hw, Z.ltb_irrefl.
Qed.

Lemma write_pages_ok pm gm0 gpas gm l :
  preflight pm gm0 gpas = Ok tt ->
  Forall (fun '(gpa, page) => gpa ∈ gpas /\ Z.of_nat (length page) = PAGE_SIZE) l ->
  write_pages pm gm l = (poke_pages gm l, Ok tt).
Proof.
  intros Hp Hl. revert gm. induction Hl as [|[gpa page] l [Hg Hlen] _ IH]; intros gm; [done|].
  simpl. destruct (preflight_writable _ _ _ _ Hp Hg) as (v & Hv & Hw).
  by rewrite (mem_write_ok _ _ _ _ v Hv Hw Hlen), IH.
Qed.

Lemma as_chunks_length raw c : c ∈ as_chunks raw -> length c = PAGE.
Proof.
  unfold as_chunks. rewrite list_elem_of_fmap. intros (i & -> & [_ Hi]%elem_of_seq).
  rewrite length_take, length_drop. apply Nat.min_l. rewrite Nat.add_0_l in Hi.
  assert ((i + 1) * PAGE <= length raw)%nat; [|lia].
  transitivity (length raw / PAGE * PAGE)%nat; [apply Nat.mul_le_mono_r; lia|].
  rewrite Nat.mul_comm. by apply Nat.Div0.mul_div_le.
Qed.

Lemma Z_PAGE : Z.of_nat PAGE = PAGE_SIZE.
Proof. done. Qed.

Lemma zip_pages (gpas : list Z) raw :
  Forall (fun '(gpa, page) => gpa ∈ gpas /\ Z.of_nat (length page) = PAGE_SIZE)
    (zip gpas (as_chunks raw)).
Proof.
  apply Forall_forall. intros [gpa page] Hin. split; [by eapply elem_of_zip_l|].
  apply elem_of_zip_r, as_chunks_length in Hin. by rewrite Hin.
Qed.

Lemma length_as_chunks raw : length (as_chunks raw) = (length raw / PAGE)%nat.
Proof. unfold as_chunks. by rewrite length_fmap, length_seq. Qed.

Lemma poke_pages_out gm l a :
  Forall (fun '(gpa, page) => a < gpa \/ gpa + Z.of_nat (length page) <= a) l ->
  peek (poke_pages gm l) a = peek gm a.
Proof.
  intros Hl. revert gm. induction Hl as [|[gpa page] l Ha _ IH]; intros gm; [done|].
  simpl. rewrite IH. by apply peek_poke_out.
Qed.

(** A page that no later one overlaps stays as it was written. *)
Lemma poke_pages_in gm l i gpa page :
  l !! i = Some (gpa, page) ->
  (forall j gpa' page', (i < j)%nat -> l !! j = Some (gpa', page') ->
     gpa' + Z.of_nat (length page') <= gpa \/ gpa + Z.of_nat (length page) <= gpa') ->
  peek_range (poke_pages gm l) gpa (length page) = page.
Proof.
  revert gm i. induction l as [|[g p] l IH]; intros gm i Hi Hlater; [done|].
  destruct i as [|i]; simpl in *; simplify_eq.
  - etransitivity; [|apply (peek_range_poke_same gm gpa page)].
    apply peek_range_ext. intros k Hk. apply poke_pages_out, Forall_forall.
    intros [g p] [j Hj]%list_elem_of_lookup. destruct (Hlater (S j) g p) as [?|?]; [lia|done|lia..].
  - apply (IH _ i); [done|]. intros j g' p' Hij Hj. apply (Hlater (S j) g' p'); [lia|done].
Qed.

Lemma contiguous_loop_Ok base_gpa idx gpas :
  contiguous_loop base_gpa idx = Ok gpas ->
  gpas = (fun i => base_gpa + Z.of_nat i * PAGE_SIZE) <$> idx /\
  Forall (fun i => base_gpa + Z.of_nat i * PAGE_SIZE < 2 ^ 64) idx.
Proof.
  revert gpas. induction idx as [|i idx IH]; intros gpas; simpl; [by intros [= <-]|].
  destruct (nth_gpa base_gpa i) as [g|] eqn:Hg; [|done].
  destruct (contiguous_loop base_gpa idx) as [gs|]; [|done].
  intros [= <-]. destruct (IH gs eq_refl) as [-> HF]. unfold nth_gpa, checked_mul, checked_add in Hg.
  destruct (Z.of_nat i * PAGE_SIZE <? 2 ^ 64); simpl in Hg; [|done].
  destruct (Z.ltb_spec (base_gpa + Z.of_nat i * PAGE_SIZE) (2 ^ 64)); simplify_eq/=.
  split; [done|]. by constructor.
Qed.

Section atomic.
Context `{Zstd}.

Lemma unpack_length flags data expected raw :
  unpack flags data expected = Ok raw -> Z.of_nat (length raw) = expected.
Proof.
  unfold unpack.
  destruct (if negb (Z.land flags PAGE_BATCH_FLAG_ZSTD =? 0) then _ else _) as [raw'|]; [|done].
  destruct (Z.eqb_spec (Z.of_nat (length raw')) expected); simpl; [|done]. by intros [= <-].
Qed.

Lemma batch_gpas_length base_gpa page_count sparse gpas :
  0 <= page_count -> batch_gpas base_gpa page_count sparse = Ok gpas ->
  Z.of_nat (length gpas) = page_count.
Proof.
  intros Hc. unfold batch_gpas. destruct sparse as [l|].
  - destruct (Z.eqb_spec (Z.of_nat (length l)) page_count); simpl; [|done]. by intros [= <-].
  - unfold build_contiguous_gpas. destruct (page_buffer_len _); [|done].
    intros [-> _]%contiguous_loop_Ok. rewrite length_fmap, length_seq. lia.
Qed.

Lemma chunk_count raw n :
  0 <= n -> Z.of_nat (length raw) = n * PAGE_SIZE -> length (as_chunks raw) = Z.to_nat n.
Proof.
  intros Hn Hl. rewrite length_as_chunks.
  assert (length raw = Z.to_nat n * PAGE)%nat as ->.
  { apply Nat2Z.inj. rewrite Hl, Nat2Z.inj_mul, Z_PAGE, Z2Nat.id by done. done. }
  apply Nat.div_mul. by vm_compute.
Qed.

Lemma batch_pages_preflight pm gm base_gpa page_count flags data sparse l :
  batch_pages pm gm base_gpa page_count flags data sparse = Ok l ->
  exists gpas raw, unpack flags data (page_count * PAGE_SIZE) = Ok raw /\
    batch_gpas base_gpa page_count sparse = Ok gpas /\
    preflight pm gm gpas = Ok tt /\ l = zip gpas (as_chunks raw).
Proof.
  unfold batch_pages, checked_mul. destruct (_ || _); [done|]. destruct (negb _); [done|].
  destruct (page_count * PAGE_SIZE <? 2 ^ 64); simpl; [|done].
  destruct (unpack _ _ _) as [raw|] eqn:Hu; [|done].
  destruct (batch_gpas _ _ _) as [gpas|] eqn:Hg; [|done].
  destruct (preflight _ _ _) as [[]|] eqn:Hp; [|done]. intros [= <-]. eauto 10.
Qed.

(** The whole result of a batch: refused with memory and counters as they
    were, or every page written where it belongs. *)
Lemma apply_page_batch_spec pm base_gpa page_count flags data sparse gm st m r :
  apply_page_batch pm base_gpa page_count flags data sparse (gm, st) = (m, r) ->
  (exists e, r = Err e /\ m = (gm, st)) \/
  exists gpas raw, r = Ok tt /\
    unpack flags data (page_count * PAGE_SIZE) = Ok raw /\
    batch_gpas base_gpa page_count sparse = Ok gpas /\
    m = (poke_pages gm (zip gpas (as_chunks raw)),
         transferred page_count (page_count * PAGE_SIZE) st).
Proof.
  unfold apply_page_batch. destruct (batch_pages _ _ _ _ _ _ _) as [l|e] eqn:Hb; [|naive_solver].
  apply batch_pages_preflight in Hb as (gpas & raw & Hu & Hg & Hp & ->).
  rewrite (write_pages_ok pm gm gpas) by (done || apply zip_pages). intros [= <- <-]. naive_solver.
Qed.

(** What an accepted batch leaves: pages where they belong, the rest alone. *)
Definition batch_applied (gpas : list Z) (pages : list (list Z)) (gm gm' : hostmem) : Prop :=
  length gpas = length pages /\
  (forall a, (forall g, g ∈ gpas -> a < g \/ g + PAGE_SIZE <= a) -> peek gm' a = peek gm a) /\
  (forall i g, gpas !! i = Some g ->
     (forall j h, (i < j)%nat -> gpas !! j = Some h -> h + PAGE_SIZE <= g \/ g + PAGE_SIZE <= h) ->
     pages !! i = Some (peek_range gm' g PAGE)).

Lemma poke_pages_applied gm gpas raw :
  length gpas = length (as_chunks raw) ->
  batch_applied gpas (as_chunks raw) gm (poke_pages gm (zip gpas (as_chunks raw))).
Proof.
  intros Hlen. pose proof (zip_pages gpas raw) as Hz. rewrite Forall_forall in Hz.
  split_and!; [done| |].
  - intros a Ha. apply poke_pages_out, Forall_forall. intros [g p] Hin.
    destruct (Hz _ Hin) as [Hg ->]. by apply Ha.
  - intros i g Hi Hlater. destruct (lookup_lt_is_Some_2 (as_chunks raw) i) as [p Hp].
    { rewrite <- Hlen. by eapply lookup_lt_Some. }
    rewrite Hp. f_equal. assert (length p = PAGE) as Hpl.
    { apply (as_chunks_length raw). by eapply list_elem_of_lookup_2. }
    rewrite <- Hpl. symmetry. apply (poke_pages_in _ _ i).
    { by apply lookup_zip_Some. }
    intros j h q Hij Hj. pose proof (Hz _ (list_elem_of_lookup_2 _ _ _ Hj)) as [_ ->].
    apply lookup_zip_Some in Hj as [Hj _]. rewrite Hpl, Z_PAGE. by apply (Hlater j h).
Qed.

(** C14: a batch is applied whole or not at all. Whatever the peer sends, a batch
    that is refused, for a page that is not mapped, is read-only, or for any
    other reason, leaves guest memory and the counters untouched; an accepted
    one writes each of its pages where it belongs and nothing else. *)
Theorem apply_page_batch_atomic pm base_gpa page_count flags data sparse gm st gm' st' r :
  apply_page_batch pm base_gpa page_count flags data sparse (gm, st) = ((gm', st'), r) ->
  0 <= page_count ->
  match r with
  | Err _ => gm' = gm /\ st' = st
  | Ok _ => exists gpas raw,
      unpack flags data (page_count * PAGE_SIZE) = Ok raw /\
      batch_gpas base_gpa page_count sparse = Ok gpas /\
      batch_applied gpas (as_chunks raw) gm gm'
  end.
Proof.
  intros Ha Hc. apply apply_page_batch_spec in Ha as [(e & -> & [= -> ->])|Ha]; [done|].
  destruct Ha as (gpas & raw & -> & Hu & Hg & [= -> _]). exists gpas, raw. split_and!; [done..|].
  apply poke_pages_applied. apply Nat2Z.inj. rewrite (batch_gpas_length _ _ _ _ Hc Hg).
  rewrite (chunk_count raw page_count) by (done || by apply (unpack_length flags data)). lia.
Qed.

End atomic.

(** ** One page of RAM *)

Definition one_page : physmap.PhysMap :=
  (physmap.add_ram physmap.physmap_new 0 4096 (Ok tt)
     (physmap.mkAnswers (Ok 0x10000) (Ok tt) (Ok 0) (Ok 0x20000) (Ok tt))).1.

(** A compressor that never helps. *)
#[export] Instance no_zstd : Zstd := {|
  zstd_compress := fun _ => None; zstd_decompress := fun _ _ => None |}.

Definition sevens : list Z := replicate PAGE 7.

Definition sevens_applied : (hostmem * MigrationStatus) * result MigrateError unit :=
  apply_page_batch one_page 0 1 0 sevens None (∅, status_new).

Lemma apply_page_batch_atomic_witness :
  exists gpas raw,
    unpack 0 sevens (1 * PAGE_SIZE) = Ok raw /\ batch_gpas 0 1 None = Ok gpas /\
    batch_applied gpas (as_chunks raw) ∅ sevens_applied.1.1.
Proof.
  apply (apply_page_batch_atomic one_page 0 1 0 sevens None ∅ status_new
           sevens_applied.1.1 sevens_applied.1.2 (Ok tt)); [|done].
  assert (Hr : sevens_applied.2 = Ok tt) by (vm_compute; reflexivity).
  rewrite <- Hr. change (apply_page_batch _ _ _ _ _ _ _) with sevens_applied.
  by destruct sevens_applied as [[]].
Defined.

End pages.
