(* ===== verification/MigProg.v ===== *)
(** * The two ends of a migration

    [crates/vmm-migrate/src/source.rs], [destination.rs], [wire.rs] and
    [cpu.rs] as programs over their effects: a tree whose nodes are the
    calls that reach outside the two files (the WebSocket, guest memory, the
    kernel's dirty log, the VM handle, the device hooks, the kernel state of
    [state.rs]) and whose branches are the answers. Log output is left out,
    and so are the values spliced into error texts. The mutexes guard the
    status only; a poisoned one cannot occur, because a panic aborts. *)

From Stdlib Require Import String FunctionalExtensionality.
From stdpp Require Import strings pretty.
From S2P Require Import Prelude Mapping PhysMap MigCodec MigPages.

Module prog.
Import mapping codec pages.

(** ** Data on the wire *)

Record WireBdf : Type := mkBdf { bus : Z; dev : Z; func : Z }.

#[export] Instance WireBdf_eq_dec : EqDecision WireBdf.
Proof. solve_decision. Defined.

Record DeviceIdentity : Type := mkIdent { id_bdf : WireBdf; id_kind : string }.

Record CpuFeatures : Type := mkFeatures {
  leaf1_ecx : Z;
  leaf1_edx : Z;
  leaf7_ebx : Z;
  leaf7_ecx : Z;
  leaf7_edx : Z;
  xcr0 : Z
}.

#[export] Instance CpuFeatures_eq_dec : EqDecision CpuFeatures.
Proof. solve_decision. Defined.

Record MigrationPreamble : Type := mkPreamble {
  pre_num_cpus : Z;
  pre_mem_size : Z;
  pre_devices : list DeviceIdentity;
  pre_cpu_features : option CpuFeatures
}.

Record VcpuStatePayload : Type := mkVcpu {
  vcpuid : Z;
  registers : list Z;
  msrs : list Z;
  fpu : list Z;
  lapic : list Z;
  vmm_arch : list Z;
  run_state : Z;
  sipi_vector : Z
}.

Record DevicePayload : Type := mkDevice {
  dp_name : string;
  dp_class : Z;
  dp_version : Z;
  dp_data : list Z
}.

Record TimeData : Type := mkTime { vmm_time : list Z }.

Record ProtocolOffer : Type := mkOffer { protocols : list string }.

Record ProtocolSelect : Type := mkSelect { protocol : string }.

Definition PROTOCOL_RON : string := "vmm-migrate-ron/2".
Definition ZFS_BARRIER_OK : Z := 0.

Section prog.

(** The devices' own state and the Hyper-V state are not looked into. *)
Context {DevState HvState : Type}.

Record DeviceStatePayload : Type := mkPayload { dsp_bdf : WireBdf; dsp_state : option DevState }.

Record DeviceState : Type := mkDevState {
  ds_vcpus : list VcpuStatePayload;
  ds_devices : list DevicePayload;
  ds_emulated : list DeviceStatePayload;
  ds_hyperv : option HvState
}.

(** ** Effects *)

Inductive eff : Type -> Type :=
| ESend (frame : list Z) : eff (result unit unit)
| ERecv : eff (result unit ws_message)
| EDeadline : eff (result unit unit)
| EClose : eff unit
| EStatus (f : MigrationStatus -> MigrationStatus) : eff unit
| EGetPhase : eff MigrationPhase
| EApply (X : Type) (f : hostmem * MigrationStatus -> (hostmem * MigrationStatus) * X) : eff X
| ERead (gpa : Z) (n : nat) : eff (list Z)
| ETrack (gpa len : Z) : eff (result unit (list Z))
| ESleep : eff unit
| EPrePause : eff (result unit unit)
| EPause : eff (result unit unit)
| EResume : eff (result unit unit)
| EDevResume : eff unit
| EFlush : eff (result unit unit)
| EBarrierConnect : eff (result unit unit)
| EBarrierTimeout : eff (result unit unit)
| EBarrierRead : eff (result unit Z)
| EHypervExport : eff (option HvState)
| EHypervRestore (hv : HvState) : eff bool
| EExportTime : eff (result MigrateError TimeData)
| EImportTime (td : TimeData) : eff (result MigrateError unit)
| EExportState : eff (result MigrateError DeviceState)
| EExportDevices : eff (result unit (list DeviceStatePayload))
| EImportState (ds : DeviceState) : eff (result MigrateError unit)
| ERestore (bdf : WireBdf) (st : DevState) : eff (result unit unit).

(** [Stop] is where a loop ran out of fuel. *)
Inductive prog (A : Type) : Type :=
| Ret (a : A)
| Stop
| Act {X : Type} (e : eff X) (k : X -> prog A).
#[global] Arguments Ret {A} a.
#[global] Arguments Stop {A}.
#[global] Arguments Act {A X} e k.

Fixpoint bind {A B} (p : prog A) (f : A -> prog B) : prog B :=
  match p with
  | Ret a => f a
  | Stop => Stop
  | Act e k => Act e (fun x => bind (k x) f)
  end.

Definition act {X} (e : eff X) : prog X := Act e Ret.

(** A [Result] and its [?]. *)
Abbreviation res A := (result MigrateError A).

Definition bindr {A B} (p : prog (res A)) (f : A -> prog (res B)) : prog (res B) :=
  bind p (fun r => match r with Ok a => f a | Err e => Ret (Err e) end).

Definition map_err {A} (r : result unit A) (e : MigrateError) : res A :=
  match r with Ok a => Ok a | Err _ => Err e end.

Lemma bind_assoc {A B C} (p : prog A) (f : A -> prog B) (g : B -> prog C) :
  bind (bind p f) g = bind p (fun a => bind (f a) g).
Proof.
  induction p as [a| |X e k IH]; simpl; [done..|]. f_equal. extensionality x. apply IH.
Qed.

Lemma bind_bindr {A B C} (p : prog (res A)) (f : A -> prog (res B)) (g : res B -> prog C) :
  bind (bindr p f) g = bind p (fun r => match r with Ok a => bind (f a) g | Err e => g (Err e) end).
Proof. unfold bindr. rewrite bind_assoc. f_equal. extensionality r. by destruct r. Qed.

Notation "'do' x := p 'in' k" := (bind p (fun x => k))
  (at level 10, x name, p at level 100, k at level 200).
Notation "'let$' x := p 'in' k" := (bindr p (fun x => k))
  (at level 10, x name, p at level 100, k at level 200).

Context `{Ron MigrateError, Ron (list Z), Zstd}.
Context `{Ron ProtocolOffer, Ron ProtocolSelect, Ron MigrationPreamble, Ron TimeData, Ron DeviceState}.

(** ** The channel *)

Definition send (m : Message) : prog (res unit) :=
  do r := act (ESend (encode m)) in Ret (map_err r (WebSocket "send")).

Definition recv : prog (res Message) :=
  do r := act ERecv in
  Ret (let? frame := map_err r (WebSocket "read") in
       match frame with
       | Binary d => decode (Binary d)
       | Close => Err (WebSocket "closed")
       | OtherFrame => Err (Codec "non-binary frame")
       end).

Definition unexpected (expected : string) (got : Message) : MigrateError :=
  UnexpectedMessage expected (name got).

Definition okay_of (msg : Message) : res unit :=
  match msg with
  | Okay => Ok tt
  | Error e => Err (RemoteError "peer")
  | other => Err (unexpected "Okay" other)
  end.

Definition serialized_of (msg : Message) : res (list Z) :=
  match msg with
  | Serialized d => Ok d
  | Error e => Err (RemoteError "peer")
  | other => Err (unexpected "Serialized" other)
  end.

Definition expect_okay : prog (res unit) :=
  let$ msg := recv in Ret (okay_of msg).

Definition expect_serialized (T : Type) `{Ron T} : prog (res T) :=
  let$ msg := recv in Ret (let? d := serialized_of msg in deserialize d).

Definition expect_mem_done : prog (res unit) :=
  let$ msg := recv in
  Ret (match msg with MemDone => Ok tt | other => Err (unexpected "MemDone" other) end).

Definition send_serialized {T} `{Ron T} (v : T) : prog (res unit) :=
  match serialized v with Ok m => send m | Err e => Ret (Err e) end.

Definition set_phase (p : MigrationPhase) : prog unit := act (EStatus (with_phase p)).

Definition enter_post_pause : prog (res unit) :=
  do r := act EDeadline in Ret (map_err r (Io "shorten read deadline")).

(** The outcome of the send is only logged. *)
Definition report_failure (err : MigrateError) : prog unit :=
  do _r := send (Error err) in Ret tt.

(** ** Sending RAM *)

(** The loop of [read_pages]. *)
Fixpoint read_pages_loop (pm : physmap.PhysMap) (gpas : list Z) : prog (res (list Z)) :=
  match gpas with
  | [] => Ret (Ok [])
  | gpa :: gpas =>
      match mem_read_view pm gpa PAGE with
      | Err _ => Ret (Err (Io "guest memory read"))
      | Ok _ =>
          do page := act (ERead gpa PAGE) in
          let$ rest := read_pages_loop pm gpas in
          Ret (Ok (page ++ rest))
      end
  end.

(** [read_pages] into a buffer of [buf_len] bytes. *)
Definition read_pages (pm : physmap.PhysMap) (gpas : list Z) (buf_len : Z) : prog (res (list Z)) :=
  match page_buffer_len (Z.of_nat (length gpas)) with
  | Err e => Ret (Err e)
  | Ok expected =>
      if negb (buf_len =? expected) then Ret (Err (Codec "page read buffer size mismatch"))
      else read_pages_loop pm gpas
  end.

Definition page_count (count : nat) : res Z :=
  if Z.of_nat count <? 2 ^ 32 then Ok (Z.of_nat count) else Err (Codec "invalid page count").

(** Compress a buffer, send it and count it. *)
Definition send_pages (base_gpa : Z) (count : nat) (raw_size : Z) (buf : list Z)
    (fetch : option (list Z)) : prog (res unit) :=
  let '(data, flags) := compress buf in
  let$ _f := match fetch with Some gpas => send (MemFetch gpas) | None => Ret (Ok tt) end in
  let$ n := Ret (page_count count) in
  let$ _s := send (PageBatch base_gpa n flags data) in
  do _u := act (EStatus (transferred (Z.of_nat count) raw_size)) in
  Ret (Ok tt).

Definition send_batch (pm : physmap.PhysMap) (base_gpa : Z) (count : nat) : prog (res unit) :=
  let$ raw_size := Ret (page_buffer_len (Z.of_nat count)) in
  let$ gpas := Ret (build_contiguous_gpas base_gpa count) in
  let$ buf := read_pages pm gpas raw_size in
  send_pages base_gpa count raw_size buf None.

Definition send_batch_sparse (pm : physmap.PhysMap) (gpas : list Z) : prog (res unit) :=
  match gpas with
  | [] => Ret (Ok tt)
  | base :: _ =>
      if are_contiguous gpas then send_batch pm base (length gpas)
      else
        let$ raw_size := Ret (page_buffer_len (Z.of_nat (length gpas))) in
        let$ buf := read_pages pm gpas raw_size in
        send_pages base (length gpas) raw_size buf (Some gpas)
  end.

(** [bitmap[lo..hi]] after the kernel filled it. *)
Definition splice (bm : list Z) (lo : Z) (bits : list Z) : list Z :=
  take (Z.to_nat lo) bm ++ bits ++ drop (Z.to_nat lo + length bits) bm.

Fixpoint track_chunks (chunks : list DirtyChunk) (bm : list Z) : prog (result unit (list Z)) :=
  match chunks with
  | [] => Ret (Ok bm)
  | c :: chunks =>
      do r := act (ETrack (dc_gpa c) (dc_len c)) in
      match r with
      | Err e => Ret (Err e)
      | Ok bits => track_chunks chunks (splice bm (dc_lo c) bits)
      end
  end.

(** [VmmHdl::track_dirty_pages] into a bitmap of zeros. *)
Definition track_dirty_pages (gpa len : Z) : prog (result unit (list Z)) :=
  let bm := replicate (Z.to_nat (bitmap_size len)) 0 in
  match dirty_chunks gpa len (Z.of_nat (length bm)) with
  | Err _ => Ret (Err tt)
  | Ok chunks => track_chunks chunks bm
  end.

(** The [while off < num_pages] loop; every turn sends a page at least. *)
Fixpoint push_all_loop (fuel : nat) (pm : physmap.PhysMap) (gpa : Z) (num_pages off : nat) :
    prog (res unit) :=
  match fuel with
  | O => Stop
  | S fuel =>
      if (off <? num_pages)%nat then
        let count := Nat.min BATCH_SIZE (num_pages - off) in
        let base := wadd 64 gpa (wmul 64 (Z.of_nat off) PAGE_SIZE) in
        let$ _s := send_batch pm base count in
        push_all_loop fuel pm gpa num_pages (off + count)
      else Ret (Ok tt)
  end.

Fixpoint push_all_regions (pm : physmap.PhysMap) (rs : list (Z * Z * physmap.RegionKind)) :
    prog (res unit) :=
  match rs with
  | [] => Ret (Ok tt)
  | (gpa, len, physmap.Ram) :: rs =>
      do r := track_dirty_pages gpa len in
      let$ _bm := Ret (map_err r (Io "dirty tracking unavailable")) in
      let num_pages := Z.to_nat (len / PAGE_SIZE) in
      let$ _p := push_all_loop (S num_pages) pm gpa num_pages 0 in
      push_all_regions pm rs
  | _ :: rs => push_all_regions pm rs
  end.

Definition push_ram_all (pm : physmap.PhysMap) : prog (res unit) :=
  let$ _p := push_all_regions pm (physmap.region_list pm) in
  let$ _e := send MemEnd in
  expect_mem_done.

(** The loop over the dirty pages of one region. *)
Fixpoint push_dirty (pm : physmap.PhysMap) (batch gpas : list Z) : prog (res unit) :=
  match gpas with
  | [] => match batch with [] => Ret (Ok tt) | _ => send_batch_sparse pm batch end
  | gpa :: gpas =>
      let batch := batch ++ [gpa] in
      if (BATCH_SIZE <=? length batch)%nat then
        let$ _s := send_batch_sparse pm batch in
        push_dirty pm [] gpas
      else push_dirty pm batch gpas
  end.

Fixpoint push_regions (pm : physmap.PhysMap) (rs : list (Z * Z * physmap.RegionKind)) (total : Z) :
    prog (res Z) :=
  match rs with
  | [] => Ret (Ok total)
  | (gpa, len, physmap.Ram) :: rs =>
      do r := track_dirty_pages gpa len in
      let$ bm := Ret (map_err r (Io "track_dirty")) in
      let dirty := page_iter bm gpa len in
      let$ _p := push_dirty pm [] dirty in
      push_regions pm rs (wadd 64 total (Z.of_nat (length dirty)))
  | _ :: rs => push_regions pm rs total
  end.

Definition push_ram (pm : physmap.PhysMap) : prog (res Z) :=
  let$ total := push_regions pm (physmap.region_list pm) 0 in
  do _u := act (EStatus (with_dirty total)) in
  let$ _e := send MemEnd in
  let$ _d := expect_mem_done in
  Ret (Ok total).

(** ** The source *)

Record SourceConfig : Type := mkSource {
  src_num_cpus : Z;
  src_mem_size : Z;
  src_features : CpuFeatures;
  src_devices : list DeviceIdentity;
  src_zfs_barrier : bool
}.

(** [slice::sort] by an order given as [<=]. *)
Fixpoint insert_by {A} (le : A -> A -> bool) (x : A) (l : list A) : list A :=
  match l with
  | [] => [x]
  | y :: l => if le x y then x :: y :: l else y :: insert_by le x l
  end.

Definition sort_by {A} (le : A -> A -> bool) (l : list A) : list A := foldr (insert_by le) [] l.

(** The derived order of [WireBdf] and [DeviceIdentity]: field by field. *)
Definition then_cmp (c d : comparison) : comparison := match c with Eq => d | _ => c end.

Definition ident_cmp (a b : DeviceIdentity) : comparison :=
  let x := id_bdf a in let y := id_bdf b in
  then_cmp (bus x ?= bus y) (then_cmp (dev x ?= dev y) (then_cmp (func x ?= func y)
    (String.compare (id_kind a) (id_kind b)))).

Definition ident_le (a b : DeviceIdentity) : bool :=
  match ident_cmp a b with Gt => false | _ => true end.

Definition MAX_ITERS : nat := 5.
Definition CONVERGE_THRESHOLD : Z := 1024.

Fixpoint converge (iters : nat) (pm : physmap.PhysMap) : prog (res unit) :=
  match iters with
  | O => Ret (Ok tt)
  | S iters =>
      do _s := act ESleep in
      let$ dirty := push_ram pm in
      if dirty <=? CONVERGE_THRESHOLD then Ret (Ok tt) else converge iters pm
  end.

Definition zfs_barrier_wait : prog (res unit) :=
  do c := act EBarrierConnect in
  let$ _c := Ret (map_err c (Io "ZFS barrier connect failed")) in
  do t := act EBarrierTimeout in
  let$ _t := Ret (map_err t (Io "ZFS barrier read timeout")) in
  do s := act EBarrierRead in
  let$ status := Ret (map_err s (Io "ZFS barrier reported nothing")) in
  Ret (if negb (status =? ZFS_BARRIER_OK) then Err (Io "ZFS barrier reported failure") else Ok tt).

(** [run_inner] up to the end of the pre-pause passes. *)
Definition source_push (pm : physmap.PhysMap) (config : SourceConfig) : prog (res unit) :=
  do _p := set_phase Sync in
  let$ _o := send_serialized (mkOffer [PROTOCOL_RON]) in
  let$ sel := expect_serialized ProtocolSelect in
  if negb (String.eqb (protocol sel) PROTOCOL_RON) then Ret (Err (ProtocolMismatch "peer"))
  else
    let$ _s := send_serialized (mkPreamble (src_num_cpus config) (src_mem_size config)
                 (sort_by ident_le (src_devices config)) (Some (src_features config))) in
    let$ _k := expect_okay in
    do _q := set_phase RamPushPrePause in
    let$ _a := push_ram_all pm in
    let$ _c := converge MAX_ITERS pm in
    send PauseSignal.

(** From the pause to the end of the final pass. *)
Definition source_pause (pm : physmap.PhysMap) (config : SourceConfig) :
    prog (res (option HvState)) :=
  do _p := set_phase Pause in
  let$ _d := enter_post_pause in
  do r := act EPrePause in
  let$ _r := Ret (map_err r (State "device pause")) in
  do v := act EPause in
  let$ _v := Ret (map_err v (Io "pause")) in
  do f := act EFlush in
  let$ _f := Ret (map_err f (Io "device flush failed")) in
  let$ _b := (if src_zfs_barrier config then zfs_barrier_wait else Ret (Ok tt)) in
  do hyperv := act EHypervExport in
  do _q := set_phase RamPushPostPause in
  let$ _t := push_ram pm in
  Ret (Ok hyperv).

(** Time data and device state. *)
Definition source_state (hyperv : option HvState) : prog (res unit) :=
  do _p := set_phase PhaseTimeData in
  let$ time_data := act EExportTime in
  let$ _s := send_serialized time_data in
  do _q := set_phase PhaseDeviceState in
  let$ dev_state := act EExportState in
  do e := act EExportDevices in
  let$ emulated := Ret (map_err e (State "device export")) in
  send_serialized (mkDevState (ds_vcpus dev_state) (ds_devices dev_state) emulated hyperv).

(** The hand-over. *)
Definition source_finish : prog (res unit) :=
  do _p := set_phase RamPull in
  let$ _m := send MemEnd in
  do _q := set_phase Finish in
  let$ _k := expect_okay in
  let$ _s := send Okay in
  do _c := set_phase PhaseCommitted in
  do r := expect_okay in
  let$ _r := Ret (match r with Ok _ => Ok tt | Err _ => Err (Committed "never confirmed") end) in
  do _x := act EClose in
  Ret (Ok tt).

Definition source_inner (pm : physmap.PhysMap) (config : SourceConfig) : prog (res unit) :=
  let$ _a := source_push pm config in
  let$ hyperv := source_pause pm config in
  let$ _b := source_state hyperv in
  source_finish.

(** [phase as u8]. *)
Definition phase_u8 (p : MigrationPhase) : Z :=
  match p with
  | Sync => 0
  | RamPushPrePause => 1
  | Pause => 2
  | RamPushPostPause => 3
  | PhaseTimeData => 4
  | PhaseDeviceState => 5
  | RamPull => 6
  | Finish => 7
  | PhaseCommitted => 8
  | PhaseError => 9
  end.

Definition rollback (p : MigrationPhase) : bool :=
  (phase_u8 Pause <=? phase_u8 p) && (phase_u8 p <? phase_u8 PhaseCommitted).

Definition finish_source (r : res unit) (p : MigrationPhase) : prog (res unit) :=
  if negb (is_ok r) && rollback p then
    do _d := act EDevResume in
    do _v := act EResume in
    Ret r
  else Ret r.

Definition run_source (pm : physmap.PhysMap) (config : SourceConfig) : prog (res unit) :=
  do d := act EDeadline in
  let$ _d := Ret (map_err d (Io "set migration read deadline")) in
  do r := source_inner pm config in
  do p := act EGetPhase in
  finish_source r p.

(** ** The destination *)

Record DestConfig : Type := mkDest {
  dst_num_cpus : Z;
  dst_mem_size : Z;
  dst_features : CpuFeatures;
  dst_devices : list DeviceIdentity;
  allow_cpu_feature_mismatch : bool
}.

(** [Display] of a device identity. *)
Definition show_ident (d : DeviceIdentity) : string :=
  id_kind d +:+ "@" +:+ pretty (bus (id_bdf d)) +:+ "." +:+ pretty (dev (id_bdf d)) +:+ "." +:+
    pretty (func (id_bdf d)).

Definition named (set : list DeviceIdentity) : list string := sort_by String.leb (show_ident <$> set).

Definition check_topology (source local : list DeviceIdentity) : res unit :=
  if bool_decide (named source = named local) then Ok tt
  else Err (PreambleMismatch "device set mismatch").

(** Every bit the source has and the destination does not. *)
Definition missing (src dst : CpuFeatures) : CpuFeatures :=
  mkFeatures (Z.ldiff (leaf1_ecx src) (leaf1_ecx dst)) (Z.ldiff (leaf1_edx src) (leaf1_edx dst))
    (Z.ldiff (leaf7_ebx src) (leaf7_ebx dst)) (Z.ldiff (leaf7_ecx src) (leaf7_ecx dst))
    (Z.ldiff (leaf7_edx src) (leaf7_edx dst)) (Z.ldiff (xcr0 src) (xcr0 dst)).

Definition missing_is_empty (m : CpuFeatures) : bool :=
  bool_decide (m = mkFeatures 0 0 0 0 0 0).

Definition check_preamble (preamble : MigrationPreamble) (config : DestConfig) : res unit :=
  if negb (pre_num_cpus preamble =? dst_num_cpus config)
  then Err (PreambleMismatch "CPU count mismatch")
  else if negb (pre_mem_size preamble =? dst_mem_size config)
  then Err (PreambleMismatch "memory size mismatch")
  else
    let? _t := check_topology (pre_devices preamble) (dst_devices config) in
    match pre_cpu_features preamble with
    | None => Err (PreambleMismatch "source sent no CPU feature table")
    | Some src =>
        if missing_is_empty (missing src (dst_features config)) then Ok tt
        else if allow_cpu_feature_mismatch config then Ok tt
        else Err (PreambleMismatch "this host lacks CPU features the guest already sees")
    end.

(** The first loop of [restore_devices]: the addresses seen. *)
Fixpoint check_entries (expected seen : list WireBdf) (entries : list DeviceStatePayload) :
    res (list WireBdf) :=
  match entries with
  | [] => Ok seen
  | entry :: entries =>
      if negb (bool_decide (dsp_bdf entry ∈ expected)) then Err (State "payload for no device")
      else if bool_decide (dsp_bdf entry ∈ seen) then Err (State "payload carries two states")
      else check_entries expected (dsp_bdf entry :: seen) entries
  end.

Fixpoint restore_entries (entries : list DeviceStatePayload) : prog (res unit) :=
  match entries with
  | [] => Ret (Ok tt)
  | entry :: entries =>
      match dsp_state entry with
      | None => restore_entries entries
      | Some state =>
          do r := act (ERestore (dsp_bdf entry) state) in
          let$ _r := Ret (map_err r (State "restore")) in
          restore_entries entries
      end
  end.

Definition restore_devices (dev_state : DeviceState) (config : DestConfig) : prog (res unit) :=
  let expected := id_bdf <$> dst_devices config in
  let$ seen := Ret (check_entries expected [] (ds_emulated dev_state)) in
  if existsb (fun bdf => negb (bool_decide (bdf ∈ seen))) expected
  then Ret (Err (State "payload carries no entry"))
  else
    let$ _h := match ds_hyperv dev_state with
               | None => Ret (Ok tt)
               | Some hv =>
                   do ok := act (EHypervRestore hv) in
                   Ret (if ok then Ok tt else Err (State "not started with --hyperv"))
               end in
    restore_entries (ds_emulated dev_state).

Inductive PassEnd : Type := EndPauseSignal | EndMemEnd.

(** [receive_pass]: one turn of fuel per message. *)
Fixpoint receive_pass (fuel : nat) (pm : physmap.PhysMap) (until : PassEnd)
    (sparse : option (list Z)) : prog (res unit) :=
  match fuel with
  | O => Stop
  | S fuel =>
      let$ msg := recv in
      match msg, sparse, until with
      | PageBatch base_gpa page_count flags data, gpas, _ =>
          let$ _a := act (EApply _ (apply_page_batch pm base_gpa page_count flags data gpas)) in
          receive_pass fuel pm until None
      | MemFetch gpas, None, _ => receive_pass fuel pm until (Some gpas)
      | MemEnd, None, EndMemEnd =>
          let$ _d := send MemDone in Ret (Ok tt)
      | MemEnd, None, EndPauseSignal =>
          let$ _d := send MemDone in receive_pass fuel pm until None
      | PauseSignal, None, EndPauseSignal => Ret (Ok tt)
      | other, Some _, _ => Ret (Err (unexpected "PageBatch following MemFetch" other))
      | other, None, _ => Ret (Err (unexpected "PageBatch/MemFetch/MemEnd/PauseSignal" other))
      end
  end.

(** A failure is reported to the peer and ends the run. *)
Definition or_report {A} (p : prog (res A)) : prog (res A) :=
  do r := p in
  match r with
  | Ok a => Ret (Ok a)
  | Err e => do _r := report_failure e in Ret (Err e)
  end.

Definition dest_sync (config : DestConfig) : prog (res unit) :=
  do _p := set_phase Sync in
  let$ offer := expect_serialized ProtocolOffer in
  if negb (existsb (fun p => String.eqb p PROTOCOL_RON) (protocols offer)) then
    let err := ProtocolMismatch "peer" in
    let$ _e := send (Error err) in Ret (Err err)
  else
    let$ _s := send_serialized (mkSelect PROTOCOL_RON) in
    let$ preamble := expect_serialized MigrationPreamble in
    let$ _c := or_report (Ret (check_preamble preamble config)) in
    send Okay.

(** Both RAM phases. *)
Definition dest_ram (fuel : nat) (pm : physmap.PhysMap) : prog (res unit) :=
  do _p := set_phase RamPushPrePause in
  let$ _r := receive_pass fuel pm EndPauseSignal None in
  do _q := set_phase RamPushPostPause in
  let$ _d := enter_post_pause in
  receive_pass fuel pm EndMemEnd None.

Definition dest_state (config : DestConfig) : prog (res unit) :=
  do v := act EPause in
  let$ _v := Ret (map_err v (Io "pause")) in
  do _p := set_phase PhaseTimeData in
  let$ time_data := expect_serialized TimeData in
  let$ _t := or_report (act (EImportTime time_data)) in
  do _q := set_phase PhaseDeviceState in
  let$ dev_state := expect_serialized DeviceState in
  let$ _r := or_report (restore_devices dev_state config) in
  or_report (act (EImportState dev_state)).

Definition dest_finish : prog (res unit) :=
  do _p := set_phase RamPull in
  let$ msg := recv in
  let$ _m := Ret (match msg with MemEnd => Ok tt | other => Err (unexpected "MemEnd" other) end) in
  do _q := set_phase Finish in
  let$ _s := send Okay in
  let$ _k := expect_okay in
  do _c := set_phase PhaseCommitted in
  do _d := act EDevResume in
  do v := act EResume in
  let$ _v := Ret (map_err v (Io "resume")) in
  let$ _o := send Okay in
  do _x := act EClose in
  Ret (Ok tt).

Definition run_destination (fuel : nat) (pm : physmap.PhysMap) (config : DestConfig) :
    prog (res unit) :=
  do d := act EDeadline in
  let$ _d := Ret (map_err d (Io "set migration read deadline")) in
  let$ _s := dest_sync config in
  let$ _r := dest_ram fuel pm in
  let$ _t := dest_state config in
  dest_finish.

End prog.
End prog.
