(* ===== verification/MigSafe.v ===== *)
(** * One guest, one copy

    The promise of the hand-over in [crates/vmm-migrate/src/source.rs] and
    [destination.rs]: whatever fails and whenever, the guest never runs on
    both hosts. An execution is an interleaving of the two programs'
    events; the network delivers in order what it took, or loses it; every
    other answer is arbitrary. *)

From Stdlib Require Import String.
From S2P Require Import Prelude Mapping PhysMap MigCodec MigPages MigProg.

Module safe.
Import mapping codec pages prog.

Section traces.
Context {DevState HvState : Type}.

Abbreviation eff := (@eff DevState HvState).
Abbreviation prog := (@prog DevState HvState).

(** ** Traces *)

Inductive event : Type :=
| Ev {X : Type} (e : eff X) (x : X).

(** The calls a program makes with the answers it gets, up to any point;
    the result is there when the program ended. *)
Fixpoint runs {A} (p : prog A) (tr : list event) (r : option A) : Prop :=
  match p with
  | Ret a => tr = [] /\ r = Some a
  | Stop => tr = [] /\ r = None
  | Act e k => (tr = [] /\ r = None) \/ exists x tr', tr = Ev e x :: tr' /\ runs (k x) tr' r
  end.

(** ** A monitor that follows one program *)

Section monitor.
Context {St : Type} (next : St -> event -> option St) (good : St -> event -> Prop).

(** Every event of [p] from [st] is good, and [Q] holds where it ends. *)
Fixpoint safe {A} (p : prog A) (st : St) (Q : A -> St -> Prop) : Prop :=
  match p with
  | Ret a => Q a st
  | Stop => True
  | Act e k => forall x,
      match next st (Ev e x) with
      | None => True
      | Some st' => good st (Ev e x) /\ safe (k x) st' Q
      end
  end.

Fixpoint trace_ok (st : St) (tr : list event) : Prop :=
  match tr with
  | [] => True
  | ev :: tr =>
      match next st ev with
      | None => True
      | Some st' => good st ev /\ trace_ok st' tr
      end
  end.

Lemma safe_trace {A} (p : prog A) st Q tr r : safe p st Q -> runs p tr r -> trace_ok st tr.
Proof.
  revert st tr. induction p as [a| |X e k IH]; intros st tr Hs Hr; simpl in *.
  - by destruct Hr as [-> _].
  - by destruct Hr as [-> _].
  - destruct Hr as [[-> _]|(x & tr' & -> & Hr)]; [done|]. simpl. specialize (Hs x).
    destruct (next st (Ev e x)) as [st'|]; [|done]. destruct Hs as [Hg Hs].
    split; [done|]. by apply (IH x).
Qed.

Lemma safe_bind {A B} (p : prog A) (f : A -> prog B) st Q :
  safe p st (fun a st' => safe (f a) st' Q) -> safe (bind p f) st Q.
Proof.
  revert st. induction p as [a| |X e k IH]; intros st Hs; simpl in *; [done..|].
  intros x. specialize (Hs x). destruct (next st (Ev e x)); [|done].
  destruct Hs as [Hg Hs]. split; [done|]. by apply IH.
Qed.

Lemma safe_mono {A} (p : prog A) st (Q Q' : A -> St -> Prop) :
  safe p st Q -> (forall a st', Q a st' -> Q' a st') -> safe p st Q'.
Proof.
  intros Hs Hq. revert st Hs. induction p as [a| |X e k IH]; intros st Hs; simpl in *; [auto|done|].
  intros x. specialize (Hs x). destruct (next st (Ev e x)); [|done].
  destruct Hs as [Hg Hs]. split; [done|]. by apply IH.
Qed.

(** A program whose calls all keep an invariant of the monitor. *)
Context (keeps : forall X, eff X -> Prop) (inv : St -> Prop).
Context (Hkeeps : forall X (e : eff X) x st, keeps X e -> inv st ->
  match next st (Ev e x) with None => True | Some st' => good st (Ev e x) /\ inv st' end).

Fixpoint tame {A} (p : prog A) : Prop :=
  match p with
  | Ret _ | Stop => True
  | Act e k => keeps _ e /\ forall x, tame (k x)
  end.

Lemma tame_safe {A} (p : prog A) st : tame p -> inv st -> safe p st (fun _ => inv).
Proof.
  revert st. induction p as [a| |X e k IH]; intros st Ht Hi; simpl in *; [done..|].
  destruct Ht as [He Ht]. intros x. pose proof (Hkeeps X e x st He Hi) as Hk.
  destruct (next st (Ev e x)); [|done]. destruct Hk as [Hg Hi']. split; [done|]. by apply IH.
Qed.
End monitor.

Lemma tame_bind keeps {A B} (p : prog A) (f : A -> prog B) :
  tame keeps p -> (forall a, tame keeps (f a)) -> tame keeps (bind p f).
Proof.
  intros Hp Hf. induction p as [a| |X e k IH]; simpl in *; [done..|].
  destruct Hp as [He Hp]. split; [done|]. intros x. by apply IH.
Qed.

Lemma tame_bindr keeps {A B} (p : prog (result MigrateError A)) (f : A -> prog (result MigrateError B)) :
  tame keeps p -> (forall a, tame keeps (f a)) -> tame keeps (bindr p f).
Proof. intros Hp Hf. apply tame_bind; [done|]. by intros []. Qed.

Lemma tame_act (keeps : forall X, eff X -> Prop) {X} (e : eff X) : keeps X e -> tame keeps (act e).
Proof. intros He. by split. Qed.

(** ** What the monitors watch *)

(** A frame the peer may take for [Okay]: its tag is that of [Okay]. *)
Definition commit_frame (f : list Z) : bool := bool_decide (last f = Some (tag_u8 TOkay)).

(** The source: whether its vCPUs run, whether it handed over, its status. *)
Record sstate : Type := mkS { s_run : bool; s_comm : bool; s_status : MigrationStatus }.

#[local] Instance phase_eq_dec : EqDecision MigrationPhase.
Proof. solve_decision. Defined.

Definition src_next (st : sstate) (ev : event) : option sstate :=
  match ev with
  | Ev e x =>
      match e in prog.eff X return X -> option sstate with
      | ESend f => fun r =>
          Some (mkS (s_run st) (s_comm st || (is_ok r && commit_frame f)) (s_status st))
      | EPause => fun r =>
          Some (mkS (if is_ok r then false else s_run st) (s_comm st) (s_status st))
      | EResume => fun r =>
          Some (mkS (if is_ok r then true else s_run st) (s_comm st) (s_status st))
      | EStatus f => fun _ => Some (mkS (s_run st) (s_comm st) (f (s_status st)))
      | EGetPhase => fun p => if decide (p = phase (s_status st)) then Some st else None
      | _ => fun _ => Some st
      end x
  end.

(** It hands over only while paused, and never resumes after that. *)
Definition src_good (st : sstate) (ev : event) : Prop :=
  match ev with
  | Ev e _ =>
      match e with
      | ESend f => commit_frame f = true -> s_run st = false
      | EResume => s_comm st = false
      | _ => True
      end
  end.

Definition src_keeps (X : Type) (e : eff X) : Prop :=
  match e with
  | ESend f => commit_frame f = false
  | EPause | EResume | EGetPhase => False
  | _ => True
  end.

Definition src_inv (run comm : bool) (st : sstate) : Prop := s_run st = run /\ s_comm st = comm.

Lemma src_keeps_inv run comm X (e : eff X) x st :
  src_keeps X e -> src_inv run comm st ->
  match src_next st (Ev e x) with
  | None => True
  | Some st' => src_good st (Ev e x) /\ src_inv run comm st'
  end.
Proof.
  intros He [Hr Hc]. destruct e; simpl in *; try done. rewrite He. split; [done|].
  by rewrite andb_false_r, orb_false_r.
Qed.

(** Calls that leave the phase alone too. *)
Definition src_still (X : Type) (e : eff X) : Prop :=
  match e with
  | ESend f => commit_frame f = false
  | EPause | EResume | EGetPhase | EStatus _ => False
  | _ => True
  end.

Lemma src_still_inv p X (e : eff X) x st :
  src_still X e -> phase (s_status st) = p ->
  match src_next st (Ev e x) with
  | None => True
  | Some st' => src_good st (Ev e x) /\ phase (s_status st') = p
  end.
Proof. intros He Hp. destruct e; simpl in *; try done. by rewrite He. Qed.

(** The destination: whether it got the source's word. *)
Definition dst_next (got : bool) (ev : event) : option bool :=
  match ev with
  | Ev e x =>
      match e in prog.eff X return X -> option bool with
      | ERecv => fun r =>
          Some (match r with Ok (Binary f) => got || commit_frame f | _ => got end)
      | _ => fun _ => Some got
      end x
  end.

Definition dst_good (got : bool) (ev : event) : Prop :=
  match ev with
  | Ev e _ => match e with EResume => got = true | _ => True end
  end.

Definition dst_keeps (X : Type) (e : eff X) : Prop :=
  match e with EResume => False | _ => True end.

Lemma dst_keeps_inv X (e : eff X) x st :
  dst_keeps X e -> True ->
  match dst_next st (Ev e x) with
  | None => True
  | Some st' => dst_good st (Ev e x) /\ True
  end.
Proof. intros He _. by destruct e. Qed.

(** ** The two programs *)

Context `{Ron MigrateError, Ron (list Z), Zstd}.
Context `{Ron ProtocolOffer, Ron ProtocolSelect, Ron MigrationPreamble, Ron TimeData}.
Context `{Ron (@DeviceState DevState HvState)}.

Definition tag_of (m : Message) : MessageType :=
  match m with
  | Okay => TOkay
  | Error _ => TError
  | Serialized _ => TSerialized
  | MemFetch _ => TMemFetch
  | MemEnd => TMemEnd
  | MemDone => TMemDone
  | PageBatch _ _ _ _ => TPageBatch
  | PauseSignal => TPauseSignal
  end.

Lemma last_encode m : last (encode m) = Some (tag_u8 (tag_of m)).
Proof. destruct m; apply frame_last. Qed.

Lemma commit_encode m : commit_frame (encode m) = true -> m = Okay.
Proof. unfold commit_frame. rewrite last_encode. by destruct m. Qed.

Lemma decode_okay f : decode (Binary f) = Ok Okay -> commit_frame f = true.
Proof.
  unfold decode. destruct (last f) as [t|] eqn:Hl; [|done]. intros Hd.
  unfold commit_frame. apply bool_decide_eq_true. rewrite Hl. f_equal.
  unfold from_u8, text, decode_batch in Hd. repeat (case_match; simplify_eq/=; try lia).
Qed.

(** A tree walks the effects of a program built from [bind]. *)
Create HintDb tame discriminated.

Ltac tame :=
  repeat first
    [ done
    | solve [auto with tame nocore]
    | apply tame_bindr
    | apply tame_bind
    | apply tame_act
    | progress intros
    | match goal with
      | |- tame _ (Ret _) => exact I
      | |- tame _ Stop => exact I
      | |- tame _ (Act _ _) => split
      | |- tame _ (match ?x with _ => _ end) => destruct x eqn:?
      end ].

Section src.
Abbreviation quiet := (tame src_keeps).

Lemma tame_send m : m <> Okay -> quiet (send m).
Proof.
  intros Hm. apply tame_bind; [|done]. apply tame_act. simpl.
  destruct (commit_frame (encode m)) eqn:Hc; [|done]. by apply commit_encode in Hc.
Qed.
#[local] Hint Extern 1 (tame _ (send _)) => (apply tame_send; discriminate) : tame.

Lemma tame_send_serialized {T} `{Ron T} (v : T) : quiet (send_serialized v).
Proof. unfold send_serialized, serialized. destruct (ok_or _ _); tame. Qed.

Lemma tame_expect_serialized T `{Ron T} : quiet (expect_serialized T).
Proof. unfold expect_serialized, recv. tame. Qed.

Lemma tame_expect_okay : quiet expect_okay.
Proof. unfold expect_okay, recv. tame. Qed.

Lemma tame_expect_mem_done : quiet expect_mem_done.
Proof. unfold expect_mem_done, recv. tame. Qed.

Lemma tame_read_loop pm gpas : quiet (read_pages_loop pm gpas).
Proof. induction gpas as [|gpa gpas IH]; cbn [read_pages_loop]; tame. Qed.

Lemma tame_send_pages base_gpa count raw_size buf fetch :
  quiet (send_pages base_gpa count raw_size buf fetch).
Proof. unfold send_pages. destruct (compress buf). tame. Qed.

#[local] Hint Resolve tame_send_serialized tame_expect_serialized tame_expect_okay
  tame_expect_mem_done tame_read_loop tame_send_pages : tame.

Lemma tame_send_batch pm base_gpa count : quiet (send_batch pm base_gpa count).
Proof. unfold send_batch, read_pages. tame. Qed.
#[local] Hint Resolve tame_send_batch : tame.

Lemma tame_send_sparse pm gpas : quiet (send_batch_sparse pm gpas).
Proof. unfold send_batch_sparse, read_pages. tame. Qed.

Lemma tame_track_chunks chunks bm : quiet (track_chunks chunks bm).
Proof. revert bm. induction chunks; intros; cbn [track_chunks]; tame. Qed.

Lemma tame_track gpa len : quiet (track_dirty_pages gpa len).
Proof. unfold track_dirty_pages. destruct (dirty_chunks _ _ _); [|done]. apply tame_track_chunks. Qed.

Lemma tame_push_all_loop fuel pm gpa n off : quiet (push_all_loop fuel pm gpa n off).
Proof. revert off. induction fuel; intros; cbn [push_all_loop]; tame. Qed.
#[local] Hint Resolve tame_send_sparse tame_track tame_push_all_loop : tame.

Lemma tame_push_all_regions pm rs : quiet (push_all_regions pm rs).
Proof. induction rs as [|[[gpa len] []] rs IH]; cbn [push_all_regions]; tame. Qed.

Lemma tame_push_dirty pm batch gpas : quiet (push_dirty pm batch gpas).
Proof. revert batch. induction gpas; intros; cbn [push_dirty]; tame. Qed.
#[local] Hint Resolve tame_push_all_regions tame_push_dirty : tame.

Lemma tame_push_regions pm rs total : quiet (push_regions pm rs total).
Proof. revert total. induction rs as [|[[gpa len] []] rs IH]; intros; cbn [push_regions]; tame. Qed.
#[local] Hint Resolve tame_push_regions : tame.

Lemma tame_push_ram pm : quiet (push_ram pm).
Proof. unfold push_ram. tame. Qed.
#[local] Hint Resolve tame_push_ram : tame.

Lemma tame_converge iters pm : quiet (converge iters pm).
Proof. induction iters; cbn [converge]; tame. Qed.
#[local] Hint Resolve tame_converge : tame.

Lemma tame_source_push pm config : quiet (source_push pm config).
Proof. unfold source_push, set_phase, push_ram_all. tame. Qed.

Lemma tame_source_state hv : quiet (source_state hv).
Proof. unfold source_state, set_phase. tame. Qed.

Abbreviation src_safe := (safe src_next src_good).

Lemma quiet_safe {A} (p : prog A) st :
  quiet p -> src_safe p st (fun _ st' => s_run st' = s_run st /\ s_comm st' = s_comm st).
Proof. intros Hp. by apply (tame_safe _ _ _ _ (src_keeps_inv (s_run st) (s_comm st))). Qed.

Lemma safe_bindr {A B} (p : prog (result MigrateError A)) (f : A -> prog (result MigrateError B)) st Q :
  src_safe p st (fun r st' => match r with Ok a => src_safe (f a) st' Q | Err e => Q (Err e) st' end) ->
  src_safe (bindr p f) st Q.
Proof. intros Hp. apply safe_bind. eapply safe_mono; [done|]. by intros []. Qed.

(** A quiet step of a fallible program. *)
Lemma safe_quiet {A B} (p : prog (result MigrateError A)) (f : A -> prog (result MigrateError B)) st Q :
  quiet p ->
  (forall st', s_run st' = s_run st -> s_comm st' = s_comm st ->
     (forall e, Q (Err e) st') /\ forall a, src_safe (f a) st' Q) ->
  src_safe (bindr p f) st Q.
Proof.
  intros Hp Hk. apply safe_bindr. eapply safe_mono; [by apply quiet_safe|].
  intros r st' [Hr Hc]. destruct (Hk st' Hr Hc). by destruct r.
Qed.

Lemma safe_quiet_do {A B} (p : prog A) (f : A -> prog B) st Q :
  quiet p ->
  (forall st' a, s_run st' = s_run st -> s_comm st' = s_comm st -> src_safe (f a) st' Q) ->
  src_safe (bind p f) st Q.
Proof.
  intros Hp Hk. apply safe_bind. eapply safe_mono; [by apply quiet_safe|].
  intros a st' [Hr Hc]. by apply Hk.
Qed.

(** The pause leaves the vCPUs stopped, or fails before the hand-over. *)
Lemma safe_source_pause pm config st :
  s_comm st = false ->
  src_safe (source_pause pm config) st (fun r st' =>
    s_comm st' = false /\ (is_ok r = true -> s_run st' = false)).
Proof.
  intros Hc. unfold source_pause, set_phase, enter_post_pause.
  apply safe_quiet_do; [tame|]. intros st1 _ _ Hc1. rewrite Hc in Hc1. clear st Hc.
  apply safe_quiet; [tame|]. intros st2 _ Hc2. rewrite Hc1 in Hc2. split; [done|]. intros _.
  apply safe_quiet_do; [tame|]. intros st3 r _ Hc3. rewrite Hc2 in Hc3.
  apply safe_quiet; [tame|]. intros st4 _ Hc4. rewrite Hc3 in Hc4. split; [done|]. intros _.
  intros v. split; [done|]. destruct v as [[]|[]]; [|by split].
  cbn [map_err bindr bind]. set (st5 := mkS _ _ _). assert (Hr5 : s_run st5 = false) by done.
  assert (Hc5 : s_comm st5 = false) by done. clearbody st5.
  apply safe_quiet_do; [tame|]. intros st6 f Hr6 Hc6. rewrite Hr5 in Hr6. rewrite Hc5 in Hc6.
  destruct f as [[]|[]]; cbn [map_err]; [|by split].
  apply safe_quiet; [unfold zfs_barrier_wait; tame|].
  intros st8 Hr8 Hc8. rewrite Hr6 in Hr8. rewrite Hc6 in Hc8. split; [done|]. intros _.
  apply safe_quiet_do; [tame|]. intros st9 hv Hr9 Hc9. rewrite Hr8 in Hr9. rewrite Hc8 in Hc9.
  apply safe_quiet_do; [tame|]. intros st10 _ Hr10 Hc10. rewrite Hr9 in Hr10. rewrite Hc9 in Hc10.
  apply safe_quiet; [tame|]. intros st11 Hr11 Hc11. rewrite Hr10 in Hr11. rewrite Hc10 in Hc11.
  split; [done|]. intros _. by split.
Qed.

(** The hand-over: past it the phase forbids a rollback. *)
Lemma safe_source_finish st :
  s_comm st = false -> s_run st = false ->
  src_safe source_finish st (fun _ st' => s_comm st' = true -> rollback (phase (s_status st')) = false).
Proof.
  intros Hc Hr. unfold source_finish, set_phase.
  apply safe_quiet_do; [tame|]. intros st1 _ Hr1 Hc1. rewrite Hr in Hr1. rewrite Hc in Hc1.
  apply safe_quiet; [tame|]. intros st2 Hr2 Hc2. rewrite Hr1 in Hr2. rewrite Hc1 in Hc2.
  split; [by rewrite Hc2|]. intros _.
  apply safe_quiet_do; [tame|]. intros st3 _ Hr3 Hc3. rewrite Hr2 in Hr3. rewrite Hc2 in Hc3.
  apply safe_quiet; [tame|]. intros st4 Hr4 Hc4. rewrite Hr3 in Hr4. rewrite Hc3 in Hc4.
  split; [by rewrite Hc4|]. intros _.
  intros [[]|[]]; (split; [by intros _|]); [|cbn; by rewrite Hc4].
  intros []. split; [done|]. set (st5 := mkS _ _ _).
  assert (Hp : phase (s_status st5) = PhaseCommitted) by done. clearbody st5.
  eapply safe_mono; [apply (tame_safe _ _ _ _ (src_still_inv PhaseCommitted)); [|done]|].
  - unfold expect_okay, recv. cbn [bind]. tame.
  - intros a st' Hp' _. simpl in Hp'. by rewrite Hp'.
Qed.

Lemma safe_source_inner pm config st :
  s_comm st = false ->
  src_safe (source_inner pm config) st (fun _ st' =>
    s_comm st' = true -> rollback (phase (s_status st')) = false).
Proof.
  intros Hc. unfold source_inner. apply safe_quiet; [apply tame_source_push|].
  intros st1 _ Hc1. rewrite Hc in Hc1. split; [by rewrite Hc1|]. intros _.
  apply safe_bindr. eapply safe_mono; [by apply safe_source_pause|].
  intros [hv|e] st2 [Hc2 Hr2]; [|by rewrite Hc2]. specialize (Hr2 eq_refl).
  apply safe_quiet; [apply tame_source_state|]. intros st3 Hr3 Hc3.
  rewrite Hr2 in Hr3. rewrite Hc2 in Hc3. split; [by rewrite Hc3|]. intros _.
  by apply safe_source_finish.
Qed.

(** The source keeps its half of the promise. *)
Lemma safe_run_source pm config :
  src_safe (run_source pm config) (mkS true false status_new) (fun _ _ => True).
Proof.
  unfold run_source. apply safe_quiet_do; [tame|]. intros st1 r _ Hc1.
  apply safe_quiet; [tame|]. intros st2 _ Hc2. rewrite Hc1 in Hc2. split; [done|]. intros _.
  apply safe_bind. eapply safe_mono; [by apply safe_source_inner|]. intros res st3 Hb.
  intros p. simpl. destruct (decide (p = phase (s_status st3))) as [->|]; [|done].
  split; [done|]. unfold finish_source.
  destruct (negb (is_ok res)); [|done]. destruct (rollback _) eqn:Hroll; [|done].
  intros []. split; [done|]. intros v. split; [|done]. simpl.
  destruct (s_comm st3) eqn:Hc3; [by rewrite Hb in Hroll|done].
Qed.

End src.

Section dst.
Abbreviation quiet := (tame dst_keeps).
Abbreviation dst_safe := (safe dst_next dst_good).

Lemma dquiet_safe {A B} (p : prog (result MigrateError A)) (f : A -> prog (result MigrateError B)) st :
  quiet p -> (forall a st', dst_safe (f a) st' (fun _ _ => True)) ->
  dst_safe (bindr p f) st (fun _ _ => True).
Proof.
  intros Hp Hf. apply safe_bind. eapply safe_mono; [by apply (tame_safe _ _ _ _ dst_keeps_inv)|].
  intros r st' _. destruct r; [apply Hf|done].
Qed.

Lemma dtame_send m : quiet (send m).
Proof. unfold send. tame. Qed.
#[local] Hint Resolve dtame_send : tame.

Lemma dtame_expect T `{Ron T} : quiet (expect_serialized T).
Proof. unfold expect_serialized, recv. tame. Qed.

Lemma dtame_report {A} (p : prog (result MigrateError A)) : quiet p -> quiet (or_report p).
Proof. intros Hp. unfold or_report, report_failure. tame. Qed.

Lemma dtame_send_serialized {T} `{Ron T} (v : T) : quiet (send_serialized v).
Proof. unfold send_serialized. tame. Qed.

Lemma dtame_receive fuel pm until sparse : quiet (receive_pass fuel pm until sparse).
Proof. revert sparse. induction fuel; intros; cbn [receive_pass]; unfold recv; tame. Qed.

Lemma dtame_restore entries : quiet (restore_entries entries).
Proof. induction entries; cbn [restore_entries]; tame. Qed.
#[local] Hint Resolve dtame_expect dtame_report dtame_send_serialized dtame_receive dtame_restore : tame.

Lemma dtame_sync config : quiet (dest_sync config).
Proof. unfold dest_sync, set_phase. tame. Qed.

Lemma dtame_ram fuel pm : quiet (dest_ram fuel pm).
Proof. unfold dest_ram, set_phase, enter_post_pause. tame. Qed.

Lemma dtame_state config : quiet (dest_state config).
Proof. unfold dest_state, set_phase. tame. Qed.

(** What an accepted [Okay] means to the monitor. *)
Lemma safe_expect_okay st (Q : result MigrateError unit -> bool -> Prop) :
  (forall e st', Q (Err e) st') -> Q (Ok tt) true -> dst_safe expect_okay st Q.
Proof.
  intros He Hk r. split; [done|]. destruct r as [[f| |]|[]]; try apply He.
  cbn [bind map_err]. destruct (decode (Binary f)) as [m|e] eqn:Hd; [|apply He].
  destruct m; cbn; try apply He. rewrite (decode_okay f Hd), orb_true_r. done.
Qed.

(** The destination resumes only once it has the source's word. *)
Lemma safe_run_destination fuel pm config :
  dst_safe (run_destination fuel pm config) false (fun _ _ => True).
Proof.
  unfold run_destination. intros r. split; [done|].
  apply dquiet_safe; [tame|]. intros [] st1.
  apply dquiet_safe; [apply dtame_sync|]. intros [] st2.
  apply dquiet_safe; [apply dtame_ram|]. intros [] st3.
  apply dquiet_safe; [apply dtame_state|]. intros [] st4.
  unfold dest_finish, set_phase. intros []. split; [done|].
  apply dquiet_safe; [unfold recv; tame|]. intros m st5.
  apply dquiet_safe; [tame|]. intros [] st6. intros []. split; [done|].
  apply dquiet_safe; [tame|]. intros [] st7. apply safe_bind, safe_expect_okay; [done|].
  intros []. split; [done|]. intros []. split; [done|]. intros v. split; [done|].
  apply dquiet_safe; [tame|]. intros [] st8. apply dquiet_safe; [tame|]. intros [] st9.
  by intros [].
Qed.

End dst.

(** ** The network and the two hosts *)

Inductive side : Type := Src | Dst.

Record net : Type := mkNet {
  n_sd : list (list Z);
  n_ds : list (list Z);
  src_runs : bool;
  dst_runs : bool;
  n_status : MigrationStatus
}.

(** The guest runs on the source; nothing is on the wire. *)
Definition net_init : net := mkNet [] [] true false status_new.

Definition push_frame (s : side) (f : list Z) (n : net) : net :=
  match s with
  | Src => mkNet (n_sd n ++ [f]) (n_ds n) (src_runs n) (dst_runs n) (n_status n)
  | Dst => mkNet (n_sd n) (n_ds n ++ [f]) (src_runs n) (dst_runs n) (n_status n)
  end.

Definition pop_frame (s : side) (n : net) : option (list Z * net) :=
  match s with
  | Src => match n_ds n with
           | [] => None
           | f :: q => Some (f, mkNet (n_sd n) q (src_runs n) (dst_runs n) (n_status n))
           end
  | Dst => match n_sd n with
           | [] => None
           | f :: q => Some (f, mkNet q (n_ds n) (src_runs n) (dst_runs n) (n_status n))
           end
  end.

Definition set_run (s : side) (b : bool) (n : net) : net :=
  match s with
  | Src => mkNet (n_sd n) (n_ds n) b (dst_runs n) (n_status n)
  | Dst => mkNet (n_sd n) (n_ds n) (src_runs n) b (n_status n)
  end.

Definition set_status (s : side) (f : MigrationStatus -> MigrationStatus) (n : net) : net :=
  match s with
  | Src => mkNet (n_sd n) (n_ds n) (src_runs n) (dst_runs n) (f (n_status n))
  | Dst => n
  end.

(** One event. A send that failed was not delivered, unless [torn] allows a
    send to fail after its frame left. *)
Definition net_step (torn : bool) (s : side) (ev : event) (n n' : net) : Prop :=
  match ev with
  | Ev e x =>
      match e in prog.eff X return X -> Prop with
      | ESend f => fun r =>
          match r with
          | Ok _ => n' = push_frame s f n
          | Err _ => n' = n \/ (torn = true /\ n' = push_frame s f n)
          end
      | ERecv => fun r =>
          match r with Ok (Binary f) => pop_frame s n = Some (f, n') | _ => n' = n end
      | EPause => fun r => n' = if is_ok r then set_run s false n else n
      | EResume => fun r => n' = if is_ok r then set_run s true n else n
      | EStatus f => fun _ => n' = set_status s f n
      | EGetPhase => fun p =>
          n' = n /\ match s with Src => p = phase (n_status n) | Dst => True end
      | _ => fun _ => n' = n
      end x
  end.

Fixpoint net_exec (torn : bool) (n : net) (g : list (side * event)) (n' : net) : Prop :=
  match g with
  | [] => n' = n
  | (s, ev) :: g => exists n1, net_step torn s ev n n1 /\ net_exec torn n1 g n'
  end.

(** The events of one side. *)
Definition src_events (g : list (side * event)) : list event :=
  omap (fun '(s, ev) => match s with Src => Some ev | Dst => None end) g.
Definition dst_events (g : list (side * event)) : list event :=
  omap (fun '(s, ev) => match s with Src => None | Dst => Some ev end) g.

(** What the monitors know of the network. *)
Record net_inv (n : net) (ss : sstate) (got : bool) : Prop := mkNetInv {
  ni_run : s_run ss = src_runs n;
  ni_status : s_status ss = n_status n;
  ni_queue : forall f, f ∈ n_sd n -> commit_frame f = true -> s_comm ss = true;
  ni_got : got = true -> s_comm ss = true;
  ni_dst : dst_runs n = true -> got = true;
  ni_comm : s_comm ss = true -> src_runs n = false
}.

Lemma src_step_inv ev n n' ss got :
  net_inv n ss got -> net_step false Src ev n n' ->
  exists ss', src_next ss ev = Some ss' /\ (src_good ss ev -> net_inv n' ss' got).
Proof.
  intros [Hr Hst Hq Hg Hd Hc] Hn. destruct ev as [X e x]. destruct ss as [run comm st].
  destruct e; simpl in *;
    try (eexists; split; [done|]; intros _; subst; by split).
  - destruct x as [[]|[]]; (eexists; split; [done|]).
    + subst n'. intros Hgood. split; simpl; try done.
      * intros f [Hf| ->%list_elem_of_singleton]%elem_of_app Hcf; apply orb_true_iff;
          [left; by apply (Hq f)|by right].
      * intros Hgot. apply orb_true_iff. left. by apply Hg.
      * intros [?|?]%orb_true_iff; [by apply Hc|]. rewrite <- Hr. by apply Hgood.
    + destruct Hn as [->|[? _]]; [|done]. intros _. split; simpl; rewrite ?orb_false_r; done.
  - destruct x as [[f| |]|]; try (eexists; split; [done|]; intros _; subst; by split).
    eexists; split; [done|]. intros _. destruct (n_ds n); simplify_eq. by split.
  - destruct Hn as [-> ->]. rewrite decide_True by congruence.
    eexists; split; [done|]. intros _. by split.
  - eexists; split; [done|]. intros _. subst. destruct (is_ok x); by split.
  - eexists; split; [done|]. intros Hgood. subst. destruct (is_ok x); split; simpl; done || congruence.
Qed.

Lemma dst_step_inv ev n n' ss got :
  net_inv n ss got -> net_step false Dst ev n n' ->
  exists got', dst_next got ev = Some got' /\ (dst_good got ev -> net_inv n' ss got').
Proof.
  intros [Hr Hst Hq Hg Hd Hc] Hn. destruct ev as [X e x].
  destruct e; simpl in *;
    try (eexists; split; [done|]; intros _; subst; by split).
  - destruct x as [[]|[]]; (eexists; split; [done|]); intros _;
      [subst|destruct Hn as [->|[? _]]; [|done]]; by split.
  - destruct x as [[f| |]|]; try (eexists; split; [done|]; intros _; subst; by split).
    eexists; split; [done|]. intros _. destruct (n_sd n) as [|f' q] eqn:Hsd; simplify_eq.
    split; simpl; try done.
    + intros f' Hf'. apply Hq. by right.
    + intros [?|?]%orb_true_iff; [by apply Hg|]. apply (Hq f); [by left|done].
    + intros Hdr. apply orb_true_iff. left. by apply Hd.
  - destruct Hn as [-> _]. eexists; split; [done|]. intros _. by split.
  - eexists; split; [done|]. intros _. subst. destruct (is_ok x); by split.
  - eexists; split; [done|]. intros Hgood. subst. destruct (is_ok x); split; simpl; done.
Qed.

Lemma exec_inv g n n' ss got :
  net_inv n ss got -> net_exec false n g n' ->
  trace_ok src_next src_good ss (src_events g) -> trace_ok dst_next dst_good got (dst_events g) ->
  exists ss' got', net_inv n' ss' got'.
Proof.
  revert n ss got. induction g as [|[[] ev] g IH]; intros n ss got Hi Hg Hs Hd.
  - simpl in Hg. subst. eauto.
  - destruct Hg as (n1 & Hstep & Hg). destruct (src_step_inv ev n n1 ss got Hi Hstep) as (ss' & Hnx & Hi').
    simpl in Hs. rewrite Hnx in Hs. destruct Hs as [Hgood Hs]. by apply (IH n1 ss' got); auto.
  - destruct Hg as (n1 & Hstep & Hg). destruct (dst_step_inv ev n n1 ss got Hi Hstep) as (got' & Hnx & Hi').
    simpl in Hd. rewrite Hnx in Hd. destruct Hd as [Hgood Hd]. by apply (IH n1 ss got'); auto.
Qed.

(** C2: whatever calls fail, whatever the kernel and the devices answer, and
    however the two ends and the network interleave, the guest never runs on
    both hosts, as long as a send that reports failure was not delivered. *)
Theorem never_two_copies spm sconf fuel dpm dconf g n sr dr :
  runs (run_source spm sconf) (src_events g) sr ->
  runs (run_destination fuel dpm dconf) (dst_events g) dr ->
  net_exec false net_init g n ->
  src_runs n = true -> dst_runs n = false.
Proof.
  intros Hs Hd Hg Hrun.
  destruct (exec_inv g net_init n (mkS true false status_new) false) as (ss & got & Hi).
  - split; simpl; try done. by intros f ?%elem_of_nil.
  - done.
  - eapply safe_trace; [apply safe_run_source|done].
  - eapply safe_trace; [apply safe_run_destination|done].
  - destruct (dst_runs n) eqn:Hdr; [|done].
    rewrite (ni_comm _ _ _ Hi (ni_got _ _ _ Hi (ni_dst _ _ _ Hi Hdr))) in Hrun. done.
Qed.

(** ** Driving the two programs *)

(** An execution in which all goes well until the source hands over: that
    send fails, before its frame left or, with [torn], after. *)
Definition answer (torn : bool) (s : side) (n : net) {X} (e : eff X) : option (X * net) :=
  match e in prog.eff X return option (X * net) with
  | ESend f =>
      match s, commit_frame f with
      | Src, true => Some (Err tt, if torn then push_frame s f n else n)
      | _, _ => Some (Ok tt, push_frame s f n)
      end
  | ERecv => let* ' (f, n) := pop_frame s n in Some (Ok (Binary f), n)
  | EDeadline => Some (Ok tt, n)
  | EClose => Some (tt, n)
  | EStatus f => Some (tt, set_status s f n)
  | EGetPhase => Some (phase (n_status n), n)
  | EApply X f => Some ((f (∅, status_new)).2, n)
  | ERead _ k => Some (replicate k 0, n)
  | ETrack _ _ => Some (Ok [], n)
  | ESleep => Some (tt, n)
  | EPrePause => Some (Ok tt, n)
  | EPause => Some (Ok tt, set_run s false n)
  | EResume => Some (Ok tt, set_run s true n)
  | EDevResume => Some (tt, n)
  | EFlush => Some (Ok tt, n)
  | EBarrierConnect => Some (Ok tt, n)
  | EBarrierTimeout => Some (Ok tt, n)
  | EBarrierRead => Some (Ok ZFS_BARRIER_OK, n)
  | EHypervExport => Some (None, n)
  | EHypervRestore _ => Some (true, n)
  | EExportTime => Some (Ok (mkTime []), n)
  | EImportTime _ => Some (Ok tt, n)
  | EExportState => Some (Ok (mkDevState [] [] [] None), n)
  | EExportDevices => Some (Ok [], n)
  | EImportState _ => Some (Ok tt, n)
  | ERestore _ _ => Some (Ok tt, n)
  end.

(** The source goes first; the destination moves when the source waits. *)
Fixpoint drive {A} (fuel : nat) (torn : bool) (stop : net -> bool) (ps pd : prog A) (n : net) : bool :=
  match fuel with
  | O => false
  | S fuel =>
      if stop n then true
      else
        let dst (_ : unit) :=
          match pd with
          | Act e k =>
              match answer torn Dst n e with
              | Some (x, n) => drive fuel torn stop ps (k x) n
              | None => false
              end
          | _ => false
          end in
        match ps with
        | Act e k =>
            match answer torn Src n e with
            | Some (x, n) => drive fuel torn stop (k x) pd n
            | None => dst tt
            end
        | _ => dst tt
        end
  end.

Lemma answer_step torn s n {X} (e : eff X) x n' :
  answer torn s n e = Some (x, n') -> net_step torn s (Ev e x) n n'.
Proof.
  destruct e; simpl; try (by intros [= <- <-]).
  - destruct s, (commit_frame frame); intros [= <- <-]; try done. destruct torn; auto.
  - destruct (pop_frame s n) as [[f n1]|]; [|done]. by intros [= <- <-].
  - intros [= <- <-]. by destruct s.
Qed.

Lemma runs_nil {A} (p : prog A) : exists r, runs p [] r.
Proof. destruct p as [a| |]; [by exists (Some a)|by exists None|by exists None; left]. Qed.

(** Some joint execution reaches a network state that satisfies [stop]. *)
Definition joint {A} (torn : bool) (stop : net -> bool) (ps pd : prog A) (n : net) : Prop :=
  exists g n' sr dr, runs ps (src_events g) sr /\ runs pd (dst_events g) dr /\
    net_exec torn n g n' /\ stop n' = true.

Lemma drive_joint {A} fuel torn stop (ps pd : prog A) n :
  drive fuel torn stop ps pd n = true -> joint torn stop ps pd n.
Proof.
  revert ps pd n. induction fuel as [|fuel IH]; intros ps pd n; [done|]. cbn [drive].
  destruct (stop n) eqn:Hstop.
  { intros _. destruct (runs_nil ps) as [sr Hs], (runs_nil pd) as [dr Hd]. by exists [], n, sr, dr. }
  cbv zeta beta.
  assert (Hdst : match pd with
                 | Act e k => match answer torn Dst n e with
                              | Some (x, n) => drive fuel torn stop ps (k x) n
                              | None => false
                              end
                 | _ => false
                 end = true -> joint torn stop ps pd n).
  { destruct pd as [| |X e k]; try done.
    destruct (answer torn Dst n e) as [[x n1]|] eqn:Ha; [|done].
    intros (g & n' & sr & dr & Hs & Hd & Hg & Hn)%IH.
    exists ((Dst, Ev e x) :: g), n', sr, dr. split_and!; [done| |exists n1; split; [by apply answer_step|done]|done].
    right. by exists x, (dst_events g). }
  destruct ps as [| |X e k]; try done.
  destruct (answer torn Src n e) as [[x n1]|] eqn:Ha; [|done].
  intros (g & n' & sr & dr & Hs & Hd & Hg & Hn)%IH.
  exists ((Src, Ev e x) :: g), n', sr, dr. split_and!; [|done|exists n1; split; [by apply answer_step|done]|done].
  right. by exists x, (src_events g).
Qed.

End traces.

(** ** A migration of a VM without RAM and devices *)

Section example.

Definition zero_features : CpuFeatures := mkFeatures 0 0 0 0 0 0.
Definition tiny_source : SourceConfig := mkSource 1 0 zero_features [] false.
Definition tiny_dest : DestConfig := mkDest 1 0 zero_features [] false.
Definition tiny_preamble : MigrationPreamble := mkPreamble 1 0 [] (Some zero_features).

#[export] Instance ron_offer : Ron ProtocolOffer := {|
  ron_to_string := fun _ => Some []; ron_from_str := fun _ => Some (mkOffer [PROTOCOL_RON]) |}.
#[export] Instance ron_select : Ron ProtocolSelect := {|
  ron_to_string := fun _ => Some []; ron_from_str := fun _ => Some (mkSelect PROTOCOL_RON) |}.
#[export] Instance ron_preamble : Ron MigrationPreamble := {|
  ron_to_string := fun _ => Some []; ron_from_str := fun _ => Some tiny_preamble |}.
#[export] Instance ron_time : Ron TimeData := {|
  ron_to_string := fun _ => Some []; ron_from_str := fun _ => Some (mkTime []) |}.
#[export] Instance ron_state : Ron (@DeviceState unit unit) := {|
  ron_to_string := fun _ => Some []; ron_from_str := fun _ => Some (mkDevState [] [] [] None) |}.

Abbreviation tiny_src := (run_source (HvState:=unit) physmap.physmap_new tiny_source).
Abbreviation tiny_dst := (run_destination (DevState:=unit) 20 physmap.physmap_new tiny_dest).

(** The source is back in business after a hand-over that failed. *)
Definition rolled_back (n : net) : bool :=
  src_runs n && bool_decide (phase_u8 (phase (n_status n)) = phase_u8 Finish).

Lemma never_two_copies_witness :
  exists g n sr dr, runs tiny_src (src_events g) sr /\ runs tiny_dst (dst_events g) dr /\
    net_exec false net_init g n /\ rolled_back n = true /\ dst_runs n = false.
Proof.
  destruct (drive_joint 300 false rolled_back tiny_src tiny_dst net_init)
    as (g & n & sr & dr & Hs & Hd & Hg & Hn); [vm_compute; reflexivity|].
  exists g, n, sr, dr. do 4 (split; [assumption|]).
  apply (never_two_copies physmap.physmap_new tiny_source 20 physmap.physmap_new tiny_dest g n sr dr);
    [assumption..|]. by apply andb_true_iff in Hn as [].
Defined.

(** The hypothesis on failed sends is needed. The source records the
    hand-over after the send of its word; when that send reports an error
    although the frame left, the source rolls back, the destination starts,
    and both run the guest. *)
Theorem torn_send_two_copies :
  exists g n sr dr, runs tiny_src (src_events g) sr /\ runs tiny_dst (dst_events g) dr /\
    net_exec true net_init g n /\ src_runs n && dst_runs n = true.
Proof. apply (drive_joint 300 true (fun n => src_runs n && dst_runs n)). vm_compute. reflexivity. Qed.

End example.
End safe.
