(* ===== verification/MigRam.v ===== *)
(** * A migration moves RAM exactly

    The two programs of [MigProg] run against each other while the guest
    and its devices keep writing: when both ends are done, the destination's
    RAM is the source's, byte for byte. The kernel's dirty log is the class
    [DirtyLog]: it never loses a write between two reads of the log. *)

From Stdlib Require Import String FunctionalExtensionality.
From S2P Require Import Prelude Mapping PhysMap PhysMapInv MigCodec MigPages MigProg MigSafe.

Module ram.
Import mapping codec pages prog.

#[local] Opaque PAGE.

(** ** What the kernel promises about dirty pages *)

(** [dl_track] is [VM_TRACK_DIRTY_PAGES]: read and clear the bits of a range
    of at most [DIRTY_CHUNK] bytes. A page is named by its first address. *)
Class DirtyLog (K : Type) : Type := {
  dl_dirty : K -> Z -> bool;
  dl_write : K -> Z -> K;
  dl_track : K -> Z -> Z -> result unit (list Z * K);
  dl_write_self : forall k p, dl_dirty (dl_write k p) p = true;
  dl_write_other : forall k p q, dl_dirty k q = true -> dl_dirty (dl_write k p) q = true;
  dl_track_ok : forall k gpa len,
    0 <= gpa -> gpa mod PAGE_SIZE = 0 -> len mod PAGE_SIZE = 0 -> 0 < len <= DIRTY_CHUNK ->
    exists bits k', dl_track k gpa len = Ok (bits, k') /\
      length bits = Z.to_nat (div_ceil (len / PAGE_SIZE) 8) /\
      forall q, q mod PAGE_SIZE = 0 -> dl_dirty k q = true ->
        if (gpa <=? q) && (q <? gpa + len)
        then bit_at bits (Z.to_nat ((q - gpa) / PAGE_SIZE)) = true
        else dl_dirty k' q = true
}.

Section ram.
Context {DevState HvState K : Type} {LOG : DirtyLog K}.
Context {RE : Ron MigrateError} {RG : Ron (list Z)} {ZSTD : Zstd}.
Context {RO : Ron ProtocolOffer} {RS : Ron ProtocolSelect} {RP : Ron MigrationPreamble}.
Context {RT : Ron TimeData} {RD : Ron (@DeviceState DevState HvState)}.

Abbreviation eff := (@eff DevState HvState).
Abbreviation prog := (@prog DevState HvState).

(** ** The two hosts *)

(** What the guest, its devices and the kernel do during the run: the bytes
    written before the [i]-th call of the source, and the answers of the
    calls that are not about RAM. *)
Record env : Type := mkEnv {
  e_writers : nat -> list (Z * Z);
  e_hyperv : option HvState;
  e_uninstall : list (Z * Z);
  e_install : list (Z * Z);
  e_time : TimeData;
  e_state : @DeviceState DevState HvState;
  e_devices : list (@DeviceStatePayload DevState)
}.

Record sworld : Type := mkSW {
  sw_mem : hostmem;
  sw_log : K;
  sw_time : nat;
  sw_status : MigrationStatus;
  sw_devs : bool;
  sw_vcpus : bool
}.

Record dworld : Type := mkDW { dw_mem : hostmem; dw_status : MigrationStatus }.

(** Whether anything still writes the source's memory. *)
Definition live (w : sworld) : bool := sw_devs w || sw_vcpus w.

Definition page_base (a : Z) : Z := a - a mod PAGE_SIZE.

Definition put (w : sworld) (ab : Z * Z) : sworld :=
  mkSW (<[ab.1 := ab.2]> (sw_mem w)) (dl_write (sw_log w) (page_base ab.1)) (sw_time w)
    (sw_status w) (sw_devs w) (sw_vcpus w).

Definition puts (w : sworld) (l : list (Z * Z)) : sworld := foldl put w l.

Context (ev : env).

(** The writers run, then the source makes its next access. *)
Definition turn (w : sworld) : sworld :=
  let w := if live w then puts w (e_writers ev (sw_time w)) else w in
  mkSW (sw_mem w) (sw_log w) (S (sw_time w)) (sw_status w) (sw_devs w) (sw_vcpus w).

(** A page is read byte by byte, and the writers may run in between. *)
Fixpoint read_live (n : nat) (a : Z) (w : sworld) : list Z * sworld :=
  match n with
  | O => ([], w)
  | S n =>
      let w := turn w in
      let b := peek (sw_mem w) a in
      let '(bs, w) := read_live n (a + 1) w in
      (b :: bs, w)
  end.

Definition with_status (f : MigrationStatus -> MigrationStatus) (w : sworld) : sworld :=
  mkSW (sw_mem w) (sw_log w) (sw_time w) (f (sw_status w)) (sw_devs w) (sw_vcpus w).

(** One call of the source: its answer, the frames left to receive and the
    frames sent; [None] while it waits for a frame. *)
Definition src_do {X} (e : eff X) (w : sworld) (inq : list (list Z)) :
    option (X * sworld * list (list Z) * list (list Z)) :=
  let w := turn w in
  match e in prog.eff X return option (X * sworld * list (list Z) * list (list Z)) with
  | ESend f => Some (Ok tt, w, inq, [f])
  | ERecv => match inq with
             | [] => None
             | f :: inq => Some (Ok (Binary f), w, inq, [])
             end
  | EDeadline => Some (Ok tt, w, inq, [])
  | EClose => Some (tt, w, inq, [])
  | EStatus f => Some (tt, with_status f w, inq, [])
  | EGetPhase => Some (phase (sw_status w), w, inq, [])
  | EApply _ f =>
      let '(m, x) := f (sw_mem w, sw_status w) in
      Some (x, mkSW m.1 (sw_log w) (sw_time w) m.2 (sw_devs w) (sw_vcpus w), inq, [])
  | ERead gpa n => let '(bs, w) := read_live n gpa w in Some (bs, w, inq, [])
  | ETrack gpa len =>
      match dl_track (sw_log w) gpa len with
      | Err _ => Some (Err tt, w, inq, [])
      | Ok (bits, k) =>
          Some (Ok bits, mkSW (sw_mem w) k (sw_time w) (sw_status w) (sw_devs w) (sw_vcpus w), inq, [])
      end
  | ESleep => Some (tt, w, inq, [])
  | EPrePause =>
      Some (Ok tt, mkSW (sw_mem w) (sw_log w) (sw_time w) (sw_status w) false (sw_vcpus w), inq, [])
  | EPause =>
      Some (Ok tt, mkSW (sw_mem w) (sw_log w) (sw_time w) (sw_status w) (sw_devs w) false, inq, [])
  | EResume =>
      Some (Ok tt, mkSW (sw_mem w) (sw_log w) (sw_time w) (sw_status w) (sw_devs w) true, inq, [])
  | EDevResume =>
      Some (tt, mkSW (sw_mem w) (sw_log w) (sw_time w) (sw_status w) true (sw_vcpus w), inq, [])
  | EFlush => Some (Ok tt, w, inq, [])
  | EBarrierConnect => Some (Ok tt, w, inq, [])
  | EBarrierTimeout => Some (Ok tt, w, inq, [])
  | EBarrierRead => Some (Ok ZFS_BARRIER_OK, w, inq, [])
  | EHypervExport => Some (e_hyperv ev, puts w (e_uninstall ev), inq, [])
  | EHypervRestore _ => Some (true, w, inq, [])
  | EExportTime => Some (Ok (e_time ev), w, inq, [])
  | EImportTime _ => Some (Ok tt, w, inq, [])
  | EExportState => Some (Ok (e_state ev), w, inq, [])
  | EExportDevices => Some (Ok (e_devices ev), w, inq, [])
  | EImportState _ => Some (Ok tt, w, inq, [])
  | ERestore _ _ => Some (Ok tt, w, inq, [])
  end.

(** Bytes written to memory without a log. *)
Definition pokes (m : hostmem) (l : list (Z * Z)) : hostmem :=
  foldl (fun m ab => <[ab.1 := ab.2]> m) m l.

(** One call of the destination. Its guest does not run yet. *)
Definition dst_do {X} (e : eff X) (d : dworld) (inq : list (list Z)) :
    option (X * dworld * list (list Z) * list (list Z)) :=
  match e in prog.eff X return option (X * dworld * list (list Z) * list (list Z)) with
  | ESend f => Some (Ok tt, d, inq, [f])
  | ERecv => match inq with
             | [] => None
             | f :: inq => Some (Ok (Binary f), d, inq, [])
             end
  | EDeadline => Some (Ok tt, d, inq, [])
  | EClose => Some (tt, d, inq, [])
  | EStatus f => Some (tt, mkDW (dw_mem d) (f (dw_status d)), inq, [])
  | EGetPhase => Some (phase (dw_status d), d, inq, [])
  | EApply _ f =>
      let '(m, x) := f (dw_mem d, dw_status d) in Some (x, mkDW m.1 m.2, inq, [])
  | ERead gpa n => Some (peek_range (dw_mem d) gpa n, d, inq, [])
  | ETrack _ _ => Some (Err tt, d, inq, [])
  | ESleep => Some (tt, d, inq, [])
  | EPrePause => Some (Ok tt, d, inq, [])
  | EPause => Some (Ok tt, d, inq, [])
  | EResume => Some (Ok tt, d, inq, [])
  | EDevResume => Some (tt, d, inq, [])
  | EFlush => Some (Ok tt, d, inq, [])
  | EBarrierConnect => Some (Ok tt, d, inq, [])
  | EBarrierTimeout => Some (Ok tt, d, inq, [])
  | EBarrierRead => Some (Ok ZFS_BARRIER_OK, d, inq, [])
  | EHypervExport => Some (None, d, inq, [])
  | EHypervRestore _ => Some (true, mkDW (pokes (dw_mem d) (e_install ev)) (dw_status d), inq, [])
  | EExportTime => Some (Ok (e_time ev), d, inq, [])
  | EImportTime _ => Some (Ok tt, d, inq, [])
  | EExportState => Some (Ok (e_state ev), d, inq, [])
  | EExportDevices => Some (Ok (e_devices ev), d, inq, [])
  | EImportState _ => Some (Ok tt, d, inq, [])
  | ERestore _ _ => Some (Ok tt, d, inq, [])
  end.

(** ** Running them against each other *)

Record cfg : Type := mkCfg {
  c_src : prog (result MigrateError unit);
  c_sw : sworld;
  c_dst : prog (result MigrateError unit);
  c_dw : dworld;
  c_sd : list (list Z);
  c_ds : list (list Z)
}.

Definition src_step (c : cfg) : option cfg :=
  match c_src c with
  | Act e k =>
      let* ' (x, w, ds, out) := src_do e (c_sw c) (c_ds c) in
      Some (mkCfg (k x) w (c_dst c) (c_dw c) (c_sd c ++ out) ds)
  | _ => None
  end.

Definition dst_step (c : cfg) : option cfg :=
  match c_dst c with
  | Act e k =>
      let* ' (x, d, sd, out) := dst_do e (c_dw c) (c_sd c) in
      Some (mkCfg (c_src c) (c_sw c) (k x) d sd (c_ds c ++ out))
  | _ => None
  end.

Definition step (c c' : cfg) : Prop := src_step c = Some c' \/ dst_step c = Some c'.

Definition both_done (c : cfg) : Prop := c_src c = Ret (Ok tt) /\ c_dst c = Ret (Ok tt).

(** The pair can run to the end, both ends succeed and [P] holds there. *)
Definition completes (P : sworld -> dworld -> Prop) (c : cfg) : Prop :=
  exists c', rtc step c c' /\ both_done c' /\ P (c_sw c') (c_dw c').

Section rules.
Context (P : sworld -> dworld -> Prop).

Abbreviation J sp w dp d sd ds := (completes P (mkCfg sp w dp d sd ds)).

Lemma completes_step c c' : step c c' -> completes P c' -> completes P c.
Proof. intros Hs (c1 & Hr & Hd). exists c1. split; [by eapply rtc_l|done]. Qed.

Lemma J_src {X} (e : eff X) k w dp d sd ds x w' ds' out :
  src_do e w ds = Some (x, w', ds', out) -> J (k x) w' dp d (sd ++ out) ds' ->
  J (Act e k) w dp d sd ds.
Proof.
  intros He. apply completes_step. left. unfold src_step. cbn [c_src c_sw c_ds c_dst c_dw c_sd].
  by rewrite He.
Qed.

Lemma J_dst {X} (e : eff X) k sp w d sd ds x d' sd' out :
  dst_do e d sd = Some (x, d', sd', out) -> J sp w (k x) d' sd' (ds ++ out) ->
  J sp w (Act e k) d sd ds.
Proof.
  intros He. apply completes_step. right. unfold dst_step. cbn [c_src c_sw c_ds c_dst c_dw c_sd].
  by rewrite He.
Qed.

(** ** How the source's memory evolves *)

Definition page_of (m : hostmem) (p : Z) : list Z := peek_range m p PAGE.

Abbreviation dirty w p := (dl_dirty (sw_log w) p = true).

(** Writers ran, or not: a page that changed is dirty. *)
Record evolves (w w' : sworld) : Prop := mkEvolves {
  ev_devs : sw_devs w' = sw_devs w;
  ev_vcpus : sw_vcpus w' = sw_vcpus w;
  ev_dirty : forall p, dirty w p -> dirty w' p;
  ev_page : forall p, p mod PAGE_SIZE = 0 ->
    page_of (sw_mem w') p = page_of (sw_mem w) p \/ (live w = true /\ dirty w' p)
}.

Lemma evolves_live w w' : evolves w w' -> live w' = live w.
Proof. intros Hw. unfold live. by rewrite (ev_devs _ _ Hw), (ev_vcpus _ _ Hw). Qed.

Lemma evolves_refl w : evolves w w.
Proof. split; auto. Qed.

Lemma evolves_trans w1 w2 w3 : evolves w1 w2 -> evolves w2 w3 -> evolves w1 w3.
Proof.
  intros H1 H2. pose proof (evolves_live _ _ H1) as Hl.
  destruct H1 as [Hd1 Hv1 Hm1 Hp1], H2 as [Hd2 Hv2 Hm2 Hp2].
  split; [congruence|congruence|auto|]. intros p Hp.
  destruct (Hp2 p Hp) as [->|[? ?]]; [|right; split; [congruence|done]].
  destruct (Hp1 p Hp) as [->|[? ?]]; auto.
Qed.

Lemma page_base_mod a : page_base a mod PAGE_SIZE = 0.
Proof.
  unfold page_base. rewrite Zminus_mod, Zmod_mod, Z.sub_diag. done.
Qed.

(** A byte belongs to one aligned page. *)
Lemma page_base_eq p a :
  p mod PAGE_SIZE = 0 -> p <= a < p + PAGE_SIZE -> page_base a = p.
Proof.
  intros Hp Ha. unfold page_base. replace a with ((a - p) + p / PAGE_SIZE * PAGE_SIZE) at 2.
  - rewrite Z.mod_add, Z.mod_small by (unfold PAGE_SIZE in *; lia). lia.
  - pose proof (Z.div_mod p PAGE_SIZE). unfold PAGE_SIZE in *. lia.
Qed.

Lemma page_of_insert m a b p :
  p mod PAGE_SIZE = 0 -> p <> page_base a -> page_of (<[a := b]> m) p = page_of m p.
Proof.
  intros Hp Hne. apply peek_range_ext. intros i Hi. unfold peek. rewrite lookup_insert_ne; [done|].
  intros ->. apply Hne. symmetry. apply page_base_eq; [done|]. rewrite <- Z_PAGE. lia.
Qed.

Lemma puts_dirty w l p : dirty w p -> dirty (puts w l) p.
Proof.
  revert w. induction l as [|ab l IH]; intros w Hd; [done|]. apply IH, dl_write_other, Hd.
Qed.

Lemma puts_page w l p :
  p mod PAGE_SIZE = 0 ->
  page_of (sw_mem (puts w l)) p = page_of (sw_mem w) p \/ dirty (puts w l) p.
Proof.
  intros Hp. revert w. induction l as [|[a b] l IH]; intros w; [by left|].
  change (puts w ((a, b) :: l)) with (puts (put w (a, b)) l).
  destruct (decide (p = page_base a)) as [->|Hne].
  - right. apply puts_dirty, dl_write_self.
  - destruct (IH (put w (a, b))) as [->|]; [left|by right]. by apply page_of_insert.
Qed.

Lemma puts_flags w l : sw_devs (puts w l) = sw_devs w /\ sw_vcpus (puts w l) = sw_vcpus w.
Proof. revert w. induction l as [|ab l IH]; intros w; [done|]. apply (IH (put w ab)). Qed.

Lemma turn_evolves w : evolves w (turn w).
Proof.
  unfold turn. destruct (live w) eqn:Hl; [|split; auto].
  destruct (puts_flags w (e_writers ev (sw_time w))) as [Hd Hv].
  split; [done|done|intros p; apply puts_dirty|]. intros p Hp. simpl.
  destruct (puts_page w (e_writers ev (sw_time w)) p Hp); auto.
Qed.

Lemma status_evolves f w : evolves w (with_status f w).
Proof. split; auto. Qed.

(** Bytes read of a page: what it holds now, or it is dirty. *)
Definition fresh (w : sworld) (p : Z) (bs : list Z) : Prop :=
  bs = page_of (sw_mem w) p \/ (live w = true /\ dirty w p).

Lemma fresh_evolves w w' p bs : p mod PAGE_SIZE = 0 -> evolves w w' -> fresh w p bs -> fresh w' p bs.
Proof.
  intros Hp Hw. unfold fresh. rewrite (evolves_live _ _ Hw).
  intros [->|[? ?]]; [|right; split; [done|by apply Hw]].
  destruct (ev_page _ _ Hw p Hp) as [->|[? ?]]; auto.
Qed.

Lemma page_of_byte m m' p a :
  page_of m' p = page_of m p -> p <= a < p + PAGE_SIZE -> peek m' a = peek m a.
Proof.
  intros Heq Ha. apply (f_equal (fun l => l !! Z.to_nat (a - p))) in Heq. unfold page_of in Heq.
  rewrite <- Z_PAGE in Ha. rewrite !peek_range_lookup in Heq by lia.
  replace (p + Z.of_nat (Z.to_nat (a - p))) with a in Heq by lia. by simplify_eq.
Qed.

Lemma read_live_part n a w p :
  p mod PAGE_SIZE = 0 -> p <= a -> a + Z.of_nat n <= p + PAGE_SIZE ->
  let '(bs, w') := read_live n a w in
  evolves w w' /\ length bs = n /\
  (bs = peek_range (sw_mem w') a n \/ (live w = true /\ dirty w' p)).
Proof.
  intros Hp. revert a w. induction n as [|n IH]; intros a w Ha Hle.
  { split; [apply evolves_refl|]. split; [done|by left]. }
  cbn [read_live]. pose proof (turn_evolves w) as Ht.
  specialize (IH (a + 1) (turn w) ltac:(lia) ltac:(lia)).
  destruct (read_live n (a + 1) (turn w)) as [bs w'].
  destruct IH as (He & Hl & Hb). rewrite (evolves_live _ _ Ht) in Hb.
  split; [by eapply evolves_trans|]. split; [simpl; congruence|].
  destruct Hb as [->|[? ?]]; [|by right].
  destruct (ev_page _ _ He p Hp) as [Hpg|[? ?]].
  2:{ right. split; [by rewrite <- (evolves_live _ _ Ht)|done]. }
  left. rewrite <- (page_of_byte _ _ _ a Hpg) by lia. unfold peek_range.
  rewrite <- cons_seq, fmap_cons, <- fmap_S_seq, <- list_fmap_compose. f_equal; [f_equal; lia|].
  apply list_fmap_ext. intros i x _. simpl. f_equal. lia.
Qed.

Lemma read_live_page p w :
  p mod PAGE_SIZE = 0 ->
  let '(bs, w') := read_live PAGE p w in
  evolves w w' /\ length bs = PAGE /\ fresh w' p bs.
Proof.
  intros Hp. pose proof (read_live_part PAGE p w p Hp ltac:(lia) ltac:(rewrite Z_PAGE; lia)) as Hr.
  destruct (read_live PAGE p w) as [bs w']. destruct Hr as (He & Hl & Hb).
  split; [done|]. split; [done|]. unfold fresh. by rewrite (evolves_live _ _ He).
Qed.

(** ** Which pages are on their way *)

Section pass.
Context (spm dpm : physmap.PhysMap) (Hspm : physmap_inv.wf spm) (Hdpm : physmap_inv.wf dpm).
Context (Hsame : physmap.region_list dpm = physmap.region_list spm).
Context (Hlen : forall gpa len, (gpa, len, physmap.Ram) ∈ physmap.region_list spm ->
  len mod PAGE_SIZE = 0).
Context (Hzstd : forall raw c, zstd_compress raw = Some c ->
  zstd_decompress c (Z.of_nat (length raw)) = Some raw).
Context (Hron : forall gpas : list Z, Forall (uint 64) gpas -> ron_ok gpas).

Definition in_regions (rs : list (Z * Z * physmap.RegionKind)) (p : Z) : Prop :=
  exists gpa len, (gpa, len, physmap.Ram) ∈ rs /\ gpa <= p /\ p + PAGE_SIZE <= gpa + len.

Definition ram_page (p : Z) : Prop :=
  p mod PAGE_SIZE = 0 /\ in_regions (physmap.region_list spm) p.

Definition clean (w : sworld) (d : dworld) (p : Z) : Prop :=
  page_of (dw_mem d) p = page_of (sw_mem w) p.

(** A page the destination lacks is about to be sent ([todo]), or dirty and
    will be found so: in this pass ([ahead]) or, while writers live, in a
    later one. *)
Definition sync (todo ahead : Z -> Prop) (w : sworld) (d : dworld) : Prop :=
  forall p, ram_page p ->
    clean w d p \/ todo p \/ (dirty w p /\ (live w = true \/ ahead p)).

Lemma sync_evolves todo ahead w w' d : evolves w w' -> sync todo ahead w d -> sync todo ahead w' d.
Proof.
  intros Hw Hs p Hp. unfold clean. rewrite (evolves_live _ _ Hw).
  pose proof (ev_dirty _ _ Hw p) as Hd.
  destruct (Hs p Hp) as [Hc|[?|[? ?]]]; [|by auto..].
  destruct (ev_page _ _ Hw p (proj1 Hp)) as [->|[? ?]]; auto.
Qed.

Lemma sync_mono (todo ahead todo' ahead' : Z -> Prop) w d :
  (forall p, ram_page p -> todo p -> todo' p) -> (forall p, ram_page p -> ahead p -> ahead' p) ->
  sync todo ahead w d -> sync todo' ahead' w d.
Proof. intros Ht Ha Hs p Hp. destruct (Hs p Hp) as [?|[?|[? [?|?]]]]; auto 6. Qed.

(** Every page of RAM can be read on the source and written on the
    destination. *)
Lemma region_of p (pm : physmap.PhysMap) :
  physmap.region_list pm = physmap.region_list spm -> physmap_inv.wf pm -> ram_page p ->
  exists r, r ∈ physmap.regions pm /\ physmap.r_kind r = physmap.Ram /\
    physmap.r_gpa r <= p /\ p + PAGE_SIZE <= physmap.r_gpa r + physmap.r_len r /\ 0 <= p /\
    physmap.r_gpa r + physmap.r_len r < 2 ^ 64.
Proof.
  intros Heq [Hwf _] (_ & gpa & len & Hin & Hlo & Hhi). rewrite <- Heq in Hin.
  apply list_elem_of_fmap in Hin as (r & [= -> -> Hk] & Hr).
  pose proof (physmap_inv.wr_region _ Hwf r Hr) as (? & ? & ?).
  exists r. split_and!; try done. lia.
Qed.

Lemma ram_page_uint p : ram_page p -> uint 64 p.
Proof.
  intros Hp. destruct (region_of p spm eq_refl Hspm Hp) as (r & _ & _ & _ & ? & ? & ?).
  unfold uint, PAGE_SIZE in *. lia.
Qed.

Lemma source_readable p : ram_page p -> is_ok (mem_read_view spm p PAGE) = true.
Proof.
  intros Hp. destruct (region_of p spm eq_refl Hspm Hp) as (r & Hr & _ & Hlo & Hhi & H0 & Hlt).
  destruct Hspm as [Hwf _]. assert (0 < PAGE_SIZE) by done. unfold mem_read_view, physmap.lookup_untracked. rewrite Z_PAGE.
  unfold checked_add at 1. destruct (Z.ltb_spec (p + PAGE_SIZE) (2 ^ 64)); [|lia]. cbv iota.
  rewrite (proj2 (physmap_inv.region_at_spec _ p r Hwf))
    by (split; [done|unfold physmap_inv.inr, PAGE_SIZE in *; lia]).
  rewrite (physmap_inv.r_end_eq r) by by apply (physmap_inv.wr_region _ Hwf).
  destruct (Z.ltb_spec (physmap.r_gpa r + physmap.r_len r) (p + PAGE_SIZE)); [lia|].
  pose proof (physmap_inv.wr_region _ Hwf r Hr) as (? & ? & ?).
  rewrite wsub_small by lia. unfold subregion, checked_add.
  destruct (physmap_inv.wr_direct _ Hwf r Hr) as [Hml Hmp].
  destruct (Z.ltb_spec (p - physmap.r_gpa r + PAGE_SIZE) (2 ^ 64)); [|lia].
  cbn [sub_new s_len]. rewrite Hml.
  destruct (Z.ltb_spec (physmap.r_len r) (p - physmap.r_gpa r + PAGE_SIZE)); [lia|].
  cbn [ok_or s_prot s_len sub_new]. by rewrite Hmp.
Qed.

Lemma dest_writable p : ram_page p ->
  exists v, mem_lookup dpm p PAGE_SIZE = Some v /\ contains (s_prot v) WRITE = true.
Proof.
  intros Hp. destruct (region_of p dpm Hsame Hdpm Hp) as (r & Hr & Hk & Hlo & Hhi & H0 & Hlt).
  pose proof Hdpm as [Hwf _]. pose proof (physmap_inv.wr_in_run _ Hwf r Hr) as (? & ? & ?).
  destruct (physmap_inv.lookup_intro dpm p PAGE_SIZE r) as [v Hv]; try done; try lia.
  { unfold physmap_inv.inr, PAGE_SIZE in *. lia. }
  exists (guest_view p v). unfold mem_lookup. rewrite Hv. split; [done|].
  apply physmap_inv.lookup_inv in Hv as (r' & Hr' & Ha & _ & _ & ->); try done.
  assert (r' = r) as -> by (apply (physmap_inv.inr_unique (physmap.regions dpm) r' r p);
    [done..|unfold physmap_inv.inr, PAGE_SIZE in *; lia]).
  destruct (physmap_inv.prot_of_kind _ r Hwf Hr) as [_ Hw]. simpl. by rewrite Hw, Hk.
Qed.

Lemma preflight_ram gm gpas : Forall ram_page gpas -> preflight dpm gm gpas = Ok tt.
Proof.
  induction 1 as [|p gpas Hp _ IH]; [done|]. simpl.
  destruct (dest_writable p Hp) as (v & Hv & Hw).
  destruct (mem_lookup_view dpm p PAGE_SIZE v Hv) as [_ Hl].
  rewrite Hv. simpl. unfold write_bytes. by rewrite Hw, Hl.
Qed.

(** ** Messages between the two *)

Lemma J_send_src m k w dp d sd ds :
  (forall w', evolves w w' -> J (k (Ok tt)) w' dp d (sd ++ [encode m]) ds) ->
  J (bind (send m) k) w dp d sd ds.
Proof. intros Hk. eapply J_src; [reflexivity|]. apply Hk, turn_evolves. Qed.

Lemma J_send_dst m k sp w d sd ds :
  J sp w (k (Ok tt)) d sd (ds ++ [encode m]) -> J sp w (bind (send m) k) d sd ds.
Proof. intros Hk. eapply J_dst; [reflexivity|]. apply Hk. Qed.

Lemma J_recv_src m k w dp d sd ds :
  msg_ok m -> (forall w', evolves w w' -> J (k (Ok m)) w' dp d sd ds) ->
  J (bind recv k) w dp d sd (encode m :: ds).
Proof.
  intros Hm Hk. eapply J_src; [reflexivity|]. rewrite app_nil_r. cbn [bind map_err].
  rewrite decode_encode by done. apply Hk, turn_evolves.
Qed.

Lemma J_recv_dst m k sp w d sd ds :
  msg_ok m -> J sp w (k (Ok m)) d sd ds -> J sp w (bind recv k) d (encode m :: sd) ds.
Proof.
  intros Hm Hk. eapply J_dst; [reflexivity|]. rewrite app_nil_r. cbn [bind map_err].
  by rewrite decode_encode by done.
Qed.

Lemma J_status_src f k w dp d sd ds :
  (forall w', evolves w w' -> J (k tt) w' dp d sd ds) ->
  J (bind (act (EStatus f)) k) w dp d sd ds.
Proof.
  intros Hk. eapply J_src; [reflexivity|]. rewrite app_nil_r. apply Hk.
  eapply evolves_trans; [apply turn_evolves|apply status_evolves].
Qed.

Lemma J_read gpas k w dp d sd ds :
  Forall ram_page gpas ->
  (forall w' pages, evolves w w' -> Forall2 (fun p bs => length bs = PAGE /\ fresh w' p bs) gpas pages ->
     J (k (Ok (concat pages))) w' dp d sd ds) ->
  J (bind (read_pages_loop spm gpas) k) w dp d sd ds.
Proof.
  intros Hg. revert k w. induction Hg as [|p gpas Hp Hg IH]; intros k w Hk.
  { apply (Hk w []); [apply evolves_refl|constructor]. }
  cbn [read_pages_loop]. pose proof (source_readable p Hp) as Hv.
  destruct (mem_read_view spm p PAGE); [|done].
  cbn [bind act]. pose proof (read_live_page p (turn w) (proj1 Hp)) as Hr.
  destruct (read_live PAGE p (turn w)) as [bs w1] eqn:Hrl. destruct Hr as (He1 & Hl1 & Hf1).
  eapply J_src.
  { simpl src_do. rewrite Hrl. reflexivity. }
  rewrite app_nil_r, bind_bindr. apply IH. intros w2 pages He2 Hpages.
  apply (Hk w2 (bs :: pages)).
  - eapply evolves_trans; [apply turn_evolves|]. by eapply evolves_trans.
  - constructor; [|done]. split; [done|]. eapply fresh_evolves; [apply Hp|done|done].
Qed.

(** ** A batch reaches the destination *)

Lemma unpack_raw raw e : Z.of_nat (length raw) = e -> unpack 0 raw e = Ok raw.
Proof.
  intros Hl. unfold unpack. assert ((Z.of_nat (length raw) =? e) = true) as Heq by (by apply Z.eqb_eq).
  simpl. rewrite Heq. simpl. by rewrite Heq.
Qed.

Lemma unpack_compress raw n data flags :
  Z.of_nat (length raw) = n * PAGE_SIZE -> n <= MAX_PAGES_PER_BATCH ->
  compress raw = (data, flags) -> unpack flags data (n * PAGE_SIZE) = Ok raw /\ flags_ok flags.
Proof.
  intros Hl Hn. unfold compress. destruct (zstd_compress raw) as [c|] eqn:Hc.
  - destruct (Nat.ltb_spec (length c) (length raw)) as [Hlt|]; intros [= <- <-].
    + split; [|by right]. unfold unpack.
      change (Z.land PAGE_BATCH_FLAG_ZSTD PAGE_BATCH_FLAG_ZSTD) with 1. cbn [negb Z.eqb].
      destruct (Z.ltb_spec MAX_BATCH_COMPRESSED_BYTES (Z.of_nat (length c))).
      { exfalso. change MAX_BATCH_COMPRESSED_BYTES with 1183744 in *.
        change MAX_PAGES_PER_BATCH with 256 in *. change PAGE_SIZE with 4096 in *. lia. }
      rewrite <- Hl, (Hzstd raw c Hc). cbn [ok_or]. by rewrite Z.eqb_refl.
    + split; [by apply unpack_raw|by left].
  - intros [= <- <-]. split; [by apply unpack_raw|by left].
Qed.

Lemma length_concat_pages (pages : list (list Z)) :
  Forall (fun bs => length bs = PAGE) pages ->
  Z.of_nat (length (concat pages)) = Z.of_nat (length pages) * PAGE_SIZE.
Proof.
  induction 1 as [|bs pages Hb _ IH]; [done|]. cbn [concat length].
  rewrite length_app, Nat2Z.inj_add, IH, Hb, Z_PAGE. lia.
Qed.

Lemma as_chunks_concat (pages : list (list Z)) :
  Forall (fun bs => length bs = PAGE) pages -> as_chunks (concat pages) = pages.
Proof.
  intros Hp. unfold as_chunks.
  assert (length (concat pages) = length pages * PAGE)%nat as Hl.
  { apply Nat2Z.inj. by rewrite Nat2Z.inj_mul, Z_PAGE, length_concat_pages. }
  rewrite Hl, Nat.div_mul by by vm_compute. clear Hl.
  induction Hp as [|bs pages Hb _ IH]; [done|]. cbn [length]. rewrite <- cons_seq, fmap_cons.
  f_equal.
  - rewrite Nat.mul_0_l. cbn [concat drop]. by apply take_app_length'.
  - rewrite <- fmap_S_seq, <- list_fmap_compose. etransitivity; [|apply IH].
    apply list_fmap_ext. intros i x _. unfold compose. cbn [concat].
    rewrite Nat.mul_succ_l, Nat.add_comm, <- drop_drop, drop_app_length' by done. done.
Qed.

Lemma J_batch gpas pages base data flags fuel until sparse kd sp w d ds :
  Forall ram_page gpas -> length gpas = length pages ->
  Forall (fun bs => length bs = PAGE) pages ->
  0 < Z.of_nat (length pages) <= MAX_PAGES_PER_BATCH -> uint 64 base ->
  compress (concat pages) = (data, flags) ->
  batch_gpas base (Z.of_nat (length pages)) sparse = Ok gpas ->
  (forall st, J sp w (bind (receive_pass fuel dpm until None) kd)
     (mkDW (poke_pages (dw_mem d) (zip gpas pages)) st) [] ds) ->
  J sp w (bind (receive_pass (S fuel) dpm until sparse) kd) d
    [encode (PageBatch base (Z.of_nat (length pages)) flags data)] ds.
Proof.
  intros Hg Hlg Hp Hn Hb Hc Hbg Hk. pose proof (length_concat_pages pages Hp) as Hraw.
  destruct (unpack_compress _ _ _ _ Hraw (proj2 Hn) Hc) as [Hu Hf].
  cbn [receive_pass]. rewrite bind_bindr. apply J_recv_dst; [done|].
  rewrite bind_bindr. cbn [bind act].
  assert (Ha : batch_pages dpm (dw_mem d) base (Z.of_nat (length pages)) flags data sparse =
    Ok (zip gpas pages)).
  { unfold batch_pages, checked_mul. unfold MAX_PAGES_PER_BATCH, PAGE_SIZE in *.
    replace (_ || _) with false by (symmetry; apply orb_false_iff; split; lia).
    rewrite (proj2 (flags_ok_spec flags ltac:(destruct Hf; subst; done)) Hf). cbn [negb].
    destruct (Z.ltb_spec (Z.of_nat (length pages) * 4096) (2 ^ 64)); [|lia]. cbn [ok_or].
    rewrite Hu, Hbg, preflight_ram by done. by rewrite as_chunks_concat. }
  eapply J_dst.
  { cbn [dst_do]. unfold apply_page_batch. rewrite Ha.
    rewrite (write_pages_ok dpm (dw_mem d) gpas); [reflexivity|by apply preflight_ram|].
    rewrite <- (as_chunks_concat pages Hp). apply zip_pages. }
  rewrite app_nil_r. apply Hk.
Qed.

Lemma pages_apart p q :
  p mod PAGE_SIZE = 0 -> q mod PAGE_SIZE = 0 -> p <> q -> p + PAGE_SIZE <= q \/ q + PAGE_SIZE <= p.
Proof.
  intros Hp Hq Hne. pose proof (Z.div_mod p PAGE_SIZE). pose proof (Z.div_mod q PAGE_SIZE).
  unfold PAGE_SIZE in *. lia.
Qed.

Abbreviation read_fresh w := (Forall2 (fun p bs => length bs = PAGE /\ fresh w p bs)).

Lemma sync_sent todo ahead w d gpas pages st :
  sync todo ahead w d -> Forall ram_page gpas -> NoDup gpas -> read_fresh w gpas pages ->
  sync (fun p => todo p /\ p ∉ gpas) ahead w (mkDW (poke_pages (dw_mem d) (zip gpas pages)) st).
Proof.
  intros Hs Hg Hnd Hf p Hp. rewrite Forall_forall in Hg.
  assert (Hz : forall i q bs, zip gpas pages !! i = Some (q, bs) ->
    gpas !! i = Some q /\ length bs = PAGE /\ fresh w q bs /\ q mod PAGE_SIZE = 0).
  { intros i q bs [Hi Hb]%lookup_zip_Some. destruct (Forall2_lookup_lr _ _ _ _ _ _ Hf Hi Hb).
    split_and!; try done. apply (Hg q). by eapply list_elem_of_lookup_2. }
  destruct (decide (p ∈ gpas)) as [Hin|Hout].
  - apply list_elem_of_lookup in Hin as [i Hi].
    destruct (Forall2_lookup_l _ _ _ _ _ Hf Hi) as (bs & Hb & Hl & Hfr).
    assert (Hzi : zip gpas pages !! i = Some (p, bs)) by (by apply lookup_zip_Some).
    destruct Hfr as [->|[? ?]]; [left|by auto].
    unfold clean, page_of at 1. simpl. rewrite <- Hl at 1. apply (poke_pages_in _ _ i); [done|].
    intros j q bs' Hij Hj. destruct (Hz _ _ _ Hj) as (Hq & -> & _ & Hqm).
    rewrite Hl, Z_PAGE. destruct (pages_apart p q (proj1 Hp) Hqm) as [?|?]; [|lia..].
    intros ->. assert (i = j) by by eapply NoDup_lookup. lia.
  - assert (page_of (poke_pages (dw_mem d) (zip gpas pages)) p = page_of (dw_mem d) p) as Heq.
    { apply peek_range_ext. intros i Hi. apply poke_pages_out, Forall_forall.
      intros [q bs] [j Hj]%list_elem_of_lookup. destruct (Hz _ _ _ Hj) as (Hq & -> & _ & Hqm).
      rewrite Z_PAGE.
      destruct (pages_apart p q (proj1 Hp) Hqm) as [?|?]; [|rewrite <- Z_PAGE in *; lia..].
      intros ->. apply Hout. by eapply list_elem_of_lookup_2. }
    destruct (Hs p Hp) as [Hc|[?|?]]; [left|by auto..]. unfold clean in *. simpl. congruence.
Qed.

(** ** Sending a list of pages *)

Definition span (base : Z) (n : nat) : list Z :=
  (fun i => base + Z.of_nat i * PAGE_SIZE) <$> seq 0 n.

Lemma contiguous_loop_span base idx :
  0 <= base -> Forall (fun i => base + Z.of_nat i * PAGE_SIZE < 2 ^ 64) idx ->
  contiguous_loop base idx = Ok ((fun i => base + Z.of_nat i * PAGE_SIZE) <$> idx).
Proof.
  intros H0. induction 1 as [|i idx Hi _ IH]; [done|]. cbn [contiguous_loop fmap list_fmap].
  unfold nth_gpa, checked_mul, checked_add. assert (0 < PAGE_SIZE) by done.
  destruct (Z.ltb_spec (Z.of_nat i * PAGE_SIZE) (2 ^ 64)); [|lia]. cbn [ok_or].
  destruct (Z.ltb_spec (base + Z.of_nat i * PAGE_SIZE) (2 ^ 64)); [|lia]. cbn [ok_or].
  by rewrite IH.
Qed.

Lemma build_span base n :
  0 <= base -> (0 < n <= 256)%nat -> Forall ram_page (span base n) ->
  build_contiguous_gpas base n = Ok (span base n).
Proof.
  intros H0 Hn Hr. unfold build_contiguous_gpas, page_buffer_len, checked_mul.
  change MAX_PAGES_PER_BATCH with 256. change PAGE_SIZE with 4096.
  replace (_ || _) with false by (symmetry; apply orb_false_iff; split; lia).
  destruct (Z.ltb_spec (Z.of_nat n * 4096) (2 ^ 64)); [|lia]. cbn [ok_or].
  apply contiguous_loop_span; [done|]. unfold span in Hr. rewrite Forall_fmap in Hr.
  eapply Forall_impl; [exact Hr|]. intros i Hi. by apply (ram_page_uint _ Hi).
Qed.

Lemma buffer_len n : (0 < n <= 256)%nat -> page_buffer_len (Z.of_nat n) = Ok (Z.of_nat n * PAGE_SIZE).
Proof.
  intros Hn. unfold page_buffer_len, checked_mul. change MAX_PAGES_PER_BATCH with 256.
  change PAGE_SIZE with 4096.
  replace (_ || _) with false by (symmetry; apply orb_false_iff; split; lia).
  by destruct (Z.ltb_spec (Z.of_nat n * 4096) (2 ^ 64)); [|lia].
Qed.

Lemma read_fresh_evolves w w' gpas pages :
  Forall ram_page gpas -> evolves w w' -> read_fresh w gpas pages -> read_fresh w' gpas pages.
Proof.
  intros Hg He. induction 1 as [|p bs gpas pages [Hl Hf] _ IH]; [constructor|].
  apply Forall_cons in Hg as [Hp Hg]. constructor; [|by apply IH].
  split; [done|]. eapply fresh_evolves; [apply Hp|done|done].
Qed.

Abbreviation dst_pass fuel until kd := (bind (receive_pass fuel dpm until None) kd).

Lemma J_fetch gpas fuel until kd sp w d sd ds :
  Forall ram_page gpas -> (length gpas <= 256)%nat ->
  J sp w (bind (receive_pass fuel dpm until (Some gpas)) kd) d sd ds ->
  J sp w (dst_pass (S fuel) until kd) d (encode (MemFetch gpas) :: sd) ds.
Proof.
  intros Hg Hn Hk. cbn [receive_pass]. rewrite bind_bindr. apply J_recv_dst; [|done].
  split; [|change MAX_SPARSE_GPAS with 256; lia]. apply Hron.
  eapply Forall_impl; [exact Hg|]. apply ram_page_uint.
Qed.

(** Pages just read go out as a batch, with a list of addresses before it
    when they are not contiguous. *)
Lemma J_send_pages gpas pages base raw_size fetch fuel until kd k w d todo ahead :
  Forall ram_page gpas -> NoDup gpas -> (0 < length gpas <= 256)%nat -> uint 64 base ->
  batch_gpas base (Z.of_nat (length gpas)) fetch = Ok gpas -> (fetch = None \/ fetch = Some gpas) ->
  read_fresh w gpas pages -> sync todo ahead w d ->
  (forall w' d' fuel', evolves w w' -> (fuel <= fuel')%nat ->
     sync (fun p => todo p /\ p ∉ gpas) ahead w' d' ->
     J (k (Ok tt)) w' (dst_pass fuel' until kd) d' [] []) ->
  J (bind (send_pages base (length gpas) raw_size (concat pages) fetch) k) w
    (dst_pass (S (S fuel)) until kd) d [] [].
Proof.
  intros Hg Hnd Hn Hb Hbg Hfetch Hrf Hs Hk. pose proof (Forall2_length _ _ _ Hrf) as Hlen'.
  assert (Hpl : Forall (fun bs => length bs = PAGE) pages).
  { eapply Forall2_Forall_r; [exact Hrf|]. apply Forall_forall. by intros p _ bs []. }
  unfold send_pages. destruct (compress (concat pages)) as [data flags] eqn:Hc.
  assert (Hcount : page_count (length gpas) = Ok (Z.of_nat (length gpas))).
  { unfold page_count. by destruct (Z.ltb_spec (Z.of_nat (length gpas)) (2 ^ 32)); [|lia]. }
  assert (Htail : forall fuel1 sparse w1, (fuel <= fuel1)%nat -> evolves w w1 ->
    batch_gpas base (Z.of_nat (length gpas)) sparse = Ok gpas ->
    J (bind (bindr (Ret (page_count (length gpas))) (fun n =>
         bindr (send (PageBatch base n flags data)) (fun _ =>
         bind (act (EStatus (transferred (Z.of_nat (length gpas)) raw_size))) (fun _ => Ret (Ok tt))))) k)
      w1 (bind (receive_pass (S fuel1) dpm until sparse) kd) d [] []).
  { intros fuel1 sparse w1 Hf1 He1 Hsp. rewrite Hcount. cbn [bindr bind]. rewrite bind_bindr.
    apply J_send_src. intros w2 He2. cbn [app]. rewrite Hlen'.
    apply (J_batch gpas pages base data flags); try done;
      [change MAX_PAGES_PER_BATCH with 256; lia|by rewrite <- Hlen'|].
    intros st. rewrite bind_assoc. apply J_status_src. intros w3 He3. cbn [bind].
    assert (He : evolves w w3) by (eapply evolves_trans; [done|by eapply evolves_trans]).
    apply Hk; [done|done|].
    apply sync_sent; [by eapply sync_evolves|done|done|].
    by eapply read_fresh_evolves. }
  rewrite bind_bindr. destruct Hfetch as [-> | ->].
  - cbn [bind]. apply (Htail (S fuel) None); [lia|apply evolves_refl|done].
  - apply J_send_src. intros w1 He1. apply J_fetch; [done|lia|].
    apply (Htail fuel (Some gpas)); [done|done|done].
Qed.

Lemma J_send_batch base n fuel until kd k w d todo ahead :
  0 <= base -> (0 < n <= 256)%nat -> Forall ram_page (span base n) -> sync todo ahead w d ->
  (forall w' d' fuel', evolves w w' -> (fuel <= fuel')%nat ->
     sync (fun p => todo p /\ p ∉ span base n) ahead w' d' ->
     J (k (Ok tt)) w' (dst_pass fuel' until kd) d' [] []) ->
  J (bind (send_batch spm base n) k) w (dst_pass (S (S fuel)) until kd) d [] [].
Proof.
  intros Hb Hn Hr Hs Hk. assert (Hl : length (span base n) = n) by (by unfold span; rewrite length_fmap, length_seq).
  unfold send_batch. rewrite buffer_len, (build_span base n) by done. cbn [bindr bind].
  unfold read_pages. rewrite Hl, buffer_len by done. rewrite Z.eqb_refl. cbn [negb].
  rewrite bind_bindr. apply J_read; [done|]. intros w1 pages He1 Hf.
  assert (Hnd : NoDup (span base n)).
  { unfold span. apply NoDup_fmap_2; [|apply NoDup_seq]. intros i j Hij. change PAGE_SIZE with 4096 in Hij. lia. }
  rewrite <- Hl at 1.
  assert (Hp0 : uint 64 base).
  { apply ram_page_uint. rewrite Forall_forall in Hr. apply Hr. unfold span.
    apply list_elem_of_fmap. exists 0%nat. split; [lia|]. apply elem_of_seq. lia. }
  apply (J_send_pages (span base n) pages base _ None) with (todo := todo) (ahead := ahead);
    rewrite ?Hl; try done.
  - unfold batch_gpas. rewrite Nat2Z.id. by apply build_span.
  - by left.
  - by eapply sync_evolves.
  - intros w' d' fuel' He Hf' Hs'. apply Hk; [by eapply evolves_trans|done|done].
Qed.

Lemma are_contiguous_span gpas base rest :
  gpas = base :: rest -> are_contiguous gpas = true -> gpas = span base (length gpas).
Proof.
  intros -> Hc. unfold are_contiguous in Hc. rewrite forallb_forall in Hc.
  apply list_eq. intros i. unfold span. rewrite list_lookup_fmap.
  destruct ((base :: rest) !! i) as [g|] eqn:Hi.
  - assert (i < length (base :: rest))%nat by by eapply lookup_lt_Some.
    rewrite lookup_seq_lt by done. simpl fmap. cbn [option_fmap option_map].
    specialize (Hc (i, g)). rewrite <- list_elem_of_In in Hc.
    assert (Hz : (i, g) ∈ zip (seq 0 (length (base :: rest))) (base :: rest)).
    { apply (list_elem_of_lookup_2 _ i), lookup_zip_Some. split; [by rewrite lookup_seq_lt|done]. }
    specialize (Hc Hz). apply bool_decide_eq_true in Hc.
    unfold checked_mul, checked_add in Hc. repeat (case_match; simplify_eq). done.
  - apply lookup_ge_None in Hi. rewrite lookup_seq_ge by done. done.
Qed.

(** The whole of [send_batch_sparse]. *)
Lemma J_push gpas fuel until kd k w d todo ahead :
  gpas <> [] -> (length gpas <= 256)%nat -> NoDup gpas -> Forall ram_page gpas -> sync todo ahead w d ->
  (forall w' d' fuel', evolves w w' -> (fuel <= fuel')%nat ->
     sync (fun p => todo p /\ p ∉ gpas) ahead w' d' ->
     J (k (Ok tt)) w' (dst_pass fuel' until kd) d' [] []) ->
  J (bind (send_batch_sparse spm gpas) k) w (dst_pass (S (S fuel)) until kd) d [] [].
Proof.
  intros Hne Hn Hnd Hg Hs Hk. destruct gpas as [|base rest]; [done|].
  assert (Hp0 : uint 64 base) by (apply Forall_cons in Hg as [? _]; by apply ram_page_uint).
  unfold send_batch_sparse. destruct (are_contiguous (base :: rest)) eqn:Hc.
  - apply (are_contiguous_span _ base rest eq_refl) in Hc.
    apply (J_send_batch base) with (todo := todo) (ahead := ahead);
      [apply Hp0|simpl in *; lia|by rewrite <- Hc|done|]. by rewrite <- Hc.
  - rewrite buffer_len by (simpl in *; lia). cbn [bindr bind]. unfold read_pages.
    rewrite buffer_len by (simpl in *; lia). rewrite Z.eqb_refl. cbn [negb].
    rewrite bind_bindr. apply J_read; [done|]. intros w1 pages He1 Hf.
    apply (J_send_pages (base :: rest) pages base _ (Some (base :: rest)))
      with (todo := todo) (ahead := ahead); try done.
    + simpl in *. lia.
    + unfold batch_gpas. by rewrite Z.eqb_refl.
    + by right.
    + by eapply sync_evolves.
    + intros w' d' fuel' He Hf' Hs'. apply Hk; [by eapply evolves_trans|done|done].
Qed.

(** ** Reading the dirty log *)

Definition flags (w : sworld) : bool * bool := (sw_devs w, sw_vcpus w).

Lemma evolves_flags w w' : evolves w w' -> flags w' = flags w.
Proof. intros He. unfold flags. by rewrite (ev_devs _ _ He), (ev_vcpus _ _ He). Qed.

Lemma flags_live w w' : flags w' = flags w -> live w' = live w.
Proof. unfold flags, live. by intros [= -> ->]. Qed.

Lemma bit_at_splice_low bm lo bits i :
  0 <= lo -> (Z.to_nat lo <= length bm)%nat -> 0 <= i < lo * 8 ->
  bit_at (splice bm lo bits) (Z.to_nat i) = bit_at bm (Z.to_nat i).
Proof.
  intros Hlo Hl Hi. unfold bit_at, splice. replace (Z.to_nat i / 8)%nat with (Z.to_nat (i / 8))
    by (by rewrite Z2Nat.inj_div by lia).
  assert (Hd : 0 <= i / 8 < lo) by (pose proof (Z.div_mod i 8); pose proof (Z.mod_pos_bound i 8); lia).
  rewrite lookup_app_l by (rewrite length_take; lia). rewrite lookup_take_lt by lia. done.
Qed.

Lemma bit_at_splice_in bm lo bits j :
  0 <= lo -> (Z.to_nat lo <= length bm)%nat -> 0 <= j -> (Z.to_nat (j / 8) < length bits)%nat ->
  bit_at (splice bm lo bits) (Z.to_nat (lo * 8 + j)) = bit_at bits (Z.to_nat j).
Proof.
  intros Hlo Hl Hj Hlt. unfold bit_at, splice.
  assert (Hq : (lo * 8 + j) / 8 = lo + j / 8) by (rewrite Z.div_add_l by lia; done).
  assert (Hm : (lo * 8 + j) mod 8 = j mod 8) by (rewrite Z.add_comm, Z.mod_add by lia; done).
  replace (Z.to_nat (lo * 8 + j) / 8)%nat with (Z.to_nat ((lo * 8 + j) / 8)) by (by rewrite Z2Nat.inj_div by lia).
  replace (Z.to_nat (lo * 8 + j) mod 8)%nat with (Z.to_nat ((lo * 8 + j) mod 8)) by (by rewrite Z2Nat.inj_mod by lia).
  replace (Z.to_nat j / 8)%nat with (Z.to_nat (j / 8)) by (by rewrite Z2Nat.inj_div by lia).
  replace (Z.to_nat j mod 8)%nat with (Z.to_nat (j mod 8)) by (by rewrite Z2Nat.inj_mod by lia).
  rewrite Hq, Hm. assert (0 <= j / 8) by (apply Z.div_pos; lia).
  rewrite lookup_app_r by (rewrite length_take; lia). rewrite length_take, Nat.min_l by done.
  rewrite lookup_app_l by lia.
  by replace (Z.to_nat (lo + j / 8) - Z.to_nat lo)%nat with (Z.to_nat (j / 8)) by lia.
Qed.

Lemma div_ceil_8 x : 0 <= x -> x <= div_ceil x 8 * 8 < x + 8.
Proof. intros. unfold div_ceil. pose proof (Z.div_mod (x + 8 - 1) 8). pose proof (Z.mod_pos_bound (x + 8 - 1) 8). lia. Qed.

(** What a pass knows after the log of [start, g) was read into [bm]. *)
Definition found (bm : list Z) (start g : Z) (p : Z) : Prop :=
  start <= p < g /\ bit_at bm (Z.to_nat ((p - start) / PAGE_SIZE)) = true.

(** One read of the log. *)
Lemma sync_track todo ahead w w' d start g len bm off bits :
  start mod PAGE_SIZE = 0 -> g = start + off * 8 * PAGE_SIZE ->
  0 <= off -> (Z.to_nat off <= length bm)%nat -> 0 < len ->
  length bits = Z.to_nat (div_ceil (len / PAGE_SIZE) 8) ->
  flags w' = flags w -> sw_mem w' = sw_mem w ->
  (forall q, q mod PAGE_SIZE = 0 -> dirty w q ->
     if (g <=? q) && (q <? g + len)
     then bit_at bits (Z.to_nat ((q - g) / PAGE_SIZE)) = true else dirty w' q) ->
  len mod PAGE_SIZE = 0 ->
  sync (fun p => todo p \/ found bm start g p) (fun p => ahead p /\ ~ (start <= p < g)) w d ->
  sync (fun p => todo p \/ found (splice bm off bits) start (g + len) p)
       (fun p => ahead p /\ ~ (start <= p < g + len)) w' d.
Proof.
  intros Hst Hg Hoff Hbm Hl Hbits Hfl Hmem Htr Hlm Hs p Hp. unfold clean. rewrite Hmem, (flags_live _ _ Hfl).
  assert (0 < PAGE_SIZE) by done.
  destruct (Hs p Hp) as [Hc|[[Ht|[Hr Hb]]|[Hd Ha]]]; [by auto|by auto| |].
  - right. left. right. split; [lia|]. rewrite bit_at_splice_low; [done..|].
    split; [apply Z.div_pos; lia|]. apply Z.div_lt_upper_bound; [done|]. lia.
  - specialize (Htr p (proj1 Hp) Hd).
    destruct (Z.leb_spec g p), (Z.ltb_spec p (g + len)); cbn [andb] in Htr.
    + right. left. right. split; [lia|].
      replace ((p - start) / PAGE_SIZE) with (off * 8 + (p - g) / PAGE_SIZE).
      2:{ rewrite <- Z.div_add_l by lia. f_equal. lia. }
      rewrite bit_at_splice_in; [done|done|done|apply Z.div_pos; lia|].
      rewrite Hbits. apply Z2Nat.inj_lt; [apply Z.div_pos; [apply Z.div_pos|]; lia| |].
      { pose proof (div_ceil_8 (len / PAGE_SIZE)). assert (0 <= len / PAGE_SIZE) by (apply Z.div_pos; lia). lia. }
      assert ((p - g) / PAGE_SIZE < len / PAGE_SIZE).
      { apply Z.div_lt_upper_bound; [done|]. pose proof (Z.div_mod len PAGE_SIZE). lia. }
      pose proof (div_ceil_8 (len / PAGE_SIZE)).
      apply Z.div_lt_upper_bound; [done|]. assert (0 <= len / PAGE_SIZE) by (apply Z.div_pos; lia). lia.
    + right. right. split; [done|]. destruct Ha as [?|[? ?]]; [by left|right]. split; [done|lia].
    + right. right. split; [done|]. destruct Ha as [?|[? ?]]; [by left|right]. split; [done|lia].
    + lia.
Qed.

Lemma length_splice bm lo bits :
  0 <= lo -> (Z.to_nat lo + length bits <= length bm)%nat -> length (splice bm lo bits) = length bm.
Proof.
  intros Hlo Hl. unfold splice. rewrite !length_app, length_take, length_drop. lia.
Qed.

(** Where a piece of the log lands in the bitmap. *)
Lemma chunk_fits start len g off cl :
  len mod PAGE_SIZE = 0 -> cl mod PAGE_SIZE = 0 -> 0 <= off -> 0 < cl ->
  g = start + off * 8 * PAGE_SIZE -> g + cl <= start + len ->
  off + div_ceil (cl / PAGE_SIZE) 8 <= bitmap_size len.
Proof.
  intros Hlm Hcm Hoff Hcl Hg Hle. unfold bitmap_size.
  assert (div_ceil len PAGE_SIZE = len / PAGE_SIZE) as ->.
  { unfold div_ceil. pose proof (Z.div_mod len PAGE_SIZE) as Hd. rewrite Hlm in Hd.
    replace (len + PAGE_SIZE - 1) with (len / PAGE_SIZE * PAGE_SIZE + (PAGE_SIZE - 1)) by (unfold PAGE_SIZE in *; lia).
    rewrite Z.div_add_l by done. change ((PAGE_SIZE - 1) / PAGE_SIZE) with 0. lia. }
  pose proof (Z.div_mod len PAGE_SIZE) as H1. pose proof (Z.div_mod cl PAGE_SIZE) as H2.
  rewrite Hlm in H1. rewrite Hcm in H2.
  assert (off * 8 + cl / PAGE_SIZE <= len / PAGE_SIZE) by (unfold PAGE_SIZE in *; lia).
  assert (0 <= cl / PAGE_SIZE) by (apply Z.div_pos; [lia|done]).
  pose proof (div_ceil_8 (cl / PAGE_SIZE)). pose proof (div_ceil_8 (len / PAGE_SIZE)). lia.
Qed.

Lemma J_chunks start len todo ahead k dp d sd ds fuel g off bm w :
  let e := start + len in
  0 <= start -> start mod PAGE_SIZE = 0 -> len mod PAGE_SIZE = 0 -> e < 2 ^ 64 ->
  start <= g <= e -> g mod PAGE_SIZE = 0 -> (g < e -> g = start + off * 8 * PAGE_SIZE) -> 0 <= off ->
  Z.of_nat (length bm) = bitmap_size len -> e - g <= Z.of_nat fuel * DIRTY_CHUNK ->
  sync (fun p => todo p \/ found bm start g p) (fun p => ahead p /\ ~ (start <= p < g)) w d ->
  (forall w' bm', flags w' = flags w ->
     sync (fun p => todo p \/ found bm' start e p) (fun p => ahead p /\ ~ (start <= p < e)) w' d ->
     J (k (Ok bm')) w' dp d sd ds) ->
  J (bind (track_chunks (chunk_loop fuel g e off) bm) k) w dp d sd ds.
Proof.
  intros e H0 Hsm Hlm He. revert g off bm w.
  induction fuel as [|fuel IH]; intros g off bm w Hg Hgm Hgo Hoff Hbm Hfuel Hs Hk.
  { apply (Hk w bm); [done|]. replace e with g by lia. done. }
  cbn [chunk_loop]. destruct (Z.ltb_spec g e) as [Hlt|].
  2:{ apply (Hk w bm); [done|]. replace e with g by lia. done. }
  specialize (Hgo Hlt). rewrite wsub_small by lia. set (cl := Z.min DIRTY_CHUNK (e - g)).
  assert (Hcl : 0 < cl <= DIRTY_CHUNK /\ g + cl <= e /\ (g + cl < e -> cl = DIRTY_CHUNK)) by
    (subst cl; change DIRTY_CHUNK with 1073741824; lia).
  assert (Hem : (e - g) mod PAGE_SIZE = 0).
  { subst e. rewrite Zminus_mod, Hgm, Zplus_mod, Hsm, Hlm. done. }
  assert (Hcm : cl mod PAGE_SIZE = 0).
  { subst cl. destruct (Z.min_spec DIRTY_CHUNK (e - g)) as [[_ ->]|[_ ->]]; done. }
  clearbody cl. destruct Hcl as (Hcl & Hge & Hfull).
  cbn [track_chunks bind act dc_gpa dc_len dc_lo]. pose proof (turn_evolves w) as Ht.
  destruct (dl_track_ok (sw_log (turn w)) g cl) as (bits & k' & Htr & Hbl & Hdirty); [lia|done..|].
  eapply J_src.
  { cbn [src_do]. rewrite Htr. reflexivity. }
  rewrite app_nil_r. cbn [bind].
  set (w' := mkSW _ _ _ _ _ _). pose proof (chunk_fits start len g off cl Hlm Hcm Hoff ltac:(lia) Hgo ltac:(lia)).
  assert (0 <= div_ceil (cl / PAGE_SIZE) 8).
  { pose proof (div_ceil_8 (cl / PAGE_SIZE)). assert (0 <= cl / PAGE_SIZE) by (apply Z.div_pos; [lia|done]). lia. }
  assert (Hs' : sync (fun p => todo p \/ found (splice bm off bits) start (g + cl) p)
                  (fun p => ahead p /\ ~ (start <= p < g + cl)) w' d).
  { eapply (sync_track todo ahead (turn w)); try done; [lia|lia|by eapply sync_evolves]. }
  rewrite (wadd_small 64 g cl), (wadd_small 64 off) by
    (change (DIRTY_CHUNK / PAGE_SIZE / 8) with 32768; change PAGE_SIZE with 4096 in *; lia).
  apply IH; [lia| | | | | |done|].
  - rewrite Zplus_mod, Hgm, Hcm. done.
  - intros Hlt'. rewrite (Hfull Hlt'). rewrite Hgo. change (DIRTY_CHUNK / PAGE_SIZE / 8) with 32768.
    change DIRTY_CHUNK with 1073741824. change PAGE_SIZE with 4096. lia.
  - change (DIRTY_CHUNK / PAGE_SIZE / 8) with 32768. lia.
  - rewrite length_splice by lia. done.
  - change DIRTY_CHUNK with 1073741824 in *. lia.
  - intros w2 bm2 Hf2 Hs2. apply Hk; [|done]. rewrite Hf2. exact (evolves_flags _ _ Ht).
Qed.

(** ** The regions *)

Abbreviation ram_region gpa len := ((gpa, len, physmap.Ram) ∈ physmap.region_list spm).

Lemma region_facts gpa len :
  ram_region gpa len ->
  0 <= gpa /\ 0 < len /\ gpa + len < 2 ^ 64 /\ gpa mod PAGE_SIZE = 0 /\ len mod PAGE_SIZE = 0.
Proof.
  intros Hin. pose proof (Hlen _ _ Hin) as Hl. destruct Hspm as [Hwf _].
  apply list_elem_of_fmap in Hin as (r & [= -> -> _] & Hr).
  destruct (physmap_inv.wr_region _ Hwf r Hr) as (? & ? & ?).
  destruct (physmap_inv.wr_page _ Hwf r Hr) as [Hp _]. done.
Qed.

Lemma J_track gpa len todo ahead k w dp d sd ds :
  ram_region gpa len -> sync todo ahead w d ->
  (forall w' bm, flags w' = flags w ->
     sync (fun p => todo p \/ found bm gpa (gpa + len) p)
          (fun p => ahead p /\ ~ (gpa <= p < gpa + len)) w' d ->
     J (k (Ok bm)) w' dp d sd ds) ->
  J (bind (track_dirty_pages gpa len) k) w dp d sd ds.
Proof.
  intros Hr Hs Hk. destruct (region_facts gpa len Hr) as (H0 & Hl & Hhi & Hgm & Hlm).
  assert (Hb : 0 <= bitmap_size len).
  { pose proof (chunk_fits gpa len gpa 0 len Hlm Hlm ltac:(lia) Hl ltac:(lia) ltac:(lia)) as Hc.
    pose proof (div_ceil_8 (len / PAGE_SIZE)). assert (0 <= len / PAGE_SIZE) by (apply Z.div_pos; [lia|done]). lia. }
  unfold track_dirty_pages, dirty_chunks, is_multiple_of, checked_add.
  rewrite length_replicate, Z2Nat.id by done. rewrite (proj2 (Z.eqb_eq _ 0) Hgm), (proj2 (Z.eqb_eq _ 0) Hlm).
  cbn [negb orb]. destruct (Z.ltb_spec (gpa + len) (2 ^ 64)); [|lia]. cbn [ok_or].
  destruct (Z.ltb_spec (bitmap_size len) (div_ceil (len / PAGE_SIZE) 8)) as [Hlt|].
  { pose proof (chunk_fits gpa len gpa 0 len Hlm Hlm ltac:(lia) Hl ltac:(lia) ltac:(lia)). lia. }
  apply (J_chunks gpa len todo ahead); try done; try lia.
  - rewrite length_replicate, Z2Nat.id by done. done.
  - unfold div_ceil. pose proof (Z.div_mod (len + DIRTY_CHUNK - 1) DIRTY_CHUNK).
    pose proof (Z.mod_pos_bound (len + DIRTY_CHUNK - 1) DIRTY_CHUNK).
    assert (0 <= (len + DIRTY_CHUNK - 1) / DIRTY_CHUNK) by (apply Z.div_pos; change DIRTY_CHUNK with 1073741824; lia).
    change DIRTY_CHUNK with 1073741824 in *. lia.
  - eapply sync_mono; [| |exact Hs]; [by auto|]. intros p _ Ha. split; [done|lia].
Qed.

Lemma page_iter_elem bm gpa len p :
  ram_region gpa len ->
  p ∈ page_iter bm gpa len <->
  p mod PAGE_SIZE = 0 /\ gpa <= p /\ p + PAGE_SIZE <= gpa + len /\
    bit_at bm (Z.to_nat ((p - gpa) / PAGE_SIZE)) = true.
Proof.
  intros Hr. destruct (region_facts gpa len Hr) as (H0 & Hl & Hhi & Hgm & Hlm).
  pose proof (Z.div_mod len PAGE_SIZE) as Hd. rewrite Hlm in Hd.
  unfold page_iter. rewrite list_elem_of_omap. split.
  - intros (i & Hi & Hb). apply elem_of_seq in Hi. destruct (bit_at bm i) eqn:Hbit; [|done].
    change PAGE_SIZE with 4096 in *. rewrite wmul_small, wadd_small in Hb by lia. simplify_eq.
    rewrite Zplus_mod, Hgm, Z.mod_mul by done. split_and!; [done|lia|lia|].
    replace (gpa + Z.of_nat i * 4096 - gpa) with (Z.of_nat i * 4096) by lia.
    rewrite Z.div_mul by done. by rewrite Nat2Z.id.
  - intros (Hpm & Hlo & Hhi' & Hb). exists (Z.to_nat ((p - gpa) / PAGE_SIZE)).
    assert (Hm : (p - gpa) mod PAGE_SIZE = 0) by (rewrite Zminus_mod, Hpm, Hgm; done).
    pose proof (Z.div_mod (p - gpa) PAGE_SIZE) as Hd'. rewrite Hm in Hd'.
    change PAGE_SIZE with 4096 in *. split; [apply elem_of_seq; lia|].
    rewrite Hb, Z2Nat.id, wmul_small, wadd_small by lia. f_equal. lia.
Qed.

Lemma page_iter_nodup bm gpa len : ram_region gpa len -> NoDup (page_iter bm gpa len).
Proof.
  intros Hr. destruct (region_facts gpa len Hr) as (H0 & Hl & Hhi & _ & _). unfold page_iter.
  assert (Hb : Forall (fun i => gpa + Z.of_nat i * PAGE_SIZE < 2 ^ 64) (seq 0 (Z.to_nat (len / PAGE_SIZE)))).
  { apply Forall_seq. intros i Hi. pose proof (Z.div_mod len PAGE_SIZE).
    pose proof (Z.mod_pos_bound len PAGE_SIZE). change PAGE_SIZE with 4096 in *. lia. }
  pose proof (NoDup_seq 0 (Z.to_nat (len / PAGE_SIZE))) as Hnd.
  induction Hnd as [|i l Hi _ IH]; [constructor|].
  apply Forall_cons in Hb as [Hbi Hb]. simpl. specialize (IH Hb).
  destruct (bit_at bm i); [|done]. constructor; [|done].
  rewrite list_elem_of_omap. intros (j & Hj & Hjb). destruct (bit_at bm j); [|done].
  rewrite Forall_forall in Hb. specialize (Hb j Hj). change PAGE_SIZE with 4096 in *.
  rewrite !wmul_small, !wadd_small in Hjb by lia. simplify_eq.
  assert (i = j) as -> by lia. done.
Qed.

Lemma page_iter_length bm gpa len : (length (page_iter bm gpa len) <= Z.to_nat (len / PAGE_SIZE))%nat.
Proof.
  unfold page_iter. etransitivity; [|apply Nat.eq_le_incl, (length_seq (Z.to_nat (len / PAGE_SIZE)) 0)].
  set (f := fun bit : nat => _). generalize (seq 0 (Z.to_nat (len / PAGE_SIZE))). intros l.
  induction l as [|i l IH]; [done|]. cbn [omap list_omap length].
  destruct (f i); cbn [length]; lia.
Qed.

Lemma page_iter_ram bm gpa len : ram_region gpa len -> Forall ram_page (page_iter bm gpa len).
Proof.
  intros Hr. apply Forall_forall. intros p (Hm & ? & ? & _)%page_iter_elem; [|done].
  split; [done|]. by exists gpa, len.
Qed.

Lemma J_push_dirty batch gpas fuel F until kd k w d todo ahead :
  (length batch < BATCH_SIZE)%nat -> NoDup (batch ++ gpas) -> Forall ram_page (batch ++ gpas) ->
  sync todo ahead w d -> (2 * length (batch ++ gpas) + fuel <= F)%nat ->
  (forall w' d' fuel', flags w' = flags w -> (fuel <= fuel')%nat ->
     sync (fun p => todo p /\ p ∉ batch ++ gpas) ahead w' d' ->
     J (k (Ok tt)) w' (dst_pass fuel' until kd) d' [] []) ->
  J (bind (push_dirty spm batch gpas) k) w (dst_pass F until kd) d [] [].
Proof.
  revert batch F k w d todo.
  induction gpas as [|gpa gpas IH]; intros batch F k w d todo Hb Hnd Hr Hs HF Hk.
  - rewrite app_nil_r in *. cbn [push_dirty]. destruct batch as [|b batch].
    { apply Hk; [done|simpl in *; lia|]. eapply sync_mono; [| |exact Hs]; [|done].
      intros p _ Ht. split; [done|apply not_elem_of_nil]. }
    destruct F as [|[|F]]; [simpl in *; lia..|].
    apply (J_push (b :: batch)) with (todo := todo) (ahead := ahead); try done.
    { change BATCH_SIZE with 64%nat in Hb. lia. }
    intros w' d' fuel' He Hf. apply Hk; [by apply evolves_flags|simpl in *; lia].
  - cbn [push_dirty]. rewrite cons_middle, app_assoc in Hnd, Hr, HF.
    destruct (Nat.leb_spec BATCH_SIZE (length (batch ++ [gpa]))) as [Hfull|].
    + rewrite bind_bindr. rewrite length_app in HF.
      assert (length (batch ++ [gpa]) = 64%nat) as Hl64.
      { change BATCH_SIZE with 64%nat in *. rewrite length_app in *. simpl in *. lia. }
      destruct F as [|[|F]]; [lia..|].
      apply NoDup_app in Hnd as (Hnd1 & Hdis & Hnd2). apply Forall_app in Hr as [Hr1 Hr2].
      apply (J_push (batch ++ [gpa])) with (todo := todo) (ahead := ahead); try done; [by destruct batch|lia|].
      intros w1 d1 F1 He1 HF1 Hs1. apply (IH [] F1 _ _ _ _ ltac:(simpl; change BATCH_SIZE with 64%nat; lia) Hnd2 Hr2 Hs1).
      { simpl. lia. }
      intros w2 d2 F2 Hf2 HF2 Hs2. apply Hk; [|done|].
      { rewrite Hf2. by apply evolves_flags. }
      eapply sync_mono; [| |exact Hs2]; [|done]. intros p _ [[Ht H1] H2]. split; [done|].
      rewrite cons_middle, app_assoc, elem_of_app. intros [?|?]; done.
    + apply (IH (batch ++ [gpa]) F _ _ _ todo); try done.
      rewrite <- app_assoc. done.
Qed.

(** ** A whole pass *)

(** Messages a pass can take: two for every page of RAM. *)
Fixpoint ram_pages (rs : list (Z * Z * physmap.RegionKind)) : nat :=
  match rs with
  | [] => 0
  | (_, len, physmap.Ram) :: rs => Z.to_nat (len / PAGE_SIZE) + ram_pages rs
  | _ :: rs => ram_pages rs
  end.

Abbreviation none := (fun _ : Z => False).

Lemma in_regions_cons_other gpa len kind rs p :
  kind <> physmap.Ram -> in_regions ((gpa, len, kind) :: rs) p -> in_regions rs p.
Proof.
  intros Hk (g & l & Hin & Hp). exists g, l. split; [|done].
  apply elem_of_cons in Hin as [[= -> -> <-]|]; done.
Qed.

Lemma in_regions_cons_out gpa len rs p :
  in_regions ((gpa, len, physmap.Ram) :: rs) p -> ~ (gpa <= p < gpa + len) -> in_regions rs p.
Proof.
  intros (g & l & Hin & Hp) Hout. exists g, l. split; [|done]. assert (0 < PAGE_SIZE) by done.
  apply elem_of_cons in Hin as [[= -> ->]|]; [lia|done].
Qed.

Lemma J_push_regions rs total fuel F until kd k w d :
  rs ⊆ physmap.region_list spm -> sync none (in_regions rs) w d -> (2 * ram_pages rs + fuel <= F)%nat ->
  (forall n w' d' fuel', flags w' = flags w -> (fuel <= fuel')%nat -> sync none none w' d' ->
     J (k (Ok n)) w' (dst_pass fuel' until kd) d' [] []) ->
  J (bind (push_regions spm rs total) k) w (dst_pass F until kd) d [] [].
Proof.
  revert total F w d. induction rs as [|[[gpa len] kind] rs IH]; intros total F w d Hin Hs HF Hk.
  { apply Hk; [done|simpl in HF; lia|]. eapply sync_mono; [| |exact Hs]; [done|].
    intros p _ (g & l & Hp & _). by apply not_elem_of_nil in Hp. }
  assert (Hrs : rs ⊆ physmap.region_list spm) by set_solver.
  destruct kind; cbn [push_regions ram_pages] in *.
  - assert (Hr : ram_region gpa len) by set_solver.
    rewrite bind_assoc. apply (J_track gpa len none (in_regions ((gpa, len, physmap.Ram) :: rs))); [done|done|].
    intros w1 bm Hf1 Hs1. rewrite bind_bindr. cbn [map_err bind]. rewrite bind_bindr.
    pose proof (page_iter_length bm gpa len).
    eapply (J_push_dirty [] (page_iter bm gpa len) (2 * ram_pages rs + fuel)); simpl app;
      [simpl; change BATCH_SIZE with 64%nat; lia|by apply page_iter_nodup|by apply page_iter_ram|exact Hs1|lia|].
    intros w2 d2 F2 Hf2 HF2 Hs2. apply (IH _ F2); [done| |done|].
    { intros p Hp. destruct (Hs2 p Hp) as [?|[[[[]|[Hlo Hb]] Hn]|[? [?|[? ?]]]]]; [by auto| |by auto|].
      - exfalso. apply Hn, page_iter_elem; [done|]. destruct (region_facts gpa len Hr) as (? & ? & ? & Hgm & Hlm).
        split_and!; [apply Hp|lia| |done].
        assert (Hdm : (gpa + len - p) mod PAGE_SIZE = 0).
        { rewrite Zminus_mod, Zplus_mod, Hgm, Hlm, (proj1 Hp). done. }
        pose proof (Z.div_mod (gpa + len - p) PAGE_SIZE). change PAGE_SIZE with 4096 in *. lia.
      - right. right. split; [done|]. right. by eapply in_regions_cons_out. }
    intros n w3 d3 F3 Hf3. apply Hk. congruence.
  - apply (IH _ F); [done| |lia|done].
    eapply sync_mono; [| |exact Hs]; [done|]. intros p _. by apply in_regions_cons_other.
  - apply (IH _ F); [done| |lia|done].
    eapply sync_mono; [| |exact Hs]; [done|]. intros p _. by apply in_regions_cons_other.
Qed.

(** The end of a pass: the destination goes on with the same loop, or leaves it. *)
Definition after_end (until : PassEnd) (fuel : nat) (kd : result MigrateError unit -> prog (result MigrateError unit)) :
    prog (result MigrateError unit) :=
  match until with
  | EndPauseSignal => dst_pass fuel until kd
  | EndMemEnd => kd (Ok tt)
  end.

Lemma J_end_pass until fuel kd k w d :
  (forall w', evolves w w' -> J (k (Ok tt)) w' (after_end until fuel kd) d [] []) ->
  J (bind (send MemEnd) (fun r => match r with Ok _ => bind expect_mem_done k | Err e => k (Err e) end))
    w (dst_pass (S fuel) until kd) d [] [].
Proof.
  intros Hk. apply J_send_src. intros w1 He1. cbn [app receive_pass]. rewrite bind_bindr.
  apply J_recv_dst; [done|]. unfold expect_mem_done.
  destruct until; rewrite !bind_bindr; apply J_send_dst; cbn [app bind];
    (apply J_recv_src; [done|]); intros w2 He2; apply Hk; by eapply evolves_trans.
Qed.

Lemma J_push_ram fuel F until kd k w d :
  sync none (in_regions (physmap.region_list spm)) w d ->
  (2 * ram_pages (physmap.region_list spm) + S fuel <= F)%nat ->
  (forall n w' d' fuel', flags w' = flags w -> (fuel <= fuel')%nat -> sync none none w' d' ->
     J (k (Ok n)) w' (after_end until fuel' kd) d' [] []) ->
  J (bind (push_ram spm) k) w (dst_pass F until kd) d [] [].
Proof.
  intros Hs HF Hk. unfold push_ram. rewrite bind_bindr.
  apply (J_push_regions _ _ (S fuel)); [done|done|done|]. intros n w1 d1 F1 Hf1 HF1 Hs1.
  rewrite bind_assoc. apply J_status_src. intros w2 He2. destruct F1 as [|F1]; [lia|].
  rewrite bind_bindr.
  assert (Hend : J (bind (send MemEnd) (fun r => match r with
      | Ok _ => bind expect_mem_done (fun r => match r with Ok _ => k (Ok n) | Err e => k (Err e) end)
      | Err e => k (Err e) end)) w2 (dst_pass (S F1) until kd) d1 [] []).
  { apply (J_end_pass until F1 kd (fun r => match r with Ok _ => k (Ok n) | Err e => k (Err e) end)).
    intros w3 He3. assert (He : evolves w1 w3) by by eapply evolves_trans.
    apply Hk; [|lia|by eapply sync_evolves]. rewrite (evolves_flags _ _ He). done. }
  eapply eq_ind; [exact Hend|]. do 2 f_equal. extensionality r. destruct r; [|done].
  rewrite bind_bindr. done.
Qed.

(** ** The first pass *)

Lemma span_elem base n p :
  base mod PAGE_SIZE = 0 -> p mod PAGE_SIZE = 0 ->
  p ∈ span base n <-> base <= p < base + Z.of_nat n * PAGE_SIZE.
Proof.
  intros Hb Hp. unfold span. rewrite list_elem_of_fmap. split.
  - intros (i & -> & Hi%elem_of_seq). change PAGE_SIZE with 4096. lia.
  - intros Hr. exists (Z.to_nat ((p - base) / PAGE_SIZE)).
    assert (Hm : (p - base) mod PAGE_SIZE = 0) by (rewrite Zminus_mod, Hb, Hp; done).
    pose proof (Z.div_mod (p - base) PAGE_SIZE) as Hd. rewrite Hm in Hd.
    change PAGE_SIZE with 4096 in *. split; [lia|]. apply elem_of_seq. lia.
Qed.

Lemma region_span gpa len off n :
  ram_region gpa len -> Z.of_nat (off + n) * PAGE_SIZE <= len ->
  Forall ram_page (span (gpa + Z.of_nat off * PAGE_SIZE) n).
Proof.
  intros Hr Hle. destruct (region_facts gpa len Hr) as (? & ? & ? & Hgm & Hlm).
  apply Forall_forall. intros p Hp. apply list_elem_of_fmap in Hp as (i & -> & Hi%elem_of_seq).
  split.
  - replace (_ + _ + _) with (gpa + (Z.of_nat off + Z.of_nat i) * PAGE_SIZE) by lia.
    rewrite Z.mod_add by done. done.
  - exists gpa, len. split; [done|]. change PAGE_SIZE with 4096 in *. lia.
Qed.

Lemma J_push_all_loop turns gpa len off todo ahead fuel F until kd k w d :
  ram_region gpa len -> let n := Z.to_nat (len / PAGE_SIZE) in
  (off <= n)%nat -> (n - off < turns)%nat -> sync todo ahead w d -> (2 * (n - off) + fuel <= F)%nat ->
  (forall w' d' fuel', flags w' = flags w -> (fuel <= fuel')%nat ->
     sync (fun p => todo p /\ ~ (gpa + Z.of_nat off * PAGE_SIZE <= p < gpa + len)) ahead w' d' ->
     J (k (Ok tt)) w' (dst_pass fuel' until kd) d' [] []) ->
  J (bind (push_all_loop turns spm gpa n off) k) w (dst_pass F until kd) d [] [].
Proof.
  intros Hr n. destruct (region_facts gpa len Hr) as (H0 & Hl & Hhi & Hgm & Hlm).
  assert (Hnl : Z.of_nat n * PAGE_SIZE = len).
  { subst n. pose proof (Z.div_mod len PAGE_SIZE) as Hd. rewrite Hlm in Hd.
    rewrite Z2Nat.id by (apply Z.div_pos; [lia|done]). change PAGE_SIZE with 4096 in *. lia. }
  clearbody n. revert off F w d todo. induction turns as [|turns IH]; intros off F w d todo Hoff Ht Hs HF Hk; [lia|].
  cbn [push_all_loop]. destruct (Nat.ltb_spec off n) as [Hlt|].
  2:{ apply Hk; [done|lia|]. eapply sync_mono; [| |exact Hs]; [|done]. intros p _ ?. split; [done|].
      replace off with n by lia. lia. }
  set (count := Nat.min BATCH_SIZE (n - off)).
  assert (Hc : (0 < count <= 256 /\ off + count <= n)%nat) by (subst count; change BATCH_SIZE with 64%nat; lia).
  clearbody count. rewrite wmul_small, wadd_small by (change PAGE_SIZE with 4096 in *; lia).
  rewrite bind_bindr. destruct F as [|[|F]]; [lia..|].
  assert (Hspan : Forall ram_page (span (gpa + Z.of_nat off * PAGE_SIZE) count))
    by (apply (region_span gpa len); [done|change PAGE_SIZE with 4096 in *; lia]).
  apply J_send_batch with (todo := todo) (ahead := ahead); [change PAGE_SIZE with 4096 in *; lia|lia|done|done|].
  intros w1 d1 F1 He1 HF1 Hs1. apply (IH (off + count)%nat F1 w1 d1 _ ltac:(lia) ltac:(lia) Hs1 ltac:(lia)).
  intros w2 d2 F2 Hf2 HF2 Hs2. apply Hk; [rewrite Hf2; by apply evolves_flags|done|].
  eapply sync_mono; [| |exact Hs2]; [|done]. intros p Hp [[Htp Hn1] Hn2]. split; [done|].
  rewrite span_elem in Hn1; [|by rewrite Z.mod_add|apply Hp].
  change PAGE_SIZE with 4096 in *. lia.
Qed.

Lemma J_push_all_regions rs fuel F until kd k w d :
  rs ⊆ physmap.region_list spm -> sync (in_regions rs) none w d -> (2 * ram_pages rs + fuel <= F)%nat ->
  (forall w' d' fuel', flags w' = flags w -> (fuel <= fuel')%nat -> sync none none w' d' ->
     J (k (Ok tt)) w' (dst_pass fuel' until kd) d' [] []) ->
  J (bind (push_all_regions spm rs) k) w (dst_pass F until kd) d [] [].
Proof.
  revert F w d. induction rs as [|[[gpa len] kind] rs IH]; intros F w d Hin Hs HF Hk.
  { apply Hk; [done|simpl in HF; lia|]. eapply sync_mono; [| |exact Hs]; [|done].
    intros p _ (g & l & Hp & _). by apply not_elem_of_nil in Hp. }
  assert (Hrs : rs ⊆ physmap.region_list spm) by set_solver.
  destruct kind; cbn [push_all_regions ram_pages] in *.
  - assert (Hr : ram_region gpa len) by set_solver.
    rewrite bind_assoc. apply (J_track gpa len (in_regions ((gpa, len, physmap.Ram) :: rs)) none); [done|done|].
    intros w1 bm Hf1 Hs1. rewrite bind_bindr. cbn [map_err bind]. rewrite bind_bindr.
    apply (J_push_all_loop (S (Z.to_nat (len / PAGE_SIZE))) gpa len 0 _ _ (2 * ram_pages rs + fuel) F _ _ _ _ _ Hr ltac:(lia) ltac:(lia) Hs1 ltac:(lia)).
    intros w2 d2 F2 Hf2 HF2 Hs2. apply (IH F2); [done| |done|].
    { eapply sync_mono; [| |exact Hs2]; [|by intros p _ [? _]].
      intros p Hp [[Ht|[Hlo _]] Hn]; [|lia]. eapply in_regions_cons_out; [exact Ht|lia]. }
    intros w3 d3 F3 Hf3. apply Hk. congruence.
  - apply (IH F); [done| |lia|done].
    eapply sync_mono; [| |exact Hs]; [|done]. intros p _. by apply in_regions_cons_other.
  - apply (IH F); [done| |lia|done].
    eapply sync_mono; [| |exact Hs]; [|done]. intros p _. by apply in_regions_cons_other.
Qed.

Lemma J_push_ram_all fuel F kd k w d :
  (2 * ram_pages (physmap.region_list spm) + S fuel <= F)%nat ->
  (forall w' d' fuel', flags w' = flags w -> (fuel <= fuel')%nat -> sync none none w' d' ->
     J (k (Ok tt)) w' (dst_pass fuel' EndPauseSignal kd) d' [] []) ->
  J (bind (push_ram_all spm) k) w (dst_pass F EndPauseSignal kd) d [] [].
Proof.
  intros HF Hk. unfold push_ram_all. rewrite bind_bindr.
  apply (J_push_all_regions _ (S fuel)); [done| |done|].
  { intros p [? Hp]. auto. }
  intros w1 d1 F1 Hf1 HF1 Hs1. destruct F1 as [|F1]; [lia|]. rewrite bind_bindr.
  apply (J_end_pass EndPauseSignal F1 kd k). intros w2 He2.
  apply Hk; [by rewrite (evolves_flags _ _ He2)|lia|by eapply sync_evolves].
Qed.

Lemma J_converge iters fuel F kd k w d :
  sync none none w d -> (iters * (2 * ram_pages (physmap.region_list spm) + 1) + fuel <= F)%nat ->
  (forall w' d' fuel', flags w' = flags w -> (fuel <= fuel')%nat -> sync none none w' d' ->
     J (k (Ok tt)) w' (dst_pass fuel' EndPauseSignal kd) d' [] []) ->
  J (bind (converge iters spm) k) w (dst_pass F EndPauseSignal kd) d [] [].
Proof.
  revert F w d. induction iters as [|iters IH]; intros F w d Hs HF Hk; cbn [converge].
  { apply Hk; [done|lia|done]. }
  rewrite bind_assoc. eapply J_src; [reflexivity|]. rewrite app_nil_r. cbn [bind].
  pose proof (turn_evolves w) as He. rewrite bind_bindr.
  apply (J_push_ram (iters * (2 * ram_pages (physmap.region_list spm) + 1) + fuel)); [|lia|].
  { eapply sync_mono; [| |eapply sync_evolves; [exact He|exact Hs]]; done. }
  intros n w2 d2 F2 Hf2 HF2 Hs2. assert (Hf : flags w2 = flags w) by (rewrite Hf2; by apply evolves_flags).
  cbn [after_end]. destruct (n <=? CONVERGE_THRESHOLD).
  - apply Hk; [done|lia|done].
  - apply IH; [done|done|]. intros w3 d3 F3 Hf3. apply Hk. congruence.
Qed.

(** ** The phases around the passes *)

(** A call of the source that only takes time. *)
Lemma J_calm {X} (e : eff X) (x : X) k w dp d sd ds :
  src_do e w ds = Some (x, turn w, ds, []) ->
  (forall w', evolves w w' -> J (k x) w' dp d sd ds) -> J (bind (act e) k) w dp d sd ds.
Proof.
  intros He Hk. eapply J_src; [exact He|]. rewrite app_nil_r. apply Hk, turn_evolves.
Qed.

Lemma J_act_dst {X} (e : eff X) k sp w d sd ds x d' :
  dst_do e d sd = Some (x, d', sd, []) -> J sp w (k x) d' sd ds -> J sp w (bind (act e) k) d sd ds.
Proof. intros He Hk. eapply J_dst; [exact He|]. by rewrite app_nil_r. Qed.

Lemma serialized_ok {T} {RX : Ron T} (v : T) :
  ron_ok v -> exists s, serialized v = Ok (Serialized s) /\ deserialize s = Ok v.
Proof.
  intros (s & Hs & Hu & Hf). exists s. unfold serialized, deserialize, text, from_str.
  rewrite Hs, Hu. simpl. by rewrite Hf.
Qed.

Lemma J_serial_src {T} {RX : Ron T} (v : T) k kd w d :
  ron_ok v -> (forall w', evolves w w' -> J (k (Ok tt)) w' (kd (Ok v)) d [] []) ->
  J (bind (send_serialized v) k) w (bind (expect_serialized T) kd) d [] [].
Proof.
  intros (s & Hs & Hd)%serialized_ok Hk. unfold send_serialized, expect_serialized. rewrite Hs.
  apply J_send_src. intros w' He. rewrite bind_bindr. apply J_recv_dst; [done|]. cbn [bind serialized_of].
  rewrite Hd. by apply Hk.
Qed.

Lemma J_serial_dst {T} {RX : Ron T} (v : T) k kd w d :
  ron_ok v -> (forall w', evolves w w' -> J (k (Ok v)) w' (kd (Ok tt)) d [] []) ->
  J (bind (expect_serialized T) k) w (bind (send_serialized v) kd) d [] [].
Proof.
  intros (s & Hs & Hd)%serialized_ok Hk. unfold send_serialized, expect_serialized. rewrite Hs.
  apply J_send_dst. rewrite bind_bindr. apply J_recv_src; [done|]. intros w' He. cbn [bind serialized_of].
  rewrite Hd. by apply Hk.
Qed.

Lemma J_okay_dst k kd w d :
  (forall w', evolves w w' -> J (k (Ok tt)) w' (kd (Ok tt)) d [] []) ->
  J (bind expect_okay k) w (bind (send Okay) kd) d [] [].
Proof.
  intros Hk. apply J_send_dst. unfold expect_okay. rewrite bind_bindr. apply J_recv_src; [done|]. apply Hk.
Qed.

Lemma J_okay_src k kd w d :
  (forall w', evolves w w' -> J (k (Ok tt)) w' (kd (Ok tt)) d [] []) ->
  J (bind (send Okay) k) w (bind expect_okay kd) d [] [].
Proof.
  intros Hk. apply J_send_src. intros w' He. unfold expect_okay. rewrite bind_bindr.
  apply J_recv_dst; [done|]. by apply Hk.
Qed.

Lemma J_status_dst f k sp w d sd ds :
  J sp w (k tt) (mkDW (dw_mem d) (f (dw_status d))) sd ds -> J sp w (bind (act (EStatus f)) k) d sd ds.
Proof. apply J_act_dst. done. Qed.

(** Up to the pause signal. *)
Definition pass_fuel : nat := 12 * ram_pages (physmap.region_list spm) + 8.

Context (scfg : SourceConfig) (dcfg : DestConfig).

Definition preamble_of : MigrationPreamble :=
  mkPreamble (src_num_cpus scfg) (src_mem_size scfg) (sort_by ident_le (src_devices scfg))
    (Some (src_features scfg)).

Definition device_state : DeviceState :=
  mkDevState (ds_vcpus (e_state ev)) (ds_devices (e_state ev)) (e_devices ev) (e_hyperv ev).

Context (Hpre : check_preamble preamble_of dcfg = Ok tt).
Context (Hoffer : ron_ok (mkOffer [PROTOCOL_RON])) (Hselect : ron_ok (mkSelect PROTOCOL_RON)).
Context (Hpreamble : ron_ok preamble_of) (Htime : ron_ok (e_time ev)) (Hdev : ron_ok device_state).
Context (Hdevs : NoDup (dsp_bdf <$> e_devices ev)).
Context (Hdevices : dsp_bdf <$> e_devices ev ≡ₚ id_bdf <$> dst_devices dcfg).

Ltac evolve := first [apply evolves_refl | eapply evolves_trans; [eassumption|evolve]].
Ltac binds := repeat (cbn [bind map_err]; rewrite ?bind_bindr, ?bind_assoc).

Lemma J_prepause fuel kd k w d :
  (pass_fuel <= fuel)%nat ->
  (forall w' d', flags w' = flags w -> sync none none w' d' ->
     J (k (Ok tt)) w' (bind (receive_pass fuel dpm EndMemEnd None)
       (fun r => match r with Ok a => kd a | Err e => Ret (Err e) end)) d' [] []) ->
  J (bind (source_push spm scfg) k) w
    (bindr (dest_sync dcfg) (fun _ => bindr (dest_ram fuel dpm) kd)) d [] [].
Proof.
  intros Hfuel Hk. unfold bindr at 1.
  unfold source_push, dest_sync, dest_ram, set_phase, enter_post_pause, or_report.
  binds. apply J_status_src. intros w1 He1. apply J_status_dst. binds.
  apply J_serial_src; [done|]. intros w2 He2.
  cbn [existsb protocols]. rewrite String.eqb_refl. cbn [orb negb]. binds.
  apply J_serial_dst; [done|]. intros w3 He3. cbn [protocol]. rewrite String.eqb_refl. cbn [negb]. binds.
  apply J_serial_src; [done|]. intros w4 He4. binds. fold preamble_of. rewrite Hpre. binds.
  apply J_okay_dst. intros w5 He5. unfold bindr at 1. binds.
  apply J_status_src. intros w6 He6. apply J_status_dst. binds.
  assert (He : evolves w w6) by evolve.
  unfold pass_fuel in Hfuel.
  apply (J_push_ram_all (5 * (2 * ram_pages (physmap.region_list spm) + 1) + 1)); [lia|].
  intros w7 d7 F7 Hf7 HF7 Hs7. binds. change MAX_ITERS with 5%nat.
  apply (J_converge 5 1); [done|lia|].
  intros w8 d8 F8 Hf8 HF8 Hs8. destruct F8 as [|F8]; [lia|].
  apply J_send_src. intros w9 He9. cbn [app receive_pass]. binds.
  apply J_recv_dst; [done|]. binds. apply J_status_dst. binds.
  eapply J_act_dst; [reflexivity|]. binds.
  apply Hk; [|by eapply sync_evolves].
  rewrite (evolves_flags _ _ He9), Hf8, Hf7. by apply evolves_flags.
Qed.

(** ** Pausing *)

Lemma sync_stop w w' d :
  sw_mem w' = sw_mem w -> sw_log w' = sw_log w ->
  sync none (in_regions (physmap.region_list spm)) w d ->
  sync none (in_regions (physmap.region_list spm)) w' d.
Proof.
  intros Hm Hl Hs p Hp. unfold clean. rewrite Hm, Hl.
  destruct (Hs p Hp) as [?|[[]|[? _]]]; [by auto|]. right. right. split; [done|]. right. apply Hp.
Qed.

Lemma sync_puts w l d :
  sync none (in_regions (physmap.region_list spm)) w d ->
  sync none (in_regions (physmap.region_list spm)) (puts w l) d.
Proof.
  intros Hs p Hp. pose proof (proj2 Hp) as Ha. unfold clean.
  destruct (Hs p Hp) as [Hc|[[]|[Hd _]]].
  - destruct (puts_page w l p (proj1 Hp)) as [->|?]; auto.
  - right. right. split; [by apply puts_dirty|by right].
Qed.

Abbreviation all_ahead := (sync none (in_regions (physmap.region_list spm))).

Lemma J_stop_devices k w dp d sd ds :
  all_ahead w d ->
  (forall w', sw_devs w' = false -> all_ahead w' d -> J (k (Ok tt)) w' dp d sd ds) ->
  J (bind (act EPrePause) k) w dp d sd ds.
Proof.
  intros Hs Hk. eapply J_src; [reflexivity|]. rewrite app_nil_r. apply Hk; [done|].
  eapply (sync_stop (turn w)); [done|done|]. eapply sync_evolves; [apply turn_evolves|done].
Qed.

Lemma J_stop_vcpus k w dp d sd ds :
  sw_devs w = false -> all_ahead w d ->
  (forall w', flags w' = (false, false) -> all_ahead w' d -> J (k (Ok tt)) w' dp d sd ds) ->
  J (bind (act EPause) k) w dp d sd ds.
Proof.
  intros Hw Hs Hk. pose proof (turn_evolves w) as He.
  eapply J_src; [reflexivity|]. rewrite app_nil_r. apply Hk.
  - unfold flags. cbn [sw_devs sw_vcpus]. by rewrite (ev_devs _ _ He), Hw.
  - eapply (sync_stop (turn w)); [done|done|]. by eapply sync_evolves.
Qed.

Lemma J_barrier k w dp d sd ds :
  (forall w', evolves w w' -> J (k (Ok tt)) w' dp d sd ds) ->
  J (bind (if src_zfs_barrier scfg then zfs_barrier_wait else Ret (Ok tt)) k) w dp d sd ds.
Proof.
  intros Hk. destruct (src_zfs_barrier scfg); [|apply Hk, evolves_refl].
  unfold zfs_barrier_wait. do 3 (binds; eapply J_calm; [reflexivity|]; intros ? ?). binds.
  apply Hk. evolve.
Qed.

Lemma J_pause fuel kd k w d :
  (pass_fuel <= fuel)%nat -> sync none none w d ->
  (forall w' d', flags w' = (false, false) -> sync none none w' d' ->
     J (k (Ok (e_hyperv ev))) w' (kd (Ok tt)) d' [] []) ->
  J (bind (source_pause spm scfg) k) w (dst_pass fuel EndMemEnd kd) d [] [].
Proof.
  intros Hfuel Hs Hk. unfold source_pause, set_phase, enter_post_pause. binds.
  assert (Hall : all_ahead w d) by (eapply sync_mono; [| |exact Hs]; done). clear Hs.
  apply J_status_src. intros w1 He1. binds. eapply J_calm; [reflexivity|]. intros w2 He2. binds.
  apply J_stop_devices; [apply (sync_evolves _ _ w); [evolve|done]|].
  intros w3 Hd3 Hs3. binds. apply J_stop_vcpus; [done|done|]. intros w4 Hf4 Hs4. binds.
  eapply J_calm; [reflexivity|]. intros w5 He5. binds. apply J_barrier. intros w6 He6. binds.
  eapply J_src; [reflexivity|]. rewrite app_nil_r. binds.
  pose proof (turn_evolves w6) as He7. destruct (puts_flags (turn w6) (e_uninstall ev)) as [Hpd Hpv].
  apply J_status_src. intros w8 He8. binds. unfold pass_fuel in Hfuel.
  assert (He : evolves w4 (turn w6)) by evolve.
  apply (J_push_ram 0 fuel EndMemEnd); [|lia|].
  { eapply sync_evolves; [done|]. apply sync_puts. by eapply sync_evolves. }
  intros n w9 d9 F9 Hf9 _ Hs9. binds. apply Hk; [|done].
  rewrite Hf9, (evolves_flags _ _ He8), <- Hf4, <- (evolves_flags _ _ He). unfold flags. congruence.
Qed.

(** ** The state, and the hand-over *)

Lemma check_entries_ok expected seen (entries : list (@DeviceStatePayload DevState)) :
  NoDup (dsp_bdf <$> entries) -> (forall e, e ∈ entries -> dsp_bdf e ∈ expected /\ dsp_bdf e ∉ seen) ->
  exists seen', check_entries expected seen entries = Ok seen' /\
    forall b, b ∈ seen \/ b ∈ dsp_bdf <$> entries -> b ∈ seen'.
Proof.
  revert seen. induction entries as [|e entries IH]; intros seen Hnd He; cbn [check_entries].
  { exists seen. split; [done|]. intros b [?|Hb]; [done|]. by apply elem_of_nil in Hb. }
  apply NoDup_cons in Hnd as [Hni Hnd]. destruct (He e ltac:(left)) as [Hx Hs].
  rewrite bool_decide_eq_true_2, bool_decide_eq_false_2 by done. cbn [negb].
  destruct (IH (dsp_bdf e :: seen) Hnd) as (seen' & Hc & Hb).
  { intros e' Hin. destruct (He e' ltac:(by right)) as [? ?]. split; [done|].
    rewrite not_elem_of_cons. split; [|done]. intros Heq. apply Hni. rewrite <- Heq. by apply list_elem_of_fmap_2. }
  exists seen'. split; [done|]. intros b Hor. apply Hb. rewrite fmap_cons, elem_of_cons in *.
  destruct Hor as [?|[->|?]]; auto.
Qed.

Lemma J_restore_entries entries kd sp w d sd ds :
  J sp w (kd (Ok tt)) d sd ds -> J sp w (bind (restore_entries entries) kd) d sd ds.
Proof.
  intros Hk. induction entries as [|e entries IH]; cbn [restore_entries]; [done|].
  destruct (dsp_state e); [|done]. binds. eapply J_act_dst; [reflexivity|]. by binds.
Qed.

(** Hyper-V pages go back in place if the source had any. *)
Definition restored (m : hostmem) : hostmem :=
  match e_hyperv ev with Some _ => pokes m (e_install ev) | None => m end.

Lemma J_restore_devices kd sp w d sd ds :
  (forall st, J sp w (kd (Ok tt)) (mkDW (restored (dw_mem d)) st) sd ds) ->
  J sp w (bind (restore_devices device_state dcfg) kd) d sd ds.
Proof.
  intros Hk. unfold restore_devices. cbn [ds_emulated ds_hyperv device_state].
  destruct (check_entries_ok (id_bdf <$> dst_devices dcfg) [] (e_devices ev) Hdevs) as (seen & Hc & Hb).
  { intros e He. split; [|apply not_elem_of_nil]. rewrite <- Hdevices. by apply list_elem_of_fmap_2. }
  rewrite Hc. binds.
  assert (existsb (fun bdf => negb (bool_decide (bdf ∈ seen))) (id_bdf <$> dst_devices dcfg) = false) as ->.
  { apply not_true_iff_false. rewrite existsb_exists. intros (b & Hin%list_elem_of_In & Hn).
    rewrite bool_decide_eq_true_2 in Hn; [done|]. apply Hb. right. by rewrite Hdevices. }
  binds. unfold restored in Hk. destruct d as [m st], (e_hyperv ev) as [hv|]; binds.
  - eapply J_act_dst; [reflexivity|]. binds. apply J_restore_entries, Hk.
  - apply J_restore_entries, Hk.
Qed.

Lemma J_state kd k w d :
  (forall w' st, evolves w w' -> J (k (Ok tt)) w' (kd (Ok tt)) (mkDW (restored (dw_mem d)) st) [] []) ->
  J (bind (source_state (e_hyperv ev)) k) w (bind (dest_state dcfg) kd) d [] [].
Proof.
  intros Hk. unfold source_state, dest_state, set_phase, or_report. binds.
  eapply J_act_dst; [reflexivity|]. binds. apply J_status_dst. binds.
  apply J_status_src. intros w1 He1. binds. eapply J_calm; [reflexivity|]. intros w2 He2. binds.
  apply J_serial_src; [done|]. intros w3 He3. binds.
  eapply J_act_dst; [reflexivity|]. binds. apply J_status_dst. binds.
  apply J_status_src. intros w4 He4. binds. eapply J_calm; [reflexivity|]. intros w5 He5. binds.
  eapply J_calm; [reflexivity|]. intros w6 He6. binds. fold device_state.
  apply J_serial_src; [done|]. intros w7 He7. binds.
  apply J_restore_devices. intros st. binds. eapply J_act_dst; [reflexivity|]. binds. apply Hk. evolve.
Qed.

Lemma J_finish (k : result MigrateError unit -> prog (result MigrateError unit)) w d :
  (forall w' st, evolves w w' -> J (k (Ok tt)) w' (Ret (Ok tt)) (mkDW (dw_mem d) st) [] []) ->
  J (bind source_finish k) w dest_finish d [] [].
Proof.
  intros Hk. unfold source_finish, dest_finish, set_phase, bindr at 5. binds.
  apply J_status_src. intros w1 He1. apply J_status_dst. binds.
  apply J_send_src. intros w2 He2. unfold bindr at 1. apply J_recv_dst; [done|]. binds.
  apply J_status_src. intros w3 He3. unfold bindr at 1. binds. apply J_status_dst. unfold bindr at 1. binds.
  apply J_okay_dst. intros w4 He4. unfold bindr at 1. binds. apply J_okay_src. intros w5 He5. binds.
  apply J_status_src. intros w6 He6. apply J_status_dst. binds.
  eapply J_act_dst; [reflexivity|]. binds. eapply J_act_dst; [reflexivity|]. unfold bindr at 1. binds.
  unfold bindr at 1. apply J_okay_dst. intros w7 He7. binds.
  eapply J_calm; [reflexivity|]. intros w8 He8. binds. eapply J_act_dst; [reflexivity|]. binds.
  apply Hk. evolve.
Qed.

Lemma peek_pokes m m' l a : peek m a = peek m' a -> peek (pokes m l) a = peek (pokes m' l) a.
Proof.
  revert m m'. induction l as [|[x b] l IH]; intros m m' Hm; [done|]. apply (IH (<[x := b]> m) (<[x := b]> m')).
  unfold peek in *. destruct (decide (x = a)) as [->|]; [by rewrite !lookup_insert_eq|].
  by rewrite !lookup_insert_ne by done.
Qed.

(** The destination's RAM is the source's, and the source stands still. *)
Definition moved (w : sworld) (d : dworld) : Prop :=
  live w = false /\
  forall gpa len a, (gpa, len, physmap.Ram) ∈ physmap.region_list spm -> gpa <= a < gpa + len ->
    peek (dw_mem d) a = peek (restored (sw_mem w)) a.

Lemma synced_moved w d st :
  flags w = (false, false) -> sync none none w d -> moved w (mkDW (restored (dw_mem d)) st).
Proof.
  intros Hf Hs. assert (Hl : live w = false) by (unfold flags, live in *; by simplify_eq/=; destruct (sw_devs w)).
  split; [done|]. intros gpa len a Hr Ha. destruct (region_facts gpa len Hr) as (? & ? & ? & Hgm & Hlm).
  assert (Hb : page_base a <= a < page_base a + PAGE_SIZE).
  { unfold page_base. pose proof (Z.mod_pos_bound a PAGE_SIZE ltac:(done)). lia. }
  pose proof (page_base_mod a) as Hm.
  assert (Hp : ram_page (page_base a)).
  { split; [done|]. exists gpa, len. split; [done|].
    pose proof (Z.div_mod (page_base a) PAGE_SIZE). pose proof (Z.div_mod gpa PAGE_SIZE).
    pose proof (Z.div_mod len PAGE_SIZE). change PAGE_SIZE with 4096 in *. lia. }
  destruct (Hs _ Hp) as [Hc|[[]|[_ [?|[]]]]]; [|congruence].
  assert (Heq : peek (dw_mem d) a = peek (sw_mem w) a) by (by eapply page_of_byte).
  unfold restored. simpl. destruct (e_hyperv ev); [by apply peek_pokes|done].
Qed.

Lemma J_migrate fuel w d :
  (pass_fuel <= fuel)%nat -> (forall w d, moved w d -> P w d) ->
  J (run_source spm scfg) w (run_destination fuel dpm dcfg) d [] [].
Proof.
  intros Hfuel HP. unfold run_source, run_destination.
  eapply J_calm; [reflexivity|]. intros w1 He1. eapply J_act_dst; [reflexivity|].
  unfold bindr at 1. cbn [map_err bind]. unfold bindr at 1. cbn [map_err bind].
  unfold source_inner. rewrite bind_bindr. apply J_prepause; [done|].
  intros w2 d2 _ Hs2. rewrite bind_bindr. apply J_pause; [done|done|].
  intros w3 d3 Hf3 Hs3. rewrite bind_bindr. unfold bindr at 1. apply J_state.
  intros w4 st He4. apply J_finish. intros w5 st5 He5. binds.
  eapply J_src; [reflexivity|]. binds.
  pose proof (turn_evolves w5) as He6. assert (He : evolves w3 (turn w5)) by evolve.
  eexists. split; [apply rtc_refl|]. split; [done|]. apply HP.
  cbn [c_sw c_dw dw_mem]. apply synced_moved; [by rewrite (evolves_flags _ _ He)|by eapply sync_evolves].
Qed.

End pass.
End rules.

(** ** Every schedule *)

Lemma src_do_app {X} (e : eff X) w ds o x w' ds' out :
  src_do e w ds = Some (x, w', ds', out) -> src_do e w (ds ++ o) = Some (x, w', ds' ++ o, out).
Proof.
  destruct e; cbn [src_do]; intros He; try (simplify_eq; done).
  - destruct ds as [|f ds]; [done|]. simplify_eq. done.
  - by destruct (f _) as [m y]; simplify_eq.
  - by destruct (read_live _ _ _) as [m y]; simplify_eq.
  - by destruct (dl_track _ _ _) as [[]|]; simplify_eq.
Qed.

Lemma dst_do_app {X} (e : eff X) d sd o x d' sd' out :
  dst_do e d sd = Some (x, d', sd', out) -> dst_do e d (sd ++ o) = Some (x, d', sd' ++ o, out).
Proof.
  destruct e; cbn [dst_do]; intros He; try (simplify_eq; done).
  - destruct sd as [|f sd]; [done|]. simplify_eq. done.
  - by destruct (f _) as [m y]; simplify_eq.
Qed.

(** The two ends never get in each other's way. *)
Lemma commute c c1 c2 :
  src_step c = Some c1 -> dst_step c = Some c2 ->
  exists c3, dst_step c1 = Some c3 /\ src_step c2 = Some c3.
Proof.
  destruct c as [sp w dp d sd ds]. unfold src_step, dst_step. cbn [c_src c_sw c_ds c_dst c_dw c_sd].
  destruct sp as [| |X e k]; [done..|]. destruct dp as [| |Y f l]; [done..|].
  destruct (src_do e w ds) as [[[[x w'] ds'] out]|] eqn:Hs; [|done].
  destruct (dst_do f d sd) as [[[[y d'] sd'] out']|] eqn:Hd; [|done].
  intros [= <-] [= <-]. cbn [c_src c_sw c_ds c_dst c_dw c_sd].
  rewrite (src_do_app _ _ _ out' _ _ _ _ Hs), (dst_do_app _ _ _ out _ _ _ _ Hd). eauto.
Qed.

Lemma step_diamond c c1 c2 :
  step c c1 -> step c c2 -> c1 = c2 \/ exists c3, step c1 c3 /\ step c2 c3.
Proof.
  intros [H1|H1] [H2|H2]; [left; congruence| | |left; congruence].
  - right. destruct (commute _ _ _ H1 H2) as (c3 & ? & ?). exists c3. split; [by right|by left].
  - right. destruct (commute _ _ _ H2 H1) as (c3 & ? & ?). exists c3. split; [by left|by right].
Qed.

Lemma done_stuck c c' : both_done c -> ~ step c c'.
Proof.
  intros [Hs Hd] [H1|H1]; unfold src_step, dst_step in H1; [rewrite Hs in H1|rewrite Hd in H1]; done.
Qed.

(** If one schedule ends, every schedule ends there, after as many steps. *)
Lemma step_towards n c cf c1 :
  nsteps step n c cf -> both_done cf -> step c c1 -> exists m, n = S m /\ nsteps step m c1 cf.
Proof.
  intros Hn Hf. revert c1. induction Hn as [c|n c c' cf Hc Hn IH]; intros c1 H1.
  { by destruct (done_stuck c c1). }
  exists n. split; [done|]. destruct (step_diamond _ _ _ Hc H1) as [->|(c3 & H3 & H4)]; [done|].
  destruct (IH Hf c3 H3) as (m & -> & Hm). by eapply nsteps_l.
Qed.

Lemma every_schedule n c cf k c' :
  nsteps step n c cf -> both_done cf -> nsteps step k c c' ->
  (k <= n)%nat /\ nsteps step (n - k) c' cf.
Proof.
  intros Hn Hf Hk. revert n Hn. induction Hk as [c|k c c1 c' H1 Hk IH]; intros n Hn.
  { rewrite Nat.sub_0_r. split; [lia|done]. }
  destruct (step_towards _ _ _ _ Hn Hf H1) as (m & -> & Hm). destruct (IH m Hm). split; [lia|done].
Qed.

(** C1: whatever the guest and its devices write while it runs, and however
    the steps of the two ends interleave, a migration between two machines
    with the same map, topology and CPU features ends: every schedule is a
    prefix of one that leads to the same final state, where both ends have
    succeeded, the source stands still and the destination's RAM is the
    source's, byte for byte. *)
Theorem migration_moves_ram (spm dpm : physmap.PhysMap) (scfg : SourceConfig) (dcfg : DestConfig)
    (fuel : nat) (w : sworld) (d : dworld) cs cd :
  rtc physmap_inv.step physmap_inv.init (physmap_inv.mkSys spm cs) ->
  rtc physmap_inv.step physmap_inv.init (physmap_inv.mkSys dpm cd) ->
  physmap.region_list dpm = physmap.region_list spm ->
  (forall gpa len, (gpa, len, physmap.Ram) ∈ physmap.region_list spm -> len mod PAGE_SIZE = 0) ->
  (forall raw c, zstd_compress raw = Some c -> zstd_decompress c (Z.of_nat (length raw)) = Some raw) ->
  (forall gpas : list Z, Forall (uint 64) gpas -> ron_ok gpas) ->
  check_preamble (preamble_of scfg) dcfg = Ok tt ->
  ron_ok (mkOffer [PROTOCOL_RON]) -> ron_ok (mkSelect PROTOCOL_RON) ->
  ron_ok (preamble_of scfg) -> ron_ok (e_time ev) -> ron_ok device_state ->
  NoDup (dsp_bdf <$> e_devices ev) -> dsp_bdf <$> e_devices ev ≡ₚ id_bdf <$> dst_devices dcfg ->
  (pass_fuel spm <= fuel)%nat ->
  let start := mkCfg (run_source spm scfg) w (run_destination fuel dpm dcfg) d [] [] in
  exists n final, both_done final /\ moved spm (c_sw final) (c_dw final) /\
    forall k c, nsteps step k start c -> (k <= n)%nat /\ nsteps step (n - k) c final.
Proof.
  intros Hs%physmap_inv.reach_wf Hd%physmap_inv.reach_wf Hsame Hlen Hz Hr Hpre H1 H2 H3 H4 H5 H6 H7 Hfuel start.
  destruct (J_migrate (moved spm) spm dpm Hs Hd Hsame Hlen Hz Hr scfg dcfg Hpre H1 H2 H3 H4 H5 H6 H7 fuel w d Hfuel)
    as (final & Hrun & Hdone & Hm); [done|].
  apply rtc_nsteps in Hrun as [n Hn]. exists n, final. split; [done|]. split; [done|].
  intros k c Hk. by eapply every_schedule.
Qed.

End ram.
(** ** A guest that writes while it moves *)

Section example.
#[local] Existing Instances safe.ron_offer safe.ron_select safe.ron_preamble safe.ron_time safe.ron_state.

(** The log as a set of pages. *)
Definition log_byte (k : gset Z) (gpa : Z) : Z :=
  foldr (fun j acc => if bool_decide (gpa + j * PAGE_SIZE ∈ k) then Z.setbit acc j else acc) 0 (seqZ 0 8).

Definition log_bits (k : gset Z) (gpa : Z) (n : nat) : list Z :=
  (fun i => log_byte k (gpa + Z.of_nat i * (8 * PAGE_SIZE))) <$> seq 0 n.

Lemma log_byte_bit k gpa j : 0 <= j < 8 -> Z.testbit (log_byte k gpa) j = bool_decide (gpa + j * PAGE_SIZE ∈ k).
Proof.
  intros Hj. unfold log_byte.
  assert (Hin : j ∈ seqZ 0 8) by (apply elem_of_seqZ; lia).
  assert (H0 : Forall (fun i => 0 <= i) (seqZ 0 8)) by (apply Forall_forall; intros i Hi%elem_of_seqZ; lia).
  enough (Hall : forall l, Forall (fun i => 0 <= i) l -> Z.testbit (foldr (fun j acc =>
      if bool_decide (gpa + j * PAGE_SIZE ∈ k) then Z.setbit acc j else acc) 0 l) j =
    bool_decide (j ∈ l) && bool_decide (gpa + j * PAGE_SIZE ∈ k))
    by (rewrite Hall by done; by rewrite bool_decide_eq_true_2 by done).
  clear Hin H0. intros l. induction 1 as [|i l Hi _ IH]; [by rewrite Z.bits_0|]. cbn [foldr].
  destruct (decide (i = j)) as [->|Hne].
  - rewrite (bool_decide_eq_true_2 (j ∈ j :: l)) by left. destruct (bool_decide (gpa + j * PAGE_SIZE ∈ k)).
    + rewrite Z.setbit_eqb by lia. by rewrite Z.eqb_refl.
    + rewrite IH. by rewrite andb_false_r.
  - assert (bool_decide (j ∈ i :: l) = bool_decide (j ∈ l)) as ->.
    { apply bool_decide_ext. rewrite elem_of_cons. naive_solver. }
    rewrite <- IH. destruct (bool_decide (gpa + i * PAGE_SIZE ∈ k)); [|done]. rewrite Z.setbit_eqb by lia.
    destruct (Z.eqb_spec i j); [done|]. done.
Qed.

#[export] Program Instance page_log : DirtyLog (gset Z) := {|
  dl_dirty := fun k p => bool_decide (p ∈ k);
  dl_write := fun k p => {[ p ]} ∪ k;
  dl_track := fun k gpa len =>
    Ok (log_bits k gpa (Z.to_nat (div_ceil (len / PAGE_SIZE) 8)),
        filter (fun p => ~ (gpa <= p < gpa + len)) k)
|}.
Next Obligation. intros k p. apply bool_decide_eq_true. set_solver. Qed.
Next Obligation. intros k p q Hq%bool_decide_eq_true. apply bool_decide_eq_true. set_solver. Qed.
Next Obligation.
  intros k gpa len H0 Hg Hl Hlen. eexists _, _. split; [reflexivity|].
  split; [by unfold log_bits; rewrite length_fmap, length_seq|].
  intros q Hq Hd%bool_decide_eq_true.
  destruct (Z.leb_spec gpa q), (Z.ltb_spec q (gpa + len)); cbn [andb];
    [|apply bool_decide_eq_true, elem_of_filter; split; [lia|done]..].
  set (i := (q - gpa) / PAGE_SIZE).
  assert (Hi : q = gpa + i * PAGE_SIZE /\ 0 <= i < len / PAGE_SIZE).
  { assert (Hm : (q - gpa) mod PAGE_SIZE = 0) by (rewrite Zminus_mod, Hq, Hg; done).
    pose proof (Z.div_mod (q - gpa) PAGE_SIZE) as Hd1. pose proof (Z.div_mod len PAGE_SIZE) as Hd2.
    rewrite Hm in Hd1. rewrite Hl in Hd2. subst i. change PAGE_SIZE with 4096 in *. lia. }
  destruct Hi as [Hqi Hi]. clearbody i. unfold bit_at, log_bits.
  replace (Z.to_nat i / 8)%nat with (Z.to_nat (i / 8)) by (by rewrite Z2Nat.inj_div by lia).
  replace (Z.to_nat i mod 8)%nat with (Z.to_nat (i mod 8)) by (by rewrite Z2Nat.inj_mod by lia).
  pose proof (div_ceil_8 (len / PAGE_SIZE) ltac:(lia)). pose proof (Z.div_mod i 8). pose proof (Z.mod_pos_bound i 8).
  rewrite list_lookup_fmap, lookup_seq_lt by lia. simpl fmap. cbn [option_fmap option_map].
  rewrite Z2Nat.id, log_byte_bit by lia. apply bool_decide_eq_true.
  cbn [Nat.add]. rewrite Z2Nat.id by lia.
  replace (_ + _ + _) with q; [done|]. rewrite Hqi. change PAGE_SIZE with 4096. lia.
Qed.

Definition busy_guest : @env unit unit :=
  mkEnv (fun i => if (i <? 100)%nat then [(Z.of_nat i * 64, 7)] else []) None [] [] (mkTime [])
    (mkDevState [] [] [] None) [].

Definition busy_source : @sworld (gset Z) := mkSW ∅ ∅ 0 status_new true true.

Definition busy_start : cfg :=
  mkCfg (run_source (HvState:=unit) physmap_inv.example_pm safe.tiny_source) busy_source
    (run_destination (DevState:=unit) 44 physmap_inv.example_pm safe.tiny_dest) (mkDW ∅ status_new) [] [].

Lemma migration_moves_ram_witness :
  exists n final, both_done final /\ moved busy_guest physmap_inv.example_pm (c_sw final) (c_dw final) /\
    forall k c, nsteps (step busy_guest) k busy_start c -> (k <= n)%nat /\ nsteps (step busy_guest) (n - k) c final.
Proof.
  apply (migration_moves_ram busy_guest physmap_inv.example_pm physmap_inv.example_pm safe.tiny_source
    safe.tiny_dest 44 _ _ [] []).
  - exact physmap_inv.example_reachable.
  - exact physmap_inv.example_reachable.
  - reflexivity.
  - intros gpa len Hin. vm_compute in Hin. apply elem_of_cons in Hin as [[= -> ->]|Hin]; [reflexivity|].
    apply list_elem_of_singleton in Hin as [= -> ->]. reflexivity.
  - intros raw c. done.
  - exact ron_gpas_ok.
  - vm_compute. reflexivity.
  - exists []. done.
  - exists []. done.
  - exists []. done.
  - exists []. done.
  - exists []. done.
  - constructor.
  - reflexivity.
  - vm_compute. lia.
Defined.

End example.
End ram.
