(* ===== verification/NvmePrp.v ===== *)
(** * NVMe data pointers

    [crates/vmm-storage/src/nvme/prp.rs]: the walk over the physical region
    pages (PRPs) of a command, as the I/O and admin commands use it. Guest
    memory is addressed by guest physical address, as [MemCtx] shows it, and
    the guest may rewrite it before every access. *)

From S2P Require Import Prelude Mapping PhysMap PhysMapInv GuestMem MigPages.

Module prp.
Import mapping guestmem pages.

Definition PAGE_SIZE : Z := 4096.
Definition PAGE_OFFSET : Z := PAGE_SIZE - 1.
Definition ENTRIES_PER_LIST : Z := PAGE_SIZE / 8.

(** ** [MemCtx] from a device *)

Definition mem_read (pm : physmap.PhysMap) (g : guest) (gpa : Z) (n : nat) : io (list Z) := fun w =>
  let w := turn g w in
  (match mem_read_view pm gpa n with
   | Ok _ => Some (peek_range (w_mem w) gpa n)
   | Err _ => None
   end, w).

Definition mem_put (pm : physmap.PhysMap) (g : guest) (gpa : Z) (data : list Z) : io unit := fun w =>
  let w := turn g w in
  match mem_write pm (w_mem w) gpa data with
  | Ok hm => (Some tt, mkWorld hm (w_time w))
  | Err _ => (None, w)
  end.

(** ** The walk *)

Inductive Next : Type :=
| NPrp1
| NPrp2
| NList (base idx : Z)
| NDone.

Record PrpWalk : Type := mkWalk { prp1 : Z; prp2 : Z; remain : Z; next : Next }.

Definition walk_new (p1 p2 len : Z) : PrpWalk :=
  mkWalk p1 p2 len (if len =? 0 then NDone else NPrp1).

Section walk.
Context (pm : physmap.PhysMap) (g : guest).

Definition list_entry (base idx : Z) : io Z :=
  match checked_mul 64 idx 8 with
  | None => io_fail
  | Some off =>
      match checked_add 64 base off with
      | None => io_fail
      | Some gpa => let! buf := mem_read pm g gpa 8 in io_ret (le_val buf)
      end
  end.

(** The end of [next_segment]. *)
Definition advance (self : PrpWalk) (gpa len : Z) (nx : Next) : option (Z * Z) * PrpWalk :=
  (Some (gpa, len), mkWalk (prp1 self) (prp2 self) (wsub 64 (remain self) len) nx).

Fixpoint next_segment_loop (fuel : nat) (self : PrpWalk) : io (option (Z * Z) * PrpWalk) :=
  match fuel with
  | O => io_fail
  | S fuel =>
      match next self with
      | NDone => io_ret (None, self)
      | NPrp1 =>
          if negb (Z.land (prp1 self) 3 =? 0) then io_fail
          else
            let offset := Z.land (prp1 self) PAGE_OFFSET in
            let len := Z.min (wsub 64 PAGE_SIZE offset) (remain self) in
            let after := wsub 64 (remain self) len in
            if after =? 0 then io_ret (advance self (prp1 self) len NDone)
            else if after <=? PAGE_SIZE then io_ret (advance self (prp1 self) len NPrp2)
            else if negb (Z.land (prp2 self) 7 =? 0) then io_fail
            else io_ret (advance self (prp1 self) len
                   (NList (Z.ldiff (prp2 self) PAGE_OFFSET) (Z.land (prp2 self) PAGE_OFFSET / 8)))
      | NPrp2 =>
          if negb (Z.land (prp2 self) PAGE_OFFSET =? 0) then io_fail
          else io_ret (advance self (prp2 self) (remain self) NDone)
      | NList base idx =>
          let! entry := list_entry base idx in
          if negb (Z.land entry PAGE_OFFSET =? 0) then io_fail
          else if remain self <=? PAGE_SIZE then io_ret (advance self entry (remain self) NDone)
          else if wadd 64 idx 1 <? ENTRIES_PER_LIST
          then io_ret (advance self entry PAGE_SIZE (NList base (wadd 64 idx 1)))
          else next_segment_loop fuel (mkWalk (prp1 self) (prp2 self) (remain self) (NList entry 0))
      end
  end.

(** A list of one entry is followed at most once per segment. *)
Definition next_segment (self : PrpWalk) : io (option (Z * Z) * PrpWalk) := next_segment_loop 2 self.

Fixpoint iovec_loop (fuel : nat) (self : PrpWalk) (iov : list SubMapping) : io (list SubMapping) :=
  match fuel with
  | O => io_fail
  | S fuel =>
      let! (seg, self) := next_segment self in
      match seg with
      | None => io_ret iov
      | Some (gpa, len) =>
          match mem_lookup pm gpa len with
          | None => io_fail
          | Some sub => iovec_loop fuel self (iov ++ [sub])
          end
      end
  end.

(** Turns enough for a transfer: its pages, one more for a start inside a
    page, and the last call. *)
Definition segments (len : Z) : nat := Z.to_nat (len / PAGE_SIZE) + 3.

Definition prp_to_iovec (p1 p2 total_len : Z) : io (list SubMapping) :=
  iovec_loop (segments total_len) (walk_new p1 p2 total_len) [].

Fixpoint put_loop (fuel : nat) (self : PrpWalk) (data : list Z) (offset : Z) : io unit :=
  match fuel with
  | O => io_fail
  | S fuel =>
      let! (seg, self) := next_segment self in
      match seg with
      | None => io_ret tt
      | Some (gpa, len) =>
          let! _u := mem_put pm g gpa (take (Z.to_nat len) (drop (Z.to_nat offset) data)) in
          put_loop fuel self data (wadd 64 offset len)
      end
  end.

Definition write_to_prp (p1 p2 : Z) (data : list Z) : io unit :=
  let len := Z.of_nat (length data) in
  put_loop (segments len) (walk_new p1 p2 len) data 0.

End walk.

(** ** Every walk ends, inside one page at a time *)

Lemma land_offset a : Z.land a PAGE_OFFSET = a mod PAGE_SIZE.
Proof. change PAGE_OFFSET with (Z.ones 12). by rewrite Z.land_ones. Qed.

Lemma ldiff_offset a : Z.ldiff a PAGE_OFFSET = a - a mod PAGE_SIZE.
Proof.
  change PAGE_OFFSET with (Z.ones 12). rewrite Z.ldiff_ones_r by lia.
  rewrite Z.shiftr_div_pow2, Z.shiftl_mul_pow2 by lia.
  pose proof (Z.div_mod a PAGE_SIZE ltac:(done)). change (2 ^ 12) with PAGE_SIZE. lia.
Qed.

Definition walk_ok (self : PrpWalk) : Prop :=
  uint 64 (prp1 self) /\ uint 64 (prp2 self) /\ 0 <= remain self < 2 ^ 63 /\
  match next self with
  | NDone => remain self = 0
  | NPrp1 => 0 < remain self
  | NPrp2 => 0 < remain self <= PAGE_SIZE
  | NList base idx =>
      0 < remain self /\ base mod PAGE_SIZE = 0 /\ 0 <= idx < ENTRIES_PER_LIST
  end.

Definition pages_of (r : Z) : Z := (r + PAGE_SIZE - 1) / PAGE_SIZE.

(** Segments left at most. *)
Definition left (self : PrpWalk) : Z :=
  match next self with
  | NDone => 0
  | NPrp1 => remain self / PAGE_SIZE + 2
  | NPrp2 => 1
  | NList _ _ => pages_of (remain self)
  end.

Lemma walk_new_ok p1 p2 len :
  uint 64 p1 -> uint 64 p2 -> 0 <= len < 2 ^ 63 -> walk_ok (walk_new p1 p2 len).
Proof.
  intros. unfold walk_ok, walk_new. simpl. split_and!; try done; try lia.
  destruct (Z.eqb_spec len 0); simpl; lia.
Qed.

Lemma left_nonneg self : walk_ok self -> 0 <= left self.
Proof.
  unfold walk_ok, left, pages_of. intros (_ & _ & Hr & Hn). change PAGE_SIZE with 4096 in *.
  destruct (next self); try lia.
  - pose proof (Z.div_pos (remain self) 4096). lia.
  - apply Z.div_pos; lia.
Qed.

Lemma left_new p1 p2 len : 0 <= len -> left (walk_new p1 p2 len) < Z.of_nat (segments len).
Proof.
  intros Hl. unfold left, walk_new, segments. simpl. pose proof (Z.div_pos len PAGE_SIZE Hl ltac:(done)).
  destruct (Z.eqb_spec len 0); simpl; lia.
Qed.

(** One segment: it lies in one page, and the walk is that much shorter. *)
Definition seg_ok (self : PrpWalk) (seg : Z * Z) (self' : PrpWalk) : Prop :=
  walk_ok self' /\ 0 < seg.2 /\ remain self' = remain self - seg.2 /\
  seg.1 mod PAGE_SIZE + seg.2 <= PAGE_SIZE /\ left self' < left self /\
  prp1 self' = prp1 self /\ prp2 self' = prp2 self.

Lemma seg_prp1 self :
  walk_ok self -> next self = NPrp1 ->
  let off := prp1 self mod PAGE_SIZE in
  let len := Z.min (PAGE_SIZE - off) (remain self) in
  Z.land (prp1 self) PAGE_OFFSET = off /\ wsub 64 PAGE_SIZE off = PAGE_SIZE - off /\
  wsub 64 (remain self) len = remain self - len /\ 0 < len.
Proof.
  intros ((H1 & _) & _ & Hr & Hn) Hnx. rewrite Hnx in Hn. cbv zeta.
  pose proof (Z.mod_pos_bound (prp1 self) PAGE_SIZE ltac:(done)) as Hm.
  rewrite land_offset. change PAGE_SIZE with 4096 in *.
  rewrite !wsub_small by lia. lia.
Qed.

Lemma advance_ok self gpa len nx :
  walk_ok self -> 0 < len <= remain self -> gpa mod PAGE_SIZE + len <= PAGE_SIZE ->
  (let self' := mkWalk (prp1 self) (prp2 self) (remain self - len) nx in
   walk_ok self' /\ left self' < left self) ->
  exists self', advance self gpa len nx = (Some (gpa, len), self') /\ seg_ok self (gpa, len) self'.
Proof.
  intros (H1 & H2 & Hr & _) Hl Hg [Hok Hleft]. unfold advance. rewrite wsub_small by lia.
  eexists. split; [reflexivity|]. unfold seg_ok. cbn [fst snd prp1 prp2 remain]. split_and!; done || lia.
Qed.

Section bounded.
Context (pm : physmap.PhysMap) (g : guest).

Lemma list_entry_time base idx w : (w_time (list_entry pm g base idx w).2 <= S (w_time w))%nat.
Proof.
  unfold list_entry. destruct (checked_mul 64 idx 8); simpl; [|lia].
  destruct (checked_add 64 base z); simpl; [|lia]. unfold io_bind, mem_read.
  destruct (mem_read_view pm z0 8); simpl; lia.
Qed.

Definition seg_answer (self : PrpWalk) (r : option (option (Z * Z) * PrpWalk)) : Prop :=
  match r with
  | None => True
  | Some (None, self') => next self = NDone
  | Some (Some seg, self') => seg_ok self seg self'
  end.

Lemma pages_of_step r : PAGE_SIZE < r -> pages_of (r - PAGE_SIZE) < pages_of r.
Proof.
  intros Hr. unfold pages_of. change PAGE_SIZE with 4096 in *.
  replace (r + 4096 - 1) with (r - 4096 + 4096 - 1 + 1 * 4096) by lia. rewrite Z.div_add by lia. lia.
Qed.

Lemma pages_of_pos r : 0 < r -> 0 < pages_of r.
Proof. intros Hr. unfold pages_of. change PAGE_SIZE with 4096. apply Z.div_str_pos. lia. Qed.

(** An entry of a list that is not the chain to the next one. *)
Lemma seg_entry self base idx entry :
  walk_ok self -> next self = NList base idx -> entry mod PAGE_SIZE = 0 ->
  (remain self <= PAGE_SIZE -> seg_answer self (Some (advance self entry (remain self) NDone))) /\
  (PAGE_SIZE < remain self -> idx + 1 < ENTRIES_PER_LIST ->
   seg_answer self (Some (advance self entry PAGE_SIZE (NList base (idx + 1))))).
Proof.
  intros Hok Hnx He. pose proof Hok as (H1 & H2 & Hr & Hn). rewrite Hnx in Hn.
  destruct Hn as (Hpos & Hb & Hi). split; intros.
  - destruct (advance_ok self entry (remain self) NDone) as (self' & -> & Hs); [done|lia|lia| |done].
    cbv zeta. rewrite Z.sub_diag. unfold walk_ok, left. rewrite Hnx. simpl.
    split; [split_and!; try done; lia|by apply pages_of_pos].
  - destruct (advance_ok self entry PAGE_SIZE (NList base (idx + 1))) as (self' & -> & Hs); [done|split; [done|lia]|lia| |done].
    assert (0 < PAGE_SIZE) by done.
    cbv zeta. unfold walk_ok, left. rewrite Hnx. simpl.
    split; [split_and!; try done; lia|by apply pages_of_step].
Qed.

Lemma next_list_ok fuel n self base idx w :
  walk_ok self -> next self = NList base idx -> (1 <= n)%nat ->
  (forall entry w', entry mod PAGE_SIZE = 0 -> (w_time w' <= S (w_time w))%nat ->
     idx + 1 = ENTRIES_PER_LIST -> PAGE_SIZE < remain self ->
     let r := next_segment_loop pm g fuel (mkWalk (prp1 self) (prp2 self) (remain self) (NList entry 0)) w' in
     (w_time r.2 <= n + w_time w)%nat /\ seg_answer self r.1) ->
  let r := next_segment_loop pm g (S fuel) self w in
  (w_time r.2 <= n + w_time w)%nat /\ seg_answer self r.1.
Proof.
  intros Hok Hnx Hn1 Hchain. pose proof Hok as (H1 & H2 & Hr & Hn). rewrite Hnx in Hn.
  destruct Hn as (Hpos & Hb & Hi). cbn [next_segment_loop]. rewrite Hnx. unfold io_bind.
  pose proof (list_entry_time base idx w) as Ht.
  destruct (list_entry pm g base idx w) as [[entry|] w'] eqn:He; simpl in Ht; [|simpl; lia].
  rewrite land_offset. destruct (Z.eqb_spec (entry mod PAGE_SIZE) 0) as [Hm|]; cbn [negb]; [|simpl; lia].
  destruct (seg_entry self base idx entry Hok Hnx Hm) as [Hlast Hnext].
  change ENTRIES_PER_LIST with 512 in *. rewrite wadd_small by lia.
  destruct (Z.leb_spec (remain self) PAGE_SIZE); [split; [simpl; lia|by apply Hlast]|].
  destruct (Z.ltb_spec (idx + 1) 512); [split; [simpl; lia|by apply Hnext]|].
  apply Hchain; [done|done|lia|done].
Qed.

Lemma next_segment_ok self w :
  walk_ok self ->
  let r := next_segment pm g self w in (w_time r.2 <= 2 + w_time w)%nat /\ seg_answer self r.1.
Proof.
  intros Hok. unfold next_segment. destruct (next self) as [| |base idx|] eqn:Hnx.
  - destruct (seg_prp1 self Hok Hnx) as (Hoff & Hlen & Hafter & Hpos). pose proof Hok as (H1 & H2 & Hr & Hn).
    rewrite Hnx in Hn. cbn [next_segment_loop]. rewrite Hnx, Hoff, Hlen, Hafter.
    destruct (negb _); [simpl; lia|].
    set (len := Z.min (PAGE_SIZE - prp1 self mod PAGE_SIZE) (remain self)) in *.
    pose proof (Z.mod_pos_bound (prp1 self) PAGE_SIZE ltac:(done)).
    assert (0 <= remain self / PAGE_SIZE) by (apply Z.div_pos; [lia|done]).
    assert (Hadv : forall nx, (let self' := mkWalk (prp1 self) (prp2 self) (remain self - len) nx in
      walk_ok self' /\ left self' < left self) -> seg_answer self (Some (advance self (prp1 self) len nx))).
    { intros nx Hx. destruct (advance_ok self (prp1 self) len nx) as (self' & -> & Hs); [done|lia|lia|done|done]. }
    assert (Hl : left self = remain self / PAGE_SIZE + 2) by (unfold left; by rewrite Hnx).
    destruct (Z.eqb_spec (remain self - len) 0); [|destruct (Z.leb_spec (remain self - len) PAGE_SIZE);
      [|destruct (negb (Z.land (prp2 self) 7 =? 0)) eqn:H7; [simpl; lia|]]];
      (split; [simpl; lia|apply Hadv; cbv zeta; rewrite Hl; unfold walk_ok, left; simpl]).
    + split; [split_and!; try done; lia|lia].
    + split; [split_and!; try done; lia|lia].
    + split; [split_and!; try done; try lia|].
      * rewrite ldiff_offset. pose proof (Z.div_mod (prp2 self) PAGE_SIZE ltac:(done)) as Hd.
        replace (prp2 self - prp2 self mod PAGE_SIZE) with (prp2 self / PAGE_SIZE * PAGE_SIZE) by lia.
        by apply Z.mod_mul.
      * rewrite land_offset. apply Z.div_pos; [|lia]. by apply Z.mod_pos_bound.
      * rewrite land_offset. pose proof (Z.mod_pos_bound (prp2 self) PAGE_SIZE ltac:(done)).
        apply Z.div_lt_upper_bound; [lia|]. change ENTRIES_PER_LIST with 512. change PAGE_SIZE with 4096 in *. lia.
      * unfold pages_of. apply Z.le_lt_trans with ((remain self + 1 * PAGE_SIZE) / PAGE_SIZE).
        { apply Z.div_le_mono; [done|]. change PAGE_SIZE with 4096 in *. lia. }
        rewrite Z.div_add by done. lia.
  - pose proof Hok as (H1 & H2 & Hr & Hn). rewrite Hnx in Hn. cbn [next_segment_loop]. rewrite Hnx, land_offset.
    destruct (Z.eqb_spec (prp2 self mod PAGE_SIZE) 0); cbn [negb]; [|simpl; lia].
    split; [simpl; lia|]. destruct (advance_ok self (prp2 self) (remain self) NDone) as (self' & Ha & Hs); [done|lia|lia| |].
    + cbv zeta. rewrite Z.sub_diag. unfold walk_ok, left. rewrite Hnx. simpl. split; [split_and!; try done; lia|lia].
    + change (seg_answer self (Some (advance self (prp2 self) (remain self) NDone))). by rewrite Ha.
  - apply (next_list_ok 1 2 self base idx); [done|done|lia|]. intros entry w' Hm Ht Hi Hrem.
    pose proof Hok as (H1 & H2 & Hr & Hn).
    assert (Hok' : walk_ok (mkWalk (prp1 self) (prp2 self) (remain self) (NList entry 0))).
    { unfold walk_ok. simpl. split_and!; try done; change PAGE_SIZE with 4096 in *; lia. }
    destruct (next_list_ok 0 1 _ entry 0 w' Hok' eq_refl ltac:(lia)) as [Ht' Ha].
    { intros ? ? ? ? Hidx. by vm_compute in Hidx. }
    split; [lia|]. revert Ha. destruct (next_segment_loop _ _ _ _ _).1 as [[[seg|] self']|]; [|done..].
    unfold seg_answer, seg_ok, left. rewrite Hnx. simpl. done.
  - cbn [next_segment_loop]. rewrite Hnx. simpl. split; [lia|done].
Qed.

(** Bytes an I/O vector names. *)
Definition iov_len (vs : list SubMapping) : Z := foldr (fun v n => s_len v + n) 0 vs.

(** A view of one piece of one guest page. *)
Definition in_page (v : SubMapping) : Prop :=
  0 < s_len v /\ s_ptr v mod PAGE_SIZE + s_len v <= PAGE_SIZE /\
  mem_lookup pm (s_ptr v) (s_len v) = Some v.

(** The number of turns the loop was given never matters. *)
Lemma iovec_loop_ok fuel self iov w :
  walk_ok self -> left self < Z.of_nat fuel ->
  (forall fuel', (fuel <= fuel')%nat -> iovec_loop pm g fuel' self iov w = iovec_loop pm g fuel self iov w) /\
  (w_time (iovec_loop pm g fuel self iov w).2 <= 2 * fuel + w_time w)%nat /\
  match (iovec_loop pm g fuel self iov w).1 with
  | None => True
  | Some iov' => exists vs, iov' = iov ++ vs /\ iov_len vs = remain self /\
      Forall in_page vs
  end.
Proof.
  revert self iov w. induction fuel as [|fuel IH]; intros self iov w Hok Hl.
  { pose proof (left_nonneg self Hok). lia. }
  pose proof (next_segment_ok self w Hok) as [Ht Hans].
  cbn [iovec_loop]. unfold io_bind.
  destruct (next_segment pm g self w) as [[[[[gpa len]|] self']|] w'] eqn:Hn; simpl in Ht, Hans.
  - destruct Hans as (Hok' & Hpos & Hrem & Hpg & Hleft & _). simpl in *.
    destruct (mem_lookup pm gpa len) as [sub|] eqn:Hlk.
    2:{ split; [|simpl; lia]. intros [|f] ?; [lia|]. cbn [iovec_loop]. unfold io_bind. by rewrite Hn, Hlk. }
    destruct (IH self' (iov ++ [sub]) w' Hok' ltac:(lia)) as (Hf & Htime & Hres).
    split; [|split; [lia|]].
    + intros [|f] ?; [lia|]. cbn [iovec_loop]. unfold io_bind. rewrite Hn, Hlk. apply Hf. lia.
    + destruct (iovec_loop pm g fuel self' (iov ++ [sub]) w').1 as [iov'|]; [|done].
      destruct Hres as (vs & -> & Hsum & Hall). exists (sub :: vs). rewrite <- app_assoc.
      destruct (mem_lookup_view _ _ _ _ Hlk) as [Hp Hsl].
      split; [done|]. split; [simpl; lia|]. constructor; [|done]. unfold in_page. by rewrite Hp, Hsl.
  - pose proof Hok as (_ & _ & _ & Hx). rewrite Hans in Hx.
    split; [|split; [simpl; lia|]].
    + intros [|f] ?; [lia|]. cbn [iovec_loop]. unfold io_bind. by rewrite Hn.
    + exists []. by rewrite app_nil_r.
  - split; [|simpl; lia]. intros [|f] ?; [lia|]. cbn [iovec_loop]. unfold io_bind. by rewrite Hn.
Qed.

(** C36: whatever the guest makes of its PRP lists while they are walked, the
    walk ends: more turns than [segments] change nothing, and each segment
    costs at most two accesses. What it returns names exactly the bytes of
    the transfer, each view inside one mapped guest page. *)
Theorem prp_bounded p1 p2 len w :
  uint 64 p1 -> uint 64 p2 -> 0 <= len < 2 ^ 63 ->
  (forall fuel, (segments len <= fuel)%nat ->
     iovec_loop pm g fuel (walk_new p1 p2 len) [] w = prp_to_iovec pm g p1 p2 len w) /\
  (w_time (prp_to_iovec pm g p1 p2 len w).2 <= 2 * segments len + w_time w)%nat /\
  match (prp_to_iovec pm g p1 p2 len w).1 with
  | None => True
  | Some iov => iov_len iov = len /\ Forall in_page iov
  end.
Proof.
  intros H1 H2 Hl.
  destruct (iovec_loop_ok (segments len) (walk_new p1 p2 len) [] w) as (Hf & Ht & Hr);
    [by apply walk_new_ok|apply left_new; lia|].
  unfold prp_to_iovec in *. split; [done|]. split; [done|].
  destruct (iovec_loop _ _ _ _ _ _).1 as [iov|]; [|done]. destruct Hr as (vs & -> & Hsum & Hall). done.
Qed.

End bounded.

(** ** What the specification says *)

(** NVMe 1.4 section 4.3, read off the text: a PRP list runs from its
    pointer to the end of the page, and when the data pages do not fit, its
    last slot points to the next list. *)
Section spec.
Context (pm : physmap.PhysMap) (m : hostmem).

Definition entry_at (a : Z) : Z := le_val (peek_range m a 8).

(** A slot that can be read and names the start of a page. *)
Definition good_entry (a : Z) : Prop :=
  is_ok (mem_read_view pm a 8) = true /\ entry_at a mod PAGE_SIZE = 0.

Definition slot (ptr : Z) (i : nat) : Z := ptr + 8 * Z.of_nat i.
Definition slots (ptr : Z) : nat := Z.to_nat ((PAGE_SIZE - ptr mod PAGE_SIZE) / 8).
Definition entries (ptr : Z) (n : nat) : list Z := (fun i => entry_at (slot ptr i)) <$> seq 0 n.

Inductive prp_list : Z -> nat -> list Z -> Prop :=
| prp_list_here ptr n :
    (1 <= n <= slots ptr)%nat -> (forall i, (i < n)%nat -> good_entry (slot ptr i)) ->
    prp_list ptr n (entries ptr n)
| prp_list_chain ptr n rest :
    (slots ptr < n)%nat -> (forall i, (i < slots ptr)%nat -> good_entry (slot ptr i)) ->
    prp_list (entry_at (slot ptr (slots ptr - 1))) (n - (slots ptr - 1)) rest ->
    prp_list ptr n (entries ptr (slots ptr - 1) ++ rest).

(** Whole pages, and what is left on the last one. *)
Fixpoint page_segs (pages : list Z) (r : Z) : list (Z * Z) :=
  match pages with
  | [] => []
  | p :: pages => (p, Z.min PAGE_SIZE r) :: page_segs pages (r - PAGE_SIZE)
  end.

(** Bytes from an address to the end of its page. *)
Definition room (p : Z) : Z := PAGE_SIZE - p mod PAGE_SIZE.

Inductive prp_segs (p1 p2 len : Z) : list (Z * Z) -> Prop :=
| segs_empty : len = 0 -> prp_segs p1 p2 len []
| segs_one : 0 < len <= room p1 -> p1 mod 4 = 0 -> prp_segs p1 p2 len [(p1, len)]
| segs_two :
    room p1 < len <= room p1 + PAGE_SIZE -> p1 mod 4 = 0 -> p2 mod PAGE_SIZE = 0 ->
    prp_segs p1 p2 len [(p1, room p1); (p2, len - room p1)]
| segs_list pages :
    room p1 + PAGE_SIZE < len -> p1 mod 4 = 0 -> p2 mod 8 = 0 ->
    prp_list p2 (Z.to_nat (pages_of (len - room p1))) pages ->
    prp_segs p1 p2 len ((p1, room p1) :: page_segs pages (len - room p1)).

(** *** The same lists, slot by slot *)

Inductive by_slot : Z -> Z -> nat -> list Z -> Prop :=
| by_slot_last base idx :
    good_entry (base + 8 * idx) -> by_slot base idx 1 [entry_at (base + 8 * idx)]
| by_slot_next base idx n l :
    good_entry (base + 8 * idx) -> idx + 1 < ENTRIES_PER_LIST -> (1 <= n)%nat ->
    by_slot base (idx + 1) n l -> by_slot base idx (S n) (entry_at (base + 8 * idx) :: l)
| by_slot_chain base idx n l :
    good_entry (base + 8 * idx) -> idx + 1 = ENTRIES_PER_LIST -> (1 < n)%nat ->
    by_slot (entry_at (base + 8 * idx)) 0 n l -> by_slot base idx n l.

Lemma slots_at base idx :
  base mod PAGE_SIZE = 0 -> 0 <= idx < ENTRIES_PER_LIST ->
  slots (base + 8 * idx) = Z.to_nat (ENTRIES_PER_LIST - idx).
Proof.
  intros Hb Hi. unfold slots. change ENTRIES_PER_LIST with 512 in *. change PAGE_SIZE with 4096 in *.
  rewrite Zplus_mod, Hb, Z.add_0_l, Zmod_mod, (Z.mod_small (8 * idx)) by lia.
  f_equal. replace (4096 - 8 * idx) with ((512 - idx) * 8) by lia. by rewrite Z.div_mul.
Qed.

Lemma entries_S ptr n : entries ptr (S n) = entry_at ptr :: entries (ptr + 8) n.
Proof.
  unfold entries. rewrite <- cons_seq, fmap_cons, <- fmap_S_seq, <- list_fmap_compose.
  f_equal; [unfold slot; f_equal; lia|]. apply list_fmap_ext. intros i x _. unfold compose, slot. f_equal. lia.
Qed.

Lemma slot_S ptr i : slot (ptr + 8) i = slot ptr (S i).
Proof. unfold slot. lia. Qed.

Lemma by_slot_list base idx n l :
  base mod PAGE_SIZE = 0 -> 0 <= idx < ENTRIES_PER_LIST ->
  by_slot base idx n l -> prp_list (base + 8 * idx) n l.
Proof.
  intros Hb Hi H. revert Hb Hi. induction H as [base idx Hg|base idx n l Hg Hx Hn Hl IH|base idx n l Hg Hx Hn Hl IH];
    intros Hb Hi; pose proof (slots_at base idx Hb Hi) as Hs.
  - change [entry_at (base + 8 * idx)] with (entry_at (base + 8 * idx) :: entries (base + 8 * idx + 8) 0).
    rewrite <- entries_S. constructor.
    + rewrite Hs. lia.
    + intros i Hlt. replace i with 0%nat by lia. unfold slot. by rewrite Z.add_0_r.
  - specialize (IH Hb ltac:(lia)). pose proof (slots_at base (idx + 1) Hb ltac:(lia)) as Hs'.
    replace (base + 8 * (idx + 1)) with (base + 8 * idx + 8) in * by lia.
    inversion IH as [? ? Hr Hall|? ? rest Hr Hall Hrest]; subst; rewrite Hs' in *.
    + rewrite <- entries_S. constructor; [rewrite Hs; lia|]. intros [|i] Hlt.
      * unfold slot. by rewrite Z.add_0_r.
      * rewrite <- slot_S. apply Hall. lia.
    + rewrite app_comm_cons, <- entries_S.
      replace (S (Z.to_nat (ENTRIES_PER_LIST - (idx + 1)) - 1))%nat with (slots (base + 8 * idx) - 1)%nat by lia.
      constructor; [lia| |].
      * intros [|i] Hlt; [unfold slot; by rewrite Z.add_0_r|]. rewrite <- slot_S. apply Hall. lia.
      * replace (slots (base + 8 * idx) - 1)%nat with (S (Z.to_nat (ENTRIES_PER_LIST - (idx + 1)) - 1))%nat by lia.
        rewrite <- slot_S. exact Hrest.
  - specialize (IH (proj2 Hg) ltac:(done)). rewrite Z.add_0_r in IH.
    assert (Hs1 : slots (base + 8 * idx) = 1%nat) by lia.
    change l with (entries (base + 8 * idx) (1 - 1) ++ l). rewrite <- Hs1 at 1. constructor; [lia| |].
    + intros i Hlt. replace i with 0%nat by lia. unfold slot. by rewrite Z.add_0_r.
    + rewrite Hs1. replace (slot (base + 8 * idx) (1 - 1)) with (base + 8 * idx) by (unfold slot; lia).
      by replace (n - (1 - 1))%nat with n by lia.
Qed.

Lemma here_by_slot n base idx :
  0 <= idx -> (1 <= n)%nat -> idx + Z.of_nat n <= ENTRIES_PER_LIST ->
  (forall i, (i < n)%nat -> good_entry (slot (base + 8 * idx) i)) ->
  by_slot base idx n (entries (base + 8 * idx) n).
Proof.
  revert idx. induction n as [|n IH]; intros idx H0 Hn Hle Hg; [lia|].
  assert (Hg0 : good_entry (base + 8 * idx)).
  { specialize (Hg 0%nat ltac:(lia)). unfold slot in Hg. by rewrite Z.add_0_r in Hg. }
  rewrite entries_S. destruct (decide (n = 0%nat)) as [->|]; [by constructor|].
  constructor; [done|lia|lia|].
  replace (base + 8 * idx + 8) with (base + 8 * (idx + 1)) by lia. apply IH; [lia|lia|lia|].
  intros i Hi. specialize (Hg (S i) ltac:(lia)). rewrite <- slot_S in Hg.
  by replace (base + 8 * idx + 8) with (base + 8 * (idx + 1)) in Hg by lia.
Qed.

Lemma chain_by_slot k base idx n rest :
  0 <= idx -> idx + Z.of_nat k + 1 = ENTRIES_PER_LIST -> (1 < n)%nat ->
  (forall i, (i <= k)%nat -> good_entry (slot (base + 8 * idx) i)) ->
  by_slot (entry_at (slot (base + 8 * idx) k)) 0 n rest ->
  by_slot base idx (k + n) (entries (base + 8 * idx) k ++ rest).
Proof.
  revert idx. induction k as [|k IH]; intros idx H0 Hk Hn Hg Hr.
  - assert (Hs0 : slot (base + 8 * idx) 0 = base + 8 * idx) by (unfold slot; lia).
    rewrite Hs0 in Hr. apply by_slot_chain; [rewrite <- Hs0; by apply Hg|lia|done|done].
  - rewrite entries_S. simpl. constructor; [|lia|lia|].
    + specialize (Hg 0%nat ltac:(lia)). unfold slot in Hg. by rewrite Z.add_0_r in Hg.
    + replace (base + 8 * idx + 8) with (base + 8 * (idx + 1)) by lia. apply IH; [lia|lia|lia| |].
      * intros i Hi. specialize (Hg (S i) ltac:(lia)). rewrite <- slot_S in Hg.
        by replace (base + 8 * idx + 8) with (base + 8 * (idx + 1)) in Hg by lia.
      * rewrite <- slot_S in Hr. by replace (base + 8 * idx + 8) with (base + 8 * (idx + 1)) in Hr by lia.
Qed.

Lemma list_by_slot base idx n l :
  base mod PAGE_SIZE = 0 -> 0 <= idx < ENTRIES_PER_LIST ->
  prp_list (base + 8 * idx) n l -> by_slot base idx n l.
Proof.
  intros Hb Hi Hp. remember (base + 8 * idx) as ptr eqn:Hptr. revert base idx Hptr Hb Hi.
  induction Hp as [ptr n Hn Hg|ptr n rest Hn Hg Hr IH]; intros base idx -> Hb Hi;
    pose proof (slots_at base idx Hb Hi) as Hs.
  - apply here_by_slot; [lia|lia|lia|done].
  - replace n with ((slots (base + 8 * idx) - 1) + (n - (slots (base + 8 * idx) - 1)))%nat at 1 by lia.
    apply chain_by_slot; [lia|lia|lia| |].
    + intros i Hlt. apply Hg. lia.
    + apply IH; [by rewrite Z.add_0_r| |done]. apply Hg. lia.
Qed.

End spec.

(** ** The walk on memory that stands still *)

Section still.
Context (pm : physmap.PhysMap).

Definition goodb (m : hostmem) (a : Z) : bool :=
  is_ok (mem_read_view pm a 8) && (entry_at m a mod PAGE_SIZE =? 0).

Lemma goodb_spec m a : goodb m a = true <-> good_entry pm m a.
Proof. unfold goodb, good_entry. rewrite andb_true_iff, Z.eqb_eq. done. Qed.

Lemma list_entry_still base idx w :
  0 <= idx < ENTRIES_PER_LIST ->
  exists w', w_mem w' = w_mem w /\
    list_entry pm idle base idx w =
      (if is_ok (mem_read_view pm (base + 8 * idx) 8) then Some (entry_at (w_mem w) (base + 8 * idx)) else None, w').
Proof.
  intros Hi. change ENTRIES_PER_LIST with 512 in Hi. unfold list_entry, checked_mul.
  destruct (Z.ltb_spec (idx * 8) (2 ^ 64)); [|lia]. unfold checked_add.
  replace (base + idx * 8) with (base + 8 * idx) by lia.
  destruct (Z.ltb_spec (base + 8 * idx) (2 ^ 64)) as [Hlt|Hge].
  - exists (turn idle w). split; [done|]. unfold io_bind, mem_read.
    by destruct (mem_read_view pm (base + 8 * idx) 8).
  - exists w. split; [done|]. unfold mem_read_view, physmap.lookup_untracked, checked_add.
    by destruct (Z.ltb_spec (base + 8 * idx + Z.of_nat 8) (2 ^ 64)); [lia|].
Qed.

(** One step over a list. *)
Lemma next_list_still p1 p2 r base idx w :
  0 <= idx < ENTRIES_PER_LIST -> 0 <= r < 2 ^ 63 ->
  let at_ r nx := mkWalk p1 p2 r nx in
  let a := base + 8 * idx in
  let e := entry_at (w_mem w) a in
  exists w', w_mem w' = w_mem w /\
    next_segment pm idle (at_ r (NList base idx)) w =
      (if goodb (w_mem w) a then
         if r <=? PAGE_SIZE then Some (Some (e, r), at_ 0 NDone)
         else if idx + 1 <? ENTRIES_PER_LIST then Some (Some (e, PAGE_SIZE), at_ (r - PAGE_SIZE) (NList base (idx + 1)))
         else if goodb (w_mem w) e
         then Some (Some (entry_at (w_mem w) e, PAGE_SIZE), at_ (r - PAGE_SIZE) (NList e 1)) else None
       else None, w').
Proof.
  intros Hi Hr at_ a e. subst at_. unfold next_segment. cbn [next_segment_loop next]. unfold io_bind at 1.
  destruct (list_entry_still base idx w Hi) as (w1 & Hw1 & ->). unfold goodb at 1. fold a. fold e.
  destruct (is_ok (mem_read_view pm a 8)); [|by exists w1]. cbn [andb]. rewrite land_offset.
  destruct (Z.eqb_spec (e mod PAGE_SIZE) 0) as [He|]; cbn [negb]; [|by exists w1].
  cbn [remain prp1 prp2]. change ENTRIES_PER_LIST with 512 in *. rewrite (wadd_small 64 idx) by lia.
  unfold advance. cbn [remain prp1 prp2].
  destruct (Z.leb_spec r PAGE_SIZE).
  { exists w1. split; [done|]. rewrite wsub_small by lia. by rewrite Z.sub_diag. }
  assert (Hws : wsub 64 r PAGE_SIZE = r - PAGE_SIZE) by (apply wsub_small; change PAGE_SIZE with 4096 in *; lia).
  destruct (Z.ltb_spec (idx + 1) 512).
  { exists w1. by rewrite Hws. }
  cbn [next_segment_loop next]. unfold io_bind at 1.
  destruct (list_entry_still e 0 w1 ltac:(done)) as (w2 & Hw2 & ->). rewrite Hw1 in *.
  replace (e + 8 * 0) with e by lia. unfold goodb.
  destruct (is_ok (mem_read_view pm e 8)); [|by exists w2]. cbn [andb]. rewrite land_offset.
  destruct (Z.eqb_spec (entry_at (w_mem w) e mod PAGE_SIZE) 0); cbn [negb]; [|by exists w2].
  exists w2. destruct (Z.leb_spec r PAGE_SIZE); [lia|]. cbn [remain prp1 prp2]. by rewrite Hws.
Qed.

Abbreviation views := (Forall2 (fun (seg : Z * Z) v => mem_lookup pm seg.1 seg.2 = Some v)).

(** The loop takes a segment when there is one. *)
Lemma iovec_loop_step fuel self seg self' iov w w' res (Q Q' : list (Z * Z) -> Prop) :
  next_segment pm idle self w = (Some (Some seg, self'), w') ->
  (forall iov, (iovec_loop pm idle fuel self' iov w').1 = Some res <->
     exists segs vs, Q segs /\ views segs vs /\ res = iov ++ vs) ->
  (forall segs', Q' segs' <-> exists segs, segs' = seg :: segs /\ Q segs) ->
  (iovec_loop pm idle (S fuel) self iov w).1 = Some res <->
  exists segs vs, Q' segs /\ views segs vs /\ res = iov ++ vs.
Proof.
  intros Hn Hrest HQ'. transitivity (exists segs vs, Q segs /\ views (seg :: segs) vs /\ res = iov ++ vs).
  2:{ setoid_rewrite HQ'. naive_solver. }
  clear HQ'. cbn [iovec_loop]. unfold io_bind. rewrite Hn. destruct seg as [gpa len].
  destruct (mem_lookup pm gpa len) as [sub|] eqn:Hlk.
  - rewrite Hrest. split; intros (segs & vs & HQ & Hv & ->).
    + exists segs, (sub :: vs). split; [done|]. split; [by constructor|by rewrite <- app_assoc].
    + apply Forall2_cons_inv_l in Hv as (v & vs' & Hlk' & Hv & ->). simpl in Hlk'. simplify_eq.
      exists segs, vs'. split; [done|]. split; [done|by rewrite <- app_assoc].
  - split; [done|]. intros (segs & vs & _ & Hv & _).
    apply Forall2_cons_inv_l in Hv as (v & vs' & Hlk' & _). simpl in Hlk'. congruence.
Qed.

Lemma iovec_loop_stop fuel self iov w w' res :
  next_segment pm idle self w = (None, w') -> (iovec_loop pm idle (S fuel) self iov w).1 = Some res <-> False.
Proof. intros Hn. cbn [iovec_loop]. unfold io_bind. rewrite Hn. done. Qed.

Lemma iovec_loop_end fuel p1 p2 iov w res :
  (0 < fuel)%nat ->
  (iovec_loop pm idle fuel (mkWalk p1 p2 0 NDone) iov w).1 = Some res <->
  exists segs vs, segs = [] /\ views segs vs /\ res = iov ++ vs.
Proof.
  intros Hf. destruct fuel as [|fuel]; [lia|]. simpl. split.
  - intros [= ->]. exists [], []. by rewrite app_nil_r.
  - intros (? & vs & -> & Hv & ->). apply Forall2_nil_inv_l in Hv as ->. by rewrite app_nil_r.
Qed.

Lemma by_slot_inv m base idx n l :
  by_slot pm m base idx n l <->
  good_entry pm m (base + 8 * idx) /\
  (n = 1%nat /\ l = [entry_at m (base + 8 * idx)] \/
   idx + 1 < ENTRIES_PER_LIST /\ (exists n' l', n = S n' /\ (1 <= n')%nat /\
     l = entry_at m (base + 8 * idx) :: l' /\ by_slot pm m base (idx + 1) n' l') \/
   idx + 1 = ENTRIES_PER_LIST /\ (1 < n)%nat /\ by_slot pm m (entry_at m (base + 8 * idx)) 0 n l).
Proof.
  split.
  - inversion 1; subst; split; naive_solver.
  - intros [Hg [[-> ->]|[(Hx & n' & l' & -> & Hn & -> & Hb)|(Hx & Hn & Hb)]]];
      [by constructor|by constructor|by apply by_slot_chain].
Qed.

Lemma list_loop_still n p1 p2 r base idx fuel iov w res :
  0 <= idx < ENTRIES_PER_LIST -> 0 < r < 2 ^ 63 -> Z.of_nat n = pages_of r -> (n < fuel)%nat ->
  (iovec_loop pm idle fuel (mkWalk p1 p2 r (NList base idx)) iov w).1 = Some res <->
  exists segs vs, (exists pages, by_slot pm (w_mem w) base idx n pages /\ segs = page_segs pages r) /\
    views segs vs /\ res = iov ++ vs.
Proof.
  revert r base idx fuel iov w. induction n as [|n IH]; intros r base idx fuel iov w Hi Hr Hn Hf.
  { pose proof (pages_of_pos r). lia. }
  destruct fuel as [|fuel]; [lia|]. assert (0 < PAGE_SIZE) by done.
  destruct (next_list_still p1 p2 r base idx w Hi ltac:(lia)) as (w' & Hw' & Hseg). cbv zeta in Hseg.
  setoid_rewrite by_slot_inv. setoid_rewrite <- goodb_spec.
  destruct (goodb (w_mem w) (base + 8 * idx)) eqn:Hg.
  2:{ rewrite (iovec_loop_stop _ _ _ _ _ _ Hseg). naive_solver. }
  set (e := entry_at (w_mem w) (base + 8 * idx)) in *.
  destruct (Z.leb_spec r PAGE_SIZE) as [Hle|Hgt].
  { assert (n = 0%nat) as ->.
    { assert (pages_of r < 2); [|lia]. unfold pages_of. change PAGE_SIZE with 4096 in *.
      apply Z.div_lt_upper_bound; lia. }
    apply (iovec_loop_step _ _ _ _ _ _ _ _ (fun segs => segs = []) _ Hseg).
    - intros iov'. apply iovec_loop_end. lia.
    - intros segs'. split.
      + intros (pages & [_ [[_ ->]|[(_ & n' & l' & ? & ? & _)|(_ & ? & _)]]] & ->); [|lia..].
        exists []. simpl. split; [|done]. by rewrite Z.min_r.
      + intros (segs & -> & ->). exists [e]. split; [by auto|]. simpl. by rewrite Z.min_r. }
  assert (Hpg : Z.of_nat n = pages_of (r - PAGE_SIZE) /\ 0 < r - PAGE_SIZE /\ 0 < pages_of (r - PAGE_SIZE)).
  { split; [|split; [lia|apply pages_of_pos; lia]]. unfold pages_of in *.
    replace (r - PAGE_SIZE + PAGE_SIZE - 1) with (r + PAGE_SIZE - 1 + (-1) * PAGE_SIZE) by lia.
    rewrite Z.div_add by done. lia. }
  assert (Hmin : Z.min PAGE_SIZE r = PAGE_SIZE) by lia. destruct Hpg as (Hpg & Hpos & Hp1).
  change ENTRIES_PER_LIST with 512 in *.
  destruct (Z.ltb_spec (idx + 1) 512) as [Hx|Hx].
  - eapply iovec_loop_step; [exact Hseg|intros iov'; apply (IH (r - PAGE_SIZE)); [lia|lia|done|lia]|].
    rewrite Hw'. intros segs'. split.
    + intros (pages & [_ [[? _]|[(_ & n' & l' & [= <-] & ? & -> & Hb)|(? & _)]]] & ->); [lia| |lia].
      exists (page_segs l' (r - PAGE_SIZE)). simpl. rewrite Hmin. split; [done|]. by exists l'.
    + intros (segs & -> & pages & Hb & ->). exists (e :: pages). simpl. rewrite Hmin. split; [|done].
      split; [done|]. right. left. split; [lia|]. exists n, pages. split_and!; [done|lia|done|done].
  - assert (idx + 1 = 512) as Hx' by lia.
    destruct (goodb (w_mem w) e) eqn:Hge.
    2:{ rewrite (iovec_loop_stop _ _ _ _ _ _ Hseg). split; [done|].
        intros (segs & vs & (pages & [_ [[? _]|[(? & _)|(_ & _ & Hb)]]] & _) & _); [lia|lia|].
        apply by_slot_inv in Hb as [Hb%goodb_spec _]. rewrite Z.add_0_r in Hb. congruence. }
    eapply iovec_loop_step; [exact Hseg|intros iov'; apply (IH (r - PAGE_SIZE)); [lia|lia|done|lia]|].
    rewrite Hw'. intros segs'. split.
    + intros (pages & [_ [[? _]|[(? & _)|(_ & _ & Hb)]]] & ->); [lia|lia|].
      apply by_slot_inv in Hb as [_ [[? _]|[(_ & n' & l' & [= <-] & ? & -> & Hb)|(Hbad & _)]]]; [lia| |by vm_compute in Hbad].
      rewrite Z.add_0_r in *. exists (page_segs l' (r - PAGE_SIZE)). simpl. rewrite Hmin. split; [done|]. by exists l'.
    + intros (segs & -> & pages & Hb & ->). exists (entry_at (w_mem w) e :: pages). simpl. rewrite Hmin.
      split; [|done]. split; [done|]. right. right. split; [done|]. split; [lia|].
      apply by_slot_inv. rewrite Z.add_0_r. split; [by apply goodb_spec|]. right. left. split; [done|].
      exists n, pages. split_and!; [done|lia|done|done].
Qed.

Lemma next_prp1_still p1 p2 len w :
  uint 64 p1 -> 0 < len < 2 ^ 63 ->
  let rest := len - room p1 in
  next_segment pm idle (mkWalk p1 p2 len NPrp1) w =
    (if negb (p1 mod 4 =? 0) then None
     else if rest <=? 0 then Some (Some (p1, len), mkWalk p1 p2 0 NDone)
     else if rest <=? PAGE_SIZE then Some (Some (p1, room p1), mkWalk p1 p2 rest NPrp2)
     else if negb (p2 mod 8 =? 0) then None
     else Some (Some (p1, room p1),
            mkWalk p1 p2 rest (NList (p2 - p2 mod PAGE_SIZE) (p2 mod PAGE_SIZE / 8))), w).
Proof.
  intros Hp Hl rest. unfold next_segment. cbn [next_segment_loop next prp1 prp2 remain].
  change 3 with (Z.ones 2). change 7 with (Z.ones 3). rewrite !Z.land_ones by lia.
  rewrite land_offset. change (2 ^ 2) with 4. change (2 ^ 3) with 8.
  destruct (negb (p1 mod 4 =? 0)); [done|].
  pose proof (Z.mod_pos_bound p1 PAGE_SIZE ltac:(done)) as Hm. unfold advance. cbn [prp1 prp2 remain].
  assert (Hroom : wsub 64 PAGE_SIZE (p1 mod PAGE_SIZE) = room p1) by (apply wsub_small; unfold room; change PAGE_SIZE with 4096 in *; lia).
  rewrite Hroom. assert (Hr0 : 0 < room p1) by (unfold room; lia).
  assert (Hafter : wsub 64 len (Z.min (room p1) len) = len - Z.min (room p1) len) by (apply wsub_small; lia).
  rewrite Hafter. subst rest.
  destruct (Z.leb_spec (len - room p1) 0).
  { rewrite Z.min_r, Z.sub_diag by lia. done. }
  rewrite Z.min_l by lia. destruct (Z.eqb_spec (len - room p1) 0); [lia|].
  destruct (Z.leb_spec (len - room p1) PAGE_SIZE); [done|].
  rewrite ldiff_offset, land_offset. by destruct (negb (p2 mod 8 =? 0)).
Qed.

Lemma prp2_loop_still p1 p2 r fuel iov w res :
  0 < r <= PAGE_SIZE -> (1 < fuel)%nat ->
  (iovec_loop pm idle fuel (mkWalk p1 p2 r NPrp2) iov w).1 = Some res <->
  exists segs vs, (p2 mod PAGE_SIZE = 0 /\ segs = [(p2, r)]) /\ views segs vs /\ res = iov ++ vs.
Proof.
  intros Hr Hf. destruct fuel as [|fuel]; [lia|].
  assert (Hseg : next_segment pm idle (mkWalk p1 p2 r NPrp2) w =
    (if negb (p2 mod PAGE_SIZE =? 0) then None else Some (Some (p2, r), mkWalk p1 p2 0 NDone), w)).
  { unfold next_segment. cbn [next_segment_loop next prp1 prp2 remain]. rewrite land_offset.
    destruct (negb (p2 mod PAGE_SIZE =? 0)); [done|]. unfold advance. cbn [prp1 prp2 remain].
    rewrite wsub_small by (change PAGE_SIZE with 4096 in *; lia). by rewrite Z.sub_diag. }
  destruct (Z.eqb_spec (p2 mod PAGE_SIZE) 0); cbn [negb] in Hseg.
  - apply (iovec_loop_step _ _ _ _ _ _ _ _ (fun segs => segs = []) _ Hseg).
    + intros iov'. apply iovec_loop_end. lia.
    + naive_solver.
  - rewrite (iovec_loop_stop _ _ _ _ _ _ Hseg). naive_solver.
Qed.

(** Where a list pointer starts in its page. *)
Lemma list_start p :
  p mod 8 = 0 ->
  (p - p mod PAGE_SIZE) mod PAGE_SIZE = 0 /\ 0 <= p mod PAGE_SIZE / 8 < ENTRIES_PER_LIST /\
  p - p mod PAGE_SIZE + 8 * (p mod PAGE_SIZE / 8) = p.
Proof.
  intros H8. pose proof (Z.mod_pos_bound p PAGE_SIZE ltac:(done)) as Hm.
  pose proof (Z.div_mod p PAGE_SIZE ltac:(done)) as Hdm. split_and!.
  - replace (p - p mod PAGE_SIZE) with (p / PAGE_SIZE * PAGE_SIZE) by lia. by apply Z.mod_mul.
  - apply Z.div_pos; lia.
  - change ENTRIES_PER_LIST with 512. change PAGE_SIZE with 4096 in *. apply Z.div_lt_upper_bound; lia.
  - assert (H8' : (p mod PAGE_SIZE) mod 8 = 0) by (rewrite Z.mod_mod_divide by (by exists 512); done).
    pose proof (Z.div_mod (p mod PAGE_SIZE) 8 ltac:(done)). lia.
Qed.

(** C15: on memory that stands still the walk pins exactly the pages that
    NVMe 1.4 section 4.3 gives for the two PRP entries, in order, with
    chained lists followed; it fails exactly when the specification names
    no such pages or one of them is not mapped. *)
Theorem prp_refines p1 p2 len w iov :
  uint 64 p1 -> uint 64 p2 -> 0 <= len < 2 ^ 63 ->
  (prp_to_iovec pm idle p1 p2 len w).1 = Some iov <->
  exists segs, prp_segs pm (w_mem w) p1 p2 len segs /\ views segs iov.
Proof.
  intros Hp1 Hp2 Hl. unfold prp_to_iovec, walk_new, segments.
  pose proof (Z.mod_pos_bound p1 PAGE_SIZE ltac:(done)) as Hm. assert (Hr0 : 0 < room p1 <= PAGE_SIZE) by (unfold room; lia).
  transitivity (exists segs vs, prp_segs pm (w_mem w) p1 p2 len segs /\ views segs vs /\ iov = [] ++ vs);
    [|naive_solver].
  destruct (Z.eqb_spec len 0) as [->|Hne].
  { rewrite iovec_loop_end by lia. split; intros (segs & vs & Hs & Hv & He); exists segs, vs; (split; [|done]).
    - subst. by constructor.
    - inversion Hs; [done|lia..]. }
  assert (Hd : 0 <= len / PAGE_SIZE) by (apply Z.div_pos; [lia|done]).
  rewrite Nat.add_succ_r. pose proof (next_prp1_still p1 p2 len w Hp1 ltac:(lia)) as Hseg. cbv zeta in Hseg.
  destruct (Z.eqb_spec (p1 mod 4) 0) as [H4|H4]; cbn [negb] in Hseg.
  2:{ rewrite (iovec_loop_stop _ _ _ _ _ _ Hseg). split; [done|]. intros (segs & vs & Hs & _). inversion Hs; lia. }
  destruct (Z.leb_spec (len - room p1) 0).
  { apply (iovec_loop_step _ _ _ _ _ _ _ _ (fun segs => segs = []) _ Hseg).
    - intros iov'. apply iovec_loop_end. lia.
    - intros segs'. split; [inversion 1; naive_solver lia|]. intros (segs & -> & ->). constructor; [lia|done]. }
  destruct (Z.leb_spec (len - room p1) PAGE_SIZE).
  { eapply iovec_loop_step; [exact Hseg|intros iov'; apply prp2_loop_still; lia|].
    intros segs'. split; [inversion 1; naive_solver lia|]. intros (segs & -> & ? & ->). constructor; [lia|done|done]. }
  destruct (Z.eqb_spec (p2 mod 8) 0) as [H8|H8]; cbn [negb] in Hseg.
  2:{ rewrite (iovec_loop_stop _ _ _ _ _ _ Hseg). split; [done|]. intros (segs & vs & Hs & _). inversion Hs; lia. }
  destruct (list_start p2 H8) as (Hbase & Hidx & Hptr).
  assert (Hpg : 0 < pages_of (len - room p1)) by (apply pages_of_pos; lia).
  assert (Hpl : pages_of (len - room p1) <= len / PAGE_SIZE + 1).
  { unfold pages_of. apply Z.le_trans with ((len + 1 * PAGE_SIZE) / PAGE_SIZE).
    - apply Z.div_le_mono; [done|lia].
    - rewrite Z.div_add by done. lia. }
  eapply iovec_loop_step; [exact Hseg|intros iov'; apply (list_loop_still (Z.to_nat (pages_of (len - room p1)))); lia|].
  intros segs'. split.
  - inversion 1 as [|? ?|? ? ?|pages ? ? ? Hlist]; [lia..|]. subst. eexists. split; [reflexivity|].
    exists pages. split; [|done]. apply list_by_slot; [done|done|]. by rewrite Hptr.
  - intros (segs & -> & pages & Hb & ->). constructor; [lia|done|done|].
    apply by_slot_list in Hb; [|done|done]. by rewrite Hptr in Hb.
Qed.

End still.

(** ** Examples *)

(** A list in the second page that names the third page and the first. *)
Definition list_mem : hostmem := <[4097 := 0x20]> ∅.

Lemma prp_bounded_witness :
  (prp_to_iovec physmap_inv.example_pm idle 0x10 0x1000 5000 (mkWorld ∅ 0)).1 =
    Some [mkSub 0x10 4080 RWX; mkSub 0x1000 920 RWX] /\
  iov_len [mkSub 0x10 4080 RWX; mkSub 0x1000 920 RWX] = 5000.
Proof.
  destruct (prp_bounded physmap_inv.example_pm idle 0x10 0x1000 5000 (mkWorld ∅ 0)) as (_ & _ & Hr);
    [done|done|done|].
  split; [vm_compute; reflexivity|].
  replace (prp_to_iovec physmap_inv.example_pm idle 0x10 0x1000 5000 (mkWorld ∅ 0)).1
    with (Some [mkSub 0x10 4080 RWX; mkSub 0x1000 920 RWX]) in Hr by (vm_compute; reflexivity).
  apply Hr.
Defined.

Lemma prp_refines_witness :
  exists segs, prp_segs physmap_inv.example_pm list_mem 0 0x1000 12288 segs /\
    Forall2 (fun (seg : Z * Z) v => mem_lookup physmap_inv.example_pm seg.1 seg.2 = Some v) segs
      [mkSub 0 4096 RWX; mkSub 0x2000 4096 RWX; mkSub 0 4096 RWX].
Proof.
  apply (prp_refines physmap_inv.example_pm 0 0x1000 12288 (mkWorld list_mem 0)); [done|done|done|].
  vm_compute. reflexivity.
Defined.

End prp.
