(* ===== verification/Nvme.v ===== *)
(** * The NVMe controller

    [crates/vmm-storage/src/nvme]: registers and doorbells ([regs.rs]), the
    admin command set ([admin.rs]), submission of I/O commands ([io.rs]),
    queues and completions ([queues.rs]), constants ([bits.rs]) and the
    migration state ([mod.rs]). A handler runs over the state its lock
    protects, the MSI-X table and guest memory, which the guest may rewrite
    before every access; a panic is [None]. What the worker pool and the
    backing store answer (a fence, a flush) are arguments. *)

From S2P Require Import Prelude Mapping PhysMap GuestMem MigPages Bus PciBar PciDevice PciMsix NvmePrp.

Module nvme.
Import mapping guestmem pages prp common.

(** ** Constants *)

Definition REG_CAP : Z := 0x00.
Definition REG_VS : Z := 0x08.
Definition REG_INTMS : Z := 0x0C.
Definition REG_INTMC : Z := 0x10.
Definition REG_CC : Z := 0x14.
Definition REG_CSTS : Z := 0x1C.
Definition REG_AQA : Z := 0x24.
Definition REG_ASQ : Z := 0x28.
Definition REG_ACQ : Z := 0x30.
Definition REG_DOORBELL_BASE : Z := 0x1000.
Definition NVME_VS_1_0 : Z := 0x10000.

Definition CC_EN : Z := 1.
Definition CC_CSS_SHIFT : Z := 4.
Definition CC_CSS_MASK : Z := 0x7.
Definition CC_MPS_SHIFT : Z := 7.
Definition CC_MPS_MASK : Z := 0xF.
Definition CC_AMS_SHIFT : Z := 11.
Definition CC_AMS_MASK : Z := 0x7.
Definition CC_SHN_SHIFT : Z := 14.
Definition CC_SHN_MASK : Z := 0x3.
Definition CC_IOSQES_SHIFT : Z := 16.
Definition CC_IOSQES_MASK : Z := 0xF.
Definition CC_IOCQES_SHIFT : Z := 20.
Definition CC_IOCQES_MASK : Z := 0xF.
Definition SQE_SIZE_LOG2 : Z := 6.
Definition CQE_SIZE_LOG2 : Z := 4.

Definition CSTS_RDY : Z := 1.
Definition CSTS_CFS : Z := 2.
Definition CSTS_SHST_SHIFT : Z := 2.
Definition CSTS_SHST_MASK : Z := 0x3.
Definition SHST_NORMAL : Z := 0.
Definition SHST_OCCURRING : Z := 1.
Definition SHST_COMPLETE : Z := 2.

Definition AQA_ASQS_MASK : Z := 0xFFF.
Definition AQA_ACQS_SHIFT : Z := 16.
Definition AQA_ACQS_MASK : Z := 0xFFF.

Definition ADMIN_OPC_DELETE_IO_SQ : Z := 0x00.
Definition ADMIN_OPC_CREATE_IO_SQ : Z := 0x01.
Definition ADMIN_OPC_GET_LOG_PAGE : Z := 0x02.
Definition ADMIN_OPC_DELETE_IO_CQ : Z := 0x04.
Definition ADMIN_OPC_CREATE_IO_CQ : Z := 0x05.
Definition ADMIN_OPC_IDENTIFY : Z := 0x06.
Definition ADMIN_OPC_ABORT : Z := 0x08.
Definition ADMIN_OPC_SET_FEATURES : Z := 0x09.
Definition ADMIN_OPC_GET_FEATURES : Z := 0x0A.
Definition NVM_OPC_FLUSH : Z := 0x00.
Definition NVM_OPC_WRITE : Z := 0x01.
Definition NVM_OPC_READ : Z := 0x02.
Definition IDENTIFY_CNS_NAMESPACE : Z := 0x00.
Definition IDENTIFY_CNS_CONTROLLER : Z := 0x01.
Definition LID_ERROR_INFO : Z := 0x01.
Definition LID_SMART : Z := 0x02.
Definition LID_FIRMWARE_SLOT : Z := 0x03.

Definition FEAT_VOLATILE_WC : Z := 0x06.
Definition FEAT_NUM_QUEUES : Z := 0x07.
(** The features that are accepted and do nothing. *)
Definition inert_feature (fid : Z) : bool :=
  bool_decide (fid ∈ [0x04; 0x05; 0x02; 0x01; 0x08; 0x09; 0x0A; 0x0B]).

Definition SC_SUCCESS : Z := 0x0000.
Definition SC_INVALID_OPCODE : Z := 0x0001.
Definition SC_INVALID_FIELD : Z := 0x0002.
Definition SC_DATA_XFER_ERROR : Z := 0x0004.
Definition SC_INTERNAL_ERROR : Z := 0x0006.
Definition SC_INVALID_NS : Z := 0x000B.
Definition SC_WRITE_TO_RO_RANGE : Z := 0x0082.
Definition SC_CQ_INVALID : Z := 0x0100.
Definition SC_INVALID_QUEUE_ID : Z := 0x0101.
Definition SC_INVALID_QUEUE_SIZE : Z := 0x0102.
Definition SC_INVALID_INTR_VECTOR : Z := 0x0108.
Definition SC_INVALID_LOG_PAGE : Z := 0x0109.
Definition SC_DNR : Z := 2 ^ 14.

Definition SQE_SIZE : Z := 64.
Definition CQE_SIZE : Z := 16.
Definition CQ_IEN : Z := 2.
Definition MAX_IO_QUEUES : nat := 15.
Definition MAX_QUEUE_SIZE : Z := 4096.
Definition ADMIN_QUEUE_ID : Z := 0.
Definition MAX_XFER_BYTES : Z := 2 ^ 9 * 4096.
Definition NVME_MSIX_COUNT : Z := 17.
Definition MSIX_CAP_OFFSET : Z := 0x40.

(** [x & mask != 0]. *)
Definition has (x mask : Z) : bool := negb (Z.land x mask =? 0).
(** [(x >> shift) & mask]. *)
Definition bits (x shift mask : Z) : Z := Z.land (Z.shiftr x shift) mask.

(** ** Queues *)

Record SubQueue : Type := mkSQ {
  sq_base : Z; sq_size : Z; sq_head : Z; sq_tail : Z; sq_cq_id : Z; sq_instance : Z
}.

Record CompQueue : Type := mkCQ {
  cq_base : Z; cq_size : Z; cq_head : Z; cq_tail : Z; cq_phase : bool; cq_iv : Z; cq_ien : bool;
  cq_instance : Z
}.

Record NvmeState : Type := mkNvme {
  cap : Z; cc : Z; csts : Z; aqa : Z; asq_base : Z; acq_base : Z;
  admin_sq : option SubQueue;
  admin_cq : option CompQueue;
  io_sqs : list (option SubQueue);
  io_cqs : list (option CompQueue);
  ctrl_ident : list Z; ns_ident : list Z;
  num_io_queues : Z;
  instances : Z;
  fence_failed : bool
}.

Definition with_cc (v : Z) (s : NvmeState) : NvmeState :=
  mkNvme (cap s) v (csts s) (aqa s) (asq_base s) (acq_base s) (admin_sq s) (admin_cq s) (io_sqs s)
    (io_cqs s) (ctrl_ident s) (ns_ident s) (num_io_queues s) (instances s) (fence_failed s).
Definition with_csts (v : Z) (s : NvmeState) : NvmeState :=
  mkNvme (cap s) (cc s) v (aqa s) (asq_base s) (acq_base s) (admin_sq s) (admin_cq s) (io_sqs s)
    (io_cqs s) (ctrl_ident s) (ns_ident s) (num_io_queues s) (instances s) (fence_failed s).
Definition with_aqa (v : Z) (s : NvmeState) : NvmeState :=
  mkNvme (cap s) (cc s) (csts s) v (asq_base s) (acq_base s) (admin_sq s) (admin_cq s) (io_sqs s)
    (io_cqs s) (ctrl_ident s) (ns_ident s) (num_io_queues s) (instances s) (fence_failed s).
Definition with_asq (v : Z) (s : NvmeState) : NvmeState :=
  mkNvme (cap s) (cc s) (csts s) (aqa s) v (acq_base s) (admin_sq s) (admin_cq s) (io_sqs s)
    (io_cqs s) (ctrl_ident s) (ns_ident s) (num_io_queues s) (instances s) (fence_failed s).
Definition with_acq (v : Z) (s : NvmeState) : NvmeState :=
  mkNvme (cap s) (cc s) (csts s) (aqa s) (asq_base s) v (admin_sq s) (admin_cq s) (io_sqs s)
    (io_cqs s) (ctrl_ident s) (ns_ident s) (num_io_queues s) (instances s) (fence_failed s).
Definition with_queues (asq : option SubQueue) (acq : option CompQueue) (sqs : list (option SubQueue))
    (cqs : list (option CompQueue)) (s : NvmeState) : NvmeState :=
  mkNvme (cap s) (cc s) (csts s) (aqa s) (asq_base s) (acq_base s) asq acq sqs cqs
    (ctrl_ident s) (ns_ident s) (num_io_queues s) (instances s) (fence_failed s).
Definition with_num_io (v : Z) (s : NvmeState) : NvmeState :=
  mkNvme (cap s) (cc s) (csts s) (aqa s) (asq_base s) (acq_base s) (admin_sq s) (admin_cq s) (io_sqs s)
    (io_cqs s) (ctrl_ident s) (ns_ident s) v (instances s) (fence_failed s).
Definition with_instances (v : Z) (s : NvmeState) : NvmeState :=
  mkNvme (cap s) (cc s) (csts s) (aqa s) (asq_base s) (acq_base s) (admin_sq s) (admin_cq s) (io_sqs s)
    (io_cqs s) (ctrl_ident s) (ns_ident s) (num_io_queues s) v (fence_failed s).
Definition with_fence_failed (s : NvmeState) : NvmeState :=
  mkNvme (cap s) (cc s) (csts s) (aqa s) (asq_base s) (acq_base s) (admin_sq s) (admin_cq s) (io_sqs s)
    (io_cqs s) (ctrl_ident s) (ns_ident s) (num_io_queues s) (instances s) true.

Definition set_admin_sq (q : option SubQueue) (s : NvmeState) := with_queues q (admin_cq s) (io_sqs s) (io_cqs s) s.
Definition set_admin_cq (q : option CompQueue) (s : NvmeState) := with_queues (admin_sq s) q (io_sqs s) (io_cqs s) s.
Definition set_io_sq (i : nat) (q : option SubQueue) (s : NvmeState) :=
  with_queues (admin_sq s) (admin_cq s) (<[i := q]> (io_sqs s)) (io_cqs s) s.
Definition set_io_cq (i : nat) (q : option CompQueue) (s : NvmeState) :=
  with_queues (admin_sq s) (admin_cq s) (io_sqs s) (<[i := q]> (io_cqs s)) s.

Definition sq_at (s : NvmeState) (i : nat) : option SubQueue := default None (io_sqs s !! i).
Definition cq_at (s : NvmeState) (i : nat) : option CompQueue := default None (io_cqs s !! i).

Definition with_sq_tail (v : Z) (q : SubQueue) : SubQueue :=
  mkSQ (sq_base q) (sq_size q) (sq_head q) v (sq_cq_id q) (sq_instance q).
Definition with_sq_head (v : Z) (q : SubQueue) : SubQueue :=
  mkSQ (sq_base q) (sq_size q) v (sq_tail q) (sq_cq_id q) (sq_instance q).
Definition with_cq_head (v : Z) (q : CompQueue) : CompQueue :=
  mkCQ (cq_base q) (cq_size q) v (cq_tail q) (cq_phase q) (cq_iv q) (cq_ien q) (cq_instance q).

Definition io_queue_index (qid : Z) : option nat :=
  if qid <? 1 then None
  else if (Z.to_nat (qid - 1) <? MAX_IO_QUEUES)%nat then Some (Z.to_nat (qid - 1)) else None.

Definition retire_queues (s : NvmeState) : NvmeState :=
  with_queues None None (replicate (length (io_sqs s)) None) (replicate (length (io_cqs s)) None) s.

Definition next_instance (s : NvmeState) : NvmeState * Z :=
  let i := wadd 64 (instances s) 1 in (with_instances i s, i).

Definition fail_fence (s : NvmeState) : NvmeState :=
  with_csts (Z.lor (csts s) CSTS_CFS) (with_fence_failed s).

Definition set_shst (shst : Z) (s : NvmeState) : NvmeState :=
  with_csts (Z.lor (Z.ldiff (csts s) (Z.shiftl CSTS_SHST_MASK CSTS_SHST_SHIFT))
               (Z.shiftl shst CSTS_SHST_SHIFT)) s.

Definition valid_queue_base (prp1 : Z) : bool := negb (prp1 =? 0) && (Z.land prp1 0xFFF =? 0).

(** ** Handlers *)

(** What a handler can reach: the locked state, the MSI-X table and the
    messages sent so far. *)
Record dev : Type := mkDev { d_st : NvmeState; d_msix : msix.MsixInner; d_sent : list msix.message }.

Definition handler (A : Type) : Type := dev -> world -> option (A * dev * world).

Definition ret {A} (a : A) : handler A := fun d w => Some (a, d, w).
Definition bind {A B} (m : handler A) (k : A -> handler B) : handler B := fun d w =>
  match m d w with
  | Some (a, d, w) => k a d w
  | None => None
  end.

Notation "'let%' x := e 'in' k" := (bind e (fun x => k))
  (at level 10, x pattern, e at level 200, k at level 200).

Definition get : handler NvmeState := fun d w => Some (d_st d, d, w).
Definition modify (f : NvmeState -> NvmeState) : handler unit := fun d w =>
  Some (tt, mkDev (f (d_st d)) (d_msix d) (d_sent d), w).
Definition get_msix : handler msix.MsixInner := fun d w => Some (d_msix d, d, w).
Definition put_msix (t : msix.MsixInner) (sent : list msix.message) : handler unit := fun d w =>
  Some (tt, mkDev (d_st d) t (d_sent d ++ sent), w).

(** An access of guest memory; [None] is its error. *)
Definition lift {A} (p : io A) : handler (option A) := fun d w => let '(r, w) := p w in Some (r, d, w).

(** [MsixTable::fire]. *)
Definition fire (iv : Z) : handler unit := fun d w =>
  let* ' (t, m) := msix.fire (d_msix d) (Z.to_nat iv) in
  Some (tt, mkDev (d_st d) t (d_sent d ++ option_list m), w).

Section controller.
Context (pm : physmap.PhysMap) (g : guest).

(** Whether the fence or the flush asked for at a moment succeeds. *)
Context (fence_ok flush_ok : nat -> bool).

Definition ask (f : nat -> bool) : handler bool := fun d w => Some (f (w_time w), d, turn g w).

Definition fence_workers : handler bool := ask fence_ok.
Definition flush_backing : handler bool := ask flush_ok.

(** ** Completions *)

Definition cqe_of (cq : CompQueue) (cdw0 sqid head cid status : Z) : list Z :=
  le_bytes 4 cdw0 ++ replicate 4 0 ++ le_bytes 2 head ++ le_bytes 2 sqid ++ le_bytes 2 cid ++
  le_bytes 2 (Z.lor (as_u 16 (Z.shiftl status 1)) (if cq_phase cq then 1 else 0)).

(** The slot after the producer's, and whether it wraps. *)
Definition advance_cq (cq : CompQueue) : CompQueue :=
  let tail := wadd 16 (cq_tail cq) 1 in
  if cq_size cq <=? tail
  then mkCQ (cq_base cq) (cq_size cq) (cq_head cq) 0 (negb (cq_phase cq)) (cq_iv cq) (cq_ien cq) (cq_instance cq)
  else mkCQ (cq_base cq) (cq_size cq) (cq_head cq) tail (cq_phase cq) (cq_iv cq) (cq_ien cq) (cq_instance cq).

(** The queue it leaves and whether the entry was written or dropped
    ([false] is an error). *)
Definition post_completion (cq_opt : option CompQueue) (cdw0 sqid head cid status : Z) :
    handler (option CompQueue * bool) :=
  match cq_opt with
  | None => ret (None, true)
  | Some cq =>
      let next_tail := if cq_size cq <=? wadd 16 (cq_tail cq) 1 then 0 else wadd 16 (cq_tail cq) 1 in
      if next_tail =? cq_head cq then ret (Some cq, true)
      else
        match checked_add 64 (cq_base cq) (cq_tail cq * CQE_SIZE) with
        | None => ret (Some cq, false)
        | Some gpa =>
            let% ok := lift (mem_put pm g gpa (cqe_of cq cdw0 sqid head cid status)) in
            match ok with
            | None => ret (Some cq, false)
            | Some _ =>
                let% _u := (if cq_ien cq then fire (cq_iv cq) else ret tt) in
                ret (Some (advance_cq cq), true)
            end
        end
  end.

(** ** Registers *)

Definition queue_base_ok (base entries entry : Z) : bool :=
  valid_queue_base base &&
  bool_decide (is_Some (let* span := checked_mul 64 entries entry in checked_add 64 base span)) &&
  bool_decide (is_Some (mem_lookup pm base entry)).

Definition supported_cc (new_cc : Z) : bool :=
  let iosqes := bits new_cc CC_IOSQES_SHIFT CC_IOSQES_MASK in
  let iocqes := bits new_cc CC_IOCQES_SHIFT CC_IOCQES_MASK in
  ((iosqes =? 0) || (iosqes =? SQE_SIZE_LOG2)) && ((iocqes =? 0) || (iocqes =? CQE_SIZE_LOG2)) &&
  (bits new_cc CC_MPS_SHIFT CC_MPS_MASK =? 0) && (bits new_cc CC_CSS_SHIFT CC_CSS_MASK =? 0) &&
  (bits new_cc CC_AMS_SHIFT CC_AMS_MASK =? 0).

Definition enable_st (new_cc : Z) (st : NvmeState) : NvmeState :=
  let st := with_cc new_cc st in
  if fence_failed st then with_csts (Z.lor (csts st) CSTS_CFS) st
  else
    let asqs := Z.land (aqa st) AQA_ASQS_MASK + 1 in
    let acqs := bits (aqa st) AQA_ACQS_SHIFT AQA_ACQS_MASK + 1 in
    if negb (supported_cc new_cc) || (asqs <? 2) || (acqs <? 2) ||
       negb (queue_base_ok (asq_base st) asqs SQE_SIZE) || negb (queue_base_ok (acq_base st) acqs CQE_SIZE)
    then with_csts (Z.lor (csts st) CSTS_CFS) st
    else
      let '(st, instance) := next_instance st in
      let st := set_admin_sq (Some (mkSQ (asq_base st) asqs 0 0 ADMIN_QUEUE_ID instance)) st in
      let '(st, instance) := next_instance st in
      let st := set_admin_cq (Some (mkCQ (acq_base st) acqs 0 0 true 0 true instance)) st in
      with_csts (Z.lor (Z.ldiff (csts st) CSTS_CFS) CSTS_RDY) st.

Definition enable (new_cc : Z) : handler unit := modify (enable_st new_cc).

(** After the fence: what [disable] leaves. *)
Definition disabled_st (new_cc : Z) (fenced : bool) (st : NvmeState) : NvmeState :=
  let st := with_cc new_cc st in
  if negb fenced then fail_fence st
  else set_shst SHST_NORMAL (with_csts (Z.ldiff (csts st) CSTS_RDY) st).

Definition disable (new_cc : Z) : handler unit :=
  let% _r := modify retire_queues in
  let% fence := fence_workers in
  let% t := get_msix in
  let% _c := put_msix (msix.clear_pending t) [] in
  modify (disabled_st new_cc fence).

Definition shutdown_st (new_cc : Z) (st : NvmeState) : NvmeState :=
  retire_queues (set_shst SHST_OCCURRING (with_cc new_cc st)).

Definition shutdown (new_cc : Z) : handler unit :=
  let% _s := modify (shutdown_st new_cc) in
  let% fence := fence_workers in
  if negb fence then modify fail_fence
  else
    let% flushed := flush_backing in
    if negb flushed then modify (fun st => with_csts (Z.lor (csts st) CSTS_CFS) st)
    else modify (set_shst SHST_COMPLETE).

Definition write_cc (new_cc : Z) : handler unit :=
  let% st := get in
  let old_cc := cc st in
  let was_enabled := has old_cc CC_EN in
  let now_enabled := has new_cc CC_EN in
  let shn := bits new_cc CC_SHN_SHIFT CC_SHN_MASK in
  let old_shn := bits old_cc CC_SHN_SHIFT CC_SHN_MASK in
  let% _s := (if negb (shn =? SHST_NORMAL) && (old_shn =? SHST_NORMAL) then shutdown new_cc else ret tt) in
  if was_enabled && negb now_enabled then disable new_cc
  else if negb was_enabled && now_enabled then enable new_cc
  else modify (with_cc new_cc).

Definition reg_read (st : NvmeState) (offset : Z) (ro : ReadOp) : ReadOp :=
  let whole (v : Z) : option ReadOp := if ro_len ro =? 8 then Some (write_u64 ro v) else None in
  let dword (v : Z) : ReadOp :=
    if ro_len ro =? 8 then write_u64 ro v else write_dword_at ro v offset in
  if offset =? REG_CAP then default (dword (as_u 32 (cap st))) (whole (cap st))
  else if offset =? 0x04 then dword (as_u 32 (Z.shiftr (cap st) 32))
  else if offset =? REG_VS then dword NVME_VS_1_0
  else if offset =? REG_INTMS then dword 0
  else if offset =? REG_INTMC then dword 0
  else if offset =? REG_CC then dword (cc st)
  else if offset =? REG_CSTS then dword (csts st)
  else if offset =? REG_AQA then dword (aqa st)
  else if offset =? REG_ASQ then default (dword (as_u 32 (asq_base st))) (whole (asq_base st))
  else if offset =? 0x2C then dword (as_u 32 (Z.shiftr (asq_base st) 32))
  else if offset =? REG_ACQ then default (dword (as_u 32 (acq_base st))) (whole (acq_base st))
  else if offset =? 0x34 then dword (as_u 32 (Z.shiftr (acq_base st) 32))
  else dword 0.

Definition low_dword (old v : Z) : Z := Z.lor (Z.land old 0xFFFFFFFF00000000) v.
Definition high_dword (old v : Z) : Z := Z.lor (Z.land old 0xFFFFFFFF) (as_u 64 (Z.shiftl v 32)).

Definition reg_write (offset : Z) (wo : WriteOp) (st : NvmeState) : NvmeState :=
  let val32 := read_u32 wo in
  if has (cc st) CC_EN then st
  else if offset =? REG_AQA then with_aqa val32 st
  else if offset =? REG_ASQ then
    with_asq (if wo_len wo =? 8 then read_u64 wo else low_dword (asq_base st) val32) st
  else if offset =? 0x2C then with_asq (high_dword (asq_base st) val32) st
  else if offset =? REG_ACQ then
    with_acq (if wo_len wo =? 8 then read_u64 wo else low_dword (acq_base st) val32) st
  else if offset =? 0x34 then with_acq (high_dword (acq_base st) val32) st
  else st.

Definition cq_doorbell (qid new_head : Z) : handler unit :=
  let% st := get in
  if qid =? ADMIN_QUEUE_ID then
    match admin_cq st with
    | Some cq =>
        if new_head <? cq_size cq then modify (set_admin_cq (Some (with_cq_head new_head cq))) else ret tt
    | None => ret tt
    end
  else
    match io_queue_index qid with
    | None => ret tt
    | Some idx =>
        match cq_at st idx with
        | Some cq =>
            if new_head <? cq_size cq then modify (set_io_cq idx (Some (with_cq_head new_head cq))) else ret tt
        | None => ret tt
        end
    end.

(** ** The admin command set *)

(** [sqe_buf[at..at + n]] as a number. *)
Definition field (sqe : list Z) (at_ n : nat) : Z := le_val (take n (drop at_ sqe)).

(** [(head + 1) % size]; a size of zero panics. *)
Definition bump (head size : Z) : handler Z :=
  if size =? 0 then fun _ _ => None else ret (wadd 16 head 1 mod size).

Definition zeros (n : nat) : list Z := replicate n 0.

Definition build_log_page (lid : Z) : option (list Z) :=
  if lid =? LID_ERROR_INFO then Some (zeros 64)
  else if lid =? LID_SMART then Some ([0] ++ le_bytes 2 300 ++ [100; 10] ++ zeros 507)
  else if lid =? LID_FIRMWARE_SLOT then Some ([1] ++ zeros 511)
  else None.

Definition answer (status : Z) : handler (Z * Z) := ret (status, 0).

(** Bytes to the pages of the command, and its status. *)
Definition send_data (prp1 prp2 : Z) (data : list Z) : handler (Z * Z) :=
  let% r := lift (write_to_prp pm g prp1 prp2 data) in
  match r with None => answer SC_DATA_XFER_ERROR | Some _ => answer SC_SUCCESS end.

Definition admin_get_log_page (prp1 prp2 cdw10 : Z) : handler (Z * Z) :=
  let lid := Z.land cdw10 0xFF in
  let dwords := Z.to_nat (bits cdw10 16 0xFFF + 1) in
  match build_log_page lid with
  | None => answer (Z.lor SC_INVALID_LOG_PAGE SC_DNR)
  | Some log => send_data prp1 prp2 (take (dwords * 4) (log ++ zeros (dwords * 4)))
  end.

Definition admin_identify (nsid prp1 prp2 cdw10 : Z) : handler (Z * Z) :=
  let% st := get in
  let cns := Z.land cdw10 0xFF in
  if cns =? IDENTIFY_CNS_NAMESPACE then
    if negb (nsid =? 1) then answer (Z.lor SC_INVALID_NS SC_DNR) else send_data prp1 prp2 (ns_ident st)
  else if cns =? IDENTIFY_CNS_CONTROLLER then send_data prp1 prp2 (ctrl_ident st)
  else answer (Z.lor SC_INVALID_FIELD SC_DNR).

Definition admin_create_io_cq (prp1 cdw10 cdw11 : Z) : handler (Z * Z) :=
  let% st := get in
  let qid := Z.land cdw10 0xFFFF in
  let qsize := bits cdw10 16 0xFFFF + 1 in
  let iv := bits cdw11 16 0xFFFF in
  let ien := has cdw11 CQ_IEN in
  match io_queue_index qid with
  | None => answer (Z.lor SC_INVALID_QUEUE_ID SC_DNR)
  | Some idx =>
      if num_io_queues st <? qid then answer (Z.lor SC_INVALID_QUEUE_ID SC_DNR)
      else if (qsize <? 2) || (MAX_QUEUE_SIZE <? qsize) then answer (Z.lor SC_INVALID_QUEUE_SIZE SC_DNR)
      else if bool_decide (is_Some (cq_at st idx)) then answer (Z.lor SC_INVALID_QUEUE_ID SC_DNR)
      else if NVME_MSIX_COUNT <=? iv then answer (Z.lor SC_INVALID_INTR_VECTOR SC_DNR)
      else if negb (queue_base_ok prp1 qsize CQE_SIZE) then answer (Z.lor SC_INVALID_FIELD SC_DNR)
      else
        let '(st', instance) := next_instance st in
        let% _u := modify (fun _ => set_io_cq idx (Some (mkCQ prp1 qsize 0 0 true iv ien instance)) st') in
        answer SC_SUCCESS
  end.

Definition admin_create_io_sq (prp1 cdw10 cdw11 : Z) : handler (Z * Z) :=
  let% st := get in
  let qid := Z.land cdw10 0xFFFF in
  let qsize := bits cdw10 16 0xFFFF + 1 in
  let cq_id := bits cdw11 16 0xFFFF in
  match io_queue_index qid with
  | None => answer (Z.lor SC_INVALID_QUEUE_ID SC_DNR)
  | Some idx =>
      if num_io_queues st <? qid then answer (Z.lor SC_INVALID_QUEUE_ID SC_DNR)
      else if (qsize <? 2) || (MAX_QUEUE_SIZE <? qsize) then answer (Z.lor SC_INVALID_QUEUE_SIZE SC_DNR)
      else if bool_decide (is_Some (sq_at st idx)) then answer (Z.lor SC_INVALID_QUEUE_ID SC_DNR)
      else
        match io_queue_index cq_id with
        | None => answer (Z.lor SC_CQ_INVALID SC_DNR)
        | Some cq_idx =>
            if negb (bool_decide (is_Some (cq_at st cq_idx))) then answer (Z.lor SC_CQ_INVALID SC_DNR)
            else if negb (queue_base_ok prp1 qsize SQE_SIZE) then answer (Z.lor SC_INVALID_FIELD SC_DNR)
            else
              let '(st', instance) := next_instance st in
              let% _u := modify (fun _ => set_io_sq idx (Some (mkSQ prp1 qsize 0 0 cq_id instance)) st') in
              answer SC_SUCCESS
        end
  end.

Definition admin_delete_io_sq (cdw10 : Z) : handler (Z * Z) :=
  let% st := get in
  match io_queue_index (Z.land cdw10 0xFFFF) with
  | None => answer (Z.lor SC_INVALID_QUEUE_ID SC_DNR)
  | Some idx =>
      if negb (bool_decide (is_Some (sq_at st idx))) then answer (Z.lor SC_INVALID_QUEUE_ID SC_DNR)
      else let% _u := modify (set_io_sq idx None) in answer SC_SUCCESS
  end.

(** Whether a submission queue still posts to completion queue [qid]. *)
Definition cq_in_use (st : NvmeState) (qid : Z) : bool :=
  existsb (fun q => match q with Some sq => sq_cq_id sq =? qid | None => false end) (io_sqs st).

Definition admin_delete_io_cq (cdw10 : Z) : handler (Z * Z) :=
  let% st := get in
  let qid := Z.land cdw10 0xFFFF in
  match io_queue_index qid with
  | None => answer (Z.lor SC_INVALID_QUEUE_ID SC_DNR)
  | Some idx =>
      if negb (bool_decide (is_Some (cq_at st idx))) then answer (Z.lor SC_INVALID_QUEUE_ID SC_DNR)
      else if cq_in_use st qid then answer (Z.lor SC_INVALID_QUEUE_ID SC_DNR)
      else let% _u := modify (set_io_cq idx None) in answer SC_SUCCESS
  end.

Definition admin_get_features (cdw10 : Z) : handler (Z * Z) :=
  let% st := get in
  let fid := Z.land cdw10 0xFF in
  if fid =? FEAT_NUM_QUEUES then
    let nq := Z.max 0 (num_io_queues st - 1) in
    ret (SC_SUCCESS, Z.lor nq (as_u 32 (Z.shiftl nq 16)))
  else if fid =? FEAT_VOLATILE_WC then ret (SC_SUCCESS, 1)
  else if inert_feature fid then answer SC_SUCCESS
  else answer (Z.lor SC_INVALID_FIELD SC_DNR).

Definition admin_set_features (cdw10 cdw11 : Z) : handler (Z * Z) :=
  let fid := Z.land cdw10 0xFF in
  if fid =? FEAT_NUM_QUEUES then
    let alloc_sq := Z.min (Z.land cdw11 0xFFFF + 1) (Z.of_nat MAX_IO_QUEUES) in
    let alloc_cq := Z.min (bits cdw11 16 0xFFFF + 1) (Z.of_nat MAX_IO_QUEUES) in
    let% _u := modify (with_num_io (Z.min alloc_sq alloc_cq)) in
    ret (SC_SUCCESS, Z.lor (Z.max 0 (alloc_sq - 1)) (as_u 32 (Z.shiftl (Z.max 0 (alloc_cq - 1)) 16)))
  else if fid =? FEAT_VOLATILE_WC then answer SC_SUCCESS
  else if inert_feature fid then answer SC_SUCCESS
  else answer (Z.lor SC_INVALID_FIELD SC_DNR).

(** Status, result, and whether the completion waits for the workers. *)
Definition process_admin_cmd (opcode nsid prp1 prp2 cdw10 cdw11 : Z) : handler (Z * Z * bool) :=
  let deletes := (opcode =? ADMIN_OPC_DELETE_IO_SQ) || (opcode =? ADMIN_OPC_DELETE_IO_CQ) in
  let% (status, cdw0) :=
    (if opcode =? ADMIN_OPC_IDENTIFY then admin_identify nsid prp1 prp2 cdw10
     else if opcode =? ADMIN_OPC_CREATE_IO_CQ then admin_create_io_cq prp1 cdw10 cdw11
     else if opcode =? ADMIN_OPC_CREATE_IO_SQ then admin_create_io_sq prp1 cdw10 cdw11
     else if opcode =? ADMIN_OPC_DELETE_IO_SQ then admin_delete_io_sq cdw10
     else if opcode =? ADMIN_OPC_DELETE_IO_CQ then admin_delete_io_cq cdw10
     else if opcode =? ADMIN_OPC_GET_FEATURES then admin_get_features cdw10
     else if opcode =? ADMIN_OPC_SET_FEATURES then admin_set_features cdw10 cdw11
     else if opcode =? ADMIN_OPC_ABORT then answer SC_SUCCESS
     else if opcode =? ADMIN_OPC_GET_LOG_PAGE then admin_get_log_page prp1 prp2 cdw10
     else answer (Z.lor SC_INVALID_OPCODE SC_DNR)) in
  ret (status, cdw0, deletes && (status =? SC_SUCCESS)).

(** One turn of the loop up to the completion: [None] ends the loop,
    [Some None] is an entry that could not be read, and otherwise what the
    completion will carry: head, cid, status, result and the fence. *)
Definition admin_fetch : handler (option (option (Z * Z * Z * Z * bool))) :=
  let% st := get in
  match admin_sq st with
  | None => ret None
  | Some sq =>
      if sq_head sq =? sq_tail sq then ret None
      else
        let% fetched :=
          (match checked_add 64 (sq_base sq) (sq_head sq * SQE_SIZE) with
           | Some gpa => lift (mem_read pm g gpa 64)
           | None => ret None
           end) in
        let% head := bump (sq_head sq) (sq_size sq) in
        let% _u := modify (set_admin_sq (Some (with_sq_head head sq))) in
        match fetched with
        | None => ret (Some None)
        | Some sqe =>
            let% (status, cdw0, fence) :=
              process_admin_cmd (field sqe 0 1) (field sqe 4 4) (field sqe 24 8) (field sqe 32 8)
                (field sqe 40 4) (field sqe 44 4) in
            ret (Some (Some (head, field sqe 2 2, status, cdw0, fence)))
        end
  end.

(** The rest of the turn, once the fence, if any, has answered. *)
Definition admin_complete (head cid status cdw0 : Z) (fenced : bool) : handler unit :=
  let% _f := modify (if fenced then fun st => st else fail_fence) in
  let% st := get in
  let% (cq, ok) := post_completion (admin_cq st) cdw0 ADMIN_QUEUE_ID head cid status in
  let% _u := modify (set_admin_cq cq) in
  if ok then ret tt else modify (fun st => with_csts (Z.lor (csts st) CSTS_CFS) st).

(** Every turn takes an entry; the queue holds fewer than [fuel]. *)
Fixpoint admin_loop (fuel : nat) : handler unit :=
  match fuel with
  | O => fun _ _ => None
  | S fuel =>
      let% turn := admin_fetch in
      match turn with
      | None => ret tt
      | Some None => admin_loop fuel
      | Some (Some (head, cid, status, cdw0, fence)) =>
          let% fenced := (if fence : bool then fence_workers else ret true) in
          let% _c := admin_complete head cid status cdw0 fenced in
          admin_loop fuel
      end
  end.

Definition ADMIN_TURNS : nat := 4097.

Definition admin_sq_doorbell (new_tail : Z) : handler unit :=
  let% st := get in
  match admin_sq st with
  | None => ret tt
  | Some sq =>
      if sq_size sq <=? new_tail then ret tt
      else
        let% _u := modify (set_admin_sq (Some (with_sq_tail new_tail sq))) in
        admin_loop ADMIN_TURNS
  end.

(** ** I/O commands *)

Record IoRequest : Type := mkReq {
  r_opcode : Z; r_nsid : Z; r_slba : Z; r_nlb : Z; r_prp1 : Z; r_prp2 : Z; r_sqid : Z; r_cid : Z;
  r_cq_id : Z; r_sq_instance : Z; r_cq_instance : Z; r_fua : bool
}.

Definition request_of (sqe : list Z) (qid cq_id sq_instance cq_instance : Z) : IoRequest :=
  let cdw12 := field sqe 48 4 in
  mkReq (field sqe 0 1) (field sqe 4 4) (Z.lor (field sqe 40 4) (as_u 64 (Z.shiftl (field sqe 44 4) 32)))
    (Z.land cdw12 0xFFFF + 1) (field sqe 24 8) (field sqe 32 8) qid (field sqe 2 2) cq_id
    sq_instance cq_instance (has cdw12 (2 ^ 30)).

(** The [while sq.head != sq.tail] loop over the queue it borrowed. *)
Fixpoint io_fetch_loop (fuel : nat) (qid cq_instance : Z) (sq : SubQueue) (reqs : list IoRequest) :
    handler (SubQueue * list IoRequest) :=
  match fuel with
  | O => fun _ _ => None
  | S fuel =>
      if sq_head sq =? sq_tail sq then ret (sq, reqs)
      else
        let% fetched :=
          (match checked_add 64 (sq_base sq) (sq_head sq * SQE_SIZE) with
           | Some gpa => lift (mem_read pm g gpa 64)
           | None => ret None
           end) in
        let% head := bump (sq_head sq) (sq_size sq) in
        let reqs' :=
          match fetched with
          | None => reqs
          | Some sqe => reqs ++ [request_of sqe qid (sq_cq_id sq) (sq_instance sq) cq_instance]
          end in
        io_fetch_loop fuel qid cq_instance (with_sq_head head sq) reqs'
  end.

(** The requests handed to the workers, in order. *)
Definition io_sq_doorbell (qid new_tail : Z) : handler (list IoRequest) :=
  let% st := get in
  match io_queue_index qid with
  | None => ret []
  | Some idx =>
      match sq_at st idx with
      | None => ret []
      | Some sq =>
          match (let* i := io_queue_index (sq_cq_id sq) in cq_at st i) with
          | None => ret []
          | Some cq =>
              if sq_size sq <=? new_tail then ret []
              else
                let% (sq, reqs) :=
                  io_fetch_loop ADMIN_TURNS qid (cq_instance cq) (with_sq_tail new_tail sq) [] in
                let% _u := modify (set_io_sq idx (Some sq)) in
                ret reqs
          end
      end
  end.

(** [doorbell_rw] for a write. *)
Definition doorbell_write (offset : Z) (wo : WriteOp) : handler (list IoRequest) :=
  let db_index := (offset - REG_DOORBELL_BASE) / 4 in
  let qid := as_u 16 (db_index / 2) in
  let new_val := as_u 16 (read_u32 wo) in
  if db_index mod 2 =? 0 then
    if qid =? ADMIN_QUEUE_ID then let% _u := admin_sq_doorbell new_val in ret []
    else io_sq_doorbell qid new_val
  else let% _u := cq_doorbell qid new_val in ret [].

(** [bar0_rw] and [bar4_rw]. *)
Definition bar0_write (offset : Z) (wo : WriteOp) : handler (list IoRequest) :=
  if REG_DOORBELL_BASE <=? offset then doorbell_write offset wo
  else if offset =? REG_CC then let% _u := write_cc (read_u32 wo) in ret []
  else let% _u := modify (reg_write offset wo) in ret [].

Definition bar0_read (offset : Z) (ro : ReadOp) : handler ReadOp :=
  let% st := get in
  ret (if REG_DOORBELL_BASE <=? offset then write_u32 ro 0 else reg_read st offset ro).

Definition bar4_write (offset : Z) (wo : WriteOp) : handler unit :=
  let% t := get_msix in
  if offset <? msix.pba_offset_for NVME_MSIX_COUNT then
    let '(t', m) := msix.table_write t offset (read_dword wo) in put_msix t' (option_list m)
  else ret tt.

Definition bar4_read (offset : Z) (ro : ReadOp) : handler ReadOp :=
  let% t := get_msix in
  let pba := msix.pba_offset_for NVME_MSIX_COUNT in
  ret (write_dword ro (if pba <=? offset then msix.pba_read t (offset - pba) else msix.table_read t offset)).

(** The MSI-X capability in configuration space. *)
Definition cfg_mask (len : Z) : Z := if len =? 1 then 0xFF else if len =? 2 then 0xFFFF else 0xFFFFFFFF.

Definition cfg_read (t : msix.MsixInner) (offset len : Z) : Z :=
  match msix.cap_read t NVME_MSIX_COUNT (Z.land offset 0xFC) MSIX_CAP_OFFSET with
  | Some dword => Z.land (Z.shiftr dword (Z.land offset 0x03 * 8)) (cfg_mask len)
  | None => 0
  end.

Definition cfg_write (offset len val : Z) : handler unit :=
  let% t := get_msix in
  let dword_offset := Z.land offset 0xFC in
  let byte_off := Z.land offset 0x03 in
  match msix.cap_read t NVME_MSIX_COUNT dword_offset MSIX_CAP_OFFSET with
  | Some cur_dword =>
      let mask := cfg_mask len in
      let shifted_mask := as_u 32 (Z.shiftl mask (byte_off * 8)) in
      let shifted_val := as_u 32 (Z.shiftl (Z.land val mask) (byte_off * 8)) in
      let merged := Z.lor (Z.ldiff cur_dword shifted_mask) shifted_val in
      let '(t, ms) := msix.cap_write t dword_offset MSIX_CAP_OFFSET merged in
      put_msix t ms
  | None => ret tt
  end.

(** ** What a worker does with a request *)

(** The store behind the namespace. *)
Class IoBackend : Type := {
  read_at : list SubMapping -> Z -> io Z;
  write_at : list SubMapping -> Z -> io Z;
  sync : io unit
}.

Record Geometry : Type := mkGeometry { block_size : Z; total_blocks : Z }.

Definition queues_current (st : NvmeState) (req : IoRequest) : bool :=
  match (let* i := io_queue_index (r_sqid req) in sq_at st i) with
  | Some sq => sq_instance sq =? r_sq_instance req
  | None => false
  end &&
  match (let* i := io_queue_index (r_cq_id req) in cq_at st i) with
  | Some cq => cq_instance cq =? r_cq_instance req
  | None => false
  end.

Definition transfer (move : list SubMapping -> Z -> io Z) (req : IoRequest) (byte_count byte_offset : Z)
    (k : world -> Z * world) (w : world) : Z * world :=
  match prp_to_iovec pm g (r_prp1 req) (r_prp2 req) byte_count w with
  | (None, w) => (SC_DATA_XFER_ERROR, w)
  | (Some iov, w) =>
      match move iov byte_offset w with
      | (Some n, w) => if n =? byte_count then k w else (SC_DATA_XFER_ERROR, w)
      | (None, w) => (SC_DATA_XFER_ERROR, w)
      end
  end.

Definition synced `{IoBackend} (w : world) : Z * world :=
  match sync w with
  | (None, w) => (SC_INTERNAL_ERROR, w)
  | (Some _, w) => (SC_SUCCESS, w)
  end.

Definition process_io_request `{IoBackend} (req : IoRequest) (read_only : bool) (geo : Geometry)
    (w : world) : Z * world :=
  let invalid := Z.lor SC_INVALID_FIELD SC_DNR in
  if negb (r_nsid req =? 1) then (Z.lor SC_INVALID_NS SC_DNR, w)
  else
    match checked_mul 64 (r_nlb req) (block_size geo) with
    | None => (invalid, w)
    | Some byte_count =>
        if MAX_XFER_BYTES <? byte_count then (invalid, w)
        else
          match checked_mul 64 (r_slba req) (block_size geo) with
          | None => (invalid, w)
          | Some byte_offset =>
              match checked_add 64 (r_slba req) (r_nlb req) with
              | None => (invalid, w)
              | Some e =>
                  if total_blocks geo <? e then (invalid, w)
                  else if r_opcode req =? NVM_OPC_READ then
                    transfer read_at req byte_count byte_offset (fun w => (SC_SUCCESS, w)) w
                  else if r_opcode req =? NVM_OPC_WRITE then
                    if read_only then (Z.lor SC_WRITE_TO_RO_RANGE SC_DNR, w)
                    else transfer write_at req byte_count byte_offset
                           (fun w => if r_fua req then synced w else (SC_SUCCESS, w)) w
                  else if r_opcode req =? NVM_OPC_FLUSH then synced w
                  else (Z.lor SC_INVALID_OPCODE SC_DNR, w)
              end
          end
    end.

(** The end of the worker's loop: the completion of a request whose queues
    the driver still has. *)
Definition worker_post (req : IoRequest) (status : Z) : handler unit :=
  let% st := get in
  if negb (queues_current st req) then ret tt
  else
    let head := match (let* i := io_queue_index (r_sqid req) in sq_at st i) with
                | Some sq => sq_head sq
                | None => 0
                end in
    match io_queue_index (r_cq_id req) with
    | None => ret tt
    | Some i =>
        let% (cq, ok) := post_completion (cq_at st i) 0 (r_sqid req) head (r_cid req) status in
        let% _u := modify (set_io_cq i cq) in
        if ok then ret tt else modify (fun st => with_csts (Z.lor (csts st) CSTS_CFS) st)
    end.

End controller.

(** ** The PCI function *)

Definition BAR0_SIZE : Z := 0x4000.
Definition PCI_VENDOR_ID : Z := 0xFB5D.
Definition PCI_DEVICE_ID : Z := 0x0A0A.
Definition PCI_CLASS_STORAGE : Z := 0x01.
Definition PCI_SUBCLASS_NVM : Z := 0x08.
Definition PCI_PROGIF_NVME : Z := 0x02.

Definition nvme_header : option pcidev.DeviceState :=
  let ident := pcidev.mkIdent PCI_VENDOR_ID PCI_DEVICE_ID PCI_CLASS_STORAGE PCI_SUBCLASS_NVM PCI_PROGIF_NVME 1
    PCI_VENDOR_ID PCI_DEVICE_ID in
  let* h := pcidev.define_bar 0 (bar.DefMmio (as_u 32 BAR0_SIZE)) (pcidev.device_new ident) in
  let msix_bar_size := as_u 32 (msix.bar_size_for NVME_MSIX_COUNT) in
  let* h := pcidev.define_bar 4 (bar.DefMmio (Z.max (msix.next_power_of_two msix_bar_size) 4096)) h in
  Some (pcidev.set_cap_ptr MSIX_CAP_OFFSET h).

(** ** Migration *)

Record NvmeMigrateSq : Type := mkWSQ { wsq_base : Z; wsq_size : Z; wsq_head : Z; wsq_tail : Z; wsq_cq_id : Z }.

Record NvmeMigrateCq : Type := mkWCQ {
  wcq_base : Z; wcq_size : Z; wcq_head : Z; wcq_tail : Z; wcq_phase : bool; wcq_iv : Z; wcq_ien : bool
}.

Record NvmeMigrateState : Type := mkMig {
  mg_cc : Z; mg_csts : Z; mg_aqa : Z; mg_asq_base : Z; mg_acq_base : Z;
  mg_admin_sq : option NvmeMigrateSq;
  mg_admin_cq : option NvmeMigrateCq;
  mg_io_sqs : list (option NvmeMigrateSq);
  mg_io_cqs : list (option NvmeMigrateCq);
  mg_num_io_queues : Z;
  mg_pci : pcidev.MigratePciState;
  mg_msix : msix.MsixMigrateState
}.

Definition wire_sq (q : SubQueue) : NvmeMigrateSq :=
  mkWSQ (sq_base q) (sq_size q) (sq_head q) (sq_tail q) (sq_cq_id q).
Definition wire_cq (q : CompQueue) : NvmeMigrateCq :=
  mkWCQ (cq_base q) (cq_size q) (cq_head q) (cq_tail q) (cq_phase q) (cq_iv q) (cq_ien q).
Definition live_sq (instance : Z) (q : NvmeMigrateSq) : SubQueue :=
  mkSQ (wsq_base q) (wsq_size q) (wsq_head q) (wsq_tail q) (wsq_cq_id q) instance.
Definition live_cq (instance : Z) (q : NvmeMigrateCq) : CompQueue :=
  mkCQ (wcq_base q) (wcq_size q) (wcq_head q) (wcq_tail q) (wcq_phase q) (wcq_iv q) (wcq_ien q) instance.

Definition export_migrate_state (h : pcidev.DeviceState) (d : dev) : option NvmeMigrateState :=
  let st := d_st d in
  if negb (has (cc st) CC_EN) then None
  else Some (mkMig (cc st) (csts st) (aqa st) (asq_base st) (acq_base st)
    (wire_sq <$> admin_sq st) (wire_cq <$> admin_cq st)
    ((fun q : option SubQueue => wire_sq <$> q) <$> io_sqs st)
    ((fun q : option CompQueue => wire_cq <$> q) <$> io_cqs st) (num_io_queues st)
    (pcidev.migrate_state h) (msix.export_state (d_msix d))).

Definition check_size (size : Z) : bool := (2 <=? size) && (size <=? MAX_QUEUE_SIZE).
Definition check_cursors (size head tail : Z) : bool := negb ((size <=? head) || (size <=? tail)).
Definition check_vector (iv : Z) : bool := negb (NVME_MSIX_COUNT <=? iv).

Definition check_cq (q : NvmeMigrateCq) : bool :=
  check_size (wcq_size q) && check_cursors (wcq_size q) (wcq_head q) (wcq_tail q) &&
  check_vector (wcq_iv q) && valid_queue_base (wcq_base q).

Definition cq_exists (mig : NvmeMigrateState) (cq_id : Z) : bool :=
  if cq_id =? 0 then bool_decide (is_Some (mg_admin_cq mig))
  else match (let* i := io_queue_index cq_id in mg_io_cqs mig !! i) with
       | Some (Some _) => true
       | _ => false
       end.

Definition check_sq (mig : NvmeMigrateState) (q : NvmeMigrateSq) : bool :=
  check_size (wsq_size q) && check_cursors (wsq_size q) (wsq_head q) (wsq_tail q) &&
  valid_queue_base (wsq_base q) && cq_exists mig (wsq_cq_id q).

Definition opt_all {A} (f : A -> bool) (o : option A) : bool :=
  match o with Some a => f a | None => true end.

Definition check_nvme_state (mig : NvmeMigrateState) : bool :=
  (1 <=? mg_num_io_queues mig) && (mg_num_io_queues mig <=? Z.of_nat MAX_IO_QUEUES) &&
  negb ((MAX_IO_QUEUES <? length (mg_io_sqs mig))%nat || (MAX_IO_QUEUES <? length (mg_io_cqs mig))%nat) &&
  opt_all check_cq (mg_admin_cq mig) && forallb (opt_all check_cq) (mg_io_cqs mig) &&
  opt_all (check_sq mig) (mg_admin_sq mig) && forallb (opt_all (check_sq mig)) (mg_io_sqs mig).

(** [for (slot, wire) in slots.iter_mut().zip(wires)]. *)
Fixpoint fill {A B} (f : A -> B) (slots : list (option B)) (wires : list (option A)) : list (option B) :=
  match slots, wires with
  | _ :: slots, w :: wires => (f <$> w) :: fill f slots wires
  | slots, _ => slots
  end.

Definition restore_queues (mig : NvmeMigrateState) (st : NvmeState) : NvmeState :=
  let st := with_num_io (mg_num_io_queues mig) (with_acq (mg_acq_base mig) (with_asq (mg_asq_base mig)
              (with_aqa (mg_aqa mig) (with_csts (mg_csts mig) (with_cc (mg_cc mig) st))))) in
  let '(st, instance) := next_instance st in
  with_queues (live_sq instance <$> mg_admin_sq mig) (live_cq instance <$> mg_admin_cq mig)
    (fill (live_sq instance) (io_sqs st) (mg_io_sqs mig))
    (fill (live_cq instance) (io_cqs st) (mg_io_cqs mig)) st.

(** [h] is the header of the PCI function, behind a lock of its own. The
    writes [replay_migrate_pci_state] makes lie below the MSI-X capability,
    so [cfg_write] hands them to the header. [None] is a panic and [false] an
    error. *)
Definition restore_migrate_state (mig : NvmeMigrateState) (h : pcidev.DeviceState) (d : dev) :
    option (pcidev.DeviceState * dev * bool) :=
  if negb (check_nvme_state mig) then Some (h, d, false)
  else
    let bar_writes := pcidev.bar_replay_writes h (pcidev.mp_bar_addrs (mg_pci mig)) in
    let* h := pcidev.replay_migrate_pci_state bar_writes (pcidev.mp_command (mg_pci mig)) h in
    let '(t, r) := msix.import_state (d_msix d) (mg_msix mig) in
    Some (h, mkDev (restore_queues mig (d_st d)) t (d_sent d), is_ok r).

(** ** Identify data *)

(** [data[i..i + l.len()].copy_from_slice(l)], inside the array. *)
Definition put_at (i : nat) (l data : list Z) : list Z := take i data ++ l ++ drop (i + length l) data.

(** The first [n] bytes of [format!("{:<n}", s)]. *)
Definition padded (n : nat) (s : list Z) : list Z := take n (s ++ replicate n 32).

Definition MDTS_LOG2_PAGES : Z := 9.
Definition IDENT_CTRL_SIZE : nat := 4096.
Definition IDENT_NS_SIZE : nat := 4096.

Definition build_identify_controller (serial model firmware : list Z) (max_namespaces mdts cntlid : Z) : list Z :=
  let data := zeros IDENT_CTRL_SIZE in
  let data := put_at 0 (le_bytes 2 PCI_VENDOR_ID) data in
  let data := put_at 2 (le_bytes 2 PCI_VENDOR_ID) data in
  let data := put_at 4 (padded 20 serial) data in
  let data := put_at 24 (padded 40 model) data in
  let data := put_at 64 (padded 8 firmware) data in
  let data := put_at 78 (le_bytes 2 cntlid) data in
  let data := put_at 77 [mdts] data in
  let data := put_at 256 (le_bytes 2 0) data in
  let data := put_at 512 [Z.lor SQE_SIZE_LOG2 (as_u 8 (Z.shiftl SQE_SIZE_LOG2 4))] data in
  let data := put_at 513 [Z.lor CQE_SIZE_LOG2 (as_u 8 (Z.shiftl CQE_SIZE_LOG2 4))] data in
  let data := put_at 516 (le_bytes 4 max_namespaces) data in
  put_at 525 [1] data.

Definition build_identify_namespace (total_blocks block_size : Z) (read_only : bool) : list Z :=
  let data := zeros IDENT_NS_SIZE in
  let data := put_at 0 (le_bytes 8 total_blocks) data in
  let data := put_at 8 (le_bytes 8 total_blocks) data in
  let data := put_at 16 (le_bytes 8 total_blocks) data in
  let data := if read_only then put_at 99 [1] data else data in
  let data := put_at 25 [0] data in
  let data := put_at 26 [0] data in
  let lbads := Z.of_nat (msix.lowest_bit 32 0 block_size) in
  put_at 128 (le_bytes 4 (as_u 32 (Z.shiftl lbads 16))) data.

(** ** Construction *)

Definition BLOCK_SIZE : Z := 512.

Definition geometry_of (file_len : Z) : Geometry := mkGeometry BLOCK_SIZE (file_len / BLOCK_SIZE).

Definition nvme_new (ctrl ns : list Z) : NvmeState :=
  mkNvme (Z.lor (Z.lor (Z.lor (MAX_QUEUE_SIZE - 1) (2 ^ 16)) (2 ^ 24)) (2 ^ 37)) 0 0 0 0 0 None None
    (replicate MAX_IO_QUEUES None) (replicate MAX_IO_QUEUES None) ctrl ns (Z.of_nat MAX_IO_QUEUES) 0 false.

(** The texts, as ASCII: TRITON-NVME- and four digits, Triton VMM NVMe
    Controller, and 1.0.0. *)
Definition serial_of (instance_id : Z) : list Z :=
  [84; 82; 73; 84; 79; 78; 45; 78; 86; 77; 69; 45] ++
  [48; 48 + instance_id / 100; 48 + instance_id / 10 mod 10; 48 + instance_id mod 10].
Definition MODEL : list Z :=
  [84; 114; 105; 116; 111; 110; 32; 86; 77; 77; 32; 78; 86; 77; 101; 32; 67; 111; 110; 116; 114; 111; 108; 108; 101; 114].
Definition FIRMWARE : list Z := [49; 46; 48; 46; 48].

Definition ctrl_ident_of (instance_id : Z) : list Z :=
  build_identify_controller (serial_of instance_id) MODEL FIRMWARE 1 MDTS_LOG2_PAGES (instance_id + 1).
Definition ns_ident_of (geo : Geometry) (read_only : bool) : list Z :=
  build_identify_namespace (total_blocks geo) (block_size geo) read_only.

Definition nvme_build (instance_id file_len : Z) (read_only : bool) : NvmeState :=
  nvme_new (ctrl_ident_of instance_id) (ns_ident_of (geometry_of file_len) read_only).

End nvme.
