(* ===== verification/NvmeInv.v ===== *)
(** * The NVMe controller never panics

    The invariant of the controller of [Nvme] and the calculus that proves
    every handler keeps it: [wp m Q d] says that [m], started on [d] with
    any guest memory, returns and ends in [Q]. *)

From S2P Require Import Prelude Mapping PhysMap PhysMapInv GuestMem MigPages Bus PciBar PciDevice PciMsix NvmePrp Nvme.

Module nvme_inv.
Import mapping guestmem pages prp common nvme.

(** ** Weakest preconditions *)

Definition wp {A} (m : handler A) (Q : A -> dev -> Prop) (d : dev) : Prop :=
  forall w, exists a d' w', m d w = Some (a, d', w') /\ Q a d'.

Lemma wp_ret {A} (a : A) (Q : A -> dev -> Prop) d : Q a d -> wp (ret a) Q d.
Proof. intros HQ w. by exists a, d, w. Qed.

Lemma wp_bind {A B} (m : handler A) (k : A -> handler B) Q d :
  wp m (fun a => wp (k a) Q) d -> wp (bind m k) Q d.
Proof.
  intros Hm w. destruct (Hm w) as (a & d1 & w1 & He & Hk). destruct (Hk w1) as (b & d2 & w2 & He2 & HQ).
  exists b, d2, w2. unfold bind. by rewrite He.
Qed.

Lemma wp_mono {A} (m : handler A) (Q R : A -> dev -> Prop) d :
  wp m Q d -> (forall a d', Q a d' -> R a d') -> wp m R d.
Proof. intros Hm HQR w. destruct (Hm w) as (a & d1 & w1 & He & HQ). exists a, d1, w1. auto. Qed.

Lemma wp_get (Q : NvmeState -> dev -> Prop) d : Q (d_st d) d -> wp get Q d.
Proof. intros HQ w. by exists (d_st d), d, w. Qed.

Definition upd (f : NvmeState -> NvmeState) (d : dev) : dev := mkDev (f (d_st d)) (d_msix d) (d_sent d).

Lemma wp_modify f (Q : unit -> dev -> Prop) d : Q tt (upd f d) -> wp (modify f) Q d.
Proof. intros HQ w. by exists tt, (upd f d), w. Qed.

Lemma wp_get_msix (Q : msix.MsixInner -> dev -> Prop) d : Q (d_msix d) d -> wp get_msix Q d.
Proof. intros HQ w. by exists (d_msix d), d, w. Qed.

Lemma wp_put_msix t sent (Q : unit -> dev -> Prop) d :
  Q tt (mkDev (d_st d) t (d_sent d ++ sent)) -> wp (put_msix t sent) Q d.
Proof. intros HQ w. by eexists _, _, w. Qed.

Lemma wp_lift {A} (p : io A) (Q : option A -> dev -> Prop) d : (forall r, Q r d) -> wp (lift p) Q d.
Proof. intros HQ w. unfold lift. destruct (p w) as [r w'] eqn:Hp. by exists r, d, w'. Qed.

Lemma wp_ask g f (Q : bool -> dev -> Prop) d : (forall b, Q b d) -> wp (ask g f) Q d.
Proof. intros HQ w. by exists (f (w_time w)), d, (turn g w). Qed.

Lemma wp_bump head size (Q : Z -> dev -> Prop) d :
  size <> 0 -> Q (wadd 16 head 1 mod size) d -> wp (bump head size) Q d.
Proof. intros Hs HQ. unfold bump. destruct (Z.eqb_spec size 0); [done|]. by apply wp_ret. Qed.

(** Handlers are functions: what holds of their one result holds together. *)
Lemma wp_and {A} (m : handler A) (Q R : A -> dev -> Prop) d : wp m Q d -> wp m R d -> wp m (fun a d' => Q a d' /\ R a d') d.
Proof.
  intros HQ HR w. destruct (HQ w) as (a & d' & w' & He & Hq), (HR w) as (a2 & d2 & w2 & He2 & Hr).
  rewrite He in He2. injection He2 as <- <- <-. by exists a, d', w'.
Qed.

Lemma wp_run {A} (m : handler A) Q d w a d' w' : wp m Q d -> m d w = Some (a, d', w') -> Q a d'.
Proof. intros Hm He. destruct (Hm w) as (? & ? & ? & Hx & HQ). rewrite He in Hx. by injection Hx as -> -> ->. Qed.

Ltac wp1 :=
  first [apply wp_bind | apply wp_get | apply wp_modify | apply wp_ret | apply wp_lift; intros ?
        | apply wp_ask; intros ?].
Ltac wps := repeat (wp1; cbv beta).

(** ** The invariant *)

Record sq_ok (q : SubQueue) : Prop := mkSqOk {
  so_size : 2 <= sq_size q <= MAX_QUEUE_SIZE;
  so_head : 0 <= sq_head q < sq_size q;
  so_tail : 0 <= sq_tail q < sq_size q;
  so_base : valid_queue_base (sq_base q) = true
}.

Record cq_ok (q : CompQueue) : Prop := mkCqOk {
  co_size : 2 <= cq_size q <= MAX_QUEUE_SIZE;
  co_head : 0 <= cq_head q < cq_size q;
  co_tail : 0 <= cq_tail q < cq_size q;
  co_iv : 0 <= cq_iv q < NVME_MSIX_COUNT;
  co_base : valid_queue_base (cq_base q) = true
}.

(** Every submission queue posts to a completion queue there is: the admin
    queue to the admin queue, the others to an I/O queue. *)
Record linked (st : NvmeState) : Prop := mkLinked {
  lk_admin : forall q, admin_sq st = Some q -> sq_cq_id q = 0 /\ is_Some (admin_cq st);
  lk_io : forall i q, sq_at st i = Some q ->
    exists j, io_queue_index (sq_cq_id q) = Some j /\ is_Some (cq_at st j)
}.

(** A payload of a migration that its checks let through may break the links
    ([L] is false), but nothing else. *)
Section inv.
Context (L : Prop).

Record st_ok (st : NvmeState) : Prop := mkStOk {
  ok_sqs : length (io_sqs st) = MAX_IO_QUEUES;
  ok_cqs : length (io_cqs st) = MAX_IO_QUEUES;
  ok_admin_sq : forall q, admin_sq st = Some q -> sq_ok q;
  ok_admin_cq : forall q, admin_cq st = Some q -> cq_ok q;
  ok_io_sq : forall i q, sq_at st i = Some q -> sq_ok q;
  ok_io_cq : forall i q, cq_at st i = Some q -> cq_ok q;
  ok_num : 1 <= num_io_queues st <= Z.of_nat MAX_IO_QUEUES;
  ok_link : L -> linked st
}.

Record dev_ok (d : dev) : Prop := mkDevOk {
  ok_st : st_ok (d_st d);
  ok_msix : L -> msix.msix_ok (d_msix d);
  ok_entries : length (msix.entries (d_msix d)) = Z.to_nat NVME_MSIX_COUNT;
  ok_pba : length (msix.pba (d_msix d)) = 1%nat
}.

Abbreviation keeps m := (forall d, dev_ok d -> wp m (fun _ => dev_ok) d).

Lemma dev_ok_upd f d : dev_ok d -> st_ok (f (d_st d)) -> dev_ok (upd f d).
Proof. intros [_ Hm He Hp] Hf. by split. Qed.

Lemma io_queue_index_lt qid i : io_queue_index qid = Some i -> (i < MAX_IO_QUEUES)%nat /\ qid = Z.of_nat i + 1.
Proof.
  unfold io_queue_index. destruct (Z.ltb_spec qid 1); [done|].
  destruct (Nat.ltb_spec (Z.to_nat (qid - 1)) MAX_IO_QUEUES); [|done]. intros [= <-]. lia.
Qed.

(** ** Updates that keep the invariant *)

(** States that agree on the queues and their number. *)
Definition same_queues (st st' : NvmeState) : Prop :=
  admin_sq st' = admin_sq st /\ admin_cq st' = admin_cq st /\ io_sqs st' = io_sqs st /\
  io_cqs st' = io_cqs st /\ num_io_queues st' = num_io_queues st.

Lemma st_ok_same st st' : same_queues st st' -> st_ok st -> st_ok st'.
Proof.
  destruct st, st'. unfold same_queues. simpl. intros (-> & -> & -> & -> & ->) Hok.
  destruct Hok as [? ? Has Hac His Hic ? Hl]. split; try done. intros HL. by destruct (Hl HL).
Qed.

Lemma st_ok_num st n : st_ok st -> 1 <= n <= Z.of_nat MAX_IO_QUEUES -> st_ok (with_num_io n st).
Proof. intros [? ? Has Hac His Hic ? Hl] Hn. split; try done. intros HL. by destruct (Hl HL). Qed.

Lemma at_replicate {A} n (i : nat) (q : A) : default None (replicate n None !! i) = Some q -> False.
Proof. destruct (replicate n None !! i) as [[x|]|] eqn:Hl; simpl; try done. by apply lookup_replicate in Hl as [? _]. Qed.

Lemma st_ok_retire st : st_ok st -> st_ok (retire_queues st).
Proof.
  intros [Hs Hc _ _ _ _ Hn _]. unfold retire_queues.
  split; simpl; try done; rewrite ?length_replicate; try done.
  - by intros i q ?%at_replicate.
  - by intros i q ?%at_replicate.
  - intros _. split; simpl; [done|]. by intros i q ?%at_replicate.
Qed.

Lemma cq_at_insert i q st j :
  (i < length (io_cqs st))%nat ->
  cq_at (set_io_cq i q st) j = if decide (i = j) then q else cq_at st j.
Proof.
  intros Hi. unfold cq_at, set_io_cq. simpl. destruct (decide (i = j)) as [<-|].
  - by rewrite list_lookup_insert_eq.
  - by rewrite list_lookup_insert_ne.
Qed.

Lemma sq_at_insert i q st j :
  (i < length (io_sqs st))%nat ->
  sq_at (set_io_sq i q st) j = if decide (i = j) then q else sq_at st j.
Proof.
  intros Hi. unfold sq_at, set_io_sq. simpl. destruct (decide (i = j)) as [<-|].
  - by rewrite list_lookup_insert_eq.
  - by rewrite list_lookup_insert_ne.
Qed.

Lemma st_ok_admin_sq st q :
  st_ok st -> sq_ok q -> (L -> sq_cq_id q = 0 /\ is_Some (admin_cq st)) -> st_ok (set_admin_sq (Some q) st).
Proof.
  intros [? ? Has Hac His Hic ? Hl] Hq Hn. split; try done; simpl.
  - by intros ? [= <-].
  - intros HL. destruct (Hl HL) as [_ Hio]. split; [|done]. simpl. intros ? [= <-]. auto.
Qed.

(** A completion queue in place of one, or in an empty slot. *)
Lemma st_ok_admin_cq st q : st_ok st -> cq_ok q -> st_ok (set_admin_cq (Some q) st).
Proof.
  intros [? ? Has Hac His Hic ? Hl] Hq. split; try done; simpl.
  - by intros ? [= <-].
  - intros HL. destruct (Hl HL) as [Ha Hio]. split; [|done]. simpl. intros q' Hq'. destruct (Ha q' Hq'). by eauto.
Qed.

Lemma st_ok_io_cq st i q : st_ok st -> (i < MAX_IO_QUEUES)%nat -> cq_ok q -> st_ok (set_io_cq i (Some q) st).
Proof.
  intros [Hls Hlc Has Hac His Hic ? Hl] Hi Hq. split; try done; simpl.
  - by rewrite length_insert.
  - intros j q'. rewrite cq_at_insert by lia. destruct (decide (i = j)); [by intros [= <-]|apply Hic].
  - intros HL. destruct (Hl HL) as [Ha Hio]. split; [done|]. intros j q' Hj. destruct (Hio j q' Hj) as (k & Hk & Hs).
    exists k. split; [done|]. rewrite cq_at_insert by lia. by destruct (decide (i = k)).
Qed.

Lemma st_ok_io_sq st i q :
  st_ok st -> (i < MAX_IO_QUEUES)%nat -> sq_ok q ->
  (L -> exists j, io_queue_index (sq_cq_id q) = Some j /\ is_Some (cq_at st j)) -> st_ok (set_io_sq i (Some q) st).
Proof.
  intros [Hls Hlc Has Hac His Hic ? Hl] Hi Hq Hn. split; try done; simpl.
  - by rewrite length_insert.
  - intros j q'. rewrite sq_at_insert by lia. destruct (decide (i = j)); [by intros [= <-]|apply His].
  - intros HL. destruct (Hl HL) as [Ha Hio]. split; [done|]. intros j q'. rewrite sq_at_insert by lia.
    destruct (decide (i = j)); [intros [= <-]; by apply Hn|apply Hio].
Qed.

Lemma st_ok_drop_sq st i : st_ok st -> (i < MAX_IO_QUEUES)%nat -> st_ok (set_io_sq i None st).
Proof.
  intros [Hls Hlc Has Hac His Hic ? Hl] Hi. split; try done; simpl.
  - by rewrite length_insert.
  - intros j q'. rewrite sq_at_insert by lia. destruct (decide (i = j)); [done|apply His].
  - intros HL. destruct (Hl HL) as [Ha Hio]. split; [done|]. intros j q'. rewrite sq_at_insert by lia.
    destruct (decide (i = j)); [done|apply Hio].
Qed.

Lemma st_ok_drop_cq st i :
  st_ok st -> (i < MAX_IO_QUEUES)%nat -> cq_in_use st (Z.of_nat i + 1) = false -> st_ok (set_io_cq i None st).
Proof.
  intros [Hls Hlc Has Hac His Hic ? Hl] Hi Hu. split; try done; simpl.
  - by rewrite length_insert.
  - intros j q'. rewrite cq_at_insert by lia. destruct (decide (i = j)); [done|apply Hic].
  - intros HL. destruct (Hl HL) as [Ha Hio]. split; [done|]. intros j q' Hj.
    destruct (Hio j q' Hj) as (k & Hk & Hs). exists k. split; [done|]. rewrite cq_at_insert by lia.
    destruct (decide (i = k)) as [<-|]; [|done]. exfalso.
    apply io_queue_index_lt in Hk as [_ Hk]. unfold cq_in_use in Hu.
    apply not_true_iff_false in Hu. apply Hu. apply existsb_exists. exists (Some q').
    unfold sq_at in Hj. simpl in Hj. destruct (io_sqs st !! j) as [o|] eqn:Ho; simpl in Hj; [|done].
    subst o. split; [apply list_elem_of_In; by eapply list_elem_of_lookup_2|]. by apply Z.eqb_eq.
Qed.

(** ** Handlers keep it *)

Lemma bits_bound x s n : 0 <= n -> 0 <= bits x s (Z.ones n) < 2 ^ n.
Proof. intros Hn. unfold bits. rewrite Z.land_ones by done. apply Z.mod_pos_bound. lia. Qed.

Lemma bits16 x s : 0 <= bits x s 0xFFFF < 2 ^ 16.
Proof. apply (bits_bound x s 16). lia. Qed.

Lemma land_bound x n : 0 <= n -> 0 <= Z.land x (Z.ones n) < 2 ^ n.
Proof. intros Hn. rewrite Z.land_ones by done. apply Z.mod_pos_bound. lia. Qed.

Lemma fire_lengths t v :
  length (msix.entries t) = Z.to_nat NVME_MSIX_COUNT -> length (msix.pba t) = 1%nat ->
  exists t' m, msix.fire t v = Some (t', m) /\ length (msix.entries t') = Z.to_nat NVME_MSIX_COUNT /\
    length (msix.pba t') = 1%nat.
Proof.
  intros He Hp. unfold msix.fire. destruct (msix.entries t !! v) as [e|] eqn:Hv; [|by eauto 6].
  apply lookup_lt_Some in Hv. rewrite He in Hv. change (Z.to_nat NVME_MSIX_COUNT) with 17%nat in *.
  destruct (negb _); [by eauto 6|]. destruct (_ || _); [|by eauto 6].
  rewrite (Nat.div_small v 64) by lia. destruct (msix.pba t) as [|word [|]] eqn:Hpt; try done.
  simpl. eexists _, _. split; [reflexivity|]. done.
Qed.

Lemma wp_fire iv (Q : unit -> dev -> Prop) d :
  dev_ok d -> (forall d', d_st d' = d_st d -> dev_ok d' -> Q tt d') -> wp (fire iv) Q d.
Proof.
  intros [Hst Hm He Hp] HQ w. destruct (fire_lengths (d_msix d) (Z.to_nat iv)) as (t' & m & Hf & He' & Hp'); [done..|].
  unfold fire. rewrite Hf. eexists _, _, _. split; [reflexivity|]. apply HQ; [done|].
  split; simpl; [done| |done|done]. intros HL.
  destruct (msix.fire_ok (d_msix d) (Z.to_nat iv) (Hm HL)) as (t2 & m2 & Hf2 & Hok & _).
  rewrite Hf in Hf2. by injection Hf2 as -> ->.
Qed.

Section controller.
Context (pm : physmap.PhysMap) (g : guest) (fence_ok flush_ok : nat -> bool).

Lemma advance_cq_ok q : cq_ok q -> cq_ok (advance_cq q) /\ cq_instance (advance_cq q) = cq_instance q.
Proof.
  intros [Hs Hh Ht Hi Hb]. unfold advance_cq. change MAX_QUEUE_SIZE with 4096 in *.
  rewrite wadd_small by lia. destruct (Z.leb_spec (cq_size q) (cq_tail q + 1)); (split; [split; simpl; done || lia|done]).
Qed.

(** The queue a completion leaves. *)
Definition posted (q q' : option CompQueue) : Prop :=
  match q, q' with
  | None, None => True
  | Some q, Some q' => cq_ok q' /\ cq_instance q' = cq_instance q
  | _, _ => False
  end.

Lemma wp_post cq cdw0 sqid head cid status (Q : option CompQueue * bool -> dev -> Prop) d :
  dev_ok d -> (forall q, cq = Some q -> cq_ok q) ->
  (forall cq' ok d', d_st d' = d_st d -> dev_ok d' -> posted cq cq' -> Q (cq', ok) d') ->
  wp (post_completion pm g cq cdw0 sqid head cid status) Q d.
Proof.
  intros Hd Hq HQ. unfold post_completion. destruct cq as [q|]; [|apply wp_ret, HQ; done].
  specialize (Hq q eq_refl). destruct (_ =? cq_head q); [apply wp_ret, HQ; done|].
  destruct (checked_add 64 (cq_base q) (cq_tail q * CQE_SIZE)); [|apply wp_ret, HQ; done].
  wps. destruct r; [|apply wp_ret, HQ; done]. wps. destruct (cq_ien q).
  - apply wp_fire; [done|]. intros d' Hst Hd'. apply wp_ret, HQ; [done|done|]. by apply advance_cq_ok.
  - wps. apply HQ; [done|done|]. by apply advance_cq_ok.
Qed.

Lemma queue_base_valid base entries entry :
  queue_base_ok pm base entries entry = true -> valid_queue_base base = true.
Proof. unfold queue_base_ok. by intros [[? _]%andb_true_iff _]%andb_true_iff. Qed.

Lemma cc_st_ok v st : st_ok st -> st_ok (with_cc v st).
Proof. by apply st_ok_same. Qed.
Lemma csts_st_ok v st : st_ok st -> st_ok (with_csts v st).
Proof. by apply st_ok_same. Qed.

Lemma enable_st_ok new_cc st : st_ok st -> st_ok (enable_st pm new_cc st).
Proof.
  intros Hok%(cc_st_ok new_cc). unfold enable_st. set (st1 := with_cc new_cc st) in *. clearbody st1.
  destruct (fence_failed st1); [by apply csts_st_ok|].
  set (asqs := Z.land (aqa st1) AQA_ASQS_MASK + 1). set (acqs := bits (aqa st1) AQA_ACQS_SHIFT AQA_ACQS_MASK + 1).
  destruct (_ || _) eqn:Hc; [by apply csts_st_ok|].
  apply orb_false_iff in Hc as [Hc Hb2%negb_false_iff%queue_base_valid].
  apply orb_false_iff in Hc as [Hc Hb1%negb_false_iff%queue_base_valid].
  apply orb_false_iff in Hc as [Hc Ha2%Z.ltb_ge]. apply orb_false_iff in Hc as [_ Ha1%Z.ltb_ge].
  pose proof (land_bound (aqa st1) 12 ltac:(lia)) as B1. pose proof (bits_bound (aqa st1) 16 12 ltac:(lia)) as B2.
  assert (asqs <= 4096 /\ acqs <= 4096) as [Hm1 Hm2].
  { subst asqs acqs. change AQA_ASQS_MASK with (Z.ones 12). change AQA_ACQS_MASK with (Z.ones 12).
    change AQA_ACQS_SHIFT with 16. lia. }
  clearbody asqs acqs. cbn [next_instance]. apply csts_st_ok.
  set (st3 := with_instances _ (set_admin_sq _ _)).
  assert (Hcq : st_ok (set_admin_cq (Some (mkCQ (acq_base st3) acqs 0 0 true 0 true (wadd 64 (instances (set_admin_sq
    (Some (mkSQ (asq_base st1) asqs 0 0 ADMIN_QUEUE_ID (wadd 64 (instances st1) 1))) (with_instances (wadd 64 (instances st1) 1) st1))) 1))) st1)).
  { apply st_ok_admin_cq; [done|]. split; simpl; try done; unfold MAX_QUEUE_SIZE, NVME_MSIX_COUNT; lia. }
  eapply (st_ok_same (set_admin_sq (Some (mkSQ (asq_base st1) asqs 0 0 ADMIN_QUEUE_ID (wadd 64 (instances st1) 1)))
    (set_admin_cq _ st1))); [|apply st_ok_admin_sq; [exact Hcq| |]].
  - done.
  - split; simpl; try done; unfold MAX_QUEUE_SIZE, NVME_MSIX_COUNT; lia.
  - done.
Qed.

Lemma wp_keep f d (Q : unit -> dev -> Prop) :
  dev_ok d -> (forall st, st_ok st -> st_ok (f st)) -> (forall d', dev_ok d' -> Q tt d') -> wp (modify f) Q d.
Proof. intros Hd Hf HQ. apply wp_modify, HQ, dev_ok_upd; [done|]. apply Hf, Hd. Qed.

Lemma shst_st_ok v st : st_ok st -> st_ok (set_shst v st).
Proof. by apply st_ok_same. Qed.
Lemma fail_st_ok st : st_ok st -> st_ok (fail_fence st).
Proof. by apply st_ok_same. Qed.

#[local] Hint Resolve cc_st_ok csts_st_ok shst_st_ok fail_st_ok st_ok_retire enable_st_ok : nvme.

Lemma disabled_st_ok new_cc fence st : st_ok st -> st_ok (disabled_st new_cc fence st).
Proof. intros Hok. unfold disabled_st. destruct fence; simpl; auto with nvme. Qed.
Lemma shutdown_st_ok new_cc st : st_ok st -> st_ok (shutdown_st new_cc st).
Proof. intros Hok. unfold shutdown_st. auto with nvme. Qed.
#[local] Hint Resolve disabled_st_ok shutdown_st_ok : nvme.

Lemma disable_keeps new_cc : keeps (disable g fence_ok new_cc).
Proof.
  intros d Hd. unfold disable. apply wp_bind, wp_keep; [done|auto with nvme|]. intros d1 Hd1.
  apply wp_bind, wp_ask. intros fence. apply wp_bind, wp_get_msix, wp_bind, wp_put_msix.
  apply wp_keep; [|auto with nvme|done]. destruct Hd1 as [Hst Hm He Hp].
  split; simpl; [done|intros HL; by apply msix.clear_pending_ok, Hm|done|by rewrite length_replicate].
Qed.

Lemma shutdown_keeps new_cc : keeps (shutdown g fence_ok flush_ok new_cc).
Proof.
  intros d Hd. unfold shutdown. apply wp_bind, wp_keep; [done|auto with nvme|]. intros d1 Hd1.
  apply wp_bind, wp_ask. intros fence. destruct fence; simpl; [|apply wp_keep; auto with nvme].
  apply wp_bind, wp_ask. intros flushed. destruct flushed; simpl; apply wp_keep; auto with nvme.
Qed.

Lemma write_cc_keeps new_cc : keeps (write_cc pm g fence_ok flush_ok new_cc).
Proof.
  intros d Hd. unfold write_cc. apply wp_bind, wp_get, wp_bind.
  apply (wp_mono _ (fun _ => dev_ok)).
  { destruct (_ && _); [by apply shutdown_keeps|by apply wp_ret]. }
  intros _ d1 Hd1. destruct (_ && negb _); [by apply disable_keeps|].
  destruct (negb _ && _); apply wp_keep; auto with nvme.
Qed.

Lemma nvme_reg_write_ok offset wo st : st_ok st -> st_ok (reg_write offset wo st).
Proof. intros Hok. unfold reg_write. repeat case_match; first [done | by apply (st_ok_same st)]. Qed.

Lemma cq_doorbell_keeps qid new_head : 0 <= new_head -> keeps (cq_doorbell qid new_head).
Proof.
  intros Hh d Hd. unfold cq_doorbell. apply wp_bind, wp_get.
  assert (Hq : forall q, cq_ok q -> new_head < cq_size q -> cq_ok (with_cq_head new_head q)).
  { intros q [? ? ? ? ?] ?. split; simpl; done || lia. }
  destruct (qid =? ADMIN_QUEUE_ID).
  - destruct (admin_cq (d_st d)) as [q|] eqn:Ha; [|by apply wp_ret].
    destruct (Z.ltb_spec new_head (cq_size q)); [|by apply wp_ret].
    apply wp_modify, dev_ok_upd; [done|]. apply st_ok_admin_cq; [apply Hd|]. apply Hq; [|done]. by apply (ok_admin_cq _ (ok_st _ Hd)).
  - destruct (io_queue_index qid) as [i|] eqn:Hi; [|by apply wp_ret]. apply io_queue_index_lt in Hi as [Hi _].
    destruct (cq_at (d_st d) i) as [q|] eqn:Ha; [|by apply wp_ret].
    destruct (Z.ltb_spec new_head (cq_size q)); [|by apply wp_ret].
    apply wp_modify, dev_ok_upd; [done|]. apply st_ok_io_cq; [apply Hd|done|]. apply Hq; [|done]. by apply (ok_io_cq _ (ok_st _ Hd) i).
Qed.

(** *** Admin commands leave the admin queue alone *)

Abbreviation admin m := (forall d, dev_ok d -> wp m (fun _ d' => dev_ok d' /\ admin_sq (d_st d') = admin_sq (d_st d)) d).

Lemma answer_admin status : admin (answer status).
Proof. intros d Hd. by apply wp_ret. Qed.

Lemma send_data_admin p1 p2 data : admin (send_data pm g p1 p2 data).
Proof. intros d Hd. unfold send_data. wps. destruct r; by apply answer_admin. Qed.

#[local] Hint Resolve answer_admin send_data_admin : nvme.

Lemma log_page_admin p1 p2 cdw10 : admin (admin_get_log_page pm g p1 p2 cdw10).
Proof. intros d Hd. unfold admin_get_log_page. destruct (build_log_page _); auto with nvme. Qed.

Lemma identify_admin nsid p1 p2 cdw10 : admin (admin_identify pm g nsid p1 p2 cdw10).
Proof.
  intros d Hd. unfold admin_identify. apply wp_bind, wp_get. repeat case_match; auto with nvme.
Qed.

Lemma instance_st_ok st : st_ok st -> st_ok (with_instances (wadd 64 (instances st) 1) st).
Proof. by apply st_ok_same. Qed.

Lemma create_cq_admin p1 cdw10 cdw11 : admin (admin_create_io_cq pm p1 cdw10 cdw11).
Proof.
  intros d Hd. unfold admin_create_io_cq. apply wp_bind, wp_get.
  destruct (io_queue_index _) as [i|] eqn:Hi; [|auto with nvme]. apply io_queue_index_lt in Hi as [Hi _].
  destruct (_ <? Z.land cdw10 0xFFFF); [auto with nvme|].
  destruct (_ || _) eqn:Hs; [auto with nvme|]. apply orb_false_iff in Hs as [Hs1%Z.ltb_ge Hs2%Z.ltb_ge].
  destruct (bool_decide _); [auto with nvme|]. destruct (Z.leb_spec NVME_MSIX_COUNT (bits cdw11 16 0xFFFF)); [auto with nvme|].
  destruct (queue_base_ok _ _ _ _) eqn:Hb; cbn [negb]; [|auto with nvme]. apply queue_base_valid in Hb.
  cbn [next_instance]. apply wp_bind, wp_modify, wp_ret. split; [|done].
  apply dev_ok_upd; [done|]. apply st_ok_io_cq; [apply instance_st_ok, Hd|done|].
  pose proof (bits16 cdw11 16). split; simpl; done || lia.
Qed.

Lemma create_sq_admin p1 cdw10 cdw11 : admin (admin_create_io_sq pm p1 cdw10 cdw11).
Proof.
  intros d Hd. unfold admin_create_io_sq. apply wp_bind, wp_get.
  destruct (io_queue_index (Z.land cdw10 _)) as [i|] eqn:Hi; [|auto with nvme]. apply io_queue_index_lt in Hi as [Hi _].
  destruct (_ <? Z.land cdw10 0xFFFF); [auto with nvme|].
  destruct (_ || _) eqn:Hs; [auto with nvme|]. apply orb_false_iff in Hs as [Hs1%Z.ltb_ge Hs2%Z.ltb_ge].
  destruct (bool_decide _); [auto with nvme|].
  destruct (io_queue_index (bits cdw11 _ _)) as [j|] eqn:Hj; [|auto with nvme].
  destruct (bool_decide (is_Some (cq_at (d_st d) j))) eqn:Hcq; cbn [negb]; [|auto with nvme].
  destruct (queue_base_ok _ _ _ _) eqn:Hb; cbn [negb]; [|auto with nvme]. apply queue_base_valid in Hb.
  cbn [next_instance]. apply wp_bind, wp_modify, wp_ret. split; [|done].
  apply dev_ok_upd; [done|]. apply st_ok_io_sq; [apply instance_st_ok, Hd|done|split; simpl; done || lia|].
  intros _. simpl. exists j. apply bool_decide_eq_true in Hcq. done.
Qed.

Lemma delete_sq_admin cdw10 : admin (admin_delete_io_sq cdw10).
Proof.
  intros d Hd. unfold admin_delete_io_sq. apply wp_bind, wp_get.
  destruct (io_queue_index _) as [i|] eqn:Hi; [|auto with nvme]. apply io_queue_index_lt in Hi as [Hi _].
  destruct (negb _); [auto with nvme|]. apply wp_bind, wp_modify, wp_ret. split; [|done].
  apply dev_ok_upd; [done|]. apply st_ok_drop_sq; [apply Hd|done].
Qed.

Lemma delete_cq_admin cdw10 : admin (admin_delete_io_cq cdw10).
Proof.
  intros d Hd. unfold admin_delete_io_cq. apply wp_bind, wp_get.
  destruct (io_queue_index _) as [i|] eqn:Hi; [|auto with nvme]. apply io_queue_index_lt in Hi as [Hi Hq].
  destruct (negb _); [auto with nvme|]. destruct (cq_in_use _ _) eqn:Hu; [auto with nvme|].
  apply wp_bind, wp_modify, wp_ret. split; [|done].
  apply dev_ok_upd; [done|]. apply st_ok_drop_cq; [apply Hd|done|by rewrite <- Hq].
Qed.

Lemma get_features_admin cdw10 : admin (admin_get_features cdw10).
Proof. intros d Hd. unfold admin_get_features. apply wp_bind, wp_get. repeat case_match; by apply wp_ret. Qed.

Lemma set_features_admin cdw10 cdw11 : admin (admin_set_features cdw10 cdw11).
Proof.
  intros d Hd. unfold admin_set_features. destruct (_ =? FEAT_NUM_QUEUES).
  - apply wp_bind, wp_modify, wp_ret. split; [|done]. apply dev_ok_upd; [done|]. apply st_ok_num; [apply Hd|].
    pose proof (land_bound cdw11 16 ltac:(lia)) as B. change (Z.ones 16) with 0xFFFF in B. pose proof (bits16 cdw11 16).
    change (Z.of_nat MAX_IO_QUEUES) with 15. lia.
  - repeat case_match; auto with nvme.
Qed.

#[local] Hint Resolve log_page_admin identify_admin create_cq_admin create_sq_admin delete_sq_admin
  delete_cq_admin get_features_admin set_features_admin : nvme.

Lemma admin_cmd opcode nsid p1 p2 cdw10 cdw11 : admin (process_admin_cmd pm g opcode nsid p1 p2 cdw10 cdw11).
Proof.
  intros d Hd. unfold process_admin_cmd. apply wp_bind.
  eapply (wp_mono _ (fun _ d' => dev_ok d' /\ admin_sq (d_st d') = admin_sq (d_st d))).
  - repeat case_match; auto with nvme.
  - intros [status cdw0] d' Hd'. by apply wp_ret.
Qed.

(** *** The loops end: every turn takes an entry *)

Definition sq_pending (q : SubQueue) : Z := (sq_tail q - sq_head q) mod sq_size q.

Lemma sq_pending_bound q : sq_ok q -> 0 <= sq_pending q < 4096.
Proof.
  intros [Hs _ _ _]. change MAX_QUEUE_SIZE with 4096 in Hs. unfold sq_pending.
  pose proof (Z.mod_pos_bound (sq_tail q - sq_head q) (sq_size q) ltac:(lia)). lia.
Qed.

Lemma sq_pending_ne q : sq_ok q -> sq_head q <> sq_tail q -> 0 < sq_pending q.
Proof.
  intros [Hs Hh Ht _] Hne. unfold sq_pending. destruct (Z.lt_ge_cases (sq_tail q) (sq_head q)).
  - rewrite <- (Zmod_unique (sq_tail q - sq_head q) (sq_size q) (-1) (sq_tail q - sq_head q + sq_size q)); lia.
  - rewrite Z.mod_small; lia.
Qed.

Lemma bump_ok q (q' := with_sq_head (wadd 16 (sq_head q) 1 mod sq_size q) q) :
  sq_ok q -> sq_head q <> sq_tail q -> sq_ok q' /\ sq_pending q' = sq_pending q - 1.
Proof.
  intros Hok Hne. pose proof (sq_pending_ne q Hok Hne) as Hp. destruct Hok as [Hs Hh Ht Hb].
  change MAX_QUEUE_SIZE with 4096 in *. subst q'. rewrite wadd_small by lia.
  pose proof (Z.mod_pos_bound (sq_head q + 1) (sq_size q) ltac:(lia)). split.
  - split; simpl; done || (change MAX_QUEUE_SIZE with 4096; lia).
  - unfold sq_pending in *. simpl. rewrite Zminus_mod_idemp_r.
    replace (sq_tail q - (sq_head q + 1)) with (sq_tail q - sq_head q - 1) by lia.
    rewrite <- Zminus_mod_idemp_l. rewrite Z.mod_small; [done|].
    pose proof (Z.mod_pos_bound (sq_tail q - sq_head q) (sq_size q) ltac:(lia)). lia.
Qed.

Lemma tail_ok q t : sq_ok q -> 0 <= t < sq_size q -> sq_ok (with_sq_tail t q).
Proof. intros [? ? ? ?] ?. by split. Qed.

Lemma wp_fetch_entry q (Q : option (list Z) -> dev -> Prop) d :
  (forall r, Q r d) ->
  wp (match checked_add 64 (sq_base q) (sq_head q * SQE_SIZE) with
      | Some gpa => lift (mem_read pm g gpa 64)
      | None => ret None
      end) Q d.
Proof. intros HQ. destruct (checked_add _ _ _); [by apply wp_lift|by apply wp_ret]. Qed.

Definition admin_pending (st : NvmeState) : Z := match admin_sq st with Some q => sq_pending q | None => 0 end.

Lemma wp_admin_fetch d :
  dev_ok d ->
  wp (admin_fetch pm g) (fun r d' => dev_ok d' /\
    (is_Some r -> 0 < admin_pending (d_st d) /\ admin_pending (d_st d') = admin_pending (d_st d) - 1)) d.
Proof.
  intros Hd. unfold admin_fetch. apply wp_bind, wp_get.
  destruct (admin_sq (d_st d)) as [q|] eqn:Ha; [|apply wp_ret; split; [done|by intros []]].
  destruct (Z.eqb_spec (sq_head q) (sq_tail q)); [apply wp_ret; split; [done|by intros []]|].
  pose proof (ok_admin_sq _ (ok_st _ Hd) q Ha) as Hq. destruct (bump_ok q Hq n) as [Hq' Hp].
  pose proof (sq_pending_ne q Hq n) as Hpos.
  apply wp_bind, wp_fetch_entry. intros fetched. apply wp_bind, wp_bump; [destruct Hq; lia|].
  set (head := wadd 16 (sq_head q) 1 mod sq_size q) in *.
  apply wp_bind, wp_modify. set (d1 := upd _ d).
  assert (Hd1 : dev_ok d1).
  { apply dev_ok_upd; [done|]. apply st_ok_admin_sq; [apply Hd|done|]. intros HL.
    destruct (ok_link _ (ok_st _ Hd) HL) as [Hl _]. apply (Hl q Ha). }
  assert (Hp1 : forall d', admin_sq (d_st d') = admin_sq (d_st d1) ->
    0 < admin_pending (d_st d) /\ admin_pending (d_st d') = admin_pending (d_st d) - 1).
  { intros d' Hd'. unfold admin_pending. rewrite Hd', Ha. simpl. done. }
  destruct fetched as [sqe|]; [|apply wp_ret; split; [done|intros _; by apply Hp1]].
  apply wp_bind. eapply wp_mono; [by apply admin_cmd|].
  intros [[status cdw0] fence] d2 [Hd2 He]. apply wp_ret. split; [done|]. intros _. by apply Hp1.
Qed.

Lemma set_admin_posted st cq' :
  st_ok st -> posted (admin_cq st) cq' -> st_ok (set_admin_cq cq' st).
Proof.
  intros Hok Hp. unfold posted in Hp. destruct (admin_cq st) as [q|] eqn:Ha, cq' as [q'|]; try done.
  - destruct Hp. by apply st_ok_admin_cq.
  - apply (st_ok_same st); [|done]. unfold same_queues. simpl. by rewrite Ha.
Qed.

Lemma wp_cfs (ok : bool) d (Q : unit -> dev -> Prop) :
  dev_ok d ->
  (forall d', dev_ok d' -> same_queues (d_st d) (d_st d') -> Q tt d') ->
  wp (if ok then ret tt else modify (fun st => with_csts (Z.lor (csts st) CSTS_CFS) st)) Q d.
Proof.
  intros Hd HQ. destruct ok; [apply wp_ret|apply wp_modify]; apply HQ; try done.
  apply dev_ok_upd; [done|]. apply csts_st_ok, Hd.
Qed.

Lemma wp_admin_complete head cid status cdw0 fenced d :
  dev_ok d ->
  wp (admin_complete pm g head cid status cdw0 fenced)
    (fun _ d' => dev_ok d' /\ admin_pending (d_st d') = admin_pending (d_st d)) d.
Proof.
  intros Hd. unfold admin_complete. apply wp_bind, wp_modify. set (d1 := upd _ d).
  assert (dev_ok d1 /\ admin_sq (d_st d1) = admin_sq (d_st d)) as [Hd1 Ha].
  { split; [|by destruct fenced]. apply dev_ok_upd; [done|]. destruct fenced; [apply Hd|apply fail_st_ok, Hd]. }
  clearbody d1. apply wp_bind, wp_get, wp_bind, wp_post; [done|apply Hd1|]. intros cq' ok d2 He2 Hd2 Hp.
  apply wp_bind, wp_modify. apply wp_cfs.
  - apply dev_ok_upd; [done|]. rewrite He2. apply set_admin_posted; [apply Hd1|done].
  - intros d3 Hd3 (Hs & _). split; [done|]. unfold admin_pending. rewrite Hs. simpl. by rewrite He2, Ha.
Qed.

Lemma admin_loop_keeps fuel d :
  dev_ok d -> admin_pending (d_st d) < Z.of_nat fuel -> wp (admin_loop pm g fence_ok fuel) (fun _ => dev_ok) d.
Proof.
  revert d. induction fuel as [|fuel IH]; intros d Hd Hf.
  { unfold admin_pending in Hf. destruct (admin_sq (d_st d)) as [q|] eqn:Ha; [|lia].
    pose proof (sq_pending_bound q (ok_admin_sq _ (ok_st _ Hd) q Ha)). lia. }
  cbn [admin_loop]. apply wp_bind. eapply wp_mono; [by apply wp_admin_fetch|].
  intros [[[[[[head cid] status] cdw0] fence]|]|] d1 [Hd1 Hp].
  - destruct Hp as [_ Hp]; [eauto|]. apply wp_bind.
    apply (wp_mono _ (fun _ d2 => d2 = d1)); [destruct fence; [by apply wp_ask|by apply wp_ret]|].
    intros fenced ? ->. apply wp_bind. eapply wp_mono; [by apply wp_admin_complete|].
    intros _ d2 [Hd2 Hp2]. apply IH; [done|lia].
  - destruct Hp as [_ Hp]; [eauto|]. apply IH; [done|lia].
  - by apply wp_ret.
Qed.

Lemma admin_doorbell_keeps new_tail : 0 <= new_tail -> keeps (admin_sq_doorbell pm g fence_ok new_tail).
Proof.
  intros Ht d Hd. unfold admin_sq_doorbell. apply wp_bind, wp_get.
  destruct (admin_sq (d_st d)) as [q|] eqn:Ha; [|by apply wp_ret].
  destruct (Z.leb_spec (sq_size q) new_tail); [by apply wp_ret|]. apply wp_bind, wp_modify.
  pose proof (tail_ok q new_tail (ok_admin_sq _ (ok_st _ Hd) q Ha) ltac:(lia)) as Hq.
  apply admin_loop_keeps.
  - apply dev_ok_upd; [done|]. apply st_ok_admin_sq; [apply Hd|done|]. intros HL.
    destruct (ok_link _ (ok_st _ Hd) HL) as [Hl _]. apply (Hl q Ha).
  - pose proof (sq_pending_bound _ Hq). change (admin_pending _) with (sq_pending (with_sq_tail new_tail q)).
    unfold ADMIN_TURNS. lia.
Qed.

Lemma wp_io_loop fuel qid inst q reqs d :
  dev_ok d -> sq_ok q -> sq_pending q < Z.of_nat fuel ->
  wp (io_fetch_loop pm g fuel qid inst q reqs)
    (fun r d' => d' = d /\ sq_ok r.1 /\ sq_cq_id r.1 = sq_cq_id q /\ sq_instance r.1 = sq_instance q) d.
Proof.
  revert q reqs. induction fuel as [|fuel IH]; intros q reqs Hd Hq Hf.
  { pose proof (sq_pending_bound q Hq). lia. }
  cbn [io_fetch_loop]. destruct (Z.eqb_spec (sq_head q) (sq_tail q)); [by apply wp_ret|].
  destruct (bump_ok q Hq n) as [Hq' Hp].
  apply wp_bind, wp_fetch_entry. intros fetched. apply wp_bind, wp_bump; [destruct Hq; lia|].
  eapply wp_mono; [apply IH; [done|done|lia]|]. simpl. done.
Qed.

Lemma io_doorbell_keeps qid new_tail : 0 <= new_tail -> keeps (io_sq_doorbell pm g qid new_tail).
Proof.
  intros Ht d Hd. unfold io_sq_doorbell. apply wp_bind, wp_get.
  destruct (io_queue_index qid) as [i|] eqn:Hi; [|by apply wp_ret]. apply io_queue_index_lt in Hi as [Hi _].
  destruct (sq_at (d_st d) i) as [q|] eqn:Ha; [|by apply wp_ret].
  destruct (let* j := io_queue_index (sq_cq_id q) in cq_at (d_st d) j) as [cq|]; [|by apply wp_ret].
  destruct (Z.leb_spec (sq_size q) new_tail); [by apply wp_ret|].
  pose proof (tail_ok q new_tail (ok_io_sq _ (ok_st _ Hd) i q Ha) ltac:(lia)) as Hq.
  apply wp_bind. eapply wp_mono.
  { apply wp_io_loop; [done|done|]. pose proof (sq_pending_bound _ Hq). unfold ADMIN_TURNS. lia. }
  intros [q' reqs] ? (-> & Hq' & Hc & _). cbn [fst] in *. apply wp_bind, wp_modify, wp_ret, dev_ok_upd; [done|].
  apply st_ok_io_sq; [apply Hd|done|done|]. intros HL. rewrite Hc.
  destruct (ok_link _ (ok_st _ Hd) HL) as [_ Hl]. apply (Hl i q Ha).
Qed.

Lemma wp_then {A B} (m : handler A) (b : B) : keeps m -> keeps (bind m (fun _ => ret b)).
Proof. intros Hm d Hd. apply wp_bind. eapply wp_mono; [by apply Hm|]. intros a d' Hd'. by apply wp_ret. Qed.

Lemma u16_pos x : 0 <= as_u 16 x.
Proof. unfold as_u. pose proof (Z.mod_pos_bound x (2 ^ 16)). lia. Qed.

Lemma bar0_write_keeps offset wo : keeps (bar0_write pm g fence_ok flush_ok offset wo).
Proof.
  unfold bar0_write. destruct (_ <=? _).
  - unfold doorbell_write. pose proof (u16_pos (read_u32 wo)). destruct (_ =? 0).
    + destruct (_ =? ADMIN_QUEUE_ID); [by apply wp_then, admin_doorbell_keeps|by apply io_doorbell_keeps].
    + by apply wp_then, cq_doorbell_keeps.
  - destruct (_ =? REG_CC); [apply wp_then, write_cc_keeps|].
    apply wp_then. intros d Hd. apply wp_keep; auto using nvme_reg_write_ok.
Qed.

Lemma bar0_read_keeps offset ro : keeps (bar0_read offset ro).
Proof. intros d Hd. unfold bar0_read. by wps. Qed.

Lemma set_io_posted st i cq' :
  st_ok st -> (i < MAX_IO_QUEUES)%nat -> posted (cq_at st i) cq' -> st_ok (set_io_cq i cq' st).
Proof.
  intros Hok Hi Hp. unfold posted in Hp. destruct (cq_at st i) as [q|] eqn:Ha, cq' as [q'|]; try done.
  - destruct Hp. by apply st_ok_io_cq.
  - assert (Hid : <[i := None]> (io_cqs st) = io_cqs st); [|by apply (st_ok_same st)].
    apply list_insert_id. unfold cq_at in Ha. pose proof (ok_cqs _ Hok) as Hl.
    destruct (io_cqs st !! i) as [o|] eqn:Ho; simpl in Ha; [by subst|]. apply lookup_ge_None in Ho. lia.
Qed.

Lemma worker_post_keeps req status : keeps (worker_post pm g req status).
Proof.
  intros d Hd. unfold worker_post. apply wp_bind, wp_get. destruct (negb _); [by apply wp_ret|].
  destruct (io_queue_index (r_cq_id req)) as [i|] eqn:Hi; [|by apply wp_ret]. apply io_queue_index_lt in Hi as [Hi _].
  apply wp_bind, wp_post; [done|intros q Hq; by apply (ok_io_cq _ (ok_st _ Hd) i)|]. intros cq' ok d2 He2 Hd2 Hp.
  apply wp_bind, wp_modify, wp_cfs; [|done].
  apply dev_ok_upd; [done|]. rewrite He2. apply set_io_posted; [apply Hd|done|done].
Qed.

End controller.

Lemma read_dword_bound wo : is_bytes (wo_buf wo) -> uint 32 (read_dword wo).
Proof.
  intros Hb. assert (Ht : forall n, (n <= 4)%nat -> uint 32 (le_val (take n (wo_buf wo)))).
  { intros n Hn. pose proof (le_val_bound (take n (wo_buf wo)) (Forall_take _ _ _ Hb)).
    rewrite length_take in *. unfold uint.
    pose proof (Z.pow_le_mono_r 2 (8 * Z.of_nat (n `min` length (wo_buf wo))) 32). lia. }
  unfold read_dword, read_u8, read_u16, read_u32. repeat case_match; apply Ht; lia.
Qed.

Lemma put_msix_ok t sent d :
  dev_ok d -> (msix.msix_ok (d_msix d) -> msix.msix_ok t) ->
  length (msix.entries t) = length (msix.entries (d_msix d)) /\ length (msix.pba t) = length (msix.pba (d_msix d)) ->
  dev_ok (mkDev (d_st d) t (d_sent d ++ sent)).
Proof. intros [Hs Hm He Hp] Ht [Hl1 Hl2]. split; simpl; [done|auto|congruence|congruence]. Qed.

Lemma bar4_write_keeps offset wo : is_bytes (wo_buf wo) -> keeps (bar4_write offset wo).
Proof.
  intros Hb d Hd. unfold bar4_write. apply wp_bind, wp_get_msix. destruct (_ <? _); [|by apply wp_ret].
  pose proof (msix.table_write_ok (d_msix d) offset (read_dword wo)) as Hok.
  pose proof (msix.table_write_lengths (d_msix d) offset (read_dword wo)) as Hl.
  destruct (msix.table_write _ _ _) as [t m]. apply wp_put_msix, put_msix_ok; [done| |done].
  intros Hm. apply Hok; [done|by apply read_dword_bound].
Qed.

Lemma cfg_write_keeps offset len val : keeps (cfg_write offset len val).
Proof.
  intros d Hd. unfold cfg_write. apply wp_bind, wp_get_msix. destruct (msix.cap_read _ _ _ _); [|by apply wp_ret].
  match goal with |- context [msix.cap_write ?t ?o ?c ?v] =>
    pose proof (msix.cap_write_ok t o c v); pose proof (msix.cap_write_lengths t o c v);
    destruct (msix.cap_write t o c v) as [t' ms] end.
  by apply wp_put_msix, put_msix_ok.
Qed.

(** *** Migration *)

(** The unsigned fields of a payload. *)
Definition sq_typed (q : NvmeMigrateSq) : Prop := 0 <= wsq_head q /\ 0 <= wsq_tail q.
Definition cq_typed (q : NvmeMigrateCq) : Prop := 0 <= wcq_head q /\ 0 <= wcq_tail q /\ 0 <= wcq_iv q.

Record mig_typed (mig : NvmeMigrateState) : Prop := {
  mt_admin_sq : forall q, mg_admin_sq mig = Some q -> sq_typed q;
  mt_admin_cq : forall q, mg_admin_cq mig = Some q -> cq_typed q;
  mt_io_sqs : forall i q, mg_io_sqs mig !! i = Some (Some q) -> sq_typed q;
  mt_io_cqs : forall i q, mg_io_cqs mig !! i = Some (Some q) -> cq_typed q
}.

Lemma check_ring size head tail :
  check_size size && check_cursors size head tail = true -> 2 <= size <= MAX_QUEUE_SIZE /\ head < size /\ tail < size.
Proof.
  unfold check_size, check_cursors. intros [[?%Z.leb_le ?%Z.leb_le]%andb_true_iff Hc]%andb_true_iff.
  apply negb_true_iff, orb_false_iff in Hc as [?%Z.leb_gt ?%Z.leb_gt]. done.
Qed.

Lemma check_cq_ok inst q : check_cq q = true -> cq_typed q -> cq_ok (live_cq inst q).
Proof.
  unfold check_cq, check_vector.
  intros [[Hr Hv%negb_true_iff%Z.leb_gt]%andb_true_iff Hb]%andb_true_iff (? & ? & ?).
  apply check_ring in Hr as (? & ? & ?). by split.
Qed.

Lemma check_sq_ok mig inst q : check_sq mig q = true -> sq_typed q -> sq_ok (live_sq inst q).
Proof.
  unfold check_sq. intros [[Hr Hb]%andb_true_iff _]%andb_true_iff (? & ?).
  apply check_ring in Hr as (? & ? & ?). by split.
Qed.

Record mig_ok (mig : NvmeMigrateState) : Prop := {
  mo_num : 1 <= mg_num_io_queues mig <= Z.of_nat MAX_IO_QUEUES;
  mo_len : (length (mg_io_sqs mig) <= MAX_IO_QUEUES /\ length (mg_io_cqs mig) <= MAX_IO_QUEUES)%nat;
  mo_acq : forall q, mg_admin_cq mig = Some q -> check_cq q = true;
  mo_cqs : forall i q, mg_io_cqs mig !! i = Some (Some q) -> check_cq q = true;
  mo_asq : forall q, mg_admin_sq mig = Some q -> check_sq mig q = true;
  mo_sqs : forall i q, mg_io_sqs mig !! i = Some (Some q) -> check_sq mig q = true
}.

Lemma opt_all_spec {A} (f : A -> bool) o : opt_all f o = true <-> forall a, o = Some a -> f a = true.
Proof. destruct o; simpl; [|done]. split; [by intros ? ? [= <-]|auto]. Qed.

Lemma forallb_slots {A} (f : A -> bool) l :
  forallb (opt_all f) l = true <-> forall i a, l !! i = Some (Some a) -> f a = true.
Proof.
  rewrite forallb_forall. split.
  - intros Hl i a Hi. apply (proj1 (opt_all_spec f (Some a))); [|done].
    apply Hl, list_elem_of_In. by eapply list_elem_of_lookup_2.
  - intros Hl o [i Hi]%list_elem_of_In%list_elem_of_lookup_1. apply opt_all_spec. intros a ->. eauto.
Qed.

Lemma check_state_spec mig : check_nvme_state mig = true <-> mig_ok mig.
Proof.
  unfold check_nvme_state. rewrite !andb_true_iff, !opt_all_spec, !forallb_slots, !Z.leb_le, negb_true_iff,
    orb_false_iff, !Nat.ltb_ge. split.
  - intros [[[[[[? ?] [? ?]] ?] ?] ?] ?]. by split.
  - intros [[? ?] [? ?] ? ? ? ?]. by split_and!.
Qed.

Lemma fill_length {A B} (f : A -> B) slots wires : length (fill f slots wires) = length slots.
Proof. revert wires. induction slots as [|s slots IH]; intros [|w wires]; simpl; auto. Qed.

Lemma fill_lookup {A B} (f : A -> B) slots wires i q :
  fill f slots wires !! i = Some (Some q) ->
  (exists w, wires !! i = Some (Some w) /\ q = f w) \/ slots !! i = Some (Some q).
Proof.
  revert wires i. induction slots as [|s slots IH]; intros [|w wires] i; try (simpl; by auto).
  destruct i; simpl; [|apply IH]. destruct w; simpl; [|done]. intros [= <-]. by eauto.
Qed.

Lemma slot_at {A} (l : list (option A)) (i : nat) q : default None (l !! i) = Some q <-> l !! i = Some (Some q).
Proof. destruct (l !! i) as [[]|]; simpl; split; congruence. Qed.

(** The queues an import leaves. *)
Lemma restore_proj mig st (inst := wadd 64 (instances st) 1) (st' := restore_queues mig st) :
  admin_sq st' = live_sq inst <$> mg_admin_sq mig /\ admin_cq st' = live_cq inst <$> mg_admin_cq mig /\
  io_sqs st' = fill (live_sq inst) (io_sqs st) (mg_io_sqs mig) /\
  io_cqs st' = fill (live_cq inst) (io_cqs st) (mg_io_cqs mig) /\ num_io_queues st' = mg_num_io_queues mig.
Proof. split_and!; reflexivity. Qed.

(** What an import leaves, on any payload the checks let through. *)
Lemma restore_st_ok mig st :
  st_ok st -> mig_ok mig -> mig_typed mig -> (L -> linked (restore_queues mig st)) ->
  st_ok (restore_queues mig st).
Proof.
  intros Hok Hm Ht HL. destruct (restore_proj mig st) as (Esq & Ecq & Esqs & Ecqs & En).
  set (inst := wadd 64 (instances st) 1) in *. clearbody inst.
  split; unfold sq_at, cq_at; rewrite ?Esq, ?Ecq, ?Esqs, ?Ecqs, ?En, ?fill_length; [apply Hok|apply Hok|..|apply Hm|done].
  - intros q. destruct (mg_admin_sq mig) as [w|] eqn:Hw; [|done]. intros [= <-].
    eapply check_sq_ok; [by apply Hm|by apply Ht].
  - intros q. destruct (mg_admin_cq mig) as [w|] eqn:Hw; [|done]. intros [= <-].
    apply check_cq_ok; [by apply Hm|by apply Ht].
  - intros i q [(w & Hw & ->)|Hs]%slot_at%fill_lookup.
    + eapply check_sq_ok; [by eapply (mo_sqs _ Hm)|by eapply (mt_io_sqs _ Ht)].
    + eapply (ok_io_sq _ Hok i). by apply slot_at.
  - intros i q [(w & Hw & ->)|Hs]%slot_at%fill_lookup.
    + eapply check_cq_ok; [by eapply (mo_cqs _ Hm)|by eapply (mt_io_cqs _ Ht)].
    + eapply (ok_io_cq _ Hok i). by apply slot_at.
Qed.

Lemma export_fields h d mig :
  export_migrate_state h d = Some mig ->
  mig = mkMig (cc (d_st d)) (csts (d_st d)) (aqa (d_st d)) (asq_base (d_st d)) (acq_base (d_st d))
    (wire_sq <$> admin_sq (d_st d)) (wire_cq <$> admin_cq (d_st d))
    ((fun q : option SubQueue => wire_sq <$> q) <$> io_sqs (d_st d))
    ((fun q : option CompQueue => wire_cq <$> q) <$> io_cqs (d_st d)) (num_io_queues (d_st d))
    (pcidev.migrate_state h) (msix.export_state (d_msix d)) /\ has (cc (d_st d)) CC_EN = true.
Proof. unfold export_migrate_state. destruct (has _ _); simpl; [|done]. by intros [= <-]. Qed.

Lemma wire_slot {A B} (f : A -> B) (l : list (option A)) i w :
  ((fun q : option A => f <$> q) <$> l) !! i = Some (Some w) -> exists q, default None (l !! i) = Some q /\ w = f q.
Proof.
  rewrite list_lookup_fmap. destruct (l !! i) as [[q|]|]; simpl; try done. intros [= <-]. eauto.
Qed.

Lemma export_typed h d mig : dev_ok d -> export_migrate_state h d = Some mig -> mig_typed mig.
Proof.
  intros Hd [-> _]%export_fields. destruct (ok_st _ Hd) as [_ _ Has Hac His Hic _ _]. split; simpl.
  - intros w. destruct (admin_sq _) as [q|]; [|done]. intros [= <-]. destruct (Has q eq_refl). split; simpl; lia.
  - intros w. destruct (admin_cq _) as [q|]; [|done]. intros [= <-]. destruct (Hac q eq_refl). split_and!; simpl; lia.
  - intros i w (q & Hq & ->)%wire_slot. destruct (His i q Hq). split; simpl; lia.
  - intros i w (q & Hq & ->)%wire_slot. destruct (Hic i q Hq). split_and!; simpl; lia.
Qed.

Lemma wire_cq_checked q : cq_ok q -> check_cq (wire_cq q) = true.
Proof.
  intros [Hs Hh Ht Hi Hb]. unfold check_cq, check_size, check_cursors, check_vector. simpl. rewrite Hb.
  repeat (rewrite (proj2 (Z.leb_le _ _)) by lia). by repeat (rewrite (proj2 (Z.leb_gt _ _)) by lia).
Qed.

Lemma wire_sq_checked mig q : sq_ok q -> cq_exists mig (sq_cq_id q) = true -> check_sq mig (wire_sq q) = true.
Proof.
  intros [Hs Hh Ht Hb] He. unfold check_sq, check_size, check_cursors. simpl. rewrite Hb, He.
  repeat (rewrite (proj2 (Z.leb_le _ _)) by lia). by repeat (rewrite (proj2 (Z.leb_gt _ _)) by lia).
Qed.

Lemma export_checked h d mig : L -> dev_ok d -> export_migrate_state h d = Some mig -> mig_ok mig.
Proof.
  intros HL Hd [-> _]%export_fields. destruct (ok_st _ Hd) as [Hls Hlc Has Hac His Hic Hn Hlk].
  destruct (Hlk HL) as [Hla Hli]. set (mig := mkMig _ _ _ _ _ _ _ _ _ _ _ _).
  assert (Hio : forall i q, sq_at (d_st d) i = Some q -> cq_exists mig (sq_cq_id q) = true).
  { intros i q Hq. destruct (Hli i q Hq) as (j & Hj & [c Hc]). unfold cq_exists. simpl.
    destruct (Z.eqb_spec (sq_cq_id q) 0) as [E|]; [by rewrite E in Hj|].
    rewrite Hj. simpl. rewrite list_lookup_fmap. unfold cq_at in Hc.
    destruct (io_cqs (d_st d) !! j) as [[]|]; by simpl in *. }
  split; simpl; rewrite ?length_fmap; [done|lia|..].
  - intros w. destruct (admin_cq _) as [q|]; [|done]. intros [= <-]. by apply wire_cq_checked, Hac.
  - intros i w (q & Hq & ->)%wire_slot. by eapply wire_cq_checked, Hic.
  - intros w. destruct (admin_sq (d_st d)) as [q|] eqn:Hq; [|done]. intros [= <-].
    apply wire_sq_checked; [by apply Has|]. destruct (Hla q eq_refl) as [-> [c Hc]]. unfold cq_exists. simpl. by rewrite Hc.
  - intros i w (q & Hq & ->)%wire_slot. apply wire_sq_checked; [by eapply His|by eapply Hio].
Qed.

Lemma fill_full {A B} (f : A -> B) slots wires :
  length wires = length slots -> fill f slots wires = (fun w : option A => f <$> w) <$> wires.
Proof. revert wires. induction slots as [|s slots IH]; intros [|w wires] Hl; simplify_eq/=; [done|]. by rewrite IH. Qed.

Definition relabel_sq (inst : Z) (q : SubQueue) : SubQueue :=
  mkSQ (sq_base q) (sq_size q) (sq_head q) (sq_tail q) (sq_cq_id q) inst.
Definition relabel_cq (inst : Z) (q : CompQueue) : CompQueue :=
  mkCQ (cq_base q) (cq_size q) (cq_head q) (cq_tail q) (cq_phase q) (cq_iv q) (cq_ien q) inst.

(** The queues of a controller, on another, with a new instance. *)
Record relabelled (inst : Z) (st0 st : NvmeState) : Prop := {
  rl_admin_sq : admin_sq st = relabel_sq inst <$> admin_sq st0;
  rl_admin_cq : admin_cq st = relabel_cq inst <$> admin_cq st0;
  rl_io_sqs : io_sqs st = (fun q : option SubQueue => relabel_sq inst <$> q) <$> io_sqs st0;
  rl_io_cqs : io_cqs st = (fun q : option CompQueue => relabel_cq inst <$> q) <$> io_cqs st0
}.

Lemma fmap_wire {A B C} (f : A -> B) (g : B -> C) (l : list (option A)) :
  ((fun q : option B => g <$> q) <$> ((fun q : option A => f <$> q) <$> l)) = (fun q : option A => (g ∘ f) <$> q) <$> l.
Proof. rewrite <- list_fmap_compose. apply list_fmap_ext. intros i [q|] _; done. Qed.

Lemma restore_relabels h0 d0 mig st :
  st_ok st -> dev_ok d0 -> export_migrate_state h0 d0 = Some mig ->
  relabelled (wadd 64 (instances st) 1) (d_st d0) (restore_queues mig st).
Proof.
  intros Hok Hd [-> _]%export_fields. destruct (ok_st _ Hd) as [Hls Hlc _ _ _ _ _ _].
  match goal with |- relabelled _ _ (restore_queues ?m st) => destruct (restore_proj m st) as (Esq & Ecq & Esqs & Ecqs & _) end.
  split; [rewrite Esq|rewrite Ecq|rewrite Esqs|rewrite Ecqs]; cbn [mg_admin_sq mg_admin_cq mg_io_sqs mg_io_cqs].
  - by destruct (admin_sq (d_st d0)).
  - by destruct (admin_cq (d_st d0)).
  - rewrite fill_full, fmap_wire by (rewrite length_fmap, Hls; symmetry; apply Hok). done.
  - rewrite fill_full, fmap_wire by (rewrite length_fmap, Hlc; symmetry; apply Hok). done.
Qed.

Lemma relabelled_at inst st0 st i :
  relabelled inst st0 st ->
  sq_at st i = relabel_sq inst <$> sq_at st0 i /\ cq_at st i = relabel_cq inst <$> cq_at st0 i.
Proof.
  intros [_ _ Hs Hc]. unfold sq_at, cq_at. rewrite Hs, Hc, !list_lookup_fmap.
  by destruct (io_sqs st0 !! i), (io_cqs st0 !! i).
Qed.

Lemma relabelled_linked inst st0 st : relabelled inst st0 st -> linked st0 -> linked st.
Proof.
  intros Hr [Ha Hio]. split.
  - intros q. rewrite (rl_admin_sq _ _ _ Hr), (rl_admin_cq _ _ _ Hr). destruct (admin_sq st0) as [q0|]; [|done].
    intros [= <-]. destruct (Ha q0 eq_refl) as [? [c ->]]. split; [done|]. by eexists.
  - intros i q. rewrite (proj1 (relabelled_at _ _ _ i Hr)). destruct (sq_at st0 i) as [q0|] eqn:Hq; [|done].
    intros [= <-]. destruct (Hio i q0 Hq) as (j & Hj & [c Hc]). exists j. split; [done|].
    rewrite (proj2 (relabelled_at _ _ _ j Hr)), Hc. by eexists.
Qed.

(** What an import leaves of the controller itself. *)
Lemma restore_cases mig h d h' d' ok :
  restore_migrate_state mig h d = Some (h', d', ok) ->
  (d' = d /\ ok = false) \/
  (check_nvme_state mig = true /\
   d' = mkDev (restore_queues mig (d_st d)) (msix.import_state (d_msix d) (mg_msix mig)).1 (d_sent d)).
Proof.
  unfold restore_migrate_state. destruct (check_nvme_state mig); simpl; [|intros [= <- <- <-]; by left].
  destruct (pcidev.replay_migrate_pci_state _ _ h); simpl; [|done].
  destruct (msix.import_state _ _). intros [= <- <- <-]. by right.
Qed.

Lemma restore_any mig h d h' d' ok :
  restore_migrate_state mig h d = Some (h', d', ok) ->
  dev_ok d -> mig_typed mig -> (L -> exists h0 d0, dev_ok d0 /\ export_migrate_state h0 d0 = Some mig) ->
  dev_ok d'.
Proof.
  intros [[-> _]|[Hc ->]]%restore_cases Hd Ht HL; [done|].
  apply check_state_spec in Hc. pose proof (msix.import_lengths (d_msix d) (mg_msix mig)) as [Hl1 Hl2].
  destruct Hd as [Hst Hm He Hp]. split; cbn [d_st d_msix]; [| |congruence|congruence].
  - apply restore_st_ok; [done..|]. intros l. destruct (HL l) as (h0 & d0 & Hd0 & Hx).
    eapply relabelled_linked; [by eapply restore_relabels|]. by apply (ok_link _ (ok_st _ Hd0)).
  - intros l. destruct (HL l) as (h0 & d0 & Hd0 & [-> _]%export_fields). cbn [mg_msix].
    rewrite msix.import_export; [|by apply Hd0|rewrite He; symmetry; apply Hd0|rewrite Hp; symmetry; apply Hd0].
    by apply Hd0.
Qed.

Lemma restore_genuine h h' h0 d d0 mig :
  L -> dev_ok d -> dev_ok d0 -> export_migrate_state h0 d0 = Some mig ->
  pcidev.replay_migrate_pci_state (pcidev.bar_replay_writes h (pcidev.mp_bar_addrs (pcidev.migrate_state h0)))
    (pcidev.mp_command (pcidev.migrate_state h0)) h = Some h' ->
  restore_migrate_state mig h d = Some (h', mkDev (restore_queues mig (d_st d)) (d_msix d0) (d_sent d), true).
Proof.
  intros HL Hd Hd0 Hx Hr. unfold restore_migrate_state.
  rewrite (proj2 (check_state_spec mig)) by (by eapply export_checked).
  assert (mg_msix mig = msix.export_state (d_msix d0) /\ mg_pci mig = pcidev.migrate_state h0) as [-> ->]
    by (apply export_fields in Hx as [-> _]; done).
  cbn [negb]. rewrite Hr. simpl. destruct Hd as [_ _ He Hp], Hd0 as [_ Hm0 He0 Hp0].
  by rewrite msix.import_export by (auto || congruence).
Qed.

(** Its guest-visible state is the exporter's. *)
Lemma restore_exports h h0 d d0 mig :
  dev_ok d -> dev_ok d0 -> export_migrate_state h0 d0 = Some mig -> pcidev.migrate_state h = pcidev.migrate_state h0 ->
  export_migrate_state h (mkDev (restore_queues mig (d_st d)) (d_msix d0) (d_sent d)) = Some mig.
Proof.
  intros Hd Hd0 Hx Hh. pose proof (restore_relabels h0 d0 mig (d_st d) (ok_st _ Hd) Hd0 Hx) as [Hs Hc Hss Hcs].
  apply export_fields in Hx as [-> Hen]. set (mig := mkMig _ _ _ _ _ _ _ _ _ _ _ _) in *.
  unfold export_migrate_state. cbn [d_st d_msix]. rewrite Hs, Hc, Hss, Hcs, !fmap_wire.
  assert (Hr : forall st, cc (restore_queues mig st) = cc (d_st d0) /\ csts (restore_queues mig st) = csts (d_st d0) /\
    aqa (restore_queues mig st) = aqa (d_st d0) /\ asq_base (restore_queues mig st) = asq_base (d_st d0) /\
    acq_base (restore_queues mig st) = acq_base (d_st d0) /\
    num_io_queues (restore_queues mig st) = num_io_queues (d_st d0)) by (intros; split_and!; reflexivity).
  destruct (Hr (d_st d)) as (-> & -> & -> & -> & -> & ->). rewrite Hen. cbn [negb]. rewrite Hh. unfold mig.
  f_equal. f_equal; [by destruct (admin_sq (d_st d0))|by destruct (admin_cq (d_st d0))].
Qed.

End inv.
End nvme_inv.
