(* ===== verification/NvmeThm.v ===== *)
(** * What the NVMe controller promises

    The histories of a controller ([nvme_reach]) and the theorems over them:
    no access of the guest panics, whatever payload a migration brought; an
    exported controller is accepted, and is the same controller, on the other
    side; a request reaches its namespace and nothing else. *)

From S2P Require Import Prelude Mapping PhysMap PhysMapInv GuestMem MigPages Bus PciBar PciDevice PciThm PciMsix NvmePrp Nvme NvmeInv.

Module nvme_thm.
Import mapping guestmem pages prp common nvme nvme_inv.

(** ** Histories *)

(** Guest memory, the memory map and the answers of the workers may differ
    at every step. [hostile] allows any payload of a migration; otherwise
    a payload is what a controller exported. *)
Inductive nvme_reach (hostile : bool) : dev -> Prop :=
| nr_new ctrl ns : nvme_reach hostile (mkDev (nvme_new ctrl ns) (msix.msix_new NVME_MSIX_COUNT) [])
| nr_bar0 pm g fence_ok flush_ok offset wo d w reqs d' w' :
    nvme_reach hostile d -> bar0_write pm g fence_ok flush_ok offset wo d w = Some (reqs, d', w') ->
    nvme_reach hostile d'
| nr_bar4 offset wo d w d' w' :
    nvme_reach hostile d -> is_bytes (wo_buf wo) -> bar4_write offset wo d w = Some (tt, d', w') ->
    nvme_reach hostile d'
| nr_cfg offset len val d w d' w' :
    nvme_reach hostile d -> cfg_write offset len val d w = Some (tt, d', w') -> nvme_reach hostile d'
| nr_post pm g req status d w d' w' :
    nvme_reach hostile d -> worker_post pm g req status d w = Some (tt, d', w') -> nvme_reach hostile d'
| nr_restore h d h0 d0 mig h' d' ok :
    nvme_reach hostile d -> nvme_reach hostile d0 -> export_migrate_state h0 d0 = Some mig ->
    restore_migrate_state mig h d = Some (h', d', ok) -> nvme_reach hostile d'
| nr_restore_any h d mig h' d' ok :
    hostile = true -> nvme_reach hostile d -> mig_typed mig ->
    restore_migrate_state mig h d = Some (h', d', ok) -> nvme_reach hostile d'.

(** The header of the function: what the guest wrote to it, and an import. *)
Inductive header_reach : pcidev.DeviceState -> Prop :=
| he_new h : nvme_header = Some h -> header_reach h
| he_write h offset len val h' :
    header_reach h -> uint 32 val -> pcidev.cfg_write h offset len val = Some h' -> header_reach h'.

Lemma nvme_header_ok h : nvme_header = Some h -> pci_thm.hdr_ok h.
Proof.
  intros Hh. apply pci_thm.hdr_reach_ok. unfold nvme_header in Hh.
  apply bind_Some in Hh as (h1 & H1 & Hh). apply bind_Some in Hh as (h2 & H2 & [= <-]).
  apply pci_thm.hr_cap. refine (pci_thm.hr_define h1 _ _ h2 _ _ H2); [|by vm_compute].
  refine (pci_thm.hr_define _ _ _ h1 _ _ H1); [apply pci_thm.hr_new|by vm_compute].
Qed.

Lemma header_reach_ok h :
  header_reach h ->
  pci_thm.hdr_ok h /\ exists h0, nvme_header = Some h0 /\ bar.e_kind <$> pcidev.bars h = bar.e_kind <$> pcidev.bars h0.
Proof.
  induction 1 as [h Hh|h o l v h' _ [IH (h0 & H0 & Hk)] Hv Hw]; [split; [by apply nvme_header_ok|eauto]|].
  destruct (pci_thm.cfg_write_ok h o l v IH Hv) as (h1 & H1 & Hok & _ & _ & _ & _ & Hk1).
  rewrite Hw in H1. injection H1 as <-. split; [done|]. exists h0. split; [done|]. congruence.
Qed.

Lemma header_kinds h h' :
  header_reach h -> header_reach h' -> bar.e_kind <$> pcidev.bars h = bar.e_kind <$> pcidev.bars h'.
Proof.
  intros [_ (h0 & H0 & ->)]%header_reach_ok [_ (h1 & H1 & ->)]%header_reach_ok. congruence.
Qed.

Lemma nvme_new_ok L ctrl ns : dev_ok L (mkDev (nvme_new ctrl ns) (msix.msix_new NVME_MSIX_COUNT) []).
Proof.
  split; cbn [d_st d_msix]; [|intros _; by apply msix.msix_new_ok|done|done].
  split; try done.
  - by intros i q ?%at_replicate.
  - by intros i q ?%at_replicate.
  - intros _. split; [done|]. by intros i q ?%at_replicate.
Qed.

Lemma wp_step L {A} (m : handler A) d w a d' w' :
  wp m (fun _ => dev_ok L) d -> m d w = Some (a, d', w') -> dev_ok L d'.
Proof. exact (wp_run m (fun _ => dev_ok L) d w a d' w'). Qed.

Lemma wp_some {A} (m : handler A) Q d w : wp m Q d -> is_Some (m d w).
Proof. intros Hm. destruct (Hm w) as (? & ? & ? & -> & _). by eexists. Qed.

Lemma nvme_reach_ok hostile d : nvme_reach hostile d -> dev_ok (hostile = false) d.
Proof.
  induction 1 as [| ? ? ? ? ? ? ? ? ? ? ? _ IH He|? ? ? ? ? ? _ IH Hb He|? ? ? ? ? ? ? _ IH He|? ? ? ? ? ? ? ? _ IH He
    |h d h0 d0 mig h' d' ok _ IH _ IH0 Hx Hr|h d mig h' d' ok -> _ IH Ht Hr].
  - apply nvme_new_ok.
  - eapply wp_step, He. by apply bar0_write_keeps.
  - eapply wp_step, He. by apply bar4_write_keeps.
  - eapply wp_step, He. by apply cfg_write_keeps.
  - eapply wp_step, He. by apply worker_post_keeps.
  - eapply restore_any; [done|done|by eapply export_typed|]. intros _. by exists h0, d0.
  - by eapply restore_any.
Qed.

(** C4: the guest cannot make the controller panic. After any history of
    register and doorbell writes, interrupts, completions and migrations,
    even from a payload that was made up, every access and every completion
    returns: no ring is divided by a size of zero, no index is out of range,
    and the loops over the submission queues end. *)
Theorem nvme_never_panics hostile d pm g fence_ok flush_ok w :
  nvme_reach hostile d ->
  (forall offset wo, is_Some (bar0_write pm g fence_ok flush_ok offset wo d w)) /\
  (forall offset ro, is_Some (bar0_read offset ro d w)) /\
  (forall offset wo, is_bytes (wo_buf wo) -> is_Some (bar4_write offset wo d w)) /\
  (forall offset len val, is_Some (cfg_write offset len val d w)) /\
  (forall req status, is_Some (worker_post pm g req status d w)).
Proof.
  intros Hd%nvme_reach_ok. split_and!; intros; eapply wp_some;
    eauto using bar0_write_keeps, bar0_read_keeps, bar4_write_keeps, cfg_write_keeps, worker_post_keeps.
Qed.

(** C27: what a controller exports another accepts, whatever guests did to
    either before, as long as no payload they took in was made up. The import
    neither panics nor reports an error, and leaves the controller as the
    exporter was: its registers, its MSI-X table, the addresses of its BARs
    and its command register, and each of its queues with its base, size,
    cursors, phase, vector and interrupt enable. Only the instance of the
    queues is one of its own, so that no request from before the import
    completes into them. *)
Theorem nvme_export_import h d h0 d0 mig :
  nvme_reach false d -> nvme_reach false d0 -> header_reach h -> header_reach h0 ->
  export_migrate_state h0 d0 = Some mig ->
  exists h' d', restore_migrate_state mig h d = Some (h', d', true) /\
    relabelled (wadd 64 (instances (d_st d)) 1) (d_st d0) (d_st d') /\
    (cc (d_st d'), csts (d_st d'), aqa (d_st d'), asq_base (d_st d'), acq_base (d_st d'), num_io_queues (d_st d')) =
    (cc (d_st d0), csts (d_st d0), aqa (d_st d0), asq_base (d_st d0), acq_base (d_st d0), num_io_queues (d_st d0)) /\
    d_msix d' = d_msix d0 /\
    pcidev.command h' = pcidev.command h0 /\
    (forall i, bar.reg_read (pcidev.bars h') i = bar.reg_read (pcidev.bars h0) i) /\
    export_migrate_state h' d' = Some mig.
Proof.
  intros Hd%nvme_reach_ok Hd0%nvme_reach_ok Hh Hh0 Hx.
  destruct (pci_thm.replay_reproduces h0 h (proj1 (header_reach_ok _ Hh0)) (proj1 (header_reach_ok _ Hh))
    (header_kinds _ _ Hh Hh0)) as (h' & Hr & Hm & Hb & _).
  exists h'. eexists. split; [by apply (restore_genuine (false = false) h h' h0 d d0 mig)|].
  split; [by apply (restore_relabels (false = false) h0 d0 mig); [apply Hd|..]|].
  split; [by apply export_fields in Hx as [-> _]|]. split; [done|].
  split; [by apply (f_equal pcidev.mp_command) in Hm|]. split; [done|]. by eapply restore_exports.
Qed.


(** ** Submission *)

Section submission.
Context (pm : physmap.PhysMap).

(** The slots a driver filled, oldest first, and the entry in one. *)
Definition filled (q : SubQueue) : list Z :=
  (fun i => (sq_head q + Z.of_nat i) mod sq_size q) <$> seq 0 (Z.to_nat (sq_pending q)).

Definition entry_in (m : hostmem) (q : SubQueue) (slot : Z) : option (list Z) :=
  let* gpa := checked_add 64 (sq_base q) (slot * SQE_SIZE) in
  if is_ok (mem_read_view pm gpa 64) then Some (peek_range m gpa 64) else None.

Lemma slots_filled_step q :
  sq_ok q -> sq_head q <> sq_tail q ->
  filled q = sq_head q :: filled (with_sq_head (wadd 16 (sq_head q) 1 mod sq_size q) q).
Proof.
  intros Hok Hne. destruct (bump_ok q Hok Hne) as [_ Hp]. pose proof (sq_pending_ne q Hok Hne).
  destruct Hok as [Hs Hh Ht _]. change MAX_QUEUE_SIZE with 4096 in *. unfold filled. rewrite Hp.
  replace (Z.to_nat (sq_pending q)) with (S (Z.to_nat (sq_pending q - 1))) by lia.
  rewrite <- cons_seq, fmap_cons, <- fmap_S_seq, <- list_fmap_compose. f_equal.
  - rewrite Z.add_0_r. apply Z.mod_small. lia.
  - apply list_fmap_ext. intros i x _. cbn. rewrite wadd_small by lia.
    rewrite Zplus_mod_idemp_l. f_equal. lia.
Qed.

Lemma fetch_entry_still q d w :
  exists w', w_mem w' = w_mem w /\
    (match checked_add 64 (sq_base q) (sq_head q * SQE_SIZE) with
     | Some gpa => lift (mem_read pm idle gpa 64)
     | None => ret None
     end) d w = Some (entry_in (w_mem w) q (sq_head q), d, w').
Proof.
  unfold entry_in. destruct (checked_add _ _ _) as [gpa|]; simpl; [|by exists w].
  exists (turn idle w). split; [done|]. unfold lift, mem_read. by destruct (mem_read_view pm gpa 64).
Qed.

Lemma io_loop_still fuel qid inst q reqs d w :
  sq_ok q -> sq_pending q < Z.of_nat fuel ->
  exists w', w_mem w' = w_mem w /\
    io_fetch_loop pm idle fuel qid inst q reqs d w =
      Some ((with_sq_head (sq_tail q) q,
             reqs ++ omap (fun slot => (fun sqe => request_of sqe qid (sq_cq_id q) (sq_instance q) inst) <$>
                                       entry_in (w_mem w) q slot) (filled q)), d, w').
Proof.
  revert q reqs w. induction fuel as [|fuel IH]; intros q reqs w Hok Hf.
  { pose proof (sq_pending_bound q Hok). lia. }
  cbn [io_fetch_loop]. destruct (Z.eqb_spec (sq_head q) (sq_tail q)) as [He|Hne].
  - exists w. split; [done|]. unfold filled, sq_pending. rewrite He, Z.sub_diag, Zmod_0_l. simpl.
    rewrite app_nil_r. destruct q. simpl in *. by subst.
  - destruct (bump_ok q Hok Hne) as [Hok' Hp].
    destruct (fetch_entry_still q d w) as (w1 & Hw1 & He1). unfold bind at 1. rewrite He1.
    unfold bind at 1, bump. destruct (Z.eqb_spec (sq_size q) 0); [destruct Hok; lia|]. cbn [ret].
    edestruct (IH (with_sq_head (wadd 16 (sq_head q) 1 mod sq_size q) q)) as (w2 & Hw2 & ->); [done|lia|].
    exists w2. split; [congruence|]. rewrite (slots_filled_step q) by done. rewrite Hw1. cbn [omap list_omap].
    unfold entry_in. cbn [with_sq_head sq_base sq_cq_id sq_instance sq_tail sq_size].
    by destruct (let* gpa := _ in _) as [sqe|]; cbn [fmap option_fmap option_map]; rewrite <- ?app_assoc.
Qed.

(** A doorbell hands the workers exactly the commands the driver queued,
    oldest first and each once: the readable entries from the head to the
    new tail, around the end of the ring, stamped with the queues' instances;
    and it leaves the ring empty. *)
Theorem io_doorbell_fifo hostile d w qid i q cq new_tail :
  nvme_reach hostile d -> io_queue_index qid = Some i -> sq_at (d_st d) i = Some q ->
  (let* j := io_queue_index (sq_cq_id q) in cq_at (d_st d) j) = Some cq ->
  0 <= new_tail < sq_size q ->
  exists w', w_mem w' = w_mem w /\
    io_sq_doorbell pm idle qid new_tail d w =
      Some (omap (fun slot => (fun sqe => request_of sqe qid (sq_cq_id q) (sq_instance q) (cq_instance cq)) <$>
                              entry_in (w_mem w) q slot) (filled (with_sq_tail new_tail q)),
            upd (set_io_sq i (Some (with_sq_head new_tail (with_sq_tail new_tail q)))) d, w').
Proof.
  intros Hd%nvme_reach_ok Hi Hq Hc Ht. pose proof (ok_io_sq _ _ (ok_st _ _ Hd) i q Hq) as Hok.
  pose proof (tail_ok q new_tail Hok Ht) as Hok'. pose proof (sq_pending_bound _ Hok').
  destruct (io_loop_still ADMIN_TURNS qid (cq_instance cq) (with_sq_tail new_tail q) [] d w) as (w' & Hw & He);
    [done|unfold ADMIN_TURNS; lia|].
  exists w'. split; [done|]. unfold io_sq_doorbell, bind at 1, get. rewrite Hi, Hq, Hc.
  destruct (Z.leb_spec (sq_size q) new_tail); [lia|]. unfold bind at 1. rewrite He. done.
Qed.

End submission.

(** ** I/O *)

Section io.
Context (pm : physmap.PhysMap) (g : guest).

(** A transfer at byte [off] of the namespace. *)
Definition inside (geo : Geometry) (iov : list SubMapping) (off : Z) : Prop :=
  0 <= off /\ off + iov_len iov <= total_blocks geo * block_size geo /\ iov_len iov <= MAX_XFER_BYTES /\
  Forall (in_page pm) iov.

Definition req_typed (req : IoRequest) : Prop :=
  uint 64 (r_slba req) /\ 1 <= r_nlb req <= 65536 /\ uint 64 (r_prp1 req) /\ uint 64 (r_prp2 req).

Lemma iovec_whole p1 p2 len w iov w' :
  uint 64 p1 -> uint 64 p2 -> 0 <= len < 2 ^ 63 -> prp_to_iovec pm g p1 p2 len w = (Some iov, w') ->
  iov_len iov = len /\ Forall (in_page pm) iov.
Proof.
  intros H1 H2 Hl He.
  destruct (iovec_loop_ok pm g (segments len) (walk_new p1 p2 len) [] w) as (_ & _ & Hr);
    [by apply walk_new_ok|apply left_new; lia|].
  unfold prp_to_iovec in He. rewrite He in Hr. destruct Hr as (vs & -> & Hsum & Hall). done.
Qed.

Lemma transfer_ext move move' req n off k k' w :
  uint 64 (r_prp1 req) -> uint 64 (r_prp2 req) -> 0 <= n < 2 ^ 63 ->
  (forall iov w, iov_len iov = n -> Forall (in_page pm) iov -> move iov off w = move' iov off w) ->
  (forall w, k w = k' w) ->
  transfer pm g move req n off k w = transfer pm g move' req n off k' w.
Proof.
  intros H1 H2 Hn Hm Hk. unfold transfer. destruct (prp_to_iovec pm g _ _ _ w) as [[iov|] w1] eqn:Hp; [|done].
  apply iovec_whole in Hp as [Hl Hf]; [|done..]. rewrite Hm by done.
  destruct (move' iov off w1) as [[m|] w2]; [|done]. by rewrite Hk.
Qed.

(** C28: a request reaches its namespace and nothing else. Whatever the
    guest puts in it and does to its PRP lists meanwhile, its outcome is the
    same for any two stores that agree on the transfers inside the
    namespace, of at most the advertised size, to pieces of mapped guest
    pages; and on a read-only namespace for any two that agree on reads. *)
Theorem io_inside_namespace req ro geo (B B' : IoBackend) w :
  req_typed req -> 0 <= block_size geo ->
  (forall iov off w, inside geo iov off -> @read_at B iov off w = @read_at B' iov off w) ->
  (ro = false -> forall iov off w, inside geo iov off -> @write_at B iov off w = @write_at B' iov off w) ->
  (forall w, @sync B w = @sync B' w) ->
  @process_io_request pm g B req ro geo w = @process_io_request pm g B' req ro geo w.
Proof.
  intros (Hs & Hn & H1 & H2) Hb Hr Hw Hsync. unfold process_io_request. destruct (negb _); [done|].
  unfold checked_mul, checked_add. destruct (Z.ltb_spec (r_nlb req * block_size geo) (2 ^ 64)); [|done].
  destruct (Z.ltb_spec MAX_XFER_BYTES (r_nlb req * block_size geo)); [done|].
  destruct (Z.ltb_spec (r_slba req * block_size geo) (2 ^ 64)); [|done].
  destruct (Z.ltb_spec (r_slba req + r_nlb req) (2 ^ 64)); [|done].
  destruct (Z.ltb_spec (total_blocks geo) (r_slba req + r_nlb req)); [done|].
  assert (Hin : forall iov, iov_len iov = r_nlb req * block_size geo -> Forall (in_page pm) iov ->
    inside geo iov (r_slba req * block_size geo)).
  { intros iov Hl Hf. unfold inside. rewrite Hl. unfold uint in Hs. split_and!; [nia|nia|lia|done]. }
  assert (Hbytes : 0 <= r_nlb req * block_size geo < 2 ^ 63).
  { split; [nia|]. change MAX_XFER_BYTES with 0x200000 in *. lia. }
  assert (Hsy : forall w, @synced B w = @synced B' w) by (intros w1; unfold synced; by rewrite Hsync).
  destruct (_ =? NVM_OPC_READ); [apply transfer_ext; auto|].
  destruct (_ =? NVM_OPC_WRITE).
  - destruct ro; [done|]. apply transfer_ext; auto. intros w1. destruct (r_fua req); [by rewrite Hsy|done].
  - destruct (_ =? NVM_OPC_FLUSH); [by rewrite Hsy|done].
Qed.

End io.

(** ** Identify tells the truth *)

Lemma put_at_length i l data : (i + length l <= length data)%nat -> length (put_at i l data) = length data.
Proof. intros Hl. unfold put_at. rewrite !length_app, length_take, length_drop. lia. Qed.

Lemma field_put l i data :
  (i + length l <= length data)%nat -> field (put_at i l data) i (length l) = le_val l.
Proof.
  intros Hl. unfold field, put_at. rewrite drop_app_ge by (rewrite length_take; lia).
  rewrite length_take. replace (i - (i `min` length data))%nat with 0%nat by lia.
  rewrite drop_0, take_app_le, take_ge by lia. done.
Qed.

(** A field outside the bytes written, before or after. *)
Lemma field_put_ne i l data at_ n :
  (i + length l <= length data)%nat -> (at_ + n <= i \/ i + length l <= at_)%nat ->
  field (put_at i l data) at_ n = field data at_ n.
Proof.
  intros Hl Hd. unfold field. f_equal. apply list_eq. intros k.
  destruct (decide (k < n)%nat) as [Hk|]; [|by rewrite !lookup_take_ge by lia].
  rewrite !lookup_take_lt, !lookup_drop by lia. unfold put_at. destruct Hd as [Hd|Hd].
  - rewrite lookup_app_l by (rewrite length_take; lia). by rewrite lookup_take_lt by lia.
  - rewrite lookup_app_r by (rewrite length_take; lia). rewrite length_take, lookup_app_r, lookup_drop by lia. f_equal. lia.
Qed.

Lemma padded_length n s : length (padded n s) = n.
Proof. unfold padded. rewrite length_take, length_app, length_replicate. lia. Qed.

(** A record filled in field by field. *)
Definition puts (ws : list (nat * list Z)) (data : list Z) : list Z := foldl (fun data w => put_at w.1 w.2 data) data ws.

Definition fits (size : nat) (w : nat * list Z) : Prop := (w.1 + length w.2 <= size)%nat.
Definition clear_of (w w' : nat * list Z) : Prop :=
  (w.1 + length w.2 <= w'.1 \/ w'.1 + length w'.2 <= w.1)%nat.

Lemma puts_length ws data : Forall (fits (length data)) ws -> length (puts ws data) = length data.
Proof.
  revert data. induction ws as [|[i l] ws IH]; intros data Hf; [done|]. apply Forall_cons_1 in Hf as [Hf Hfs].
  unfold puts. simpl. pose proof (put_at_length i l data Hf) as Hl. rewrite <- Hl. apply IH. by rewrite Hl.
Qed.

Lemma field_puts ws1 i l ws2 data ws n :
  ws = ws1 ++ (i, l) :: ws2 -> n = length l ->
  Forall (fits (length data)) ws -> Forall (clear_of (i, l)) ws2 -> field (puts ws data) i n = le_val l.
Proof.
  intros -> -> Hf Hc. apply Forall_app in Hf as [Hf1 [Hf Hf2]%Forall_cons_1]. unfold puts. rewrite foldl_app. simpl.
  fold (puts ws1 data). pose proof (puts_length ws1 data Hf1) as Hl. set (d1 := puts ws1 data) in *. clearbody d1.
  rewrite <- Hl in *. pose proof (put_at_length i l d1 Hf) as Hl1. pose proof (field_put l i d1 Hf) as Hfp.
  set (d2 := put_at i l d1) in *. clearbody d2. rewrite <- Hl1 in Hf2. clear Hf Hl Hl1 Hf1 d1.
  revert d2 Hf2 Hfp. induction Hc as [|[j m] ws Hcl Hc IH]; intros d Hf2 Hfp; [done|].
  apply Forall_cons_1 in Hf2 as [Hj Hf2]. simpl. apply IH; [by rewrite put_at_length|].
  rewrite field_put_ne; [done|done|]. destruct Hcl; simpl in *; lia.
Qed.

Definition ns_writes (total bs : Z) (ro : bool) : list (nat * list Z) :=
  [(0%nat, le_bytes 8 total); (8%nat, le_bytes 8 total); (16%nat, le_bytes 8 total)] ++
  (if ro then [(99%nat, [1])] else []) ++
  [(25%nat, [0]); (26%nat, [0]);
   (128%nat, le_bytes 4 (as_u 32 (Z.shiftl (Z.of_nat (msix.lowest_bit 32 0 bs)) 16)))].

Lemma ns_puts total bs ro : build_identify_namespace total bs ro = puts (ns_writes total bs ro) (zeros IDENT_NS_SIZE).
Proof. by destruct ro. Qed.

Ltac in_record :=
  repeat (apply Forall_cons; split); try apply Forall_nil; unfold fits, clear_of, IDENT_NS_SIZE, IDENT_CTRL_SIZE; cbn [fst snd];
  rewrite ?length_replicate, ?length_le_bytes, ?padded_length; simpl length; trivial; lia.

Lemma ns_blocks total bs ro : uint 64 total -> field (build_identify_namespace total bs ro) 0 8 = total.
Proof.
  intros Ht. rewrite ns_puts. transitivity (le_val (le_bytes 8 total)); [|by apply le_val_le_bytes].
  destruct ro; (eapply (field_puts []); [reflexivity|done|in_record..]).
Qed.

Lemma ns_lba_format total ro : field (build_identify_namespace total BLOCK_SIZE ro) 128 4 = 9 * 2 ^ 16.
Proof.
  rewrite ns_puts. transitivity (le_val (le_bytes 4 (9 * 2 ^ 16))); [|reflexivity].
  destruct ro.
  - eapply (field_puts (take 6 (ns_writes total BLOCK_SIZE true))); [reflexivity|done|in_record..].
  - eapply (field_puts (take 5 (ns_writes total BLOCK_SIZE false))); [reflexivity|done|in_record..].
Qed.

Definition ctrl_writes (serial model firmware : list Z) (nn mdts cntlid : Z) : list (nat * list Z) :=
  [(0%nat, le_bytes 2 PCI_VENDOR_ID); (2%nat, le_bytes 2 PCI_VENDOR_ID); (4%nat, padded 20 serial);
   (24%nat, padded 40 model); (64%nat, padded 8 firmware); (78%nat, le_bytes 2 cntlid); (77%nat, [mdts]);
   (256%nat, le_bytes 2 0); (512%nat, [Z.lor SQE_SIZE_LOG2 (as_u 8 (Z.shiftl SQE_SIZE_LOG2 4))]);
   (513%nat, [Z.lor CQE_SIZE_LOG2 (as_u 8 (Z.shiftl CQE_SIZE_LOG2 4))]); (516%nat, le_bytes 4 nn); (525%nat, [1])].

Lemma ctrl_puts serial model firmware nn mdts cntlid :
  build_identify_controller serial model firmware nn mdts cntlid =
  puts (ctrl_writes serial model firmware nn mdts cntlid) (zeros IDENT_CTRL_SIZE).
Proof. reflexivity. Qed.

Lemma ctrl_mdts serial model firmware nn mdts cntlid :
  field (build_identify_controller serial model firmware nn mdts cntlid) 77 1 = mdts.
Proof.
  rewrite ctrl_puts. transitivity (le_val [mdts]); [|simpl; lia].
  eapply (field_puts (take 6 (ctrl_writes serial model firmware nn mdts cntlid))); [reflexivity|done|in_record..].
Qed.

(** What Identify advertises is what the controller does: with the
    number of blocks, the block size and the largest transfer a driver reads
    there, a read of namespace 1 is carried out exactly when it lies in the
    namespace and is no larger, at the bytes those numbers say; every other
    is refused without touching anything. *)
Theorem identify_truthful pm g (B : IoBackend) id file_len ro req w
    (geo := geometry_of file_len) (ns := ns_ident (nvme_build id file_len ro))
    (ctrl := ctrl_ident (nvme_build id file_len ro))
    (lba := 2 ^ bits (field ns 128 4) 16 0xFF) (most := 2 ^ field ctrl 77 1 * 4096) :
  uint 64 file_len -> req_typed req -> r_nsid req = 1 -> r_opcode req = NVM_OPC_READ ->
  process_io_request pm g req ro geo w =
  if (r_slba req + r_nlb req <=? field ns 0 8) && (r_nlb req * lba <=? most)
  then transfer pm g read_at req (r_nlb req * lba) (r_slba req * lba) (fun w => (SC_SUCCESS, w)) w
  else (Z.lor SC_INVALID_FIELD SC_DNR, w).
Proof.
  intros Hlen (Hs & Hn & _) Hid Hop. unfold uint in *.
  assert (Hdiv : 0 <= file_len / BLOCK_SIZE < 2 ^ 55).
  { change BLOCK_SIZE with 512. split; [apply Z.div_pos; lia|apply Z.div_lt_upper_bound; lia]. }
  subst lba most ns ctrl geo. unfold nvme_build, ns_ident_of, ctrl_ident_of. cbn [ns_ident ctrl_ident nvme_new].
  rewrite ns_lba_format, ctrl_mdts, ns_blocks by (cbn [total_blocks geometry_of]; unfold uint; lia).
  change (2 ^ bits (9 * 2 ^ 16) 16 0xFF) with 512. change (2 ^ MDTS_LOG2_PAGES * 4096) with 0x200000.
  unfold process_io_request. rewrite Hid, Hop. cbn [Z.eqb Pos.eqb negb block_size total_blocks geometry_of].
  change BLOCK_SIZE with 512 in *. change MAX_XFER_BYTES with 0x200000. unfold checked_mul, checked_add.
  destruct (Z.ltb_spec (r_nlb req * 512) (2 ^ 64)); [|lia].
  destruct (Z.leb_spec (r_slba req + r_nlb req) (file_len / 512)); cbn [andb].
  - destruct (Z.ltb_spec 0x200000 (r_nlb req * 512)), (Z.leb_spec (r_nlb req * 512) 0x200000); try lia; [done|].
    destruct (Z.ltb_spec (r_slba req * 512) (2 ^ 64)); [|lia].
    destruct (Z.ltb_spec (r_slba req + r_nlb req) (2 ^ 64)); [|lia].
    destruct (Z.ltb_spec (file_len / 512) (r_slba req + r_nlb req)); [lia|done].
  - destruct (Z.ltb_spec 0x200000 (r_nlb req * 512)); [done|].
    destruct (Z.ltb_spec (r_slba req * 512) (2 ^ 64)); [|done].
    destruct (Z.ltb_spec (r_slba req + r_nlb req) (2 ^ 64)); [|done].
    destruct (Z.ltb_spec (file_len / 512) (r_slba req + r_nlb req)); [done|lia].
Qed.

(** The checks of a payload do not match those of Create I/O Submission
    Queue, as their comment says: an I/O queue that posts to the admin
    completion queue passes, and no such queue can be created. *)
Theorem check_admits_admin_cq pm p1 cdw10 cdw11 d w r d' w' :
  bits cdw11 16 0xFFFF = 0 -> admin_create_io_sq pm p1 cdw10 cdw11 d w = Some (r, d', w') ->
  (r.1 <> SC_SUCCESS /\ d' = d) /\
  exists mig q, check_nvme_state mig = true /\ mg_io_sqs mig !! 0%nat = Some (Some q) /\ wsq_cq_id q = bits cdw11 16 0xFFFF.
Proof.
  intros Hc He. split.
  - revert He. unfold admin_create_io_sq, bind at 1, get. rewrite Hc. repeat case_match; intros [= <- <- <-]; by split.
  - exists (mkMig 1 1 0 0x1000 0x2000 None (Some (mkWCQ 0x2000 4 0 0 true 0 true)) [Some (mkWSQ 0x3000 4 0 0 0)] [] 1
      (pcidev.mkMigPci 0 []) (msix.mkState false false [] [])), (mkWSQ 0x3000 4 0 0 0). by rewrite Hc.
Qed.

(** ** A driver at work *)

Definition disk_pm : physmap.PhysMap :=
  (physmap.add_ram physmap.physmap_new 0 0x10000 (Ok tt) (physmap_inv.answers_at 0x10000 0x20000)).1.

Definition put_all (writes : list (Z * list Z)) (m : hostmem) : hostmem :=
  foldl (fun m '(a, l) => poke_range m a l) m writes.

(** Admin commands that create completion queue 1 and submission queue 1, of
    four entries each, and two commands in the latter: read block 0, read
    block 9 into another page. *)
Definition driver_mem : hostmem := put_all
  [(0x1000, [5; 0; 1; 0]); (0x1018, [0; 0x30]); (0x1028, [1; 0; 3; 0; 3]);
   (0x1040, [1; 0; 2; 0]); (0x1058, [0; 0x40]); (0x1068, [1; 0; 3; 0; 1; 0; 1]);
   (0x4000, [2; 0; 7; 0; 1]); (0x4018, [0; 0x50]);
   (0x4040, [2; 0; 8; 0; 1]); (0x4058, [0; 0x60]); (0x4068, [9])] ∅.

Definition drive (ops : list (Z * list Z)) (dw : dev * world) : dev * world :=
  foldl (fun '(d, w) '(offset, l) =>
    match bar0_write disk_pm idle (fun _ => true) (fun _ => true) offset (mkWriteOp l (Z.of_nat (length l))) d w with
    | Some (_, d, w) => (d, w)
    | None => (d, w)
    end) dw ops.

Lemma drive_reach hostile ops dw : nvme_reach hostile dw.1 -> nvme_reach hostile (drive ops dw).1.
Proof.
  revert dw. induction ops as [|[offset l] ops IH]; intros [d w] Hd; [done|]. apply IH.
  cbn [fst] in *. destruct (bar0_write _ _ _ _ _ _ _ _) as [[[reqs d'] w']|] eqn:He; [|done].
  by eapply nr_bar0.
Qed.

Definition idle_disk : dev := mkDev (nvme_new [] []) (msix.msix_new NVME_MSIX_COUNT) [].

(** Set up the admin queues, enable, and ring the admin doorbell. *)
Definition bring_up : list (Z * list Z) :=
  [(REG_AQA, [3; 0; 3; 0]); (REG_ASQ, [0; 0x10; 0; 0; 0; 0; 0; 0]); (REG_ACQ, [0; 0x20; 0; 0; 0; 0; 0; 0]);
   (REG_CC, [1; 0; 0x46; 0]); (0x1000, [2; 0; 0; 0])].

Definition live : dev * world := drive bring_up (idle_disk, mkWorld driver_mem 0).
Definition disk : dev := live.1.

Lemma disk_reach : nvme_reach false disk.
Proof. apply drive_reach. cbn [fst]. unfold idle_disk. apply nr_new. Qed.

Lemma nvme_never_panics_witness :
  is_Some (bar0_write disk_pm idle (fun _ => true) (fun _ => true) 0x1008 (mkWriteOp [3; 0; 0; 0] 4) disk live.2).
Proof.
  destruct (nvme_never_panics false disk disk_pm idle (fun _ => true) (fun _ => true) live.2) as [H _];
    [exact disk_reach|]. apply H.
Defined.


Definition hdr0 : pcidev.DeviceState := Eval vm_compute in default (pcidev.device_new (pcidev.mkIdent 0 0 0 0 0 0 0 0)) nvme_header.
Definition hdr1 : pcidev.DeviceState := Eval vm_compute in default hdr0 (pcidev.cfg_write hdr0 0x10 4 0xC0000000).

Lemma hdr0_reach : header_reach hdr0.
Proof. apply he_new. vm_compute. reflexivity. Qed.
Lemma hdr1_reach : header_reach hdr1.
Proof. apply (he_write hdr0 0x10 4 0xC0000000); [exact hdr0_reach|done|vm_compute; reflexivity]. Qed.

Definition disk_wire : NvmeMigrateState :=
  Eval vm_compute in default (mkMig 0 0 0 0 0 None None [] [] 0 (pcidev.mkMigPci 0 []) (msix.mkState false false [] []))
    (export_migrate_state hdr1 disk).

Lemma nvme_export_import_witness :
  mg_io_sqs disk_wire !! 0%nat = Some (Some (mkWSQ 0x4000 4 0 0 1)) /\
  exists h' d', restore_migrate_state disk_wire hdr0 idle_disk = Some (h', d', true) /\
    sq_at (d_st d') 0 = Some (mkSQ 0x4000 4 0 0 1 1) /\ bar.reg_read (pcidev.bars h') 0 = Some 0xC0000000.
Proof.
  split; [reflexivity|].
  destruct (nvme_export_import hdr0 idle_disk hdr1 disk disk_wire) as (h' & d' & Hr & Hq & _ & _ & _ & Hb & _).
  - unfold idle_disk. apply nr_new.
  - exact disk_reach.
  - exact hdr0_reach.
  - exact hdr1_reach.
  - vm_compute. reflexivity.
  - exists h', d'. split; [exact Hr|]. split; [rewrite (proj1 (relabelled_at _ _ _ 0 Hq)); vm_compute; reflexivity|].
    rewrite Hb. vm_compute. reflexivity.
Defined.

Lemma io_doorbell_fifo_witness :
  exists w', w_mem w' = w_mem live.2 /\
    exists d', io_sq_doorbell disk_pm idle 1 2 disk live.2 =
      Some ([mkReq 2 1 0 1 0x5000 0 1 7 1 4 3 false; mkReq 2 1 9 1 0x6000 0 1 8 1 4 3 false], d', w').
Proof.
  destruct (io_doorbell_fifo disk_pm false disk live.2 1 0 (mkSQ 0x4000 4 0 0 1 4) (mkCQ 0x3000 4 0 0 true 0 true 3) 2)
    as (w' & Hm & He); [exact disk_reach|reflexivity|vm_compute; reflexivity|vm_compute; reflexivity|simpl; lia|].
  exists w'. split; [exact Hm|]. eexists. rewrite He. f_equal.
Defined.

(** Stores that differ past the end of a namespace of eight blocks. *)
Definition store (past : Z) : IoBackend := {|
  read_at := fun iov off w => (Some (if off + iov_len iov <=? 4096 then iov_len iov else past), w);
  write_at := fun iov off w => (Some past, w);
  sync := fun w => (Some tt, w)
|}.

Lemma io_inside_namespace_witness :
  @process_io_request disk_pm idle (store 1) (mkReq 2 1 0 1 0x5000 0 1 7 1 4 3 false) true (mkGeometry 512 8) (mkWorld ∅ 0) =
  @process_io_request disk_pm idle (store 2) (mkReq 2 1 0 1 0x5000 0 1 7 1 4 3 false) true (mkGeometry 512 8) (mkWorld ∅ 0) /\
  (@process_io_request disk_pm idle (store 2) (mkReq 2 1 0 1 0x5000 0 1 7 1 4 3 false) true (mkGeometry 512 8) (mkWorld ∅ 0)).1 =
    SC_SUCCESS.
Proof.
  split; [|vm_compute; reflexivity].
  apply (io_inside_namespace disk_pm idle (mkReq 2 1 0 1 0x5000 0 1 7 1 4 3 false) true (mkGeometry 512 8)).
  - unfold req_typed, uint. simpl. lia.
  - simpl. lia.
  - intros iov off w (H0 & H1 & _ & Hf). cbn [read_at store total_blocks block_size] in *.
    rewrite (proj2 (Z.leb_le (off + iov_len iov) 4096)) by lia. reflexivity.
  - intros H. discriminate H.
  - reflexivity.
Defined.

Lemma identify_truthful_witness :
  process_io_request (H := store 1) disk_pm idle (mkReq 2 1 9 1 0x5000 0 1 7 1 4 3 false) true (geometry_of 4096) (mkWorld ∅ 0) =
    (Z.lor SC_INVALID_FIELD SC_DNR, mkWorld ∅ 0).
Proof.
  rewrite (identify_truthful disk_pm idle (store 1) 0 4096 true (mkReq 2 1 9 1 0x5000 0 1 7 1 4 3 false) (mkWorld ∅ 0)).
  - vm_compute. reflexivity.
  - unfold uint. lia.
  - unfold req_typed, uint. simpl. lia.
  - reflexivity.
  - reflexivity.
Defined.

Lemma check_admits_admin_cq_witness :
  exists mig q, check_nvme_state mig = true /\ mg_io_sqs mig !! 0%nat = Some (Some q) /\ wsq_cq_id q = 0.
Proof.
  destruct (check_admits_admin_cq disk_pm 0x7000 (2 + 3 * 2 ^ 16) 1 disk live.2
    (Z.lor SC_CQ_INVALID SC_DNR, 0) disk live.2) as [_ H]; [reflexivity|vm_compute; reflexivity|exact H].
Defined.

End nvme_thm.
