(* ===== verification/Quiesce.v ===== *)
(** * The pause and drain gate of devices with worker threads

    [Module quiesce] models [QuiesceGate] of vmm-devices/src/quiesce.rs: the
    pause flag, the drain count, the count of running workers, the mutex,
    and for each worker where it stands in [park_if_paused]. Every load,
    store and lock operation that another thread can see is a step of its
    own; [is_paused] is two loads. A condition variable may wake its waiter
    at any time, so notifications need not be modelled. *)

From S2P Require Import Prelude.

Module quiesce.

(** ** State *)

(** Where a worker stands. *)
Inductive pc : Type :=
| Run        (** outside the gate *)
| Gone       (** the thread has returned *)
| First      (** about to load [paused], without the lock *)
| First2     (** found it clear, about to load [drains] *)
| WantLock   (** found the gate held, waits for the lock *)
| Entered    (** has the lock, about to leave [active] *)
| Held       (** left [active], about to load [paused] *)
| Held2      (** found it clear, about to load [drains] *)
| Sleep      (** waits on the condition variable *)
| Leave      (** found the gate open, about to join [active] *)
| Unlock.    (** joined it, about to drop the guard *)

#[global] Instance pc_eq_dec : EqDecision pc.
Proof. solve_decision. Defined.

Record QuiesceGate : Type := mkGate {
  paused : bool;
  drains : Z;
  active : Z;
  lock : option nat;
  pcs : list pc
}.

Definition gate_new (workers : nat) : QuiesceGate :=
  mkGate false 0 (Z.of_nat workers) None (replicate workers Run).

Definition is_paused (g : QuiesceGate) : bool := paused g || negb (drains g =? 0).
Definition is_quiesced (g : QuiesceGate) : bool := active g =? 0.

Definition set_pc (i : nat) (p : pc) (g : QuiesceGate) : QuiesceGate :=
  mkGate (paused g) (drains g) (active g) (lock g) (<[i := p]> (pcs g)).
Definition set_active (n : Z) (g : QuiesceGate) : QuiesceGate :=
  mkGate (paused g) (drains g) n (lock g) (pcs g).
Definition set_lock (o : option nat) (g : QuiesceGate) : QuiesceGate :=
  mkGate (paused g) (drains g) (active g) o (pcs g).

(** ** The callers that are not workers *)

Definition pause (g : QuiesceGate) : QuiesceGate :=
  mkGate true (drains g) (active g) (lock g) (pcs g).

(** Under the lock: not while a worker has it. *)
Definition resume (g : QuiesceGate) : option QuiesceGate :=
  match lock g with
  | Some _ => None
  | None => Some (mkGate false (drains g) (active g) None (pcs g))
  end.

Definition drain_scope (g : QuiesceGate) : QuiesceGate :=
  mkGate (paused g) (wadd 64 (drains g) 1) (active g) (lock g) (pcs g).

(** [drop] of a [DrainScope]. *)
Definition drop_scope (g : QuiesceGate) : option QuiesceGate :=
  match lock g with
  | Some _ => None
  | None => Some (mkGate (paused g) (wsub 64 (drains g) 1) (active g) None (pcs g))
  end.

(** What [wait_quiesced] returns, at the moment it has the lock and its
    wait is over; [None] while a worker has it. *)
Definition wait_quiesced (g : QuiesceGate) : option bool :=
  match lock g with
  | Some _ => None
  | None => Some (active g =? 0)
  end.

(** ** [park_if_paused], one step *)

Definition park_step (i : nat) (p : pc) (g : QuiesceGate) : option QuiesceGate :=
  match p with
  | Run => Some (set_pc i First g)
  | Gone => None
  | First => Some (set_pc i (if paused g then WantLock else First2) g)
  | First2 => Some (set_pc i (if drains g =? 0 then Run else WantLock) g)
  | WantLock =>
      match lock g with
      | Some _ => None
      | None => Some (set_lock (Some i) (set_pc i Entered g))
      end
  | Entered => Some (set_active (wsub 64 (active g) 1) (set_pc i Held g))
  | Held => if paused g then Some (set_lock None (set_pc i Sleep g)) else Some (set_pc i Held2 g)
  | Held2 => if drains g =? 0 then Some (set_pc i Leave g) else Some (set_lock None (set_pc i Sleep g))
  | Sleep =>
      match lock g with
      | Some _ => None
      | None => Some (set_lock (Some i) (set_pc i Held g))
      end
  | Leave => Some (set_active (wadd 64 (active g) 1) (set_pc i Unlock g))
  | Unlock => Some (set_lock None (set_pc i Run g))
  end.

Inductive event : Type :=
| EWorker (i : nat)
| EExit (i : nat)
| EPause
| EResume
| EDrain
| EDrop.

(** A step of the system; [None] when it is blocked, or no scope is left to
    drop. *)
Definition gate_step (e : event) (g : QuiesceGate) : option QuiesceGate :=
  match e with
  | EWorker i => let* p := pcs g !! i in park_step i p g
  | EExit i =>
      match pcs g !! i with
      | Some Run => Some (set_pc i Gone g)
      | _ => None
      end
  | EPause => Some (pause g)
  | EResume => resume g
  | EDrain => if 2 ^ 64 <=? drains g + 1 then None else Some (drain_scope g)
  | EDrop => if drains g =? 0 then None else drop_scope g
  end.

Fixpoint gate_run (es : list event) (g : QuiesceGate) : option QuiesceGate :=
  match es with
  | [] => Some g
  | e :: es => let* g := gate_step e g in gate_run es g
  end.

(** ** The invariant *)

(** Whether a worker counts as running, and whether it has the lock. *)
Definition counted (p : pc) : bool :=
  match p with Held | Held2 | Sleep | Leave => false | _ => true end.
Definition holds (p : pc) : bool :=
  match p with Entered | Held | Held2 | Leave | Unlock => true | _ => false end.

Definition running (ps : list pc) : nat := length (filter (fun p => counted p = true) ps).

Record gate_ok (g : QuiesceGate) : Prop := mkGateOk {
  go_size : Z.of_nat (length (pcs g)) < 2 ^ 63;
  go_active : active g = Z.of_nat (running (pcs g));
  go_drains : 0 <= drains g < 2 ^ 64;
  go_lock : forall i p, pcs g !! i = Some p -> holds p = true -> lock g = Some i;
  go_owner : forall i, lock g = Some i -> exists p, pcs g !! i = Some p /\ holds p = true
}.

Lemma running_insert ps i p q :
  ps !! i = Some p ->
  Z.of_nat (running (<[i := q]> ps)) =
  Z.of_nat (running ps) + (if counted q then 1 else 0) - (if counted p then 1 else 0).
Proof.
  intros Hi. pose proof (lookup_lt_Some _ _ _ Hi) as Hl.
  rewrite <- (take_drop_middle ps i p Hi) at 2. rewrite insert_take_drop by done. unfold running.
  rewrite !filter_app, !length_app, !filter_cons. repeat case_decide; destruct (counted p), (counted q); simpl; try done; lia.
Qed.

Lemma running_le ps : (running ps <= length ps)%nat.
Proof. apply length_filter. Qed.

Lemma gate_new_ok workers : Z.of_nat workers < 2 ^ 63 -> gate_ok (gate_new workers).
Proof.
  intros Hw. split; simpl; rewrite ?length_replicate; try done.
  - f_equal. unfold running. induction workers as [|n IH]; [done|]. simpl. rewrite <- IH by lia. done.
  - intros i p [-> _]%lookup_replicate. done.
Qed.

(** A worker moves, with what that does to the lock and the count. *)
Lemma gate_ok_move g i p q n o :
  gate_ok g -> pcs g !! i = Some p ->
  n = active g + (if counted q then 1 else 0) - (if counted p then 1 else 0) ->
  o = (if holds q then Some i else if holds p then None else lock g) ->
  (holds q = true -> holds p = false -> lock g = None) ->
  gate_ok (mkGate (paused g) (drains g) n o (<[i := q]> (pcs g))).
Proof.
  intros [Hs Ha Hd Hl Ho] Hi -> -> Hacq. pose proof (lookup_lt_Some _ _ _ Hi) as Hlt.
  split; simpl; [by rewrite length_insert| |done| |].
  - rewrite (running_insert _ i p) by done. lia.
  - intros j r Hj Hr. destruct (decide (i = j)) as [<-|Hne].
    + rewrite list_lookup_insert_eq in Hj by done. injection Hj as ->. by rewrite Hr.
    + rewrite list_lookup_insert_ne in Hj by done. specialize (Hl j r Hj Hr) as Hlj.
      assert (holds p = false) as Hp by (destruct (holds p) eqn:Hp; [rewrite (Hl i p Hi Hp) in Hlj; congruence|done]).
      rewrite Hp. destruct (holds q); [by rewrite Hacq in Hlj|done].
  - intros j Hj. destruct (holds q) eqn:Hq.
    + injection Hj as <-. exists q. by rewrite list_lookup_insert_eq.
    + destruct (holds p) eqn:Hp; [done|]. destruct (Ho j Hj) as (r & Hr & Hh). exists r.
      rewrite list_lookup_insert_ne; [done|]. intros ->. congruence.
Qed.

(** ** Steps keep it *)

Lemma active_small g : gate_ok g -> 0 <= active g < 2 ^ 63.
Proof. intros [Hs Ha _ _ _]. pose proof (running_le (pcs g)). lia. Qed.

Lemma active_pos g i p : gate_ok g -> pcs g !! i = Some p -> counted p = true -> 1 <= active g.
Proof.
  intros [_ -> _ _ _] Hi Hc. pose proof (running_insert (pcs g) i p Sleep Hi) as H. rewrite Hc in H. simpl in H. lia.
Qed.

Lemma park_ok g i p g' : gate_ok g -> pcs g !! i = Some p -> park_step i p g = Some g' -> gate_ok g'.
Proof.
  intros Hok Hi Hs. pose proof (active_small g Hok) as Ha.
  assert (Hp : counted p = true -> 1 <= active g) by (by apply active_pos with i).
  assert (Hlk : holds p = true -> lock g = Some i) by (by apply (go_lock g Hok)).
  destruct p; simpl in Hs; repeat case_match; simplify_eq; simpl in *;
    apply (gate_ok_move g i _ _ _ _ Hok Hi); simpl;
    rewrite ?wadd_small, ?wsub_small by (try specialize (Hp eq_refl); lia);
    first [done | lia | by apply Hlk | by rewrite Hlk | by case_match | idtac].
Qed.

Lemma gate_step_ok e g g' : gate_ok g -> gate_step e g = Some g' -> gate_ok g'.
Proof.
  intros Hok Hs. pose proof Hok as [Hz Ha Hd Hl Ho].
  destruct e as [i|i| | | |]; simpl in Hs.
  - destruct (pcs g !! i) as [p|] eqn:Hi; [|done]. by eapply park_ok.
  - destruct (pcs g !! i) as [[]|] eqn:Hi; simplify_eq. by apply (gate_ok_move g i Run Gone _ _ Hok Hi); simpl; try lia.
  - simplify_eq. by split.
  - unfold resume in Hs. destruct (lock g) eqn:El; simplify_eq. by split.
  - destruct (Z.leb_spec (2 ^ 64) (drains g + 1)); simplify_eq.
    split; simpl; try done. rewrite wadd_small by lia. lia.
  - destruct (Z.eqb_spec (drains g) 0); [done|]. unfold drop_scope in Hs. destruct (lock g) eqn:El; simplify_eq.
    split; simpl; try done. rewrite wsub_small by lia. lia.
Qed.

Lemma gate_run_ok es g g' : gate_ok g -> gate_run es g = Some g' -> gate_ok g'.
Proof.
  revert g. induction es as [|e es IH]; intros g Hok Hr; simpl in Hr; [by simplify_eq|].
  destruct (gate_step e g) as [g1|] eqn:Hs; [|done]. eapply IH, Hr. by eapply gate_step_ok.
Qed.

(** ** Once quiet, quiet while somebody holds the gate *)

Definition parked (p : pc) : bool :=
  match p with Held | Held2 | Sleep => true | _ => false end.

(** A worker that found [paused] clear is kept by a drain, and nobody can
    end a drain while it has the lock. *)
Record closed (g : QuiesceGate) : Prop := mkClosed {
  cl_ok : gate_ok g;
  cl_parked : forall i p, pcs g !! i = Some p -> parked p = true;
  cl_drain : forall i, pcs g !! i = Some Held2 -> drains g <> 0
}.

Lemma quiesced_parked g :
  gate_ok g -> wait_quiesced g = Some true -> forall i p, pcs g !! i = Some p -> p = Sleep.
Proof.
  unfold wait_quiesced. intros Hok Hw i p Hi. destruct (lock g) eqn:Hl; [done|]. injection Hw as Hz%Z.eqb_eq.
  destruct (counted p) eqn:Hc; [pose proof (active_pos g i p Hok Hi Hc); lia|].
  destruct (holds p) eqn:Hh; [by rewrite (go_lock g Hok i p Hi Hh) in Hl|]. by destruct p.
Qed.

Lemma quiesced_closed g : gate_ok g -> wait_quiesced g = Some true -> closed g.
Proof.
  intros Hok Hw. pose proof (quiesced_parked g Hok Hw) as Hq. split; [done|..].
  - intros i p Hi. by rewrite (Hq i p Hi).
  - intros i Hi. by apply Hq in Hi.
Qed.

Lemma closed_move g i p q o :
  closed g -> pcs g !! i = Some p -> parked q = true -> (q = Held2 -> drains g <> 0) ->
  gate_ok (mkGate (paused g) (drains g) (active g) o (<[i := q]> (pcs g))) ->
  closed (mkGate (paused g) (drains g) (active g) o (<[i := q]> (pcs g))).
Proof.
  intros [_ Hp Hd] Hi Hq H2 Hok. pose proof (lookup_lt_Some _ _ _ Hi) as Hl. split; simpl; [done|..].
  - intros j r. destruct (decide (i = j)) as [<-|]; [rewrite list_lookup_insert_eq by done; by intros [= <-]|].
    rewrite list_lookup_insert_ne by done. apply Hp.
  - intros j. destruct (decide (i = j)) as [<-|]; [rewrite list_lookup_insert_eq by done; intros [= ->]; by apply H2|].
    rewrite list_lookup_insert_ne by done. apply Hd.
Qed.

Lemma closed_step e g g' : closed g -> is_paused g = true -> gate_step e g = Some g' -> closed g'.
Proof.
  intros Hc Hp Hs. pose proof Hc as [Hok Hpk Hdr]. pose proof (gate_step_ok e g g' Hok Hs) as Hok'.
  assert (Hfree : lock g = None -> forall i, pcs g !! i <> Some Held2).
  { intros Hl i Hi. by rewrite (go_lock g Hok i Held2 Hi eq_refl) in Hl. }
  destruct e as [i|i| | | |]; simpl in Hs.
  - destruct (pcs g !! i) as [p|] eqn:Hi; [|done]. pose proof (Hpk i p Hi) as Hk.
    destruct p; try done; simpl in Hs.
    + destruct (paused g) eqn:Hps; simplify_eq; apply (closed_move g i _ _ _ Hc Hi); try done.
      unfold is_paused in Hp. rewrite Hps in Hp. intros _. by apply negb_true_iff, Z.eqb_neq in Hp.
    + destruct (Z.eqb_spec (drains g) 0); [by destruct (Hdr i Hi)|]. simplify_eq. by apply (closed_move g i _ _ _ Hc Hi).
    + destruct (lock g); simplify_eq. by apply (closed_move g i _ _ _ Hc Hi).
  - destruct (pcs g !! i) as [[]|] eqn:Hi; simplify_eq. by apply Hpk in Hi.
  - simplify_eq. by split.
  - unfold resume in Hs. destruct (lock g) eqn:Hl; simplify_eq. split; simpl; [done|done|]. intros i Hi. by destruct (Hfree eq_refl i).
  - destruct (Z.leb_spec (2 ^ 64) (drains g + 1)); simplify_eq. pose proof (go_drains g Hok).
    split; simpl; [done|done|]. rewrite wadd_small by lia. lia.
  - destruct (Z.eqb_spec (drains g) 0); [done|]. unfold drop_scope in Hs. destruct (lock g) eqn:Hl; simplify_eq.
    split; simpl; [done|done|]. intros i Hi. by destruct (Hfree eq_refl i).
Qed.

Lemma closed_run es g g' :
  closed g -> gate_run es g = Some g' ->
  (forall es1 g1, es1 `prefix_of` es -> gate_run es1 g = Some g1 -> is_paused g1 = true) -> closed g'.
Proof.
  revert g. induction es as [|e es IH]; intros g Hc Hr Hp; simpl in Hr; [by simplify_eq|].
  destruct (gate_step e g) as [g1|] eqn:Hs; [|done]. apply (IH g1); [|done|].
  - eapply closed_step; [done| |done]. apply (Hp []); [apply prefix_nil|done].
  - intros es1 g2 Hpre Hr2. apply (Hp (e :: es1)); [by apply prefix_cons|]. simpl. by rewrite Hs.
Qed.

(** C16: when [wait_quiesced] returns true under a pause or a drain, every
    worker is parked, and none leaves the gate before the last holder lets
    go: not for pauses and drains that others take or end meanwhile, spurious
    wake-ups, or the two loads of [is_paused] falling apart. *)
Theorem gate_keeps_workers workers es0 g es g' :
  Z.of_nat workers < 2 ^ 63 -> gate_run es0 (gate_new workers) = Some g ->
  wait_quiesced g = Some true ->
  gate_run es g = Some g' ->
  (forall es1 g1, es1 `prefix_of` es -> gate_run es1 g = Some g1 -> is_paused g1 = true) ->
  Forall (fun p => parked p = true) (pcs g').
Proof.
  intros Hw H0 Hq Hr Hp. pose proof (gate_run_ok _ _ _ (gate_new_ok workers Hw) H0) as Hok.
  apply Forall_lookup_2. apply (cl_parked g' (closed_run es g g' (quiesced_closed g Hok Hq) Hr Hp)).
Qed.

Lemma paused_run es g g' :
  paused g = true -> EResume ∉ es -> gate_run es g = Some g' -> paused g' = true.
Proof.
  revert g. induction es as [|e es IH]; intros g Hp Hn Hr; simpl in Hr; [by simplify_eq|].
  apply not_elem_of_cons in Hn as [He Hn]. destruct (gate_step e g) as [g1|] eqn:Hs; [|done].
  apply (IH g1); [|done|done]. destruct e; simpl in Hs; unfold drop_scope in Hs; repeat case_match; simplify_eq; try done.
  match goal with H : park_step _ ?p _ = _ |- _ => destruct p end; simpl in *; repeat case_match; by simplify_eq.
Qed.

(** Only the control plane ends its pause: whatever drains a guest
    starts and ends with device resets, the workers that stopped for a
    migration stay parked until [resume]. *)
Theorem pause_survives_resets workers es0 g es g' :
  Z.of_nat workers < 2 ^ 63 -> gate_run es0 (gate_new workers) = Some g ->
  paused g = true -> wait_quiesced g = Some true ->
  EResume ∉ es -> gate_run es g = Some g' ->
  paused g' = true /\ Forall (fun p => parked p = true) (pcs g').
Proof.
  intros Hw H0 Hp Hq Hn Hr. split; [by eapply paused_run|].
  pose proof (gate_run_ok _ _ _ (gate_new_ok workers Hw) H0) as Hok. apply Forall_lookup_2.
  apply (cl_parked g' (closed_run es g g' (quiesced_closed g Hok Hq) Hr ltac:(
    intros es1 g1 [k ->] Hr1; unfold is_paused; rewrite (paused_run es1 g g1); [done|done|set_solver|done]))).
Qed.

(** ** A held gate fills up *)

(** Steps a worker has left before it sleeps, while the gate is held. *)
Definition rank (g : QuiesceGate) (p : pc) : nat :=
  match p with
  | Sleep | Gone => 0
  | Held2 => if drains g =? 0 then 11 else 2
  | Held => 3
  | Entered => 4
  | WantLock => 5
  | First2 => if drains g =? 0 then 9 else 6
  | First => 7
  | Run => 8
  | Unlock => 9
  | Leave => 10
  end.

Definition work (g : QuiesceGate) : nat := sum_list_with (rank g) (pcs g).

(** Steps taken by a worker that was asleep: a wake-up of the condition
    variable nobody asked for, since only [resume] and the end of a drain
    notify it. *)
Definition wakes_one (e : event) (g : QuiesceGate) : nat :=
  match e with
  | EWorker i => match pcs g !! i with Some Sleep => 1 | _ => 0 end
  | _ => 0
  end.

Fixpoint wakes (es : list event) (g : QuiesceGate) : nat :=
  match es with
  | [] => 0
  | e :: es => wakes_one e g + match gate_step e g with Some g' => wakes es g' | None => 0 end
  end.

(** Behind a held gate every step comes closer to sleep, but for a wake-up,
    which costs four. *)
Lemma worker_step_work g i g' :
  is_paused g = true -> gate_step (EWorker i) g = Some g' ->
  is_paused g' = true /\ (1 + work g' <= work g + 4 * wakes_one (EWorker i) g)%nat /\
  (forall j, pcs g' !! j = Some Gone -> pcs g !! j = Some Gone).
Proof.
  intros Hp He. cbn [gate_step] in He. unfold wakes_one. destruct (pcs g !! i) as [p|] eqn:Hi; [|done].
  cbn [mbind option_bind] in He.
  assert (Hgone : forall q j, q <> Gone -> <[i := q]> (pcs g) !! j = Some Gone -> pcs g !! j = Some Gone).
  { intros q j Hq. destruct (decide (i = j)) as [<-|]; [|by rewrite list_lookup_insert_ne].
    rewrite list_lookup_insert_eq by (by eapply lookup_lt_Some). congruence. }
  assert (Hd : paused g = false -> (drains g =? 0) = false).
  { intros Hf. unfold is_paused in Hp. rewrite Hf in Hp. by apply negb_true_iff in Hp. }
  assert (Hw : forall q b n o, (work (mkGate b (drains g) n o (<[i := q]> (pcs g))) + rank g p = work g + rank g q)%nat)
    by (intros q b n o; exact (sum_list_insert (rank g) (pcs g) i p q Hi)).
  destruct p; simpl in He; try done; repeat case_match; simplify_eq/=;
    (split; [done|]); (split; [|intros j; by apply Hgone]);
    unfold set_active, set_lock, set_pc; cbn [paused drains active lock pcs];
    match goal with |- context [work (mkGate ?b _ ?n ?o (<[_ := ?q]> _))] => pose proof (Hw q b n o) as Hwq end;
    simpl in Hwq; try rewrite (Hd eq_refl) in Hwq; repeat case_match; simplify_eq; lia.
Qed.

Lemma awake_can g i p :
  pcs g !! i = Some p -> p <> Gone -> (holds p = true \/ lock g = None) -> is_Some (gate_step (EWorker i) g).
Proof.
  intros Hi Hg Hl. cbn [gate_step]. rewrite Hi. cbn [mbind option_bind].
  destruct p; try done; simpl; repeat case_match; try done; by destruct Hl.
Qed.

Lemma all_sleep_quiesced g :
  gate_ok g -> lock g = None -> Forall (fun p => p = Sleep) (pcs g) -> wait_quiesced g = Some true.
Proof.
  intros Hok Hl Hf. unfold wait_quiesced. rewrite Hl, (go_active g Hok). unfold running.
  assert (Hz : filter (fun p => counted p = true) (pcs g) = []); [|by rewrite Hz].
  clear Hok Hl. induction Hf as [|p l -> _ IH]; [done|]. by rewrite filter_cons_False.
Qed.

Lemma someone_awake g :
  gate_ok g -> (forall i, pcs g !! i <> Some Gone) ->
  wait_quiesced g = Some true \/
  exists i p, pcs g !! i = Some p /\ p <> Sleep /\ (holds p = true \/ lock g = None).
Proof.
  intros Hok Hg. destruct (lock g) as [i|] eqn:Hl.
  - destruct (go_owner g Hok i Hl) as (p & Hi & Hh). right. exists i, p. split; [done|]. split; [by intros ->|by left].
  - destruct (decide (Forall (fun p => p = Sleep) (pcs g))) as [Hf|Hf]; [left; by apply all_sleep_quiesced|].
    apply not_Forall_Exists in Hf; [|apply _]. apply Exists_exists in Hf as (p & [i Hi]%list_elem_of_lookup_1 & Hp).
    right. exists i, p. auto.
Qed.

Lemma workers_run es g g' :
  gate_ok g -> is_paused g = true -> (forall i, pcs g !! i <> Some Gone) ->
  Forall (fun e => exists i, e = EWorker i) es -> gate_run es g = Some g' ->
  gate_ok g' /\ is_paused g' = true /\ (forall i, pcs g' !! i <> Some Gone) /\
  (length es + work g' <= work g + 4 * wakes es g)%nat.
Proof.
  intros Hok Hp Hg Hes. revert g Hok Hp Hg. induction Hes as [|e es [i ->] _ IH]; intros g Hok Hp Hg Hr.
  - injection Hr as <-. split_and!; try done. simpl. lia.
  - cbn [gate_run] in Hr. destruct (gate_step (EWorker i) g) as [g1|] eqn:He; [|done].
    destruct (worker_step_work g i g1 Hp He) as (Hp1 & Hw1 & Hg1).
    destruct (IH g1) as (? & ? & ? & Hw); [by eapply gate_step_ok|done| |done|].
    { intros j Hj. by apply (Hg j), Hg1. }
    split_and!; try done. cbn [wakes length]. rewrite He. lia.
Qed.

Lemma rank_bound g p : (rank g p <= 11)%nat.
Proof. destruct p; simpl; repeat case_match; lia. Qed.

Lemma work_bound g : (work g <= 11 * length (pcs g))%nat.
Proof. unfold work. induction (pcs g) as [|p l IH]; simpl; [lia|]. pose proof (rank_bound g p). lia. Qed.

(** C37: nothing keeps a held gate from closing. Take any state of it in
    which no worker has returned, and let the workers go on in any order.
    They take no more steps than eleven each, and four for every time one
    of them is woken for nothing; and as long as [wait_quiesced] does not
    return true, some worker that is not asleep can take a step. So the
    gate closes in every run in which the workers that can go on do and the
    wake-ups end; one such run is given. *)
Theorem held_gate_closes workers es0 g :
  Z.of_nat workers < 2 ^ 63 -> gate_run es0 (gate_new workers) = Some g ->
  is_paused g = true -> (forall i, pcs g !! i <> Some Gone) ->
  (forall es g', Forall (fun e => exists i, e = EWorker i) es -> gate_run es g = Some g' ->
    (length es <= 11 * length (pcs g) + 4 * wakes es g)%nat /\
    (wait_quiesced g' = Some true \/ exists i, pcs g' !! i <> Some Sleep /\ is_Some (gate_step (EWorker i) g'))) /\
  exists es g', wakes es g = 0%nat /\ Forall (fun e => exists i, e = EWorker i) es /\
    gate_run es g = Some g' /\ wait_quiesced g' = Some true.
Proof.
  intros Hw H0 Hp Hg. pose proof (gate_run_ok _ _ _ (gate_new_ok workers Hw) H0) as Hok. clear H0. split.
  - intros es g' Hes Hr. destruct (workers_run es g g' Hok Hp Hg Hes Hr) as (Hok' & Hp' & Hg' & Hlen).
    pose proof (work_bound g). split; [lia|].
    destruct (someone_awake g' Hok' Hg') as [?|(i & p & Hi & Hs & Hl)]; [by left|right]. exists i.
    split; [congruence|]. eapply awake_can; [done| |done]. intros ->. by apply (Hg' i).
  - remember (work g) as n eqn:Hn. revert g Hn Hok Hp Hg. induction (lt_wf n) as [n _ IH]. intros g -> Hok Hp Hg.
    destruct (someone_awake g Hok Hg) as [Hq|(i & p & Hi & Hs & Hl)]; [by exists [], g|].
    destruct (awake_can g i p Hi) as [g1 He]; [by intros ->; apply (Hg i)|done|].
    destruct (worker_step_work g i g1 Hp He) as (Hp1 & Hw1 & Hg1).
    assert (Hz : wakes_one (EWorker i) g = 0%nat) by (simpl; rewrite Hi; by destruct p). rewrite Hz in Hw1.
    destruct (IH (work g1) ltac:(lia) g1) as (es & g' & Hwk & Hf & Hr & Hq); [done|by eapply gate_step_ok|done| |].
    { intros j Hj. by apply (Hg j), Hg1. }
    exists (EWorker i :: es), g'. cbn [wakes gate_run]. rewrite Hz, He. split_and!; try done. constructor; eauto.
Qed.

(** ** The check that does not take the lock *)

(** A worker parks for a drain, which ends; the worker finds the gate open
    and the control plane pauses before it has rejoined [active]. *)
Definition early : list event :=
  EDrain :: replicate 7 (EWorker 0) ++ [EDrop; EWorker 0; EWorker 0; EWorker 0; EPause].

(** [is_quiesced], which reads the count without the lock, can answer
    before the workers are still: after a pause that nothing has ended it
    returns true, and the worker then goes on past the gate. [wait_quiesced]
    does not: it cannot take the lock at that point. *)
Theorem is_quiesced_early :
  exists g g', gate_run early (gate_new 1) = Some g /\ paused g = true /\ is_quiesced g = true /\
    wait_quiesced g = None /\
    gate_run [EWorker 0; EWorker 0] g = Some g' /\ paused g' = true /\ pcs g' = [Run].
Proof. exists (mkGate true 0 0 (Some 0%nat) [Leave]), (mkGate true 0 1 None [Run]). split_and!; vm_compute; reflexivity. Qed.

(** ** Witnesses *)

(** Two workers park for a drain that is still held. *)
Definition park_all : list event :=
  EDrain :: replicate 7 (EWorker 0) ++ replicate 7 (EWorker 1).
Definition parked_gate : QuiesceGate := mkGate false 1 0 None [Sleep; Sleep].

Lemma gate_keeps_workers_witness :
  Forall (fun p => parked p = true) (pcs (mkGate true 1 0 (Some 0%nat) [Held; Sleep])).
Proof.
  apply (gate_keeps_workers 2 park_all parked_gate [EPause; EWorker 0]); [lia|vm_compute; reflexivity..|].
  intros es1 g1 Hpre Hr. assert (Hd : is_paused g1 = true); [|exact Hd].
  destruct Hpre as [k Hk]. destruct es1 as [|e1 [|e2 [|]]]; simplify_eq/=; reflexivity.
Defined.

Lemma pause_survives_resets_witness :
  Forall (fun p => parked p = true) (pcs (mkGate true 0 0 None [Sleep; Sleep])).
Proof.
  apply (pause_survives_resets 2 (EPause :: park_all) (mkGate true 1 0 None [Sleep; Sleep]) [EDrop]);
    [lia|vm_compute; reflexivity..| |vm_compute; reflexivity].
  set_solver.
Defined.

Lemma held_gate_closes_witness :
  (forall es g', Forall (fun e => exists i, e = EWorker i) es -> gate_run es (mkGate false 1 2 None [Run; Run]) = Some g' ->
    (length es <= 22 + 4 * wakes es (mkGate false 1 2 None [Run; Run]))%nat) /\
  exists es g', Forall (fun e => exists i, e = EWorker i) es /\
    gate_run es (mkGate false 1 2 None [Run; Run]) = Some g' /\ wait_quiesced g' = Some true.
Proof.
  destruct (held_gate_closes 2 [EDrain] (mkGate false 1 2 None [Run; Run])) as [H1 (es & g' & _ & Hf & Hr & Hq)];
    [lia|vm_compute; reflexivity..| |].
  - intros [|[|i]]; simpl; rewrite ?lookup_nil; discriminate.
  - split; [intros es1 g1 Hes Hr1; exact (proj1 (H1 es1 g1 Hes Hr1))|]. exists es, g'. split; [exact Hf|]. split; [exact Hr|exact Hq].
Defined.

End quiesce.
