(* ===== verification/NvmeConc.v ===== *)
(** * The NVMe controller and its workers, interleaved

    [Module nvme_conc] composes the gate of [Quiesce], the controller of
    [Nvme] and the worker loop of vmm-storage/src/nvme/workers.rs. Workers
    take a step at a time: of [park_if_paused], of the channel, of the check
    under the state lock, of the transfer and of the completion. Any number
    of threads control it, one for each processor of the guest: a thread
    that resets the controller, shuts it down or deletes a queue takes the
    queues away under the state lock, drains the workers without it and only
    then tells the driver, and the others may do the same in between. What
    it tells is what the driver relies on to reuse its pages. *)

From S2P Require Import Prelude Mapping PhysMap GuestMem MigPages Bus PciMsix NvmePrp Nvme NvmeInv Quiesce.

Module nvme_conc.
Import mapping guestmem pages prp common nvme nvme_inv.

(** ** The worker loop *)

Inductive job : Type :=
| Park1                             (** [park_if_paused] before taking work *)
| Recv                              (** at the channel *)
| Park2 (req : IoRequest)           (** [park_if_paused] with a request *)
| Look (req : IoRequest)            (** about to check its queues *)
| Xfer (req : IoRequest)            (** in [process_io_request] *)
| Post (req : IoRequest) (status : Z).

(** Where a worker goes when [park_if_paused] returns. *)
Definition after_park (j : job) : job :=
  match j with
  | Park1 => Recv
  | Park2 req => Look req
  | j => j
  end.

Definition parking (j : job) : bool :=
  match j with Park1 | Park2 _ => true | _ => false end.

(** ** A controlling thread *)

(** What it does to the queues, and what it tells the driver after. *)
Inductive task : Type :=
| Disable (new_cc : Z)
| Shutdown (new_cc : Z)
| DeleteSq (idx : nat) (head cid status cdw0 : Z)
| DeleteCq (idx : nat) (head cid status cdw0 : Z).

Inductive ctl : Type :=
| Idle
| Retired (t : task)    (** the queues are gone, no drain yet *)
| Draining (t : task)   (** has a drain scope, waits *)
| Fenced (t : task)     (** [wait_quiesced] returned true *)
| Failed (t : task)     (** it returned false; about to drop the scope *)
| Failed2 (t : task)    (** dropped it *)
| Told.                 (** told the driver; about to drop the scope *)

Record sys : Type := mkSys {
  s_gate : quiesce.QuiesceGate;
  s_dev : dev;
  s_world : world;
  s_jobs : list job;
  s_chan : list IoRequest;
  s_ctls : list ctl;
  s_others : Z
}.

Definition holds_scope (c : ctl) : bool :=
  match c with Draining _ | Fenced _ | Failed _ | Told => true | _ => false end.

Definition retire (t : task) (st : NvmeState) : NvmeState :=
  match t with
  | Disable _ => retire_queues st
  | Shutdown new_cc => shutdown_st new_cc st
  | DeleteSq idx _ _ _ _ => set_io_sq idx None st
  | DeleteCq idx _ _ _ _ => set_io_cq idx None st
  end.

(** The guards of the two delete commands. *)
Definition may_retire (t : task) (st : NvmeState) : bool :=
  match t with
  | Disable _ | Shutdown _ => true
  | DeleteSq idx _ _ _ _ => bool_decide (is_Some (sq_at st idx))
  | DeleteCq idx _ _ _ _ => bool_decide (is_Some (cq_at st idx)) && negb (cq_in_use st (Z.of_nat idx + 1))
  end.

Section steps.
Context (pm : physmap.PhysMap) (g : guest).

(** The writes after the fence; [flushed] is the answer of [flush_backing]. *)
Definition finish (t : task) (fenced flushed : bool) : handler unit :=
  match t with
  | Disable new_cc =>
      let% t := get_msix in
      let% _c := put_msix (msix.clear_pending t) [] in
      modify (disabled_st new_cc fenced)
  | Shutdown _ =>
      modify (if negb fenced then fail_fence
              else if negb flushed then fun st => with_csts (Z.lor (csts st) CSTS_CFS) st
              else set_shst SHST_COMPLETE)
  | DeleteSq _ head cid status cdw0 | DeleteCq _ head cid status cdw0 =>
      admin_complete pm g head cid status cdw0 fenced
  end.

Definition with_gate (q : quiesce.QuiesceGate) (s : sys) : sys :=
  mkSys q (s_dev s) (s_world s) (s_jobs s) (s_chan s) (s_ctls s) (s_others s).
Definition with_dev (d : dev) (w : world) (s : sys) : sys :=
  mkSys (s_gate s) d w (s_jobs s) (s_chan s) (s_ctls s) (s_others s).
Definition with_job (i : nat) (j : job) (s : sys) : sys :=
  mkSys (s_gate s) (s_dev s) (s_world s) (<[i := j]> (s_jobs s)) (s_chan s) (s_ctls s) (s_others s).
Definition with_chan (l : list IoRequest) (s : sys) : sys :=
  mkSys (s_gate s) (s_dev s) (s_world s) (s_jobs s) l (s_ctls s) (s_others s).
Definition with_ctl (k : nat) (c : ctl) (s : sys) : sys :=
  mkSys (s_gate s) (s_dev s) (s_world s) (s_jobs s) (s_chan s) (<[k := c]> (s_ctls s)) (s_others s).
Definition with_others (n : Z) (s : sys) : sys :=
  mkSys (s_gate s) (s_dev s) (s_world s) (s_jobs s) (s_chan s) (s_ctls s) n.

(** A worker that is outside the gate, at [j]. *)
Definition at_job (s : sys) (i : nat) (j : job) : Prop :=
  quiesce.pcs (s_gate s) !! i = Some quiesce.Run /\ s_jobs s !! i = Some j.

Inductive step (s : sys) : sys -> Prop :=
(** Workers. A receive that times out, and the check of the gate before it,
    go back to the gate; they may do so at any time. *)
| st_park i j q' :
    s_jobs s !! i = Some j -> parking j = true -> quiesce.gate_step (quiesce.EWorker i) (s_gate s) = Some q' ->
    step s (with_gate q' (if decide (quiesce.pcs q' !! i = Some quiesce.Run) then with_job i (after_park j) s else s))
| st_again i : at_job s i Recv -> step s (with_job i Park1 s)
| st_recv i req l : at_job s i Recv -> s_chan s = req :: l -> step s (with_job i (Park2 req) (with_chan l s))
| st_closed i q' :
    at_job s i Recv -> quiesce.gate_step (quiesce.EExit i) (s_gate s) = Some q' -> step s (with_gate q' s)
| st_look i req :
    at_job s i (Look req) ->
    step s (with_job i (if queues_current (d_st (s_dev s)) req then Xfer req else Park1) s)
| st_xfer i req status w' :
    at_job s i (Xfer req) -> step s (with_dev (s_dev s) w' (with_job i (Post req status) s))
| st_post i req status d' w' :
    at_job s i (Post req status) ->
    worker_post pm g req status (s_dev s) (s_world s) = Some (tt, d', w') ->
    step s (with_dev d' w' (with_job i Park1 s))
(** Other holders of the gate. *)
| st_pause : step s (with_gate (quiesce.pause (s_gate s)) s)
| st_resume q' : quiesce.gate_step quiesce.EResume (s_gate s) = Some q' -> step s (with_gate q' s)
| st_drain q' :
    quiesce.gate_step quiesce.EDrain (s_gate s) = Some q' -> step s (with_others (s_others s + 1) (with_gate q' s))
| st_drop q' :
    0 < s_others s -> quiesce.gate_step quiesce.EDrop (s_gate s) = Some q' ->
    step s (with_others (s_others s - 1) (with_gate q' s))
(** The guest, on any processor. *)
| st_submit qid new_tail reqs d' w' :
    0 <= new_tail -> io_sq_doorbell pm g qid new_tail (s_dev s) (s_world s) = Some (reqs, d', w') ->
    step s (with_chan (s_chan s ++ reqs) (with_dev d' w' s))
| st_consume qid new_head d' w' :
    0 <= new_head -> cq_doorbell qid new_head (s_dev s) (s_world s) = Some (tt, d', w') -> step s (with_dev d' w' s)
(** The guest, each processor with one controller operation at a time. *)
| st_enable k new_cc d' w' :
    s_ctls s !! k = Some Idle -> enable pm new_cc (s_dev s) (s_world s) = Some (tt, d', w') -> step s (with_dev d' w' s)
| st_create_cq k p1 cdw10 cdw11 r d' w' :
    s_ctls s !! k = Some Idle -> admin_create_io_cq pm p1 cdw10 cdw11 (s_dev s) (s_world s) = Some (r, d', w') ->
    step s (with_dev d' w' s)
| st_create_sq k p1 cdw10 cdw11 r d' w' :
    s_ctls s !! k = Some Idle -> admin_create_io_sq pm p1 cdw10 cdw11 (s_dev s) (s_world s) = Some (r, d', w') ->
    step s (with_dev d' w' s)
| st_retire k t :
    s_ctls s !! k = Some Idle -> may_retire t (d_st (s_dev s)) = true ->
    step s (with_ctl k (Retired t) (with_dev (upd (retire t) (s_dev s)) (s_world s) s))
| st_scope k t q' :
    s_ctls s !! k = Some (Retired t) -> quiesce.gate_step quiesce.EDrain (s_gate s) = Some q' ->
    step s (with_ctl k (Draining t) (with_gate q' s))
| st_fenced k t :
    s_ctls s !! k = Some (Draining t) -> quiesce.wait_quiesced (s_gate s) = Some true -> step s (with_ctl k (Fenced t) s)
| st_timeout k t :
    s_ctls s !! k = Some (Draining t) -> quiesce.wait_quiesced (s_gate s) = Some false -> step s (with_ctl k (Failed t) s)
| st_tell k t flushed d' w' :
    s_ctls s !! k = Some (Fenced t) -> finish t true flushed (s_dev s) (s_world s) = Some (tt, d', w') ->
    step s (with_ctl k Told (with_dev d' w' s))
| st_end k q' :
    s_ctls s !! k = Some Told -> quiesce.gate_step quiesce.EDrop (s_gate s) = Some q' -> step s (with_ctl k Idle (with_gate q' s))
| st_give_way k t q' :
    s_ctls s !! k = Some (Failed t) -> quiesce.gate_step quiesce.EDrop (s_gate s) = Some q' ->
    step s (with_ctl k (Failed2 t) (with_gate q' s))
| st_fail k t flushed d' w' :
    s_ctls s !! k = Some (Failed2 t) -> finish t false flushed (s_dev s) (s_world s) = Some (tt, d', w') ->
    step s (with_ctl k Idle (with_dev d' w' s)).

End steps.

Definition start (workers threads : nat) (ctrl ns : list Z) (w : world) : sys :=
  mkSys (quiesce.gate_new workers) (mkDev (nvme_new ctrl ns) (msix.msix_new NVME_MSIX_COUNT) []) w
    (replicate workers Park1) [] (replicate threads Idle) 0.

(** ** What the controller's operations leave alone *)

(** Requests that were current stay so, and a failed fence stays failed. *)
Record frame (st st' : NvmeState) : Prop := mkFrame {
  fr_current : forall req, queues_current st req = true -> queues_current st' req = true;
  fr_failed : fence_failed st = true -> fence_failed st' = true
}.

Lemma frame_refl st : frame st st.
Proof. by split. Qed.

Lemma frame_trans a b c : frame a b -> frame b c -> frame a c.
Proof. intros [H1 H2] [H3 H4]. split; auto. Qed.

(** It is enough to keep the instance in every slot that has a queue. *)
Lemma frame_slots st st' :
  (forall i q, sq_at st i = Some q -> exists q', sq_at st' i = Some q' /\ sq_instance q' = sq_instance q) ->
  (forall i q, cq_at st i = Some q -> exists q', cq_at st' i = Some q' /\ cq_instance q' = cq_instance q) ->
  (fence_failed st = true -> fence_failed st' = true) -> frame st st'.
Proof.
  intros Hs Hc Hf. split; [|done]. intros req. unfold queues_current.
  destruct (io_queue_index (r_sqid req)) as [i|], (io_queue_index (r_cq_id req)) as [j|]; simpl; try done.
  - destruct (sq_at st i) as [q|] eqn:Hq; [|done]. destruct (cq_at st j) as [c|] eqn:Hcq; [|by rewrite andb_comm].
    destruct (Hs i q Hq) as (q' & -> & ->), (Hc j c Hcq) as (c' & -> & ->). done.
  - by rewrite andb_comm.
Qed.

Lemma frame_same st st' :
  io_sqs st' = io_sqs st -> io_cqs st' = io_cqs st -> (fence_failed st = true -> fence_failed st' = true) -> frame st st'.
Proof.
  intros Hs Hc Hf. apply frame_slots; [| |done]; intros i q; unfold sq_at, cq_at; rewrite ?Hs, ?Hc; eauto.
Qed.

Lemma frame_io_sq st i q :
  (i < length (io_sqs st))%nat ->
  (forall q0, sq_at st i = Some q0 -> sq_instance q = sq_instance q0) -> frame st (set_io_sq i (Some q) st).
Proof.
  intros Hi Hq. apply frame_slots; [|by eauto|done]. intros j q0 Hj. rewrite sq_at_insert by done.
  destruct (decide (i = j)) as [<-|]; [exists q; split; [done|by apply Hq]|by eauto].
Qed.

Lemma frame_io_cq st i q :
  (i < length (io_cqs st))%nat ->
  (forall q0, cq_at st i = Some q0 -> cq_instance q = cq_instance q0) -> frame st (set_io_cq i (Some q) st).
Proof.
  intros Hi Hq. apply frame_slots; [by eauto| |done]. intros j q0 Hj. rewrite cq_at_insert by done.
  destruct (decide (i = j)) as [<-|]; [exists q; split; [done|by apply Hq]|by eauto].
Qed.

Section framed.
Context (pm : physmap.PhysMap) (g : guest).

Abbreviation ok := (dev_ok False).
Abbreviation framed m := (forall d, ok d -> wp m (fun _ d' => ok d' /\ frame (d_st d) (d_st d')) d).

Lemma framed_modify f :
  (forall st, st_ok False st -> st_ok False (f st)) -> (forall st, frame st (f st)) -> framed (modify f).
Proof. intros Hf Hfr d Hd. apply wp_modify. split; [apply dev_ok_upd; [done|apply Hf, Hd]|apply Hfr]. Qed.

Lemma cfs_frame d' st (b : bool) :
  ok d' -> frame st (d_st d') ->
  wp (if b then ret tt else modify (fun st => with_csts (Z.lor (csts st) CSTS_CFS) st))
    (fun _ d'' => ok d'' /\ frame st (d_st d'')) d'.
Proof.
  intros Hd Hf. destruct b; [by apply wp_ret|]. apply wp_modify. split; [apply dev_ok_upd; [done|apply csts_st_ok, Hd]|].
  eapply frame_trans; [exact Hf|]. by apply frame_same.
Qed.

Lemma post_framed req status : framed (worker_post pm g req status).
Proof.
  intros d Hd. unfold worker_post. apply wp_bind, wp_get.
  destruct (negb _); [apply wp_ret; split; [done|apply frame_refl]|].
  destruct (io_queue_index (r_cq_id req)) as [i|] eqn:Hi; [|apply wp_ret; split; [done|apply frame_refl]].
  apply io_queue_index_lt in Hi as [Hi _]. pose proof (ok_cqs _ _ (ok_st _ _ Hd)) as Hl.
  apply wp_bind, wp_post with (L := False); [done|intros q Hq; by apply (ok_io_cq _ _ (ok_st _ _ Hd) i)|].
  intros cq' b d2 He2 Hd2 Hp. apply wp_bind, wp_modify, cfs_frame.
  - apply dev_ok_upd; [done|]. rewrite He2. apply set_io_posted; [apply Hd|done|done].
  - simpl. rewrite He2. unfold posted in Hp. destruct (cq_at (d_st d) i) as [q|] eqn:Hq, cq' as [q'|]; try done.
    + apply frame_io_cq; [lia|]. intros q0 Hq0. rewrite Hq in Hq0. injection Hq0 as <-. apply Hp.
    + apply frame_slots; [by eauto| |done]. intros j q0 Hj. rewrite cq_at_insert by lia.
      destruct (decide (i = j)) as [<-|]; [congruence|by eauto].
Qed.

Lemma submit_framed qid new_tail : 0 <= new_tail -> framed (io_sq_doorbell pm g qid new_tail).
Proof.
  intros Ht d Hd. unfold io_sq_doorbell. apply wp_bind, wp_get.
  assert (Hret : forall l : list IoRequest, wp (ret l) (fun _ d' => ok d' /\ frame (d_st d) (d_st d')) d).
  { intros l. apply wp_ret. split; [done|apply frame_refl]. }
  destruct (io_queue_index qid) as [i|] eqn:Hi; [|done]. apply io_queue_index_lt in Hi as [Hi _].
  destruct (sq_at (d_st d) i) as [q|] eqn:Ha; [|done].
  destruct (let* j := io_queue_index (sq_cq_id q) in cq_at (d_st d) j) as [cq|]; [|done].
  destruct (Z.leb_spec (sq_size q) new_tail); [done|].
  pose proof (tail_ok q new_tail (ok_io_sq _ _ (ok_st _ _ Hd) i q Ha) ltac:(lia)) as Hq.
  apply wp_bind. eapply wp_mono.
  { apply wp_io_loop with (L := False); [done|done|]. pose proof (sq_pending_bound _ Hq). unfold ADMIN_TURNS. lia. }
  intros [q' reqs] ? (-> & Hq' & _ & Hin). cbn [fst] in *. apply wp_bind, wp_modify, wp_ret. split.
  - apply dev_ok_upd; [done|]. by apply st_ok_io_sq; [apply Hd|..].
  - apply frame_io_sq; [by rewrite (ok_sqs _ _ (ok_st _ _ Hd))|]. intros q0 Hq0. rewrite Ha in Hq0. by injection Hq0 as <-.
Qed.

Lemma consume_framed qid new_head : 0 <= new_head -> framed (cq_doorbell qid new_head).
Proof.
  intros Hh d Hd.
  assert (Hfr : wp (cq_doorbell qid new_head) (fun _ d' => frame (d_st d) (d_st d')) d).
  { unfold cq_doorbell. apply wp_bind, wp_get. destruct (qid =? ADMIN_QUEUE_ID).
    - destruct (admin_cq (d_st d)) as [q|]; [|apply wp_ret, frame_refl].
      destruct (_ <? _); [apply wp_modify; by apply frame_same|apply wp_ret, frame_refl].
    - destruct (io_queue_index qid) as [i|] eqn:Hi; [|apply wp_ret, frame_refl]. apply io_queue_index_lt in Hi as [Hi _].
      destruct (cq_at (d_st d) i) as [q|] eqn:Ha; [|apply wp_ret, frame_refl].
      destruct (_ <? _); [apply wp_modify|apply wp_ret, frame_refl].
      apply frame_io_cq; [by rewrite (ok_cqs _ _ (ok_st _ _ Hd))|]. intros q0 Hq0. rewrite Ha in Hq0. by injection Hq0 as <-. }
  exact (wp_and _ _ _ _ (cq_doorbell_keeps False qid new_head Hh d Hd) Hfr).
Qed.

Lemma next_frame st : frame st (with_instances (wadd 64 (instances st) 1) st).
Proof. by apply frame_same. Qed.

Lemma create_cq_framed p1 cdw10 cdw11 : framed (admin_create_io_cq pm p1 cdw10 cdw11).
Proof.
  intros d Hd. apply wp_and.
  { eapply wp_mono; [by apply create_cq_admin|]. by intros ? ? [? _]. }
  unfold admin_create_io_cq. apply wp_bind, wp_get.
  assert (Hret : forall s, wp (answer s) (fun _ d' => frame (d_st d) (d_st d')) d) by (intros; apply wp_ret, frame_refl).
  destruct (io_queue_index _) as [i|] eqn:Hi; [|done]. apply io_queue_index_lt in Hi as [Hi _].
  destruct (_ <? _); [done|]. destruct (_ || _); [done|].
  destruct (cq_at (d_st d) i) eqn:Hq; [by rewrite bool_decide_eq_true_2 by eauto|].
  rewrite bool_decide_eq_false_2 by (by intros [? ?]).
  destruct (_ <=? _); [done|]. destruct (negb _); [done|]. cbn [next_instance].
  apply wp_bind, wp_modify, wp_ret. eapply frame_trans; [apply next_frame|].
  apply frame_io_cq; [simpl; by rewrite (ok_cqs _ _ (ok_st _ _ Hd))|]. intros q0 Hq0.
  change (cq_at (d_st d) i = Some q0) in Hq0. congruence.
Qed.

Lemma create_sq_framed p1 cdw10 cdw11 : framed (admin_create_io_sq pm p1 cdw10 cdw11).
Proof.
  intros d Hd. apply wp_and.
  { eapply wp_mono; [by apply create_sq_admin|]. by intros ? ? [? _]. }
  unfold admin_create_io_sq. apply wp_bind, wp_get.
  assert (Hret : forall s, wp (answer s) (fun _ d' => frame (d_st d) (d_st d')) d) by (intros; apply wp_ret, frame_refl).
  destruct (io_queue_index (Z.land cdw10 _)) as [i|] eqn:Hi; [|done]. apply io_queue_index_lt in Hi as [Hi _].
  destruct (_ <? _); [done|]. destruct (_ || _); [done|].
  destruct (sq_at (d_st d) i) eqn:Hq; [by rewrite bool_decide_eq_true_2 by eauto|].
  rewrite bool_decide_eq_false_2 by (by intros [? ?]).
  destruct (io_queue_index _); [|done]. destruct (negb _); [done|]. destruct (negb _); [done|]. cbn [next_instance].
  apply wp_bind, wp_modify, wp_ret. eapply frame_trans; [apply next_frame|].
  apply frame_io_sq; [simpl; by rewrite (ok_sqs _ _ (ok_st _ _ Hd))|]. intros q0 Hq0.
  change (sq_at (d_st d) i = Some q0) in Hq0. congruence.
Qed.

Lemma enable_framed new_cc : framed (enable pm new_cc).
Proof.
  apply framed_modify; [apply enable_st_ok|]. intros st. unfold enable_st.
  destruct (fence_failed (with_cc new_cc st)); [by apply frame_same|].
  destruct (_ || _); [by apply frame_same|]. cbn [next_instance]. apply frame_same; reflexivity || done.
Qed.

Lemma complete_framed head cid status cdw0 fenced : framed (admin_complete pm g head cid status cdw0 fenced).
Proof.
  intros d Hd. unfold admin_complete. apply wp_bind, wp_modify. set (d1 := upd _ d).
  assert (ok d1 /\ frame (d_st d) (d_st d1)) as [Hd1 Hf1].
  { split; [apply dev_ok_upd; [done|]; destruct fenced; [apply Hd|apply fail_st_ok, Hd]|].
    destruct fenced; [apply frame_refl|by apply frame_same]. }
  clearbody d1. apply wp_bind, wp_get, wp_bind, wp_post with (L := False); [done|apply Hd1|]. intros cq' b d2 He2 Hd2 Hp.
  apply wp_bind, wp_modify, cfs_frame.
  - apply dev_ok_upd; [done|]. rewrite He2. apply set_admin_posted; [apply Hd1|done].
  - eapply frame_trans; [exact Hf1|]. simpl. rewrite He2. by apply frame_same.
Qed.

Lemma finish_framed t fenced flushed : framed (finish pm g t fenced flushed).
Proof.
  destruct t as [new_cc|new_cc| |]; cbn [finish]; try apply complete_framed.
  - intros d Hd. apply wp_bind, wp_get_msix, wp_bind, wp_put_msix, wp_modify. split.
    + apply dev_ok_upd; [|by apply disabled_st_ok, Hd]. apply put_msix_ok; [done|apply msix.clear_pending_ok|].
      split; [done|]. simpl. by rewrite length_replicate.
    + simpl. unfold disabled_st. destruct fenced; by apply frame_same.
  - apply framed_modify; intros st.
    + intros Hok. destruct fenced, flushed; simpl; auto using fail_st_ok, csts_st_ok, shst_st_ok.
    + destruct fenced, flushed; by apply frame_same.
Qed.

End framed.

(** ** The invariant *)

Definition waiting (c : ctl) : bool :=
  match c with Retired _ | Draining _ | Failed _ | Failed2 _ => true | _ => false end.

Definition quiet (c : ctl) : bool :=
  match c with Fenced _ | Told => true | _ => false end.

(** A controlling thread at such a point. *)
Definition some_ctl (f : ctl -> bool) (s : sys) : Prop := exists k c, s_ctls s !! k = Some c /\ f c = true.

(** The drain scopes the controlling threads have. *)
Definition scope_count (c : ctl) : nat := if holds_scope c then 1 else 0.
Definition scopes (s : sys) : Z := Z.of_nat (sum_list_with scope_count (s_ctls s)).

Record inv (s : sys) : Prop := mkInv {
  i_gate : quiesce.gate_ok (s_gate s);
  i_dev : dev_ok False (s_dev s);
  i_jobs : forall i j, s_jobs s !! i = Some j -> parking j = false ->
    exists p, quiesce.pcs (s_gate s) !! i = Some p /\ (p = quiesce.Run \/ p = quiesce.Gone);
  i_drains : quiesce.drains (s_gate s) = s_others s + scopes s;
  i_others : 0 <= s_others s;
  i_closed : some_ctl quiet s -> quiesce.closed (s_gate s);
  i_xfer : forall i req, s_jobs s !! i = Some (Xfer req) ->
    queues_current (d_st (s_dev s)) req = true \/ fence_failed (d_st (s_dev s)) = true \/ some_ctl waiting s
}.

Lemma scopes_with k c c' s :
  s_ctls s !! k = Some c -> scopes (with_ctl k c' s) + Z.of_nat (scope_count c) = scopes s + Z.of_nat (scope_count c').
Proof. intros Hk. unfold scopes. simpl. pose proof (sum_list_insert scope_count _ _ _ c' Hk). lia. Qed.

Lemma scopes_some f s : (forall c, f c = true -> holds_scope c = true) -> some_ctl f s -> 0 < scopes s.
Proof.
  intros Hf (k & c & Hk & Hc). unfold scopes. pose proof (sum_list_insert scope_count _ _ _ Idle Hk) as H.
  assert (scope_count c = 1%nat) as Hn by (unfold scope_count; by rewrite (Hf c Hc)). rewrite Hn in H. change (scope_count Idle) with 0%nat in H. lia.
Qed.

Lemma some_with f k c s :
  some_ctl f (with_ctl k c s) -> f c = true \/ some_ctl f s.
Proof.
  intros (k' & c' & Hk & Hc). simpl in Hk. apply list_lookup_insert_Some in Hk as [(_ & <- & _)|[_ Hk]]; [by left|].
  right. by exists k', c'.
Qed.

Lemma some_kept f k c0 c s :
  s_ctls s !! k = Some c0 -> some_ctl f s -> (f c0 = true -> f c = true) -> some_ctl f (with_ctl k c s).
Proof.
  intros H0 (k' & c' & Hk & Hc) Hf. unfold some_ctl. simpl. destruct (decide (k = k')) as [<-|].
  - exists k, c. rewrite list_lookup_insert_eq by (by eapply lookup_lt_Some). split; [done|]. apply Hf. congruence.
  - exists k', c'. by rewrite list_lookup_insert_ne.
Qed.

Lemma some_new f k c0 c s : s_ctls s !! k = Some c0 -> f c = true -> some_ctl f (with_ctl k c s).
Proof. intros H0 Hf. exists k, c. simpl. by rewrite list_lookup_insert_eq by (by eapply lookup_lt_Some). Qed.

Lemma quiet_holds c : quiet c = true -> holds_scope c = true.
Proof. by destruct c. Qed.

Lemma idle_scopes n : sum_list_with scope_count (replicate n Idle) = 0%nat.
Proof. by induction n. Qed.

Lemma start_inv workers threads ctrl ns w : Z.of_nat workers < 2 ^ 63 -> inv (start workers threads ctrl ns w).
Proof.
  intros Hw. split; cbn [s_gate s_dev s_jobs s_ctls s_others start]; try done.
  - by apply quiesce.gate_new_ok.
  - split; cbn [d_st d_msix]; [|by intros []|done|done].
    split; try done; by intros i q ?%at_replicate.
  - intros i j [-> _]%lookup_replicate. done.
  - unfold scopes. simpl. by rewrite idle_scopes.
  - intros (k & c & [-> _]%lookup_replicate & ?). done.
  - intros i req [? _]%lookup_replicate. done.
Qed.

(** Nobody transfers behind a closed gate. *)
Lemma closed_no_xfer s i req : inv s -> quiesce.closed (s_gate s) -> s_jobs s !! i <> Some (Xfer req).
Proof.
  intros Hi Hq Hj. destruct (i_jobs s Hi i _ Hj eq_refl) as (p & Hp & Hr).
  apply (quiesce.cl_parked _ Hq) in Hp. by destruct Hr as [-> | ->].
Qed.

(** The gate moves; the workers that are outside it stay outside. *)
Lemma gate_inv s q' n e :
  inv s -> quiesce.gate_step e (s_gate s) = Some q' ->
  (forall i p, quiesce.pcs (s_gate s) !! i = Some p -> p = quiesce.Run \/ p = quiesce.Gone ->
    (exists j, s_jobs s !! i = Some j /\ parking j = false) ->
    exists p', quiesce.pcs q' !! i = Some p' /\ (p' = quiesce.Run \/ p' = quiesce.Gone)) ->
  quiesce.drains q' = n + scopes s -> 0 <= n ->
  inv (with_others n (with_gate q' s)).
Proof.
  intros Hi He Hpcs Hd Hn. pose proof Hi as [Hg Hdev Hj Hdr Ho Hc Hx]. pose proof (quiesce.gate_step_ok _ _ _ Hg He) as Hg'.
  split; cbn [s_gate s_dev s_jobs s_ctls s_others with_others with_gate]; try done.
  - intros i j Hij Hp. destruct (Hj i j Hij Hp) as (p & Hpi & Hr). by apply (Hpcs i p Hpi Hr); eauto.
  - intros Hq. eapply quiesce.closed_step; [by apply Hc| |exact He]. unfold quiesce.is_paused.
    apply orb_true_intro. right. apply negb_true_iff, Z.eqb_neq. pose proof (scopes_some quiet s quiet_holds Hq). lia.
Qed.

(** The device moves, and the worker that moved it. *)
Lemma dev_inv s d' w' :
  inv s -> dev_ok False d' -> frame (d_st (s_dev s)) (d_st d') -> inv (with_dev d' w' s).
Proof.
  intros [Hg Hdev Hj Hdr Ho Hc Hx] Hd [Hf1 Hf2]. split; cbn [s_gate s_dev s_jobs s_ctls s_others with_dev]; try done.
  intros i req Hi. destruct (Hx i req Hi) as [?|[?|?]]; auto.
Qed.

Lemma job_inv s i j :
  inv s -> (parking j = false -> quiesce.pcs (s_gate s) !! i = Some quiesce.Run) ->
  (forall req, j = Xfer req -> queues_current (d_st (s_dev s)) req = true) -> inv (with_job i j s).
Proof.
  intros [Hg Hdev Hj Hdr Ho Hc Hx] Hp Hcur. split; cbn [s_gate s_dev s_jobs s_ctls s_others with_job]; try done.
  - intros k j' Hk Hpk. apply list_lookup_insert_Some in Hk as [(<- & <- & _)|[_ Hk]]; [|by eapply Hj].
    exists quiesce.Run. auto.
  - intros k req Hk. apply list_lookup_insert_Some in Hk as [(<- & -> & _)|[_ Hk]]; [left; by apply Hcur|by eapply Hx].
Qed.

Lemma framed_inv {A} (m : handler A) s a d' w' :
  inv s -> (forall d, dev_ok False d -> wp m (fun _ d' => dev_ok False d' /\ frame (d_st d) (d_st d')) d) ->
  m (s_dev s) (s_world s) = Some (a, d', w') -> inv (with_dev d' w' s).
Proof.
  intros Hi Hm He. destruct (wp_run m _ _ _ _ _ _ (Hm _ (i_dev s Hi)) He) as [Hd Hf]. by apply dev_inv.
Qed.

(** A controlling thread moves, and perhaps the gate with it. *)
Lemma ctl_inv s k c0 c q' :
  inv s -> s_ctls s !! k = Some c0 -> quiesce.gate_ok q' -> quiesce.pcs q' = quiesce.pcs (s_gate s) ->
  quiesce.drains q' + Z.of_nat (scope_count c0) = quiesce.drains (s_gate s) + Z.of_nat (scope_count c) ->
  (quiet c = true \/ some_ctl quiet (with_ctl k Idle s) -> quiesce.closed q') ->
  (waiting c0 = true -> waiting c = true \/ (forall i req, s_jobs s !! i <> Some (Xfer req)) \/
     fence_failed (d_st (s_dev s)) = true) -> inv (with_ctl k c (with_gate q' s)).
Proof.
  intros [Hg Hdev Hj Hdr Ho Hc Hx] Hk Hg' Hp Hd Hq Hw.
  split; cbn [s_gate s_dev s_jobs s_ctls s_others with_ctl with_gate]; try done; [by rewrite Hp| | |].
  - pose proof (scopes_with k c0 c s Hk) as Hs. change (scopes (with_ctl k c s)) with (scopes (with_ctl k c (with_gate q' s))) in Hs. lia.
  - intros (k' & c' & Hk' & Hc'). simpl in Hk'. apply Hq.
    apply list_lookup_insert_Some in Hk' as [(_ & <- & _)|[Hne Hk']]; [by left|]. right. exists k', c'. simpl.
    by rewrite list_lookup_insert_ne.
  - intros i req Hi. destruct (Hx i req Hi) as [?|[?|Hwait]]; [by auto|by auto|].
    destruct (waiting c0) eqn:Hw0; [destruct (Hw eq_refl) as [?|[Hn|?]]; [|by destruct (Hn i req)|by auto]|];
      right; right; (apply (some_kept waiting k c0 c s); [done|done|congruence]).
Qed.

Lemma others_closed s k : inv s -> some_ctl quiet (with_ctl k Idle s) -> quiesce.closed (s_gate s).
Proof. intros Hi [?|Hs]%some_with; [done|by apply Hi]. Qed.

(** The gate stays where it is. *)
Lemma ctl_only_inv s k c0 c :
  inv s -> s_ctls s !! k = Some c0 -> holds_scope c = holds_scope c0 -> (quiet c = true -> quiesce.closed (s_gate s)) ->
  (waiting c0 = true -> waiting c = true \/ (forall i req, s_jobs s !! i <> Some (Xfer req)) \/
     fence_failed (d_st (s_dev s)) = true) -> inv (with_ctl k c s).
Proof.
  intros Hi Hk Hh Hq Hw. replace s with (with_gate (s_gate s) s) at 1 by (by destruct s).
  apply (ctl_inv s k c0); try done; [apply Hi|unfold scope_count; by rewrite Hh|].
  intros [?|?]; [auto|by eapply others_closed].
Qed.

(** ** Steps keep it *)

Lemma drain_step q q' :
  quiesce.gate_ok q -> quiesce.gate_step quiesce.EDrain q = Some q' ->
  quiesce.drains q' = quiesce.drains q + 1 /\ quiesce.pcs q' = quiesce.pcs q.
Proof.
  intros Hok. pose proof (quiesce.go_drains q Hok). simpl. destruct (Z.leb_spec (2 ^ 64) (quiesce.drains q + 1)); [done|].
  intros [= <-]. simpl. by rewrite wadd_small by lia.
Qed.

Lemma drop_step q q' :
  quiesce.gate_ok q -> quiesce.gate_step quiesce.EDrop q = Some q' ->
  quiesce.drains q' = quiesce.drains q - 1 /\ quiesce.pcs q' = quiesce.pcs q.
Proof.
  intros Hok. pose proof (quiesce.go_drains q Hok). simpl. destruct (Z.eqb_spec (quiesce.drains q) 0); [done|].
  unfold quiesce.drop_scope. destruct (quiesce.lock q); [done|]. intros [= <-]. simpl. by rewrite wsub_small by lia.
Qed.

Lemma park_pcs i q q' :
  quiesce.gate_step (quiesce.EWorker i) q = Some q' ->
  quiesce.drains q' = quiesce.drains q /\ (forall k, k <> i -> quiesce.pcs q' !! k = quiesce.pcs q !! k).
Proof.
  simpl. destruct (quiesce.pcs q !! i) as [p|]; [|done]. intros Hs.
  destruct p; simpl in Hs; repeat case_match; simplify_eq; simpl;
    (split; [done|intros k Hk; by rewrite list_lookup_insert_ne]).
Qed.

Lemma with_others_id s : with_others (s_others s) s = s.
Proof. by destruct s. Qed.

(** Gate operations of others than workers. *)
Lemma gate_only_inv s q' n e :
  inv s -> quiesce.gate_step e (s_gate s) = Some q' -> quiesce.pcs q' = quiesce.pcs (s_gate s) ->
  quiesce.drains q' = quiesce.drains (s_gate s) + (n - s_others s) -> 0 <= n -> inv (with_others n (with_gate q' s)).
Proof.
  intros Hi He Hp Hd Hn. eapply gate_inv; [done|exact He| |rewrite Hd, (i_drains s Hi); lia|done].
  intros i p Hpi Hr _. rewrite Hp. eauto.
Qed.

Lemma park_inv s i j q' :
  inv s -> s_jobs s !! i = Some j -> parking j = true ->
  quiesce.gate_step (quiesce.EWorker i) (s_gate s) = Some q' ->
  inv (with_gate q' (if decide (quiesce.pcs q' !! i = Some quiesce.Run) then with_job i (after_park j) s else s)).
Proof.
  intros Hi Hj Hp He. destruct (park_pcs i _ _ He) as [Hd Hk].
  assert (Hg : inv (with_gate q' s)).
  { pose proof (gate_inv s q' (s_others s) _ Hi He) as H. apply H; [|rewrite Hd; apply Hi|apply Hi].
    intros k p Hpk Hr (j' & Hj' & Hpj'). destruct (decide (k = i)) as [->|]; [congruence|]. exists p. by rewrite Hk. }
  destruct (decide _) as [Hrun|]; [|done].
  change (inv (with_job i (after_park j) (with_gate q' s))). apply job_inv; [done|done|].
  intros req Ha. by destruct j.
Qed.

Section invariant.
Context (pm : physmap.PhysMap) (g : guest).

Lemma retire_ok t st : st_ok False st -> may_retire t st = true -> st_ok False (retire t st).
Proof.
  intros Hok Hm. destruct t as [?|?|idx ? ? ? ?|idx ? ? ? ?]; simpl in *.
  - by apply st_ok_retire.
  - by apply shutdown_st_ok.
  - apply bool_decide_eq_true in Hm as [q Hq]. apply st_ok_drop_sq; [done|].
    unfold sq_at in Hq. destruct (io_sqs st !! idx) eqn:Hl; [|done]. apply lookup_lt_Some in Hl. by rewrite (ok_sqs _ _ Hok) in Hl.
  - apply andb_true_iff in Hm as [[q Hq]%bool_decide_eq_true Hu%negb_true_iff]. apply st_ok_drop_cq; [done| |done].
    unfold cq_at in Hq. destruct (io_cqs st !! idx) eqn:Hl; [|done]. apply lookup_lt_Some in Hl. by rewrite (ok_cqs _ _ Hok) in Hl.
Qed.

Lemma complete_fails head cid status cdw0 d :
  dev_ok False d ->
  wp (admin_complete pm g head cid status cdw0 false) (fun _ d' => fence_failed (d_st d') = true) d.
Proof.
  intros Hd. unfold admin_complete. apply wp_bind, wp_modify. set (d1 := upd _ d).
  assert (Hd1 : dev_ok False d1) by (apply dev_ok_upd; [done|apply fail_st_ok, Hd]).
  assert (Hf1 : fence_failed (d_st d1) = true) by done. clearbody d1.
  apply wp_bind, wp_get, wp_bind, wp_post with (L := False); [done|apply Hd1|]. intros cq' b d2 He2 _ _.
  apply wp_bind, wp_modify. destruct b; [apply wp_ret|apply wp_modify]; simpl; by rewrite He2.
Qed.

Lemma fail_fails t flushed d w d' w' :
  dev_ok False d -> finish pm g t false flushed d w = Some (tt, d', w') -> fence_failed (d_st d') = true.
Proof.
  intros Hd He. destruct t; cbn [finish] in He; [by injection He as <- <-|by injection He as <- <-|..];
    exact (wp_run _ _ _ _ _ _ _ (complete_fails _ _ _ _ d Hd) He).
Qed.

(** A gate a thread found quiet stays closed while another moves. *)
Lemma scoped_closed s k e q' :
  inv s -> quiesce.gate_step e (s_gate s) = Some q' -> some_ctl quiet (with_ctl k Idle s) -> quiesce.closed q'.
Proof.
  intros Hi He [?|Hq]%some_with; [done|]. eapply quiesce.closed_step; [by apply (i_closed s Hi)| |exact He].
  unfold quiesce.is_paused. apply orb_true_intro. right. apply negb_true_iff, Z.eqb_neq.
  pose proof (scopes_some quiet s quiet_holds Hq). pose proof (i_drains s Hi). pose proof (i_others s Hi). lia.
Qed.

Lemma retire_inv s k t :
  inv s -> s_ctls s !! k = Some Idle -> may_retire t (d_st (s_dev s)) = true ->
  inv (with_ctl k (Retired t) (with_dev (upd (retire t) (s_dev s)) (s_world s) s)).
Proof.
  intros Hi Hk Hm. pose proof Hi as [Hg Hd Hj Hdr Ho Hc _].
  split; cbn [s_gate s_dev s_jobs s_ctls s_others with_ctl with_dev]; try done.
  - apply dev_ok_upd; [done|]. by apply retire_ok; [apply Hd|].
  - rewrite Hdr. f_equal. symmetry. apply (Z.add_cancel_r _ _ 0). exact (scopes_with k Idle (Retired t) s Hk).
  - intros [?|Hs]%some_with; [done|]. by apply Hc.
  - intros i req _. right. right. by apply (some_new waiting k Idle).
Qed.

Lemma step_inv s s' : inv s -> step pm g s s' -> inv s'.
Proof.
  intros Hi Hst. pose proof (i_gate s Hi) as Hg.
  destruct Hst as [i j q' Hj Hp He|i [Hr Hj]|i req l [Hr Hj] Hc|i q' [Hr Hj] He|i req [Hr Hj]|i req status w' [Hr Hj]
    |i req status d' w' [Hr Hj] He| |q' He|q' He|q' Ho He|qid new_tail reqs d' w' Ht He|qid new_head d' w' Hh He
    |k new_cc d' w' Hc He|k p1 c10 c11 r d' w' Hc He|k p1 c10 c11 r d' w' Hc He|k t Hc Hm|k t q' Hc He|k t Hc Hw|k t Hc Hw
    |k t flushed d' w' Hc He|k q' Hc He|k t q' Hc He|k t flushed d' w' Hc He].
  - by apply park_inv.
  - by apply job_inv.
  - apply job_inv; [|done|done]. by destruct Hi.
  - rewrite <- (with_others_id s) at 1. eapply (gate_inv s q' (s_others s)); [done|exact He| |by simplify_option_eq; apply Hi|apply Hi].
    simpl in He. rewrite Hr in He. simplify_eq. intros k p Hk Hrk _. simpl. destruct (decide (i = k)) as [<-|].
    + rewrite list_lookup_insert_eq by (by eapply lookup_lt_Some). eauto.
    + rewrite list_lookup_insert_ne by done. eauto.
  - apply job_inv; [done|done|]. intros r. destruct (queues_current _ req) eqn:Hq; [|done]. by intros [= <-].
  - apply dev_inv; [by apply job_inv|apply Hi|apply frame_refl].
  - change (inv (with_job i Park1 (with_dev d' w' s))). apply job_inv; [|done|done].
    eapply framed_inv; [done| |exact He]. apply post_framed.
  - rewrite <- (with_others_id s) at 1. apply (gate_only_inv s _ (s_others s) quiesce.EPause); [done|done|done|simpl; lia|apply Hi].
  - rewrite <- (with_others_id s) at 1. eapply (gate_only_inv s q' (s_others s)); [done|exact He|..|apply Hi];
      simpl in He; unfold quiesce.resume in He; destruct (quiesce.lock _); simplify_eq; simpl; [done|lia].
  - destruct (drain_step _ _ Hg He) as [Hd Hp]. eapply gate_only_inv; [done|exact He|done|lia|]. pose proof (i_others s Hi). lia.
  - destruct (drop_step _ _ Hg He) as [Hd Hp]. eapply gate_only_inv; [done|exact He|done|lia|lia].
  - assert (H : inv (with_dev d' w' s)) by (eapply framed_inv; [done|by apply submit_framed|exact He]). by destruct H.
  - eapply framed_inv; [done|by apply consume_framed|exact He].
  - eapply framed_inv; [done|apply enable_framed|exact He].
  - eapply framed_inv; [done|apply create_cq_framed|exact He].
  - eapply framed_inv; [done|apply create_sq_framed|exact He].
  - by apply retire_inv.
  - destruct (drain_step _ _ Hg He) as [Hd Hp]. apply (ctl_inv s k (Retired t)); try done;
      [by eapply quiesce.gate_step_ok|rewrite Hd; unfold scope_count; cbn [holds_scope]; lia| |by left].
    intros [?|Hq]; [done|]. by eapply scoped_closed.
  - apply (ctl_only_inv s k (Draining t)); try done; [intros _; by apply quiesce.quiesced_closed|]. intros _. right. left.
    intros i req. apply closed_no_xfer; [done|by apply quiesce.quiesced_closed].
  - apply (ctl_only_inv s k (Draining t)); try done. by left.
  - apply (ctl_only_inv _ k (Fenced t)); try done; [eapply framed_inv; [done|apply finish_framed|exact He]|].
    intros _. apply (i_closed s Hi). by exists k, (Fenced t).
  - destruct (drop_step _ _ Hg He) as [Hd Hp]. apply (ctl_inv s k Told); try done;
      [by eapply quiesce.gate_step_ok|rewrite Hd; unfold scope_count; cbn [holds_scope]; lia|].
    intros [?|Hq]; [done|]. by eapply scoped_closed.
  - destruct (drop_step _ _ Hg He) as [Hd Hp]. apply (ctl_inv s k (Failed t)); try done;
      [by eapply quiesce.gate_step_ok|rewrite Hd; unfold scope_count; cbn [holds_scope]; lia| |by left].
    intros [?|Hq]; [done|]. by eapply scoped_closed.
  - apply (ctl_only_inv _ k (Failed2 t)); try done; [eapply framed_inv; [done|apply finish_framed|exact He]|].
    intros _. right. right. simpl. by eapply fail_fails, He; apply Hi.
Qed.

End invariant.

(** Guest memory and its map may change between steps. *)
Definition any_step (s s' : sys) : Prop := exists pm g, step pm g s s'.

Lemma reach_inv workers threads ctrl ns w s :
  Z.of_nat workers < 2 ^ 63 -> rtc any_step (start workers threads ctrl ns w) s -> inv s.
Proof.
  intros Hw Hr. pose proof (start_inv workers threads ctrl ns w Hw) as Hi. induction Hr as [|s1 s2 s3 [pm [g Hs]] _ IH]; [done|].
  apply IH. by eapply step_inv.
Qed.

(** C3: the driver gets its pages back only when no worker uses them, unless
    a drain timed out. In any interleaving of the workers, the processors
    of the guest and the control plane, a worker in a transfer serves
    queues the driver still has, or a thread that took them away is still
    waiting and has told the driver nothing, or a drain timed out and the
    controller remembers it for good (a delete command completes all the
    same then). A thread whose drain succeeded has no worker in a transfer
    from the end of its wait until after RDY, SHST or the completion is
    written. *)
Theorem reset_fences_workers workers threads ctrl ns w s :
  Z.of_nat workers < 2 ^ 63 -> rtc any_step (start workers threads ctrl ns w) s ->
  (forall i req, s_jobs s !! i = Some (Xfer req) ->
     queues_current (d_st (s_dev s)) req = true \/ some_ctl waiting s \/ fence_failed (d_st (s_dev s)) = true) /\
  (some_ctl quiet s -> forall i req, s_jobs s !! i <> Some (Xfer req)).
Proof.
  intros Hw Hr. pose proof (reach_inv _ _ _ _ _ _ Hw Hr) as Hi. split.
  - intros i req Hj. destruct (i_xfer s Hi i req Hj) as [?|[?|?]]; auto.
  - intros Hq i req. apply closed_no_xfer; [done|by apply Hi].
Qed.

(** ** A reset with one worker *)

Definition reset_at (q : quiesce.QuiesceGate) (c : ctl) : sys :=
  mkSys q (mkDev (retire_queues (nvme_new [] [])) (msix.msix_new NVME_MSIX_COUNT) []) (mkWorld ∅ 0) [Park1] [] [c; Idle] 0.

Definition gate1 (active : Z) (lock : option nat) (p : quiesce.pc) : quiesce.QuiesceGate :=
  quiesce.mkGate false 1 active lock [p].

Lemma one_park q q' c :
  quiesce.gate_step (quiesce.EWorker 0) q = Some q' -> quiesce.pcs q' !! 0%nat <> Some quiesce.Run ->
  any_step (reset_at q c) (reset_at q' c).
Proof.
  intros He Hn. exists physmap.physmap_new, idle.
  pose proof (st_park physmap.physmap_new idle (reset_at q c) 0 Park1 q' eq_refl eq_refl He) as Hs.
  by destruct (decide (quiesce.pcs q' !! 0%nat = Some quiesce.Run)).
Qed.

Lemma reset_reaches :
  rtc any_step (start 1 2 [] [] (mkWorld ∅ 0))
    (with_ctl 0 Told (with_dev (mkDev (disabled_st 0 true (retire_queues (nvme_new [] [])))
       (msix.clear_pending (msix.msix_new NVME_MSIX_COUNT)) []) (mkWorld ∅ 0)
       (reset_at (gate1 0 None quiesce.Sleep) (Fenced (Disable 0))))).
Proof.
  eapply rtc_l; [exists physmap.physmap_new, idle; by apply (st_retire _ _ _ 0 (Disable 0))|].
  eapply rtc_l; [exists physmap.physmap_new, idle; by eapply (st_scope _ _ _ 0 (Disable 0))|].
  change (rtc any_step (reset_at (gate1 1 None quiesce.Run) (Draining (Disable 0)))
    (with_ctl 0 Told (with_dev (mkDev (disabled_st 0 true (retire_queues (nvme_new [] [])))
       (msix.clear_pending (msix.msix_new NVME_MSIX_COUNT)) []) (mkWorld ∅ 0)
       (reset_at (gate1 0 None quiesce.Sleep) (Fenced (Disable 0)))))).
  eapply rtc_l; [by apply (one_park _ (gate1 1 None quiesce.First))|].
  eapply rtc_l; [by apply (one_park _ (gate1 1 None quiesce.First2))|].
  eapply rtc_l; [by apply (one_park _ (gate1 1 None quiesce.WantLock))|].
  eapply rtc_l; [by apply (one_park _ (gate1 1 (Some 0%nat) quiesce.Entered))|].
  eapply rtc_l; [by apply (one_park _ (gate1 0 (Some 0%nat) quiesce.Held))|].
  eapply rtc_l; [by apply (one_park _ (gate1 0 (Some 0%nat) quiesce.Held2))|].
  eapply rtc_l; [by apply (one_park _ (gate1 0 None quiesce.Sleep))|].
  eapply rtc_l; [exists physmap.physmap_new, idle; by apply (st_fenced _ _ _ 0 (Disable 0))|].
  apply rtc_once. exists physmap.physmap_new, idle.
  by apply (st_tell _ _ (reset_at (gate1 0 None quiesce.Sleep) (Fenced (Disable 0))) 0 (Disable 0) true).
Qed.

Lemma reset_fences_workers_witness :
  quiet Told = true /\ forall i req, [Park1] !! i <> Some (Xfer req).
Proof.
  split; [done|]. destruct (reset_fences_workers 1 2 [] [] (mkWorld ∅ 0) _ ltac:(done) reset_reaches) as [_ Hq].
  apply Hq. exists 0%nat, Told. split; reflexivity.
Defined.

End nvme_conc.
