(* ===== verification/Vsock.v ===== *)
(** * Stream sockets between the guest and the host

    [Module vsock] models the packet header, the connection and the
    multiplexer of virtio-vsock (vmm-virtio/src/vsock/packet.rs, conn.rs and
    mux.rs), and the two ends of a packet's way through guest memory
    (device/rx.rs [write_packet], device/tx.rs [handle_tx_chain]). A
    connection key is the pair of its guest and host ports. Each operation
    of the multiplexer is what it does under its locks; the two that give
    the table up and go on (a guest's packet, the host's close) are each the
    composition of the part under the lock and the rest. *)

From S2P Require Import Prelude Mapping GuestMem VirtQueue.

Module vsock.
Import mapping guestmem queue.

(** ** packet.rs *)

Definition HDR_SIZE : Z := 44.
Definition CID_HYPERVISOR : Z := 0.
Definition CID_LOCAL : Z := 1.
Definition CID_HOST : Z := 2.
Definition CID_GUEST_MIN : Z := 3.
Definition TYPE_STREAM : Z := 1.
Definition OP_REQUEST : Z := 1.
Definition OP_RESPONSE : Z := 2.
Definition OP_RST : Z := 3.
Definition OP_SHUTDOWN : Z := 4.
Definition OP_RW : Z := 5.
Definition OP_CREDIT_UPDATE : Z := 6.
Definition SHUTDOWN_RCV : Z := 1.
Definition SHUTDOWN_SEND : Z := 2.

Record VsockHdr : Type := mkHdr {
  src_cid : Z; dst_cid : Z; src_port : Z; dst_port : Z; h_len : Z; type_ : Z; op : Z; flags : Z;
  h_buf_alloc : Z; h_fwd_cnt : Z
}.

Definition at_ (buf : list Z) (o n : nat) : Z := le_val (take n (drop o buf)).

Definition from_bytes (buf : list Z) : option VsockHdr :=
  if Z.of_nat (length buf) <? HDR_SIZE then None
  else Some (mkHdr (at_ buf 0 8) (at_ buf 8 8) (at_ buf 16 4) (at_ buf 20 4) (at_ buf 24 4) (at_ buf 28 2)
               (at_ buf 30 2) (at_ buf 32 4) (at_ buf 36 4) (at_ buf 40 4)).

Definition to_bytes (h : VsockHdr) : list Z :=
  le_bytes 8 (src_cid h) ++ le_bytes 8 (dst_cid h) ++ le_bytes 4 (src_port h) ++ le_bytes 4 (dst_port h) ++
  le_bytes 4 (h_len h) ++ le_bytes 2 (type_ h) ++ le_bytes 2 (op h) ++ le_bytes 4 (flags h) ++
  le_bytes 4 (h_buf_alloc h) ++ le_bytes 4 (h_fwd_cnt h).

Definition reply (h : VsockHdr) (o : Z) : VsockHdr :=
  mkHdr CID_HOST (src_cid h) (dst_port h) (src_port h) 0 TYPE_STREAM o 0 0 0.

(** The guest port and the host port. *)
Definition ConnKey : Type := Z * Z.

(** ** conn.rs *)

Definition DEFAULT_BUF_ALLOC : Z := 256 * 1024.

Inductive State : Type := Connecting | Established | LocalSendClosed | PeerSendClosed | Closed.

#[global] Instance state_eq_dec : EqDecision State.
Proof. solve_decision. Defined.

Record VsockConn : Type := mkConn {
  state : State; peer_buf_alloc : Z; peer_fwd_cnt : Z; tx_cnt : Z; buf_alloc : Z; fwd_cnt : Z
}.

Definition conn_new (st : State) : VsockConn := mkConn st 0 0 0 DEFAULT_BUF_ALLOC 0.

Definition set_state (st : State) (c : VsockConn) : VsockConn :=
  mkConn st (peer_buf_alloc c) (peer_fwd_cnt c) (tx_cnt c) (buf_alloc c) (fwd_cnt c).

Definition is_closed (c : VsockConn) : bool := bool_decide (state c = Closed).

Definition peer_credit (c : VsockConn) : Z :=
  let in_flight := wsub 32 (tx_cnt c) (peer_fwd_cnt c) in
  saturating_sub (peer_buf_alloc c) in_flight.

Definition absorb_credit (h : VsockHdr) (c : VsockConn) : VsockConn :=
  mkConn (state c) (h_buf_alloc h) (h_fwd_cnt h) (tx_cnt c) (buf_alloc c) (fwd_cnt c).

Definition record_sent (n : Z) (c : VsockConn) : VsockConn :=
  mkConn (state c) (peer_buf_alloc c) (peer_fwd_cnt c) (wadd 32 (tx_cnt c) n) (buf_alloc c) (fwd_cnt c).

Definition record_forwarded (n : Z) (c : VsockConn) : VsockConn :=
  mkConn (state c) (peer_buf_alloc c) (peer_fwd_cnt c) (tx_cnt c) (buf_alloc c) (wadd 32 (fwd_cnt c) n).

Definition our_credit (c : VsockConn) : Z * Z := (buf_alloc c, fwd_cnt c).

(** The connection after a packet, and the op of the reply it is owed. *)
Definition on_packet (h : VsockHdr) (c : VsockConn) : VsockConn * option Z :=
  let c := absorb_credit h c in
  if negb (type_ h =? TYPE_STREAM) then (set_state Closed c, Some OP_RST)
  else if op h =? OP_RESPONSE then
    match state c with
    | Connecting => (set_state Established c, None)
    | _ => (set_state Closed c, Some OP_RST)
    end
  else if op h =? OP_RST then (set_state Closed c, None)
  else if op h =? OP_SHUTDOWN then
    let both := Z.lor SHUTDOWN_RCV SHUTDOWN_SEND in
    if Z.land (flags h) both =? both then (set_state Closed c, Some OP_RST)
    else
      let c :=
        if bit_set (flags h) SHUTDOWN_SEND
        then set_state (match state c with LocalSendClosed => Closed | _ => PeerSendClosed end) c
        else c in
      (c, if is_closed c then Some OP_RST else None)
  else (c, None).

Definition close_local_send (c : VsockConn) : VsockConn :=
  set_state (match state c with
             | Connecting | PeerSendClosed | Closed => Closed
             | _ => LocalSendClosed
             end) c.

Definition accepts_guest_data (c : VsockConn) : bool :=
  match state c with Established | LocalSendClosed => true | _ => false end.

(** ** mux.rs *)

Definition RX_BACKLOG_MAX : Z := 1024 * 1024.
Definition MAX_CONNS : Z := 1024.
Definition RX_PACKETS_MAX : Z := MAX_CONNS * 4.
Definition EPHEMERAL_PORT_BASE : Z := 49152.

Record RxPacket : Type := mkPkt { hdr : VsockHdr; payload : list Z }.

Definition control (h : VsockHdr) : RxPacket := mkPkt h [].
Definition size (p : RxPacket) : Z := Z.of_nat (length (payload p)).

Inductive GuestAction : Type :=
| ANone
| ADeliver (key : ConnKey) (data : list Z)
| AClose (key : ConnKey)
| AConnect (key : ConnKey) (port : Z).

Record VsockMux : Type := mkMux {
  guest_cid : Z;
  conns : gmap ConnKey VsockConn;
  rx : list RxPacket;
  rx_bytes : Z;
  next_host_port : Z
}.

Definition mux_new (cid : Z) : VsockMux := mkMux cid ∅ [] 0 EPHEMERAL_PORT_BASE.

Definition with_conns (cs : gmap ConnKey VsockConn) (m : VsockMux) : VsockMux :=
  mkMux (guest_cid m) cs (rx m) (rx_bytes m) (next_host_port m).
Definition with_rx (q : list RxPacket) (bytes : Z) (m : VsockMux) : VsockMux :=
  mkMux (guest_cid m) (conns m) q bytes (next_host_port m).
Definition with_port (p : Z) (m : VsockMux) : VsockMux :=
  mkMux (guest_cid m) (conns m) (rx m) (rx_bytes m) p.

Definition conn_count (m : VsockMux) : Z := Z.of_nat (map_size (conns m)).

Definition push_rx (p : RxPacket) (m : VsockMux) : VsockMux * bool :=
  if RX_PACKETS_MAX <=? Z.of_nat (length (rx m)) then (m, false)
  else if negb (size p =? 0) && (RX_BACKLOG_MAX <? saturating_add 64 (rx_bytes m) (size p)) then (m, false)
  else (with_rx (rx m ++ [p]) (saturating_add 64 (rx_bytes m) (size p)) m, true).

Definition pop_rx (m : VsockMux) : option (RxPacket * VsockMux) :=
  match rx m with
  | [] => None
  | p :: q => Some (p, with_rx q (saturating_sub (rx_bytes m) (size p)) m)
  end.

Definition requeue_rx_front (p : RxPacket) (m : VsockMux) : VsockMux :=
  with_rx (p :: rx m) (saturating_add 64 (rx_bytes m) (size p)) m.

(** The [for _ in 0..=MAX_CONNS] of [reserve_host_connect]. *)
Fixpoint reserve_loop (n : nat) (guest_port : Z) (m : VsockMux) : option ConnKey * VsockMux :=
  match n with
  | O => (None, m)
  | S n =>
      let host_port := next_host_port m in
      let m := with_port (wadd 32 host_port 1) m in
      let key := (guest_port, host_port) in
      match conns m !! key with
      | None => (Some key, with_conns (<[key := conn_new Connecting]> (conns m)) m)
      | Some _ => reserve_loop n guest_port m
      end
  end.

Definition reserve_host_connect (guest_port : Z) (m : VsockMux) : option ConnKey * VsockMux :=
  if MAX_CONNS <=? conn_count m then (None, m)
  else reserve_loop (S (Z.to_nat MAX_CONNS)) guest_port m.

Definition hdr_for (key : ConnKey) (o : Z) (m : VsockMux) : VsockHdr :=
  mkHdr CID_HOST (guest_cid m) key.2 key.1 0 TYPE_STREAM o 0 0 0.

Definition set_credit (credit : Z * Z) (h : VsockHdr) : VsockHdr :=
  mkHdr (src_cid h) (dst_cid h) (src_port h) (dst_port h) (h_len h) (type_ h) (op h) (flags h) credit.1 credit.2.
Definition set_len (n : Z) (h : VsockHdr) : VsockHdr :=
  mkHdr (src_cid h) (dst_cid h) (src_port h) (dst_port h) n (type_ h) (op h) (flags h) (h_buf_alloc h) (h_fwd_cnt h).
Definition set_flags (f : Z) (h : VsockHdr) : VsockHdr :=
  mkHdr (src_cid h) (dst_cid h) (src_port h) (dst_port h) (h_len h) (type_ h) (op h) f (h_buf_alloc h) (h_fwd_cnt h).

Definition stamp_credit (key : ConnKey) (h : VsockHdr) (m : VsockMux) : VsockHdr :=
  match conns m !! key with
  | Some c => set_credit (our_credit c) h
  | None => h
  end.

Definition announce_host_connect (key : ConnKey) (m : VsockMux) : VsockMux :=
  (push_rx (control (stamp_credit key (hdr_for key OP_REQUEST m) m)) m).1.

(** The multiplexer, and what is left of the caller's buffer. *)
Definition queue_host_data (key : ConnKey) (data : list Z) (m : VsockMux) : VsockMux * list Z :=
  match conns m !! key with
  | None => (m, [])
  | Some c =>
      let n := Z.min (peer_credit c) (Z.of_nat (length data)) in
      if n =? 0 then (m, data)
      else
        let h := set_credit (our_credit c) (set_len (as_u 32 n) (hdr_for key OP_RW m)) in
        let '(m, pushed) := push_rx (mkPkt h (take (Z.to_nat n) data)) m in
        if negb pushed then (m, data)
        else (with_conns (<[key := record_sent (as_u 32 n) c]> (conns m)) m, drop (Z.to_nat n) data)
  end.

Definition forget (key : ConnKey) (m : VsockMux) : VsockMux := with_conns (delete key (conns m)) m.

(** [queue_host_close] while it has the table: whether there is a
    connection, and whether it is to be forgotten. *)
Definition close_mark (key : ConnKey) (m : VsockMux) : VsockMux * option bool :=
  match conns m !! key with
  | None => (m, None)
  | Some c =>
      let c := close_local_send c in
      (with_conns (<[key := c]> (conns m)) m, Some (is_closed c))
  end.

(** Its rest. *)
Definition close_tell (key : ConnKey) (closed : bool) (m : VsockMux) : VsockMux :=
  let h := set_flags (Z.lor SHUTDOWN_RCV SHUTDOWN_SEND) (hdr_for key OP_SHUTDOWN m) in
  let m := (push_rx (control h) m).1 in
  if closed then forget key m else m.

Definition queue_host_close (key : ConnKey) (m : VsockMux) : VsockMux :=
  match close_mark key m with
  | (m, None) => m
  | (m, Some closed) => close_tell key closed m
  end.

(** What [on_guest_packet] found in the table. *)
Inductive Verdict : Type :=
| VRefuse
| VIgnore
| VConnect
| VApplied (reply_op : option Z) (closed accepts : bool).

Definition key_of (h : VsockHdr) : ConnKey := (src_port h, dst_port h).

(** [on_guest_packet] while it has the table. *)
Definition guest_mark (h : VsockHdr) (data : list Z) (m : VsockMux) : VsockMux * Verdict :=
  let key := key_of h in
  if negb (dst_cid h =? CID_HOST) then (m, VRefuse)
  else if op h =? OP_REQUEST then
    if bool_decide (is_Some (conns m !! key)) || (MAX_CONNS <=? conn_count m) then (m, VRefuse)
    else (with_conns (<[key := absorb_credit h (conn_new Established)]> (conns m)) m, VConnect)
  else
    match conns m !! key with
    | None => (m, if op h =? OP_RST then VIgnore else VRefuse)
    | Some c =>
        let '(c, rep) := on_packet h c in
        let c' := if op h =? OP_RW then record_forwarded (as_u 32 (Z.of_nat (length data))) c else c in
        (with_conns (<[key := c']> (conns m)) m, VApplied rep (is_closed c) (accepts_guest_data c))
    end.

(** Its rest. *)
Definition guest_tell (h : VsockHdr) (data : list Z) (v : Verdict) (m : VsockMux) : VsockMux * GuestAction :=
  let key := key_of h in
  match v with
  | VRefuse => ((push_rx (control (reply h OP_RST)) m).1, ANone)
  | VIgnore => (m, ANone)
  | VConnect => (m, AConnect key (dst_port h))
  | VApplied rep closed accepts =>
      let m := match rep with Some o => (push_rx (control (reply h o)) m).1 | None => m end in
      if closed then (forget key m, AClose key)
      else if (op h =? OP_RW) && accepts && negb (Z.of_nat (length data) =? 0)
      then (m, ADeliver key data)
      else (m, ANone)
  end.

Definition on_guest_packet (h : VsockHdr) (data : list Z) (m : VsockMux) : VsockMux * GuestAction :=
  let '(m, v) := guest_mark h data m in guest_tell h data v m.

Definition accept_guest_connect (key : ConnKey) (m : VsockMux) : VsockMux :=
  match conns m !! key with
  | None => m
  | Some _ => (push_rx (control (stamp_credit key (hdr_for key OP_RESPONSE m) m)) m).1
  end.

Definition refuse_guest_connect (key : ConnKey) (m : VsockMux) : VsockMux :=
  let m := forget key m in (push_rx (control (hdr_for key OP_RST m)) m).1.

(** ** device/rx.rs and device/tx.rs: through guest memory *)

Definition writable (b : ChainBuf) : Z := match b with Writable _ len => len | Readable _ _ => 0 end.
Definition capacity (bufs : list ChainBuf) : Z := foldr (fun b n => writable b + n) 0 bufs.

(** The part that fits a chain of [cap] bytes and the rest; [None] when not
    even the header does. *)
Definition split_packet (cap : Z) (p : RxPacket) : option (RxPacket * option RxPacket) :=
  if cap <? HDR_SIZE then None
  else
    let room := Z.to_nat (cap - HDR_SIZE) in
    let rest :=
      if cap - HDR_SIZE <? size p
      then let t := drop room (payload p) in Some (mkPkt (set_len (as_u 32 (Z.of_nat (length t))) (hdr p)) t)
      else None in
    let fit := if cap - HDR_SIZE <? size p then take room (payload p) else payload p in
    Some (mkPkt (set_len (as_u 32 (Z.of_nat (length fit))) (hdr p)) fit, rest).

(** Bytes a reader thread takes from its socket at a time (listener.rs). *)
Definition HOST_READ_CHUNK : Z := 64 * 1024.

Section memory.
Context `{GuestMap P} (pm : P) (g : guest).

(** [physmap.lookup(addr, n)?.write_bytes(data)]. *)
Definition put_bytes (addr : Z) (data : list Z) : io unit := fun w =>
  let w := turn g w in
  match gm_lookup pm addr (Z.of_nat (length data)) with
  | None => (None, w)
  | Some sub =>
      match write_bytes (w_mem w) sub data with
      | Ok hm => (Some tt, mkWorld hm (w_time w))
      | Err _ => (None, w)
      end
  end.

Definition get_bytes (addr : Z) (n : nat) : io (list Z) := fun w =>
  let w := turn g w in
  (let* sub := gm_lookup pm addr (Z.of_nat n) in
   match read_bytes (w_mem w) sub n with Ok b => Some b | Err _ => None end, w).

(** The copy into the chain: how many bytes went out. *)
Fixpoint put_blob (bufs : list ChainBuf) (blob : list Z) (written : Z) (w : world) : Z * world :=
  match bufs with
  | [] => (written, w)
  | Readable _ _ :: bufs => put_blob bufs blob written w
  | Writable addr len :: bufs =>
      let remaining := Z.of_nat (length blob) - written in
      if remaining =? 0 then (written, w)
      else
        let want := Z.min len remaining in
        match put_bytes addr (take (Z.to_nat want) (drop (Z.to_nat written) blob)) w with
        | (None, w) => (written, w)
        | (Some _, w) => put_blob bufs blob (written + want) w
        end
  end.

(** The length of the used entry. *)
Definition write_packet (bufs : list ChainBuf) (p : RxPacket) (m : VsockMux) (w : world) : VsockMux * Z * world :=
  match split_packet (capacity bufs) p with
  | None => (requeue_rx_front p m, 0, w)
  | Some (p, rest) =>
      let m := match rest with Some t => requeue_rx_front t m | None => m end in
      let '(written, w) := put_blob bufs (to_bytes (hdr p) ++ payload p) 0 w in
      (m, as_u 32 written, w)
  end.

Definition MAX_TX_PAYLOAD : Z := 64 * 1024.
Definition CAP : Z := HDR_SIZE + MAX_TX_PAYLOAD.

(** The bytes of a packet, or nothing when a buffer cannot be read. *)
Fixpoint gather (bufs : list ChainBuf) (blob : list Z) : io (list Z) :=
  match bufs with
  | [] => io_ret blob
  | Writable _ _ :: bufs => gather bufs blob
  | Readable addr len :: bufs =>
      let want := Z.min len (saturating_sub CAP (Z.of_nat (length blob))) in
      if want =? 0 then io_ret blob
      else let! chunk := get_bytes addr (Z.to_nat want) in gather bufs (blob ++ chunk)
  end.

(** The header and payload [handle_tx_chain] hands to the multiplexer. *)
Definition packet_of (blob : list Z) : option (VsockHdr * list Z) :=
  let* h := from_bytes blob in
  let available := Z.of_nat (length blob) - HDR_SIZE in
  let n := Z.min (Z.min (h_len h) available) MAX_TX_PAYLOAD in
  Some (h, take (Z.to_nat n) (drop (Z.to_nat HDR_SIZE) blob)).

Definition handle_tx_chain (bufs : list ChainBuf) (m : VsockMux) (w : world) : VsockMux * GuestAction * world :=
  match gather bufs [] w with
  | (None, w) => (m, ANone, w)
  | (Some blob, w) =>
      match packet_of blob with
      | None => (m, ANone, w)
      | Some (h, data) => (on_guest_packet h data m, w)
      end
  end.

End memory.

End vsock.
