(* ===== verification/VsockThm.v ===== *)
(** * What virtio-vsock promises

    The header is read back as it was written; a packet lands in its chain;
    the packets paired with chains are the stream the host sent, in order; a
    guest that reports honestly, and uses its ports again only when they are
    quiet, is never sent more than its buffer holds; and the memory a device
    holds for a guest that does not read is bounded. Two theorems show where
    the code falls short of its comments when a guest opens a connection
    again under the same ports. *)

From stdpp Require Import fin_maps fin_sets.
From S2P Require Import Prelude Mapping PhysMap GuestMem VirtQueue VirtQueueThm Vsock.

Module vsock_thm.
Import mapping guestmem queue vsock.

(** ** The header *)

Record hdr_typed (h : VsockHdr) : Prop := {
  ht_src : uint 64 (src_cid h); ht_dst : uint 64 (dst_cid h); ht_sport : uint 32 (src_port h);
  ht_dport : uint 32 (dst_port h); ht_len : uint 32 (h_len h); ht_type : uint 16 (type_ h); ht_op : uint 16 (op h);
  ht_flags : uint 32 (flags h); ht_alloc : uint 32 (h_buf_alloc h); ht_fwd : uint 32 (h_fwd_cnt h)
}.

Lemma at_here n z rest : 0 <= z < 2 ^ (8 * Z.of_nat n) -> at_ (le_bytes n z ++ rest) 0 n = z.
Proof.
  intros Hz. unfold at_. rewrite drop_0, take_app_le by (by rewrite length_le_bytes).
  rewrite take_ge by (by rewrite length_le_bytes). by apply le_val_le_bytes.
Qed.

Lemma at_skip k n z rest o : (k <= o)%nat -> at_ (le_bytes k z ++ rest) o n = at_ rest (o - k) n.
Proof. intros Hk. unfold at_. rewrite drop_app_ge by (by rewrite length_le_bytes). by rewrite length_le_bytes. Qed.

Ltac decode_field :=
  repeat (rewrite at_skip by lia; cbn [Nat.sub]); apply at_here; unfold uint in *; simpl; lia.

(** The header a side writes is the header the other side reads, field
    by field, whatever payload follows its 44 bytes. *)
Theorem header_roundtrip h rest :
  hdr_typed h -> from_bytes (to_bytes h ++ rest) = Some h /\ length (to_bytes h) = Z.to_nat HDR_SIZE.
Proof.
  intros [? ? ? ? ? ? ? ? ? ?]. split; [|done]. unfold from_bytes.
  assert (Hl : (Z.of_nat (length (to_bytes h ++ rest)) <? HDR_SIZE) = false).
  { apply Z.ltb_ge. rewrite length_app. change (length (to_bytes h)) with 44%nat. unfold HDR_SIZE. lia. }
  rewrite Hl. unfold to_bytes. rewrite <- !app_assoc. destruct h as [a b c d e f i j k l].
  cbn [src_cid dst_cid src_port dst_port h_len type_ op flags h_buf_alloc h_fwd_cnt] in *. f_equal.
  f_equal; decode_field.
Qed.

(** ** Credit *)

Lemma push_rx_conns p m : conns (push_rx p m).1 = conns m.
Proof. unfold push_rx. by repeat case_match. Qed.

(** What one call takes: a prefix, within the credit. *)
Lemma queue_host_data_spec key data m m' rest c :
  conns m !! key = Some c -> 0 <= peer_credit c < 2 ^ 32 -> queue_host_data key data m = (m', rest) ->
  exists n, 0 <= n <= peer_credit c /\ data = take (Z.to_nat n) data ++ rest /\ n <= Z.of_nat (length data) /\
    (n = 0 /\ m' = m \/ 0 < n /\
     conns m' = <[key := record_sent n c]> (conns m) /\
     exists q, (push_rx q m).2 = true /\ rx m' = rx m ++ [q] /\ rx_bytes m' = saturating_add 64 (rx_bytes m) (size q) /\
       payload q = take (Z.to_nat n) data /\ next_host_port m' = next_host_port m /\
       hdr q = set_credit (our_credit c) (set_len n (hdr_for key OP_RW m))).
Proof.
  intros Hc Hcr. unfold queue_host_data. rewrite Hc. set (n := Z.min _ _).
  destruct (Z.eqb_spec n 0) as [Hn|Hn].
  { intros [= <- <-]. exists 0. split_and!; [lia|lia|done|lia|by left]. }
  assert (Hu : as_u 32 n = n) by (unfold as_u; apply Z.mod_small; lia). rewrite Hu.
  set (q := mkPkt _ _). destruct (push_rx q m) as [m1 pushed] eqn:Hp. destruct pushed; cbn [negb].
  - intros [= <- <-]. exists n. split_and!; [lia|lia|by rewrite take_drop|lia|]. right.
    unfold push_rx in Hp. destruct (_ <=? _) eqn:H1; [done|]. destruct (_ && _) eqn:H2; [done|].
    injection Hp as <-. split; [lia|]. split; [done|]. exists q. split; [unfold push_rx; by rewrite H1, H2|done].
  - intros [= <- <-]. exists 0. split_and!; [lia|lia|done|lia|]. left. split; [done|].
    unfold push_rx in Hp. repeat case_match; by simplify_eq.
Qed.

(** ** Ports for host connections *)

Definition port_at (p : Z) (i : nat) : Z := (p + Z.of_nat i) mod 2 ^ 32.

Lemma reserve_loop_spec n gp m :
  uint 32 (next_host_port m) ->
  (exists i, (i < n)%nat /\ conns m !! (gp, port_at (next_host_port m) i) = None /\
     reserve_loop n gp m = (Some (gp, port_at (next_host_port m) i),
       with_conns (<[(gp, port_at (next_host_port m) i) := conn_new Connecting]> (conns m))
         (with_port (port_at (next_host_port m) (S i)) m))) \/
  (forall i, (i < n)%nat -> is_Some (conns m !! (gp, port_at (next_host_port m) i))).
Proof.
  revert m. induction n as [|n IH]; intros m Hp; [right; lia|]. cbn [reserve_loop].
  assert (H0 : port_at (next_host_port m) 0 = next_host_port m).
  { unfold port_at. rewrite Z.add_0_r. apply Z.mod_small. exact Hp. }
  assert (HS : forall i, port_at (wadd 32 (next_host_port m) 1) i = port_at (next_host_port m) (S i)).
  { intros i. unfold port_at, wadd. rewrite Zplus_mod_idemp_l. f_equal. lia. }
  cbn [with_port conns]. destruct (conns m !! (gp, next_host_port m)) as [c|] eqn:Hk.
  - destruct (IH (with_port (wadd 32 (next_host_port m) 1) m)) as [(i & Hi & Hn & He)|Hall].
    + simpl. unfold wadd, uint. pose proof (Z.mod_pos_bound (next_host_port m + 1) (2 ^ 32)). lia.
    + left. exists (S i). cbn [with_port next_host_port conns] in *. rewrite <- !HS. split; [lia|]. split; [done|].
      rewrite He. by rewrite HS.
    + right. intros [|i] Hi; [rewrite H0; by eauto|]. rewrite <- HS. apply Hall. lia.
  - left. exists 0%nat. rewrite H0. split; [lia|]. split; [done|]. unfold port_at, wadd. done.
Qed.

(** A host peer gets a connection whenever the table has room: the search
    for a free port cannot come up empty, even when the guest has taken the
    ports next in line, and it never takes over a connection there is. *)
Theorem reserve_finds_port gp m :
  uint 32 (next_host_port m) -> conn_count m < MAX_CONNS ->
  exists key m', reserve_host_connect gp m = (Some key, m') /\ key.1 = gp /\ conns m !! key = None /\
    conns m' = <[key := conn_new Connecting]> (conns m) /\ rx m' = rx m.
Proof.
  intros Hp Hc. unfold reserve_host_connect. destruct (Z.leb_spec MAX_CONNS (conn_count m)); [lia|].
  destruct (reserve_loop_spec (S (Z.to_nat MAX_CONNS)) gp m Hp) as [(i & _ & Hn & ->)|Hall]; [by eauto 10|].
  exfalso. set (ks := (fun i => (gp, port_at (next_host_port m) i)) <$> seq 0 (S (Z.to_nat MAX_CONNS))).
  assert (Hnd : NoDup ks).
  { apply NoDup_fmap_2_strong; [|apply NoDup_seq]. intros i j Hi%elem_of_seq Hj%elem_of_seq Heq.
    injection Heq as Heq. unfold port_at in Heq. change MAX_CONNS with 1024 in *. unfold uint in Hp.
    assert (Hlt : forall k, (k < 1025)%nat -> exists q, next_host_port m + Z.of_nat k = 2 ^ 32 * q + (next_host_port m + Z.of_nat k) mod 2 ^ 32 /\ (q = 0 \/ q = 1)).
    { intros k Hk. exists ((next_host_port m + Z.of_nat k) / 2 ^ 32). split; [apply Z.div_mod; lia|].
      pose proof (Z.div_pos (next_host_port m + Z.of_nat k) (2 ^ 32) ltac:(lia) ltac:(lia)).
      pose proof (Z.div_lt_upper_bound (next_host_port m + Z.of_nat k) (2 ^ 32) 2 ltac:(lia) ltac:(lia)). lia. }
    destruct (Hlt i ltac:(lia)) as (qi & Hqi & ?), (Hlt j ltac:(lia)) as (qj & Hqj & ?). lia. }
  assert (Hsub : (list_to_set ks : gset ConnKey) ⊆ dom (conns m)).
  { intros k Hk. apply elem_of_list_to_set, list_elem_of_fmap in Hk as (i & -> & Hi%elem_of_seq).
    apply elem_of_dom, Hall. lia. }
  apply subseteq_size in Hsub. rewrite size_list_to_set in Hsub by done. unfold ks in Hsub.
  rewrite length_fmap, length_seq in Hsub. unfold conn_count in Hc.
  change (map_size (conns m)) with (base.size (conns m)) in Hc. rewrite <- size_dom in Hc.
  change MAX_CONNS with 1024 in *. lia.
Qed.



(** ** The multiplexer among its threads *)

Section system.
Context `{GuestMap P}.

(** The multiplexer, the packet the pairing pass has popped and not yet
    written, the packets it has paired with a chain so far with the bytes of
    each that went into guest memory, and the bytes taken from the readers of
    each pair of ports. *)
Record vsys : Type := mkSys {
  v_mux : VsockMux; v_hand : option RxPacket; v_out : list (RxPacket * Z); v_taken : ConnKey -> list Z
}.

Definition vsys_start (cid : Z) : vsys := mkSys (mux_new cid) None [] (fun _ => []).

Definition on_mux (f : VsockMux -> VsockMux) (s : vsys) : vsys := mkSys (f (v_mux s)) (v_hand s) (v_out s) (v_taken s).

(** What a pass does with the packet in hand and a chain. *)
Definition write_hand (pm : P) (g : guest) (bufs : list ChainBuf) (p : RxPacket) (w : world) (s : vsys) : vsys :=
  let '(m, written, _) := write_packet pm g bufs p (v_mux s) w in
  let paired := match split_packet (capacity bufs) p with Some (fit, _) => [(fit, written)] | None => [] end in
  mkSys m None (v_out s ++ paired) (v_taken s).

(** One step of any thread: what it does between taking and giving up the
    locks. A control packet may come from any operation that queues one,
    late or not at all, and a connection may be forgotten at any time. *)
Inductive vstep : vsys -> vsys -> Prop :=
| vs_data s key data m rest taken :
    Z.of_nat (length data) <= HOST_READ_CHUNK -> queue_host_data key data (v_mux s) = (m, rest) ->
    taken = (if decide (is_Some (conns (v_mux s) !! key)) then take (length data - length rest) data else []) ->
    vstep s (mkSys m (v_hand s) (v_out s) (fun k => if decide (k = key) then v_taken s k ++ taken else v_taken s k))
| vs_pop s p m : v_hand s = None -> pop_rx (v_mux s) = Some (p, m) -> vstep s (mkSys m (Some p) (v_out s) (v_taken s))
| vs_write s p pm g bufs w :
    v_hand s = Some p -> Forall (fun b => 0 <= writable b) bufs -> vstep s (write_hand pm g bufs p w s)
| vs_control s h : h_len h = 0 -> vstep s (on_mux (fun m => (push_rx (control h) m).1) s)
| vs_reserve s gp : vstep s (on_mux (fun m => (reserve_host_connect gp m).2) s)
| vs_guest s h data : vstep s (on_mux (fun m => (guest_mark h data m).1) s)
| vs_close s key : vstep s (on_mux (fun m => (close_mark key m).1) s)
| vs_forget s key : vstep s (on_mux (forget key) s).

Definition vreach (cid : Z) : vsys -> Prop := rtc vstep (vsys_start cid).

Definition step_of (f : VsockMux -> VsockMux) : Prop := forall s, rtc vstep s (on_mux f s).

(** Every operation of the multiplexer is a sequence of such steps, other
    threads' steps in between left out. *)
Lemma push_steps h : h_len h = 0 -> step_of (fun m => (push_rx (control h) m).1).
Proof. intros Hh s. by apply rtc_once, vs_control. Qed.

Lemma forget_steps key : step_of (forget key).
Proof. intros s. apply rtc_once, vs_forget. Qed.

Lemma refuse_steps key : step_of (refuse_guest_connect key).
Proof.
  intros s. eapply (rtc_l _ _ _ _ (vs_forget s key)).
  exact (push_steps (hdr_for key OP_RST (v_mux s)) eq_refl (on_mux (forget key) s)).
Qed.

Lemma stamped_len key h m : h_len (stamp_credit key h m) = h_len h.
Proof. unfold stamp_credit. by case_match. Qed.

Lemma announce_steps key : step_of (announce_host_connect key).
Proof. intros s. by apply (push_steps (stamp_credit key (hdr_for key OP_REQUEST (v_mux s)) (v_mux s))); rewrite stamped_len. Qed.

Lemma accept_steps key : step_of (accept_guest_connect key).
Proof.
  intros s. unfold on_mux, accept_guest_connect. case_match; [|by destruct s].
  by apply (push_steps (stamp_credit key (hdr_for key OP_RESPONSE (v_mux s)) (v_mux s))); rewrite stamped_len.
Qed.

Lemma close_tell_steps key closed : step_of (close_tell key closed).
Proof.
  intros s. unfold on_mux, close_tell.
  pose proof (push_steps (set_flags (Z.lor SHUTDOWN_RCV SHUTDOWN_SEND) (hdr_for key OP_SHUTDOWN (v_mux s))) eq_refl s) as Hp.
  destruct closed; [|exact Hp]. etrans; [exact Hp|]. exact (forget_steps key (on_mux _ s)).
Qed.

Lemma close_steps key : step_of (queue_host_close key).
Proof.
  intros s. pose proof (vs_close s key) as H1. unfold queue_host_close, on_mux in *.
  destruct (close_mark key (v_mux s)) as [m [closed|]]; simpl in *; [|by apply rtc_once].
  eapply rtc_l; [exact H1|]. exact (close_tell_steps key closed (mkSys m (v_hand s) (v_out s) (v_taken s))).
Qed.

Lemma guest_tell_steps h data v : step_of (fun m => (guest_tell h data v m).1).
Proof.
  intros s. unfold on_mux, guest_tell. destruct v as [| | |rep closed acc]; simpl;
    [by apply push_steps|by destruct s|by destruct s|].
  set (m1 := match rep with Some o => _ | None => _ end).
  assert (Hm : rtc vstep s (mkSys m1 (v_hand s) (v_out s) (v_taken s))).
  { unfold m1. destruct rep; [by apply push_steps|by destruct s]. }
  destruct closed; simpl; [|by case_match]. etrans; [exact Hm|].
  exact (forget_steps (key_of h) (mkSys m1 (v_hand s) (v_out s) (v_taken s))).
Qed.

Lemma guest_steps h data : step_of (fun m => (on_guest_packet h data m).1).
Proof.
  intros s. pose proof (vs_guest s h data) as H1. unfold on_guest_packet, on_mux in *.
  destruct (guest_mark h data (v_mux s)) as [m v]; simpl in *. eapply rtc_l; [exact H1|].
  exact (guest_tell_steps h data v (mkSys m (v_hand s) (v_out s) (v_taken s))).
Qed.

(** ** Bounds and streams *)

Definition paired (s : vsys) : list RxPacket := fst <$> v_out s.

Definition bytes_of (q : list RxPacket) : Z := foldr (fun p n => size p + n) 0 q.
Definition hand_list (s : vsys) : list RxPacket := option_list (v_hand s).

(** The key of a packet for the guest, and the payload of the packets of a
    connection, in order. *)
Definition pkt_key (p : RxPacket) : ConnKey := (dst_port (hdr p), src_port (hdr p)).
Definition stream (k : ConnKey) (q : list RxPacket) : list Z :=
  concat (payload <$> filter (fun p => pkt_key p = k) q).

Definition pkt_ok (p : RxPacket) : Prop := h_len (hdr p) = size p /\ size p <= HOST_READ_CHUNK.

Record vinv (s : vsys) : Prop := mkVinv {
  vi_pkts : Forall pkt_ok (rx (v_mux s) ++ hand_list s ++ paired s);
  vi_written : Forall (fun o => 0 <= o.2 <= HDR_SIZE + size o.1) (v_out s);
  vi_len : Z.of_nat (length (rx (v_mux s))) + Z.of_nat (length (hand_list s)) <= RX_PACKETS_MAX + 1;
  vi_bytes : rx_bytes (v_mux s) = bytes_of (rx (v_mux s));
  vi_backlog : bytes_of (rx (v_mux s)) + bytes_of (hand_list s) <= RX_BACKLOG_MAX + HOST_READ_CHUNK;
  vi_conns : conn_count (v_mux s) <= MAX_CONNS;
  vi_port : uint 32 (next_host_port (v_mux s));
  vi_stream : forall k, stream k (paired s ++ hand_list s ++ rx (v_mux s)) = v_taken s k
}.

Lemma size_nonneg p : 0 <= size p.
Proof. unfold size. lia. Qed.

Lemma bytes_nonneg q : 0 <= bytes_of q.
Proof. induction q as [|p q IH]; simpl; [lia|]. pose proof (size_nonneg p). lia. Qed.

Lemma bytes_app q1 q2 : bytes_of (q1 ++ q2) = bytes_of q1 + bytes_of q2.
Proof. induction q1 as [|p q1 IH]; simpl; [done|]. lia. Qed.

Lemma stream_app k q1 q2 : stream k (q1 ++ q2) = stream k q1 ++ stream k q2.
Proof. unfold stream. by rewrite filter_app, fmap_app, concat_app. Qed.

Lemma stream_one k p : stream k [p] = if decide (pkt_key p = k) then payload p else [].
Proof. unfold stream. rewrite filter_cons. case_decide; simpl; [by rewrite app_nil_r|done]. Qed.

Lemma count_insert (cs : gmap ConnKey VsockConn) k c :
  (map_size (<[k := c]> cs) = if decide (is_Some (cs !! k)) then map_size cs else S (map_size cs))%nat.
Proof.
  case_decide as Hk; [destruct Hk; by eapply map_size_insert_Some|].
  apply map_size_insert_None. by apply eq_None_not_Some.
Qed.

Lemma sat_add_small a b : 0 <= a + b < 2 ^ 64 -> saturating_add 64 a b = a + b.
Proof. unfold saturating_add. lia. Qed.

(** A table operation: the queue stays, the table does not outgrow its
    bound. *)
Lemma vinv_table f s :
  vinv s -> (rx (f (v_mux s)) = rx (v_mux s) /\ rx_bytes (f (v_mux s)) = rx_bytes (v_mux s) /\
    conn_count (f (v_mux s)) <= MAX_CONNS /\ uint 32 (next_host_port (f (v_mux s)))) ->
  vinv (on_mux f s).
Proof.
  intros [H1 H0 H2 H3 H4 H5 H6 H7] (Hrx & Hb & Hc & Hp).
  split; unfold on_mux, hand_list, paired in *; simpl in *; rewrite ?Hrx, ?Hb; auto.
Qed.

(** A push, refused or not. *)
Lemma vinv_push p s m :
  vinv s -> pkt_ok p -> push_rx p (v_mux s) = (m, true) ->
  length (rx m) = S (length (rx (v_mux s))) /\ rx m = rx (v_mux s) ++ [p] /\
  Z.of_nat (length (rx m)) <= RX_PACKETS_MAX /\ rx_bytes m = bytes_of (rx m) /\
  (size p = 0 \/ bytes_of (rx m) <= RX_BACKLOG_MAX).
Proof.
  intros [H1 H0 H2 H3 H4 H5 H6 H7] [_ Hsz] Hp. unfold push_rx in Hp.
  destruct (Z.leb_spec RX_PACKETS_MAX (Z.of_nat (length (rx (v_mux s))))); [done|].
  destruct (_ && _) eqn:Hcap; [done|]. injection Hp as <-. simpl.
  pose proof (bytes_nonneg (rx (v_mux s))). pose proof (bytes_nonneg (hand_list s)). pose proof (size_nonneg p).
  unfold RX_BACKLOG_MAX, HOST_READ_CHUNK in *. rewrite H3 in *. rewrite sat_add_small in * by lia.
  rewrite length_app, bytes_app. simpl. split_and!; [lia|done|lia|lia|].
  apply andb_false_iff in Hcap as [Hz|Hz%Z.ltb_ge]; [left|right; lia].
  by apply negb_false_iff, Z.eqb_eq in Hz.
Qed.

Lemma hand_bytes s : vinv s -> bytes_of (hand_list s) <= HOST_READ_CHUNK.
Proof.
  intros [H1 _ _ _ _ _ _ _]. unfold hand_list in *. destruct (v_hand s) as [p|]; simpl in *; [|unfold HOST_READ_CHUNK; lia].
  rewrite !Forall_app, Forall_cons in H1. destruct H1 as (_ & [_ Hp] & _). lia.
Qed.

(** The state after a packet has joined the queue. *)
Lemma vinv_queued p s m m' taken :
  vinv s -> pkt_ok p -> push_rx p (v_mux s) = (m, true) ->
  rx m' = rx m -> rx_bytes m' = rx_bytes m -> conn_count m' <= MAX_CONNS -> uint 32 (next_host_port m') ->
  (forall k, taken k = v_taken s k ++ if decide (pkt_key p = k) then payload p else []) ->
  vinv (mkSys m' (v_hand s) (v_out s) taken).
Proof.
  intros Hs Hp Hpush Hrx Hb Hc Hport Htk. destruct (vinv_push p s m Hs Hp Hpush) as (_ & Hq & Hl & Hbytes & Hcap).
  pose proof (hand_bytes s Hs) as Hh. destruct Hs as [H1 H0 H2 H3 H4 H5 H6 H7].
  split; unfold hand_list, paired in *; simpl in *; rewrite ?Hrx, ?Hb; try done.
  - rewrite Hq. rewrite !Forall_app in *. destruct H1 as (? & ? & ?). split_and!; auto.
  - destruct (v_hand s); simpl in *; lia.
  - destruct Hcap as [Hz|]; [|lia]. rewrite Hq, bytes_app. simpl. lia.
  - intros k. rewrite Hq, !app_assoc, stream_app, stream_one, Htk. f_equal. rewrite <- app_assoc. apply H7.
Qed.

Lemma vinv_push_any p s : vinv s -> pkt_ok p -> size p = 0 -> vinv (on_mux (fun m => (push_rx p m).1) s).
Proof.
  intros Hs Hp Hz. unfold on_mux. destruct (push_rx p (v_mux s)) as [m [|]] eqn:Hpush.
  - apply (vinv_queued p s m m); auto.
    + unfold push_rx in Hpush. repeat case_match; simplify_eq. apply (vi_conns s Hs).
    + unfold push_rx in Hpush. repeat case_match; simplify_eq. apply (vi_port s Hs).
    + intros k. unfold size in Hz. destruct (payload p); [|simpl in Hz; lia]. case_decide; by rewrite app_nil_r.
  - assert (m = v_mux s) as -> by (unfold push_rx in Hpush; repeat case_match; by simplify_eq).
    by destruct s.
Qed.

Lemma vinv_data s key data m rest :
  vinv s -> Z.of_nat (length data) <= HOST_READ_CHUNK -> queue_host_data key data (v_mux s) = (m, rest) ->
  vinv (mkSys m (v_hand s) (v_out s) (fun k => if decide (k = key) then v_taken s k ++
    (if decide (is_Some (conns (v_mux s) !! key)) then take (length data - length rest) data else []) else v_taken s k)).
Proof.
  intros Hs Hd Hq. assert (Hsame : forall taken, (forall k, taken k = v_taken s k) -> vinv (mkSys (v_mux s) (v_hand s) (v_out s) taken)).
  { intros taken Ht. destruct Hs as [H1 H0 H2 H3 H4 H5 H6 H7]. split; auto. intros k. simpl. by rewrite Ht. }
  destruct (conns (v_mux s) !! key) as [c|] eqn:Hc.
  2:{ unfold queue_host_data in Hq. rewrite Hc in Hq. injection Hq as <- <-. apply Hsame. intros k.
      destruct (decide (is_Some None)) as [[? ?]|_]; [done|]. case_decide; [by rewrite app_nil_r|done]. }
  rewrite decide_True by done. unfold queue_host_data in Hq. rewrite Hc in Hq.
  set (n := Z.min _ _) in Hq. destruct (Z.eqb_spec n 0) as [Hn|Hn].
  { injection Hq as <- <-. apply Hsame. intros k. rewrite Nat.sub_diag. case_decide; [by rewrite app_nil_r|done]. }
  assert (Hcr : 0 <= peer_credit c) by (unfold peer_credit, saturating_sub; lia).
  assert (Hu : as_u 32 n = n) by (unfold as_u; apply Z.mod_small; unfold HOST_READ_CHUNK in *; lia).
  rewrite Hu in Hq. set (q := mkPkt _ _) in Hq. destruct (push_rx q (v_mux s)) as [m1 [|]] eqn:Hp; simpl in Hq; injection Hq as <- <-.
  - apply (vinv_queued q s m1); try done.
    + split; unfold size; simpl; rewrite length_take; lia.
    + unfold push_rx in Hp. repeat case_match; simplify_eq. unfold conn_count. simpl. rewrite count_insert, decide_True by done.
      apply (vi_conns s Hs).
    + unfold push_rx in Hp. repeat case_match; simplify_eq. apply (vi_port s Hs).
    + intros k. unfold q, pkt_key. simpl. rewrite length_drop.
      replace (length data - (length data - Z.to_nat n))%nat with (Z.to_nat n) by lia. destruct key as [kg kh]. simpl.
      repeat case_decide; try congruence. by rewrite app_nil_r.
  - assert (m1 = v_mux s) as -> by (unfold push_rx in Hp; repeat case_match; by simplify_eq).
    apply Hsame. intros k. rewrite Nat.sub_diag. case_decide; [by rewrite app_nil_r|done].
Qed.

Lemma vinv_pop s p m : vinv s -> v_hand s = None -> pop_rx (v_mux s) = Some (p, m) -> vinv (mkSys m (Some p) (v_out s) (v_taken s)).
Proof.
  intros [H1 H0 H2 H3 H4 H5 H6 H7] Hh Hp. unfold pop_rx in Hp. unfold hand_list, paired in *. rewrite Hh in *.
  destruct (rx (v_mux s)) as [|p' q] eqn:Hq; [done|]. injection Hp as -> <-. simpl in *.
  pose proof (bytes_nonneg q). pose proof (size_nonneg p).
  split; unfold hand_list, paired; simpl; try done; try lia.
  - rewrite Forall_cons, Forall_app in H1. destruct H1 as (? & ? & ?). apply Forall_app. by rewrite Forall_cons.
  - rewrite H3. unfold saturating_sub. lia.
Qed.

Lemma split_packet_spec cap p fit rest :
  split_packet cap p = Some (fit, rest) -> pkt_ok p ->
  payload p = payload fit ++ from_option payload [] rest /\ Forall (fun q => pkt_ok q /\ pkt_key q = pkt_key p) (fit :: option_list rest).
Proof.
  unfold split_packet. destruct (Z.ltb_spec cap HDR_SIZE); [done|]. intros [= <- <-] [_ Hp].
  assert (Hu : forall n, Z.of_nat n <= size p -> as_u 32 (Z.of_nat n) = Z.of_nat n).
  { intros n Hn. unfold as_u. apply Z.mod_small. unfold HOST_READ_CHUNK in Hp. lia. }
  destruct (Z.ltb_spec (cap - HDR_SIZE) (size p)); simpl.
  - split; [by rewrite take_drop|]. repeat constructor; unfold size in *; simpl; rewrite ?length_take, ?length_drop in *;
      rewrite ?Hu; lia.
  - split; [by rewrite app_nil_r|]. repeat constructor; unfold size in *; simpl; rewrite ?Hu; lia.
Qed.

(** No more is written than there is. *)
Lemma put_blob_bound pm g bufs blob n w :
  Forall (fun b => 0 <= writable b) bufs -> 0 <= n <= Z.of_nat (length blob) ->
  n <= (put_blob pm g bufs blob n w).1 <= Z.of_nat (length blob).
Proof.
  intros Hb. revert n w. induction Hb as [|b bufs Hb0 _ IH]; intros n w Hn; [simpl; lia|]. destruct b as [addr len|addr len]; simpl in *; [by apply IH|].
  destruct (_ =? 0); [simpl; lia|]. destruct (put_bytes _ _ _ _ w) as [[u|] w']; [|simpl; lia].
  destruct (IH (n + Z.min len (Z.of_nat (length blob) - n)) w'); lia.
Qed.

(** Giving part of the hand back to the queue, and the rest to a chain. *)
Lemma vinv_give s p m out back :
  vinv s -> v_hand s = Some p ->
  rx m = back ++ rx (v_mux s) -> rx_bytes m = bytes_of back + bytes_of (rx (v_mux s)) ->
  conns m = conns (v_mux s) -> next_host_port m = next_host_port (v_mux s) ->
  Forall pkt_ok (back ++ (fst <$> out)) -> Forall (fun o => 0 <= o.2 <= HDR_SIZE + size o.1) out ->
  (length back <= 1)%nat -> bytes_of back <= size p ->
  (forall k, stream k [p] = stream k (fst <$> out) ++ stream k back) ->
  vinv (mkSys m None (v_out s ++ out) (v_taken s)).
Proof.
  intros [H1 H0 H2 H3 H4 H5 H6 H7] Hh Hrx Hb Hc Hpt Hok Hw Hl Hsz Hst. unfold hand_list, paired in *. rewrite Hh in *. simpl in *.
  rewrite !Forall_app, Forall_cons in H1. destruct H1 as (Hr & Hp & Ho). apply Forall_app in Hok as [Hok1 Hok2].
  split; unfold hand_list, paired; simpl; rewrite ?fmap_app.
  - rewrite Hrx, !Forall_app. by split_and!.
  - by apply Forall_app.
  - rewrite Hrx, length_app. lia.
  - by rewrite Hb, Hrx, bytes_app.
  - rewrite Hrx, bytes_app. lia.
  - unfold conn_count. by rewrite Hc.
  - by rewrite Hpt.
  - intros k. specialize (H7 k). rewrite Hrx. change (p :: rx (v_mux s)) with ([p] ++ rx (v_mux s)) in H7.
    rewrite !stream_app, Hst in *. by rewrite <- !app_assoc in *.
Qed.

Lemma vinv_write s p pm g bufs w :
  vinv s -> v_hand s = Some p -> Forall (fun b => 0 <= writable b) bufs -> vinv (write_hand pm g bufs p w s).
Proof.
  intros Hs Hh Hbufs. pose proof Hs as [H1 _ H2 H3 H4 _ _ _]. unfold hand_list in *. rewrite Hh in *. simpl in *.
  rewrite !Forall_app, Forall_cons in H1. destruct H1 as (_ & Hp & _).
  pose proof (bytes_nonneg (rx (v_mux s))). pose proof (size_nonneg p).
  assert (Hadd : forall t, 0 <= size t <= size p -> saturating_add 64 (rx_bytes (v_mux s)) (size t) = size t + bytes_of (rx (v_mux s))).
  { intros t Ht. rewrite H3, sat_add_small; unfold RX_BACKLOG_MAX, HOST_READ_CHUNK in *; lia. }
  unfold write_hand, write_packet. destruct (split_packet (capacity bufs) p) as [[fit rest]|] eqn:Hsp.
  - destruct (split_packet_spec _ p fit rest Hsp Hp) as [Hpay Hok]. rewrite Forall_cons in Hok. destruct Hok as [[Hf Hfk] Hrest].
    assert (Hsz : size p = size fit + bytes_of (option_list rest)).
    { unfold size. rewrite Hpay, length_app. destruct rest; simpl; unfold size; lia. }
    pose proof (size_nonneg fit). pose proof (bytes_nonneg (option_list rest)).
    set (blob := to_bytes (hdr fit) ++ payload fit). assert (Hbl : Z.of_nat (length blob) = HDR_SIZE + size fit).
    { unfold blob. rewrite length_app. change (length (to_bytes (hdr fit))) with 44%nat. unfold HDR_SIZE, size. lia. }
    pose proof (put_blob_bound pm g bufs blob 0 w Hbufs ltac:(lia)) as Hn. rewrite Hbl in Hn. clearbody blob.
    destruct (put_blob _ _ _ _ _ _) as [n w']. cbn [fst] in Hn.
    apply (vinv_give s p _ _ (option_list rest)); try done; try (by destruct rest).
    + destruct rest as [t|]; simpl; [|done]. simpl in Hsz. rewrite Hadd by (pose proof (size_nonneg t); lia). lia.
    + simpl. apply Forall_app. split; [|by apply Forall_singleton]. eapply Forall_impl; [exact Hrest|]. by intros ? [? _].
    + apply Forall_singleton. simpl. destruct Hp as [_ Hp]. unfold as_u, HOST_READ_CHUNK, HDR_SIZE in *.
      rewrite Z.mod_small; lia.
    + destruct rest; simpl; lia.
    + lia.
    + intros k. simpl. rewrite !stream_one, Hfk, Hpay. destruct rest as [t|]; simpl in *.
      * rewrite stream_one. apply Forall_cons in Hrest as [[_ ->] _]. by case_decide.
      * by case_decide.
  - apply (vinv_give s p _ [] [p]); try done; simpl; try lia.
    + rewrite Hadd; lia.
    + by apply Forall_singleton.
Qed.

(** The table operations. *)
Definition table_ok (m m' : VsockMux) : Prop :=
  rx m' = rx m /\ rx_bytes m' = rx_bytes m /\ conn_count m' <= MAX_CONNS /\ uint 32 (next_host_port m').

Lemma reserve_table gp m : conn_count m <= MAX_CONNS -> uint 32 (next_host_port m) -> table_ok m (reserve_host_connect gp m).2.
Proof.
  intros Hc Hp. unfold reserve_host_connect. destruct (Z.leb_spec MAX_CONNS (conn_count m)) as [|Hlt]; [done|].
  generalize (S (Z.to_nat MAX_CONNS)). intros n. revert m Hc Hp Hlt.
  induction n as [|n IH]; intros m Hc Hp Hlt; [done|]. cbn [reserve_loop].
  assert (Hw : uint 32 (wadd 32 (next_host_port m) 1)) by (unfold uint, wadd; apply Z.mod_pos_bound; lia).
  cbn [with_port conns]. destruct (conns m !! _) eqn:Hk.
  - destruct (IH (with_port (wadd 32 (next_host_port m) 1) m)) as (? & ? & ? & ?); done.
  - split_and!; simpl; try done. unfold conn_count in *. simpl. rewrite count_insert. case_decide; lia.
Qed.

Lemma guest_table h data m : conn_count m <= MAX_CONNS -> uint 32 (next_host_port m) -> table_ok m (guest_mark h data m).1.
Proof.
  intros Hc Hp. unfold guest_mark. destruct (negb _); [done|]. destruct (op h =? OP_REQUEST).
  - destruct (bool_decide_reflect (is_Some (conns m !! key_of h))); [done|].
    destruct (Z.leb_spec MAX_CONNS (conn_count m)); [done|]. split_and!; simpl; try done.
    unfold conn_count in *. simpl. rewrite count_insert, decide_False by done. lia.
  - destruct (conns m !! key_of h) eqn:Hk; [|done]. destruct (on_packet h _). split_and!; simpl; try done.
    unfold conn_count in *. simpl. by rewrite count_insert, decide_True by done.
Qed.

Lemma close_table key m : conn_count m <= MAX_CONNS -> uint 32 (next_host_port m) -> table_ok m (close_mark key m).1.
Proof.
  intros Hc Hp. unfold close_mark. destruct (conns m !! key) eqn:Hk; [|done]. split_and!; simpl; try done.
  unfold conn_count in *. simpl. by rewrite count_insert, decide_True by done.
Qed.

Lemma forget_table key m : conn_count m <= MAX_CONNS -> uint 32 (next_host_port m) -> table_ok m (forget key m).
Proof.
  intros Hc Hp. split_and!; simpl; try done. unfold conn_count in *. simpl.
  pose proof (map_subseteq_size _ _ (delete_subseteq (conns m) key)) as Hd.
  unfold base.size in Hd. lia.
Qed.

Lemma vinv_step s s' : vinv s -> vstep s s' -> vinv s'.
Proof.
  intros Hs Hstep. pose proof (vi_conns s Hs) as Hc. pose proof (vi_port s Hs) as Hp.
  destruct Hstep as [s key data m rest taken Hd Hq ->|s p m Hh Hpop|s p pm g bufs w Hh Hbufs|s h Hl|s gp|s h data|s key|s key].
  - by apply vinv_data.
  - by apply (vinv_pop s).
  - by apply vinv_write.
  - apply vinv_push_any; [done| |done]. split; [done|]. unfold HOST_READ_CHUNK, size. simpl. lia.
  - apply vinv_table; [done|]. by apply reserve_table.
  - apply vinv_table; [done|]. by apply guest_table.
  - apply vinv_table; [done|]. by apply close_table.
  - apply vinv_table; [done|]. by apply forget_table.
Qed.

Lemma vinv_reach cid s : vreach cid s -> vinv s.
Proof.
  assert (Hgen : forall a b, rtc vstep a b -> vinv a -> vinv b).
  { intros a b Hab. induction Hab; eauto using vinv_step. }
  intros Hr. apply (Hgen _ _ Hr). by split.
Qed.

(** Whatever the guest sends and the host peers write, what the
    multiplexer holds stays bounded at every point between two locks: the
    connections by the table's cap, the packets by the queue's cap and one,
    the payload by the backlog and one read. The byte count is the sum of
    the payloads, so the cap is never lost to drift. *)
Theorem vsock_bounded cid s :
  vreach cid s ->
  conn_count (v_mux s) <= MAX_CONNS /\
  Z.of_nat (length (rx (v_mux s) ++ hand_list s)) <= RX_PACKETS_MAX + 1 /\
  rx_bytes (v_mux s) = bytes_of (rx (v_mux s)) /\
  bytes_of (rx (v_mux s) ++ hand_list s) <= RX_BACKLOG_MAX + HOST_READ_CHUNK.
Proof.
  intros Hr. destruct (vinv_reach cid s Hr) as [H1 H0 H2 H3 H4 H5 H6 H7].
  rewrite length_app, bytes_app. split_and!; try done. lia.
Qed.

(** The payload of the packets for a key that went into guest memory: of a
    packet of which [n] bytes did, what comes after the header. *)
Definition received (k : ConnKey) (out : list (RxPacket * Z)) : list Z :=
  concat ((fun o => take (Z.to_nat (o.2 - HDR_SIZE)) (payload o.1)) <$> filter (fun o => pkt_key o.1 = k) out).

Lemma received_all k out :
  Forall (fun o => o.2 = HDR_SIZE + size o.1) out -> received k out = stream k (fst <$> out).
Proof.
  unfold received, stream. induction 1 as [|[p n] out Hn _ IH]; [done|]. simpl in Hn. rewrite fmap_cons, !filter_cons. simpl.
  case_decide; [|done]. rewrite !fmap_cons. simpl. rewrite IH. f_equal. apply take_ge. unfold size in Hn. lia.
Qed.

(** C19: what goes out to a pair of ports is a stream. The packets paired with
    chains, the one in hand and the queue, in this order, carry exactly the
    bytes the multiplexer took from the readers of that pair, of its
    connections one after the other: none lost, doubled or moved by the
    splits, the requeues and the connections of other pairs.
    Every paired packet says its length truly. A copy into guest memory that
    fails part way loses the end of its packet, and nothing else does: where
    every copy went through, the guest has the stream up to the hand and the
    queue. *)
Theorem vsock_stream cid s :
  vreach cid s ->
  (forall k, stream k (paired s) ++ stream k (hand_list s) ++ stream k (rx (v_mux s)) = v_taken s k) /\
  Forall (fun o => h_len (hdr o.1) = size o.1 /\ 0 <= o.2 <= HDR_SIZE + size o.1) (v_out s) /\
  (Forall (fun o => o.2 = HDR_SIZE + size o.1) (v_out s) ->
   forall k, received k (v_out s) ++ stream k (hand_list s) ++ stream k (rx (v_mux s)) = v_taken s k).
Proof.
  intros Hr. destruct (vinv_reach cid s Hr) as [H1 H0 H2 H3 H4 H5 H6 H7]. split_and!.
  - intros k. by rewrite <- H7, !stream_app.
  - rewrite !Forall_app in H1. destruct H1 as (_ & _ & H1). unfold paired in H1. rewrite Forall_fmap in H1. apply Forall_and. split; [|done].
    eapply Forall_impl; [exact H1|]. by intros o [? _].
  - intros Hall k. rewrite received_all by done. by rewrite <- H7, !stream_app.
Qed.

(** ** Into guest memory *)

(** Where the first [r] bytes of a chain lie in the memory of the host: up to
    the first buffer that is not, in whole, memory the device may write. *)
Fixpoint places (pm : P) (bufs : list ChainBuf) (r : Z) : list (Z * Z) :=
  match bufs with
  | [] => []
  | Readable _ _ :: bufs => places pm bufs r
  | Writable addr len :: bufs =>
      if r =? 0 then []
      else
        match gm_lookup pm addr (Z.min len r) with
        | Some sub =>
            if contains (s_prot sub) WRITE && (Z.min len r <=? s_len sub)
            then (s_ptr sub, Z.min len r) :: places pm bufs (r - Z.min len r)
            else []
        | None => []
        end
  end.

Definition total (pl : list (Z * Z)) : Z := foldr (fun x n => x.2 + n) 0 pl.
Definition bytes_at (hm : hostmem) (pl : list (Z * Z)) : list Z :=
  concat ((fun x => peek_range hm x.1 (Z.to_nat x.2)) <$> pl).

Fixpoint lie_apart (pl : list (Z * Z)) : Prop :=
  match pl with
  | [] => True
  | x :: pl => Forall (fun y => x.1 + x.2 <= y.1 \/ y.1 + y.2 <= x.1) pl /\ lie_apart pl
  end.

Lemma places_nonneg pm bufs r : Forall (fun b => 0 <= writable b) bufs -> 0 <= r ->
  Forall (fun x => 0 <= x.2) (places pm bufs r) /\ 0 <= total (places pm bufs r) <= r.
Proof.
  intros Hb. revert r. induction Hb as [|b bufs Hb0 _ IH]; intros r Hr; [split; [constructor|simpl; lia]|].
  destruct b as [addr len|addr len]; simpl in *; [by apply IH|]. destruct (_ =? 0); [split; [constructor|simpl; lia]|].
  destruct (gm_lookup _ _ _) as [sub|]; [|split; [constructor|simpl; lia]].
  destruct (_ && _); [|split; [constructor|simpl; lia]]. destruct (IH (r - Z.min len r)) as [H1 H2]; [lia|].
  split; [constructor; [simpl; lia|done]|simpl; lia].
Qed.

(** The copy fills those places with what is left of the packet, and
    touches nothing else. *)
Lemma put_blob_lands pm bufs blob n w :
  Forall (fun b => 0 <= writable b) bufs -> 0 <= n <= Z.of_nat (length blob) ->
  let pl := places pm bufs (Z.of_nat (length blob) - n) in
  lie_apart pl ->
  (put_blob pm idle bufs blob n w).1 = n + total pl /\
  bytes_at (w_mem (put_blob pm idle bufs blob n w).2) pl = take (Z.to_nat (total pl)) (drop (Z.to_nat n) blob) /\
  (forall x, Forall (fun y => x < y.1 \/ y.1 + y.2 <= x) pl -> peek (w_mem (put_blob pm idle bufs blob n w).2) x = peek (w_mem w) x).
Proof.
  intros Hb. revert n w. induction Hb as [|b bufs Hb0 Hbs IH]; intros n w Hn pl Hap; [split_and!; [simpl; lia|done|done]|].
  unfold pl in *. clear pl. destruct b as [addr len|addr len]; simpl in *; [by apply IH|].
  destruct (Z.eqb_spec (Z.of_nat (length blob) - n) 0); [split_and!; [simpl; lia|done|done]|].
  set (want := Z.min len (Z.of_nat (length blob) - n)) in *. set (data := take (Z.to_nat want) (drop (Z.to_nat n) blob)).
  assert (Hlen : Z.of_nat (length data) = want) by (unfold data; rewrite length_take, length_drop; lia).
  unfold put_bytes. rewrite Hlen. destruct (gm_lookup pm addr want) as [sub|]; [|split_and!; [simpl; lia|done|done]].
  unfold write_bytes. rewrite Hlen. destruct (contains (s_prot sub) WRITE); [|split_and!; [simpl; lia|done|done]].
  rewrite Z.leb_antisym in *. destruct (s_len sub <? want); simpl in *; [split_and!; [simpl; lia|done|done]|].
  destruct Hap as [Hfst Hap]. change (idle (w_time w) (w_mem w)) with (w_mem w). set (w1 := mkWorld (poke_range (w_mem w) (s_ptr sub) data) (S (w_time w))).
  replace (Z.of_nat (length blob) - n - want) with (Z.of_nat (length blob) - (n + want)) in * by lia.
  destruct (IH (n + want) w1 ltac:(lia) Hap) as (E1 & E2 & E3).
  destruct (places_nonneg pm bufs (Z.of_nat (length blob) - (n + want)) Hbs ltac:(lia)) as [Hnn Ht].
  set (pl := places pm bufs _) in *. set (w' := (put_blob pm idle bufs blob (n + want) w1).2) in *. split_and!; [lia| |].
  - change (bytes_at (w_mem w') ((s_ptr sub, want) :: pl)) with (peek_range (w_mem w') (s_ptr sub) (Z.to_nat want) ++ bytes_at (w_mem w') pl).
    rewrite E2. replace (Z.to_nat (n + want)) with (Z.to_nat n + Z.to_nat want)%nat by lia.
    rewrite <- drop_drop, Z2Nat.inj_add, <- take_take_drop by lia. f_equal. fold data.
    rewrite <- (peek_range_poke_same (w_mem w) (s_ptr sub) data). replace (length data) with (Z.to_nat want) by lia.
    apply peek_range_ext. intros i Hi. apply (E3 (s_ptr sub + Z.of_nat i)). eapply Forall_impl; [exact Hfst|]. simpl. lia.
  - intros x Hx. apply Forall_cons in Hx as [Hx0 Hx]. rewrite E3 by done. unfold w1. simpl. apply peek_poke_out. simpl in Hx0. lia.
Qed.

(** C34: a packet arrives in its chain. On a guest that holds still, into a chain
    with room for a header whose buffers do not overlap: the chain holds, in
    its places, the header with the length of what follows and as much of
    the payload as it has room for, up to the first buffer that is not
    memory; the used length says how much that is; and the rest of the
    payload is again the first packet of the queue, under the same header. *)
Theorem packet_lands pm bufs p m w :
  Forall (fun b => 0 <= writable b) bufs -> HDR_SIZE <= capacity bufs -> size p <= HOST_READ_CHUNK ->
  let room := Z.min (capacity bufs - HDR_SIZE) (size p) in
  let blob := to_bytes (set_len room (hdr p)) ++ take (Z.to_nat room) (payload p) in
  let pl := places pm bufs (HDR_SIZE + room) in
  lie_apart pl ->
  exists m' w', write_packet pm idle bufs p m w = (m', total pl, w') /\
    bytes_at (w_mem w') pl = take (Z.to_nat (total pl)) blob /\
    rx m' = (if size p =? room then [] else [mkPkt (set_len (size p - room) (hdr p)) (drop (Z.to_nat room) (payload p))]) ++ rx m.
Proof.
  intros Hb Hc Hp room blob pl Hap. unfold write_packet, split_packet. destruct (Z.ltb_spec (capacity bufs) HDR_SIZE); [lia|].
  pose proof (size_nonneg p). assert (Hu : forall z, 0 <= z <= size p -> as_u 32 z = z).
  { intros z Hz. unfold as_u. apply Z.mod_small. unfold HOST_READ_CHUNK in Hp. lia. }
  set (fit := if capacity bufs - HDR_SIZE <? size p then _ else payload p).
  assert (Hfit : fit = take (Z.to_nat room) (payload p) /\ Z.of_nat (length fit) = room).
  { unfold fit, room. destruct (Z.ltb_spec (capacity bufs - HDR_SIZE) (size p)).
    - rewrite Z.min_l by lia. split; [done|]. rewrite length_take. unfold size in *. lia.
    - rewrite Z.min_r by lia. unfold size. rewrite Nat2Z.id, firstn_all. done. }
  destruct Hfit as [Hfit Hfl]. cbn [hdr payload]. rewrite Hfl, Hu by lia. rewrite Hfit. fold blob.
  assert (Hbl : Z.of_nat (length blob) = HDR_SIZE + room).
  { unfold blob. rewrite length_app, <- Hfit. change (length (to_bytes _)) with 44%nat. unfold HDR_SIZE. lia. }
  pose proof (put_blob_lands pm bufs blob 0 w Hb ltac:(lia)) as Hl. cbv zeta in Hl. rewrite Hbl, Z.sub_0_r in Hl. fold pl in Hl.
  destruct (Hl Hap) as (E1 & E2 & _). destruct (places_nonneg pm bufs (HDR_SIZE + room) Hb ltac:(unfold HDR_SIZE; lia)) as [_ Ht].
  fold pl in Ht. clearbody blob. destruct (put_blob pm idle bufs blob 0 w) as [n w']. simpl in E1, E2.
  eexists _, w'. split; [f_equal; f_equal; rewrite E1; unfold as_u; apply Z.mod_small; unfold HDR_SIZE, HOST_READ_CHUNK in *; lia|].
  split; [done|]. unfold room in *. destruct (Z.ltb_spec (capacity bufs - HDR_SIZE) (size p)); simpl.
  - rewrite Z.min_l in * by lia. rewrite (proj2 (Z.eqb_neq _ _)) by lia. simpl. f_equal. f_equal. f_equal.
    rewrite length_drop. unfold size in *. rewrite <- (Hu (Z.of_nat (length (payload p)) - _)) by lia. f_equal. lia.
  - rewrite Z.min_r in * by lia. by rewrite Z.eqb_refl.
Qed.

(** ** Credit *)

(** Bytes for a key that were given to the guest, and bytes its readers gave. *)
Definition given (k : ConnKey) (s : vsys) : Z := Z.of_nat (length (stream k (paired s))).
Definition taken_len (k : ConnKey) (s : vsys) : Z := Z.of_nat (length (v_taken s k)).

(** Nothing for the key is on its way. *)
Definition nothing_left (k : ConnKey) (s : vsys) : Prop := stream k (hand_list s ++ rx (v_mux s)) = [].

(** Histories of the multiplexer in which the guest has a buffer of [A] bytes
    for the connections of [k] and reports truly, and its ports are used
    again only when nothing for them is left from before. [before] is what
    their readers had given when the present connection opened, and [told]
    what the guest had consumed of it when it wrote the last packet the host
    has seen: no more than it was given. Everything else is any step of any
    thread. *)
Inductive talk (cid A : Z) (k : ConnKey) : vsys -> Z -> Z -> Prop :=
| tk_start : talk cid A k (vsys_start cid) 0 0
| tk_other s s' before told :
    talk cid A k s before told -> vstep s s' ->
    conns (v_mux s') !! k = conns (v_mux s) !! k -> v_taken s' k = v_taken s k -> talk cid A k s' before told
| tk_connect s before told h data :
    talk cid A k s before told -> conns (v_mux s) !! k = None -> nothing_left k s ->
    key_of h = k -> op h = OP_REQUEST -> h_buf_alloc h = A -> h_fwd_cnt h = 0 ->
    talk cid A k (on_mux (fun m => (guest_mark h data m).1) s) (taken_len k s) 0
| tk_reserve s before told gp :
    talk cid A k s before told -> conns (v_mux s) !! k = None -> nothing_left k s ->
    talk cid A k (on_mux (fun m => (reserve_host_connect gp m).2) s) (taken_len k s) 0
| tk_data s before told data m rest taken :
    talk cid A k s before told -> is_Some (conns (v_mux s) !! k) -> Z.of_nat (length data) <= HOST_READ_CHUNK ->
    queue_host_data k data (v_mux s) = (m, rest) ->
    taken = (fun j => if decide (j = k) then v_taken s j ++ take (length data - length rest) data else v_taken s j) ->
    talk cid A k (mkSys m (v_hand s) (v_out s) taken) before told
| tk_packet s before told told' h data :
    talk cid A k s before told -> is_Some (conns (v_mux s) !! k) ->
    key_of h = k -> dst_cid h = CID_HOST -> op h <> OP_REQUEST -> h_buf_alloc h = A -> h_fwd_cnt h = told' mod 2 ^ 32 ->
    told <= told' <= given k s - before ->
    talk cid A k (on_mux (fun m => (guest_mark h data m).1) s) before told'
| tk_close s before told :
    talk cid A k s before told -> talk cid A k (on_mux (fun m => (close_mark k m).1) s) before told
| tk_forget s before told :
    talk cid A k s before told -> talk cid A k (on_mux (forget k) s) before told.

(** What the record of a connection knows of its guest. *)
Definition knows (A sent told : Z) (c : VsockConn) : Prop :=
  0 <= told <= sent /\ sent - told <= A /\ tx_cnt c = sent mod 2 ^ 32 /\
  (peer_buf_alloc c = A /\ peer_fwd_cnt c = told mod 2 ^ 32 \/ peer_buf_alloc c = 0 /\ peer_fwd_cnt c = 0 /\ sent = told).

Lemma knows_new A st : 0 <= A -> knows A 0 0 (conn_new st).
Proof. intros HA. split_and!; first [done | lia | by right]. Qed.

Lemma knows_credit A sent told c :
  uint 32 A -> knows A sent told c -> 0 <= peer_credit c <= A - (sent - told) /\ (peer_buf_alloc c = 0 -> peer_credit c = 0).
Proof.
  unfold uint. intros HA (Hts & Hle & Htx & Hpeer). unfold peer_credit, wsub, saturating_sub. rewrite Htx.
  destruct Hpeer as [[-> ->]|(-> & -> & ->)].
  - rewrite <- Zminus_mod, (Z.mod_small (sent - told)) by lia. lia.
  - pose proof (Z.mod_pos_bound (told mod 2 ^ 32 - 0) (2 ^ 32)). lia.
Qed.

Lemma knows_sent A sent told c n :
  uint 32 A -> knows A sent told c -> 0 < n <= peer_credit c -> knows A (sent + n) told (record_sent n c).
Proof.
  intros HA Hk Hn. pose proof (knows_credit A sent told c HA Hk) as [Hc Hz]. destruct Hk as (Hts & Hle & Htx & Hpeer).
  split_and!; simpl; [lia|lia|lia| |].
  - unfold wadd. rewrite Htx. by rewrite Zplus_mod_idemp_l.
  - destruct Hpeer as [?|(Hb & _)]; [by left|]. specialize (Hz Hb). lia.
Qed.

Lemma knows_report A sent told told' h c c' :
  knows A sent told c -> told <= told' <= sent -> h_buf_alloc h = A -> h_fwd_cnt h = told' mod 2 ^ 32 ->
  tx_cnt c' = tx_cnt c -> peer_buf_alloc c' = h_buf_alloc h -> peer_fwd_cnt c' = h_fwd_cnt h -> knows A sent told' c'.
Proof.
  unfold knows. intros (Hts & Hle & Htx & _) Ht Ha Hf -> -> ->. rewrite Ha, Hf. split_and!; first [lia | done | by left].
Qed.

Lemma on_packet_peer h c :
  tx_cnt (on_packet h c).1 = tx_cnt c /\ peer_buf_alloc (on_packet h c).1 = h_buf_alloc h /\
  peer_fwd_cnt (on_packet h c).1 = h_fwd_cnt h.
Proof. unfold on_packet. repeat case_match; simpl; by repeat case_match. Qed.

(** Its guest was given no more than its readers gave. *)
Lemma given_le k s : vinv s -> given k s <= taken_len k s /\ (nothing_left k s -> given k s = taken_len k s).
Proof.
  intros Hs. unfold given, taken_len, nothing_left. rewrite <- (vi_stream s Hs k), stream_app, length_app. split; [lia|].
  intros ->. simpl. lia.
Qed.

Lemma reserved_new gp m k c :
  conns m !! k = None -> conns (reserve_host_connect gp m).2 !! k = Some c -> c = conn_new Connecting.
Proof.
  intros Hk. unfold reserve_host_connect. destruct (_ <=? _); [simpl; by rewrite Hk|].
  generalize (S (Z.to_nat MAX_CONNS)). intros n. revert m Hk. induction n as [|n IH]; intros m Hk; [simpl; by rewrite Hk|].
  cbn [reserve_loop with_port conns]. case_match; [by apply IH|]. simpl. rewrite lookup_insert_Some.
  intros [[_ <-]|[_ He]]; [done|]. by rewrite Hk in He.
Qed.

Lemma talk_inv cid A k s before told :
  uint 32 A -> talk cid A k s before told ->
  vinv s /\ forall c, conns (v_mux s) !! k = Some c -> knows A (taken_len k s - before) told c.
Proof.
  intros HA. assert (HA0 : 0 <= A) by (unfold uint in HA; lia).
  induction 1 as [|s s' before told _ [Hi IH] Hs Hc Ht|s before told h data _ [Hi IH] Hn Hl Hk Ho Ha Hf
    |s before told gp _ [Hi IH] Hn Hl|s before told data m rest taken _ [Hi IH] [c Hc] Hd Hq ->
    |s before told told' h data _ [Hi IH] [c Hc] Hk Hcid Ho Ha Hf Ht|s before told _ [Hi IH]|s before told _ [Hi IH]].
  - split; [by split|done].
  - split; [by eapply vinv_step|]. intros c. rewrite Hc. unfold taken_len. rewrite Ht. apply IH.
  - split; [by eapply vinv_step, vs_guest|]. intros c. simpl. unfold taken_len. simpl. rewrite Z.sub_diag.
    unfold guest_mark. rewrite Ho, Hk. simpl. repeat case_match; simpl; rewrite ?Hn; try done.
    rewrite lookup_insert_eq. intros [= <-]. split_and!; simpl; try done; try lia. left. by rewrite Hf.
  - split; [by eapply vinv_step, vs_reserve|]. intros c. simpl. unfold taken_len. simpl. rewrite Z.sub_diag.
    intros ->%reserved_new; [by apply knows_new|done].
  - split.
    { eapply vinv_step; [exact Hi|]. eapply vs_data; [exact Hd|exact Hq|]. by rewrite decide_True by eauto. }
    specialize (IH c Hc). pose proof (knows_credit _ _ _ _ HA IH) as [Hcr _].
    destruct (queue_host_data_spec _ _ _ _ _ _ Hc ltac:(unfold uint in HA; destruct IH; lia) Hq) as (n & Hn & Hdat & Hnl & Hm).
    assert (Hlen : Z.of_nat (length data) - Z.of_nat (length rest) = n).
    { apply (f_equal length) in Hdat. rewrite length_app, length_take in Hdat. lia. }
    intros c'. unfold taken_len. simpl. rewrite decide_True by done. rewrite length_app, length_take.
    replace (Z.of_nat (length (v_taken s k) + Nat.min (length data - length rest) (length data)) - before)
      with (taken_len k s - before + n) by (unfold taken_len; lia).
    destruct Hm as [[Hz ->]|(Hn0 & Hm & _)]; [rewrite Hc, Hz, Z.add_0_r; intros [= <-]; exact IH|].
    rewrite Hm, lookup_insert_eq. intros [= <-]. apply knows_sent; [done|exact IH|lia].
  - split; [by eapply vinv_step, vs_guest|]. intros c'. unfold taken_len. simpl. unfold guest_mark.
    rewrite Hcid, Hk, Hc. rewrite (proj2 (Z.eqb_neq (op h) OP_REQUEST)) by done. simpl.
    destruct (on_packet_peer h c) as (P1 & P2 & P3). destruct (on_packet h c) as [c1 rep]. simpl in *.
    rewrite lookup_insert_eq. intros [= <-]. pose proof (given_le k s Hi) as [Hle _].
    apply (knows_report _ _ told _ h c); try done; try (by case_match); [by apply IH|]. unfold taken_len in Hle. lia.
  - split; [by eapply vinv_step, vs_close|]. intros c'. unfold taken_len. simpl. unfold close_mark.
    destruct (conns (v_mux s) !! k) as [c|] eqn:Hc; simpl; [|by rewrite Hc].
    rewrite lookup_insert_eq. intros [= <-]. exact (IH c eq_refl).
  - split; [by eapply vinv_step, vs_forget|]. intros c'. simpl. by rewrite lookup_delete_eq.
Qed.

(** C18: a guest that tells the truth about its buffer is not sent more than
    fits. Let its ports be used again only when nothing of an earlier
    connection of theirs is left in the queue or in hand. Then, whatever
    else the threads of the multiplexer do, the bytes taken from the peer
    of an open connection and not consumed by the guest, in the queue, in
    hand or in its memory, are at most the buffer it advertised, also after
    the 32-bit counters have wrapped around any number of times. *)
Theorem credit_respected cid A k s before told consumed :
  uint 32 A -> talk cid A k s before told -> is_Some (conns (v_mux s) !! k) -> told <= consumed ->
  taken_len k s - before - consumed <= A.
Proof.
  intros HA Hh [c Hc] Hle. destruct (talk_inv cid A k s before told HA Hh) as [_ Hk]. destruct (Hk c Hc) as (_ & Hs & _). lia.
Qed.

(** ** What the comments promise and the code does not *)

Lemma push_many h n s :
  h_len h = 0 -> Z.of_nat (length (rx (v_mux s))) + Z.of_nat n <= RX_PACKETS_MAX ->
  exists m, rtc vstep s (mkSys m (v_hand s) (v_out s) (v_taken s)) /\ length (rx m) = (length (rx (v_mux s)) + n)%nat.
Proof.
  intros Hh. revert s. induction n as [|n IH]; intros s Hl; [exists (v_mux s); destruct s; split; [done|simpl; lia]|].
  pose proof (vs_control s h Hh) as Hstep. unfold on_mux, push_rx in Hstep.
  destruct (Z.leb_spec RX_PACKETS_MAX (Z.of_nat (length (rx (v_mux s))))); [lia|].
  change (size (control h) =? 0) with true in Hstep. cbn [negb andb fst] in Hstep.
  set (m1 := with_rx _ _ _) in Hstep. assert (Hm1 : length (rx m1) = S (length (rx (v_mux s)))).
  { unfold m1. simpl. rewrite length_app. simpl. lia. }
  destruct (IH (mkSys m1 (v_hand s) (v_out s) (v_taken s))) as (m & Hrun & Hlen); [cbn [v_mux]; lia|].
  exists m. split; [by eapply rtc_l|]. cbn [v_mux] in Hlen. lia.
Qed.

(** [requeue_rx_front] says the queue returns to a size it already
    held. Other threads push between the pop and the requeue: a queue at
    its cap comes out one past it. *)
Theorem requeue_passes_cap (pm : P) cid :
  exists s, vreach cid s /\ Z.of_nat (length (rx (v_mux s))) = RX_PACKETS_MAX + 1.
Proof.
  set (h := hdr_for (1, 1) OP_RST (mux_new cid)).
  destruct (push_many h 4096 (vsys_start cid) eq_refl) as (m & Hm & Hl); [done|]. simpl in Hm, Hl.
  destruct (rx m) as [|p q] eqn:Hq; [simpl in Hl; lia|].
  set (m2 := with_rx q (saturating_sub (rx_bytes m) (size p)) m).
  destruct (push_many h 1 (mkSys m2 (Some p) [] (fun _ => [])) eq_refl) as (m3 & Hm3 & Hl3).
  { simpl in *. change RX_PACKETS_MAX with 4096. lia. }
  exists (write_hand pm idle [] p (mkWorld ∅ 0) (mkSys m3 (Some p) [] (fun _ => []))). split.
  - unfold vreach. etrans; [exact Hm|]. eapply rtc_l; [apply (vs_pop _ p m2); [done|]; simpl; unfold pop_rx; by rewrite Hq|].
    etrans; [exact Hm3|]. apply rtc_once, vs_write; [done|constructor].
  - change RX_PACKETS_MAX with 4096. unfold write_hand, write_packet, split_packet. simpl in *. lia.
Qed.

End system.

(** A guest of 16 bytes of buffer, whose port 1000 talks to host port 5. *)
Definition guest_hdr (o told : Z) : VsockHdr := mkHdr 3 CID_HOST 1000 5 0 TYPE_STREAM o 0 16 told.
Definition key0 : ConnKey := (1000, 5).

(** The connection opens, a peer sends three bytes, the guest resets it and
    opens it again. *)
Definition reopened : VsockMux :=
  let m := (on_guest_packet (guest_hdr OP_REQUEST 0) [] (mux_new 3)).1 in
  let m := (queue_host_data key0 [1; 2; 3] m).1 in
  let m := (on_guest_packet (guest_hdr OP_RST 0) [] m).1 in
  (on_guest_packet (guest_hdr OP_REQUEST 0) [] m).1.

(** Forgetting a connection leaves its payload in the queue. A guest
    that opens the same pair of ports again is given the old connection's
    bytes on the new one, which has sent none. The guest consumes them and
    truly reports so, and the count the report is ahead of shuts the window:
    the new connection's peer can send nothing, however much the guest has
    room for. *)
Theorem stale_payload_shuts_window :
  stream key0 (rx reopened) = [1; 2; 3] /\ tx_cnt <$> conns reopened !! key0 = Some 0 /\
  let m := (on_guest_packet (guest_hdr OP_CREDIT_UPDATE 3) [] reopened).1 in
  peer_credit <$> conns m !! key0 = Some 0 /\ queue_host_data key0 [4] m = (m, [4]).
Proof. vm_compute. done. Qed.

(** The connection is open and the guest has said it sends no more. *)
Definition half_closed : VsockMux :=
  let m := (on_guest_packet (guest_hdr OP_REQUEST 0) [] (mux_new 3)).1 in
  (on_guest_packet (set_flags SHUTDOWN_SEND (guest_hdr OP_SHUTDOWN 0)) [] m).1.

(** The host's close forgets by key after it has given the table up. A
    guest that resets and reopens the pair of ports in between loses the
    connection it has just been given. *)
Theorem close_takes_reopened :
  let '(m, v) := close_mark key0 half_closed in
  v = Some true /\
  let m := (on_guest_packet (guest_hdr OP_RST 0) [] m).1 in
  let '(m, a) := on_guest_packet (guest_hdr OP_REQUEST 0) [] m in
  a = AConnect key0 5 /\ state <$> conns m !! key0 = Some Established /\ conns (close_tell key0 true m) !! key0 = None.
Proof. vm_compute. done. Qed.

(** ** Instances *)

Lemma header_roundtrip_witness :
  from_bytes (to_bytes (guest_hdr OP_RW 7) ++ [9; 9]) = Some (guest_hdr OP_RW 7) /\
  length (to_bytes (guest_hdr OP_RW 7)) = Z.to_nat HDR_SIZE.
Proof. apply header_roundtrip. by split. Defined.

(** A connection on which the host has sent ten bytes. *)
Definition ten : vsys :=
  let m := (guest_mark (guest_hdr OP_REQUEST 0) [] (mux_new 3)).1 in
  mkSys (queue_host_data key0 (repeat 7 10) m).1 None [] (fun j => if decide (j = key0) then repeat 7 10 else []).

Lemma ten_talk : talk (P := physmap.PhysMap) 3 16 key0 ten 0 0.
Proof.
  refine (tk_data (P := physmap.PhysMap) 3 16 key0 _ 0 0 (repeat 7 10) _ [] _
    (tk_connect 3 16 key0 (vsys_start 3) 0 0 (guest_hdr OP_REQUEST 0) [] (tk_start 3 16 key0) _ _ _ _ _ _) _ _ _ _);
    try reflexivity; [vm_compute; by eexists|done].
Qed.

Lemma credit_respected_witness : taken_len key0 ten = 10 /\ taken_len key0 ten - 0 - 4 <= 16.
Proof.
  split; [vm_compute; reflexivity|].
  apply (credit_respected (P := physmap.PhysMap) 3 16 key0 ten 0 0 4); [done|exact ten_talk|vm_compute; by eexists|done].
Defined.

Lemma reserve_finds_port_witness :
  exists key m', reserve_host_connect 22 (mux_new 3) = (Some key, m') /\ key.1 = 22 /\ conns (mux_new 3) !! key = None /\
    conns m' = <[key := conn_new Connecting]> (conns (mux_new 3)) /\ rx m' = rx (mux_new 3).
Proof. apply reserve_finds_port; vm_compute; [split; discriminate || reflexivity|reflexivity]. Defined.

(** A chain of two buffers of 40 and 5 bytes in guest memory. *)
Definition chain45 : list ChainBuf := [Writable 0x2000 40; Readable 0x3000 8; Writable 0x2100 5].

(** Three bytes are queued, popped, and split by a chain with room for
    one. *)
Definition demo_run : vsys :=
  let m := (queue_host_data key0 [1; 2; 3] (on_guest_packet (guest_hdr OP_REQUEST 0) [] (mux_new 3)).1).1 in
  match pop_rx m with
  | Some (p, m') =>
      write_hand queue_thm.ram idle chain45 p (mkWorld ∅ 0)
        (mkSys m' (Some p) [] (fun k => if decide (k = key0) then [1; 2; 3] else []))
  | None => vsys_start 3
  end.

Lemma demo_reach : vreach (P := physmap.PhysMap) 3 demo_run.
Proof.
  unfold vreach. etrans; [exact (guest_steps (guest_hdr OP_REQUEST 0) [] (vsys_start 3))|].
  eapply rtc_l; [eapply (vs_data _ key0 [1; 2; 3]); [done|reflexivity|reflexivity]|].
  eapply rtc_l; [eapply vs_pop; reflexivity|].
  eapply rtc_l; [eapply (vs_write _ _ queue_thm.ram idle chain45 (mkWorld ∅ 0)); [reflexivity|by repeat constructor]|].
  apply rtc_refl.
Qed.

Lemma vsock_bounded_witness :
  conn_count (v_mux demo_run) <= MAX_CONNS /\ Z.of_nat (length (rx (v_mux demo_run) ++ hand_list demo_run)) <= RX_PACKETS_MAX + 1 /\
  rx_bytes (v_mux demo_run) = bytes_of (rx (v_mux demo_run)) /\
  bytes_of (rx (v_mux demo_run) ++ hand_list demo_run) <= RX_BACKLOG_MAX + HOST_READ_CHUNK.
Proof. apply (vsock_bounded (P := physmap.PhysMap) 3), demo_reach. Defined.

Lemma vsock_stream_witness : received key0 (v_out demo_run) = [1] /\
  received key0 (v_out demo_run) ++ stream key0 (hand_list demo_run) ++ stream key0 (rx (v_mux demo_run)) = [1; 2; 3].
Proof.
  split; [vm_compute; reflexivity|].
  destruct (vsock_stream (P := physmap.PhysMap) 3 demo_run demo_reach) as (_ & _ & H). apply H.
  vm_compute. repeat constructor.
Defined.

Lemma packet_lands_witness :
  exists m' w',
    write_packet queue_thm.ram idle chain45 (mkPkt (set_len 3 (hdr_for key0 OP_RW (mux_new 3))) [1; 2; 3]) (mux_new 3) (mkWorld ∅ 0) =
      (m', 45, w') /\ payload <$> rx m' = [[2; 3]].
Proof.
  destruct (packet_lands queue_thm.ram chain45 (mkPkt (set_len 3 (hdr_for key0 OP_RW (mux_new 3))) [1; 2; 3]) (mux_new 3) (mkWorld ∅ 0))
    as (m' & w' & Hw & _ & Hr).
  - by repeat constructor.
  - vm_compute. discriminate.
  - vm_compute. discriminate.
  - cbv zeta. replace (places queue_thm.ram chain45 _) with [(0x42000, 40); (0x42100, 5)] by (vm_compute; reflexivity).
    split; [apply Forall_singleton; left; simpl; lia|]. split; [constructor|exact I].
  - exists m', w'. split; [rewrite Hw; f_equal; f_equal; vm_compute; reflexivity|]. rewrite Hr. reflexivity.
Defined.

End vsock_thm.
