(* ===== verification/VirtioPci.v ===== *)
(** * The VirtIO PCI transport

    [crates/vmm-virtio/src/pci.rs] with [pci/legacy.rs], [pci/modern.rs],
    [pci/intr.rs], [pci/migrate.rs] and the accesses of [pci/bus.rs]: the
    register files a driver programs, the reset protocol, the routing of
    interrupts and the migration of a device. The backend behind the
    transport is the class [VirtioDevice]. A register write runs under the
    transport lock; what it does after giving the lock up is the [Tail] it
    returns, which [run_tail] carries out at once and [VirtioIntr] interleaves
    with the other threads. [None] is a panic. *)

From S2P Require Import Prelude ASpace Mapping GuestMem VirtQueue PciBar PciDevice PciMsix.

Module vpci.
Import mapping guestmem queue.

(** ** Constants of [bits.rs] *)

Definition STATUS_ACKNOWLEDGE : Z := 1.
Definition STATUS_DRIVER_OK : Z := 4.
Definition STATUS_FEATURES_OK : Z := 8.
Definition STATUS_DEVICE_NEEDS_RESET : Z := 64.
Definition VIRTIO_F_RING_INDIRECT_DESC : Z := 2 ^ 28.
Definition VIRTIO_F_RING_EVENT_IDX : Z := 2 ^ 29.
Definition VIRTIO_F_VERSION_1 : Z := 2 ^ 32.
Definition VIRTIO_MSI_NO_VECTOR : Z := 0xFFFF.
Definition ISR_QUEUE_INTR : Z := 1.
Definition ISR_CFG_CHANGE : Z := 2.
Definition MODERN_BAR_SIZE : Z := 0x4000.
Definition MODERN_BAR_IDX : Z := 2.
Definition MAX_QUEUES : nat := 4.

Definition transitional_device_id (dev_type : Z) : Z :=
  if dev_type =? 1 then 0x1000 else if dev_type =? 2 then 0x1001 else if dev_type =? 3 then 0x1003
  else if dev_type =? 4 then 0x1005 else if dev_type =? 5 then 0x1002 else saturating_add 16 0x1040 dev_type.

Definition pci_class_for (dev_type : Z) : Z * Z :=
  if dev_type =? 1 then (2, 0) else if dev_type =? 2 then (1, 0) else if dev_type =? 3 then (7, 0x80)
  else if dev_type =? 26 then (1, 0x80) else if dev_type =? 4 then (0xFF, 0)
  else if dev_type =? 19 then (7, 0x80) else (0, 0).

(** [!mask] on [w] bits. *)
Definition bit_not (w mask : Z) : Z := 2 ^ w - 1 - mask.

Definition set_half (high : bool) (val a : Z) : Z :=
  if high then Z.lor (Z.land a 0x00000000FFFFFFFF) (Z.shiftl val 32)
  else Z.lor (Z.land a 0xFFFFFFFF00000000) val.

Definition half (high : bool) (a : Z) : Z := if high then as_u 32 (Z.shiftr a 32) else as_u 32 a.

(** ** The backend *)

Inductive StateError : Type :=
| MsixPresence
| VectorPast (vector len : Z)
| QueuePast (idx : Z)
| QueueTwice (idx : Z)
| BadSize (idx size : Z)
| TooManyInFlight (idx n : Z)
| BadRings (idx : Z) (e : QueueAddrError)
| SizeRefused (idx : Z) (e : QueueSizeError)
| MsixTableRefused (e : msix.MsixImportError)
| Backend (code : Z).

(** [VirtioDevice] of [lib.rs]. *)
Class VirtioDevice (D : Type) : Type := mkVirtioDevice {
  device_features : D -> Z;
  set_features : Z -> D -> D;
  dev_cfg_read : Z -> Z -> D -> Z;
  dev_cfg_write : Z -> Z -> Z -> D -> D;
  notify_queue : Z -> list VirtQueue -> D -> world -> bool * list VirtQueue * D * world;
  queue_addr_set : Z -> VirtQueue -> D -> D;
  dev_reset : D -> D;
  kernel_ring_indices : Z -> D -> result StateError (option (Z * Z));
  reset_all_rings : D -> D * result StateError unit;
  restore_ring_state : Z -> Z -> Z * Z * Z -> Z * Z -> Z * Z -> D -> D * result StateError unit;
  set_notify_addrs : Z -> Z -> D -> D;
  start_poll_deferred : D -> D
}.

(** ** The registers *)

Record VirtioPciState : Type := mkVs {
  queue_select : Z; status : Z; guest_features : Z; queues : list VirtQueue;
  config_msix_vector : Z; queue_msix_vectors : list Z;
  device_feature_select : Z; driver_feature_select : Z;
  queue_enabled : list bool; queue_desc : list Z; queue_avail : list Z; queue_used : list Z;
  config_generation : Z; resetting : bool
}.

Definition with_queue_select (x : Z) (v : VirtioPciState) : VirtioPciState :=
  mkVs x (status v) (guest_features v) (queues v) (config_msix_vector v) (queue_msix_vectors v)
    (device_feature_select v) (driver_feature_select v) (queue_enabled v) (queue_desc v) (queue_avail v) (queue_used v)
    (config_generation v) (resetting v).
Definition with_status (x : Z) (v : VirtioPciState) : VirtioPciState :=
  mkVs (queue_select v) x (guest_features v) (queues v) (config_msix_vector v) (queue_msix_vectors v)
    (device_feature_select v) (driver_feature_select v) (queue_enabled v) (queue_desc v) (queue_avail v) (queue_used v)
    (config_generation v) (resetting v).
Definition with_features (x : Z) (v : VirtioPciState) : VirtioPciState :=
  mkVs (queue_select v) (status v) x (queues v) (config_msix_vector v) (queue_msix_vectors v)
    (device_feature_select v) (driver_feature_select v) (queue_enabled v) (queue_desc v) (queue_avail v) (queue_used v)
    (config_generation v) (resetting v).
Definition with_queues (x : list VirtQueue) (v : VirtioPciState) : VirtioPciState :=
  mkVs (queue_select v) (status v) (guest_features v) x (config_msix_vector v) (queue_msix_vectors v)
    (device_feature_select v) (driver_feature_select v) (queue_enabled v) (queue_desc v) (queue_avail v) (queue_used v)
    (config_generation v) (resetting v).
Definition with_vectors (c : Z) (q : list Z) (v : VirtioPciState) : VirtioPciState :=
  mkVs (queue_select v) (status v) (guest_features v) (queues v) c q
    (device_feature_select v) (driver_feature_select v) (queue_enabled v) (queue_desc v) (queue_avail v) (queue_used v)
    (config_generation v) (resetting v).
Definition with_selects (d g : Z) (v : VirtioPciState) : VirtioPciState :=
  mkVs (queue_select v) (status v) (guest_features v) (queues v) (config_msix_vector v) (queue_msix_vectors v)
    d g (queue_enabled v) (queue_desc v) (queue_avail v) (queue_used v) (config_generation v) (resetting v).
Definition with_enabled (x : list bool) (v : VirtioPciState) : VirtioPciState :=
  mkVs (queue_select v) (status v) (guest_features v) (queues v) (config_msix_vector v) (queue_msix_vectors v)
    (device_feature_select v) (driver_feature_select v) x (queue_desc v) (queue_avail v) (queue_used v)
    (config_generation v) (resetting v).
Definition with_rings (d a u : list Z) (v : VirtioPciState) : VirtioPciState :=
  mkVs (queue_select v) (status v) (guest_features v) (queues v) (config_msix_vector v) (queue_msix_vectors v)
    (device_feature_select v) (driver_feature_select v) (queue_enabled v) d a u (config_generation v) (resetting v).
Definition with_resetting (x : bool) (v : VirtioPciState) : VirtioPciState :=
  mkVs (queue_select v) (status v) (guest_features v) (queues v) (config_msix_vector v) (queue_msix_vectors v)
    (device_feature_select v) (driver_feature_select v) (queue_enabled v) (queue_desc v) (queue_avail v) (queue_used v)
    (config_generation v) x.

(** [VirtioPciState::new]: [queue_new] panics on a bad size. *)
Definition vs_new (n : nat) (queue_size : Z) : option VirtioPciState :=
  let* qs := mapM (fun _ => queue_new queue_size) (seq 0 n) in
  Some (mkVs 0 0 0 qs VIRTIO_MSI_NO_VECTOR (replicate n VIRTIO_MSI_NO_VECTOR) 0 0
          (replicate n false) (replicate n 0) (replicate n 0) (replicate n 0) 0 false).

(** [selected_queue]: the index of the selected queue and the queue. *)
Definition sel (v : VirtioPciState) : nat := Z.to_nat (queue_select v).
Definition selected_queue (v : VirtioPciState) : option VirtQueue := queues v !! sel v.

Definition ring_features (features : Z) (q : VirtQueue) : VirtQueue :=
  set_indirect_supported (set_event_idx q (bit_set features VIRTIO_F_RING_EVENT_IDX))
    (bit_set features VIRTIO_F_RING_INDIRECT_DESC).

Definition apply_features (v : VirtioPciState) : VirtioPciState :=
  with_queues (ring_features (guest_features v) <$> queues v) v.

Definition fill {A} (x : A) (l : list A) : list A := replicate (length l) x.

(** [VirtioPciState::reset]: the latch and the generation stay. *)
Definition vs_reset (v : VirtioPciState) : VirtioPciState :=
  mkVs 0 0 0 (reset <$> queues v) VIRTIO_MSI_NO_VECTOR (fill VIRTIO_MSI_NO_VECTOR (queue_msix_vectors v)) 0 0
    (fill false (queue_enabled v)) (fill 0 (queue_desc v)) (fill 0 (queue_avail v)) (fill 0 (queue_used v))
    (config_generation v) (resetting v).

Definition readable_status (v : VirtioPciState) : Z :=
  if resetting v then Z.lor (status v) STATUS_ACKNOWLEDGE else status v.

(** ** The interrupt gate *)

Record IntrGate : Type := mkGate { g_open : bool; g_session : Z; g_in_flight : Z }.

Definition gate_new : IntrGate := mkGate true 0 0.

(** [begin] and [begin_current]: one delivery is admitted and counted. *)
Definition begin_ (session : Z) (g : IntrGate) : option IntrGate :=
  if negb (g_open g) || negb (g_session g =? session) then None
  else Some (mkGate (g_open g) (g_session g) (wadd 64 (g_in_flight g) 1)).

Definition begin_current (g : IntrGate) : option IntrGate :=
  if negb (g_open g) then None else Some (mkGate (g_open g) (g_session g) (wadd 64 (g_in_flight g) 1)).

(** [Drop for Admitted]. *)
Definition admitted_drop (g : IntrGate) : IntrGate :=
  mkGate (g_open g) (g_session g) (wsub 64 (g_in_flight g) 1).

Definition end_session (g : IntrGate) : IntrGate :=
  mkGate false (wadd 64 (g_session g) 1) (g_in_flight g).

(** [settle] returns once this holds. *)
Definition settled (g : IntrGate) : bool := g_in_flight g =? 0.

Definition reopen (g : IntrGate) : IntrGate := mkGate true (g_session g) (g_in_flight g).

(** ** The device

    [t_pin] is the level of the function's INTx pin, [t_sent] the messages it
    has sent; [t_qvec] and [t_cvec] are the atomic copies of the vectors;
    [t_func] is the header and what is on the two buses. *)

Section transport.
Context {D : Type} `{VirtioDevice D}.

Record Transport : Type := mkT {
  t_vs : VirtioPciState; t_dev : D; t_isr : Z; t_pin : option bool; t_msix : option msix.MsixInner;
  t_qvec : list Z; t_cvec : Z; t_gate : IntrGate; t_sent : list msix.message;
  t_func : pcireg.function; t_pio : pcireg.bus; t_mmio : pcireg.bus;
  t_id : nat; t_cfg_size : Z; t_nq : nat
}.

Definition set_vs (x : VirtioPciState) (t : Transport) : Transport :=
  mkT x (t_dev t) (t_isr t) (t_pin t) (t_msix t) (t_qvec t) (t_cvec t) (t_gate t) (t_sent t) (t_func t) (t_pio t) (t_mmio t) (t_id t) (t_cfg_size t) (t_nq t).
Definition set_dev (x : D) (t : Transport) : Transport :=
  mkT (t_vs t) x (t_isr t) (t_pin t) (t_msix t) (t_qvec t) (t_cvec t) (t_gate t) (t_sent t) (t_func t) (t_pio t) (t_mmio t) (t_id t) (t_cfg_size t) (t_nq t).
Definition set_line (isr : Z) (pin : option bool) (t : Transport) : Transport :=
  mkT (t_vs t) (t_dev t) isr pin (t_msix t) (t_qvec t) (t_cvec t) (t_gate t) (t_sent t) (t_func t) (t_pio t) (t_mmio t) (t_id t) (t_cfg_size t) (t_nq t).
Definition set_msix (x : option msix.MsixInner) (t : Transport) : Transport :=
  mkT (t_vs t) (t_dev t) (t_isr t) (t_pin t) x (t_qvec t) (t_cvec t) (t_gate t) (t_sent t) (t_func t) (t_pio t) (t_mmio t) (t_id t) (t_cfg_size t) (t_nq t).
Definition set_vecs (q : list Z) (c : Z) (t : Transport) : Transport :=
  mkT (t_vs t) (t_dev t) (t_isr t) (t_pin t) (t_msix t) q c (t_gate t) (t_sent t) (t_func t) (t_pio t) (t_mmio t) (t_id t) (t_cfg_size t) (t_nq t).
Definition set_gate (x : IntrGate) (t : Transport) : Transport :=
  mkT (t_vs t) (t_dev t) (t_isr t) (t_pin t) (t_msix t) (t_qvec t) (t_cvec t) x (t_sent t) (t_func t) (t_pio t) (t_mmio t) (t_id t) (t_cfg_size t) (t_nq t).
Definition add_sent (ms : list msix.message) (t : Transport) : Transport :=
  mkT (t_vs t) (t_dev t) (t_isr t) (t_pin t) (t_msix t) (t_qvec t) (t_cvec t) (t_gate t) (t_sent t ++ ms) (t_func t) (t_pio t) (t_mmio t) (t_id t) (t_cfg_size t) (t_nq t).
Definition set_buses (f : pcireg.function) (pio mmio : pcireg.bus) (t : Transport) : Transport :=
  mkT (t_vs t) (t_dev t) (t_isr t) (t_pin t) (t_msix t) (t_qvec t) (t_cvec t) (t_gate t) (t_sent t) f pio mmio (t_id t) (t_cfg_size t) (t_nq t).

Definition on_vs (f : VirtioPciState -> VirtioPciState) (t : Transport) : Transport := set_vs (f (t_vs t)) t.
Definition hdr (t : Transport) : pcidev.DeviceState := pcireg.f_hdr (t_func t).

(** ** Capability chain *)

Record CapOffsets : Type := mkCaps { co_first : Z; co_msix : Z; co_common : Z; co_notify : Z; co_isr : Z; co_device : Z }.

Definition caps_new (has_msix : bool) : CapOffsets :=
  if has_msix then mkCaps 0x40 0x40 0x4C 0x5C 0x70 0x80 else mkCaps 0x40 0 0x40 0x50 0x64 0x74.

Definition has_msix (t : Transport) : bool := match t_msix t with Some _ => true | None => false end.
Definition cap_offsets (t : Transport) : CapOffsets := caps_new (has_msix t).

(** [u16::next_power_of_two] and the like: zero past the width. *)
Definition next_pow2 (w x : Z) : Z :=
  let p := msix.next_power_of_two x in if p <? 2 ^ w then p else 0.

(** [new_with_logger]: the legacy interrupt is [Some pin] when wired. *)
Definition transport_new (d : D) (dev_type : Z) (nq : nat) (queue_size cfg_size : Z) (lintr : option Z)
    (pio mmio : pcireg.bus) (tbl : option msix.MsixInner) (id : nat) : option Transport :=
  if (MAX_QUEUES <? nq)%nat then None
  else
    let '(class, subclass) := pci_class_for dev_type in
    let ident := pcidev.mkIdent 0x1AF4 (transitional_device_id dev_type) class subclass 0 0 0x1AF4 dev_type in
    let with_msix := match tbl with Some _ => true | None => false end in
    let common_size := if with_msix then 0x18 else 0x14 in
    let bar_size := Z.max (next_pow2 16 (wadd 16 common_size cfg_size)) 32 in
    let* h := pcidev.define_bar 0 (bar.DefPio bar_size) (pcidev.device_new ident) in
    let* h := pcidev.define_bar 2 (bar.DefMmio MODERN_BAR_SIZE) h in
    let* h :=
      match tbl with
      | None => Some h
      | Some m =>
          let count := Z.of_nat (length (msix.entries m)) in
          pcidev.define_bar 4 (bar.DefMmio (next_pow2 32 (as_u 32 (msix.bar_size_for count)))) h
      end in
    let h := pcidev.set_cap_ptr (co_first (caps_new with_msix)) h in
    let '(h, pin) :=
      match lintr with
      | Some pin_id => (pcidev.set_intr_line 10 (pcidev.set_intr_pin pin_id h), Some false)
      | None => (h, None)
      end in
    let* v := vs_new nq queue_size in
    Some (mkT v d 0 pin tbl (replicate nq VIRTIO_MSI_NO_VECTOR) VIRTIO_MSI_NO_VECTOR gate_new []
            (pcireg.mkFunc h with_msix None None None) pio mmio id cfg_size nq).

(** [read_virtio_cap] *)
Definition read_virtio_cap (rel cfg_type next bar offset length : Z) : Z :=
  let dword_off := Z.land rel 0xFC in
  if dword_off =? 0 then
    let cap_len := if cfg_type =? 2 then 20 else 16 in
    Z.lor (Z.lor (Z.lor 0x09 (Z.shiftl next 8)) (Z.shiftl cap_len 16)) (Z.shiftl cfg_type 24)
  else if dword_off =? 4 then bar
  else if dword_off =? 8 then offset
  else if dword_off =? 12 then length
  else 0.

Definition has_device_cfg_cap (t : Transport) : bool := negb (t_cfg_size t =? 0).

(** The virtio part of [cap_chain_read]. *)
Definition virtio_caps_read (t : Transport) (offset : Z) : option Z :=
  let co := cap_offsets t in
  let inside c n := (c <=? offset) && (offset <? c + n) in
  if inside (co_common co) 16 then
    Some (read_virtio_cap (offset - co_common co) 1 (co_notify co) MODERN_BAR_IDX 0x0000 0x38)
  else if inside (co_notify co) 20 then
    let rel := offset - co_notify co in
    if 16 <=? rel then Some 0 else Some (read_virtio_cap rel 2 (co_isr co) MODERN_BAR_IDX 0x2000 4)
  else if inside (co_isr co) 16 then
    Some (read_virtio_cap (offset - co_isr co) 3 (if has_device_cfg_cap t then co_device co else 0) MODERN_BAR_IDX 0x3000 4)
  else if has_device_cfg_cap t && inside (co_device co) 16 then
    Some (read_virtio_cap (offset - co_device co) 4 0 MODERN_BAR_IDX 0x1000 (t_cfg_size t))
  else None.

Definition in_msix_cap (t : Transport) (offset : Z) : bool :=
  let m := co_msix (cap_offsets t) in negb (m =? 0) && (m <=? offset) && (offset <? m + 12).

Definition msix_count (m : msix.MsixInner) : Z := Z.of_nat (length (msix.entries m)).

Definition cap_chain_read (t : Transport) (offset : Z) : option Z :=
  match t_msix t with
  | Some m =>
      if in_msix_cap t offset then
        let co := cap_offsets t in
        let* val := msix.cap_read m (msix_count m) offset (co_msix co) in
        Some (if offset =? co_msix co
              then Z.lor (Z.land val (bit_not 32 0x0000FF00)) (Z.shiftl (co_common co) 8) else val)
      else virtio_caps_read t offset
  | None => virtio_caps_read t offset
  end.

(** ** Interrupts *)

(** [raise_interrupt] and [lower_interrupt] change the pin, where there is one. *)
Definition raise_interrupt (pin : option bool) : option bool := (fun _ => true) <$> pin.
Definition lower_interrupt (pin : option bool) : option bool := (fun _ => false) <$> pin.

(** An ISR bit and the pin, under the line lock. *)
Definition raise_line (bit : Z) (t : Transport) : Transport :=
  set_line (Z.lor (t_isr t) bit) (raise_interrupt (t_pin t)) t.

Definition raise_queue_interrupt (t : Transport) : Transport := raise_line ISR_QUEUE_INTR t.

Definition read_isr (t : Transport) : Transport * Z :=
  let val := t_isr t in
  (set_line 0 (if negb (val =? 0) then lower_interrupt (t_pin t) else t_pin t) t, val).

Definition msix_enabled (t : Transport) : bool :=
  match t_msix t with Some m => msix.enabled m | None => false end.

(** [MsixTable::fire] of the device's table: the table and the message to send. *)
Definition fire_vector (vector : Z) (t : Transport) : option (Transport * list msix.message) :=
  match t_msix t with
  | None => Some (t, [])
  | Some m =>
      if vector =? VIRTIO_MSI_NO_VECTOR then Some (t, [])
      else let* r := msix.fire m (Z.to_nat vector) in Some (set_msix (Some r.1) t, option_list r.2)
  end.

(** [route_msix] *)
Definition route_msix (vector : Z) (t : Transport) : option (bool * Transport) :=
  if negb (msix_enabled t) then Some (false, t)
  else let* r := fire_vector vector t in Some (true, add_sent r.2 r.1).

Definition queue_vector (t : Transport) (idx : Z) : Z :=
  default VIRTIO_MSI_NO_VECTOR (t_qvec t !! Z.to_nat idx).

Definition deliver_queue_interrupt (idx : Z) (t : Transport) : option Transport :=
  let* r := route_msix (queue_vector t idx) t in
  Some (if r.1 : bool then r.2 else raise_queue_interrupt r.2).

Definition raise_config_interrupt (t : Transport) : option Transport :=
  let* r := route_msix (t_cvec t) t in
  Some (if r.1 : bool then r.2 else raise_line ISR_CFG_CHANGE r.2).

(** A delivery between its admission and its end. *)
Definition admitted (g : option IntrGate) (deliver : Transport -> option Transport) (t : Transport) : option Transport :=
  match g with
  | None => Some t
  | Some g => let* t := deliver (set_gate g t) in Some (set_gate (admitted_drop (t_gate t)) t)
  end.

Definition raise_queue_interrupt_in (session idx : Z) (t : Transport) : option Transport :=
  admitted (begin_ session (t_gate t)) (deliver_queue_interrupt idx) t.

Definition raise_queue_interrupt_current (idx : Z) (t : Transport) : option Transport :=
  admitted (begin_current (t_gate t)) (deliver_queue_interrupt idx) t.

Definition raise_config_interrupt_in (session : Z) (t : Transport) : option Transport :=
  admitted (begin_ session (t_gate t)) raise_config_interrupt t.

Definition deliver_released (session : Z) (released : list msix.message) (t : Transport) : option Transport :=
  match released with
  | [] => Some t
  | _ => admitted (begin_ session (t_gate t)) (fun t => Some (add_sent released t)) t
  end.

(** ** Status and reset *)

(** What a thread does after it gave up the transport lock. *)
Inductive Tail : Type :=
| NoTail
| RaiseQueue (session idx : Z)
| RaiseConfig (session : Z)
| FinishReset.

Definition set_needs_reset (t : Transport) : Transport * Tail :=
  if bit_set (status (t_vs t)) STATUS_DEVICE_NEEDS_RESET then (t, NoTail)
  else (on_vs (fun v => with_status (Z.lor (status v) STATUS_DEVICE_NEEDS_RESET) v) t, RaiseConfig (g_session (t_gate t))).

Definition set_status (new_status : Z) (t : Transport) : Transport * Tail :=
  let old := status (t_vs t) in
  if negb (Z.land new_status old =? old) then set_needs_reset t
  else
    let gained := Z.land new_status (bit_not 8 old) in
    let t := on_vs (with_status new_status) t in
    if bit_set gained STATUS_FEATURES_OK then
      let t := on_vs apply_features t in
      (set_dev (set_features (guest_features (t_vs t)) (t_dev t)) t, NoTail)
    else (t, NoTail).

(** [reset_device] up to where it drops the transport lock. *)
Definition reset_device (t : Transport) : Transport * Tail :=
  if resetting (t_vs t) then (t, NoTail)
  else
    let t := on_vs (fun v => with_enabled (fill false (queue_enabled v))
                               (with_status (Z.land (status v) (bit_not 8 STATUS_DRIVER_OK)) (with_resetting true v))) t in
    (set_gate (end_session (t_gate t)) t, FinishReset).

(** The steps of [finish_reset]: the backend; then, once the gate has
    settled, the line; the messages held; the registers, the latch and
    admission. *)
Definition reset_backend (t : Transport) : Transport := set_dev (dev_reset (t_dev t)) t.
Definition reset_line (t : Transport) : Transport := set_line 0 (lower_interrupt (t_pin t)) t.
Definition reset_pending (t : Transport) : Transport := set_msix (msix.clear_pending <$> t_msix t) t.
Definition reset_publish (t : Transport) : Transport :=
  let t := on_vs vs_reset t in
  let t := set_vecs (fill VIRTIO_MSI_NO_VECTOR (t_qvec t)) VIRTIO_MSI_NO_VECTOR t in
  let t := on_vs (with_resetting false) t in
  set_gate (reopen (t_gate t)) t.

(** [finish_reset] with nothing in flight. *)
Definition finish_reset (t : Transport) : Transport :=
  reset_publish (reset_pending (reset_line (reset_backend t))).

(** [signal_device_needs_reset] *)
Definition signal_device_needs_reset (t : Transport) : Transport * Tail :=
  if resetting (t_vs t) then (t, NoTail) else set_needs_reset t.

(** [post_restore_kick]: the session and the queues it raises for. *)
Definition post_restore_kick (t : Transport) : list Tail :=
  (fun i => RaiseQueue (g_session (t_gate t)) (Z.of_nat i)) <$>
    filter (fun i => queue_enabled (t_vs t) !! i = Some true) (seq 0 (t_nq t)).

(** ** Register files *)

Section registers.
Context `{GuestMap P} (pm : P).

Definition can_notify (t : Transport) (idx : Z) : bool :=
  bit_set (status (t_vs t)) STATUS_DRIVER_OK &&
  match queues (t_vs t) !! Z.to_nat idx with Some q => is_configured q | None => false end.

Definition queue_needs_reset (t : Transport) (idx : Z) : bool :=
  match queues (t_vs t) !! Z.to_nat idx with Some q => needs_reset q | None => false end.

(** The notify register of either transport. *)
Definition notify (idx : Z) (t : Transport) (w : world) : Transport * Tail * world :=
  if negb (can_notify t idx) then (t, NoTail, w)
  else
    let '(did_work, qs, d, w) := notify_queue idx (queues (t_vs t)) (t_dev t) w in
    let t := set_dev d (on_vs (with_queues qs) t) in
    if queue_needs_reset t idx then (set_needs_reset t, w)
    else if did_work : bool then (t, RaiseQueue (g_session (t_gate t)) idx, w)
    else (t, NoTail, w).

(** The vector registers of either transport. *)
Definition write_config_vector (val : Z) (t : Transport) : Transport :=
  let val := as_u 16 val in
  set_vecs (t_qvec t) val (on_vs (fun v => with_vectors val (queue_msix_vectors v) v) t).

Definition write_queue_vector (val : Z) (t : Transport) : Transport :=
  let val := as_u 16 val in
  let i := sel (t_vs t) in
  if (i <? length (queue_msix_vectors (t_vs t)))%nat then
    set_vecs (<[i := val]> (t_qvec t)) (t_cvec t)
      (on_vs (fun v => with_vectors (config_msix_vector v) (<[i := val]> (queue_msix_vectors v)) v) t)
  else t.

Definition read_queue_vector (v : VirtioPciState) : Z := default VIRTIO_MSI_NO_VECTOR (queue_msix_vectors v !! sel v).

(** The status register of either transport. *)
Definition write_status (val : Z) (t : Transport) : Transport * Tail :=
  let new_status := as_u 8 val in
  if new_status =? 0 then reset_device t else set_status new_status t.

Definition put_queue (i : nat) (q : VirtQueue) (t : Transport) : Transport :=
  on_vs (fun v => with_queues (<[i := q]> (queues v)) v) t.

(** *** Legacy *)

Definition device_config_offset (t : Transport) : Z := if msix_enabled t then 0x18 else 0x14.

Definition legacy_features (t : Transport) : Z :=
  Z.land (Z.land (as_u 32 (device_features (t_dev t))) (bit_not 32 VIRTIO_F_RING_EVENT_IDX))
    (bit_not 32 VIRTIO_F_RING_INDIRECT_DESC).

Definition bar_read (offset len : Z) (t : Transport) : Transport * Z :=
  let v := t_vs t in
  let off := device_config_offset t in
  if off <=? offset then (t, dev_cfg_read (offset - off) len (t_dev t))
  else if offset =? 0x00 then (t, legacy_features t)
  else if offset =? 0x04 then (t, as_u 32 (guest_features v))
  else if offset =? 0x08 then (t, match selected_queue v with Some q => pfn q | None => 0 end)
  else if offset =? 0x0C then (t, match selected_queue v with Some q => q_size q | None => 0 end)
  else if offset =? 0x0E then (t, queue_select v)
  else if offset =? 0x10 then (t, 0)
  else if offset =? 0x12 then (t, readable_status v)
  else if offset =? 0x13 then read_isr t
  else if (offset =? 0x14) && msix_enabled t then (t, config_msix_vector v)
  else if (offset =? 0x16) && msix_enabled t then (t, read_queue_vector v)
  else (t, 0).

(** QUEUE_PFN of the selected queue. *)
Definition write_pfn (val : Z) (t : Transport) : Transport * Tail :=
  let i := sel (t_vs t) in
  match selected_queue (t_vs t) with
  | None => (t, NoTail)
  | Some q =>
      let q := set_addr_legacy q val in
      let verdict := if val =? 0 then Ok tt else validate_addrs pm q in
      match verdict with
      | Err _ =>
          let t := put_queue i (reset q) t in
          set_needs_reset (on_vs (fun v => with_enabled (<[i := false]> (queue_enabled v)) v) t)
      | Ok _ =>
          let t := put_queue i q t in
          let t := on_vs (fun v => with_enabled (<[i := negb (val =? 0)]> (queue_enabled v)) v) t in
          (set_dev (queue_addr_set (queue_select (t_vs t)) q (t_dev t)) t, NoTail)
      end
  end.

Definition write_legacy_features (val : Z) (t : Transport) : Transport :=
  if bit_set (status (t_vs t)) STATUS_DRIVER_OK then t
  else
    let accepted := Z.land val (legacy_features t) in
    let t := on_vs (fun v => apply_features (with_features accepted v)) t in
    set_dev (set_features accepted (t_dev t)) t.

Definition bar_write (offset val len : Z) (t : Transport) (w : world) : Transport * Tail * world :=
  if resetting (t_vs t) then (t, NoTail, w)
  else
    let off := device_config_offset t in
    if off <=? offset then (set_dev (dev_cfg_write (offset - off) val len (t_dev t)) t, NoTail, w)
    else if offset =? 0x04 then (write_legacy_features val t, NoTail, w)
    else if offset =? 0x08 then (write_pfn val t, w)
    else if offset =? 0x0E then (on_vs (with_queue_select (as_u 16 val)) t, NoTail, w)
    else if offset =? 0x10 then notify (as_u 16 val) t w
    else if offset =? 0x12 then (write_status val t, w)
    else if (offset =? 0x14) && msix_enabled t then (write_config_vector val t, NoTail, w)
    else if (offset =? 0x16) && msix_enabled t then (write_queue_vector val t, NoTail, w)
    else (t, NoTail, w).

(** *** Modern *)

Definition modern_features (t : Transport) : Z := Z.lor (device_features (t_dev t)) VIRTIO_F_VERSION_1.

Definition select_half (s a : Z) : Z := if s =? 0 then half false a else if s =? 1 then half true a else 0.

Definition modern_common_read (offset : Z) (t : Transport) : Z :=
  let v := t_vs t in
  let at_sel (l : list Z) := default 0 (l !! sel v) in
  if offset =? 0x00 then device_feature_select v
  else if offset =? 0x04 then select_half (device_feature_select v) (modern_features t)
  else if offset =? 0x08 then driver_feature_select v
  else if offset =? 0x0C then select_half (driver_feature_select v) (guest_features v)
  else if offset =? 0x10 then config_msix_vector v
  else if offset =? 0x12 then Z.of_nat (t_nq t)
  else if offset =? 0x14 then readable_status v
  else if offset =? 0x15 then config_generation v
  else if offset =? 0x16 then queue_select v
  else if offset =? 0x18 then match selected_queue v with Some q => q_size q | None => 0 end
  else if offset =? 0x1A then read_queue_vector v
  else if offset =? 0x1C then (if default false (queue_enabled v !! sel v) then 1 else 0)
  else if offset =? 0x1E then queue_select v
  else if offset =? 0x20 then half false (at_sel (queue_desc v))
  else if offset =? 0x24 then half true (at_sel (queue_desc v))
  else if offset =? 0x28 then half false (at_sel (queue_avail v))
  else if offset =? 0x2C then half true (at_sel (queue_avail v))
  else if offset =? 0x30 then half false (at_sel (queue_used v))
  else if offset =? 0x34 then half true (at_sel (queue_used v))
  else 0.

Definition write_driver_feature (val : Z) (t : Transport) : Transport :=
  let v := t_vs t in
  if bit_set (status v) STATUS_FEATURES_OK then t
  else
    let offered := modern_features t in
    let s := driver_feature_select v in
    if s =? 0 then on_vs (with_features (set_half false (Z.land val (half false offered)) (guest_features v))) t
    else if s =? 1 then on_vs (with_features (set_half true (Z.land val (half true offered)) (guest_features v))) t
    else t.

Definition write_queue_size (val : Z) (t : Transport) : Transport * Tail :=
  match selected_queue (t_vs t) with
  | None => (t, NoTail)
  | Some q =>
      match set_size q (as_u 16 val) with
      | (q, Ok _) => (put_queue (sel (t_vs t)) q t, NoTail)
      | (_, Err _) => set_needs_reset t
      end
  end.

(** QUEUE_ENABLE of the selected queue; an index past a list panics. *)
Definition write_queue_enable (val : Z) (t : Transport) : option (Transport * Tail) :=
  let v := t_vs t in
  let i := sel v in
  if negb ((i <? length (queue_enabled v))%nat && (val =? 1)) then Some (t, NoTail)
  else
    let* desc := queue_desc v !! i in
    let* avail := queue_avail v !! i in
    let* used := queue_used v !! i in
    match queues v !! i with
    | None => Some (t, NoTail)
    | Some q =>
        let q := set_addr_modern q desc avail used in
        match validate_addrs pm q with
        | Err _ => Some (set_needs_reset (put_queue i (reset q) t))
        | Ok _ =>
            let t := on_vs (fun v => with_enabled (<[i := true]> (queue_enabled v)) v) (put_queue i q t) in
            Some (set_dev (queue_addr_set (Z.of_nat i) q (t_dev t)) t, NoTail)
        end
    end.

Definition write_half (high : bool) (val : Z) (i : nat) (l : list Z) : list Z := alter (set_half high val) i l.

Definition write_ring (offset val : Z) (v : VirtioPciState) : VirtioPciState :=
  let i := sel v in
  if offset =? 0x20 then with_rings (write_half false val i (queue_desc v)) (queue_avail v) (queue_used v) v
  else if offset =? 0x24 then with_rings (write_half true val i (queue_desc v)) (queue_avail v) (queue_used v) v
  else if offset =? 0x28 then with_rings (queue_desc v) (write_half false val i (queue_avail v)) (queue_used v) v
  else if offset =? 0x2C then with_rings (queue_desc v) (write_half true val i (queue_avail v)) (queue_used v) v
  else if offset =? 0x30 then with_rings (queue_desc v) (queue_avail v) (write_half false val i (queue_used v)) v
  else if offset =? 0x34 then with_rings (queue_desc v) (queue_avail v) (write_half true val i (queue_used v)) v
  else v.

Definition modern_common_write (offset val : Z) (t : Transport) : option (Transport * Tail) :=
  if resetting (t_vs t) then Some (t, NoTail)
  else if offset =? 0x00 then Some (on_vs (fun v => with_selects val (driver_feature_select v) v) t, NoTail)
  else if offset =? 0x08 then Some (on_vs (fun v => with_selects (device_feature_select v) val v) t, NoTail)
  else if offset =? 0x0C then Some (write_driver_feature val t, NoTail)
  else if offset =? 0x10 then Some (write_config_vector val t, NoTail)
  else if offset =? 0x14 then Some (write_status val t)
  else if offset =? 0x16 then Some (on_vs (with_queue_select (as_u 16 val)) t, NoTail)
  else if offset =? 0x18 then Some (write_queue_size val t)
  else if offset =? 0x1A then Some (write_queue_vector val t, NoTail)
  else if offset =? 0x1C then write_queue_enable val t
  else Some (on_vs (write_ring offset val) t, NoTail).

Definition modern_bar_read (offset len : Z) (t : Transport) : Transport * Z :=
  let page := Z.land offset 0xF000 in
  let reg := Z.land offset 0x0FFF in
  if page =? 0x0000 then (t, modern_common_read reg t)
  else if page =? 0x1000 then (t, dev_cfg_read reg len (t_dev t))
  else if page =? 0x3000 then read_isr t
  else (t, 0).

Definition modern_bar_write (offset val len : Z) (t : Transport) (w : world) : option (Transport * Tail * world) :=
  let page := Z.land offset 0xF000 in
  let reg := Z.land offset 0x0FFF in
  if page =? 0x0000 then let* r := modern_common_write reg val t in Some (r, w)
  else if page =? 0x1000 then
    if resetting (t_vs t) then Some (t, NoTail, w)
    else Some (set_dev (dev_cfg_write reg val len (t_dev t)) t, NoTail, w)
  else if page =? 0x2000 then
    if resetting (t_vs t) then Some (t, NoTail, w) else Some (notify (as_u 16 val) t w)
  else Some (t, NoTail, w).

(** ** The MSI-X table and configuration space

    A write of the table or of its capability can release messages. The
    session is sampled before the write; delivery follows it. *)

Inductive MsixWrite : Type :=
| TableWrite (offset val : Z)
| CapWrite (offset val : Z).

Definition msix_write (a : MsixWrite) (t : Transport) : Transport * list msix.message :=
  match t_msix t with
  | None => (t, [])
  | Some m =>
      match a with
      | TableWrite offset val => let r := msix.table_write m offset val in (set_msix (Some r.1) t, option_list r.2)
      | CapWrite offset val =>
          let r := msix.cap_write m offset (co_msix (cap_offsets t)) val in (set_msix (Some r.1) t, r.2)
      end
  end.

Definition msix_access (a : MsixWrite) (t : Transport) : option Transport :=
  let session := g_session (t_gate t) in
  let r := msix_write a t in deliver_released session r.2 r.1.

Definition cap_chain_write (offset val : Z) (t : Transport) : option Transport :=
  if in_msix_cap t offset then msix_access (CapWrite offset val) t else Some t.

Definition cfg_read (offset len : Z) (t : Transport) : option Z :=
  let header := pcidev.cfg_read (hdr t) offset len in
  if 0x40 <=? offset then
    match cap_chain_read t (Z.land offset 0xFC) with
    | Some dword_val => Some (Z.land (Z.shiftr dword_val (Z.land offset 0x03 * 8)) (pcidev.len_mask len))
    | None => header
    end
  else header.

(** A write narrower than a dword is merged into what is there. *)
Definition cap_merge (offset len val : Z) (t : Transport) : Z :=
  if len <? 4 then
    let cur := default 0 (cap_chain_read t (Z.land offset 0xFC)) in
    let shift := Z.land offset 0x03 * 8 in
    let mask := if len =? 1 then as_u 32 (Z.shiftl 0xFF shift) else if len =? 2 then as_u 32 (Z.shiftl 0xFFFF shift)
                else 0xFFFFFFFF in
    Z.lor (Z.land cur (bit_not 32 mask)) (Z.land (as_u 32 (Z.shiftl val shift)) mask)
  else val.

(** The registrations follow the header. *)
Definition update_registrations (t : Transport) : option Transport :=
  let* r := pcireg.update_bar_registration (t_id t) (t_func t) (t_pio t) in
  let* s := pcireg.update_mmio_registration (t_id t) r.1 (t_mmio t) in
  Some (set_buses s.1 r.2 s.2 t).

Definition cfg_write (offset len val : Z) (t : Transport) : option Transport :=
  let* t := if 0x40 <=? offset then cap_chain_write (Z.land offset 0xFC) (cap_merge offset len val t) t else Some t in
  let* h := pcidev.cfg_write (hdr t) offset len val in
  let t := set_buses (pcireg.with_hdr h (t_func t)) (t_pio t) (t_mmio t) t in
  if pcireg.moves offset then update_registrations t else Some t.

Definition detach_regions (t : Transport) : Transport :=
  let '(f, pio, mmio) := pcireg.detach_regions (t_func t) (t_pio t) (t_mmio t) in set_buses f pio mmio t.

(** The rest of a register write, at once. *)
Definition run_tail (a : Tail) (t : Transport) : option Transport :=
  match a with
  | NoTail => Some t
  | RaiseQueue session idx => raise_queue_interrupt_in session idx t
  | RaiseConfig session => raise_config_interrupt_in session t
  | FinishReset => Some (finish_reset t)
  end.

(** [bar_rw]: an access that arrived on a bus, of [len] bytes. *)
Definition bar_rw_read (bar offset len : Z) (t : Transport) : Transport * Z :=
  if bar =? 4 then
    match t_msix t with
    | None => (t, 0)
    | Some m =>
        let pba := msix.pba_offset_for (msix_count m) in
        (t, if pba <=? offset then msix.pba_read m (offset - pba) else msix.table_read m offset)
    end
  else if bar =? 2 then modern_bar_read (as_u 16 offset) len t
  else if bar =? 0 then bar_read (as_u 16 offset) len t
  else (t, 0).

Definition bar_rw_write (bar offset val len : Z) (t : Transport) (w : world) : option (Transport * world) :=
  if bar =? 4 then
    match t_msix t with
    | None => Some (t, w)
    | Some m =>
        if offset <? msix.pba_offset_for (msix_count m)
        then let* t := msix_access (TableWrite offset val) t in Some (t, w) else Some (t, w)
    end
  else if bar =? 2 then
    let* '(t, a, w) := modern_bar_write (as_u 16 offset) val len t w in
    let* t := run_tail a t in Some (t, w)
  else if bar =? 0 then
    let '(t, a, w) := bar_write (as_u 16 offset) val len t w in
    let* t := run_tail a t in Some (t, w)
  else Some (t, w).

(** ** Migration *)

Record VirtioMigrateQueue : Type := mkMq {
  mq_idx : Z; mq_size : Z; mq_desc : Z; mq_avail : Z; mq_used : Z; mq_live : bool;
  mq_avail_idx : Z; mq_used_idx : Z; mq_vector : Z
}.

Record VirtioMigrateState : Type := mkMs {
  m_status : Z; m_features : Z; m_config_vector : Z; m_pci : pcidev.MigratePciState;
  m_msix : option msix.MsixMigrateState; m_queues : list VirtioMigrateQueue
}.

(** One queue of [export_migrate_queues], with the cursors of its ring. *)
Definition export_queue (g : guest) (t : Transport) (i : nat) (w : world) :
    result StateError (option VirtioMigrateQueue) * world :=
  match queues (t_vs t) !! i with
  | None => (Ok None, w)
  | Some q =>
      if negb (is_configured q) then (Ok None, w)
      else
        let mk (avail_idx used_idx : Z) :=
          mkMq (Z.of_nat i) (q_size q) (q_desc q) (q_avail q) (q_used q)
            (if bit_set (guest_features (t_vs t)) VIRTIO_F_VERSION_1 then default false (queue_enabled (t_vs t) !! i) else true)
            avail_idx used_idx (queue_vector t (Z.of_nat i)) in
        match kernel_ring_indices (Z.of_nat i) (t_dev t) with
        | Err e => (Err e, w)
        | Ok (Some (a, u)) => (Ok (Some (mk a u)), w)
        | Ok None =>
            let '(guest_used, w) := read_used_ring_idx pm g q w in
            let used_idx := if negb (guest_used =? 0) then guest_used else q_shadow_used q in
            (Ok (Some (mk (q_last_avail q) used_idx)), w)
        end
  end.

Fixpoint export_queues (g : guest) (t : Transport) (idxs : list nat) (w : world) :
    result StateError (list VirtioMigrateQueue) * world :=
  match idxs with
  | [] => (Ok [], w)
  | i :: idxs =>
      match export_queue g t i w with
      | (Err e, w) => (Err e, w)
      | (Ok q, w) =>
          match export_queues g t idxs w with
          | (Err e, w) => (Err e, w)
          | (Ok qs, w) => (Ok (option_list q ++ qs), w)
          end
      end
  end.

Definition export_migrate_queues (g : guest) (t : Transport) (w : world) : result StateError VirtioMigrateState * world :=
  match export_queues g t (seq 0 (t_nq t)) w with
  | (Err e, w) => (Err e, w)
  | (Ok qs, w) =>
      (Ok (mkMs (status (t_vs t)) (guest_features (t_vs t)) (t_cvec t) (pcidev.migrate_state (hdr t))
             (msix.export_state <$> t_msix t) qs), w)
  end.

Definition check_vector (vector table_len : Z) : result StateError unit :=
  if (vector =? VIRTIO_MSI_NO_VECTOR) || (vector <? table_len) then Ok tt else Err (VectorPast vector table_len).

(** One queue of [check_migrate_state]; [None] is the panic of an index or of
    [VirtQueue::new]. *)
Definition check_queue (t : Transport) (features : Z) (qs : VirtioMigrateQueue) (seen : list bool) :
    option (result StateError (list bool)) :=
  let idx := Z.to_nat (mq_idx qs) in
  if Z.of_nat (t_nq t) <=? mq_idx qs then Some (Err (QueuePast (mq_idx qs)))
  else
    let* dup := seen !! idx in
    if dup : bool then Some (Err (QueueTwice (mq_idx qs)))
    else
      let* own := queues (t_vs t) !! idx in
      let size := mq_size qs in
      if (size =? 0) || negb (is_power_of_two size) || (q_max_size own <? size)
      then Some (Err (BadSize (mq_idx qs) size))
      else
        let in_flight := wsub 16 (mq_avail_idx qs) (mq_used_idx qs) in
        if mq_size qs <? in_flight then Some (Err (TooManyInFlight (mq_idx qs) in_flight))
        else
          match check_vector (mq_vector qs) (match t_msix t with Some m => msix_count m | None => 0 end) with
          | Err e => Some (Err e)
          | Ok _ =>
              if mq_live qs then
                let* probe := queue_new size in
                let probe := set_event_idx (set_addr_modern probe (mq_desc qs) (mq_avail qs) (mq_used qs))
                               (bit_set features VIRTIO_F_RING_EVENT_IDX) in
                Some (match validate_addrs pm probe with
                      | Err e => Err (BadRings (mq_idx qs) e)
                      | Ok _ => Ok (<[idx := true]> seen)
                      end)
              else Some (Ok (<[idx := true]> seen))
          end.

Fixpoint check_queues (t : Transport) (features : Z) (l : list VirtioMigrateQueue) (seen : list bool) :
    option (result StateError unit) :=
  match l with
  | [] => Some (Ok tt)
  | qs :: l =>
      let* r := check_queue t features qs seen in
      match r with Err e => Some (Err e) | Ok seen => check_queues t features l seen end
  end.

Definition check_migrate_state (t : Transport) (s : VirtioMigrateState) : option (result StateError unit) :=
  if negb (eqb (match m_msix s with Some _ => true | None => false end) (has_msix t)) then Some (Err MsixPresence)
  else
    match check_vector (m_config_vector s) (match t_msix t with Some m => msix_count m | None => 0 end) with
    | Err e => Some (Err e)
    | Ok _ => check_queues t (m_features s) (m_queues s) (replicate (t_nq t) false)
    end.

(** One queue of [restore_migrate_queues]: the size before the addresses, the
    cursors after them. *)
Definition restore_queue (qs : VirtioMigrateQueue) (t : Transport) : option (Transport * result StateError unit) :=
  let i := Z.to_nat (mq_idx qs) in
  let* q := queues (t_vs t) !! i in
  match set_size (reset q) (mq_size qs) with
  | (q, Err e) => Some (put_queue i q t, Err (SizeRefused (mq_idx qs) e))
  | (q, Ok _) =>
      let q := set_shadow_used_idx (set_last_avail_idx (set_addr_modern q (mq_desc qs) (mq_avail qs) (mq_used qs))
                 (mq_avail_idx qs)) (mq_used_idx qs) in
      let t := on_vs (fun v =>
                 with_vectors (config_msix_vector v) (<[i := mq_vector qs]> (queue_msix_vectors v))
                   (with_enabled (<[i := mq_live qs]> (queue_enabled v))
                     (with_rings (<[i := mq_desc qs]> (queue_desc v)) (<[i := mq_avail qs]> (queue_avail v))
                       (<[i := mq_used qs]> (queue_used v)) v))) (put_queue i q t) in
      Some (set_vecs (<[i := mq_vector qs]> (t_qvec t)) (t_cvec t) t, Ok tt)
  end.

(** Steps of the restore, each over the whole list, stopping at an error. *)
Fixpoint each_queue (f : VirtioMigrateQueue -> Transport -> option (Transport * result StateError unit))
    (l : list VirtioMigrateQueue) (t : Transport) : option (Transport * result StateError unit) :=
  match l with
  | [] => Some (t, Ok tt)
  | qs :: l =>
      let* r := f qs t in
      match r with (t, Ok _) => each_queue f l t | (t, Err e) => Some (t, Err e) end
  end.

Definition msix_entry (t : Transport) (vector : Z) : Z * Z :=
  if vector =? VIRTIO_MSI_NO_VECTOR then (0, 0)
  else match t_msix t with
       | Some m => let e := msix.read_entry m (Z.to_nat vector) in (e.1, as_u 32 e.2)
       | None => (0, 0)
       end.

Definition restore_backend (qs : VirtioMigrateQueue) (t : Transport) : option (Transport * result StateError unit) :=
  if negb (mq_live qs) then Some (t, Ok tt)
  else
    let r := restore_ring_state (mq_idx qs) (mq_size qs) (mq_desc qs, mq_avail qs, mq_used qs)
               (mq_avail_idx qs, mq_used_idx qs) (msix_entry t (mq_vector qs)) (t_dev t) in
    Some (set_dev r.1 t, r.2).

Definition notify_bases (t : Transport) : Z * Z :=
  (match bar.get (pcidev.bars (hdr t)) 0 with Some (def, addr) => if bar.is_pio def then as_u 16 addr else 0 | None => 0 end,
   match bar.get (pcidev.bars (hdr t)) 2 with Some (def, addr) => if bar.is_mmio def then addr else 0 | None => 0 end).

Definition restore_notify (t : Transport) : Transport :=
  let '(bar0_port, bar2_addr) := notify_bases t in
  if negb (bar0_port =? 0) || negb (bar2_addr =? 0) then
    let pio := if negb (bar0_port =? 0) then wadd 16 bar0_port 0x10 else 0 in
    let mmio := if negb (bar2_addr =? 0) then wadd 64 bar2_addr 0x2000 else 0 in
    set_dev (set_notify_addrs pio mmio (t_dev t)) t
  else t.

(** [restore_migrate_pci_state]: the writes go through [cfg_write]. *)
Fixpoint replay (writes : list (Z * Z)) (t : Transport) : option Transport :=
  match writes with
  | [] => Some t
  | (offset, value) :: writes => let* t := cfg_write offset 4 value t in replay writes t
  end.

Definition restore_migrate_pci_state (s : pcidev.MigratePciState) (t : Transport) : option Transport :=
  let* t := replay (pcidev.bar_replay_writes (hdr t) (pcidev.mp_bar_addrs s)) t in
  cfg_write 0x04 2 (pcidev.mp_command s) t.

(** Step 4: wake each live queue. *)
Fixpoint wake (l : list VirtioMigrateQueue) (t : Transport) : option Transport :=
  match l with
  | [] => Some t
  | qs :: l => let* t := if mq_live qs then raise_queue_interrupt_current (mq_idx qs) t else Some t in wake l t
  end.

(** The middle of the restore, from the features to the table. *)
Definition restore_registers (s : VirtioMigrateState) (t : Transport) : option (Transport * result StateError unit) :=
  let t := set_dev (set_features (m_features s) (t_dev t)) (on_vs (fun v => apply_features (with_features (m_features s) v)) t) in
  let* r := each_queue restore_queue (m_queues s) t in
  match r with
  | (t, Err e) => Some (t, Err e)
  | (t, Ok _) =>
      let t := on_vs (fun v => with_vectors (m_config_vector s) (queue_msix_vectors v) (with_status (m_status s) v)) t in
      let t := set_vecs (t_qvec t) (m_config_vector s) t in
      match t_msix t, m_msix s with
      | Some m, Some table =>
          match msix.import_state m table with
          | (m, Ok _) => Some (set_msix (Some m) t, Ok tt)
          | (m, Err e) => Some (set_msix (Some m) t, Err (MsixTableRefused e))
          end
      | _, _ => Some (t, Ok tt)
      end
  end.

Definition restore_migrate_queues (s : VirtioMigrateState) (t : Transport) : option (Transport * result StateError unit) :=
  let* verdict := check_migrate_state t s in
  match verdict with
  | Err e => Some (t, Err e)
  | Ok _ =>
      let* t := restore_migrate_pci_state (m_pci s) t in
      match reset_all_rings (t_dev t) with
      | (d, Err e) => Some (set_dev d t, Err e)
      | (d, Ok _) =>
          let* r := restore_registers s (set_dev d t) in
          match r with
          | (t, Err e) => Some (t, Err e)
          | (t, Ok _) =>
              let* r := each_queue restore_backend (m_queues s) t in
              match r with
              | (t, Err e) => Some (t, Err e)
              | (t, Ok _) =>
                  let t := restore_notify t in
                  let t := set_dev (start_poll_deferred (t_dev t)) t in
                  let* t := wake (m_queues s) t in Some (t, Ok tt)
              end
          end
      end
  end.

End registers.
End transport.
End vpci.
