(* ===== verification/VirtioPciInv.v ===== *)
(** * The invariant of the transport's registers

    What the driver, the backend, interrupts and resets leave true of a
    [Transport], one critical section at a time: [section] lists them, from
    any thread and in any order; [vs_ok] is what the transport lock protects.
    The backend is any with the laws of [DeviceLaws]. *)

From S2P Require Import Prelude ASpace Mapping GuestMem VirtQueue VirtQueueInv PciBar PciDevice PciMsix VirtioPci.

Module vpci_inv.
Import mapping guestmem queue queue_inv vpci.

(** ** Bits *)

(** Every bit of [a] is one of [b]. *)
Definition within (a b : Z) : Prop := Z.land a b = a.

Lemma within_bits a b : within a b <-> forall i, 0 <= i -> Z.testbit a i = true -> Z.testbit b i = true.
Proof.
  unfold within. split.
  - intros He i Hi Ha. rewrite <- He, Z.land_spec in Ha. by apply andb_true_iff in Ha as [_ ?].
  - intros Hb. apply Z.bits_inj'. intros i Hi. rewrite Z.land_spec.
    destruct (Z.testbit a i) eqn:E; [by rewrite Hb|done].
Qed.

Lemma within_trans a b c : within a b -> within b c -> within a c.
Proof. rewrite !within_bits. eauto. Qed.

Lemma within_land a b : within (Z.land a b) b.
Proof. apply within_bits. intros i Hi. rewrite Z.land_spec. by intros [_ ?]%andb_true_iff. Qed.

Lemma within_lor a b : within a (Z.lor a b).
Proof. apply within_bits. intros i Hi Ha. by rewrite Z.lor_spec, Ha. Qed.

Lemma within_0 b : within 0 b.
Proof. done. Qed.

Lemma bit_set_within a b k : 0 <= k -> within a b -> bit_set a (2 ^ k) = true -> bit_set b (2 ^ k) = true.
Proof.
  intros Hk Hw. unfold bit_set. rewrite <- Z.shiftl_1_l, !land_bit_zero, !negb_involutive by done.
  by apply within_bits.
Qed.

Lemma testbit_uint w x i : 0 <= w -> uint w x -> w <= i -> Z.testbit x i = false.
Proof.
  intros Hw Hx Hi. destruct (decide (x = 0)) as [->|]; [apply Z.bits_0|].
  apply Z.bits_above_log2; [unfold uint in Hx; lia|]. apply Z.log2_lt_pow2; [unfold uint in Hx; lia|].
  unfold uint in Hx. apply Z.lt_le_trans with (2 ^ w); [lia|]. by apply Z.pow_le_mono_r.
Qed.

Lemma uint_bits w x : 0 <= w -> 0 <= x -> (forall i, w <= i -> Z.testbit x i = false) -> uint w x.
Proof.
  intros Hw Hx Hb. split; [done|]. destruct (decide (x = 0)) as [->|]; [by apply Z.pow_pos_nonneg|].
  apply Z.log2_lt_pow2; [lia|]. apply Z.nle_gt. intros Hle. specialize (Hb _ Hle). rewrite Z.bit_log2 in Hb by lia. done.
Qed.

Lemma uint_lor w x y : 0 <= w -> uint w x -> uint w y -> uint w (Z.lor x y).
Proof.
  intros Hw Hx Hy. apply uint_bits; [done|apply Z.lor_nonneg; unfold uint in *; lia|].
  intros i Hi. by rewrite Z.lor_spec, !(testbit_uint w).
Qed.

Lemma bit_not_testbit w m i : uint w m -> 0 <= i < w -> Z.testbit (bit_not w m) i = negb (Z.testbit m i).
Proof.
  intros Hm Hi. unfold bit_not. replace (2 ^ w - 1) with (Z.ones w) by (rewrite Z.ones_equiv; lia).
  rewrite Z.sub_nocarry_ldiff.
  - rewrite Z.ldiff_spec, Z.ones_spec_low by lia. done.
  - apply Z.bits_inj'. intros j Hj. rewrite Z.ldiff_spec, Z.bits_0. destruct (Z.lt_ge_cases j w).
    + rewrite Z.ones_spec_low by lia. apply andb_false_r.
    + rewrite (testbit_uint w) by (done || lia). done.
Qed.

Lemma gained_bits w old s k :
  uint w old -> within old s -> 0 <= k < w ->
  bit_set s (2 ^ k) = bit_set (Z.land s (bit_not w old)) (2 ^ k) || bit_set old (2 ^ k).
Proof.
  intros Ho Hw Hk. rewrite !bit_set_testbit, Z.land_spec, bit_not_testbit by (done || lia).
  rewrite within_bits in Hw. specialize (Hw k ltac:(lia)). destruct (Z.testbit old k), (Z.testbit s k); try done.
  by specialize (Hw eq_refl).
Qed.

Lemma land_bits_low a i : 0 <= i -> Z.testbit (Z.land a 0x00000000FFFFFFFF) i = Z.testbit a i && (i <? 32).
Proof.
  intros Hi. change 0xFFFFFFFF with (Z.ones 32). rewrite Z.land_spec. f_equal.
  destruct (Z.ltb_spec i 32); [by apply Z.ones_spec_low|by apply Z.ones_spec_high].
Qed.

Lemma land_bits_high a i : 0 <= i -> Z.testbit (Z.land a 0xFFFFFFFF00000000) i = Z.testbit a i && (32 <=? i) && (i <? 64).
Proof.
  intros Hi. change 0xFFFFFFFF00000000 with (Z.shiftl (Z.ones 32) 32).
  rewrite Z.land_spec, <- andb_assoc. f_equal. destruct (Z.leb_spec 32 i); simpl.
  - rewrite Z.shiftl_spec by lia. destruct (Z.ltb_spec i 64); [apply Z.ones_spec_low|apply Z.ones_spec_high]; lia.
  - by apply Z.shiftl_spec_low.
Qed.

Lemma set_half_uint high val a : uint 32 val -> uint 64 a -> uint 64 (set_half high val a).
Proof.
  intros Hv Ha. unfold set_half. destruct high; apply uint_lor; try done.
  - by apply uint_land.
  - rewrite Z.shiftl_mul_pow2 by done. unfold uint in *. lia.
  - by apply uint_land.
  - unfold uint in *. lia.
Qed.

Lemma set_half_within high val f offered :
  uint 64 offered -> within f offered -> within (set_half high (Z.land val (half high offered)) f) offered.
Proof.
  intros Ho Hf. apply within_bits. intros i Hi. rewrite within_bits in Hf. unfold set_half, half, as_u. destruct high; rewrite Z.lor_spec.
  - rewrite land_bits_low by done. intros [[? _]%andb_true_iff|Hs]%orb_true_iff; [auto|].
    destruct (Z.lt_ge_cases i 32); [by rewrite Z.shiftl_spec_low in Hs|].
    rewrite Z.shiftl_spec, Z.land_spec in Hs by lia. apply andb_true_iff in Hs as [_ Hs].
    destruct (Z.lt_ge_cases (i - 32) 32); [|by rewrite Z.mod_pow2_bits_high in Hs by lia].
    rewrite Z.mod_pow2_bits_low, Z.shiftr_spec in Hs by lia. by replace (i - 32 + 32) with i in Hs by lia.
  - rewrite land_bits_high by done. intros [[[? _]%andb_true_iff _]%andb_true_iff|Hs]%orb_true_iff; [auto|].
    rewrite Z.land_spec in Hs. apply andb_true_iff in Hs as [_ Hs].
    destruct (Z.lt_ge_cases i 32); [|by rewrite Z.mod_pow2_bits_high in Hs by lia].
    by rewrite Z.mod_pow2_bits_low in Hs by lia.
Qed.

(** ** What the transport lock protects *)

Section regs.
Context `{GuestMap P} (pm : P).

Definition q_good (q : VirtQueue) : Prop := q_ok q /\ cache_ok pm q.

(** The rings use what was negotiated. *)
Definition flags_match (features : Z) (q : VirtQueue) : Prop :=
  q_event_idx q = bit_set features VIRTIO_F_RING_EVENT_IDX /\ q_indirect q = bit_set features VIRTIO_F_RING_INDIRECT_DESC.

Record vs_ok (offered : Z) (n : nat) (v : VirtioPciState) : Prop := {
  vo_lengths : length (queues v) = n /\ length (queue_msix_vectors v) = n /\ length (queue_enabled v) = n /\
    length (queue_desc v) = n /\ length (queue_avail v) = n /\ length (queue_used v) = n;
  vo_good : Forall q_good (queues v);
  vo_features : within (guest_features v) offered;
  vo_status : uint 8 (status v);
  vo_vectors : uint 16 (config_msix_vector v) /\ Forall (uint 16) (queue_msix_vectors v);
  vo_rings : Forall (uint 64) (queue_desc v) /\ Forall (uint 64) (queue_avail v) /\ Forall (uint 64) (queue_used v);
  vo_latch : resetting v = true -> bit_set (status v) STATUS_DRIVER_OK = false /\ Forall (eq false) (queue_enabled v);
  vo_live : forall i, queue_enabled v !! i = Some true ->
    (exists q, queues v !! i = Some q /\ is_configured q = true) \/ bit_set (status v) STATUS_DEVICE_NEEDS_RESET = true;
  vo_flags : bit_set (status v) STATUS_FEATURES_OK = true -> Forall (flags_match (guest_features v)) (queues v)
}.

(** A queue that its device has worked on. *)
Definition ring_kept (q q' : VirtQueue) : Prop :=
  q_size q' = q_size q /\ q_max_size q' = q_max_size q /\
  q_desc q' = q_desc q /\ q_avail q' = q_avail q /\ q_used q' = q_used q /\
  q_event_idx q' = q_event_idx q /\ q_indirect q' = q_indirect q /\ (q_good q -> q_good q').

Lemma ring_kept_refl q : ring_kept q q.
Proof. unfold ring_kept. tauto. Qed.

(** The parts of [vs_ok] that concern one queue. *)
Lemma set_queue_ok offered n v i q q' en :
  vs_ok offered n v -> queues v !! i = Some q -> q_good q' ->
  (bit_set (status v) STATUS_FEATURES_OK = true -> flags_match (guest_features v) q -> flags_match (guest_features v) q') ->
  resetting v = false -> (en = true -> is_configured q' = true) ->
  vs_ok offered n (with_enabled (<[i := en]> (queue_enabled v)) (with_queues (<[i := q']> (queues v)) v)).
Proof.
  intros [(L1 & L2 & L3 & L4 & L5 & L6) Hg Hf Hs Hv Hr Hl Hlive Hfl] Hq Hq' Hm Hrs Hen. constructor; simpl; try done.
  - by rewrite !length_insert.
  - by apply Forall_insert.
  - by rewrite Hrs.
  - intros j. destruct (decide (i = j)) as [<-|Hij].
    + destruct (decide (i < length (queue_enabled v))%nat).
      * rewrite list_lookup_insert_eq by done. intros [= ->]. left. exists q'.
        rewrite list_lookup_insert_eq; [auto|]. by eapply lookup_lt_Some.
      * rewrite list_insert_ge by lia. intros Hj%lookup_lt_Some. lia.
    + rewrite !list_lookup_insert_ne by done. apply Hlive.
  - intros Hk. specialize (Hfl Hk). apply Forall_insert; [done|]. apply Hm; [done|]. by eapply Forall_lookup_1.
Qed.

(** A refused queue is reset; the driver is told. *)
Lemma refuse_queue_ok offered n v i q q' :
  vs_ok offered n v -> queues v !! i = Some q -> q_good q' -> resetting v = false ->
  (bit_set (status v) STATUS_FEATURES_OK = true -> flags_match (guest_features v) q -> flags_match (guest_features v) q') ->
  bit_set (status v) STATUS_DEVICE_NEEDS_RESET = true ->
  vs_ok offered n (with_queues (<[i := q']> (queues v)) v).
Proof.
  intros [(L1 & L2 & L3 & L4 & L5 & L6) Hg Hf Hs Hv Hr Hl Hlive Hfl] Hq Hq' Hrs Hm Hn. constructor; simpl; try done.
  - by rewrite length_insert.
  - by apply Forall_insert.
  - auto.
  - intros Hk. specialize (Hfl Hk). apply Forall_insert; [done|]. apply Hm; [done|]. by eapply Forall_lookup_1.
Qed.

Lemma status_ok offered n v s :
  vs_ok offered n v -> uint 8 s -> within (status v) s -> resetting v = false ->
  (bit_set s STATUS_FEATURES_OK = true -> Forall (flags_match (guest_features v)) (queues v)) ->
  vs_ok offered n (with_status s v).
Proof.
  intros [? Hg Hf Hs Hv Hr Hl Hlive Hfl] Hu Hw Hrs Hk. constructor; simpl; try done; [by rewrite Hrs|].
  intros i Hi. destruct (Hlive i Hi) as [?|Hn]; [by left|right]. by apply (bit_set_within (status v) s 6).
Qed.

Lemma vectors_ok offered n v c l :
  vs_ok offered n v -> uint 16 c -> Forall (uint 16) l -> length l = n -> vs_ok offered n (with_vectors c l v).
Proof. intros [(? & ? & ?) ? ? ? ? ? ? ? ?] ? ? ?. by constructor. Qed.

Lemma rings_ok offered n v d a u :
  vs_ok offered n v -> Forall (uint 64) d -> Forall (uint 64) a -> Forall (uint 64) u ->
  length d = n -> length a = n -> length u = n -> vs_ok offered n (with_rings d a u v).
Proof. intros [(? & ? & ? & ?) ? ? ? ? ? ? ? ?] ? ? ? ? ? ?. by constructor. Qed.

Lemma selects_ok offered n v d g : vs_ok offered n v -> vs_ok offered n (with_selects d g v).
Proof. intros [? ? ? ? ? ? ? ? ?]. by constructor. Qed.

Lemma queue_select_ok offered n v x : vs_ok offered n v -> vs_ok offered n (with_queue_select x v).
Proof. intros [? ? ? ? ? ? ? ? ?]. by constructor. Qed.

Lemma features_ok offered n v f :
  vs_ok offered n v -> within f offered -> bit_set (status v) STATUS_FEATURES_OK = false -> vs_ok offered n (with_features f v).
Proof. intros [? ? ? ? ? ? ? ? ?] ? Hk. constructor; simpl; try done. by rewrite Hk. Qed.

Lemma ring_features_good f q : q_good q -> q_good (ring_features f q) /\ flags_match f (ring_features f q) /\
  is_configured (ring_features f q) = is_configured q.
Proof.
  intros [Hq Hc]. unfold ring_features.
  destruct (qstep_ok pm _ _ (qs_event_idx pm q (bit_set f VIRTIO_F_RING_EVENT_IDX)) Hq Hc) as [Hq1 Hc1].
  destruct (qstep_ok pm _ _ (qs_indirect pm (set_event_idx q (bit_set f VIRTIO_F_RING_EVENT_IDX)) (bit_set f VIRTIO_F_RING_INDIRECT_DESC)) Hq1 Hc1).
  split; [by split|]. split; [by split|done].
Qed.

Lemma applied_flags f qs : Forall q_good qs -> Forall (flags_match f) (ring_features f <$> qs).
Proof. intros Hg. apply Forall_fmap. eapply Forall_impl; [exact Hg|]. intros q Hq. by apply ring_features_good. Qed.

(** [apply_features] makes the rings match, whatever they used before. *)
Lemma apply_features_ok offered n v f :
  vs_ok offered n v -> within f offered -> vs_ok offered n (apply_features (with_features f v)).
Proof.
  intros [(L1 & L2 & L3) Hg Hf Hs Hv Hr Hl Hlive Hfl] Hw. constructor; simpl; try done.
  - by rewrite length_fmap.
  - apply Forall_fmap. eapply Forall_impl; [exact Hg|]. intros q Hq. by apply ring_features_good.
  - intros i Hi. destruct (Hlive i Hi) as [(q & Hq & Hc)|?]; [left|by right].
    exists (ring_features f q). rewrite list_lookup_fmap, Hq. split; [done|].
    rewrite Forall_lookup in Hg. by rewrite (proj2 (proj2 (ring_features_good f q (Hg i q Hq)))).
  - intros _. by apply applied_flags.
Qed.

Lemma kept_ok offered n v qs :
  vs_ok offered n v -> Forall2 ring_kept (queues v) qs -> vs_ok offered n (with_queues qs v).
Proof.
  intros [(L1 & L2 & L3) Hg Hf Hs Hv Hr Hl Hlive Hfl] Hk. constructor; simpl; try done.
  - by rewrite <- (Forall2_length _ _ _ Hk).
  - eapply Forall2_Forall_r; [exact Hk|]. eapply Forall_impl; [exact Hg|]. intros q Hq q'. unfold ring_kept. tauto.
  - intros i Hi. destruct (Hlive i Hi) as [(q & Hq & Hc)|?]; [left|by right].
    destruct (Forall2_lookup_l _ _ _ _ _ Hk Hq) as (q' & Hq' & _ & _ & Hd & _). exists q'. split; [done|].
    unfold is_configured in *. by rewrite Hd.
  - intros H1. eapply Forall2_Forall_r; [exact Hk|]. eapply Forall_impl; [exact (Hfl H1)|].
    intros q [H2 H3] q' (_ & _ & _ & _ & _ & H4 & H5 & _). split; congruence.
Qed.

Lemma reset_good q : q_good q -> q_good (reset q).
Proof. intros [Hq Hc]. by apply (qstep_ok pm _ _ (qs_reset pm q)). Qed.

Lemma vs_reset_ok offered n v : vs_ok offered n v -> vs_ok offered n (with_resetting false (vs_reset v)).
Proof.
  intros [(L1 & L2 & L3 & L4 & L5 & L6) Hg Hf Hs Hv Hr Hl Hlive Hfl]. constructor; simpl; try done.
  - unfold fill. by rewrite length_fmap, !length_replicate.
  - apply Forall_fmap. eapply Forall_impl; [exact Hg|]. apply reset_good.
  - split; [done|]. by apply Forall_replicate.
  - split_and!; by apply Forall_replicate.
  - intros i [? _]%lookup_replicate. done.
Qed.

Lemma begin_reset_ok offered n v :
  vs_ok offered n v ->
  vs_ok offered n (with_enabled (fill false (queue_enabled v))
    (with_status (Z.land (status v) (bit_not 8 STATUS_DRIVER_OK)) (with_resetting true v))).
Proof.
  intros [(L1 & L2 & L3 & L4 & L5 & L6) Hg Hf Hs Hv Hr Hl Hlive Hfl]. constructor; simpl; try done.
  - unfold fill. by rewrite length_replicate.
  - by apply uint_land.
  - intros _. split; [|by apply Forall_replicate]. unfold bit_set. rewrite <- Z.land_assoc.
    change (Z.land (bit_not 8 STATUS_DRIVER_OK) STATUS_DRIVER_OK) with 0. by rewrite Z.land_0_r.
  - intros i [? _]%lookup_replicate. done.
  - intros Hk. apply Hfl. apply (bit_set_within (Z.land (status v) (bit_not 8 STATUS_DRIVER_OK)) _ 3); [done| |done].
    rewrite Z.land_comm. apply within_land.
Qed.

End regs.

(** ** Backends *)

(** What the transport relies on: the offer does not change, and a kick
    leaves the rings where the driver put them. *)
Class DeviceLaws {D P : Type} `{VirtioDevice D} `{GuestMap P} (pm : P) : Prop := {
  dl_uint d : uint 64 (device_features d);
  dl_set_features f d : device_features (set_features f d) = device_features d;
  dl_cfg_write o v l d : device_features (dev_cfg_write o v l d) = device_features d;
  dl_addr_set i q d : device_features (queue_addr_set i q d) = device_features d;
  dl_reset d : device_features (dev_reset d) = device_features d;
  dl_notify i qs d w b qs' d' w' : notify_queue i qs d w = (b, qs', d', w') ->
    device_features d' = device_features d /\ Forall2 (ring_kept pm) qs qs'
}.

(** ** Critical sections *)

Section sections.
Context {D P : Type} `{VirtioDevice D} `{GuestMap P} (pm : P) `{!DeviceLaws pm}.
Implicit Types t : @Transport D.

Record t_ok t : Prop := {
  to_vs : vs_ok pm (modern_features t) (t_nq t) (t_vs t);
  to_mirror : t_qvec t = queue_msix_vectors (t_vs t) /\ t_cvec t = config_msix_vector (t_vs t);
  to_msix : forall m, t_msix t = Some m -> msix.msix_ok m
}.

Definition has (s bit : Z) : Prop := bit_set s bit = true.

(** What a register write does besides keeping the invariant. *)
Record reg_spec t (a : Tail) t' : Prop := {
  rs_ok : t_ok t';
  rs_const : t_nq t' = t_nq t /\ device_features (t_dev t') = device_features (t_dev t);
  rs_same : t_isr t' = t_isr t /\ t_pin t' = t_pin t /\ t_msix t' = t_msix t /\ t_sent t' = t_sent t;
  rs_gate : (a = FinishReset /\ resetting (t_vs t) = false /\ resetting (t_vs t') = true /\ t_gate t' = end_session (t_gate t)) \/
    (a <> FinishReset /\ resetting (t_vs t') = resetting (t_vs t) /\ t_gate t' = t_gate t /\
     within (status (t_vs t)) (status (t_vs t')));
  rs_session : match a with RaiseQueue s _ | RaiseConfig s => s = g_session (t_gate t) | _ => True end;
  rs_told : match a with
    | RaiseConfig _ => ~ has (status (t_vs t)) STATUS_DEVICE_NEEDS_RESET /\ has (status (t_vs t')) STATUS_DEVICE_NEEDS_RESET
    | _ => True end;
  rs_frozen : has (status (t_vs t)) STATUS_FEATURES_OK -> has (status (t_vs t)) STATUS_DRIVER_OK ->
    guest_features (t_vs t') = guest_features (t_vs t)
}.

Lemma offered_uint t : uint 64 (modern_features t).
Proof. apply uint_lor; [done|apply dl_uint|done]. Qed.

(** A write that changes registers and backend and ends there. *)
Lemma plain_spec t v d :
  t_ok t -> vs_ok pm (modern_features t) (t_nq t) v -> t_qvec t = queue_msix_vectors v -> t_cvec t = config_msix_vector v ->
  device_features d = device_features (t_dev t) -> resetting v = resetting (t_vs t) ->
  within (status (t_vs t)) (status v) ->
  (has (status (t_vs t)) STATUS_FEATURES_OK -> has (status (t_vs t)) STATUS_DRIVER_OK -> guest_features v = guest_features (t_vs t)) ->
  reg_spec t NoTail (set_dev d (set_vs v t)).
Proof.
  intros [Hv Hm Hx] Hv' Hq Hc Hd Hr Hw Hf. constructor; simpl; try done; [|right; done].
  constructor; simpl; try done. unfold modern_features. simpl. by rewrite Hd.
Qed.

Lemma unchanged_spec t : t_ok t -> reg_spec t NoTail t.
Proof.
  intros Ht. pose proof (to_mirror t Ht) as [Hq Hc].
  replace t with (set_dev (t_dev t) (set_vs (t_vs t) t)) at 2 by (by destruct t). apply plain_spec; try done; [apply Ht|].
  by apply within_bits.
Qed.

Lemma needs_reset_spec t : t_ok t -> resetting (t_vs t) = false -> reg_spec t (set_needs_reset t).2 (set_needs_reset t).1.
Proof.
  intros Ht Hr. pose proof Ht as [Hv Hm Hx]. unfold set_needs_reset.
  destruct (bit_set (status (t_vs t)) STATUS_DEVICE_NEEDS_RESET) eqn:E; [by apply unchanged_spec|]. simpl.
  assert (Hset : has (Z.lor (status (t_vs t)) STATUS_DEVICE_NEEDS_RESET) STATUS_DEVICE_NEEDS_RESET).
  { apply (bit_set_within STATUS_DEVICE_NEEDS_RESET _ 6); [done| |done]. rewrite Z.lor_comm. apply within_lor. }
  constructor; simpl; try done.
  - constructor; simpl; try done. apply status_ok; try done.
    + apply uint_lor; [done|apply Hv|done].
    + apply within_lor.
    + intros Hk. apply Hv. revert Hk. unfold bit_set. rewrite Z.land_lor_distr_l.
      change (Z.land STATUS_DEVICE_NEEDS_RESET STATUS_FEATURES_OK) with 0. by rewrite Z.lor_0_r.
  - right. split_and!; try done. apply within_lor.
  - split; [|exact Hset]. unfold has. by rewrite E.
Qed.

(** A refusal: the change need only be right once the driver is told. *)
Lemma refused_spec t v' :
  t_ok t -> resetting (t_vs t) = false -> status v' = status (t_vs t) -> resetting v' = false ->
  guest_features v' = guest_features (t_vs t) ->
  config_msix_vector v' = config_msix_vector (t_vs t) -> queue_msix_vectors v' = queue_msix_vectors (t_vs t) ->
  (forall s, vs_ok pm (modern_features t) (t_nq t) (with_status s (t_vs t)) -> has s STATUS_DEVICE_NEEDS_RESET ->
     vs_ok pm (modern_features t) (t_nq t) (with_status s v')) ->
  reg_spec t (set_needs_reset (set_vs v' t)).2 (set_needs_reset (set_vs v' t)).1.
Proof.
  intros Ht Hr Hs Hr' Hf Hc Hq Hok. pose proof (to_mirror t Ht) as [Hmq Hmc].
  pose proof (needs_reset_spec t Ht Hr) as [[Hv _ _] _ _ Hg Hses Htold _]. revert Hv Hg Hses Htold.
  unfold set_needs_reset. simpl. rewrite Hs.
  destruct (bit_set (status (t_vs t)) STATUS_DEVICE_NEEDS_RESET) eqn:E; simpl; intros Hv Hg Hses Htold.
  - constructor; simpl; try done.
    + constructor; simpl; [|by rewrite Hq, Hc|apply Ht]. replace v' with (with_status (status (t_vs t)) v') by (by destruct v'; simpl in *; subst).
      apply Hok; [|done]. by destruct (t_vs t).
    + right. split_and!; try done; [by rewrite Hr, Hr'|]. rewrite Hs. by apply within_bits.
  - constructor; simpl; rewrite ?Hs; try done.
    + constructor; simpl; rewrite ?Hs; [|by rewrite Hq, Hc|apply Ht]. apply Hok; [exact Hv|]. by apply Htold.
    + right. destruct Hg as [[??]|(_ & _ & _ & Hw)]; [done|]. split_and!; try done. by rewrite Hr, Hr'.
Qed.

Lemma disable_ok offered n v i : vs_ok pm offered n v -> resetting v = false ->
  vs_ok pm offered n (with_enabled (<[i := false]> (queue_enabled v)) v).
Proof.
  intros [(L1 & L2 & L3 & L4 & L5 & L6) Hg Hf Hs Hv Hr Hl Hlive Hfl] Hrs. constructor; simpl; try done.
  - by rewrite length_insert.
  - by rewrite Hrs.
  - intros j. destruct (decide (i = j)) as [<-|Hij]; [|rewrite list_lookup_insert_ne by done; apply Hlive].
    destruct (decide (i < length (queue_enabled v))%nat).
    + by rewrite list_lookup_insert_eq.
    + rewrite list_insert_ge by lia. intros Hj%lookup_lt_Some. lia.
Qed.

Lemma status_write_spec t val : t_ok t -> resetting (t_vs t) = false -> reg_spec t (write_status val t).2 (write_status val t).1.
Proof.
  intros Ht Hr. pose proof Ht as [Hv [Hq Hc] Hx]. unfold write_status. destruct (as_u 8 val =? 0).
  - unfold reset_device. rewrite Hr. simpl. constructor; simpl; try done; [|by left].
    constructor; simpl; try done. by apply begin_reset_ok.
  - unfold set_status. destruct (Z.land (as_u 8 val) (status (t_vs t)) =? status (t_vs t)) eqn:E; simpl; [|by apply needs_reset_spec].
    apply Z.eqb_eq in E. rewrite Z.land_comm in E. set (s := as_u 8 val) in *.
    assert (Hs : uint 8 s) by (by apply uint_as_u).
    assert (Hbit : bit_set s STATUS_FEATURES_OK = bit_set (Z.land s (bit_not 8 (status (t_vs t)))) STATUS_FEATURES_OK || bit_set (status (t_vs t)) STATUS_FEATURES_OK).
    { apply (gained_bits 8 (status (t_vs t)) s 3); [apply Hv|done|lia]. }
    destruct (bit_set (Z.land s (bit_not 8 (status (t_vs t)))) STATUS_FEATURES_OK) eqn:Eg; simpl.
    + apply (plain_spec t (apply_features (with_status s (t_vs t)))); try done.
      * apply (status_ok pm _ _ (apply_features (t_vs t))); try done.
        -- replace (t_vs t) with (with_features (guest_features (t_vs t)) (t_vs t)) by (by destruct (t_vs t)).
           apply apply_features_ok; [done|]. apply Hv.
        -- intros _. apply (applied_flags pm), Hv.
      * by rewrite dl_set_features.
    + replace (on_vs (with_status s) t) with (set_dev (t_dev t) (set_vs (with_status s (t_vs t)) t)) by (by destruct t).
      apply plain_spec; try done. apply status_ok; try done. rewrite Hbit. apply Hv.
Qed.

(** A change of the registers alone. *)
Lemma on_vs_spec t f :
  t_ok t -> vs_ok pm (modern_features t) (t_nq t) (f (t_vs t)) ->
  queue_msix_vectors (f (t_vs t)) = queue_msix_vectors (t_vs t) ->
  config_msix_vector (f (t_vs t)) = config_msix_vector (t_vs t) ->
  resetting (f (t_vs t)) = resetting (t_vs t) -> within (status (t_vs t)) (status (f (t_vs t))) ->
  (has (status (t_vs t)) STATUS_FEATURES_OK -> has (status (t_vs t)) STATUS_DRIVER_OK -> guest_features (f (t_vs t)) = guest_features (t_vs t)) ->
  reg_spec t NoTail (on_vs f t).
Proof.
  intros Ht Hv Hq Hc Hr Hw Hf. pose proof (to_mirror t Ht) as [Hq' Hc'].
  replace (on_vs f t) with (set_dev (t_dev t) (set_vs (f (t_vs t)) t)) by (by destruct t).
  apply plain_spec; try done; congruence.
Qed.

Lemma within_refl a : within a a.
Proof. by apply within_bits. Qed.

Lemma legacy_features_spec t val : t_ok t -> resetting (t_vs t) = false -> reg_spec t NoTail (write_legacy_features val t).
Proof.
  intros Ht Hr. pose proof Ht as [Hv [Hq Hc] Hx]. unfold write_legacy_features.
  destruct (bit_set (status (t_vs t)) STATUS_DRIVER_OK) eqn:E; [by apply unchanged_spec|].
  apply (plain_spec t (apply_features (with_features (Z.land val (legacy_features t)) (t_vs t)))); try done.
  - apply apply_features_ok; [done|]. eapply within_trans; [apply within_land|].
    unfold legacy_features, modern_features, as_u. apply within_bits. intros i Hi. rewrite !Z.land_spec, Z.lor_spec.
    intros [[Hb _]%andb_true_iff _]%andb_true_iff. destruct (Z.lt_ge_cases i 32).
    + rewrite Z.mod_pow2_bits_low in Hb by lia. by rewrite Hb.
    + by rewrite Z.mod_pow2_bits_high in Hb by lia.
  - simpl. by rewrite dl_set_features.
  - apply within_refl.
  - unfold has. by rewrite E.
Qed.

Lemma driver_feature_spec t val : t_ok t -> reg_spec t NoTail (write_driver_feature val t).
Proof.
  intros Ht. pose proof Ht as [Hv _ _]. unfold write_driver_feature.
  destruct (bit_set (status (t_vs t)) STATUS_FEATURES_OK) eqn:E; [by apply unchanged_spec|].
  assert (Hcase : forall high, reg_spec t NoTail
    (on_vs (with_features (set_half high (Z.land val (half high (modern_features t))) (guest_features (t_vs t)))) t)).
  { intros high. apply on_vs_spec; try done; [|apply within_refl|unfold has; by rewrite E].
    apply features_ok; try done. apply set_half_within; [apply offered_uint|apply Hv]. }
  destruct (driver_feature_select (t_vs t) =? 0); [apply Hcase|].
  destruct (driver_feature_select (t_vs t) =? 1); [apply Hcase|]. by apply unchanged_spec.
Qed.

Lemma config_vector_spec t val : t_ok t -> reg_spec t NoTail (write_config_vector val t).
Proof.
  intros [Hv [Hq Hc] Hx]. pose proof (vo_lengths _ _ _ _ Hv) as (_ & Hl & _). pose proof (vo_vectors _ _ _ _ Hv) as [_ Hvec].
  constructor; simpl; try done.
  - constructor; simpl; try done. apply vectors_ok; try done. by apply uint_as_u.
  - right. split_and!; try done. apply within_refl.
Qed.

Lemma queue_vector_spec t val : t_ok t -> reg_spec t NoTail (write_queue_vector val t).
Proof.
  intros Ht. pose proof Ht as [Hv [Hq Hc] Hx]. pose proof (vo_lengths _ _ _ _ Hv) as (_ & Hl & _).
  pose proof (vo_vectors _ _ _ _ Hv) as [Hcv Hvec]. unfold write_queue_vector.
  destruct (_ <? _)%nat; [|by apply unchanged_spec]. constructor; simpl; try done.
  - constructor; simpl; try done; [|by rewrite Hq]. apply vectors_ok; try done; [|by rewrite length_insert].
    apply Forall_insert; [done|]. by apply uint_as_u.
  - right. split_and!; try done. apply within_refl.
Qed.

(** A checked ring has a descriptor table. *)
Lemma validated_configured q : validate_addrs pm q = Ok tt -> is_configured q = true.
Proof. unfold validate_addrs, check_ring, is_configured. by destruct (q_desc q =? 0). Qed.

Lemma pfn_spec t val : t_ok t -> resetting (t_vs t) = false -> uint 32 val -> reg_spec t (write_pfn pm val t).2 (write_pfn pm val t).1.
Proof.
  intros Ht Hr Hval. pose proof Ht as [Hv [Hmq Hmc] Hx]. unfold write_pfn, selected_queue. set (i := sel (t_vs t)).
  destruct (queues (t_vs t) !! i) as [q|] eqn:Hq; [|by apply unchanged_spec].
  pose proof (Forall_lookup_1 _ _ _ _ (vo_good _ _ _ _ Hv) Hq) as [Hqk Hqc].
  assert (Hg : q_good pm (set_addr_legacy q val)) by (by apply (qstep_ok pm _ _ (qs_legacy pm q val Hval))).
  assert (Hfl : forall f, flags_match f q -> flags_match f (set_addr_legacy q val)).
  { intros f. unfold flags_match, set_addr_legacy. by destruct (val =? 0). }
  destruct (if val =? 0 then Ok tt else validate_addrs pm (set_addr_legacy q val)) as [[]|e] eqn:Ev.
  - apply (plain_spec t (with_enabled (<[i := negb (val =? 0)]> (queue_enabled (t_vs t))) (with_queues (<[i := set_addr_legacy q val]> (queues (t_vs t))) (t_vs t)))); try done.
    + apply (set_queue_ok pm _ _ _ _ q); try done; [by auto|]. destruct (val =? 0); [done|]. intros _. by apply validated_configured.
    + simpl. by rewrite dl_addr_set.
    + apply within_refl.
  - apply (refused_spec t (with_enabled (<[i := false]> (queue_enabled (t_vs t))) (with_queues (<[i := reset (set_addr_legacy q val)]> (queues (t_vs t))) (t_vs t)))); try done.
    intros s Hs Hn. apply (disable_ok _ _ (with_queues (<[i := reset (set_addr_legacy q val)]> (queues (t_vs t))) (with_status s (t_vs t)))); [|done].
    apply (refuse_queue_ok pm _ _ (with_status s (t_vs t)) i q); try done; [by apply reset_good|].
    intros _ Hm. by apply Hfl in Hm.
Qed.

Lemma queue_size_spec t val : t_ok t -> resetting (t_vs t) = false -> reg_spec t (write_queue_size val t).2 (write_queue_size val t).1.
Proof.
  intros Ht Hr. pose proof Ht as [Hv [Hmq Hmc] Hx]. unfold write_queue_size, selected_queue. set (i := sel (t_vs t)).
  destruct (queues (t_vs t) !! i) as [q|] eqn:Hq; [|by apply unchanged_spec].
  pose proof (Forall_lookup_1 _ _ _ _ (vo_good _ _ _ _ Hv) Hq) as [Hqk Hqc].
  pose proof (qstep_ok pm _ _ (qs_set_size pm q (as_u 16 val) (uint_as_u 16 val ltac:(done))) Hqk Hqc) as Hg.
  destruct (set_size q (as_u 16 val)) as [q' [[]|e]] eqn:Es; [|by apply needs_reset_spec]. simpl in *.
  assert (Hsame : is_configured q' = is_configured q /\ forall f, flags_match f q -> flags_match f q').
  { revert Es. unfold set_size. destruct (_ || _ || _); [done|]. destruct (is_configured q) eqn:Ec; [done|]. by intros [= <-]. }
  apply on_vs_spec; try done; [|apply within_refl]. destruct Hsame as [Hcfg Hfl].
  destruct Hv as [(L1 & L2 & L3) Hgood Hf Hs Hvv Hrr Hl Hlive Hflags]. constructor; simpl; try done.
  - by rewrite length_insert.
  - by apply Forall_insert.
  - intros j Hj. destruct (Hlive j Hj) as [(q0 & Hq0 & Hc0)|?]; [left|by right].
    destruct (decide (i = j)) as [<-|]; [|exists q0; by rewrite list_lookup_insert_ne].
    exists q'. rewrite list_lookup_insert_eq by (by eapply lookup_lt_Some). split; [done|]. rewrite Hcfg. congruence.
  - intros Hk. specialize (Hflags Hk). apply Forall_insert; [done|]. apply Hfl. by eapply Forall_lookup_1.
Qed.

Lemma queue_enable_spec t val :
  t_ok t -> resetting (t_vs t) = false ->
  exists r, write_queue_enable pm val t = Some r /\ reg_spec t r.2 r.1.
Proof.
  intros Ht Hr. pose proof Ht as [Hv [Hmq Hmc] Hx]. unfold write_queue_enable. set (i := sel (t_vs t)).
  destruct (_ && _) eqn:Ec; simpl; [|exists (t, NoTail); split; [done|by apply unchanged_spec]].
  apply andb_true_iff in Ec as [Hi%Nat.ltb_lt _]. pose proof (vo_lengths _ _ _ _ Hv) as (L1 & L2 & L3 & L4 & L5 & L6).
  pose proof (vo_rings _ _ _ _ Hv) as (R1 & R2 & R3).
  destruct (lookup_lt_is_Some_2 (queue_desc (t_vs t)) i) as [d Hd]; [congruence|].
  destruct (lookup_lt_is_Some_2 (queue_avail (t_vs t)) i) as [a Ha]; [congruence|].
  destruct (lookup_lt_is_Some_2 (queue_used (t_vs t)) i) as [u Hu]; [congruence|].
  destruct (lookup_lt_is_Some_2 (queues (t_vs t)) i) as [q Hq]; [congruence|].
  rewrite Hd, Ha, Hu, Hq. simpl.
  pose proof (Forall_lookup_1 _ _ _ _ (vo_good _ _ _ _ Hv) Hq) as [Hqk Hqc].
  assert (Hg : q_good pm (set_addr_modern q d a u)).
  { apply (qstep_ok pm _ _ (qs_modern pm q d a u (Forall_lookup_1 _ _ _ _ R1 Hd) (Forall_lookup_1 _ _ _ _ R2 Ha) (Forall_lookup_1 _ _ _ _ R3 Hu)) Hqk Hqc). }
  destruct (validate_addrs pm (set_addr_modern q d a u)) as [[]|e] eqn:Ev; eexists; (split; [reflexivity|]).
  - apply (plain_spec t (with_enabled (<[i := true]> (queue_enabled (t_vs t))) (with_queues (<[i := set_addr_modern q d a u]> (queues (t_vs t))) (t_vs t)))); try done.
    + apply (set_queue_ok pm _ _ _ _ q); try done. intros _. by apply validated_configured.
    + simpl. by rewrite dl_addr_set.
    + apply within_refl.
  - apply (refused_spec t (with_queues (<[i := reset (set_addr_modern q d a u)]> (queues (t_vs t))) (t_vs t))); try done.
    intros s Hs Hn. apply (refuse_queue_ok pm _ _ (with_status s (t_vs t)) i q); try done. by apply reset_good.
Qed.

Lemma notify_spec t idx w : t_ok t -> resetting (t_vs t) = false ->
  reg_spec t (notify idx t w).1.2 (notify idx t w).1.1.
Proof.
  intros Ht Hr. pose proof Ht as [Hv [Hmq Hmc] Hx]. unfold notify. destruct (can_notify t idx); simpl; [|by apply unchanged_spec].
  destruct (notify_queue idx (queues (t_vs t)) (t_dev t) w) as [[[b qs] d] w'] eqn:En.
  destruct (dl_notify _ _ _ _ _ _ _ _ En) as [Hd Hk].
  set (t1 := set_dev d (on_vs (with_queues qs) t)).
  assert (H1 : reg_spec t NoTail t1).
  { apply (plain_spec t (with_queues qs (t_vs t))); try done; [by apply kept_ok|apply within_refl]. }
  destruct (queue_needs_reset t1 idx); simpl.
  - destruct (needs_reset_spec t1 (rs_ok _ _ _ H1) Hr) as [Ho [Hn Hdf] Hsame Hg Hs Htold Hfr].
    constructor; try done. destruct (rs_const _ _ _ H1) as [Hn1 Hd1]. split; congruence.
  - destruct b; simpl; [|done]. destruct H1 as [Ho Hc Hsame Hg Hs Htold Hfr]. constructor; try done.
    destruct Hg as [(?&?&?)|(? & ?)]; [done|by right].
Qed.

Lemma write_half_ok high val i l : uint 32 val -> Forall (uint 64) l -> Forall (uint 64) (write_half high val i l).
Proof.
  intros Hv Hl. apply Forall_alter; [done|]. intros x Hx Hu. by apply set_half_uint.
Qed.

Lemma ring_write_spec t offset val : t_ok t -> uint 32 val -> reg_spec t NoTail (on_vs (write_ring offset val) t).
Proof.
  intros Ht Hval. pose proof Ht as [Hv [Hmq Hmc] Hx]. pose proof (vo_lengths _ _ _ _ Hv) as (L1 & L2 & L3 & L4 & L5 & L6).
  pose proof (vo_rings _ _ _ _ Hv) as (R1 & R2 & R3).
  assert (Hcase : exists d a u, write_ring offset val (t_vs t) = with_rings d a u (t_vs t) /\
     Forall (uint 64) d /\ Forall (uint 64) a /\ Forall (uint 64) u /\ length d = t_nq t /\ length a = t_nq t /\ length u = t_nq t).
  { unfold write_ring. repeat (destruct (offset =? _); [do 3 eexists; split; [reflexivity|];
      split_and!; try apply write_half_ok; try done; unfold write_half; by rewrite length_alter|]).
    exists (queue_desc (t_vs t)), (queue_avail (t_vs t)), (queue_used (t_vs t)). split; [by destruct (t_vs t)|done]. }
  destruct Hcase as (d & a & u & He & H1 & H2 & H3 & H4 & H5 & H6).
  apply on_vs_spec; rewrite ?He; try done; [by apply rings_ok|apply within_refl].
Qed.

(** Every register write keeps the invariant and does not panic. *)
Lemma bar_write_spec t offset val len w : t_ok t -> uint 32 val ->
  reg_spec t (bar_write pm offset val len t w).1.2 (bar_write pm offset val len t w).1.1.
Proof.
  intros Ht Hval. pose proof Ht as [Hv _ _]. unfold bar_write. destruct (resetting (t_vs t)) eqn:Hr; [by apply unchanged_spec|].
  destruct (_ <=? _).
  { apply (plain_spec t (t_vs t)); try done; [apply Ht|apply Ht|simpl; by rewrite dl_cfg_write|apply within_refl]. }
  destruct (offset =? 0x04); [by apply legacy_features_spec|].
  destruct (offset =? 0x08); [by apply pfn_spec|].
  destruct (offset =? 0x0E); [apply on_vs_spec; try done; [by apply queue_select_ok|apply within_refl]|].
  destruct (offset =? 0x10); [by apply notify_spec|].
  destruct (offset =? 0x12); [by apply status_write_spec|].
  destruct (_ && _); [by apply config_vector_spec|].
  destruct (_ && _); [by apply queue_vector_spec|]. by apply unchanged_spec.
Qed.

Lemma common_write_spec t offset val : t_ok t -> uint 32 val ->
  exists r, modern_common_write pm offset val t = Some r /\ reg_spec t r.2 r.1.
Proof.
  intros Ht Hval. pose proof Ht as [Hv _ _]. unfold modern_common_write.
  destruct (resetting (t_vs t)) eqn:Hr; [eexists; split; [reflexivity|]; by apply unchanged_spec|].
  destruct (offset =? 0x1C) eqn:E; [apply Z.eqb_eq in E as ->; by apply queue_enable_spec|].
  repeat (match goal with |- exists r, (if ?b then _ else _) = _ /\ _ => destruct b end; [eexists; (split; [reflexivity|]); cbn [fst snd];
    first [by apply driver_feature_spec | by apply config_vector_spec | by apply status_write_spec
          | by apply queue_size_spec | by apply queue_vector_spec
          | apply on_vs_spec; try done; [cbv beta; first [by apply selects_ok | by apply queue_select_ok]|apply within_refl]]|]).
  eexists; split; [reflexivity|]. by apply ring_write_spec.
Qed.

Lemma modern_write_spec t offset val len w : t_ok t -> uint 32 val ->
  exists r, modern_bar_write pm offset val len t w = Some r /\ reg_spec t r.1.2 r.1.1.
Proof.
  intros Ht Hval. unfold modern_bar_write. destruct (_ =? 0x0000).
  { destruct (common_write_spec t (Z.land offset 0x0FFF) val Ht Hval) as (r & Hr & Hs). rewrite Hr. simpl. eauto. }
  destruct (_ =? 0x1000).
  { destruct (resetting (t_vs t)); eexists; (split; [reflexivity|]); [by apply unchanged_spec|].
    apply (plain_spec t (t_vs t)); try done; [apply Ht|apply Ht|apply Ht|simpl; by rewrite dl_cfg_write|apply within_refl]. }
  destruct (_ =? 0x2000); [|eexists; split; [reflexivity|]; by apply unchanged_spec].
  destruct (resetting (t_vs t)) eqn:Hr; eexists; (split; [reflexivity|]); [by apply unchanged_spec|]. by apply notify_spec.
Qed.

End sections.
End vpci_inv.
