(* ===== verification/VirtioPciThm.v ===== *)
(** * The transport's theorems

    What holds of a transitional device in every state a driver, the backend,
    interrupts and resets can bring it to; what a session keeps; the
    capability chain a modern driver discovers; and migration. *)

From S2P Require Import Prelude ASpace Bus Mapping PhysMap PhysMapInv GuestMem VirtQueue VirtQueueInv VirtQueueThm PciBar PciDevice PciMsix VirtioPci VirtioPciInv.

Module vpci_thm.
Import mapping guestmem queue queue_inv vpci vpci_inv.

Section sections.
Context {D P : Type} `{VirtioDevice D} `{GuestMap P} (pm : P) `{!DeviceLaws pm}.
Implicit Types t : @Transport D.

(** Everything that changes a transport, each under one lock and from any
    thread: register accesses, the message table, the header, the backend's
    own state, interrupt delivery and the steps of a reset. *)
Inductive section : @Transport D -> Tail -> @Transport D -> Prop :=
| se_legacy t offset val len w : uint 32 val ->
    section t (bar_write pm offset val len t w).1.2 (bar_write pm offset val len t w).1.1
| se_modern t offset val len w t' a w' : uint 32 val -> modern_bar_write pm offset val len t w = Some (t', a, w') -> section t a t'
| se_read_legacy t offset len : section t NoTail (bar_read offset len t).1
| se_read_modern t offset len : section t NoTail (modern_bar_read offset len t).1
| se_table t offset val : uint 32 val -> section t NoTail (msix_write (TableWrite offset val) t).1
| se_cap t offset val : section t NoTail (msix_write (CapWrite offset val) t).1
| se_header t f pio mmio : section t NoTail (set_buses f pio mmio t)
| se_backend t d : device_features d = device_features (t_dev t) -> section t NoTail (set_dev d t)
| se_signal t : section t (signal_device_needs_reset t).2 (signal_device_needs_reset t).1
| se_gate t g : section t NoTail (set_gate g t)
| se_line t bit : section t NoTail (raise_line bit t)
| se_fire t v t' ms : fire_vector v t = Some (t', ms) -> section t NoTail t'
| se_send t ms : section t NoTail (add_sent ms t)
| se_reset_backend t : section t NoTail (reset_backend t)
| se_reset_line t : section t NoTail (reset_line t)
| se_reset_pending t : section t NoTail (reset_pending t)
| se_publish t : resetting (t_vs t) = true -> section t NoTail (reset_publish t).

(** The registers untouched. *)
Lemma same_regs t t' :
  t_ok pm t -> t_vs t' = t_vs t -> t_qvec t' = t_qvec t -> t_cvec t' = t_cvec t -> t_nq t' = t_nq t ->
  device_features (t_dev t') = device_features (t_dev t) ->
  (forall m, t_msix t' = Some m -> msix.msix_ok m) -> t_ok pm t'.
Proof.
  intros [Hv Hm Hx] H1 H2 H3 H4 H5 H6. constructor; [|by rewrite H1, H2, H3|done].
  unfold modern_features. by rewrite H1, H4, H5.
Qed.

Lemma fire_total t v : t_ok pm t -> exists t' ms, fire_vector v t = Some (t', ms) /\
  exists m, t' = set_msix m t /\ forall m', m = Some m' -> msix.msix_ok m'.
Proof.
  intros Ht. unfold fire_vector. destruct (t_msix t) as [m|] eqn:Em.
  - assert (Hself : t = set_msix (Some m) t) by (destruct t; simpl in *; by subst).
    assert (Hm : msix.msix_ok m) by (by apply (to_msix _ _ Ht)).
    destruct (_ =? _); [do 2 eexists; split; [done|]; exists (Some m); split; [done|]; by intros m' [= <-]|].
    destruct (msix.fire_ok m (Z.to_nat v) Hm) as (m' & o & Hf & Hok & _). rewrite Hf. simpl.
    do 2 eexists. split; [done|]. exists (Some m'). split; [done|]. by intros ? [= <-].
  - do 2 eexists. split; [done|]. exists None. split; [|done]. destruct t; simpl in *; by subst.
Qed.

(** The parts of [reg_spec] that concern a session. *)
Definition session_spec t (a : Tail) t' : Prop :=
  resetting (t_vs t') = false /\ within (status (t_vs t)) (status (t_vs t')) /\
  match a with
  | RaiseConfig _ => ~ has (status (t_vs t)) STATUS_DEVICE_NEEDS_RESET /\ has (status (t_vs t')) STATUS_DEVICE_NEEDS_RESET
  | _ => True
  end /\
  (has (status (t_vs t)) STATUS_FEATURES_OK -> has (status (t_vs t)) STATUS_DRIVER_OK ->
   guest_features (t_vs t') = guest_features (t_vs t)).

Definition good_step t (a : Tail) t' : Prop :=
  t_ok pm t' /\ t_nq t' = t_nq t /\
  (resetting (t_vs t) = false -> a <> FinishReset -> session_spec t a t').

Lemma reg_good t a t' : reg_spec pm t a t' -> good_step t a t'.
Proof.
  intros [Hok [Hn _] _ Hg _ Ht Hf]. split_and!; [done..|]. intros Hr Ha.
  destruct Hg as [[??]|(_ & Hr' & _ & Hw)]; [done|]. split_and!; [congruence|done..].
Qed.

Lemma same_good t t' :
  t_ok pm t -> t_vs t' = t_vs t -> t_qvec t' = t_qvec t -> t_cvec t' = t_cvec t -> t_nq t' = t_nq t ->
  device_features (t_dev t') = device_features (t_dev t) ->
  (forall m, t_msix t' = Some m -> msix.msix_ok m) -> good_step t NoTail t'.
Proof.
  intros Ht H1 H2 H3 H4 H5 H6. split_and!; [by apply (same_regs t)|done|]. intros Hr _.
  unfold session_spec. rewrite H1. split_and!; try done. apply within_refl.
Qed.

Lemma section_good t a t' : t_ok pm t -> section t a t' -> good_step t a t'.
Proof.
  intros Ht Hs. pose proof (to_msix _ _ Ht) as Hx.
  destruct Hs as [t offset val len w Hval|t offset val len w t' a w' Hval Hw|t offset len|t offset len|t offset val Hval
    |t offset val|t f pio mmio|t d Hd|t|t g|t bit|t v t' ms Hf|t ms|t|t|t|t Hr].
  - by apply reg_good, bar_write_spec.
  - destruct (modern_write_spec pm t offset val len w Ht Hval) as (r & Hr & Hs). rewrite Hw in Hr. injection Hr as <-.
    by apply reg_good.
  - unfold bar_read. repeat case_match; simpl; by apply same_good.
  - unfold modern_bar_read. repeat case_match; simpl; by apply same_good.
  - unfold msix_write. destruct (t_msix t) as [m|] eqn:Em; simpl; apply same_good; simpl; try done; [|by rewrite Em].
    intros m' [= <-]. apply msix.table_write_ok; [by apply Hx|done].
  - unfold msix_write. destruct (t_msix t) as [m|] eqn:Em; simpl; apply same_good; simpl; try done; [|by rewrite Em].
    intros m' [= <-]. apply msix.cap_write_ok. by apply Hx.
  - by apply same_good.
  - by apply same_good.
  - unfold signal_device_needs_reset. destruct (resetting (t_vs t)) eqn:Hr; [by apply same_good|].
    by apply reg_good, needs_reset_spec.
  - by apply same_good.
  - by apply same_good.
  - destruct (fire_total t v Ht) as (t2 & ms2 & Hf2 & m & -> & Hm). rewrite Hf in Hf2. injection Hf2 as -> _.
    by apply same_good.
  - by apply same_good.
  - apply same_good; try done. simpl. apply dl_reset.
  - by apply same_good.
  - apply same_good; try done. simpl. intros m Hm. apply fmap_Some in Hm as (m0 & Hm0 & ->).
    apply msix.clear_pending_ok. by apply Hx.
  - split_and!; [|done|by rewrite Hr]. destruct Ht as [Hv [Hq Hc] _]. constructor; simpl; try done.
    + by apply vs_reset_ok.
    + by rewrite Hq.
Qed.

(** ** From a new device *)

Lemma queue_new_good size q : uint 16 size -> queue_new size = Some q -> q_good pm q /\ q_desc q = 0.
Proof.
  intros Hu. unfold queue_new. destruct (_ && _) eqn:E1; [|done]. destruct (Z.ltb_spec MAX_QUEUE_SIZE size); [done|].
  simpl. intros [= <-]. apply andb_true_iff in E1 as [Hp%Z.ltb_lt Hdo].
  assert (Hs : size_ok size) by (split; [unfold size_ok; lia|done]).
  split; [|done]. split; [by constructor|]. intros b. done.
Qed.

Lemma new_ok d ty n qsize cs l pio mmio tbl id t :
  transport_new d ty n qsize cs l pio mmio tbl id = Some t -> uint 16 qsize ->
  (forall m, tbl = Some m -> msix.msix_ok m) -> t_ok pm t.
Proof.
  unfold transport_new. intros Hn Hu Hm. destruct (MAX_QUEUES <? n)%nat; [done|].
  destruct (pci_class_for ty). do 3 (apply bind_Some in Hn as (? & _ & Hn)).
  destruct (match l with Some _ => _ | None => _ end) as [h pin].
  apply bind_Some in Hn as (v & Hv & [= <-]).
  unfold vs_new in Hv. apply bind_Some in Hv as (qs & Hqs & [= <-]). apply mapM_Some in Hqs.
  assert (Hl : length qs = n) by (rewrite <- (Forall2_length _ _ _ Hqs); apply length_seq).
  constructor; simpl; try done. constructor; simpl; rewrite ?length_replicate; try done.
  - eapply Forall2_Forall_r; [exact Hqs|]. apply Forall_forall. intros i _ q Hq. by eapply queue_new_good.
  - split; [done|]. by apply Forall_replicate.
  - split_and!; by apply Forall_replicate.
  - intros i [? _]%lookup_replicate. done.
Qed.

(** *** Nothing panics *)

Lemma route_total t v : t_ok pm t -> is_Some (route_msix v t).
Proof.
  intros Ht. unfold route_msix. destruct (negb _); [done|]. destruct (fire_total t v Ht) as (t' & ms & -> & _). by eexists.
Qed.

Lemma admitted_total g f t : t_ok pm t -> (forall t', t_ok pm t' -> is_Some (f t')) -> is_Some (admitted g f t).
Proof.
  intros Ht Hf. destruct g as [g|]; [|by eexists]. simpl. destruct (Hf (set_gate g t)) as [t' ->]; [|by eexists].
  by apply (same_regs t); [..|apply Ht].
Qed.

Lemma raise_total t session idx :
  t_ok pm t -> is_Some (raise_queue_interrupt_in session idx t) /\ is_Some (raise_config_interrupt_in session t).
Proof.
  intros Ht. split; apply admitted_total; try done; intros t' Ht'.
  - unfold deliver_queue_interrupt. destruct (route_total t' (queue_vector t' idx) Ht') as [r ->]. by eexists.
  - unfold raise_config_interrupt. destruct (route_total t' (t_cvec t') Ht') as [r ->]. by eexists.
Qed.

Lemma tail_total t a : t_ok pm t -> is_Some (run_tail a t).
Proof. intros Ht. destruct a as [|session idx|session|]; [by eexists|by apply raise_total|by apply (raise_total t session 0)|by eexists]. Qed.

Lemma access_total t a : t_ok pm t -> is_Some (msix_access a t).
Proof.
  intros Ht. unfold msix_access, deliver_released. destruct (msix_write a t) as [t' [|m ms]]; [by eexists|].
  unfold admitted. destruct (begin_ _ _); simpl; by eexists.
Qed.

Lemma bar_rw_total t bar offset val len w : t_ok pm t -> uint 32 val -> is_Some (bar_rw_write pm bar offset val len t w).
Proof.
  intros Ht Hval. unfold bar_rw_write. destruct (bar =? 4); [|destruct (bar =? 2); [|destruct (bar =? 0); [|by eexists]]].
  - destruct (t_msix t) as [m|]; [|by eexists]. destruct (_ <? _); [|by eexists].
    destruct (access_total t (TableWrite offset val) Ht) as [t' ->]. by eexists.
  - destruct (modern_write_spec pm t (as_u 16 offset) val len w Ht Hval) as ([[t' a] w'] & -> & Hs). simpl.
    destruct (tail_total t' a (rs_ok _ _ _ _ Hs)) as [t2 ->]. by eexists.
  - pose proof (bar_write_spec pm t (as_u 16 offset) val len w Ht Hval) as Hs.
    destruct (bar_write pm (as_u 16 offset) val len t w) as [[t' a] w']. simpl in Hs.
    destruct (tail_total t' a (rs_ok _ _ _ _ Hs)) as [t2 ->]. by eexists.
Qed.

(** C6: a transitional device holds its registers together whatever driver,
    backend, interrupts and resets do, in any order: each queue keeps a legal
    size and a truthful address check, the negotiated features are ones the
    device offers, the copies of the vectors the interrupt path reads are the
    registers, an enabled queue has a ring or the driver was told to reset,
    and once FEATURES_OK is set every ring uses what was negotiated. No write
    to a BAR panics, with the interrupt or the reset it leads to, and no
    interrupt of a queue or of the configuration does. *)
Theorem registers_hold d ty n qsize cs l pio mmio tbl id t0 t :
  transport_new d ty n qsize cs l pio mmio tbl id = Some t0 -> uint 16 qsize ->
  (forall m, tbl = Some m -> msix.msix_ok m) ->
  rtc (fun t t' => exists a, section t a t') t0 t ->
  vs_ok pm (modern_features t) (t_nq t) (t_vs t) /\
  t_qvec t = queue_msix_vectors (t_vs t) /\ t_cvec t = config_msix_vector (t_vs t) /\
  (forall bar offset val len w, uint 32 val -> is_Some (bar_rw_write pm bar offset val len t w)) /\
  (forall session idx, is_Some (raise_queue_interrupt_in session idx t) /\ is_Some (raise_config_interrupt_in session t)).
Proof.
  intros Hn Hu Hm Hr. assert (Ht : t_ok pm t).
  { apply (new_ok _ _ _ _ _ _ _ _ _ _ _ Hn Hu) in Hm. clear Hn. induction Hr as [|t1 t2 t3 [a Hs] _ IH]; [done|].
    apply IH. by apply (section_good t1 a). }
  pose proof (to_mirror _ _ Ht) as [Hq Hc]. split_and!; [apply Ht|done|done| |].
  - intros bar offset val len w Hval. by apply bar_rw_total.
  - intros session idx. by apply raise_total.
Qed.

(** ** One session *)

(** Sections between two resets, with what each has yet to do. *)
Inductive runs : @Transport D -> list Tail -> @Transport D -> Prop :=
| runs_nil t : runs t [] t
| runs_cons t a t1 l t2 :
    resetting (t_vs t) = false -> a <> FinishReset -> section t a t1 -> runs t1 l t2 -> runs t (a :: l) t2.

Definition tells (a : Tail) : bool := match a with RaiseConfig _ => true | _ => false end.

Lemma runs_session t l t' : runs t l t' -> t_ok pm t -> resetting (t_vs t) = false ->
  t_ok pm t' /\ within (status (t_vs t)) (status (t_vs t')) /\
  (length (filter tells l) <= (if bit_set (status (t_vs t)) STATUS_DEVICE_NEEDS_RESET then 0 else 1))%nat /\
  (has (status (t_vs t)) STATUS_FEATURES_OK -> has (status (t_vs t)) STATUS_DRIVER_OK ->
   guest_features (t_vs t') = guest_features (t_vs t)).
Proof.
  induction 1 as [t|t a t1 l t2 Hr Ha Hs _ IH]; intros Ht Hr0.
  - split_and!; try done; [apply within_refl|]. simpl. lia.
  - destruct (section_good t a t1 Ht Hs) as (Ht1 & _ & Hg). destruct (Hg Hr Ha) as (Hr1 & Hw & Htell & Hf).
    destruct (IH Ht1 Hr1) as (Ht2 & Hw2 & Hc & Hf2). split_and!; [done|by eapply within_trans| |].
    + rewrite filter_cons. destruct (decide (tells a)) as [Hta|_].
      * destruct a; try done. destruct Htell as [Hno Hyes]. unfold has in *. rewrite Hyes in Hc.
        destruct (bit_set (status (t_vs t)) STATUS_DEVICE_NEEDS_RESET); [done|]. simpl. lia.
      * destruct (bit_set (status (t_vs t)) STATUS_DEVICE_NEEDS_RESET) eqn:E; [|destruct (bit_set (status (t_vs t1)) _); lia].
        pose proof (bit_set_within _ _ 6 ltac:(done) Hw E) as E1. change (2 ^ 6) with STATUS_DEVICE_NEEDS_RESET in E1.
        by rewrite E1 in Hc.
    + intros Hfo Hdo. rewrite Hf2; [by apply Hf| |].
      * by apply (bit_set_within _ _ 3 ltac:(done) Hw).
      * by apply (bit_set_within _ _ 2 ltac:(done) Hw).
Qed.

(** C38: between two resets no status bit is lost; the driver is interrupted
    at most once for DEVICE_NEEDS_RESET, however often it repeats the write
    that caused it; and once it has set FEATURES_OK and DRIVER_OK neither the
    features nor what the rings use of them change. *)
Theorem session_keeps t l t' :
  runs t l t' -> t_ok pm t -> resetting (t_vs t) = false ->
  within (status (t_vs t)) (status (t_vs t')) /\ (length (filter tells l) <= 1)%nat /\
  (has (status (t_vs t)) STATUS_FEATURES_OK -> has (status (t_vs t)) STATUS_DRIVER_OK ->
   guest_features (t_vs t') = guest_features (t_vs t) /\
   forall i q q', queues (t_vs t) !! i = Some q -> queues (t_vs t') !! i = Some q' ->
     q_event_idx q' = q_event_idx q /\ q_indirect q' = q_indirect q).
Proof.
  intros Hr Ht Hrs. destruct (runs_session t l t' Hr Ht Hrs) as (Ht' & Hw & Hc & Hf).
  split_and!; [done|by destruct (bit_set _ _); lia|]. intros Hfo Hdo. specialize (Hf Hfo Hdo). split; [done|].
  intros i q q' Hq Hq'.
  assert (Hfo' : has (status (t_vs t')) STATUS_FEATURES_OK) by (by apply (bit_set_within _ _ 3 ltac:(done) Hw)).
  pose proof (Forall_lookup_1 _ _ _ _ (vo_flags _ _ _ _ (to_vs _ _ Ht) Hfo) Hq) as [F1 F2].
  pose proof (Forall_lookup_1 _ _ _ _ (vo_flags _ _ _ _ (to_vs _ _ Ht') Hfo') Hq') as [F3 F4].
  rewrite Hf in F3, F4. split; congruence.
Qed.

End sections.

(** ** Discovery *)

Section discovery.
Context {D : Type} `{VirtioDevice D}.
Implicit Types t : @Transport D.

(** What a driver reads of the capability at [p]: its id, and of a vendor
    capability the structure, BAR, offset and length. *)
Definition cap_byte t (o : Z) : Z := default 0 (cfg_read o 1 t).
Definition cap_dword t (o : Z) : Z := default 0 (cfg_read o 4 t).
Definition read_cap t (p : Z) : Z * option (Z * Z * Z * Z) :=
  (cap_byte t p, if cap_byte t p =? 0x09
                 then Some (cap_byte t (p + 3), cap_byte t (p + 4), cap_dword t (p + 8), cap_dword t (p + 12)) else None).

Fixpoint walk (fuel : nat) t (p : Z) : option (list (Z * option (Z * Z * Z * Z))) :=
  match fuel with
  | O => None
  | S fuel => if p =? 0 then Some [] else let* rest := walk fuel t (cap_byte t (p + 1)) in Some (read_cap t p :: rest)
  end.

(** The structures of VirtIO 1.3 sec 4.1.4, as BAR2 serves them. *)
Definition structure_read (cfg_type k len : Z) t : @Transport D * Z :=
  if cfg_type =? 1 then (t, modern_common_read k t)
  else if cfg_type =? 4 then (t, dev_cfg_read k len (t_dev t))
  else if cfg_type =? 3 then read_isr t
  else (t, 0).

Lemma land_shiftl_low c n m : 0 <= n -> uint n m -> Z.land (Z.shiftl c n) m = 0.
Proof.
  intros Hn Hm. apply Z.bits_inj'. intros i Hi. rewrite Z.land_spec, Z.bits_0. destruct (Z.lt_ge_cases i n).
  - by rewrite Z.shiftl_spec_low.
  - rewrite (testbit_uint n m) by done. apply andb_false_r.
Qed.

(** The first dword of the MSI-X capability, its next pointer patched. *)
Lemma msix_dword c :
  let x := Z.lor (Z.land (Z.lor 0x11 (Z.shiftl c 16)) (bit_not 32 0x0000FF00)) (Z.shiftl 0x4C 8) in
  Z.land (Z.shiftr x 0) 0xFF = 0x11 /\ Z.land (Z.shiftr x 8) 0xFF = 0x4C.
Proof.
  cbv zeta. rewrite !Z.land_lor_distr_l, !Z.shiftr_lor, !Z.land_lor_distr_l, !Z.shiftr_land, !Z.shiftr_0_r.
  rewrite <- !Z.land_assoc.
  change (Z.land (bit_not 32 0x0000FF00) 0xFF) with 0xFF.
  change (Z.land (Z.shiftr (bit_not 32 0x0000FF00) 8) 0xFF) with 0.
  rewrite !Z.land_0_r, (land_shiftl_low c 16 0xFF) by done. done.
Qed.

Lemma cap_byte_at t o x :
  0x40 <= o -> cap_chain_read t (Z.land o 0xFC) = Some x -> cap_byte t o = Z.land (Z.shiftr x (Z.land o 3 * 8)) 0xFF.
Proof. intros Ho Hx. unfold cap_byte, cfg_read. rewrite Hx. by destruct (Z.leb_spec 0x40 o); [|lia]. Qed.

Lemma cap_dword_at t o x :
  0x40 <= o -> cap_chain_read t (Z.land o 0xFC) = Some x -> cap_dword t o = Z.land (Z.shiftr x (Z.land o 3 * 8)) 0xFFFFFFFF.
Proof. intros Ho Hx. unfold cap_dword, cfg_read. rewrite Hx. by destruct (Z.leb_spec 0x40 o); [|lia]. Qed.

Lemma chain_virtio t o : in_msix_cap t o = false -> cap_chain_read t o = virtio_caps_read t o.
Proof. intros Ho. unfold cap_chain_read. rewrite Ho. by destruct (t_msix t). Qed.

Lemma common_cap t p : co_common (cap_offsets t) = p -> read_cap t p = (0x09, Some (1, 2, 0x0000, 0x38)) /\ cap_byte t (p + 1) = co_notify (cap_offsets t).
Proof. intros <-. destruct t as [? ? ? ? [m|] ? ? ? ? ? ? ? ? ? ?]; split; vm_compute; reflexivity. Qed.

Lemma notify_cap t p : co_notify (cap_offsets t) = p -> read_cap t p = (0x09, Some (2, 2, 0x2000, 4)) /\ cap_byte t (p + 1) = co_isr (cap_offsets t).
Proof. intros <-. destruct t as [? ? ? ? [m|] ? ? ? ? ? ? ? ? ? ?]; split; vm_compute; reflexivity. Qed.

Lemma isr_cap t p : co_isr (cap_offsets t) = p -> 0 <= t_cfg_size t -> read_cap t p = (0x09, Some (3, 2, 0x3000, 4)) /\
  cap_byte t (p + 1) = if has_device_cfg_cap t then co_device (cap_offsets t) else 0.
Proof. intros <-. destruct t as [? ? ? ? [m|] ? ? ? ? ? ? ? ? [|c|c] ?]; simpl; intros Hc; try lia; split; vm_compute; reflexivity. Qed.

Lemma device_cap t p : co_device (cap_offsets t) = p -> 0 < t_cfg_size t < 2 ^ 16 -> read_cap t p = (0x09, Some (4, 2, 0x1000, t_cfg_size t)) /\
  cap_byte t (p + 1) = 0.
Proof.
  intros <- Hc. set (p := co_device (cap_offsets t)).
  assert (Hd : cap_dword t (p + 12) = t_cfg_size t).
  { rewrite (cap_dword_at t (p + 12) (t_cfg_size t)).
    - replace (Z.land (p + 12) 3) with 0 by (unfold p, cap_offsets, caps_new; by destruct (has_msix t)).
      rewrite Z.shiftr_0_r. change 0xFFFFFFFF with (Z.ones 32). rewrite Z.land_ones by done. apply Z.mod_small. lia.
    - unfold p, cap_offsets, caps_new. by destruct (has_msix t).
    - unfold p. destruct t as [? ? ? ? [m|] ? ? ? ? ? ? ? ? [|c|c] ?]; simpl in Hc; try lia; vm_compute; reflexivity. }
  unfold read_cap. rewrite Hd. unfold p.
  destruct t as [? ? ? ? [m|] ? ? ? ? ? ? ? ? [|c|c] ?]; simpl in Hc; try lia; split; vm_compute; reflexivity.
Qed.

Lemma msix_cap t m : t_msix t = Some m -> read_cap t 0x40 = (0x11, None) /\ cap_byte t (0x40 + 1) = 0x4C.
Proof.
  intros Hm. destruct (msix_dword (let c := Z.land (saturating_sub (as_u 16 (Z.of_nat (length (msix.entries m)))) 1) 0x7FF in
    let c := if msix.enabled m then Z.lor c msix.MSG_CTRL_ENABLE else c in
    if msix.func_masked m then Z.lor c msix.MSG_CTRL_FUNC_MASK else c)) as [H0' H1'].
  assert (Hr : cap_chain_read t 0x40 = Some (Z.lor (Z.land (Z.lor 0x11 (Z.shiftl (let c := Z.land (saturating_sub (as_u 16 (Z.of_nat (length (msix.entries m)))) 1) 0x7FF in
    let c := if msix.enabled m then Z.lor c msix.MSG_CTRL_ENABLE else c in
    if msix.func_masked m then Z.lor c msix.MSG_CTRL_FUNC_MASK else c) 16)) (bit_not 32 0x0000FF00)) (Z.shiftl 0x4C 8))).
  { unfold cap_chain_read, in_msix_cap, cap_offsets, has_msix. rewrite Hm. reflexivity. }
  assert (B0 : cap_byte t 0x40 = 0x11) by (rewrite (cap_byte_at t 0x40 _ ltac:(done) Hr); exact H0').
  split; [unfold read_cap; by rewrite B0|]. rewrite (cap_byte_at t (0x40 + 1) _ ltac:(done) Hr). exact H1'.
Qed.

(** A page of BAR2. *)
Lemma page_split page k : page ∈ [0x0000; 0x1000; 0x2000; 0x3000] -> 0 <= k < 0x1000 ->
  Z.land (page + k) 0xF000 = page /\ Z.land (page + k) 0x0FFF = k.
Proof.
  intros Hp Hk. assert (Hq : exists q, page = q * 2 ^ 12 /\ 0 <= q < 4).
  { exists (page / 0x1000). repeat (apply elem_of_cons in Hp as [->|Hp]; [done|]). by apply elem_of_nil in Hp. }
  destruct Hq as (q & -> & Hq). split.
  - change 0xF000 with (2 ^ 16 - 1 - (2 ^ 12 - 1)). rewrite land_high by (unfold uint; lia).
    rewrite Z.div_add_l by lia. rewrite (Z.div_small k) by lia. lia.
  - change 0x0FFF with (Z.ones 12). rewrite Z.land_ones by lia. rewrite Z.add_comm, Z.mod_add by lia. apply Z.mod_small. lia.
Qed.

(** The virtio part of the chain. *)
Lemma walk_virtio fuel t p :
  co_common (cap_offsets t) = p -> (p =? 0) = false -> 0 <= t_cfg_size t <= 0x1000 ->
  walk (S fuel) t p = match fuel with
    | S (S (S (S _))) =>
        Some ([(0x09, Some (1, 2, 0x0000, 0x38)); (0x09, Some (2, 2, 0x2000, 4)); (0x09, Some (3, 2, 0x3000, 4))] ++
              (if t_cfg_size t =? 0 then [] else [(0x09, Some (4, 2, 0x1000, t_cfg_size t))]))
    | _ => walk (S fuel) t p
    end.
Proof.
  intros Hp Hz Hc. destruct fuel as [|[|[|[|fuel]]]]; try done.
  destruct (common_cap t p Hp) as [R1 N1]. destruct (notify_cap t _ eq_refl) as [R2 N2].
  destruct (isr_cap t _ eq_refl) as [R3 N3]; [lia|].
  assert (Hnz : (co_notify (cap_offsets t) =? 0) = false /\ (co_isr (cap_offsets t) =? 0) = false /\ (co_device (cap_offsets t) =? 0) = false).
  { unfold cap_offsets, caps_new. by destruct (has_msix t). }
  destruct Hnz as (Z2 & Z3 & Z4).
  cbn [walk]. rewrite R1, N1, R2, N2, R3, N3, Hz, Z2, Z3. unfold has_device_cfg_cap.
  destruct (Z.eqb_spec (t_cfg_size t) 0) as [E|E]; simpl negb; cbv iota; [done|].
  destruct (device_cap t _ eq_refl) as [R4 N4]; [lia|]. rewrite R4, N4, Z4. done.
Qed.

(** A modern driver that follows the capability list from the header
    comes, in a bounded number of steps, to exactly the structures the device
    has: the MSI-X table where there is one, common configuration, notify,
    ISR and, where the device has configuration, the device's own. Each lies
    inside BAR2, and a read at its offset is served from that structure. *)
Theorem caps_lead_to_structures t :
  pcidev.cap_ptr (hdr t) = 0x40 -> 0 <= t_cfg_size t <= 0x1000 ->
  exists caps, walk 6 t (cap_byte t 0x34) = Some caps /\
    caps = (if has_msix t then [(0x11, None)] else []) ++
           [(0x09, Some (1, 2, 0x0000, 0x38)); (0x09, Some (2, 2, 0x2000, 4)); (0x09, Some (3, 2, 0x3000, 4))] ++
           (if t_cfg_size t =? 0 then [] else [(0x09, Some (4, 2, 0x1000, t_cfg_size t))]) /\
    forall ty bar off len, (0x09, Some (ty, bar, off, len)) ∈ caps ->
      bar = MODERN_BAR_IDX /\ 0 < len /\ off + len <= MODERN_BAR_SIZE /\
      forall k n, 0 <= k < len -> modern_bar_read (off + k) n t = structure_read ty k n t.
Proof.
  intros Hp Hc. eexists. split; [|split; [reflexivity|]].
  - assert (H34 : cap_byte t 0x34 = 0x40).
    { unfold cap_byte, cfg_read, pcidev.cfg_read. simpl. rewrite Hp. reflexivity. }
    rewrite H34. destruct (t_msix t) as [m|] eqn:Em.
    + destruct (msix_cap t m Em) as [R0 N0].
      assert (Hco : cap_offsets t = caps_new true) by (unfold cap_offsets, has_msix; by rewrite Em).
      assert (Hb : has_msix t = true) by (unfold has_msix; by rewrite Em).
      rewrite Hb. change (walk 6 t 0x40) with (let* rest := walk 5 t (cap_byte t (0x40 + 1)) in Some (read_cap t 0x40 :: rest)).
      rewrite R0, N0.
      rewrite (walk_virtio 4 t 0x4C) by (rewrite ?Hco; done). done.
    + assert (Hco : cap_offsets t = caps_new false) by (unfold cap_offsets, has_msix; by rewrite Em).
      assert (Hb : has_msix t = false) by (unfold has_msix; by rewrite Em).
      rewrite Hb. by rewrite (walk_virtio 5 t 0x40) by (rewrite ?Hco; done).
  - intros ty bar off len Hin.
    assert (Hcase : (ty, off) ∈ [(1, 0x0000); (2, 0x2000); (3, 0x3000); (4, 0x1000)] /\ bar = 2 /\ 0 < len <= 0x1000).
    { apply elem_of_app in Hin as [Hin|Hin]; [by destruct (has_msix t); set_solver|].
      repeat (apply elem_of_cons in Hin as [[= -> -> -> ->]|Hin]; [split; [set_solver|lia]|]).
      destruct (Z.eqb_spec (t_cfg_size t) 0); [by apply elem_of_nil in Hin|].
      apply list_elem_of_singleton in Hin as [= -> -> -> ->]. split; [set_solver|lia]. }
    destruct Hcase as (Hto & -> & Hlen).
    assert (Hoff : off ∈ [0x0000; 0x1000; 0x2000; 0x3000]) by set_solver.
    split_and!; [done|lia| |].
    + unfold MODERN_BAR_SIZE. set_unfold in Hoff. lia.
    + intros k n Hk. destruct (page_split off k Hoff ltac:(lia)) as [Hpg Hrg].
      unfold modern_bar_read. rewrite Hpg, Hrg.
      repeat (apply elem_of_cons in Hto as [[= -> ->]|Hto]; [done|]). by apply elem_of_nil in Hto.
Qed.



End discovery.
End vpci_thm.

(** ** A device and its driver *)

Module vpci_demo.
Import mapping guestmem queue queue_inv vpci vpci_inv.

(** A backend that offers both ring features and leaves the rings alone; its
    state is what was negotiated. *)
#[export] Instance sink : VirtioDevice Z :=
  mkVirtioDevice Z (fun _ => 2 ^ 28 + 2 ^ 29) (fun f _ => f) (fun _ _ _ => 0) (fun _ _ _ d => d)
    (fun _ qs d w => (false, qs, d, w)) (fun _ _ d => d) (fun _ => 0) (fun _ _ => Ok None) (fun d => (d, Ok tt))
    (fun _ _ _ _ _ d => (d, Ok tt)) (fun _ _ d => d) (fun d => d).

#[export] Instance sink_laws : DeviceLaws queue_thm.ram.
Proof.
  constructor; try done. intros i qs d w b qs' d' w' [= _ <- <- _]. split; [done|].
  apply Forall_Forall2_diag, Forall_true. intros q. apply ring_kept_refl.
Qed.

Definition ports : pcireg.bus := aspace.mkASpace 0 65535 [].
Definition memory : pcireg.bus := aspace.mkASpace 0 (mmio.MAX_PHYSMEM - 1) [].
Definition filler : @Transport Z :=
  mkT (mkVs 0 0 0 [] 0 [] 0 0 [] [] [] [] 0 false) 0 0 None None [] 0 gate_new []
    (pcireg.mkFunc pcidev.hostbridge_new false None None None) ports memory 0 0 0.

(** An entropy device with one queue of 4 and two vectors. *)
Definition dev0 : @Transport Z :=
  default filler (transport_new 0 4 1 4 0 (Some 1) ports memory (Some (msix.msix_new 2)) 0).

Lemma dev0_new : transport_new 0 4 1 4 0 (Some 1) ports memory (Some (msix.msix_new 2)) 0 = Some dev0.
Proof. vm_compute. reflexivity. Qed.

Lemma dev0_table : forall m, Some (msix.msix_new 2) = Some m -> msix.msix_ok m.
Proof. intros m [= <-]. by apply msix.msix_new_ok. Qed.

Lemma dev0_ok : t_ok queue_thm.ram dev0.
Proof. exact (vpci_thm.new_ok _ _ _ _ _ _ _ _ _ _ _ _ dev0_new ltac:(done) dev0_table). Qed.

Definition still : world := mkWorld queue_thm.mem4 0.

(** A driver's writes to BAR2, each of which ends under the lock. *)
Fixpoint program (l : list (Z * Z)) (t : @Transport Z) : option (@Transport Z) :=
  match l with
  | [] => Some t
  | (offset, val) :: l =>
      match modern_bar_write queue_thm.ram offset val 4 t still with
      | Some (t, NoTail, _) => program l t
      | _ => None
      end
  end.

Lemma program_runs l t t' :
  Forall (fun w => uint 32 w.2) l -> program l t = Some t' ->
  rtc (fun t t' => exists a, vpci_thm.section queue_thm.ram t a t') t t'.
Proof.
  revert t. induction l as [|[o v] l IH]; intros t Hl Hp; simpl in Hp.
  { injection Hp as ->. apply rtc_refl. }
  apply Forall_cons in Hl as [Hv Hl]. destruct (modern_bar_write _ o v 4 t still) as [[[t1 a] w1]|] eqn:E; [|done].
  destruct a; try done. eapply rtc_l; [exists NoTail; by eapply vpci_thm.se_modern|]. by apply IH.
Qed.

(** Negotiate both ring features and VERSION_1, put the ring in place, start. *)
Definition bring_up : list (Z * Z) :=
  [(0x14, 1); (0x14, 3); (0x08, 0); (0x0C, 0x30000000); (0x08, 1); (0x0C, 1); (0x14, 11);
   (0x16, 0); (0x1A, 1); (0x10, 0); (0x20, 0x1000); (0x28, 0x1040); (0x30, 0x1080); (0x1C, 1); (0x14, 15)].

Definition dev1 : @Transport Z := default filler (program bring_up dev0).

Lemma dev1_up : program bring_up dev0 = Some dev1.
Proof. vm_compute. reflexivity. Qed.

Lemma dev1_runs : rtc (fun t t' => exists a, vpci_thm.section queue_thm.ram t a t') dev0 dev1.
Proof. apply (program_runs bring_up); [|exact dev1_up]. by repeat constructor. Qed.

Lemma registers_hold_witness :
  vs_ok queue_thm.ram (modern_features dev1) 1 (t_vs dev1) /\ status (t_vs dev1) = 15 /\ guest_features (t_vs dev1) = 2 ^ 32 + 2 ^ 28 + 2 ^ 29.
Proof.
  split; [|split; vm_compute; reflexivity].
  exact (proj1 (vpci_thm.registers_hold queue_thm.ram _ _ _ _ _ _ _ _ _ _ _ _ dev0_new ltac:(done) dev0_table dev1_runs)).
Defined.

(** The driver repeats a write the device refuses, then clears a status bit. *)
Definition dev2 : @Transport Z :=
  match modern_bar_write queue_thm.ram 0x14 1 4 dev1 still with Some (t, _, _) => t | None => filler end.

Lemma session_keeps_witness :
  within (status (t_vs dev1)) (status (t_vs dev2)) /\ (length (filter vpci_thm.tells [RaiseConfig 0; NoTail]) <= 1)%nat /\
  guest_features (t_vs dev2) = guest_features (t_vs dev1).
Proof.
  assert (Ht : t_ok queue_thm.ram dev1).
  { pose proof dev1_runs as Hr. pose proof dev0_ok as H0. induction Hr as [|t1 t2 t3 [a Hs] _ IH]; [done|].
    apply IH. by apply (vpci_thm.section_good queue_thm.ram t1 a). }
  destruct (vpci_thm.session_keeps queue_thm.ram dev1 [RaiseConfig 0; NoTail] dev2) as (H1 & H2 & H3); [|done|reflexivity|].
  - eapply (vpci_thm.runs_cons _ _ _ dev2); [reflexivity|done| |].
    + apply (vpci_thm.se_modern _ _ 0x14 1 4 still _ _ still); [done|]. vm_compute. reflexivity.
    + eapply (vpci_thm.runs_cons _ _ _ dev2); [reflexivity|done| |constructor].
      apply (vpci_thm.se_modern _ _ 0x14 1 4 still _ _ still); [done|]. vm_compute. reflexivity.
  - split_and!; [done|done|]. apply H3; vm_compute; reflexivity.
Defined.

Lemma caps_lead_to_structures_witness :
  exists caps, vpci_thm.walk 6 dev0 (vpci_thm.cap_byte dev0 0x34) = Some caps /\
    caps = [(0x11, None); (0x09, Some (1, 2, 0x0000, 0x38)); (0x09, Some (2, 2, 0x2000, 4)); (0x09, Some (3, 2, 0x3000, 4))].
Proof.
  destruct (vpci_thm.caps_lead_to_structures dev0) as (caps & Hw & Hc & _); [vm_compute; reflexivity|vm_compute; done|].
  exists caps. split; [exact Hw|]. rewrite Hc. vm_compute. reflexivity.
Defined.

(** Writes to BAR0. *)
Fixpoint legacy_program (l : list (Z * Z)) (t : @Transport Z) : option (@Transport Z) :=
  match l with
  | [] => Some t
  | (offset, val) :: l =>
      match bar_write queue_thm.ram offset val 4 t still with
      | (t, NoTail, _) => legacy_program l t
      | _ => None
      end
  end.

Lemma legacy_runs l t t' :
  Forall (fun w => uint 32 w.2) l -> legacy_program l t = Some t' ->
  rtc (fun t t' => exists a, vpci_thm.section queue_thm.ram t a t') t t'.
Proof.
  revert t. induction l as [|[o v] l IH]; intros t Hl Hp; simpl in Hp.
  { injection Hp as ->. apply rtc_refl. }
  apply Forall_cons in Hl as [Hv Hl]. destruct (bar_write _ o v 4 t still) as [[t1 a] w1] eqn:E.
  destruct a; try done. eapply rtc_l; [exists NoTail|by apply IH].
  pose proof (vpci_thm.se_legacy queue_thm.ram t o v 4 still Hv) as Hs. by rewrite E in Hs.
Qed.

(** The same device after a reset, and under a legacy driver that negotiates
    nothing. *)
Definition dev3 : @Transport Z := finish_reset (write_status 0 dev1).1.
Definition take_over : list (Z * Z) := [(0x12, 1); (0x12, 3); (0x0E, 0); (0x08, 1); (0x12, 7)].
Definition dev4 : @Transport Z := default filler (legacy_program take_over dev3).

Lemma dev3_runs : rtc (fun t t' => exists a, vpci_thm.section queue_thm.ram t a t') dev1 dev3.
Proof.
  apply rtc_l with (write_status 0 dev1).1.
  { exists FinishReset. apply (vpci_thm.se_modern _ _ 0x14 0 4 still _ _ still); [done|]. vm_compute. reflexivity. }
  unfold dev3, finish_reset. set (t := (write_status 0 dev1).1).
  apply rtc_l with (reset_backend t); [exists NoTail; apply vpci_thm.se_reset_backend|].
  apply rtc_l with (reset_line (reset_backend t)); [exists NoTail; apply vpci_thm.se_reset_line|].
  apply rtc_l with (reset_pending (reset_line (reset_backend t))); [exists NoTail; apply vpci_thm.se_reset_pending|].
  apply rtc_once. exists NoTail. apply vpci_thm.se_publish. vm_compute. reflexivity.
Qed.

(** The ring features of a session outlive it. A reset clears the
    negotiated features and not what the queues took from them, so the next
    driver, if it negotiates none and never sets FEATURES_OK, runs its ring
    with EVENT_IDX and indirect descriptors it did not accept. *)
Theorem features_outlive_reset :
  rtc (fun t t' => exists a, vpci_thm.section queue_thm.ram t a t') dev0 dev4 /\
  guest_features (t_vs dev4) = 0 /\ status (t_vs dev4) = 7 /\
  exists q, queues (t_vs dev4) !! 0%nat = Some q /\ is_configured q = true /\ q_event_idx q = true /\ q_indirect q = true.
Proof.
  split; [|split; [vm_compute; reflexivity|split; [vm_compute; reflexivity|]]].
  - transitivity dev1; [exact dev1_runs|]. transitivity dev3; [exact dev3_runs|].
    apply (legacy_runs take_over); [by repeat constructor|]. vm_compute. reflexivity.
  - exists (set_addr_legacy (set_indirect_supported (set_event_idx (mkQueue 4 4 0 0 0 0 0 false false None) true) true) 1).
    split_and!; vm_compute; reflexivity.
Qed.

(** A driver that starts before it negotiates, and one caught between
    FEATURES_OK and DRIVER_OK. *)
Definition early : list (Z * Z) :=
  [(0x14, 3); (0x16, 0); (0x20, 0x1000); (0x28, 0x1040); (0x30, 0x1080); (0x1C, 1); (0x14, 7); (0x08, 0); (0x0C, 0x30000000)].
Definition dev5 : @Transport Z := default filler (program early dev0).
Definition dev6 : @Transport Z := default filler (program [(0x14, 15)] dev5).
Definition dev7 : @Transport Z := default filler (program (take 7 bring_up) dev0).
Definition dev8 : @Transport Z := default filler (legacy_program [(0x04, 0)] dev7).

(** Negotiation is not as final as the comments have it. A driver that
    sets DRIVER_OK first and FEATURES_OK later changes the ring features
    under its live ring; and the legacy feature register renegotiates after
    FEATURES_OK, until DRIVER_OK, without a reset. *)
Theorem negotiation_reopens :
  (rtc (fun t t' => exists a, vpci_thm.section queue_thm.ram t a t') dev0 dev5 /\
   vpci_thm.section queue_thm.ram dev5 NoTail dev6 /\
   has (status (t_vs dev5)) STATUS_DRIVER_OK /\
   (is_configured <$> queues (t_vs dev5)) = [true] /\
   (q_event_idx <$> queues (t_vs dev5)) = [false] /\ (q_event_idx <$> queues (t_vs dev6)) = [true]) /\
  (rtc (fun t t' => exists a, vpci_thm.section queue_thm.ram t a t') dev0 dev7 /\
   vpci_thm.section queue_thm.ram dev7 NoTail dev8 /\
   has (status (t_vs dev7)) STATUS_FEATURES_OK /\
   guest_features (t_vs dev7) = 2 ^ 32 + 2 ^ 29 + 2 ^ 28 /\ guest_features (t_vs dev8) = 0).
Proof.
  split; (split; [|split; [|split; [vm_compute; reflexivity|split; [vm_compute; reflexivity|]]]]).
  - apply (program_runs early); [by repeat constructor|]. vm_compute. reflexivity.
  - apply (vpci_thm.se_modern _ _ 0x14 15 4 still _ _ still); [done|]. vm_compute. reflexivity.
  - split; vm_compute; reflexivity.
  - apply (program_runs (take 7 bring_up)); [by repeat constructor|]. vm_compute. reflexivity.
  - pose proof (vpci_thm.se_legacy queue_thm.ram dev7 0x04 0 4 still ltac:(done)) as Hs.
    assert (He : (bar_write queue_thm.ram 0x04 0 4 dev7 still).1 = (dev8, NoTail)) by (vm_compute; reflexivity).
    by rewrite He in Hs.
  - vm_compute. reflexivity.
Qed.

End vpci_demo.
