(* ===== verification/VirtioMig.v ===== *)
(** * Migration of a VirtIO device

    [pci/migrate.rs]: an export of a running device is accepted by one of the
    same shape and makes it the same device, when the driver kept to its
    rings and to the vectors the table has; and what happens where it did
    not. *)

From S2P Require Import Prelude ASpace Bus Mapping PhysMap PhysMapInv GuestMem VirtQueue VirtQueueInv VirtQueueThm PciBar PciDevice PciThm PciMsix VirtioPci VirtioPciInv VirtioPciThm.

Module vpci_mig.
Import mapping guestmem queue queue_inv vpci vpci_inv.

Section migration.
Context {D P : Type} `{VirtioDevice D} `{GuestMap P} (pm : P) `{!DeviceLaws pm}.
Implicit Types t : @Transport D.

(** ** What an export says of a queue *)




(** ** What the destination accepts *)











(** ** What a restore makes of the queues *)









(** ** The header and the buses *)









(** ** Waking the queues *)











(** ** The backend *)



(** ** The whole *)





End migration.

(** ** Examples *)

Import vpci_demo.








(** A device that was restored with five chains done, and whose driver has
    gone on until the 16-bit indices came back to 0: the ring is idle. *)
Definition state5 : VirtioMigrateState :=
  mkMs 15 (2 ^ 32 + 2 ^ 28 + 2 ^ 29) 0 (pcidev.migrate_state (hdr dev1)) (msix.export_state <$> t_msix dev1)
    [mkMq 0 4 0x1000 0x1040 0x1080 true 5 5 1].
Definition arrived : @Transport Z :=
  match restore_migrate_queues queue_thm.ram state5 dev0 with Some (t, Ok _) => t | _ => filler end.
Definition wrapped : @Transport Z := on_vs (fun v => with_queues ((fun q => set_last_avail_idx q 0) <$> queues v) v) arrived.
Definition idle_ring : world := mkWorld ∅ 0.

(** A driver that programs a vector its table does not have. *)
Definition dev_vec7 : @Transport Z := default filler (program [(0x1A, 7)] dev1).

(** What a device of the very same kind says to an export. *)
Definition twin_verdict (t : @Transport Z) (w : world) : option (result StateError unit) :=
  match export_migrate_queues queue_thm.ram idle t w with
  | (Ok s, _) => check_migrate_state queue_thm.ram dev0 s
  | (Err e, _) => Some (Err e)
  end.

(** Two exports their own twin refuses. A used index of 0 in guest memory
    is taken for none and replaced by the cursor of an earlier restore, so an
    idle ring that has wrapped reports 65531 chains in flight. And a vector
    past the table, which the register accepts and reads back, fails the
    check of the destination. *)
Theorem twin_refuses :
  (exists t, restore_migrate_queues queue_thm.ram state5 dev0 = Some (t, Ok tt) /\ t = arrived) /\
  (q_last_avail <$> queues (t_vs wrapped)) = [0] /\ (read_used_ring_idx queue_thm.ram idle queue_thm.q4 idle_ring).1 = 0 /\
  twin_verdict wrapped idle_ring = Some (Err (TooManyInFlight 0 65531)) /\
  (modern_bar_read 0x1A 2 dev_vec7).2 = 7 /\ twin_verdict dev_vec7 still = Some (Err (VectorPast 7 2)).
Proof.
  split; [exists arrived; split; [vm_compute; reflexivity|done]|]. split_and!; vm_compute; reflexivity.
Qed.

End vpci_mig.
