(* ===== verification/VirtioIntr.v ===== *)
(** * Interrupts against resets

    The interleaving [pci/intr.rs] is written for: vCPUs write registers, the
    backend and the vCPUs raise interrupts for a session they named earlier,
    an unmask releases messages, and a vCPU resets the device. Each step is
    one critical section or one atomic access of the code in [VirtioPci]; a
    thread's phase is where it stands between two of them. *)

From S2P Require Import Prelude ASpace Bus Mapping PhysMap PhysMapInv GuestMem VirtQueue VirtQueueInv VirtQueueThm PciBar PciDevice PciMsix VirtioPci VirtioPciInv VirtioPciThm.

Module vpci_intr.
Import mapping guestmem queue vpci vpci_inv.

(** ** Threads *)

Inductive event : Type := EvQueue (idx : Z) | EvConfig.

(** [s] is the session a delivery named. The last five are the vCPU in
    [finish_reset]. *)
Inductive thread : Type :=
| Named (s : Z) (e : event)
| Passed (s : Z) (e : event)
| Routed (s vector bit : Z)
| Firing (s vector : Z)
| Sending (s : Z) (ms : list msix.message)
| Lining (s bit : Z)
| Ending (s : Z)
| Sampled (s : Z) (a : MsixWrite)
| Released (s : Z) (ms : list msix.message)
| Finished
| RBackend | RSettle | RLine | RPending | RPublish.

Definition isr_bit (e : event) : Z := match e with EvQueue _ => ISR_QUEUE_INTR | EvConfig => ISR_CFG_CHANGE end.

(** Counted by the gate. *)
Definition counted (th : thread) : bool :=
  match th with Passed _ _ | Routed _ _ _ | Firing _ _ | Sending _ _ | Lining _ _ | Ending _ => true | _ => false end.

Definition resets (th : thread) : bool :=
  match th with RBackend | RSettle | RLine | RPending | RPublish => true | _ => false end.

Definition thread_of (a : Tail) : list thread :=
  match a with
  | NoTail => []
  | RaiseQueue s idx => [Named s (EvQueue idx)]
  | RaiseConfig s => [Named s EvConfig]
  | FinishReset => [RBackend]
  end.

Section system.
Context {D P : Type} `{VirtioDevice D} `{GuestMap P} (pm : P) `{!DeviceLaws pm}.

(** [s_started] and [s_published] count resets; [s_log] has, for every
    interrupt that reached the guest, the session it was raised in and the
    resets that were complete by then. *)
Record sys : Type := mkSys {
  s_t : @Transport D; s_threads : list thread; s_started : Z; s_published : Z; s_log : list (Z * Z)
}.

Definition put (t : @Transport D) (ths : list thread) (s : sys) : sys := mkSys t ths (s_started s) (s_published s) (s_log s).
Definition tell (n : Z) (s : sys) : sys :=
  mkSys (s_t s) (s_threads s) (s_started s) (s_published s) (s_log s ++ [(n, s_published s)]).

Definition event_vector (e : event) (t : @Transport D) : Z :=
  match e with EvQueue idx => queue_vector t idx | EvConfig => t_cvec t end.

(** What a thread does next; [None] while it waits. *)
Definition advance (th : thread) (s : sys) : option (thread * sys) :=
  let t := s_t s in
  let keep t' := put t' (s_threads s) s in
  match th with
  | Named n e =>
      match begin_ n (t_gate t) with
      | Some g => Some (Passed n e, keep (set_gate g t))
      | None => Some (Finished, s)
      end
  | Passed n e => Some (Routed n (event_vector e t) (isr_bit e), s)
  | Routed n v bit => Some (if msix_enabled t then Firing n v else Lining n bit, s)
  | Firing n v => let* r := fire_vector v t in Some (match r.2 with [] => Ending n | ms => Sending n ms end, keep r.1)
  | Sending n ms => Some (Ending n, tell n (keep (add_sent ms t)))
  | Lining n bit => Some (Ending n, tell n (keep (raise_line bit t)))
  | Ending n => Some (Finished, keep (set_gate (admitted_drop (t_gate t)) t))
  | Sampled n a => let r := msix_write a t in Some (match r.2 with [] => Finished | ms => Released n ms end, keep r.1)
  | Released n ms =>
      match begin_ n (t_gate t) with
      | Some g => Some (Sending n ms, keep (set_gate g t))
      | None => Some (Finished, s)
      end
  | Finished => None
  | RBackend => Some (RSettle, keep (reset_backend t))
  | RSettle => if settled (t_gate t) then Some (RLine, s) else None
  | RLine => Some (RPending, keep (reset_line t))
  | RPending => Some (RPublish, keep (reset_pending t))
  | RPublish => Some (Finished, mkSys (reset_publish t) (s_threads s) (s_started s) (s_published s + 1) (s_log s))
  end.

(** A register write leaves its tail to a thread. *)
Definition spawn (t : @Transport D) (a : Tail) (s : sys) : sys :=
  mkSys t (s_threads s ++ thread_of a) (match a with FinishReset => s_started s + 1 | _ => s_started s end)
    (s_published s) (s_log s).

Definition val_ok (a : MsixWrite) : Prop := match a with TableWrite _ v | CapWrite _ v => uint 32 v end.

Inductive step : sys -> sys -> Prop :=
| st_legacy s offset val len w : uint 32 val ->
    step s (spawn (bar_write pm offset val len (s_t s) w).1.1 (bar_write pm offset val len (s_t s) w).1.2 s)
| st_modern s offset val len w t' a w' : uint 32 val -> modern_bar_write pm offset val len (s_t s) w = Some (t', a, w') ->
    step s (spawn t' a s)
| st_read_legacy s offset len : step s (put (bar_read offset len (s_t s)).1 (s_threads s) s)
| st_read_modern s offset len : step s (put (modern_bar_read offset len (s_t s)).1 (s_threads s) s)
| st_header s f pio mmio : step s (put (set_buses f pio mmio (s_t s)) (s_threads s) s)
| st_backend s d : device_features d = device_features (t_dev (s_t s)) -> step s (put (set_dev d (s_t s)) (s_threads s) s)
| st_signal s : step s (spawn (signal_device_needs_reset (s_t s)).1 (signal_device_needs_reset (s_t s)).2 s)
| st_raise s n e : step s (put (s_t s) (s_threads s ++ [Named n e]) s)
| st_unmask s a : val_ok a -> step s (put (s_t s) (s_threads s ++ [Sampled (g_session (t_gate (s_t s))) a]) s)
| st_thread s i th th' s' : s_threads s !! i = Some th -> advance th s = Some (th', s') ->
    step s (mkSys (s_t s') (<[i := th']> (s_threads s)) (s_started s') (s_published s') (s_log s')).

Definition start (t : @Transport D) : sys := mkSys t [] 0 0 [].

(** ** The invariant *)

Definition count (f : thread -> bool) (l : list thread) : Z := Z.of_nat (length (filter (fun th => f th = true) l)).

Lemma phases_insert f l i p q : l !! i = Some p ->
  count f (<[i := q]> l) = count f l + (if f q then 1 else 0) - (if f p then 1 else 0).
Proof.
  intros Hi. pose proof (lookup_lt_Some _ _ _ Hi) as Hl. unfold count.
  rewrite <- (take_drop_middle l i p Hi) at 2. rewrite insert_take_drop by done.
  rewrite !filter_app, !length_app, !filter_cons. repeat case_decide; destruct (f p), (f q); simpl; try done; lia.
Qed.

Lemma count_app f l l' : count f (l ++ l') = count f l + count f l'.
Proof. unfold count. rewrite filter_app, length_app. lia. Qed.

Lemma count_pos f l i p : l !! i = Some p -> f p = true -> 0 < count f l.
Proof.
  intros Hi Hf. pose proof (phases_insert f l i p Finished Hi) as Hc. rewrite Hf in Hc. unfold count in *.
  destruct (f Finished); [|lia]. rewrite <- (take_drop_middle l i p Hi), filter_app, filter_cons, length_app.
  case_decide; [simpl; lia|done].
Qed.

Lemma count_le f l : count f l <= Z.of_nat (length l).
Proof. unfold count. pose proof (length_filter (fun th => f th = true) l). lia. Qed.

(** No message held back. *)
Definition clean (t : @Transport D) : Prop := forall m v, t_msix t = Some m -> msix.pending m v = false.

(** The pin shows whether the ISR has a bit. *)
Definition line_ok (t : @Transport D) : Prop :=
  0 <= t_isr t /\ match t_pin t with Some level => level = negb (t_isr t =? 0) | None => True end.

(** What a phase knows: an admitted delivery is for the published session, a
    reset past [settle] is alone. *)
Definition th_ok (t : @Transport D) (published : Z) (th : thread) : Prop :=
  match th with
  | Passed n _ | Firing n _ | Sending n _ | Ending n => n = published
  | Routed n _ bit | Lining n bit => n = published /\ 0 < bit
  | RLine => g_in_flight (t_gate t) = 0
  | RPending => g_in_flight (t_gate t) = 0 /\ t_isr t = 0
  | RPublish => g_in_flight (t_gate t) = 0 /\ t_isr t = 0 /\ clean t
  | _ => True
  end.

Definition b2z (b : bool) : Z := if b then 1 else 0.

Record inv (s : sys) : Prop := mkInv {
  iv_t : t_ok pm (s_t s);
  iv_line : line_ok (s_t s);
  iv_flight : g_in_flight (t_gate (s_t s)) = count counted (s_threads s);
  iv_session : g_session (t_gate (s_t s)) = s_started s;
  iv_open : g_open (t_gate (s_t s)) = negb (resetting (t_vs (s_t s)));
  iv_started : 0 <= s_published s /\ s_started s = s_published s + b2z (resetting (t_vs (s_t s)));
  iv_resets : count resets (s_threads s) = b2z (resetting (t_vs (s_t s)));
  iv_threads : Forall (th_ok (s_t s) (s_published s)) (s_threads s);
  iv_log : Forall (fun x => x.1 = x.2) (s_log s)
}.

(** A change that keeps a quiet device quiet. *)
Definition quiet (t t' : @Transport D) : Prop :=
  (t_isr t = 0 -> t_isr t' = 0) /\ (clean t -> clean t').

Lemma th_ok_mono t t' n th :
  quiet t t' -> g_in_flight (t_gate t') = g_in_flight (t_gate t) -> th_ok t n th -> th_ok t' n th.
Proof. intros [Hi Hc] Hg. destruct th; simpl; rewrite ?Hg; naive_solver. Qed.

(** With a delivery in flight no reset is past [settle]. *)
Lemma th_ok_busy t t' n th : 0 < g_in_flight (t_gate t) -> th_ok t n th -> th_ok t' n th.
Proof. intros Hg. destruct th; simpl; lia || naive_solver lia. Qed.

(** ** Steps keep it *)

Lemma th_ok_plain t t' n th : resets th = false -> th_ok t n th -> th_ok t' n th.
Proof. by destruct th. Qed.

Lemma th_ok_idle t n th : counted th = false -> resets th = false -> th_ok t n th.
Proof. by destruct th. Qed.

Lemma count_zero f l i th : count f l = 0 -> l !! i = Some th -> f th = false.
Proof. intros Hc Hi. destruct (f th) eqn:E; [|done]. pose proof (count_pos f l i th Hi E). lia. Qed.

(** The reset is one thread. *)
Lemma count_one f l i j p th : count f l = 1 -> f Finished = false -> l !! i = Some p -> f p = true -> l !! j = Some th -> j <> i -> f th = false.
Proof.
  intros Hc Hf Hi Hp Hj Hne. apply (count_zero f (<[i := Finished]> l) j); [|by rewrite list_lookup_insert_ne].
  rewrite (phases_insert f l i p) by done. rewrite Hf, Hp. lia.
Qed.

(** Threads are added and the gate stays. *)
Lemma inv_add s t' new :
  inv s -> t_ok pm t' -> line_ok t' -> quiet (s_t s) t' -> t_gate t' = t_gate (s_t s) ->
  resetting (t_vs t') = resetting (t_vs (s_t s)) ->
  Forall (fun th => counted th = false /\ resets th = false) new -> inv (put t' (s_threads s ++ new) s).
Proof.
  intros [Ht Hl Hf Hs Ho Hst Hr Hth Hlog] Ht' Hl' Hq Hg Hres Hnew.
  assert (Hno : count counted new = 0 /\ count resets new = 0).
  { clear -Hnew. induction Hnew as [|th l [Hc Hn] _ [IH1 IH2]]; [done|]. unfold count in *.
    rewrite !filter_cons. by rewrite !decide_False by congruence. }
  destruct Hno as [Hc Hn]. constructor; simpl; rewrite ?Hg, ?Hres, ?count_app; try done; [lia..|].
  apply Forall_app. split.
  - eapply Forall_impl; [exact Hth|]. intros th. apply th_ok_mono; [done|by rewrite Hg].
  - eapply Forall_impl; [exact Hnew|]. intros th [??]. by apply th_ok_idle.
Qed.

(** A thread that is not the reset moves on. *)
Lemma inv_move s i p q t' log :
  inv s -> s_threads s !! i = Some p -> resets p = false -> resets q = false ->
  t_ok pm t' -> line_ok t' -> (counted p = true \/ quiet (s_t s) t') ->
  g_session (t_gate t') = g_session (t_gate (s_t s)) -> g_open (t_gate t') = g_open (t_gate (s_t s)) ->
  resetting (t_vs t') = resetting (t_vs (s_t s)) ->
  g_in_flight (t_gate t') = g_in_flight (t_gate (s_t s)) + b2z (counted q) - b2z (counted p) ->
  (counted p = false -> counted q = true -> resetting (t_vs (s_t s)) = false) ->
  th_ok t' (s_published s) q -> Forall (fun x => x.1 = x.2) log ->
  inv (mkSys t' (<[i := q]> (s_threads s)) (s_started s) (s_published s) log).
Proof.
  intros [Ht Hl Hf Hs Ho Hst Hr Hth Hlog] Hi Hrp Hrq Ht' Hl' Hq Hg1 Hg2 Hres Hfl Hadm Hqok Hlog'.
  constructor; simpl; rewrite ?Hg1, ?Hg2, ?Hres; try done.
  - rewrite (phases_insert _ _ i p) by done. rewrite Hfl, Hf. unfold b2z. lia.
  - rewrite (phases_insert _ _ i p) by done. rewrite Hrp, Hrq. lia.
  - apply Forall_insert; [|done]. rewrite Forall_lookup in Hth |- *. intros j th Hj. specialize (Hth j th Hj).
    destruct (counted p) eqn:Ecp.
    { apply (th_ok_busy (s_t s)); [|done]. rewrite Hf. by apply (count_pos _ _ i p). }
    destruct Hq as [|Hq]; [done|]. destruct (counted q) eqn:Ecq.
    + specialize (Hadm eq_refl eq_refl). rewrite Hadm in Hr.
      apply (th_ok_plain (s_t s)); [by apply (count_zero _ (s_threads s) j)|done].
    + apply (th_ok_mono (s_t s)); [done| |done]. unfold b2z in Hfl. lia.
Qed.

(** The reset moves on. *)
Lemma inv_reset s i p q t' :
  inv s -> s_threads s !! i = Some p -> resets p = true -> resets q = true ->
  t_ok pm t' -> line_ok t' -> t_gate t' = t_gate (s_t s) -> resetting (t_vs t') = resetting (t_vs (s_t s)) ->
  th_ok t' (s_published s) q -> inv (put t' (<[i := q]> (s_threads s)) s).
Proof.
  intros [Ht Hl Hf Hs Ho Hst Hr Hth Hlog] Hi Hrp Hrq Ht' Hl' Hg Hres Hqok.
  assert (Hcnt : counted p = false /\ counted q = false) by (by destruct p, q).
  assert (Hone : count resets (s_threads s) = 1).
  { pose proof (count_pos _ _ _ _ Hi Hrp). unfold b2z in Hr. destruct (resetting _); lia. }
  constructor; simpl; rewrite ?Hg, ?Hres; try done.
  - rewrite (phases_insert _ _ i p) by done. destruct Hcnt as [-> ->]. lia.
  - rewrite (phases_insert _ _ i p) by done. rewrite Hrp, Hrq. lia.
  - rewrite Forall_lookup in Hth |- *. intros j th Hj.
    apply list_lookup_insert_Some in Hj as [(<- & -> & _)|[Hne Hj]]; [done|].
    apply (th_ok_plain (s_t s)); [by apply (count_one _ (s_threads s) i j p)|by eapply Hth].
Qed.

(** The last step of a reset. *)
Lemma inv_publish s i :
  inv s -> s_threads s !! i = Some RPublish ->
  inv (mkSys (reset_publish (s_t s)) (<[i := Finished]> (s_threads s)) (s_started s) (s_published s + 1) (s_log s)).
Proof.
  intros Hinv Hi. destruct Hinv as [Ht Hl Hf Hs Ho Hst Hr Hth Hlog].
  pose proof (count_pos resets _ _ _ Hi eq_refl) as Hpos.
  destruct (resetting (t_vs (s_t s))) eqn:Hres; simpl in Hr, Hst; [|lia].
  destruct (proj1 (Forall_lookup _ _) Hth _ _ Hi) as (Hz & Hisr & Hcl).
  constructor; simpl; try done; try lia.
  - by apply (vpci_thm.section_good pm (s_t s) NoTail), vpci_thm.se_publish.
  - rewrite (phases_insert _ _ i RPublish) by done. simpl. lia.
  - rewrite (phases_insert _ _ i RPublish) by done. simpl. lia.
  - apply Forall_lookup. intros j th Hj. apply list_lookup_insert_Some in Hj as [(<- & <- & _)|[Hne Hj]]; [done|].
    apply th_ok_idle; [apply (count_zero _ (s_threads s) j); [lia|done]|by apply (count_one _ (s_threads s) i j RPublish)].
Qed.

Lemma quiet_refl t : quiet t t.
Proof. done. Qed.

Lemma same_quiet t t' : t_isr t' = t_isr t -> t_msix t' = t_msix t -> quiet t t'.
Proof. unfold quiet, clean. intros -> ->. done. Qed.

Lemma msix_write_quiet a t : t_ok pm t -> quiet t (msix_write a t).1.
Proof.
  intros Ht. unfold msix_write. destruct (t_msix t) as [m|] eqn:Em; [|done].
  assert (Hm : msix.msix_ok m) by (by apply (to_msix _ _ Ht)).
  split; [by destruct a|]. intros Hc m' v. destruct a; simpl; intros [= <-]; apply not_true_is_false; intros Hp.
  - apply msix.table_write_pending in Hp; [|done]. by rewrite (Hc m) in Hp.
  - apply msix.cap_write_pending in Hp; [|done]. by rewrite (Hc m) in Hp.
Qed.

Lemma read_isr_line t : line_ok t -> line_ok (read_isr t).1 /\ quiet t (read_isr t).1.
Proof.
  intros [Hi Hp]. unfold read_isr, line_ok. simpl. split; [|done]. split; [done|].
  destruct (t_pin t) as [l|]; simpl; [|by destruct (negb _)]. subst l. by destruct (t_isr t =? 0).
Qed.

Lemma raise_line_ok bit t : 0 < bit -> line_ok t -> line_ok (raise_line bit t).
Proof.
  intros Hb [Hi Hp]. unfold line_ok. simpl. split; [apply Z.lor_nonneg; lia|].
  destruct (t_pin t); simpl; [|done]. symmetry. apply negb_true_iff, Z.eqb_neq.
  intros [_ ?]%Z.lor_eq_0_iff. lia.
Qed.

(** A register write and the thread it leaves. *)
Lemma inv_spawn s t' a : inv s -> reg_spec pm (s_t s) a t' -> s_started (spawn t' a s) < 2 ^ 64 -> inv (spawn t' a s).
Proof.
  intros Hinv [Hok _ (Hi & Hp & Hm & _) Hg _ _ _] Hb.
  assert (Hl : line_ok t') by (unfold line_ok; rewrite Hi, Hp; apply Hinv).
  assert (Hq : quiet (s_t s) t') by (by apply same_quiet).
  destruct Hg as [(-> & Hr & Hr' & Hg)|(Ha & Hr & Hg & _)].
  - destruct Hinv as [Ht _ Hf Hs Ho Hst Hn Hth Hlog]. rewrite Hr in *. simpl in *.
    constructor; simpl; rewrite ?Hg, ?Hr', ?count_app; simpl; try done; try lia.
    + rewrite Hf. unfold count at 3. simpl. lia.
    + rewrite Hs. apply Z.mod_small. lia.
    + rewrite Hn. done.
    + apply Forall_app. split; [|by constructor]. apply Forall_lookup. intros j th Hj.
      apply (th_ok_plain (s_t s)); [by apply (count_zero _ (s_threads s) j)|]. by apply (proj1 (Forall_lookup _ _) Hth j).
  - replace (spawn t' a s) with (put t' (s_threads s ++ thread_of a) s) by (by destruct a).
    apply inv_add; try done. by destruct a; repeat constructor.
Qed.

Lemma begin_some n g g' : begin_ n g = Some g' ->
  g_open g = true /\ g_session g = n /\ g' = mkGate true (g_session g) (wadd 64 (g_in_flight g) 1).
Proof. unfold begin_. destruct (g_open g); simpl; [|done]. destruct (Z.eqb_spec (g_session g) n); simpl; [|done]. by intros [= <-]. Qed.

(** A delivery passes the gate. *)
Lemma inv_admit s i n p q g :
  inv s -> s_threads s !! i = Some p -> resets p = false -> counted p = false -> resets q = false -> counted q = true ->
  Z.of_nat (length (s_threads s)) < 2 ^ 64 -> begin_ n (t_gate (s_t s)) = Some g ->
  (n = s_published s -> th_ok (set_gate g (s_t s)) (s_published s) q) ->
  inv (put (set_gate g (s_t s)) (<[i := q]> (s_threads s)) s).
Proof.
  intros Hinv Hi Hrp Hcp Hrq Hcq Hb (Ho & Hn & ->)%begin_some Hk.
  pose proof (iv_open s Hinv) as Hop. rewrite Ho in Hop. symmetry in Hop. apply negb_true_iff in Hop.
  pose proof (iv_started s Hinv) as [_ Hst]. rewrite Hop in Hst. simpl in Hst.
  pose proof (count_le counted (<[i := q]> (s_threads s))) as Hle. pose proof (iv_session s Hinv) as Hse.
  rewrite length_insert, (phases_insert _ _ i p), Hcp, Hcq, <- (iv_flight s Hinv) in Hle by done.
  assert (0 <= g_in_flight (t_gate (s_t s))) by (rewrite (iv_flight s Hinv); unfold count; lia).
  apply (inv_move s i p q); try done.
  - by apply (vpci_thm.same_regs pm (s_t s)), Hinv; try apply Hinv.
  - apply Hinv.
  - by right.
  - rewrite Hcp, Hcq. simpl. unfold wadd, as_u. rewrite Z.mod_small; lia.
  - apply Hk. lia.
  - apply Hinv.
Qed.

(** An admitted delivery goes on. *)
Lemma inv_go s i p q t' log :
  inv s -> s_threads s !! i = Some p -> resets p = false -> counted p = true -> resets q = false -> counted q = true ->
  t_ok pm t' -> line_ok t' -> t_gate t' = t_gate (s_t s) -> t_vs t' = t_vs (s_t s) ->
  th_ok t' (s_published s) q -> Forall (fun x => x.1 = x.2) log ->
  inv (mkSys t' (<[i := q]> (s_threads s)) (s_started s) (s_published s) log).
Proof.
  intros Hinv Hi Hrp Hcp Hrq Hcq Ht Hl Hg Hv Hk Hlog. apply (inv_move s i p q); try done; rewrite ?Hg, ?Hv; try done; [by left| |congruence].
  rewrite Hcp, Hcq. simpl. lia.
Qed.

(** A thread the gate does not know goes on. *)
Lemma inv_aside s i p q t' :
  inv s -> s_threads s !! i = Some p -> resets p = false -> counted p = false -> resets q = false -> counted q = false ->
  t_ok pm t' -> line_ok t' -> quiet (s_t s) t' -> t_gate t' = t_gate (s_t s) -> t_vs t' = t_vs (s_t s) ->
  inv (put t' (<[i := q]> (s_threads s)) s).
Proof.
  intros Hinv Hi Hrp Hcp Hrq Hcq Ht Hl Hq Hg Hv. apply (inv_move s i p q); try done; rewrite ?Hg, ?Hv; try done; [by right| |congruence| |apply Hinv].
  - rewrite Hcp, Hcq. simpl. lia.
  - by apply th_ok_idle.
Qed.

Lemma isr_bit_pos e : 0 < isr_bit e.
Proof. by destruct e. Qed.

Lemma advance_delivery s i th th' s' :
  inv s -> s_threads s !! i = Some th -> counted th = true -> advance th s = Some (th', s') ->
  Z.of_nat (length (s_threads s)) < 2 ^ 64 ->
  inv (mkSys (s_t s') (<[i := th']> (s_threads s)) (s_started s') (s_published s') (s_log s')).
Proof.
  intros Hinv Hi Hc Ha Hb. pose proof (iv_t s Hinv) as Ht. pose proof (iv_line s Hinv) as Hl. pose proof (iv_log s Hinv) as Hlog.
  pose proof (proj1 (Forall_lookup _ _) (iv_threads s Hinv) i th Hi) as Hok.
  assert (Hsec : forall t', vpci_thm.section pm (s_t s) NoTail t' -> t_ok pm t') by (intros t' Hs; by apply (vpci_thm.section_good pm _ _ _ Ht) in Hs as [??]).
  destruct th as [| n e|n v bit|n v|n ms|n bit|n| | | | | | | |]; try done; simpl in Ha, Hok.
  - injection Ha as <- <-. apply (inv_go s i (Passed n e)); try done. split; [done|apply isr_bit_pos].
  - injection Ha as <- <-. apply (inv_go s i (Routed n v bit)); try done; by destruct (msix_enabled _); destruct Hok.
  - destruct (vpci_thm.fire_total pm (s_t s) v Ht) as (t' & ms & Hf & m & -> & Hm). rewrite Hf in Ha. simpl in Ha. injection Ha as <- <-.
    apply (inv_go s i (Firing n v)); try done; simpl; try (by destruct ms). apply Hsec. by eapply vpci_thm.se_fire.
  - injection Ha as <- <-. apply (inv_go s i (Sending n ms)); try done; simpl; [apply Hsec, vpci_thm.se_send|].
    apply Forall_app. by repeat constructor.
  - injection Ha as <- <-. destruct Hok as [-> Hbit]. apply (inv_go s i (Lining (s_published s) bit)); try done; simpl; [apply Hsec, vpci_thm.se_line| |].
    + by apply raise_line_ok.
    + apply Forall_app. by repeat constructor.
  - injection Ha as <- <-. simpl. pose proof (count_pos counted _ _ _ Hi eq_refl) as Hpos. rewrite <- (iv_flight s Hinv) in Hpos.
    apply (inv_move s i (Ending n)); try done; [apply Hsec, vpci_thm.se_gate|by left|].
    pose proof (count_le counted (s_threads s)) as Hle. rewrite <- (iv_flight s Hinv) in Hle.
    simpl. unfold wsub, as_u. rewrite Z.mod_small; lia.
Qed.

Lemma advance_aside s i th th' s' :
  inv s -> s_threads s !! i = Some th -> counted th = false -> resets th = false -> advance th s = Some (th', s') ->
  (match th with Sampled _ a => val_ok a | _ => True end) -> Z.of_nat (length (s_threads s)) < 2 ^ 64 ->
  inv (mkSys (s_t s') (<[i := th']> (s_threads s)) (s_started s') (s_published s') (s_log s')).
Proof.
  intros Hinv Hi Hc Hr Ha Hv Hb. pose proof (iv_t s Hinv) as Ht. pose proof (iv_line s Hinv) as Hl.
  destruct th as [n e| | | | | | |n a|n ms| | | | | |]; try done; simpl in Ha.
  - destruct (begin_ n (t_gate (s_t s))) as [g|] eqn:Eg; injection Ha as <- <-.
    + by apply (inv_admit s i n (Named n e)).
    + by apply (inv_aside s i (Named n e)).
  - injection Ha as <- <-. pose proof (msix_write_quiet a (s_t s) Ht) as Hq. simpl.
    apply (inv_aside s i (Sampled n a)); try done; try (by destruct (msix_write a (s_t s)).2).
    + destruct a; apply (vpci_thm.section_good pm (s_t s) NoTail); try done; by constructor.
    + revert Hl. unfold line_ok, msix_write. by destruct (t_msix (s_t s)), a.
    + unfold msix_write. by destruct (t_msix (s_t s)), a.
    + unfold msix_write. by destruct (t_msix (s_t s)), a.
  - destruct (begin_ n (t_gate (s_t s))) as [g|] eqn:Eg; injection Ha as <- <-.
    + by apply (inv_admit s i n (Released n ms)).
    + by apply (inv_aside s i (Released n ms)).
Qed.

Lemma advance_reset s i th th' s' :
  inv s -> s_threads s !! i = Some th -> resets th = true -> advance th s = Some (th', s') ->
  inv (mkSys (s_t s') (<[i := th']> (s_threads s)) (s_started s') (s_published s') (s_log s')).
Proof.
  intros Hinv Hi Hr Ha. pose proof (iv_t s Hinv) as Ht. pose proof (iv_line s Hinv) as Hl.
  pose proof (proj1 (Forall_lookup _ _) (iv_threads s Hinv) i th Hi) as Hok.
  assert (Hsec : forall t', vpci_thm.section pm (s_t s) NoTail t' -> t_ok pm t') by (intros t' Hs; by apply (vpci_thm.section_good pm _ _ _ Ht) in Hs as [??]).
  destruct th; try done; simpl in Ha, Hok.
  - injection Ha as <- <-. apply (inv_reset s i RBackend); try done. apply Hsec, vpci_thm.se_reset_backend.
  - destruct (settled (t_gate (s_t s))) eqn:E; [|done]. injection Ha as <- <-. apply (inv_reset s i RSettle); try done.
    by apply Z.eqb_eq.
  - injection Ha as <- <-. apply (inv_reset s i RLine); try done; [apply Hsec, vpci_thm.se_reset_line|].
    split; [done|]. simpl. by destruct (t_pin (s_t s)).
  - injection Ha as <- <-. apply (inv_reset s i RPending); try done; [apply Hsec, vpci_thm.se_reset_pending|].
    destruct Hok as [Hf Hz]. split_and!; try done. intros m v (m0 & Hm & ->)%fmap_Some. apply msix.clear_pending_none.
  - injection Ha as <- <-. exact (inv_publish s i Hinv Hi).
Qed.

(** A sampled access carries the value the guest wrote. *)
Definition writes_ok (s : sys) : Prop := forall i n a, s_threads s !! i = Some (Sampled n a) -> val_ok a.

Lemma advance_not_sampled th s th' s' n a : advance th s = Some (th', s') -> th' <> Sampled n a.
Proof.
  destruct th; simpl; intros Ha; simplify_option_eq; repeat case_match; simplify_eq; done.
Qed.

Lemma step_writes s s' : writes_ok s -> step s s' -> writes_ok s'.
Proof.
  intros Hw Hs. assert (Happ : forall l, Forall (fun th => match th with Sampled _ a => val_ok a | _ => True end) l ->
    forall i n a, (s_threads s ++ l) !! i = Some (Sampled n a) -> val_ok a).
  { intros l Hl i n a [Hi|[_ Hi]]%lookup_app_Some; [by eapply Hw|]. exact (proj1 (Forall_lookup _ _) Hl _ _ Hi). }
  destruct Hs; unfold writes_ok; simpl; try done; try (by apply Happ; repeat constructor);
    try (by apply Happ; match goal with |- context [thread_of ?a] => destruct a end; repeat constructor).
  intros j n a [(-> & -> & _)|[_ Hj]]%list_lookup_insert_Some; [|by eapply Hw].
  by eapply advance_not_sampled in H2.
Qed.

Lemma step_grows s s' : step s s' -> s_started s <= s_started s' /\ (length (s_threads s) <= length (s_threads s'))%nat.
Proof.
  intros Hs. destruct Hs as [s o v l w _|s o v l w t' a w' _ _|s o l|s o l|s f pio mmio|s d _|s|s n e|s a _|s i th th' s' Hi Ha];
    simpl; rewrite ?length_app, ?length_insert; try lia.
  - case_match; lia.
  - case_match; lia.
  - case_match; lia.
  - split; [|lia]. destruct th; simpl in Ha; simplify_option_eq; repeat case_match; simplify_eq; simpl; lia.
Qed.

Lemma inv_step s s' :
  inv s -> writes_ok s -> step s s' -> s_started s' < 2 ^ 64 -> Z.of_nat (length (s_threads s')) < 2 ^ 64 -> inv s'.
Proof.
  intros Hinv Hw Hs Hb1 Hb2. pose proof (iv_t s Hinv) as Ht. pose proof (iv_line s Hinv) as Hl.
  assert (Hkeep : forall t', t_ok pm t' -> line_ok t' -> quiet (s_t s) t' -> t_gate t' = t_gate (s_t s) ->
    t_vs t' = t_vs (s_t s) -> inv (put t' (s_threads s) s)).
  { intros t' H1 H2 H3 H4 H5. rewrite <- (app_nil_r (s_threads s)). apply inv_add; try done. by rewrite H5. }
  assert (Hread : inv (put (read_isr (s_t s)).1 (s_threads s) s)).
  { destruct (read_isr_line (s_t s) Hl) as [Hl' Hq]. apply Hkeep; try done. by apply (vpci_thm.same_regs pm (s_t s)), Ht. }
  assert (Hsame : inv (put (s_t s) (s_threads s) s)) by (by apply Hkeep).
  destruct Hs as [s o v l w Hv|s o v l w t' a w' Hv Hm|s o l|s o l|s f pio mmio|s d Hd|s|s n e|s a Ha|s i th th' s' Hi Ha].
  - by apply inv_spawn; [|apply bar_write_spec|].
  - apply inv_spawn; [done| |done]. destruct (modern_write_spec pm (s_t s) o v l w Ht Hv) as (r & Hr & Hs).
    rewrite Hm in Hr. by injection Hr as <-.
  - unfold bar_read. by repeat case_match.
  - unfold modern_bar_read. by repeat case_match.
  - apply Hkeep; try done. by apply (vpci_thm.same_regs pm (s_t s)), Ht.
  - apply Hkeep; try done. by apply (vpci_thm.same_regs pm (s_t s)), Ht.
  - apply inv_spawn; [done| |done]. unfold signal_device_needs_reset. destruct (resetting _) eqn:E.
    + by apply unchanged_spec.
    + by apply needs_reset_spec.
  - apply inv_add; try done. by repeat constructor.
  - apply inv_add; try done. by repeat constructor.
  - simpl in Hb2. rewrite length_insert in Hb2. destruct (counted th) eqn:Ec; [by apply (advance_delivery s i th)|].
    destruct (resets th) eqn:Er; [by apply (advance_reset s i th)|].
    apply (advance_aside s i th); try done. destruct th; try done. by eapply Hw.
Qed.

(** The bounds are the widths of the session counter and of the gate's count. *)
Definition bounded (s : sys) : Prop := s_started s < 2 ^ 64 /\ Z.of_nat (length (s_threads s)) < 2 ^ 64.

Lemma intr_reach s s' : inv s -> writes_ok s -> rtc step s s' -> bounded s' -> inv s' /\ writes_ok s'.
Proof.
  intros Hi Hw Hr. induction Hr as [s|s1 s2 s3 Hs Hr IH]; intros Hb; [done|].
  assert (Hg : s_started s2 <= s_started s3 /\ (length (s_threads s2) <= length (s_threads s3))%nat).
  { clear -Hr. induction Hr as [|a b c Hab _ IH]; [lia|]. apply step_grows in Hab. lia. }
  unfold bounded in Hb. apply IH; [|by eapply step_writes|done]. eapply inv_step; [done..|lia|lia].
Qed.

Lemma intr_start d ty n qsize cs l pio mmio tbl id t :
  transport_new d ty n qsize cs l pio mmio tbl id = Some t -> uint 16 qsize ->
  (forall m, tbl = Some m -> msix.msix_ok m) -> inv (start t) /\ writes_ok (start t).
Proof.
  intros Hn Hu Hm. pose proof (vpci_thm.new_ok pm _ _ _ _ _ _ _ _ _ _ _ Hn Hu Hm) as Ht. split; [|done].
  unfold transport_new in Hn. destruct (MAX_QUEUES <? n)%nat; [done|]. destruct (pci_class_for ty).
  do 3 (apply bind_Some in Hn as (? & _ & Hn)).
  destruct (match l with Some _ => _ | None => _ end) as [h pin] eqn:El.
  apply bind_Some in Hn as (v & Hv & [= <-]).
  unfold vs_new in Hv. apply bind_Some in Hv as (qs & Hqs & [= <-]).
  constructor; simpl; try done.
  split; [done|]. simpl. destruct l; by injection El as _ <-.
Qed.

(** C5: from a new device, however register accesses, interrupts, unmasks and
    resets interleave: every interrupt that reaches the guest was admitted in
    the session it names, with exactly that many resets complete; the INTx pin
    is high exactly while the ISR has a bit; the gate counts the deliveries
    under way, one reset runs at a time, and none is under way once the reset
    has gone past [settle]. *)
Theorem deliveries_in_session d ty n qsize cs l pio mmio tbl id t s :
  transport_new d ty n qsize cs l pio mmio tbl id = Some t -> uint 16 qsize ->
  (forall m, tbl = Some m -> msix.msix_ok m) -> rtc step (start t) s -> bounded s ->
  (forall named done, (named, done) ∈ s_log s -> named = done) /\
  (forall level, t_pin (s_t s) = Some level -> level = negb (t_isr (s_t s) =? 0)) /\
  g_in_flight (t_gate (s_t s)) = count counted (s_threads s) /\
  count resets (s_threads s) = s_started s - s_published s /\ s_started s - s_published s <= 1 /\
  (forall i th j th', s_threads s !! i = Some th -> s_threads s !! j = Some th' ->
    th ∈ [RLine; RPending; RPublish] -> counted th' = false).
Proof.
  intros Hn Hu Hm Hr Hb. destruct (intr_start _ _ _ _ _ _ _ _ _ _ _ Hn Hu Hm) as [H1' H2'].
  destruct (intr_reach _ _ H1' H2' Hr Hb) as [Hinv _]. pose proof Hinv as [Ht [Hi Hp] Hf Hs Ho [Hst1 Hst] Hre Hth Hlog].
  split_and!; try done.
  - intros a b Hin. by apply (proj1 (Forall_forall _ _) Hlog (a, b)).
  - intros level Hl. by rewrite Hl in Hp.
  - lia.
  - unfold b2z in Hst. destruct (resetting _); lia.
  - intros i th j th' Hith Hj Hin. apply (count_zero _ (s_threads s) j); [|done]. rewrite <- Hf.
    pose proof (proj1 (Forall_lookup _ _) Hth i th Hith) as Hok. set_unfold in Hin. naive_solver.
Qed.

(** A queue nobody has set up, at its largest size. *)
Definition blank_queue (size : Z) (event_idx indirect : bool) : VirtQueue :=
  mkQueue size size 0 0 0 0 0 event_idx indirect None.

(** The registers of a device with [n] queues nobody has set up. *)
Definition blank_registers (n : nat) (qs : list VirtQueue) (generation : Z) : VirtioPciState :=
  mkVs 0 0 0 qs 0xFFFF (replicate n 0xFFFF) 0 0 (replicate n false) (replicate n 0) (replicate n 0) (replicate n 0)
    generation false.

(** C39: what the next driver finds. When a reset publishes, every register
    the last driver set is back at its value at power on: the status, the
    feature bits, the three selectors, the vectors, the enable bits and the
    addresses of the rings; every queue is unconfigured, at its largest size
    and with its cursors at zero, and keeps of its past only the two ring
    features the last driver negotiated. The generation count of the
    configuration stays. The ISR is clear and the pin low, the MSI-X table
    holds no message back, no delivery the gate admitted is in flight, and
    the gate is open for the new session only. A message that an unmask had
    taken out of the table before may still arrive. *)
Theorem reset_publishes_clean d ty n qsize cs l pio mmio tbl id t s i :
  transport_new d ty n qsize cs l pio mmio tbl id = Some t -> uint 16 qsize ->
  (forall m, tbl = Some m -> msix.msix_ok m) -> rtc step (start t) s -> bounded s ->
  s_threads s !! i = Some RPublish ->
  exists s' qs, advance RPublish s = Some (Finished, s') /\
    t_vs (s_t s') = blank_registers (t_nq (s_t s)) qs (config_generation (t_vs (s_t s))) /\
    Forall2 (fun q q' => q' = blank_queue (q_max_size q) (q_event_idx q) (q_indirect q)) (queues (t_vs (s_t s))) qs /\
    t_cvec (s_t s') = 0xFFFF /\ t_qvec (s_t s') = replicate (t_nq (s_t s)) 0xFFFF /\
    t_isr (s_t s') = 0 /\ (forall level, t_pin (s_t s') = Some level -> level = false) /\ clean (s_t s') /\
    t_gate (s_t s') = mkGate true (s_published s') 0.
Proof.
  intros Hn Hu Hm Hr Hb Hi. destruct (intr_start _ _ _ _ _ _ _ _ _ _ _ Hn Hu Hm) as [H1' H2'].
  destruct (intr_reach _ _ H1' H2' Hr Hb) as [Hinv _]. pose proof Hinv as [Ht [Hz Hp] Hf Hs Ho [Hst1 Hst] Hre Hth Hlog].
  destruct (proj1 (Forall_lookup _ _) Hth i _ Hi) as (Hfl & Hisr & Hcl).
  pose proof (count_pos resets _ _ _ Hi eq_refl) as Hpos.
  destruct (resetting (t_vs (s_t s))) eqn:Hres; simpl in Hre, Hst; [|lia].
  destruct (vo_lengths _ _ _ _ (to_vs _ _ Ht)) as (L1 & L2 & L3 & L4 & L5 & L6). destruct (to_mirror _ _ Ht) as [Hq Hc].
  eexists _, (reset <$> queues (t_vs (s_t s))). split; [reflexivity|]. simpl. split_and!; try done.
  - unfold blank_registers, with_resetting, vs_reset, fill. simpl. by rewrite L2, L3, L4, L5, L6.
  - apply Forall2_fmap_r, Forall_Forall2_diag, Forall_true. done.
  - unfold fill. by rewrite Hq, L2.
  - intros level Hl. by rewrite Hl, Hisr in Hp.
  - unfold reopen. rewrite Hfl, Hs. f_equal. lia.
Qed.

(** ** A reset ends *)

(** The steps a delivery or a reset still has before it. *)
Definition rank (th : thread) : nat :=
  match th with
  | Passed _ _ => 5 | Routed _ _ _ => 4 | Firing _ _ => 3 | Sending _ _ | Lining _ _ => 2 | Ending _ => 1
  | RBackend => 5 | RSettle => 4 | RLine => 3 | RPending => 2 | RPublish => 1
  | _ => 0
  end.

Definition work (s : sys) : nat := sum_list_with rank (s_threads s).

Lemma rank_engaged th : (0 < rank th)%nat <-> counted th = true \/ resets th = true.
Proof. destruct th; simpl; split; intros; try lia; try tauto; destruct H1; done. Qed.

(** A delivery or a reset only ever comes closer to its end. *)
Lemma advance_rank th s th' s' : advance th s = Some (th', s') -> (0 < rank th)%nat -> (rank th' < rank th)%nat.
Proof.
  destruct th; simpl; intros Ha Hr; try lia; simplify_option_eq; repeat case_match; simplify_eq; simpl; lia.
Qed.

(** The gate keeps others out. *)
Lemma advance_closed th s th' s' :
  g_open (t_gate (s_t s)) = false -> advance th s = Some (th', s') -> rank th = 0%nat -> rank th' = 0%nat.
Proof.
  intros Hg Ha Hr. destruct th; try done; simpl in Ha; unfold begin_ in Ha; rewrite ?Hg in Ha; simpl in Ha; simplify_eq; try done.
  by case_match.
Qed.

Lemma step_work s s' : inv s -> resetting (t_vs (s_t s)) = true -> step s s' -> (work s' <= work s)%nat.
Proof.
  intros Hinv Hr Hs. pose proof (iv_t s Hinv) as Ht.
  assert (Hspawn : forall t' a, reg_spec pm (s_t s) a t' -> (work (spawn t' a s) <= work s)%nat).
  { intros t' a [_ _ _ Hg _ _ _]. destruct Hg as [(_ & Hf & _)|(Ha & _)]; [congruence|].
    unfold work. simpl. rewrite sum_list_with_app. destruct a; simpl; try lia. done. }
  destruct Hs as [s o v l w Hv|s o v l w t' a w' Hv Hm|s o l|s o l|s f pio mmio|s d Hd|s|s n e|s a Ha|s i th th' s' Hi Ha];
    try (unfold work; simpl; rewrite ?sum_list_with_app; simpl; lia).
  - by apply Hspawn, bar_write_spec.
  - apply Hspawn. destruct (modern_write_spec pm (s_t s) o v l w Ht Hv) as (r & Hrr & Hs).
    rewrite Hm in Hrr. by injection Hrr as <-.
  - apply Hspawn. unfold signal_device_needs_reset. rewrite Hr. by apply unchanged_spec.
  - unfold work. simpl. pose proof (sum_list_insert rank _ _ _ th' Hi). destruct (decide (0 < rank th)%nat) as [Hp|Hp].
    + pose proof (advance_rank _ _ _ _ Ha Hp). lia.
    + assert (rank th' = 0)%nat; [|lia]. eapply (advance_closed th s); [|done|lia].
      by rewrite (iv_open s Hinv), Hr.
Qed.

(** Something engaged can move. *)
Lemma engaged_moves s : inv s -> resetting (t_vs (s_t s)) = true ->
  exists i th th' s', s_threads s !! i = Some th /\ (0 < rank th)%nat /\ advance th s = Some (th', s').
Proof.
  intros Hinv Hr. pose proof (iv_t s Hinv) as Ht.
  assert (Hfind : forall f, 0 < count f (s_threads s) -> exists i th, s_threads s !! i = Some th /\ f th = true).
  { intros f Hc. unfold count in Hc. destruct (filter _ (s_threads s)) as [|th l] eqn:E; [simpl in Hc; lia|].
    assert (Hin : th ∈ filter (fun th => f th = true) (s_threads s)) by (rewrite E; by left).
    apply list_elem_of_filter in Hin as [Hf Hin]. apply list_elem_of_lookup_1 in Hin as [i Hi]. eauto. }
  destruct (decide (0 < count counted (s_threads s))) as [Hc|Hc].
  - destruct (Hfind counted Hc) as (i & th & Hi & Hth). exists i, th.
    assert (Hm : exists th' s', advance th s = Some (th', s')).
    { destruct th as [| | |n v| | | | | | | | | | |]; try done; simpl; eauto.
      destruct (vpci_thm.fire_total pm (s_t s) v Ht) as (t' & ms & -> & _). simpl. eauto. }
    destruct Hm as (th' & s' & Ha). exists th', s'. split_and!; [done|apply rank_engaged; by left|done].
  - destruct (Hfind resets) as (i & th & Hi & Hth); [rewrite (iv_resets s Hinv), Hr; done|]. exists i, th.
    assert (Hz : settled (t_gate (s_t s)) = true).
    { apply Z.eqb_eq. rewrite (iv_flight s Hinv). unfold count in *. lia. }
    assert (Hm : exists th' s', advance th s = Some (th', s')) by (destruct th; try done; simpl; rewrite ?Hz; eauto).
    destruct Hm as (th' & s' & Ha). exists th', s'. split_and!; [done|apply rank_engaged; by right|done].
Qed.

Lemma thread_step s i th th' s' : s_threads s !! i = Some th -> advance th s = Some (th', s') ->
  s_started s' = s_started s /\ length (s_threads s') = length (s_threads s) /\
  (th <> RPublish -> s_published s' = s_published s /\ resetting (t_vs (s_t s')) = resetting (t_vs (s_t s))).
Proof.
  intros Hi Ha. destruct th; simpl in Ha; unfold fire_vector, msix_write in Ha; simplify_option_eq; repeat case_match; simplify_eq; done.
Qed.

Lemma reset_runs n s : (work s <= n)%nat -> inv s -> writes_ok s -> bounded s -> resetting (t_vs (s_t s)) = true ->
  exists s', rtc step s s' /\ s_published s' = s_published s + 1 /\ resetting (t_vs (s_t s')) = false /\ s_started s' = s_started s.
Proof.
  revert s. induction n as [|n IH]; intros s Hn Hinv Hw [Hb1 Hb2] Hr;
    destruct (engaged_moves s Hinv Hr) as (i & th & th' & s1 & Hi & Hp & Ha).
  { pose proof (sum_list_insert rank _ _ _ Finished Hi) as Hwi. simpl in Hwi. unfold work in Hn. lia. }
  set (s2 := mkSys (s_t s1) (<[i := th']> (s_threads s)) (s_started s1) (s_published s1) (s_log s1)).
  assert (Hstep : step s s2) by (by apply (st_thread s i th)).
  destruct (thread_step s i th th' s1 Hi Ha) as (E1 & E2 & E3).
  assert (Hb : bounded s2) by (unfold bounded, s2; simpl; rewrite length_insert, E1; lia).
  assert (Hcase : th = RPublish \/ th <> RPublish) by (destruct th; (by right) || by left).
  destruct Hcase as [->|Hne].
  - simpl in Ha. injection Ha as <- <-. exists s2. split_and!; try done. by apply rtc_once.
  - destruct (E3 Hne) as [E4 E5]. destruct (IH s2) as (s' & Hs' & Hp' & Hr' & Hst').
    + unfold work, s2. simpl. pose proof (sum_list_insert rank _ _ _ th' Hi). pose proof (advance_rank _ _ _ _ Ha Hp).
      unfold work in Hn. lia.
    + by eapply inv_step; [| |exact Hstep|apply Hb|apply Hb].
    + by eapply step_writes.
    + done.
    + unfold s2. simpl. congruence.
    + exists s'. unfold s2 in Hp', Hst'. simpl in Hp', Hst'. rewrite E4 in Hp'. rewrite E1 in Hst'. split_and!; try done. by eapply rtc_l.
Qed.

(** C40: a reset comes to its end. While one runs, the steps that it and the
    admitted deliveries still have before them never grow, whatever else
    happens; each step of theirs brings the number down; one of them can
    always move; and so the reset can be published from any state. *)
Theorem reset_ends d ty n qsize cs l pio mmio tbl id t s :
  transport_new d ty n qsize cs l pio mmio tbl id = Some t -> uint 16 qsize ->
  (forall m, tbl = Some m -> msix.msix_ok m) -> rtc step (start t) s -> bounded s ->
  resetting (t_vs (s_t s)) = true ->
  (forall s', step s s' -> (work s' <= work s)%nat) /\
  (forall i th th' s', s_threads s !! i = Some th -> (0 < rank th)%nat -> advance th s = Some (th', s') ->
    (sum_list_with rank (<[i := th']> (s_threads s)) < work s)%nat) /\
  (exists i th th' s', s_threads s !! i = Some th /\ (0 < rank th)%nat /\ advance th s = Some (th', s')) /\
  exists s', rtc step s s' /\ s_published s' = s_published s + 1 /\ resetting (t_vs (s_t s')) = false.
Proof.
  intros Hn Hu Hm Hrt Hb Hr. destruct (intr_start _ _ _ _ _ _ _ _ _ _ _ Hn Hu Hm) as [H1' H2'].
  destruct (intr_reach _ _ H1' H2' Hrt Hb) as [Hinv Hw]. split_and!.
  - intros s'. by apply step_work.
  - intros i th th' s' Hi Hp Ha. pose proof (sum_list_insert rank _ _ _ th' Hi). pose proof (advance_rank _ _ _ _ Ha Hp). unfold work. lia.
  - by apply engaged_moves.
  - destruct (reset_runs (work s) s) as (s' & ? & ? & ? & _); eauto.
Qed.

(** ** The phases and the sequential code *)

Definition raise_in (n : Z) (e : event) (t : @Transport D) : option (@Transport D) :=
  match e with EvQueue idx => raise_queue_interrupt_in n idx t | EvConfig => raise_config_interrupt_in n t end.

(** One thread, on its own. *)
Definition alone (t : @Transport D) (th : thread) (a b : Z) (log : list (Z * Z)) : sys := mkSys t [th] a b log.

Lemma alone_step t th a b log th' t' log' :
  advance th (alone t th a b log) = Some (th', alone t' th a b log') -> step (alone t th a b log) (alone t' th' a b log').
Proof. intros Ha. exact (st_thread (alone t th a b log) 0 th th' _ eq_refl Ha). Qed.

Lemma add_sent_nil (t : @Transport D) : add_sent [] t = t.
Proof. destruct t. unfold add_sent. simpl. by rewrite app_nil_r. Qed.

Lemma deliver_event e t m ms : fire_vector (event_vector e t) t = Some (set_msix m t, ms) ->
  (match e with EvQueue idx => deliver_queue_interrupt idx | EvConfig => raise_config_interrupt end) t =
  Some (if msix_enabled t then add_sent ms (set_msix m t) else raise_line (isr_bit e) t).
Proof.
  intros Hf. destruct e; unfold event_vector, deliver_queue_interrupt, raise_config_interrupt, route_msix in *;
    destruct (msix_enabled t); cbn [negb option_bind mbind]; simpl; rewrite ?Hf; done.
Qed.

(** From admission to the end. *)
Lemma admitted_agrees n e g t a b log : t_ok pm t ->
  exists t' log', admitted (Some g) (match e with EvQueue idx => deliver_queue_interrupt idx | EvConfig => raise_config_interrupt end) t = Some t' /\
    rtc step (alone (set_gate g t) (Passed n e) a b log) (alone t' Finished a b log').
Proof.
  intros Ht. set (t1 := set_gate g t). assert (Ht1 : t_ok pm t1) by (by apply (vpci_thm.same_regs pm t), Ht).
  destruct (vpci_thm.fire_total pm t1 (event_vector e t1) Ht1) as (t2 & ms & Hf & m & -> & _).
  assert (Hdel : (match e with EvQueue idx => deliver_queue_interrupt idx | EvConfig => raise_config_interrupt end) t1 =
    Some (if msix_enabled t1 then add_sent ms (set_msix m t1) else raise_line (isr_bit e) t1)).
  { by apply deliver_event. }
  unfold admitted. fold t1. rewrite Hdel. simpl.
  destruct (msix_enabled t1) eqn:En.
  - exists (set_gate (admitted_drop g) (add_sent ms (set_msix m t1))), (log ++ match ms with [] => [] | _ => [(n, b)] end). split; [done|].
    eapply rtc_l; [by apply alone_step|]. simpl. eapply rtc_l; [by apply alone_step; simpl; rewrite En|]. simpl.
    eapply rtc_l; [apply alone_step; simpl; by rewrite Hf|]. simpl. destruct ms as [|m0 ms].
    + rewrite add_sent_nil, app_nil_r. apply rtc_once. by apply alone_step.
    + eapply rtc_l; [by apply alone_step|]. apply rtc_once. by apply alone_step.
  - exists (set_gate (admitted_drop g) (raise_line (isr_bit e) t1)), (log ++ [(n, b)]). split; [done|].
    eapply rtc_l; [by apply alone_step|]. simpl. eapply rtc_l; [by apply alone_step; simpl; rewrite En|]. simpl.
    eapply rtc_l; [by apply alone_step|]. apply rtc_once. by apply alone_step.
Qed.

Lemma raise_agrees n e t a b log : t_ok pm t ->
  exists t' log', raise_in n e t = Some t' /\ rtc step (alone t (Named n e) a b log) (alone t' Finished a b log').
Proof.
  intros Ht. destruct (begin_ n (t_gate t)) as [g|] eqn:Eg.
  - destruct (admitted_agrees n e g t a b log Ht) as (t' & log' & Hd & Hr). exists t', log'. split.
    + unfold raise_in, raise_queue_interrupt_in, raise_config_interrupt_in. rewrite Eg. by destruct e.
    + eapply rtc_l; [apply alone_step; simpl; by rewrite Eg|exact Hr].
  - exists t, log. split.
    + unfold raise_in, raise_queue_interrupt_in, raise_config_interrupt_in. rewrite Eg. by destruct e.
    + apply rtc_once, alone_step. simpl. by rewrite Eg.
Qed.

Lemma access_agrees a t n m log :
  exists t' log', msix_access a t = Some t' /\
    rtc step (alone t (Sampled (g_session (t_gate t)) a) n m log) (alone t' Finished n m log').
Proof.
  unfold msix_access. destruct (msix_write a t) as [t1 ms] eqn:Ew. simpl. destruct ms as [|m0 ms].
  - exists t1, log. split; [done|]. apply rtc_once, alone_step. simpl. by rewrite Ew.
  - simpl. destruct (begin_ (g_session (t_gate t)) (t_gate t1)) as [g|] eqn:Eg.
    + eexists _, _. split; [reflexivity|]. eapply rtc_l; [apply alone_step; simpl; by rewrite Ew|]. simpl.
      eapply rtc_l; [apply alone_step; simpl; by rewrite Eg|]. eapply rtc_l; [by apply alone_step|]. apply rtc_once. by apply alone_step.
    + eexists _, _. split; [reflexivity|]. eapply rtc_l; [apply alone_step; simpl; by rewrite Ew|]. simpl.
      apply rtc_once, alone_step. simpl. by rewrite Eg.
Qed.

Lemma reset_agrees t a b log : settled (t_gate t) = true ->
  rtc step (alone t RBackend a b log) (mkSys (finish_reset t) [Finished] a (b + 1) log).
Proof.
  intros Hs. eapply rtc_l; [by apply alone_step|]. eapply rtc_l; [apply alone_step; simpl; by rewrite Hs|]. simpl.
  eapply rtc_l; [by apply alone_step|]. eapply rtc_l; [by apply alone_step|]. apply rtc_once.
  exact (st_thread (alone _ RPublish a b log) 0 RPublish Finished _ eq_refl eq_refl).
Qed.

(** Undisturbed, the phases are the code's functions: what a register
    write leaves to do, an interrupt in either form, and an access to the
    message table each run to their end, none panics, and they leave the
    device as the function that runs them in one go does. *)
Theorem phases_agree t a b log :
  t_ok pm t ->
  (forall tl, (tl = FinishReset -> settled (t_gate t) = true) ->
    exists t' s', run_tail tl t = Some t' /\ rtc step (mkSys t (thread_of tl) a b log) s' /\
      s_t s' = t' /\ Forall (eq Finished) (s_threads s')) /\
  (forall acc, exists t' log', msix_access acc t = Some t' /\
    rtc step (mkSys t [Sampled (g_session (t_gate t)) acc] a b log) (mkSys t' [Finished] a b log')).
Proof.
  intros Ht. split; [|intros acc; apply access_agrees]. intros [|n idx|n|] Hf; simpl.
  - exists t, (mkSys t [] a b log). by split_and!.
  - destruct (raise_agrees n (EvQueue idx) t a b log Ht) as (t' & log' & Hr & Hs).
    exists t', (alone t' Finished a b log'). split_and!; try done. by repeat constructor.
  - destruct (raise_agrees n EvConfig t a b log Ht) as (t' & log' & Hr & Hs).
    exists t', (alone t' Finished a b log'). split_and!; try done. by repeat constructor.
  - eexists _, _. split_and!; [done|by apply reset_agrees, Hf|done|by repeat constructor].
Qed.

End system.
End vpci_intr.

(** ** Traces *)

Module vpci_intr_demo.
Import mapping guestmem queue vpci vpci_inv vpci_demo vpci_intr.

(** What a scheduler does next with the device of [vpci_demo]. *)
Inductive cmd : Type := Go (i : nat) | Raise (n : Z) (e : event) | Access (a : MsixWrite) | Write (offset val : Z).

Definition exec (c : cmd) (s : @sys Z) : option (@sys Z) :=
  match c with
  | Go i => let* th := s_threads s !! i in let* r := advance th s in
      Some (mkSys (s_t r.2) (<[i := r.1]> (s_threads s)) (s_started r.2) (s_published r.2) (s_log r.2))
  | Raise n e => Some (put (s_t s) (s_threads s ++ [Named n e]) s)
  | Access a => Some (put (s_t s) (s_threads s ++ [Sampled (g_session (t_gate (s_t s))) a]) s)
  | Write offset val => let* r := modern_bar_write queue_thm.ram offset val 4 (s_t s) still in Some (spawn r.1.1 r.1.2 s)
  end.

Fixpoint execs (l : list cmd) (s : @sys Z) : option (@sys Z) :=
  match l with [] => Some s | c :: l => let* s := exec c s in execs l s end.

Definition cmd_ok (c : cmd) : Prop := match c with Access a => val_ok a | Write _ v => uint 32 v | _ => True end.

Lemma execs_steps l s s' : Forall cmd_ok l -> execs l s = Some s' -> rtc (step queue_thm.ram) s s'.
Proof.
  revert s. induction l as [|c l IH]; intros s Hl He; simpl in He; [injection He as ->; apply rtc_refl|].
  apply Forall_cons in Hl as [Hc Hl]. apply bind_Some in He as (s1 & H1 & He). eapply rtc_l; [|by apply (IH s1)].
  destruct c as [i|n e|a|o v]; simpl in H1.
  - apply bind_Some in H1 as (th & Hi & H1). apply bind_Some in H1 as ([th' s2] & Ha & [= <-]). by apply (st_thread _ s i th).
  - injection H1 as <-. apply st_raise.
  - injection H1 as <-. by apply st_unmask.
  - apply bind_Some in H1 as ([[t' a] w'] & Hw & [= <-]). by eapply st_modern.
Qed.

Definition none : @sys Z := start filler.

(** A driver enables messages, gives queue 0 the masked vector 0 and a
    message; an interrupt is held back; the driver resets the device and,
    before the reset has thrown the message away, unmasks the vector. *)
Definition held : list cmd :=
  [Access (CapWrite 0x40 0x80000000); Go 0; Access (TableWrite 8 0x55); Go 1; Write 0x16 0; Write 0x1A 0;
   Raise 0 (EvQueue 0); Go 2; Go 2; Go 2; Go 2; Go 2].
Definition crossed : list cmd := [Write 0x14 0; Access (TableWrite 12 0); Go 4].
Definition to_publish : list cmd := [Go 3; Go 3; Go 3; Go 3].
Definition late : list cmd := [Go 3; Go 4; Go 4].

Definition s_held : @sys Z := default none (execs held (start dev0)).
Definition s_crossed : @sys Z := default none (execs crossed s_held).
Definition s_publish : @sys Z := default none (execs to_publish s_crossed).
Definition s_late : @sys Z := default none (execs late s_publish).

Lemma held_runs : rtc (step queue_thm.ram) (start dev0) s_held.
Proof. apply (execs_steps held); [by repeat constructor|]. vm_compute. reflexivity. Qed.
Lemma crossed_runs : rtc (step queue_thm.ram) s_held s_crossed.
Proof. apply (execs_steps crossed); [by repeat constructor|]. vm_compute. reflexivity. Qed.
Lemma publish_runs : rtc (step queue_thm.ram) s_crossed s_publish.
Proof. apply (execs_steps to_publish); [by repeat constructor|]. vm_compute. reflexivity. Qed.
Lemma late_runs : rtc (step queue_thm.ram) s_publish s_late.
Proof. apply (execs_steps late); [by repeat constructor|]. vm_compute. reflexivity. Qed.

Lemma to_s_publish : rtc (step queue_thm.ram) (start dev0) s_publish.
Proof. transitivity s_held; [exact held_runs|]. transitivity s_crossed; [exact crossed_runs|exact publish_runs]. Qed.

(** A message the last driver left pending can reach the next one. An
    unmask between the end of the session and the clearing of the pending
    bits takes the old message under the new session's number, and the gate
    admits it once the reset has published. *)
Theorem stale_message_released :
  rtc (step queue_thm.ram) (start dev0) s_held /\
  (exists m, t_msix (s_t s_held) = Some m /\ msix.pending m 0 = true) /\ s_started s_held = 0 /\
  t_sent (s_t s_held) = [] /\
  rtc (step queue_thm.ram) s_held s_late /\
  s_published s_late = 1 /\ status (t_vs (s_t s_late)) = 0 /\ t_sent (s_t s_late) = [(0, 0x55)] /\ s_log s_late = [(1, 1)].
Proof.
  split; [exact held_runs|]. split; [|split; [vm_compute; reflexivity|split; [vm_compute; reflexivity|split]]].
  - destruct (t_msix (s_t s_held)) as [m|] eqn:E; [|by vm_compute in E]. exists m. split; [done|].
    vm_compute in E. injection E as <-. reflexivity.
  - transitivity s_crossed; [exact crossed_runs|]. transitivity s_publish; [exact publish_runs|exact late_runs].
  - split_and!; vm_compute; reflexivity.
Qed.

Lemma deliveries_in_session_witness :
  s_log s_late = [(1, 1)] /\ forall named done, (named, done) ∈ s_log s_late -> named = done.
Proof.
  split; [vm_compute; reflexivity|].
  refine (proj1 (deliveries_in_session queue_thm.ram _ _ _ _ _ _ _ _ _ _ _ s_late dev0_new ltac:(done) dev0_table _ _)).
  - transitivity s_publish; [exact to_s_publish|exact late_runs].
  - split; vm_compute; reflexivity.
Defined.

(** A driver sets both feature selectors, queue 1 and one of its rings, and
    resets the device. *)
Definition used : list cmd := [Write 0x00 1; Write 0x08 1; Write 0x16 1; Write 0x20 0x5000; Write 0x14 0; Go 0; Go 0; Go 0; Go 0].
Definition s_used : @sys Z := default none (execs used (start dev0)).

Lemma used_runs : rtc (step queue_thm.ram) (start dev0) s_used.
Proof. apply (execs_steps used); [by repeat constructor|]. vm_compute. reflexivity. Qed.

Lemma reset_publishes_clean_witness :
  s_threads s_used = [RPublish] /\
  exists s', advance RPublish s_used = Some (Finished, s') /\ queue_select (t_vs (s_t s')) = 0 /\
    device_feature_select (t_vs (s_t s')) = 0 /\ clean (s_t s').
Proof.
  split; [vm_compute; reflexivity|].
  destruct (reset_publishes_clean queue_thm.ram _ _ _ _ _ _ _ _ _ _ _ s_used 0 dev0_new ltac:(done) dev0_table used_runs)
    as (s' & qs & Ha & Hv & _ & _ & _ & _ & _ & Hc & _).
  - split; vm_compute; reflexivity.
  - vm_compute. reflexivity.
  - exists s'. split; [exact Ha|]. rewrite Hv. split; [reflexivity|split; [reflexivity|exact Hc]].
Defined.

(** A reset that finds a delivery admitted. *)
Definition busy : list cmd := [Raise 0 (EvQueue 0); Go 0; Write 0x14 0; Go 1].
Definition s_busy : @sys Z := default none (execs busy (start dev0)).

Lemma busy_runs : rtc (step queue_thm.ram) (start dev0) s_busy.
Proof. apply (execs_steps busy); [by repeat constructor|]. vm_compute. reflexivity. Qed.

Lemma reset_ends_witness :
  s_threads s_busy = [Passed 0 (EvQueue 0); RSettle] /\
  exists s', rtc (step queue_thm.ram) s_busy s' /\ s_published s' = s_published s_busy + 1.
Proof.
  split; [vm_compute; reflexivity|].
  destruct (reset_ends queue_thm.ram _ _ _ _ _ _ _ _ _ _ _ s_busy dev0_new ltac:(done) dev0_table busy_runs)
    as (_ & _ & _ & s' & Hr & Hp & _).
  - split; vm_compute; reflexivity.
  - vm_compute. reflexivity.
  - exists s'. split; [exact Hr|exact Hp].
Defined.

Lemma phases_agree_witness :
  exists t' log', msix_access (CapWrite 0x40 0x80000000) dev0 = Some t' /\
    rtc (step queue_thm.ram) (mkSys dev0 [Sampled (g_session (t_gate dev0)) (CapWrite 0x40 0x80000000)] 0 0 []) (mkSys t' [Finished] 0 0 log').
Proof. exact (proj2 (phases_agree queue_thm.ram dev0 0 0 [] dev0_ok) (CapWrite 0x40 0x80000000)). Defined.

End vpci_intr_demo.
