(* ===== verification/Aml.v ===== *)
(** * AML byte code

    [crates/vmm-devices/src/aml.rs]: the builder the DSDT is written with,
    each method a function from the buffer to the buffer, a closure a function
    on the inner buffer; and a reader of the same constructs after ACPI 6.5
    sec 20.2, which gives back what was built. [None] is a panic in the
    builder and a malformed table in the reader. *)

From S2P Require Import Prelude.
From Stdlib Require Ascii String.

Module aml.

(** The bytes of a string literal. *)
Fixpoint s2b (s : String.string) : list Z :=
  match s with
  | String.EmptyString => []
  | String.String c s => Z.of_N (Ascii.N_of_ascii c) :: s2b s
  end.
Delimit Scope string_scope with string.
#[global] Arguments s2b s%_string.

Definition AML_SCOPE_OP : Z := 0x10.
Definition AML_NAME_OP : Z := 0x08.
Definition AML_METHOD_OP : Z := 0x14.
Definition AML_EXT_PREFIX : Z := 0x5B.
Definition AML_DEVICE_OP : Z := 0x82.
Definition AML_PACKAGE_OP : Z := 0x12.
Definition AML_RETURN_OP : Z := 0xA4.
Definition AML_STORE_OP : Z := 0x70.
Definition AML_ARG0 : Z := 0x68.
Definition AML_ZERO_OP : Z := 0x00.
Definition AML_ONE_OP : Z := 0x01.
Definition AML_BYTE_PREFIX : Z := 0x0A.
Definition AML_WORD_PREFIX : Z := 0x0B.
Definition AML_DWORD_PREFIX : Z := 0x0C.
Definition AML_QWORD_PREFIX : Z := 0x0E.
Definition AML_STRING_PREFIX : Z := 0x0D.
Definition AML_BUFFER_OP : Z := 0x11.
Definition AML_ROOT_PREFIX : Z := 0x5C.
Definition AML_PARENT_PREFIX : Z := 0x5E.
Definition AML_DUAL_NAME_PREFIX : Z := 0x2E.
Definition AML_MULTI_NAME_PREFIX : Z := 0x2F.
Definition ACPI_RES_END_TAG : Z := 0x79.

(** ** The builder *)

(** [Aml]: the bytes so far. *)
Definition Aml : Type := list Z.

Inductive AmlValue : Type :=
| Zero
| One
| Byte (v : Z)
| Word (v : Z)
| DWord (v : Z)
| QWord (v : Z)
| VString (s : list Z).

Definition len (l : list Z) : Z := Z.of_nat (List.length l).

Definition encode_pkg_length (length : Z) : list Z :=
  if length <? 63 then [as_u 8 length]
  else if length <? 0xFFF then [Z.lor (as_u 8 (Z.land length 0x0F)) 0x40; as_u 8 (Z.land (Z.shiftr length 4) 0xFF)]
  else if length <? 0xFFFFF then
    [Z.lor (as_u 8 (Z.land length 0x0F)) 0x80; as_u 8 (Z.land (Z.shiftr length 4) 0xFF); as_u 8 (Z.land (Z.shiftr length 12) 0xFF)]
  else
    [Z.lor (as_u 8 (Z.land length 0x0F)) 0xC0; as_u 8 (Z.land (Z.shiftr length 4) 0xFF);
     as_u 8 (Z.land (Z.shiftr length 12) 0xFF); as_u 8 (Z.land (Z.shiftr length 20) 0xFF)].

Definition pkg_length_size (content_len : Z) : Z :=
  if content_len + 1 <? 63 then 1 else if content_len + 2 <? 0xFFF then 2 else if content_len + 3 <? 0xFFFFF then 3 else 4.

(** A package: its length and its content. *)
Definition package (content : list Z) : list Z :=
  encode_pkg_length (pkg_length_size (len content) + len content) ++ content.

Definition encode_name_seg (name : list Z) : option (list Z) :=
  if (0 <? len name) && (len name <=? 4) then Some (name ++ replicate (4 - List.length name) 0x5F) else None.

(** [split('.')]: never empty. *)
Fixpoint split_dot (name : list Z) : list (list Z) :=
  match name with
  | [] => [[]]
  | c :: name =>
      if c =? 0x2E then [] :: split_dot name
      else match split_dot name with seg :: segs => (c :: seg) :: segs | [] => [[c]] end
  end.

(** The [while] over parent prefixes. *)
Fixpoint strip_parents (name : list Z) : list Z * list Z :=
  match name with
  | c :: rest => if c =? 0x5E then let '(p, n) := strip_parents rest in (AML_PARENT_PREFIX :: p, n) else ([], name)
  | [] => ([], [])
  end.

Definition strip_root (name : list Z) : list Z * list Z :=
  match name with
  | c :: rest => if c =? 0x5C then ([AML_ROOT_PREFIX], rest) else ([], name)
  | [] => ([], [])
  end.

Definition encode_name_string (name : list Z) : option (list Z) :=
  let '(root, name) := strip_root name in
  let '(parents, name) := strip_parents name in
  let result := root ++ parents in
  match name with
  | [] => Some (result ++ [0x00])
  | _ =>
      let segments := split_dot name in
      let* segs := mapM encode_name_seg segments in
      match segs with
      | [s] => Some (result ++ s)
      | [s1; s2] => Some (result ++ [AML_DUAL_NAME_PREFIX] ++ s1 ++ s2)
      | _ => Some (result ++ [AML_MULTI_NAME_PREFIX; as_u 8 (Z.of_nat (List.length segments))] ++ concat segs)
      end
  end.

Definition encode_value (val : AmlValue) : list Z :=
  match val with
  | Zero => [AML_ZERO_OP]
  | One => [AML_ONE_OP]
  | Byte v => [AML_BYTE_PREFIX; v]
  | Word v => AML_WORD_PREFIX :: le_bytes 2 v
  | DWord v => AML_DWORD_PREFIX :: le_bytes 4 v
  | QWord v => AML_QWORD_PREFIX :: le_bytes 8 v
  | VString s => AML_STRING_PREFIX :: s ++ [0x00]
  end.

Definition scope (name : list Z) (body : Aml -> option Aml) (buf : Aml) : option Aml :=
  let* inner := body [] in
  let* name_bytes := encode_name_string name in
  Some (buf ++ AML_SCOPE_OP :: package (name_bytes ++ inner)).

Definition device (name : list Z) (body : Aml -> option Aml) (buf : Aml) : option Aml :=
  let* inner := body [] in
  let* name_bytes := encode_name_string name in
  Some (buf ++ AML_EXT_PREFIX :: AML_DEVICE_OP :: package (name_bytes ++ inner)).

Definition method_flags (args : Z) (serialized : bool) : Z := Z.lor (Z.land args 0x07) (if serialized then 0x08 else 0x00).

Definition method (name : list Z) (args : Z) (serialized : bool) (body : Aml -> option Aml) (buf : Aml) : option Aml :=
  let* inner := body [] in
  let* name_bytes := encode_name_string name in
  Some (buf ++ AML_METHOD_OP :: package (name_bytes ++ [method_flags args serialized] ++ inner)).

Definition name_val (name : list Z) (val : AmlValue) (buf : Aml) : option Aml :=
  let* name_bytes := encode_name_string name in
  Some (buf ++ AML_NAME_OP :: name_bytes ++ encode_value val).

Definition package_body (elements : list AmlValue) : list Z :=
  as_u 8 (Z.of_nat (List.length elements)) :: concat (encode_value <$> elements).

Definition name_package (name : list Z) (elements : list AmlValue) (buf : Aml) : option Aml :=
  let* name_bytes := encode_name_string name in
  Some (buf ++ AML_NAME_OP :: name_bytes ++ AML_PACKAGE_OP :: package (package_body elements)).

Definition name_nested_packages (name : list Z) (packages : list (list AmlValue)) (buf : Aml) : option Aml :=
  let* name_bytes := encode_name_string name in
  let outer := as_u 8 (Z.of_nat (List.length packages)) ::
                 concat ((fun elements => AML_PACKAGE_OP :: package (package_body elements)) <$> packages) in
  Some (buf ++ AML_NAME_OP :: name_bytes ++ AML_PACKAGE_OP :: package outer).

Definition name_resource_template (name : list Z) (body : Aml -> option Aml) (buf : Aml) : option Aml :=
  let* inner := body [] in
  let res := inner ++ [ACPI_RES_END_TAG; 0x00] in
  let* name_bytes := encode_name_string name in
  Some (buf ++ AML_NAME_OP :: name_bytes ++ AML_BUFFER_OP :: package (encode_value (DWord (as_u 32 (len res))) ++ res)).

Definition io_resource (min max align length : Z) (buf : Aml) : option Aml :=
  Some (buf ++ [0x47; 0x01] ++ le_bytes 2 min ++ le_bytes 2 max ++ [align; length]).

Definition irq_no_flags (irq : Z) (buf : Aml) : option Aml :=
  if irq <? 16 then Some (buf ++ [0x22] ++ le_bytes 2 (as_u 16 (Z.shiftl 1 irq))) else None.

Definition memory32_fixed (addr length : Z) (buf : Aml) : option Aml :=
  Some (buf ++ [0x86] ++ le_bytes 2 9 ++ [0x01] ++ le_bytes 4 addr ++ le_bytes 4 length).

Definition word_space (rtype tflags min max length : Z) : list Z :=
  [0x88] ++ le_bytes 2 13 ++ [rtype; 0x0C; tflags] ++ le_bytes 2 0 ++ le_bytes 2 min ++ le_bytes 2 max ++ le_bytes 2 0 ++ le_bytes 2 length.

Definition word_bus_number (min max length : Z) (buf : Aml) : option Aml := Some (buf ++ word_space 0x02 0x00 min max length).
Definition word_io (min max length : Z) (buf : Aml) : option Aml := Some (buf ++ word_space 0x01 0x03 min max length).

Definition dword_memory (min max length : Z) (buf : Aml) : option Aml :=
  Some (buf ++ [0x87] ++ le_bytes 2 23 ++ [0x00; 0x0C; 0x01] ++ le_bytes 4 0 ++ le_bytes 4 min ++ le_bytes 4 max ++
        le_bytes 4 0 ++ le_bytes 4 length).

Definition return_name (name : list Z) (buf : Aml) : option Aml :=
  let* name_bytes := encode_name_string name in Some (buf ++ AML_RETURN_OP :: name_bytes).

Definition return_val (val : AmlValue) (buf : Aml) : option Aml := Some (buf ++ AML_RETURN_OP :: encode_value val).

Definition store_arg0 (name : list Z) (buf : Aml) : option Aml :=
  let* name_bytes := encode_name_string name in Some (buf ++ AML_STORE_OP :: AML_ARG0 :: name_bytes).

(** [u16::from_str_radix(_, 16)] on four characters; a sign is accepted in
    front, as the library does. *)
Definition hex_digit (c : Z) : option Z :=
  if (0x30 <=? c) && (c <=? 0x39) then Some (c - 0x30)
  else if (0x41 <=? c) && (c <=? 0x46) then Some (c - 0x37)
  else if (0x61 <=? c) && (c <=? 0x66) then Some (c - 0x57)
  else None.

Definition hex_value (l : list Z) : option Z :=
  foldl (fun acc c => let* a := acc in let* d := hex_digit c in Some (a * 16 + d)) (Some 0) l.

Definition from_str_radix_16 (l : list Z) : option Z :=
  match l with
  | c :: rest => if c =? 0x2B then hex_value rest else hex_value l
  | [] => None
  end.

Definition eisa_id (id : list Z) : option Z :=
  match id with
  | [b0; b1; b2; b3; b4; b5; b6] =>
      let c b := Z.land (wsub 8 b 0x40) 0x1F in
      let mfg := Z.lor (Z.lor (Z.shiftl (c b0) 10) (Z.shiftl (c b1) 5)) (c b2) in
      let* product := from_str_radix_16 [b3; b4; b5; b6] in
      Some (le_val [as_u 8 (Z.shiftr mfg 8); as_u 8 (Z.land mfg 0xFF); as_u 8 (Z.shiftr product 8); as_u 8 (Z.land product 0xFF)])
  | _ => None
  end.

(** One statement after another. *)
Definition then_ (b1 b2 : Aml -> option Aml) (buf : Aml) : option Aml := let* buf := b1 buf in b2 buf.

(** ** The reader *)

(** A name: the root and parent prefixes, and the segments. *)
Definition NameRef : Type := (list Z * list (list Z))%type.

Inductive resource : Type :=
| RIo (min max align length : Z)
| RIrq (mask : Z)
| RMemory32 (addr length : Z)
| RBusNumber (min max length : Z)
| RWordIo (min max length : Z)
| RDWordMemory (min max length : Z).

Inductive data : Type :=
| DVal (v : AmlValue)
| DPackage (l : list data)
| DBuffer (l : list resource).

Inductive obj : Type :=
| OScope (n : NameRef) (body : list obj)
| ODevice (n : NameRef) (body : list obj)
| OMethod (n : NameRef) (flags : Z) (body : list obj)
| OName (n : NameRef) (d : data)
| OReturnName (n : NameRef)
| OReturnVal (v : AmlValue)
| OStoreArg0 (n : NameRef).

(** PkgLength: the value and what follows; the two top bits of the first
    byte count the bytes after it. *)
Definition read_pkg_length (bs : list Z) : option (Z * Z * list Z) :=
  match bs with
  | [] => None
  | lead :: bs =>
      let follow := Z.shiftr lead 6 in
      if follow =? 0 then Some (Z.land lead 0x3F, 1, bs)
      else if negb (Z.land lead 0x30 =? 0) then None
      else if len bs <? follow then None
      else Some (Z.land lead 0x0F + 16 * le_val (take (Z.to_nat follow) bs), follow + 1, drop (Z.to_nat follow) bs)
  end.

(** A package: its content and what follows. *)
Definition read_package (bs : list Z) : option (list Z * list Z) :=
  let* '(length, size, bs) := read_pkg_length bs in
  if (length <? size) || (len bs <? length - size) then None
  else Some (take (Z.to_nat (length - size)) bs, drop (Z.to_nat (length - size)) bs).

Definition is_name_char (b : Z) (lead : bool) : bool :=
  (b =? 0x5F) || ((0x41 <=? b) && (b <=? 0x5A)) || (negb lead && (0x30 <=? b) && (b <=? 0x39)).

Definition seg_valid (seg : list Z) : bool :=
  match seg with
  | c :: rest => is_name_char c true && forallb (fun b => is_name_char b false) rest
  | [] => false
  end.

Definition read_seg (bs : list Z) : option (list Z * list Z) :=
  let seg := take 4 bs in
  if (len seg =? 4) && seg_valid seg then Some (seg, drop 4 bs) else None.

(** [n] items one after another. *)
Fixpoint read_n {A} (rd : list Z -> option (A * list Z)) (n : nat) (bs : list Z) : option (list A * list Z) :=
  match n with
  | O => Some ([], bs)
  | S n => let* '(a, bs) := rd bs in let* '(l, bs) := read_n rd n bs in Some (a :: l, bs)
  end.

Fixpoint read_prefixes (bs : list Z) : list Z * list Z :=
  match bs with
  | c :: rest => if (c =? 0x5C) || (c =? 0x5E) then let '(p, r) := read_prefixes rest in (c :: p, r) else ([], bs)
  | [] => ([], [])
  end.

Definition read_name (bs : list Z) : option (NameRef * list Z) :=
  let '(pre, bs) := read_prefixes bs in
  match bs with
  | [] => None
  | c :: rest =>
      if c =? 0x00 then Some ((pre, []), rest)
      else
        let* '(segs, rest) :=
          if c =? AML_DUAL_NAME_PREFIX then read_n read_seg 2 rest
          else if c =? AML_MULTI_NAME_PREFIX then
            match rest with n :: rest => if n =? 0 then None else read_n read_seg (Z.to_nat n) rest | [] => None end
          else read_n read_seg 1 bs in
        Some ((pre, segs), rest)
  end.

(** Up to the NUL. *)
Fixpoint read_string (bs : list Z) : option (list Z * list Z) :=
  match bs with
  | [] => None
  | c :: rest => if c =? 0 then Some ([], rest) else let* '(s, rest) := read_string rest in Some (c :: s, rest)
  end.

Definition read_int (n : nat) (bs : list Z) : option (Z * list Z) :=
  if len bs <? Z.of_nat n then None else Some (le_val (take n bs), drop n bs).

Definition is_value_lead (c : Z) : bool :=
  (c =? AML_ZERO_OP) || (c =? AML_ONE_OP) || ((AML_BYTE_PREFIX <=? c) && (c <=? AML_QWORD_PREFIX)).

Definition read_value (bs : list Z) : option (AmlValue * list Z) :=
  match bs with
  | [] => None
  | c :: bs =>
      if c =? AML_ZERO_OP then Some (Zero, bs)
      else if c =? AML_ONE_OP then Some (One, bs)
      else if c =? AML_BYTE_PREFIX then let* '(v, bs) := read_int 1 bs in Some (Byte v, bs)
      else if c =? AML_WORD_PREFIX then let* '(v, bs) := read_int 2 bs in Some (Word v, bs)
      else if c =? AML_DWORD_PREFIX then let* '(v, bs) := read_int 4 bs in Some (DWord v, bs)
      else if c =? AML_QWORD_PREFIX then let* '(v, bs) := read_int 8 bs in Some (QWord v, bs)
      else if c =? AML_STRING_PREFIX then let* '(s, bs) := read_string bs in Some (VString s, bs)
      else None
  end.

Definition int_value (v : AmlValue) : option Z :=
  match v with Zero => Some 0 | One => Some 1 | Byte v | Word v | DWord v | QWord v => Some v | VString _ => None end.

(** [n] bytes at [o]. *)
Definition field (bs : list Z) (o n : nat) : Z := le_val (take n (drop o bs)).

(** One descriptor (ACPI 6.5 sec 6.4): the fields the builder leaves at a
    constant must have it. *)
Definition read_resource (bs : list Z) : option (resource * list Z) :=
  let f := field bs in
  let tag := f 0%nat 1%nat in
  if (tag =? 0x47) && (8 <=? len bs) && (f 1%nat 1%nat =? 1) then
    Some (RIo (f 2%nat 2%nat) (f 4%nat 2%nat) (f 6%nat 1%nat) (f 7%nat 1%nat), drop 8 bs)
  else if (tag =? 0x22) && (3 <=? len bs) then Some (RIrq (f 1%nat 2%nat), drop 3 bs)
  else if (tag =? 0x86) && (12 <=? len bs) && (f 1%nat 2%nat =? 9) && (f 3%nat 1%nat =? 1) then
    Some (RMemory32 (f 4%nat 4%nat) (f 8%nat 4%nat), drop 12 bs)
  else if (tag =? 0x88) && (16 <=? len bs) && (f 1%nat 2%nat =? 13) && (f 4%nat 1%nat =? 0x0C) && (f 6%nat 2%nat =? 0) && (f 12%nat 2%nat =? 0) then
    if (f 3%nat 1%nat =? 2) && (f 5%nat 1%nat =? 0) then Some (RBusNumber (f 8%nat 2%nat) (f 10%nat 2%nat) (f 14%nat 2%nat), drop 16 bs)
    else if (f 3%nat 1%nat =? 1) && (f 5%nat 1%nat =? 3) then Some (RWordIo (f 8%nat 2%nat) (f 10%nat 2%nat) (f 14%nat 2%nat), drop 16 bs)
    else None
  else if (tag =? 0x87) && (26 <=? len bs) && (f 1%nat 2%nat =? 23) && (f 3%nat 1%nat =? 0) && (f 4%nat 1%nat =? 0x0C) && (f 5%nat 1%nat =? 1) &&
          (f 6%nat 4%nat =? 0) && (f 18%nat 4%nat =? 0) then
    Some (RDWordMemory (f 10%nat 4%nat) (f 14%nat 4%nat) (f 22%nat 4%nat), drop 26 bs)
  else None.

(** Descriptors up to the end tag, which ends the buffer. *)
Fixpoint read_resources (fuel : nat) (bs : list Z) : option (list resource) :=
  match fuel with
  | O => None
  | S fuel =>
      if (field bs 0 1 =? ACPI_RES_END_TAG) && (len bs =? 2) then Some []
      else let* '(r, bs) := read_resource bs in let* l := read_resources fuel bs in Some (r :: l)
  end.

Fixpoint read_data (fuel : nat) (bs : list Z) : option (data * list Z) :=
  match fuel, bs with
  | S fuel, c :: rest =>
      if c =? AML_PACKAGE_OP then
        let* '(content, rest) := read_package rest in
        match content with
        | n :: elements =>
            let* '(l, extra) := read_n (read_data fuel) (Z.to_nat n) elements in
            match extra with [] => Some (DPackage l, rest) | _ => None end
        | [] => None
        end
      else if c =? AML_BUFFER_OP then
        let* '(content, rest) := read_package rest in
        let* '(v, body) := read_value content in
        let* size := int_value v in
        if size =? len body then let* l := read_resources (List.length body) body in Some (DBuffer l, rest) else None
      else let* '(v, rest) := read_value bs in Some (DVal v, rest)
  | _, _ => None
  end.

(** One object; [rec] reads the objects in its body. *)
Definition read_obj (rec : list Z -> option (list obj)) (bs : list Z) : option (obj * list Z) :=
  match bs with
  | [] => None
  | c :: rest =>
      if c =? AML_SCOPE_OP then
        let* '(content, rest) := read_package rest in
        let* '(n, body) := read_name content in let* l := rec body in Some (OScope n l, rest)
      else if c =? AML_EXT_PREFIX then
        match rest with
        | c2 :: rest =>
            if c2 =? AML_DEVICE_OP then
              let* '(content, rest) := read_package rest in
              let* '(n, body) := read_name content in let* l := rec body in Some (ODevice n l, rest)
            else None
        | [] => None
        end
      else if c =? AML_METHOD_OP then
        let* '(content, rest) := read_package rest in
        let* '(n, body) := read_name content in
        match body with flags :: body => let* l := rec body in Some (OMethod n flags l, rest) | [] => None end
      else if c =? AML_NAME_OP then
        let* '(n, rest) := read_name rest in
        let* '(d, rest) := read_data (List.length rest) rest in Some (OName n d, rest)
      else if c =? AML_RETURN_OP then
        match rest with
        | v :: _ =>
            if is_value_lead v then let* '(v, rest) := read_value rest in Some (OReturnVal v, rest)
            else let* '(n, rest) := read_name rest in Some (OReturnName n, rest)
        | [] => None
        end
      else if c =? AML_STORE_OP then
        match rest with
        | a :: rest => if a =? AML_ARG0 then let* '(n, rest) := read_name rest in Some (OStoreArg0 n, rest) else None
        | [] => None
        end
      else None
  end.

Fixpoint read_objs (fuel : nat) (bs : list Z) : option (list obj) :=
  match bs, fuel with
  | [], _ => Some []
  | _, O => None
  | _, S fuel => let* '(o, rest) := read_obj (read_objs fuel) bs in let* l := read_objs fuel rest in Some (o :: l)
  end.

Definition read_aml (bs : list Z) : option (list obj) := read_objs (List.length bs) bs.

(** ** Lengths *)

Lemma len_app a b : len (a ++ b) = len a + len b.
Proof. unfold len. rewrite length_app. lia. Qed.

Lemma len_cons x l : len (x :: l) = len l + 1.
Proof. unfold len. simpl. lia. Qed.

Lemma len_nonneg l : 0 <= len l.
Proof. unfold len. lia. Qed.

(** Bytes, computed. *)
Definition bytesb (l : list Z) : bool := forallb (fun b => (0 <=? b) && (b <? 256)) l.

Lemma bytesb_spec l : bytesb l = true -> is_bytes l.
Proof.
  intros H. unfold bytesb in H. rewrite List.forallb_forall in H. apply Forall_forall. intros b Hb%list_elem_of_In. specialize (H b Hb).
  unfold uint. lia.
Qed.

Lemma take_len (l rest : list Z) : take (List.length l) (l ++ rest) = l.
Proof. apply take_app_length. Qed.

Lemma byte_of x k : 0 <= x -> 0 <= k -> as_u 8 (Z.land (Z.shiftr x k) 0xFF) = x / 2 ^ k mod 256.
Proof.
  intros Hx Hk. unfold as_u. change 0xFF with (Z.ones 8). rewrite Z.land_ones, Z.shiftr_div_pow2 by lia.
  apply Z.mod_mod. lia.
Qed.

(** The low nibble under a two-bit tag. *)
Lemma lead_byte x tag : 0 <= x -> 0 < tag < 4 ->
  let b := Z.lor (as_u 8 (Z.land x 0x0F)) (tag * 64) in
  Z.shiftr b 6 = tag /\ Z.land b 0x30 = 0 /\ Z.land b 0x0F = x mod 16.
Proof.
  intros Hx Ht b.
  assert (Hb : b = tag * 2 ^ 6 + x mod 16).
  { pose proof (Z.mod_pos_bound x 16 ltac:(lia)) as Hm. unfold b, as_u. change 0x0F with (Z.ones 4). rewrite Z.land_ones by lia.
    change (2 ^ 4) with 16. change (2 ^ 8) with 256. rewrite (Z.mod_small (x mod 16)) by lia.
    rewrite Z.lor_comm. apply (lor_shift_add 6); [lia|]. unfold uint. lia. }
  pose proof (Z.mod_pos_bound x 16 ltac:(lia)) as Hm. rewrite Hb. split_and!.
  - rewrite Z.shiftr_div_pow2 by lia. rewrite Z.div_add_l by lia. rewrite (Z.div_small (x mod 16)) by lia. lia.
  - set (r := x mod 16) in *. clearbody r. clear -Ht Hm.
    assert (Htag : tag = 1 \/ tag = 2 \/ tag = 3) by lia.
    assert (Hr : In r [0; 1; 2; 3; 4; 5; 6; 7; 8; 9; 10; 11; 12; 13; 14; 15]) by (simpl; lia). simpl in Hr.
    destruct Htag as [->|[->| ->]]; repeat (destruct Hr as [<-|Hr]; [reflexivity|]); destruct Hr.
  - change 0x0F with (Z.ones 4). rewrite Z.land_ones by lia. rewrite Z.add_mod by lia.
    change (2 ^ 6) with (4 * 16). replace (tag * (4 * 16)) with ((tag * 4) * 2 ^ 4) by lia. rewrite Z.mod_mul by lia.
    rewrite Z.add_0_l, !Z.mod_mod by lia. done.
Qed.

(** What is written as a length is read as that length. *)
Lemma pkg_length_reads n rest : 0 <= n < 2 ^ 28 ->
  exists k, read_pkg_length (encode_pkg_length n ++ rest) = Some (n, k, rest) /\ k = len (encode_pkg_length n) /\
    k = if n <? 63 then 1 else if n <? 0xFFF then 2 else if n <? 0xFFFFF then 3 else 4.
Proof.
  intros Hn. unfold encode_pkg_length.
  assert (Hdm : n = n mod 16 + 16 * (n / 16)) by (pose proof (Z.div_mod n 16 ltac:(lia)); lia).
  assert (Hq : n / 16 = n / 16 mod 256 + 256 * (n / 4096)).
  { pose proof (Z.div_mod (n / 16) 256 ltac:(lia)) as H. rewrite Z.div_div in H by lia. change (16 * 256) with 4096 in H. lia. }
  assert (Hq2 : n / 4096 = n / 4096 mod 256 + 256 * (n / 1048576)).
  { pose proof (Z.div_mod (n / 4096) 256 ltac:(lia)) as H. rewrite Z.div_div in H by lia. change (4096 * 256) with 1048576 in H. lia. }
  pose proof (lead_byte n) as Hlead.
  destruct (Z.ltb_spec n 63); [|destruct (Z.ltb_spec n 0xFFF); [|destruct (Z.ltb_spec n 0xFFFFF)]].
  - exists 1. split_and!; [|done|done]. unfold read_pkg_length. cbn [app].
    rewrite (as_u_small 8 n) by (unfold uint; lia).
    rewrite Z.shiftr_div_pow2 by lia. rewrite (Z.div_small n) by lia. cbn [Z.eqb].
    change 0x3F with (Z.ones 6). rewrite Z.land_ones by lia. by rewrite (Z.mod_small n) by lia.
  - exists 2. split_and!; [|done|done]. destruct (Hlead 1 ltac:(lia) ltac:(lia)) as (E1 & E2 & E3). change (1 * 64) with 0x40 in *.
    unfold read_pkg_length. cbn [app]. rewrite E1, E2, E3, byte_of by lia. simpl.
    replace (len (_ :: rest) <? 1) with false by (symmetry; apply Z.ltb_ge; rewrite len_cons; pose proof (len_nonneg rest); lia).
    rewrite ?drop_0, ?take_0. simpl le_val. do 3 f_equal. change (2 ^ 4) with 16. rewrite Z.add_0_r.
    assert (n / 4096 = 0) by (apply Z.div_small; lia). lia.
  - exists 3. split_and!; [|done|done]. destruct (Hlead 2 ltac:(lia) ltac:(lia)) as (E1 & E2 & E3). change (2 * 64) with 0x80 in *.
    unfold read_pkg_length. cbn [app]. rewrite E1, E2, E3, !byte_of by lia. simpl.
    replace (len _ <? 2) with false by (symmetry; apply Z.ltb_ge; rewrite !len_cons; pose proof (len_nonneg rest); lia).
    rewrite ?drop_0, ?take_0. simpl le_val. do 3 f_equal. change (2 ^ 4) with 16. change (2 ^ 12) with 4096. rewrite Z.add_0_r.
    assert (n / 1048576 = 0) by (apply Z.div_small; lia). lia.
  - exists 4. split_and!; [|done|done]. destruct (Hlead 3 ltac:(lia) ltac:(lia)) as (E1 & E2 & E3). change (3 * 64) with 0xC0 in *.
    unfold read_pkg_length. cbn [app]. rewrite E1, E2, E3, !byte_of by lia. simpl.
    replace (len _ <? 3) with false by (symmetry; apply Z.ltb_ge; rewrite !len_cons; pose proof (len_nonneg rest); lia).
    rewrite ?drop_0, ?take_0. simpl le_val. do 3 f_equal. change (2 ^ 4) with 16. change (2 ^ 12) with 4096. change (2 ^ 20) with 1048576. rewrite Z.add_0_r.
    assert (n / 1048576 < 256) by (apply Z.div_lt_upper_bound; lia).
    rewrite (Z.mod_small (n / 1048576)) by (split; [apply Z.div_pos; lia|done]). lia.
Qed.

Lemma package_reads content rest : len content < 2 ^ 28 - 4 -> read_package (package content ++ rest) = Some (content, rest).
Proof.
  intros Hc. pose proof (len_nonneg content) as H0. unfold package, read_package. rewrite <- app_assoc.
  set (n := pkg_length_size (len content) + len content).
  assert (Hn : 0 <= n < 2 ^ 28) by (unfold n, pkg_length_size; repeat case_match; lia).
  destruct (pkg_length_reads n (content ++ rest) Hn) as (k & -> & _ & Hk). simpl.
  assert (Hkn : n - k = len content).
  { rewrite Hk. unfold n, pkg_length_size. destruct (Z.ltb_spec (len content + 1) 63); [|destruct (Z.ltb_spec (len content + 2) 0xFFF);
      [|destruct (Z.ltb_spec (len content + 3) 0xFFFFF)]]; repeat (match goal with |- context [?a <? ?b] => destruct (Z.ltb_spec a b) end); lia. }
  rewrite Hkn, len_app. pose proof (len_nonneg rest).
  destruct (Z.ltb_spec n k); [lia|]. destruct (Z.ltb_spec (len content + len rest) (len content)); [lia|]. simpl.
  unfold len. rewrite Nat2Z.id, take_app_length, drop_app_length. done.
Qed.

Lemma package_len content : len (package content) = pkg_length_size (len content) + len content.
Proof.
  unfold package. rewrite len_app. f_equal. pose proof (len_nonneg content). unfold encode_pkg_length, pkg_length_size.
  destruct (Z.ltb_spec (len content + 1) 63); [|destruct (Z.ltb_spec (len content + 2) 0xFFF);
    [|destruct (Z.ltb_spec (len content + 3) 0xFFFFF)]]; repeat (match goal with |- context [?a <? ?b] => destruct (Z.ltb_spec a b) end); try lia; done.
Qed.

(** ** Names *)

(** What a name in the source stands for. *)
Definition pad (seg : list Z) : list Z := seg ++ replicate (4 - List.length seg) 0x5F.

Definition name_ref (name : list Z) : NameRef :=
  let '(root, name) := strip_root name in
  let '(parents, name) := strip_parents name in
  (root ++ parents, match name with [] => [] | _ => pad <$> split_dot name end).

Definition seg_ok (seg : list Z) : bool := (0 <? len seg) && (len seg <=? 4) && seg_valid seg.

Definition name_ok (name : list Z) : bool :=
  let '(_, name) := strip_root name in
  let '(_, name) := strip_parents name in
  match name with [] => true | _ => forallb seg_ok (split_dot name) && (Z.of_nat (List.length (split_dot name)) <? 256) end.

Lemma pad_seg seg : seg_ok seg = true -> encode_name_seg seg = Some (pad seg) /\ List.length (pad seg) = 4%nat /\ seg_valid (pad seg) = true.
Proof.
  unfold seg_ok, encode_name_seg. intros [[H1 H2]%andb_true_iff Hv]%andb_true_iff. rewrite H1, H2.
  apply Z.ltb_lt in H1. apply Z.leb_le in H2. unfold len in *.
  split_and!; [done|unfold pad; rewrite length_app, length_replicate; lia|].
  unfold pad. destruct seg as [|c seg]; [done|]. simpl in Hv |- *. apply andb_true_iff in Hv as [-> Hr]. simpl.
  rewrite forallb_app, Hr. simpl. apply forallb_forall. intros x Hx. apply list_elem_of_In, elem_of_replicate in Hx as [-> _]. done.
Qed.

Lemma read_seg_pad seg rest : seg_ok seg = true -> read_seg (pad seg ++ rest) = Some (pad seg, rest).
Proof.
  intros Hs. destruct (pad_seg seg Hs) as (_ & Hl & Hv). unfold read_seg.
  rewrite <- Hl, take_app_length, drop_app_length, Hv. unfold len. by rewrite Hl.
Qed.

Lemma read_segs segs rest : forallb seg_ok segs = true ->
  read_n read_seg (List.length segs) (concat (pad <$> segs) ++ rest) = Some (pad <$> segs, rest).
Proof.
  induction segs as [|seg segs IH]; intros Hs; [done|]. simpl in Hs. apply andb_true_iff in Hs as [H1 H2].
  cbn [List.length fmap list_fmap concat read_n]. rewrite <- app_assoc, read_seg_pad by done. simpl. by rewrite IH.
Qed.

Lemma mapM_segs segs : forallb seg_ok segs = true -> mapM encode_name_seg segs = Some (pad <$> segs).
Proof.
  induction segs as [|seg segs IH]; intros Hs; [done|]. simpl in Hs. apply andb_true_iff in Hs as [H1 H2].
  simpl. destruct (pad_seg seg H1) as (-> & _). simpl. rewrite IH by done. done.
Qed.

Lemma split_dot_nonempty n : split_dot n <> [].
Proof. destruct n as [|c n]; simpl; [done|]. destruct (c =? 0x2E); [done|]. by destruct (split_dot n). Qed.

(** A byte that is no prefix stops the prefixes. *)
Definition stops (bs : list Z) : Prop := match bs with c :: _ => (c =? 0x5C) || (c =? 0x5E) = false | [] => True end.

Lemma read_prefixes_app pre bs :
  Forall (fun c => c = 0x5C \/ c = 0x5E) pre -> stops bs -> read_prefixes (pre ++ bs) = (pre, bs).
Proof.
  induction 1 as [|c pre [-> | ->] _ IH]; intros Hb; simpl.
  - destruct bs as [|c bs]; [done|]. simpl in Hb |- *. by rewrite Hb.
  - by rewrite IH.
  - by rewrite IH.
Qed.

Lemma strip_parents_pre n p n' : strip_parents n = (p, n') -> Forall (fun c => c = 0x5C \/ c = 0x5E) p.
Proof.
  revert p n'. induction n as [|c n IH]; intros p n'; simpl; [by intros [= <- <-]|].
  destruct (c =? 0x5E); [|by intros [= <- <-]]. destruct (strip_parents n) as [p1 n1]. intros [= <- <-].
  constructor; [by right|]. by eapply IH.
Qed.

Lemma strip_root_pre n p n' : strip_root n = (p, n') -> Forall (fun c => c = 0x5C \/ c = 0x5E) p.
Proof. destruct n as [|c n]; simpl; [by intros [= <- <-]|]. destruct (c =? 0x5C); intros [= <- <-]; repeat constructor. Qed.

(** A valid segment starts with none of the bytes that mean something else. *)
Lemma seg_lead seg : seg_ok seg = true -> exists c r, pad seg = c :: r /\ is_name_char c true = true.
Proof.
  intros Hs. destruct (pad_seg seg Hs) as (_ & _ & Hv). destruct (pad seg) as [|c r]; [done|].
  simpl in Hv. apply andb_true_iff in Hv as [Hc _]. eauto.
Qed.

Lemma name_char_not c : is_name_char c true = true ->
  (c =? 0x5C) = false /\ (c =? 0x5E) = false /\ (c =? 0x00) = false /\ (c =? AML_DUAL_NAME_PREFIX) = false /\
  (c =? AML_MULTI_NAME_PREFIX) = false /\ is_value_lead c = false.
Proof.
  unfold is_name_char. cbn [negb andb]. rewrite orb_false_r.
  intros [Hc|[H1 H2]%andb_true_iff]%orb_true_iff; unfold is_value_lead, AML_ZERO_OP, AML_ONE_OP, AML_BYTE_PREFIX, AML_QWORD_PREFIX,
    AML_DUAL_NAME_PREFIX, AML_MULTI_NAME_PREFIX; rewrite ?Z.eqb_eq, ?Z.leb_le in *;
    repeat match goal with |- context [?a =? ?b] => destruct (Z.eqb_spec a b); [lia|] end;
    repeat match goal with |- context [?a <=? ?b] => destruct (Z.leb_spec a b); try lia end; done.
Qed.

Lemma name_reads name : name_ok name = true -> exists nb, encode_name_string name = Some nb /\
  forall rest, read_name (nb ++ rest) = Some (name_ref name, rest).
Proof.
  unfold name_ok, encode_name_string, name_ref. destruct (strip_root name) as [root n1] eqn:E1.
  destruct (strip_parents n1) as [par n2] eqn:E2.
  assert (Hpre : Forall (fun c => c = 0x5C \/ c = 0x5E) (root ++ par)).
  { apply Forall_app. split; [by eapply strip_root_pre|by eapply strip_parents_pre]. }
  destruct n2 as [|c n2].
  { intros _. eexists. split; [done|]. intros rest. unfold read_name. rewrite <- app_assoc, read_prefixes_app by done. done. }
  set (n := c :: n2) in *. intros [Hs Hlt]%andb_true_iff. apply Z.ltb_lt in Hlt.
  rewrite (mapM_segs _ Hs). simpl option_bind. pose proof (split_dot_nonempty n) as Hne.
  pose proof (read_segs _ (@nil Z) Hs) as _. destruct (split_dot n) as [|s1 segs] eqn:Esp; [done|].
  assert (Hs1 : seg_ok s1 = true) by (simpl in Hs; by apply andb_true_iff in Hs as [? _]).
  destruct (seg_lead s1 Hs1) as (c1 & r1 & Hp1 & Hc1). destruct (name_char_not c1 Hc1) as (N1 & N2 & N3 & N4 & N5 & _).
  destruct segs as [|s2 [|s3 segs]].
  - eexists. split; [done|]. intros rest. unfold read_name. rewrite <- app_assoc, read_prefixes_app; [|done|simpl; rewrite Hp1; simpl; by rewrite N1, N2].
    pose proof (read_segs [s1] rest Hs) as Hr. cbn [List.length fmap list_fmap concat] in Hr. rewrite app_nil_r in Hr.
    rewrite Hp1 in *. cbn [app]. rewrite N3, N4, N5. cbn [app] in Hr. rewrite Hr. simpl. by rewrite Hp1.
  - eexists. split; [done|]. intros rest. unfold read_name. rewrite <- app_assoc, read_prefixes_app by done.
    pose proof (read_segs [s1; s2] rest Hs) as Hr. cbn [List.length fmap list_fmap concat] in Hr. rewrite app_nil_r in Hr.
    cbn [app]. simpl (_ =? _). cbv iota. rewrite Hr. done.
  - eexists. split; [done|]. intros rest. unfold read_name. rewrite <- app_assoc, read_prefixes_app by done.
    set (l := s1 :: s2 :: s3 :: segs) in *. pose proof (read_segs l rest Hs) as Hr.
    assert (Hl : 3 <= Z.of_nat (List.length l)) by (unfold l; simpl; lia).
    rewrite (as_u_small 8) by (unfold uint; lia). cbn [app]. simpl (_ =? _). cbv iota.
    destruct (Z.eqb_spec (Z.of_nat (List.length l)) 0); [lia|]. rewrite Nat2Z.id. rewrite Hr. done.
Qed.

(** ** Values, resources and data *)

Definition value_ok (v : AmlValue) : Prop :=
  match v with
  | Zero | One => True
  | Byte v => uint 8 v
  | Word v => uint 16 v
  | DWord v => uint 32 v
  | QWord v => uint 64 v
  | VString s => Forall (fun c => c <> 0) s
  end.

Lemma read_int_le n v rest : uint (8 * Z.of_nat n) v -> read_int n (le_bytes n v ++ rest) = Some (v, rest).
Proof.
  intros Hv. unfold read_int. rewrite len_app. unfold len at 1. rewrite length_le_bytes.
  destruct (Z.ltb_spec (Z.of_nat n + len rest) (Z.of_nat n)); [pose proof (len_nonneg rest); lia|].
  rewrite <- (length_le_bytes n v) at 1 3. rewrite take_app_length, drop_app_length. by rewrite le_val_le_bytes.
Qed.

Lemma read_string_app s rest : Forall (fun c => c <> 0) s -> read_string (s ++ 0 :: rest) = Some (s, rest).
Proof.
  induction 1 as [|c s Hc _ IH]; [done|]. simpl. destruct (Z.eqb_spec c 0); [done|]. by rewrite IH.
Qed.

Lemma value_reads v rest : value_ok v -> read_value (encode_value v ++ rest) = Some (v, rest).
Proof.
  intros Hv. destruct v; simpl in Hv; unfold read_value, encode_value; try done; cbn [app]; simpl (_ =? _); cbv iota.
  - pose proof (read_int_le 1 v rest Hv) as Hr. cbn in Hr. rewrite Z.mod_small in Hr by (unfold uint in Hv; lia). by rewrite Hr.
  - by rewrite read_int_le.
  - by rewrite read_int_le.
  - by rewrite read_int_le.
  - rewrite <- app_assoc. cbn [app]. by rewrite read_string_app.
Qed.

Lemma value_lead v : exists c r, encode_value v = c :: r /\ is_value_lead c = true /\ (c =? AML_PACKAGE_OP) = false /\ (c =? AML_BUFFER_OP) = false.
Proof. destruct v; eexists _, _; split; reflexivity || done. Qed.

Definition resource_ok (r : resource) : Prop :=
  match r with
  | RIo a b c d => uint 16 a /\ uint 16 b /\ uint 8 c /\ uint 8 d
  | RIrq m => uint 16 m
  | RMemory32 a l => uint 32 a /\ uint 32 l
  | RBusNumber a b c | RWordIo a b c => uint 16 a /\ uint 16 b /\ uint 16 c
  | RDWordMemory a b c => uint 32 a /\ uint 32 b /\ uint 32 c
  end.

(** The bytes of a descriptor. *)
Definition resource_bytes (r : resource) : list Z :=
  match r with
  | RIo min max align length => [0x47; 0x01] ++ le_bytes 2 min ++ le_bytes 2 max ++ [align; length]
  | RIrq mask => [0x22] ++ le_bytes 2 mask
  | RMemory32 addr length => [0x86] ++ le_bytes 2 9 ++ [0x01] ++ le_bytes 4 addr ++ le_bytes 4 length
  | RBusNumber min max length => word_space 0x02 0x00 min max length
  | RWordIo min max length => word_space 0x01 0x03 min max length
  | RDWordMemory min max length =>
      [0x87] ++ le_bytes 2 23 ++ [0x00; 0x0C; 0x01] ++ le_bytes 4 0 ++ le_bytes 4 min ++ le_bytes 4 max ++ le_bytes 4 0 ++ le_bytes 4 length
  end.

Lemma le_val2 v : uint 16 v -> le_val [v mod 256; v / 256 mod 256] = v.
Proof. intros Hv. exact (le_val_le_bytes 2 v Hv). Qed.

Lemma le_val4 v : uint 32 v -> le_val [v mod 256; v / 256 mod 256; v / 256 / 256 mod 256; v / 256 / 256 / 256 mod 256] = v.
Proof. intros Hv. exact (le_val_le_bytes 4 v Hv). Qed.

Lemma le_val1 v : le_val [v] = v.
Proof. simpl. lia. Qed.

Lemma resource_reads r rest : resource_ok r -> read_resource (resource_bytes r ++ rest) = Some (r, rest).
Proof.
  intros Hr. pose proof (len_nonneg rest) as H0.
  destruct r; simpl in Hr; destruct_and?; unfold resource_bytes, word_space, read_resource, field; cbn [app le_bytes take drop];
    rewrite !len_cons, ?le_val1, ?le_val4, ?le_val2 by done;
    repeat match goal with |- context [?a <=? ?b] => rewrite (proj2 (Z.leb_le a b)) by lia end; reflexivity.
Qed.


Definition end_tag : list Z := [ACPI_RES_END_TAG; 0x00].

Lemma resource_tag r l : (field (resource_bytes r ++ l) 0 1 =? ACPI_RES_END_TAG) = false /\ (3 <= List.length (resource_bytes r))%nat.
Proof. destruct r; split; try reflexivity; simpl; lia. Qed.

Lemma resources_read l m : Forall resource_ok l -> (List.length l < m)%nat ->
  read_resources m (concat (resource_bytes <$> l) ++ end_tag) = Some l.
Proof.
  intros Hl. revert m. induction Hl as [|r l Hr _ IH]; intros [|m] Hm; [lia|done|lia|]. cbn [fmap list_fmap concat]. rewrite <- app_assoc.
  cbn [read_resources]. rewrite (proj1 (resource_tag r _)). cbn [andb]. rewrite resource_reads by done. simpl. rewrite IH; [done|].
  simpl in Hm. lia.
Qed.

Lemma resources_length l : (List.length l <= List.length (concat (resource_bytes <$> l)))%nat.
Proof. induction l as [|r l IH]; [done|]. cbn [fmap list_fmap concat List.length]. rewrite length_app. destruct (resource_tag r []) as [_ ?]. lia. Qed.

(** The bytes [bs], read in front of anything, are [d]. *)
Definition data_of (bs : list Z) (d : data) : Prop :=
  forall m rest, (List.length bs <= m)%nat -> read_data m (bs ++ rest) = Some (d, rest).

Lemma data_value v : value_ok v -> data_of (encode_value v) (DVal v).
Proof.
  intros Hv m rest Hm. destruct (value_lead v) as (c & r & He & _ & Hp & Hb). rewrite He in Hm |- *. destruct m as [|m]; [simpl in Hm; lia|].
  cbn [app read_data]. rewrite Hp, Hb. pose proof (value_reads v rest Hv) as Hr. rewrite He in Hr. cbn [app] in Hr. by rewrite Hr.
Qed.

Lemma datas_read bss ds m rest : Forall2 data_of bss ds -> (List.length (concat bss) <= m)%nat ->
  read_n (read_data m) (List.length ds) (concat bss ++ rest) = Some (ds, rest).
Proof.
  induction 1 as [|bs d bss ds Hd _ IH]; [done|]. cbn [concat List.length read_n]. rewrite length_app, <- app_assoc. intros Hm.
  rewrite Hd by lia. simpl. rewrite IH by lia. done.
Qed.

Lemma package_length content : (List.length content < List.length (package content))%nat.
Proof.
  pose proof (package_len content) as Hl. unfold len in Hl. assert (1 <= pkg_length_size (Z.of_nat (List.length content))) by (unfold pkg_length_size; repeat case_match; lia).
  lia.
Qed.

Lemma data_package bss ds :
  Forall2 data_of bss ds -> (List.length ds < 256)%nat -> len (concat bss) < 2 ^ 28 - 5 ->
  data_of (AML_PACKAGE_OP :: package (as_u 8 (Z.of_nat (List.length ds)) :: concat bss)) (DPackage ds).
Proof.
  intros Hd Hl Hb [|m] rest Hm; [simpl in Hm; lia|]. cbn [app read_data]. simpl (_ =? _). cbv iota.
  rewrite package_reads by (rewrite len_cons; lia). simpl option_bind.
  rewrite (as_u_small 8) by (unfold uint; lia). rewrite Nat2Z.id.
  pose proof (datas_read bss ds m [] Hd) as Hr. rewrite app_nil_r in Hr. rewrite Hr; [done|].
  cbn [List.length] in Hm. pose proof (package_length (as_u 8 (Z.of_nat (List.length ds)) :: concat bss)) as Hp. cbn [List.length] in Hp. lia.
Qed.

Lemma data_buffer l : Forall resource_ok l -> len (concat (resource_bytes <$> l)) < 2 ^ 28 - 16 ->
  let res := concat (resource_bytes <$> l) ++ end_tag in
  data_of (AML_BUFFER_OP :: package (encode_value (DWord (as_u 32 (len res))) ++ res)) (DBuffer l).
Proof.
  intros Hl Hb res [|m] rest Hm; [simpl in Hm; lia|]. cbn [app read_data]. simpl (_ =? _). cbv iota.
  assert (Hres : len res = len (concat (resource_bytes <$> l)) + 2) by (unfold res; by rewrite len_app).
  pose proof (len_nonneg (concat (resource_bytes <$> l))) as H0.
  rewrite package_reads.
  2:{ rewrite len_app, Hres. change (len (encode_value _)) with 5. lia. }
  simpl option_bind. rewrite value_reads by (simpl; apply uint_as_u; lia). simpl option_bind.
  rewrite (as_u_small 32) by (unfold uint; lia). cbn [int_value option_bind mbind]. simpl. rewrite Z.eqb_refl. unfold res. fold end_tag.
  rewrite resources_read; [done|done|]. rewrite length_app. pose proof (resources_length l). simpl. lia.
Qed.

(** ** Objects *)

Definition objs_of (bs : list Z) (os : list obj) : Prop :=
  forall m, (List.length bs <= m)%nat -> read_objs m bs = Some os.

Definition obj_of (bs : list Z) (o : obj) : Prop :=
  (0 < List.length bs)%nat /\
  forall rec, (forall b os, (List.length b < List.length bs)%nat -> objs_of b os -> rec b = Some os) ->
  forall rest, read_obj rec (bs ++ rest) = Some (o, rest).

(** A run of objects. *)
Definition chunks (bs : list Z) (os : list obj) : Prop := exists bss, bs = concat bss /\ Forall2 obj_of bss os.

Lemma chunks_objs bs os : chunks bs os -> objs_of bs os.
Proof.
  intros (bss & -> & Hf). induction Hf as [|b o bss os [Hne Hb] _ IH]; [by intros [|m]|].
  intros m Hm. cbn [concat] in *. rewrite length_app in Hm. destruct m as [|m]; [lia|].
  destruct (b ++ concat bss) eqn:E; [apply app_eq_nil in E as [-> _]; simpl in Hne; lia|]. cbn [read_objs]. rewrite <- E.
  rewrite (Hb (read_objs m)).
  - simpl. rewrite IH; [done|lia].
  - intros b' os' Hlt Ho. apply Ho. lia.
Qed.

Lemma chunks_app b1 o1 b2 o2 : chunks b1 o1 -> chunks b2 o2 -> chunks (b1 ++ b2) (o1 ++ o2).
Proof. intros (l1 & -> & H1) (l2 & -> & H2). exists (l1 ++ l2). rewrite concat_app. split; [done|]. by apply Forall2_app. Qed.

Lemma chunks_one b o : obj_of b o -> chunks b [o].
Proof. intros Ho. exists [b]. simpl. rewrite app_nil_r. split; [done|]. constructor; [done|constructor]. Qed.

(** A part of the builder that appends [bs], [k] bytes that read as [os]. *)
Definition emits (b : Aml -> option Aml) (os : list obj) (k : Z) : Prop :=
  exists bs, (forall buf, b buf = Some (buf ++ bs)) /\ chunks bs os /\ len bs = k.

Definition name_len (name : list Z) : Z := match encode_name_string name with Some nb => len nb | None => 0 end.
Definition package_size (k : Z) : Z := pkg_length_size k + k.

Lemma emits_nil : emits Some [] 0.
Proof. exists []. split_and!; [intros; by rewrite app_nil_r|by exists []|done]. Qed.

Lemma emits_then b1 o1 k1 b2 o2 k2 : emits b1 o1 k1 -> emits b2 o2 k2 -> emits (then_ b1 b2) (o1 ++ o2) (k1 + k2).
Proof.
  intros (l1 & H1 & C1 & <-) (l2 & H2 & C2 & <-). exists (l1 ++ l2). split_and!; [|by apply chunks_app|apply len_app].
  intros buf. unfold then_. rewrite H1. simpl. by rewrite H2, app_assoc.
Qed.

(** A construct with a body in a package. *)
Lemma emits_body (ops : list Z) (mk : list obj -> obj) (name pre : list Z) (body : Aml -> option Aml) os k (b : Aml -> option Aml) :
  name_ok name = true -> emits body os k ->
  (forall buf inner nb, body [] = Some inner -> encode_name_string name = Some nb ->
    b buf = Some (buf ++ ops ++ package (nb ++ pre ++ inner))) ->
  (forall rec nb inner rest, body [] = Some inner -> encode_name_string name = Some nb -> rec inner = Some os ->
    (forall r, read_name (nb ++ r) = Some (name_ref name, r)) ->
    read_package (package (nb ++ pre ++ inner) ++ rest) = Some (nb ++ pre ++ inner, rest) ->
    read_obj rec (ops ++ package (nb ++ pre ++ inner) ++ rest) = Some (mk os, rest)) ->
  name_len name + len pre + k < 2 ^ 28 - 4 ->
  emits b [mk os] (len ops + package_size (name_len name + len pre + k)).
Proof.
  intros Hn (inner & Hb & Hc & <-) Hw Hr Hk. destruct (name_reads name Hn) as (nb & He & Hrn).
  assert (Hl : name_len name = len nb) by (unfold name_len; by rewrite He). rewrite Hl in *.
  assert (Hin : body [] = Some inner) by (by rewrite Hb).
  assert (Hlen : len (nb ++ pre ++ inner) = len nb + len pre + len inner) by (rewrite !len_app; lia).
  exists (ops ++ package (nb ++ pre ++ inner)). split_and!.
  - intros buf. rewrite (Hw buf inner nb Hin He). done.
  - apply chunks_one. pose proof (package_length (nb ++ pre ++ inner)) as Hp. split; [rewrite length_app; lia|].
    intros rec Hrec rest. rewrite <- app_assoc. apply Hr; try done.
    + apply Hrec; [|by apply chunks_objs]. rewrite !length_app in *. lia.
    + apply package_reads. rewrite Hlen. lia.
  - rewrite len_app, package_len, Hlen. done.
Qed.

Lemma emits_scope name body os k :
  name_ok name = true -> emits body os k -> name_len name + k < 2 ^ 28 - 4 ->
  emits (scope name body) [OScope (name_ref name) os] (1 + package_size (name_len name + k)).
Proof.
  intros Hn Hb Hk. replace (name_len name + k) with (name_len name + len [] + k) in * by (unfold len; simpl; lia).
  apply (emits_body [AML_SCOPE_OP] (OScope (name_ref name)) name [] body); try done.
  - intros buf inner nb Hi He. unfold scope. rewrite Hi, He. done.
  - intros rec nb inner rest Hi He Hrec Hrn Hp. cbn [app] in *. unfold read_obj. simpl (_ =? _). cbv iota. rewrite Hp. simpl.
    rewrite Hrn. simpl. by rewrite Hrec.
Qed.

Lemma emits_device name body os k :
  name_ok name = true -> emits body os k -> name_len name + k < 2 ^ 28 - 4 ->
  emits (device name body) [ODevice (name_ref name) os] (2 + package_size (name_len name + k)).
Proof.
  intros Hn Hb Hk. replace (name_len name + k) with (name_len name + len [] + k) in * by (unfold len; simpl; lia).
  apply (emits_body [AML_EXT_PREFIX; AML_DEVICE_OP] (ODevice (name_ref name)) name [] body); try done.
  - intros buf inner nb Hi He. unfold device. rewrite Hi, He. done.
  - intros rec nb inner rest Hi He Hrec Hrn Hp. cbn [app] in *. unfold read_obj. simpl (_ =? _). cbv iota. rewrite Hp. simpl.
    rewrite Hrn. simpl. by rewrite Hrec.
Qed.

Lemma emits_method name args ser body os k :
  name_ok name = true -> emits body os k -> name_len name + 1 + k < 2 ^ 28 - 4 ->
  emits (method name args ser body) [OMethod (name_ref name) (method_flags args ser) os] (1 + package_size (name_len name + 1 + k)).
Proof.
  intros Hn Hb Hk.
  apply (emits_body [AML_METHOD_OP] (OMethod (name_ref name) (method_flags args ser)) name [method_flags args ser] body); try done.
  - intros buf inner nb Hi He. unfold method. rewrite Hi, He. done.
  - intros rec nb inner rest Hi He Hrec Hrn Hp. cbn [app] in *. unfold read_obj. simpl (_ =? _). cbv iota. rewrite Hp. simpl.
    rewrite Hrn. simpl. by rewrite Hrec.
Qed.

(** A named piece of data. *)
Lemma emits_name name db d (b : Aml -> option Aml) :
  name_ok name = true -> data_of db d ->
  (forall buf nb, encode_name_string name = Some nb -> b buf = Some (buf ++ AML_NAME_OP :: nb ++ db)) ->
  emits b [OName (name_ref name) d] (1 + (name_len name + len db)).
Proof.
  intros Hn Hd Hw. destruct (name_reads name Hn) as (nb & He & Hrn).
  exists (AML_NAME_OP :: nb ++ db). split_and!.
  - intros buf. by apply Hw.
  - apply chunks_one. split; [simpl; lia|]. intros rec _ rest. cbn [app]. unfold read_obj. simpl (_ =? _). cbv iota.
    rewrite <- app_assoc, Hrn. simpl. rewrite Hd; [done|]. rewrite length_app. lia.
  - unfold name_len. rewrite He, len_cons, len_app. lia.
Qed.

Lemma emits_name_val name v : name_ok name = true -> value_ok v ->
  emits (name_val name v) [OName (name_ref name) (DVal v)] (1 + (name_len name + len (encode_value v))).
Proof.
  intros Hn Hv. apply (emits_name name (encode_value v)); [done|by apply data_value|].
  intros buf nb He. unfold name_val. by rewrite He.
Qed.

Definition values_len (l : list AmlValue) : Z := len (concat (encode_value <$> l)).

Lemma values_data l : Forall value_ok l -> Forall2 data_of (encode_value <$> l) (DVal <$> l).
Proof. induction 1 as [|v l Hv _ IH]; constructor; [by apply data_value|done]. Qed.

Lemma package_body_data l : Forall value_ok l -> (List.length l < 256)%nat -> values_len l < 2 ^ 28 - 5 ->
  data_of (AML_PACKAGE_OP :: package (package_body l)) (DPackage (DVal <$> l)).
Proof.
  intros Hv Hl Hk. pose proof (data_package (encode_value <$> l) (DVal <$> l) (values_data l Hv)) as Hd.
  rewrite length_fmap in Hd. by apply Hd.
Qed.

Lemma emits_name_package name l :
  name_ok name = true -> Forall value_ok l -> (List.length l < 256)%nat -> values_len l < 2 ^ 28 - 5 ->
  emits (name_package name l) [OName (name_ref name) (DPackage (DVal <$> l))]
    (1 + (name_len name + (1 + package_size (1 + values_len l)))).
Proof.
  intros Hn Hv Hl Hk.
  replace (1 + package_size (1 + values_len l)) with (len (AML_PACKAGE_OP :: package (package_body l))).
  - apply emits_name; [done|by apply package_body_data|]. intros buf nb He. unfold name_package. by rewrite He.
  - rewrite len_cons, package_len. unfold package_body. rewrite len_cons. unfold package_size, values_len. rewrite (Z.add_comm 1 (len _)). lia.
Qed.

Definition nested_bytes (ls : list (list AmlValue)) : list (list Z) :=
  (fun l => AML_PACKAGE_OP :: package (package_body l)) <$> ls.

Lemma emits_name_nested name ls :
  name_ok name = true -> Forall (fun l => Forall value_ok l /\ (List.length l < 256)%nat /\ values_len l < 2 ^ 28 - 5) ls ->
  (List.length ls < 256)%nat -> len (concat (nested_bytes ls)) < 2 ^ 28 - 5 ->
  emits (name_nested_packages name ls) [OName (name_ref name) (DPackage ((fun l => DPackage (DVal <$> l)) <$> ls))]
    (1 + (name_len name + (1 + package_size (1 + len (concat (nested_bytes ls)))))).
Proof.
  intros Hn Hv Hl Hk.
  assert (Hd : Forall2 data_of (nested_bytes ls) ((fun l => DPackage (DVal <$> l)) <$> ls)).
  { clear -Hv. induction Hv as [|l ls (H1 & H2 & H3) _ IH]; constructor; [by apply package_body_data|done]. }
  pose proof (data_package _ _ Hd) as Hp. rewrite length_fmap in Hp. specialize (Hp Hl Hk).
  replace (1 + package_size (1 + len (concat (nested_bytes ls)))) with
    (len (AML_PACKAGE_OP :: package (as_u 8 (Z.of_nat (List.length ls)) :: concat (nested_bytes ls)))).
  - apply emits_name; [done|exact Hp|]. intros buf nb He. unfold name_nested_packages. by rewrite He.
  - rewrite len_cons, package_len, len_cons. unfold package_size. rewrite (Z.add_comm 1 (len _)). lia.
Qed.

Lemma emits_return_name name : name_ok name = true -> name_ref name <> ([], []) ->
  emits (return_name name) [OReturnName (name_ref name)] (1 + name_len name).
Proof.
  intros Hn Hnn. destruct (name_reads name Hn) as (nb & He & Hrn). exists (AML_RETURN_OP :: nb). split_and!.
  - intros buf. unfold return_name. by rewrite He.
  - apply chunks_one. split; [simpl; lia|]. intros rec _ rest. cbn [app]. unfold read_obj. simpl (_ =? _). cbv iota.
    destruct (nb ++ rest) as [|c r] eqn:E; [specialize (Hrn rest); rewrite E in Hrn; done|].
    assert (Hc : is_value_lead c = false).
    { destruct (is_value_lead c) eqn:Hc; [|done]. specialize (Hrn rest). rewrite E in Hrn. exfalso. revert Hrn Hc Hnn.
      unfold read_name, is_value_lead, AML_ZERO_OP, AML_ONE_OP, AML_BYTE_PREFIX, AML_QWORD_PREFIX. intros Hrn Hc Hnn. cbn [read_prefixes] in Hrn.
      assert (Hcc : c = 0 \/ c = 1 \/ 10 <= c <= 14) by lia.
      destruct (Z.eqb_spec c 0x5C); [lia|]. destruct (Z.eqb_spec c 0x5E); [lia|]. cbn [orb] in Hrn.
      destruct (Z.eqb_spec c 0); [injection Hrn as Hrn _; congruence|].
      destruct (Z.eqb_spec c AML_DUAL_NAME_PREFIX); [unfold AML_DUAL_NAME_PREFIX in *; lia|].
      destruct (Z.eqb_spec c AML_MULTI_NAME_PREFIX); [unfold AML_MULTI_NAME_PREFIX in *; lia|].
      revert Hrn. unfold read_n, read_seg. cbn [take]. unfold seg_valid at 1. replace (is_name_char c true) with false; [by rewrite andb_false_r|].
      unfold is_name_char. symmetry. rewrite !orb_false_iff. split_and!; lia. }
    rewrite Hc, <- E, Hrn. done.
  - unfold name_len. rewrite He, len_cons. lia.
Qed.

Lemma emits_return_val v : value_ok v -> emits (return_val v) [OReturnVal v] (1 + len (encode_value v)).
Proof.
  intros Hv. exists (AML_RETURN_OP :: encode_value v). split_and!; [done| |rewrite len_cons; lia].
  apply chunks_one. split; [simpl; lia|]. intros rec _ rest. cbn [app]. unfold read_obj. simpl (_ =? _). cbv iota.
  destruct (value_lead v) as (c & r & He & Hl & _). pose proof (value_reads v rest Hv) as Hr. rewrite He in Hr |- *. cbn [app] in *.
  rewrite Hl, Hr. done.
Qed.

Lemma emits_store_arg0 name : name_ok name = true -> emits (store_arg0 name) [OStoreArg0 (name_ref name)] (2 + name_len name).
Proof.
  intros Hn. destruct (name_reads name Hn) as (nb & He & Hrn). exists (AML_STORE_OP :: AML_ARG0 :: nb). split_and!.
  - intros buf. unfold store_arg0. by rewrite He.
  - apply chunks_one. split; [simpl; lia|]. intros rec _ rest. cbn [app]. unfold read_obj. simpl (_ =? _). cbv iota. by rewrite Hrn.
  - unfold name_len. rewrite He, !len_cons. lia.
Qed.

(** ** Resource templates *)

(** A part of the builder that appends descriptors. *)
Definition resources (b : Aml -> option Aml) (l : list resource) : Prop :=
  Forall resource_ok l /\ forall buf, b buf = Some (buf ++ concat (resource_bytes <$> l)).

Lemma resources_then b1 l1 b2 l2 : resources b1 l1 -> resources b2 l2 -> resources (then_ b1 b2) (l1 ++ l2).
Proof.
  intros [H1 E1] [H2 E2]. split; [by apply Forall_app|]. intros buf. unfold then_. rewrite E1. simpl. rewrite E2, fmap_app, concat_app.
  by rewrite app_assoc.
Qed.

Lemma resources_one b r : resource_ok r -> (forall buf, b buf = Some (buf ++ resource_bytes r)) -> resources b [r].
Proof. intros Hr Hb. split; [by repeat constructor|]. intros buf. simpl. by rewrite app_nil_r. Qed.

Lemma resources_io a b c d : uint 16 a -> uint 16 b -> uint 8 c -> uint 8 d -> resources (io_resource a b c d) [RIo a b c d].
Proof. intros. by apply resources_one. Qed.
Lemma resources_irq i : 0 <= i < 16 -> resources (irq_no_flags i) [RIrq (2 ^ i)].
Proof.
  intros Hi. assert (2 ^ i <= 2 ^ 15) by (apply Z.pow_le_mono_r; lia). assert (0 < 2 ^ i) by (apply Z.pow_pos_nonneg; lia).
  apply resources_one; [simpl; unfold uint; lia|]. intros buf. unfold irq_no_flags. destruct (Z.ltb_spec i 16); [|lia].
  rewrite Z.shiftl_1_l, (as_u_small 16) by (unfold uint; lia). done.
Qed.
Lemma resources_memory32 a l : uint 32 a -> uint 32 l -> resources (memory32_fixed a l) [RMemory32 a l].
Proof. intros. by apply resources_one. Qed.
Lemma resources_bus a b c : uint 16 a -> uint 16 b -> uint 16 c -> resources (word_bus_number a b c) [RBusNumber a b c].
Proof. intros. by apply resources_one. Qed.
Lemma resources_word_io a b c : uint 16 a -> uint 16 b -> uint 16 c -> resources (word_io a b c) [RWordIo a b c].
Proof. intros. by apply resources_one. Qed.
Lemma resources_dword_memory a b c : uint 32 a -> uint 32 b -> uint 32 c -> resources (dword_memory a b c) [RDWordMemory a b c].
Proof. intros. by apply resources_one. Qed.

Definition template_len (l : list resource) : Z := len (concat (resource_bytes <$> l)).

Lemma emits_name_resource name body l :
  name_ok name = true -> resources body l -> template_len l < 2 ^ 28 - 16 ->
  emits (name_resource_template name body) [OName (name_ref name) (DBuffer l)]
    (1 + (name_len name + (1 + package_size (7 + template_len l)))).
Proof.
  intros Hn [Hl Hb] Hk. pose proof (data_buffer l Hl Hk) as Hd. cbv zeta in Hd. set (res := concat (resource_bytes <$> l) ++ end_tag) in *.
  replace (1 + package_size (7 + template_len l)) with
    (len (AML_BUFFER_OP :: package (encode_value (DWord (as_u 32 (len res))) ++ res))).
  - apply emits_name; [done|exact Hd|]. intros buf nb He. unfold name_resource_template. rewrite Hb. simpl. by rewrite He.
  - rewrite len_cons, package_len, len_app. change (len (encode_value _)) with 5. unfold res. rewrite len_app. change (len end_tag) with 2.
    unfold package_size, template_len. replace (5 + (len (concat (resource_bytes <$> l)) + 2)) with (7 + len (concat (resource_bytes <$> l))) by lia. lia.
Qed.

(** ** Programs of the builder

    Every tree of builder calls, as data: what it runs, what it should read
    back as, and how long it is. *)

Inductive res_call : Type :=
| CIo (min max align length : Z)
| CIrq (irq : Z)
| CMemory32 (addr length : Z)
| CBus (min max length : Z)
| CWordIo (min max length : Z)
| CDWordMemory (min max length : Z).

Definition run_res (c : res_call) : Aml -> option Aml :=
  match c with
  | CIo a b c d => io_resource a b c d
  | CIrq i => irq_no_flags i
  | CMemory32 a l => memory32_fixed a l
  | CBus a b c => word_bus_number a b c
  | CWordIo a b c => word_io a b c
  | CDWordMemory a b c => dword_memory a b c
  end.

Definition res_of (c : res_call) : resource :=
  match c with
  | CIo a b c d => RIo a b c d
  | CIrq i => RIrq (2 ^ i)
  | CMemory32 a l => RMemory32 a l
  | CBus a b c => RBusNumber a b c
  | CWordIo a b c => RWordIo a b c
  | CDWordMemory a b c => RDWordMemory a b c
  end.

Definition res_ok (c : res_call) : Prop :=
  match c with
  | CIo a b c d => uint 16 a /\ uint 16 b /\ uint 8 c /\ uint 8 d
  | CIrq i => 0 <= i < 16
  | CMemory32 a l => uint 32 a /\ uint 32 l
  | CBus a b c | CWordIo a b c => uint 16 a /\ uint 16 b /\ uint 16 c
  | CDWordMemory a b c => uint 32 a /\ uint 32 b /\ uint 32 c
  end.

(** One statement after another: the body of a closure. *)
Definition block (l : list (Aml -> option Aml)) : Aml -> option Aml := foldr then_ Some l.

Inductive call : Type :=
| CScope (name : list Z) (body : list call)
| CDevice (name : list Z) (body : list call)
| CMethod (name : list Z) (args : Z) (serialized : bool) (body : list call)
| CName (name : list Z) (v : AmlValue)
| CPackage (name : list Z) (l : list AmlValue)
| CNested (name : list Z) (ls : list (list AmlValue))
| CTemplate (name : list Z) (l : list res_call)
| CReturnName (name : list Z)
| CReturnVal (v : AmlValue)
| CStoreArg0 (name : list Z).

Fixpoint run_call (c : call) : Aml -> option Aml :=
  match c with
  | CScope n body => scope n (block (List.map run_call body))
  | CDevice n body => device n (block (List.map run_call body))
  | CMethod n args ser body => method n args ser (block (List.map run_call body))
  | CName n v => name_val n v
  | CPackage n l => name_package n l
  | CNested n ls => name_nested_packages n ls
  | CTemplate n l => name_resource_template n (block (List.map run_res l))
  | CReturnName n => return_name n
  | CReturnVal v => return_val v
  | CStoreArg0 n => store_arg0 n
  end.

Fixpoint call_obj (c : call) : obj :=
  match c with
  | CScope n body => OScope (name_ref n) (List.map call_obj body)
  | CDevice n body => ODevice (name_ref n) (List.map call_obj body)
  | CMethod n args ser body => OMethod (name_ref n) (method_flags args ser) (List.map call_obj body)
  | CName n v => OName (name_ref n) (DVal v)
  | CPackage n l => OName (name_ref n) (DPackage (DVal <$> l))
  | CNested n ls => OName (name_ref n) (DPackage ((fun l => DPackage (DVal <$> l)) <$> ls))
  | CTemplate n l => OName (name_ref n) (DBuffer (res_of <$> l))
  | CReturnName n => OReturnName (name_ref n)
  | CReturnVal v => OReturnVal v
  | CStoreArg0 n => OStoreArg0 (name_ref n)
  end.

Definition sum_of {A} (f : A -> Z) (l : list A) : Z := List.fold_right (fun a k => f a + k) 0 l.

Fixpoint call_len (c : call) : Z :=
  match c with
  | CScope n body => 1 + package_size (name_len n + sum_of call_len body)
  | CDevice n body => 2 + package_size (name_len n + sum_of call_len body)
  | CMethod n _ _ body => 1 + package_size (name_len n + 1 + sum_of call_len body)
  | CName n v => 1 + (name_len n + len (encode_value v))
  | CPackage n l => 1 + (name_len n + (1 + package_size (1 + values_len l)))
  | CNested n ls => 1 + (name_len n + (1 + package_size (1 + len (concat (nested_bytes ls)))))
  | CTemplate n l => 1 + (name_len n + (1 + package_size (7 + template_len (res_of <$> l))))
  | CReturnName n => 1 + name_len n
  | CReturnVal v => 1 + len (encode_value v)
  | CStoreArg0 n => 2 + name_len n
  end.

(** Names are names, integers fit their width, packages have at most 255
    elements and less than 2^28 bytes. *)
Definition pack_ok (l : list AmlValue) : Prop := Forall value_ok l /\ (List.length l < 256)%nat /\ values_len l < 2 ^ 28 - 5.

Inductive call_ok : call -> Prop :=
| ok_scope n body : name_ok n = true -> Forall call_ok body -> name_len n + sum_of call_len body < 2 ^ 28 - 4 -> call_ok (CScope n body)
| ok_device n body : name_ok n = true -> Forall call_ok body -> name_len n + sum_of call_len body < 2 ^ 28 - 4 -> call_ok (CDevice n body)
| ok_method n a s body : name_ok n = true -> Forall call_ok body -> name_len n + 1 + sum_of call_len body < 2 ^ 28 - 4 -> call_ok (CMethod n a s body)
| ok_name n v : name_ok n = true -> value_ok v -> call_ok (CName n v)
| ok_package n l : name_ok n = true -> pack_ok l -> call_ok (CPackage n l)
| ok_nested n ls : name_ok n = true -> Forall pack_ok ls -> (List.length ls < 256)%nat -> len (concat (nested_bytes ls)) < 2 ^ 28 - 5 -> call_ok (CNested n ls)
| ok_template n l : name_ok n = true -> Forall res_ok l -> template_len (res_of <$> l) < 2 ^ 28 - 16 -> call_ok (CTemplate n l)
| ok_return_name n : name_ok n = true -> name_ref n <> ([], []) -> call_ok (CReturnName n)
| ok_return_val v : value_ok v -> call_ok (CReturnVal v)
| ok_store n : name_ok n = true -> call_ok (CStoreArg0 n).

Lemma resources_calls l : Forall res_ok l -> resources (block (List.map run_res l)) (res_of <$> l).
Proof.
  induction 1 as [|c l Hc _ IH]; [split; [done|]; intros; simpl; by rewrite app_nil_r|].
  apply (resources_then _ [res_of c]); [|exact IH]. destruct c; cbn [res_ok run_res res_of] in *; destruct_and?.
  - by apply resources_io.
  - by apply resources_irq.
  - by apply resources_memory32.
  - by apply resources_bus.
  - by apply resources_word_io.
  - by apply resources_dword_memory.
Qed.

Lemma calls_emit l : Forall (fun c => emits (run_call c) [call_obj c] (call_len c)) l ->
  emits (block (List.map run_call l)) (List.map call_obj l) (sum_of call_len l).
Proof. induction 1 as [|c l Hc _ IH]; [apply emits_nil|]. by apply (emits_then _ [call_obj c]). Qed.

(** Every well-formed call appends its object. *)
Fixpoint call_emits (c : call) (H : call_ok c) {struct H} : emits (run_call c) [call_obj c] (call_len c).
Proof.
  assert (Hl : forall l, Forall call_ok l -> Forall (fun c => emits (run_call c) [call_obj c] (call_len c)) l).
  { fix IHl 2. intros l [|x l' Hx Hl']; constructor; [exact (call_emits x Hx)|exact (IHl l' Hl')]. }
  destruct H as [n body Hn Hb Hk|n body Hn Hb Hk|n a s body Hn Hb Hk|n v Hn Hv|n l Hn (Hv & Hlen & Hk)|n ls Hn Hv Hlen Hk|n l Hn Hv Hk|n Hn Hne|v Hv|n Hn].
  - apply emits_scope; [done|by apply calls_emit, Hl|done].
  - apply emits_device; [done|by apply calls_emit, Hl|done].
  - apply emits_method; [done|by apply calls_emit, Hl|done].
  - by apply emits_name_val.
  - by apply emits_name_package.
  - by apply emits_name_nested.
  - apply emits_name_resource; [done|by apply resources_calls|done].
  - by apply emits_return_name.
  - by apply emits_return_val.
  - by apply emits_store_arg0.
Qed.

(** C20: what the builder writes is what a reader of AML finds. For every tree
    of builder calls with proper names and sizes below 2^28, no call panics
    and every package length closes exactly: the bytes read back, with nothing
    left over, as the objects the calls name. *)
Theorem aml_roundtrip (l : list call) : Forall call_ok l ->
  exists bs, block (List.map run_call l) [] = Some bs /\ len bs = sum_of call_len l /\ read_aml bs = Some (List.map call_obj l).
Proof.
  intros Hl. destruct (calls_emit l) as (bs & Hb & Hc & Hk); [by eapply Forall_impl; [exact Hl|apply call_emits]|].
  exists bs. split_and!; [by rewrite Hb|done|]. by apply (chunks_objs bs _ Hc).
Qed.

End aml.

Module aml_demo.
Import String.StringSyntax aml.

(** A scope whose package length takes two bytes. *)
Definition tree : list call := [
  CScope (s2b "\_SB") [
    CDevice (s2b "PC00") [
      CName (s2b "_HID") (VString (s2b "PNP0A03"));
      CMethod (s2b "_BBN") 0 false [CReturnVal Zero];
      CTemplate (s2b "_CRS") [CBus 0 0xFF 0x100; CIo 0xCF8 0xCF8 1 8; CIrq 4; CDWordMemory 0xC0000000 0xFEBFFFFF 0x3EC00000]];
    CNested (s2b "APRT") [[DWord 0x1FFFF; Byte 0; Zero; DWord 21]; [DWord 0x1FFFF; Byte 1; Zero; DWord 22]];
    CMethod (s2b "_PRT") 0 false [CReturnName (s2b "APRT")]]].

Lemma tree_ok : Forall call_ok tree.
Proof.
  repeat (first [apply Forall_cons_2|apply Forall_nil_2|constructor]); try reflexivity; try discriminate; unfold uint; try lia; vm_compute; auto.
Qed.

Lemma aml_roundtrip_witness : Forall call_ok tree /\
  exists bs, block (List.map run_call tree) [] = Some bs /\ len bs = sum_of call_len tree /\ read_aml bs = Some (List.map call_obj tree).
Proof. split; [exact tree_ok|exact (aml_roundtrip tree tree_ok)]. Defined.

End aml_demo.
