(* ===== verification/Acpi.v ===== *)
(** * ACPI tables

    [crates/vmm-devices/src/acpi/]: the configuration the tables describe
    ([config.rs]), the table writers ([mod.rs], [facs.rs], [fadt.rs],
    [madt.rs], [tables.rs], [rsdp.rs], [dsdt.rs]), the two layouts
    ([mod.rs]), the loader script ([loader.rs]) and the E820 map
    ([e820.rs]). A writer returns the bytes of its table, [None] where the
    code panics (a slice out of range, a failed assertion). *)

From S2P Require Import Prelude Aml.
From Stdlib Require Ascii String.
Import String.StringSyntax.
Import aml.

Module acpi.

(** ** Configuration: config.rs *)

Record TpmDevice : Type := mkTpmDevice { crb_base : Z; crb_len : Z }.
Record TpmAcpi : Type := mkTpmAcpi { table : list Z; device_ : TpmDevice }.

Record AcpiConfig : Type := mkAcpiConfig {
  num_cpus : Z;
  max_cpus : Z;
  tpm : option TpmDevice;
  hotplug : bool;
}.

Inductive AcpiConfigError : Type :=
| NoBootCpu
| MaxBelowBoot (num_cpus max_cpus : Z)
| AboveKernelLimit (max_cpus limit : Z).

(** [limit] is [VM_MAXCPU] of the kernel's headers. *)
Definition config_new (limit n m : Z) : result AcpiConfigError AcpiConfig :=
  if n =? 0 then Err NoBootCpu
  else if m <? n then Err (MaxBelowBoot n m)
  else if limit <? m then Err (AboveKernelLimit m limit)
  else Ok (mkAcpiConfig n m None false).

Definition boot_only (n : Z) : AcpiConfig := mkAcpiConfig n n None false.
Definition with_tpm (c : AcpiConfig) (t : option TpmDevice) : AcpiConfig := mkAcpiConfig (num_cpus c) (max_cpus c) t (hotplug c).
Definition with_hotplug (c : AcpiConfig) (h : bool) : AcpiConfig := mkAcpiConfig (num_cpus c) (max_cpus c) (tpm c) h.

(** ** Constants: mod.rs *)

Definition BHYVE_ACPI_BASE : Z := 0xF2400.
Definition LAPIC_ADDR : Z := 0xFEE00000.
Definition IOAPIC_ADDR : Z := 0xFEC00000.
Definition HPET_ADDR : Z := 0xFED00000.
Definition PMBASE : Z := 0x400.
Definition PM1A_EVT_ADDR : Z := PMBASE.
Definition PM1A_CNT_ADDR : Z := PMBASE + 0x04.
Definition IO_PMTMR : Z := PMBASE + 0x08.
Definition SCI_INT : Z := 9.
Definition RESET_REG_PORT : Z := 0x0CF9.
Definition ACPI_HDR_SIZE : Z := 36.
Definition GPE0_BLK_ADDR : Z := 0xAFE0.
Definition GPE0_BLK_LEN : Z := 4.
Definition OEM_ID : list Z := s2b "BHYVE ".
Definition OEM_TABLE_ID : list Z := s2b "BVXSDT  ".
Definition CREATOR_ID : list Z := s2b "BHYV".
Definition ACPI_AS_SYSTEM_IO : Z := 1.
Definition ACPI_GAS_BYTE : Z := 1.
Definition ACPI_GAS_WORD : Z := 2.
Definition ACPI_GAS_DWORD : Z := 3.

(** ** Buffers *)

(** [buf[off..off + n].copy_from_slice(bs)], and [buf[off] = b] for one byte. *)
Definition put (off : Z) (bs buf : list Z) : option (list Z) :=
  if (0 <=? off) && (off + len bs <=? len buf) then
    Some (take (Z.to_nat off) buf ++ bs ++ drop (Z.to_nat off + List.length bs) buf)
  else None.

(** [&buf[off..off + n]]. *)
Definition slice (off n : Z) (buf : list Z) : option (list Z) :=
  if (0 <=? off) && (0 <=? n) && (off + n <=? len buf) then Some (take (Z.to_nat n) (drop (Z.to_nat off) buf)) else None.

(** The [fold] with [wrapping_add]. *)
Definition sum8 (bs : list Z) : Z := foldl (wadd 8) 0 bs.

Definition write_header (signature : list Z) (length revision : Z) : list Z :=
  signature ++ le_bytes 4 length ++ [revision; 0] ++ OEM_ID ++ OEM_TABLE_ID ++ le_bytes 4 1 ++ CREATOR_ID ++ le_bytes 4 1.

Definition fix_checksum (buf : list Z) (start n : Z) : option (list Z) :=
  let* range := slice start n buf in
  put (start + 9) [wsub 8 0 (sum8 range)] buf.

Definition fix_checksum_at (buf : list Z) (cksum_offset start n : Z) : option (list Z) :=
  let* buf := put cksum_offset [0] buf in
  let* range := slice start n buf in
  put cksum_offset [wsub 8 0 (sum8 range)] buf.

Definition write_gas (address_space bit_width bit_offset access_size address : Z) : list Z :=
  [address_space; bit_width; bit_offset; access_size] ++ le_bytes 8 address.

Definition write_gas_zero : list Z := replicate 12 0.

(** The [assert_eq!] on the size and the checksum that end a writer. *)
Definition seal (buf : list Z) (total : Z) : option (list Z) :=
  if len buf =? total then fix_checksum buf 0 total else None.

(** ** FACS: facs.rs *)

Definition FACS_SIZE : Z := 64.

Definition build_facs : option (list Z) :=
  let buf := replicate 64 0 in
  let* buf := put 0 (s2b "FACS") buf in
  let* buf := put 4 (le_bytes 4 FACS_SIZE) buf in
  put 32 (le_bytes 4 2) buf.

(** ** FADT: fadt.rs *)

Definition FADT_SIZE : Z := 276.
Definition FADT_FLAGS : Z :=
  Z.lor (Z.lor (Z.lor (Z.lor (Z.lor (Z.lor (Z.shiftl 1 0) (Z.shiftl 1 2)) (Z.shiftl 1 4)) (Z.shiftl 1 5)) (Z.shiftl 1 8)) (Z.shiftl 1 10)) (Z.shiftl 1 12).

(** The fields after the header, by offset. *)
Definition fadt_fields (facs_gpa dsdt_gpa : Z) (cfg : AcpiConfig) : list Z :=
  let gpe0_blk := if hotplug cfg then GPE0_BLK_ADDR else 0 in
  let gpe0_blk_len := if hotplug cfg then GPE0_BLK_LEN else 0 in
  (* 36 *) le_bytes 4 facs_gpa ++ le_bytes 4 dsdt_gpa ++
  (* 44 *) [0; 0] ++ le_bytes 2 SCI_INT ++ le_bytes 4 0xB2 ++ [0xA0; 0xA1; 0; 0] ++
  (* 56 *) le_bytes 4 PM1A_EVT_ADDR ++ le_bytes 4 0 ++ le_bytes 4 PM1A_CNT_ADDR ++ le_bytes 4 0 ++ le_bytes 4 0 ++
  (* 76 *) le_bytes 4 IO_PMTMR ++ le_bytes 4 gpe0_blk ++ le_bytes 4 0 ++
  (* 88 *) [4; 2; 0; 4; gpe0_blk_len; 0; 0; 0] ++
  (* 96 *) le_bytes 2 0 ++ le_bytes 2 0 ++ le_bytes 2 0 ++ le_bytes 2 0 ++ [0; 0; 0; 0; 0x32] ++
  (* 109 *) le_bytes 2 (Z.lor (Z.shiftl 1 2) (Z.shiftl 1 4)) ++ [0] ++ le_bytes 4 FADT_FLAGS ++
  (* 116 *) write_gas ACPI_AS_SYSTEM_IO 8 0 ACPI_GAS_BYTE RESET_REG_PORT ++ [6] ++ le_bytes 2 0 ++ [1] ++
  (* 132 *) le_bytes 8 facs_gpa ++ le_bytes 8 dsdt_gpa ++
  (* 148 *) write_gas ACPI_AS_SYSTEM_IO 0x20 0 ACPI_GAS_WORD PM1A_EVT_ADDR ++ write_gas_zero ++
  (* 172 *) write_gas ACPI_AS_SYSTEM_IO 0x10 0 ACPI_GAS_WORD PM1A_CNT_ADDR ++ write_gas_zero ++ write_gas_zero ++
  (* 208 *) write_gas ACPI_AS_SYSTEM_IO 0x20 0 ACPI_GAS_DWORD IO_PMTMR ++
  (* 220 *) (if hotplug cfg then write_gas ACPI_AS_SYSTEM_IO (wmul 8 gpe0_blk_len 8) 0 ACPI_GAS_BYTE gpe0_blk else write_gas_zero) ++
  (* 232 *) write_gas_zero ++ write_gas_zero ++ write_gas_zero ++ le_bytes 8 0.

Definition fadt_raw (facs_gpa dsdt_gpa : Z) (cfg : AcpiConfig) : list Z :=
  write_header (s2b "FACP") FADT_SIZE 5 ++ fadt_fields facs_gpa dsdt_gpa cfg.

Definition build_fadt (facs_gpa dsdt_gpa : Z) (cfg : AcpiConfig) : option (list Z) :=
  seal (fadt_raw facs_gpa dsdt_gpa cfg) FADT_SIZE.

(** ** MADT: madt.rs *)

Definition MADT_LAPIC_ENABLED : Z := 1.
Definition MADT_LAPIC_ONLINE_CAPABLE : Z := 2.
Definition MADT_POLARITY_ACTIVE_HIGH : Z := 0x01.
Definition MADT_POLARITY_ACTIVE_LOW : Z := 0x03.
Definition MADT_TRIGGER_EDGE : Z := 0x04.
Definition MADT_TRIGGER_LEVEL : Z := 0x0C.

Definition lapic_entry (num_cpus id : Z) : list Z :=
  let flags := if id <? num_cpus then MADT_LAPIC_ENABLED else MADT_LAPIC_ONLINE_CAPABLE in
  [0; 8; as_u 8 id; as_u 8 id] ++ le_bytes 4 flags.

(** The entries after the processors. *)
Definition madt_tail : list Z :=
  [1; 12; 0; 0] ++ le_bytes 4 IOAPIC_ADDR ++ le_bytes 4 0 ++
  [2; 10; 0; 0] ++ le_bytes 4 2 ++ le_bytes 2 (Z.lor MADT_POLARITY_ACTIVE_HIGH MADT_TRIGGER_EDGE) ++
  [2; 10; 0; as_u 8 SCI_INT] ++ le_bytes 4 SCI_INT ++ le_bytes 2 (Z.lor MADT_POLARITY_ACTIVE_LOW MADT_TRIGGER_LEVEL) ++
  [4; 6; 0xFF] ++ le_bytes 2 (Z.lor MADT_POLARITY_ACTIVE_HIGH MADT_TRIGGER_EDGE) ++ [1].

Definition madt_fields (cfg : AcpiConfig) : list Z :=
  le_bytes 4 LAPIC_ADDR ++ le_bytes 4 1 ++ concat (lapic_entry (num_cpus cfg) <$> seqZ 0 (max_cpus cfg)) ++ madt_tail.

Definition madt_size (cfg : AcpiConfig) : Z := ACPI_HDR_SIZE + 8 + max_cpus cfg * 8 + 12 + 2 * 10 + 6.

Definition madt_raw (cfg : AcpiConfig) : list Z := write_header (s2b "APIC") (as_u 32 (madt_size cfg)) 1 ++ madt_fields cfg.

(** A [u32] count times 8 fits a 64-bit [usize], so the [expect] holds. *)
Definition build_madt (cfg : AcpiConfig) : option (list Z) :=
  let* _ := checked_mul 64 (max_cpus cfg) 8 in
  seal (madt_raw cfg) (madt_size cfg).

(** ** HPET and SPCR: tables.rs *)

Definition HPET_TABLE_SIZE : Z := 56.

Definition hpet_raw : list Z :=
  write_header (s2b "HPET") HPET_TABLE_SIZE 1 ++
  le_bytes 4 0 ++ [0; 0; 0; 0] ++ le_bytes 8 HPET_ADDR ++ [0] ++ le_bytes 2 0 ++ [0x04].

Definition build_hpet : option (list Z) := seal hpet_raw HPET_TABLE_SIZE.

Definition SPCR_TABLE_SIZE : Z := 80.

Definition spcr_raw : list Z :=
  write_header (s2b "SPCR") SPCR_TABLE_SIZE 1 ++
  [0x00] ++ [0; 0; 0] ++ write_gas ACPI_AS_SYSTEM_IO 8 0 ACPI_GAS_BYTE 0x3F8 ++ [0x01; 4] ++ le_bytes 4 4 ++
  [7; 0; 1; 0; 0; 0] ++ le_bytes 2 0xFFFF ++ le_bytes 2 0xFFFF ++ [0; 0; 0] ++ le_bytes 4 0 ++ [0] ++ le_bytes 4 0.

Definition build_spcr : option (list Z) := seal spcr_raw SPCR_TABLE_SIZE.

(** ** RSDT, XSDT and RSDP: rsdp.rs *)

Definition rsdt_size (addrs : list Z) : Z := ACPI_HDR_SIZE + Z.of_nat (List.length addrs) * 4.
Definition rsdt_raw (addrs : list Z) : list Z :=
  write_header (s2b "RSDT") (as_u 32 (rsdt_size addrs)) 1 ++ concat (le_bytes 4 <$> addrs).
Definition build_rsdt (addrs : list Z) : option (list Z) := seal (rsdt_raw addrs) (rsdt_size addrs).

Definition xsdt_size (addrs : list Z) : Z := ACPI_HDR_SIZE + Z.of_nat (List.length addrs) * 8.
Definition xsdt_raw (addrs : list Z) : list Z :=
  write_header (s2b "XSDT") (as_u 32 (xsdt_size addrs)) 1 ++ concat (le_bytes 8 <$> addrs).
Definition build_xsdt (addrs : list Z) : option (list Z) := seal (xsdt_raw addrs) (xsdt_size addrs).

Definition RSDP_SIZE : Z := 36.

Definition build_rsdp (rsdt_addr xsdt_addr : Z) : option (list Z) :=
  let buf := replicate 36 0 in
  let* buf := put 0 (s2b "RSD PTR ") buf in
  let* buf := put 8 [0] buf in
  let* buf := put 9 OEM_ID buf in
  let* buf := put 15 [2] buf in
  let* buf := put 16 (le_bytes 4 rsdt_addr) buf in
  let* buf := put 20 (le_bytes 4 RSDP_SIZE) buf in
  let* buf := put 24 (le_bytes 8 xsdt_addr) buf in
  let* buf := put 32 [0] buf in
  let* buf := put 33 [0] buf in
  let* buf := put 34 [0] buf in
  let* buf := put 35 [0] buf in
  let* buf := fix_checksum_at buf 8 0 20 in
  fix_checksum_at buf 32 0 RSDP_SIZE.

(** ** DSDT: dsdt.rs *)

(** The hotplug sections ([hotplug/pci.rs], [cpu.rs], [mem.rs]) write the
    byte code of the [acpi_tables] crate, which is not in the tree. *)
Record HotplugAml : Type := mkHotplugAml {
  pci_devices : AcpiConfig -> Aml -> option Aml;
  cpu_devices : AcpiConfig -> Aml -> option Aml;
  mem_devices : AcpiConfig -> Aml -> option Aml;
  pci_gpe_body : AcpiConfig -> Aml -> option Aml;
  cpu_gpe_body : AcpiConfig -> Aml -> option Aml;
  mem_gpe_body : AcpiConfig -> Aml -> option Aml;
}.

(** [name_val("_HID", AmlValue::DWord(Aml::eisa_id(id)))]. *)
Definition hid (id : list Z) (buf : Aml) : option Aml :=
  let* v := eisa_id id in name_val (s2b "_HID") (DWord v) buf.

Definition prt_entry (slot pin : Z) : list AmlValue :=
  let gsi := wadd 32 16 (wadd 32 (wadd 32 4 slot) pin mod 8) in
  [DWord (Z.lor (as_u 32 (Z.shiftl slot 16)) 0xFFFF); Byte (as_u 8 pin); Zero; DWord gsi].

(** The two nested [for]s. *)
Definition prt_storage : list (list AmlValue) :=
  concat ((fun slot => prt_entry slot <$> seqZ 0 4) <$> seqZ 1 31).

Definition isa_device : Aml -> option Aml :=
  device (s2b "ISA_") (block [
    name_val (s2b "_ADR") (DWord 0x00010000);
    device (s2b "COM1") (block [
      hid (s2b "PNP0501");
      name_val (s2b "_UID") One;
      name_resource_template (s2b "_CRS") (block [io_resource 0x3F8 0x3F8 1 8; irq_no_flags 4])]);
    device (s2b "COM2") (block [
      hid (s2b "PNP0501");
      name_val (s2b "_UID") (Byte 2);
      name_resource_template (s2b "_CRS") (block [io_resource 0x2F8 0x2F8 1 8; irq_no_flags 3])]);
    device (s2b "KBD") (block [
      hid (s2b "PNP0303");
      name_resource_template (s2b "_CRS") (block [io_resource 0x60 0x60 1 1; io_resource 0x64 0x64 1 1; irq_no_flags 1])]);
    device (s2b "MOU") (block [
      hid (s2b "PNP0F13");
      name_resource_template (s2b "_CRS") (block [io_resource 0x60 0x60 1 1; io_resource 0x64 0x64 1 1; irq_no_flags 12])]);
    device (s2b "PIC_") (block [
      hid (s2b "PNP0000");
      name_resource_template (s2b "_CRS") (block [io_resource 0x20 0x20 1 2; io_resource 0xA0 0xA0 1 2; irq_no_flags 2])]);
    device (s2b "TIMR") (block [
      hid (s2b "PNP0100");
      name_resource_template (s2b "_CRS") (block [io_resource 0x40 0x40 1 4; irq_no_flags 0])]);
    device (s2b "RTC0") (block [
      hid (s2b "PNP0B00");
      name_resource_template (s2b "_CRS") (block [io_resource 0x70 0x70 1 2; irq_no_flags 8])])]).

Definition pci_host_bridge : Aml -> option Aml :=
  device (s2b "PC00") (block [
    hid (s2b "PNP0A03");
    name_val (s2b "_ADR") Zero;
    method (s2b "_BBN") 0 false (return_val Zero);
    name_resource_template (s2b "_CRS") (block [
      word_bus_number 0x0000 0x00FF 0x0100;
      io_resource 0x0CF8 0x0CF8 1 8;
      word_io 0x0000 0x0CF7 0x0CF8;
      word_io 0x0D00 0xFFFF 0xF300;
      dword_memory 0xC0000000 0xFEBFFFFF 0x3EC00000]);
    name_nested_packages (s2b "APRT") prt_storage;
    method (s2b "_PRT") 0 false (return_name (s2b "APRT"));
    device (s2b "HPET") (block [
      hid (s2b "PNP0103");
      name_val (s2b "_UID") Zero;
      name_resource_template (s2b "_CRS") (memory32_fixed HPET_ADDR 0x400)]);
    isa_device]).

Definition emit_gpe_reservation : Aml -> option Aml :=
  device (s2b "GPEB") (block [
    hid (s2b "PNP0A06");
    name_val (s2b "_UID") Zero;
    name_val (s2b "_STA") (Byte 0x0B);
    name_resource_template (s2b "_CRS") (io_resource GPE0_BLK_ADDR GPE0_BLK_ADDR 1 GPE0_BLK_LEN)]).

Definition emit_tpm_device (t : TpmDevice) : Aml -> option Aml :=
  device (s2b "TPM") (block [
    name_val (s2b "_HID") (VString (s2b "MSFT0101"));
    name_val (s2b "_STA") (Byte 0x0F);
    name_resource_template (s2b "_CRS") (memory32_fixed (crb_base t) (crb_len t))]).

Definition emit_devices (hp : HotplugAml) (cfg : AcpiConfig) : Aml -> option Aml :=
  block [pci_devices hp cfg; cpu_devices hp cfg; mem_devices hp cfg].

Definition emit_gpe_handlers (hp : HotplugAml) (cfg : AcpiConfig) : Aml -> option Aml :=
  scope (s2b "\_GPE") (block [
    method (s2b "_E01") 0 false (pci_gpe_body hp cfg);
    method (s2b "_E02") 0 false (cpu_gpe_body hp cfg);
    method (s2b "_E03") 0 false (mem_gpe_body hp cfg)]).

(** The byte code of [build_dsdt]. *)
Definition dsdt_aml (hp : HotplugAml) (cfg : AcpiConfig) : Aml -> option Aml :=
  block [
    name_package (s2b "_S5_") [Byte 0x05; Zero];
    name_val (s2b "PICM") Zero;
    method (s2b "_PIC") 1 false (store_arg0 (s2b "PICM"));
    scope (s2b "\_SB") (block [
      pci_host_bridge;
      (match tpm cfg with Some t => emit_tpm_device t | None => Some end);
      (if hotplug cfg then block [emit_gpe_reservation; emit_devices hp cfg] else Some)]);
    (if hotplug cfg then emit_gpe_handlers hp cfg else Some)].

Definition dsdt_raw (aml_body : list Z) : list Z :=
  write_header (s2b "DSDT") (as_u 32 (ACPI_HDR_SIZE + len aml_body)) 2 ++ aml_body.

Definition build_dsdt (hp : HotplugAml) (cfg : AcpiConfig) : option (list Z) :=
  let* aml_body := dsdt_aml hp cfg [] in
  fix_checksum (dsdt_raw aml_body) 0 (ACPI_HDR_SIZE + len aml_body).

(** ** The layout at guest addresses: mod.rs *)

Record AcpiTables : Type := mkAcpiTables { data : list Z; fwcfg_entries : list (list Z * list Z) }.

Definition generate_acpi_tables_inner (hp : HotplugAml) (cfg : AcpiConfig) (tpm2_table : option (list Z)) : option AcpiTables :=
  let base := BHYVE_ACPI_BASE in
  let gpa blob := wadd 64 base (len blob) in
  let rsdp_offset := 0 in
  let blob := replicate 36 0 in
  let facs_gpa := gpa blob in
  let* facs := build_facs in
  let blob := blob ++ facs in
  let dsdt_gpa := gpa blob in
  let* dsdt := build_dsdt hp cfg in
  let blob := blob ++ dsdt in
  let fadt_gpa := gpa blob in
  let* fadt := build_fadt (as_u 32 facs_gpa) (as_u 32 dsdt_gpa) cfg in
  let blob := blob ++ fadt in
  let madt_gpa := gpa blob in
  let* madt := build_madt cfg in
  let blob := blob ++ madt in
  let hpet_gpa := gpa blob in
  let* hpet := build_hpet in
  let blob := blob ++ hpet in
  let spcr_gpa := gpa blob in
  let* spcr := build_spcr in
  let blob := blob ++ spcr in
  let '(blob, tpm2_gpa) :=
    match tpm2_table with Some bytes => (blob ++ bytes, [gpa blob]) | None => (blob, []) end in
  let entries := [fadt_gpa; madt_gpa; hpet_gpa; spcr_gpa] ++ tpm2_gpa in
  let rsdt_gpa := gpa blob in
  let* rsdt := build_rsdt (as_u 32 <$> entries) in
  let blob := blob ++ rsdt in
  let xsdt_gpa := gpa blob in
  let* xsdt := build_xsdt entries in
  let blob := blob ++ xsdt in
  let* rsdp := build_rsdp (as_u 32 rsdt_gpa) xsdt_gpa in
  let* blob := put rsdp_offset rsdp blob in
  Some (mkAcpiTables blob [(s2b "etc/acpi/rsdp", rsdp); (s2b "etc/acpi/tables", blob)]).

Definition generate_acpi_tables_for_config (hp : HotplugAml) (cfg : AcpiConfig) (t : option TpmAcpi) : option AcpiTables :=
  generate_acpi_tables_inner hp (with_tpm cfg (device_ <$> t)) (table <$> t).

(** ** The layout in blob offsets: mod.rs *)

Record AcpiLayout : Type := mkAcpiLayout {
  tables : list Z;
  rsdp : list Z;
  facs_offset : Z; facs_len : Z;
  dsdt_offset : Z; dsdt_len : Z;
  fadt_offset : Z; fadt_len : Z;
  madt_offset : Z; madt_len : Z;
  hpet_offset : Z; hpet_len : Z;
  spcr_offset : Z; spcr_len : Z;
  tpm2_offset : Z; tpm2_len : Z;
  rsdt_offset : Z; rsdt_len : Z;
  xsdt_offset : Z; xsdt_len : Z;
}.

(** [tables.extend_from_slice(&t); tables[offset + 9] = 0]. *)
Definition push_unsummed (blob t : list Z) : option (list Z) := put (len blob + 9) [0] (blob ++ t).

Definition generate_acpi_layout_inner (hp : HotplugAml) (cfg : AcpiConfig) (dsdt_override tpm2_table : option (list Z)) :
    option AcpiLayout :=
  if match dsdt_override, tpm cfg with Some _, Some _ => true | _, _ => false end then None
  else
    let blob := [] in
    let facs_off := len blob in
    let* facs := build_facs in
    let blob := blob ++ facs in
    let dsdt_off := len blob in
    let* dsdt := match dsdt_override with Some d => Some d | None => build_dsdt hp cfg end in
    let blob := blob ++ dsdt in
    let fadt_off := len blob in
    let* fadt := build_fadt (as_u 32 facs_off) (as_u 32 dsdt_off) cfg in
    let blob := blob ++ fadt in
    let* blob := put (fadt_off + 132) (le_bytes 8 facs_off) blob in
    let* blob := put (fadt_off + 140) (le_bytes 8 dsdt_off) blob in
    let* blob := put (fadt_off + 9) [0] blob in
    let madt_off := len blob in
    let* madt := build_madt cfg in
    let* blob := push_unsummed blob madt in
    let hpet_off := len blob in
    let* hpet := build_hpet in
    let* blob := push_unsummed blob hpet in
    let spcr_off := len blob in
    let* spcr := build_spcr in
    let* blob := push_unsummed blob spcr in
    let* '(blob, tpm2_off, tpm2_sz) :=
      match tpm2_table with
      | Some bytes => let off := len blob in let* blob := push_unsummed blob bytes in Some (blob, off, len bytes)
      | None => Some (blob, 0, 0)
      end in
    let entries := [fadt_off; madt_off; hpet_off; spcr_off] ++ (if 0 <? tpm2_sz then [tpm2_off] else []) in
    let rsdt_off := len blob in
    let* rsdt := build_rsdt (as_u 32 <$> entries) in
    let* blob := push_unsummed blob rsdt in
    let xsdt_off := len blob in
    let* xsdt := build_xsdt entries in
    let* blob := push_unsummed blob xsdt in
    let* rsdp := build_rsdp (as_u 32 rsdt_off) xsdt_off in
    let* rsdp := put 8 [0] rsdp in
    let* rsdp := put 32 [0] rsdp in
    let* blob := put (dsdt_off + 9) [0] blob in
    Some (mkAcpiLayout blob rsdp facs_off (len facs) dsdt_off (len dsdt) fadt_off (len fadt) madt_off (len madt)
            hpet_off (len hpet) spcr_off (len spcr) tpm2_off tpm2_sz rsdt_off (len rsdt) xsdt_off (len xsdt)).

Definition generate_acpi_layout_for_config (hp : HotplugAml) (cfg : AcpiConfig) (dsdt_override : option (list Z)) (t : option TpmAcpi) :
    option AcpiLayout :=
  generate_acpi_layout_inner hp (with_tpm cfg (device_ <$> t)) dsdt_override (table <$> t).

(** ** The loader script: loader.rs *)

Definition LOADER_ENTRY_SIZE : Z := 128.
Definition LOADER_MAX_NAME : Z := 56.
Definition LOADER_CMD_ALLOC : Z := 1.
Definition LOADER_CMD_ADD_POINTER : Z := 2.
Definition LOADER_CMD_ADD_CHECKSUM : Z := 3.
Definition ZONE_HIGH : Z := 1.
Definition ZONE_FSEG : Z := 2.
Definition TABLES_BLOB_NAME : list Z := s2b "etc/acpi/tables".
Definition RSDP_BLOB_NAME : list Z := s2b "etc/acpi/rsdp".

Definition write_loader_name (name : list Z) : option (list Z) :=
  if len name <? LOADER_MAX_NAME then put 0 name (replicate 56 0) else None.

Definition loader_alloc_cmd (name : list Z) (alignment zone : Z) : option (list Z) :=
  let entry := replicate 128 0 in
  let* entry := put 0 (le_bytes 4 LOADER_CMD_ALLOC) entry in
  let* name_buf := write_loader_name name in
  let* entry := put 4 name_buf entry in
  let* entry := put 60 (le_bytes 4 alignment) entry in
  put 64 [zone] entry.

Definition loader_add_pointer_cmd (dest_name src_name : list Z) (offset size : Z) : option (list Z) :=
  let entry := replicate 128 0 in
  let* entry := put 0 (le_bytes 4 LOADER_CMD_ADD_POINTER) entry in
  let* dest_buf := write_loader_name dest_name in
  let* entry := put 4 dest_buf entry in
  let* src_buf := write_loader_name src_name in
  let* entry := put 60 src_buf entry in
  let* entry := put 116 (le_bytes 4 offset) entry in
  put 120 [size] entry.

Definition loader_add_checksum_cmd (name : list Z) (cksum_offset start length : Z) : option (list Z) :=
  let entry := replicate 128 0 in
  let* entry := put 0 (le_bytes 4 LOADER_CMD_ADD_CHECKSUM) entry in
  let* name_buf := write_loader_name name in
  let* entry := put 4 name_buf entry in
  let* entry := put 60 (le_bytes 4 cksum_offset) entry in
  let* entry := put 64 (le_bytes 4 start) entry in
  put 68 (le_bytes 4 length) entry.

(** A pointer of the tables blob into itself, and the checksum of a table. *)
Definition table_pointer (off size : Z) : option (list Z) :=
  loader_add_pointer_cmd TABLES_BLOB_NAME TABLES_BLOB_NAME (as_u 32 off) size.
Definition table_checksum (off size : Z) : option (list Z) :=
  loader_add_checksum_cmd TABLES_BLOB_NAME (as_u 32 (off + 9)) (as_u 32 off) (as_u 32 size).

Definition generate_table_loader (l : AcpiLayout) : option (list Z) :=
  let sdt_entry_count := if 0 <? tpm2_len l then 5 else 4 in
  let* cmds := mapM id (
    [loader_alloc_cmd TABLES_BLOB_NAME 0x40 ZONE_HIGH;
     loader_alloc_cmd RSDP_BLOB_NAME 0x10 ZONE_FSEG;
     loader_add_pointer_cmd RSDP_BLOB_NAME TABLES_BLOB_NAME 16 4;
     loader_add_pointer_cmd RSDP_BLOB_NAME TABLES_BLOB_NAME 24 8;
     table_pointer (fadt_offset l + 36) 4;
     table_pointer (fadt_offset l + 40) 4;
     table_pointer (fadt_offset l + 132) 8;
     table_pointer (fadt_offset l + 140) 8] ++
    ((fun i => table_pointer (rsdt_offset l + ACPI_HDR_SIZE + i * 4) 4) <$> seqZ 0 sdt_entry_count) ++
    ((fun i => table_pointer (xsdt_offset l + ACPI_HDR_SIZE + i * 8) 8) <$> seqZ 0 sdt_entry_count) ++
    [loader_add_checksum_cmd RSDP_BLOB_NAME 8 0 20;
     loader_add_checksum_cmd RSDP_BLOB_NAME 32 0 RSDP_SIZE;
     table_checksum (fadt_offset l) (fadt_len l);
     table_checksum (dsdt_offset l) (dsdt_len l);
     table_checksum (madt_offset l) (madt_len l);
     table_checksum (hpet_offset l) (hpet_len l);
     table_checksum (spcr_offset l) (spcr_len l)] ++
    (if 0 <? tpm2_len l then [table_checksum (tpm2_offset l) (tpm2_len l)] else []) ++
    [table_checksum (rsdt_offset l) (rsdt_len l);
     table_checksum (xsdt_offset l) (xsdt_len l)]) in
  Some (concat cmds).

(** ** The E820 map: e820.rs *)

Record E820Entry : Type := mkE820Entry { addr : Z; size : Z; type_ : Z }.

Definition E820_TYPE_RAM : Z := 1.
Definition E820_TYPE_RESERVED : Z := 2.
Definition E820_VGA_BASE : Z := 0xA0000.
Definition E820_ROM_END : Z := 0x100000.
Definition FOUR_GIB : Z := 0x100000000.
Definition LOWMEM_LIMIT : Z := 0xC0000000.

Definition build_e820_entries (mem_size : Z) : list E820Entry :=
  let lowmem := Z.min mem_size LOWMEM_LIMIT in
  let highmem := saturating_sub mem_size LOWMEM_LIMIT in
  let low_end := Z.min lowmem E820_VGA_BASE in
  (if 0 <? lowmem then if 0 <? low_end then [mkE820Entry 0 low_end E820_TYPE_RAM] else [] else []) ++
  [mkE820Entry E820_VGA_BASE (E820_ROM_END - E820_VGA_BASE) E820_TYPE_RESERVED] ++
  (if E820_ROM_END <? lowmem then [mkE820Entry E820_ROM_END (lowmem - E820_ROM_END) E820_TYPE_RAM] else []) ++
  (if 0 <? highmem then [mkE820Entry FOUR_GIB highmem E820_TYPE_RAM] else []).

Definition build_e820 (mem_size : Z) : list Z :=
  concat ((fun e => le_bytes 8 (addr e) ++ le_bytes 8 (size e) ++ le_bytes 4 (type_ e)) <$> build_e820_entries mem_size).

End acpi.
