(* ===== verification/AcpiThm.v ===== *)
(** * The ACPI tables a guest finds

    The firmware's side of the loader protocol ([fw_loader]: QEMU's
    [bios-linker-loader], as OVMF runs it) and the operating system's side of
    table discovery ([acpi_os]: ACPI 6.5 sec 5.2), both written from their
    specifications, and the proof that the tables and the script of
    [crates/vmm-devices/src/acpi/] bring the second to every table. *)

From S2P Require Import Prelude Aml Acpi.
From Stdlib Require Ascii String.
Import String.StringSyntax.
Import aml acpi.

(** ** Byte ranges *)

Lemma put_inv off bs buf buf' : put off bs buf = Some buf' ->
  exists a o c, buf = a ++ o ++ c /\ len a = off /\ len o = len bs /\ buf' = a ++ bs ++ c.
Proof.
  unfold put. destruct (Z.leb_spec 0 off), (Z.leb_spec (off + len bs) (len buf)); try done. intros [= <-]. unfold len in *.
  exists (take (Z.to_nat off) buf), (take (List.length bs) (drop (Z.to_nat off) buf)), (drop (Z.to_nat off + List.length bs) buf).
  split_and!; [|rewrite length_take; lia|rewrite length_take, length_drop; lia|done].
  by rewrite <- drop_drop, !take_drop.
Qed.

Lemma put_at a o c bs off : len a = off -> len o = len bs -> put off bs (a ++ o ++ c) = Some (a ++ bs ++ c).
Proof.
  intros <- Ho. unfold put. rewrite !len_app. pose proof (len_nonneg a). pose proof (len_nonneg c).
  destruct (Z.leb_spec 0 (len a)), (Z.leb_spec (len a + len bs) (len a + (len o + len c))); try lia. simpl. f_equal. unfold len in *.
  rewrite Nat2Z.id, take_app_length. f_equal. f_equal. rewrite <- drop_drop, drop_app_length.
  replace (List.length bs) with (List.length o) by lia. by rewrite drop_app_length.
Qed.

Lemma slice_at a o c off n : len a = off -> len o = n -> slice off n (a ++ o ++ c) = Some o.
Proof.
  intros <- <-. unfold slice. rewrite !len_app. pose proof (len_nonneg a). pose proof (len_nonneg c). pose proof (len_nonneg o).
  destruct (Z.leb_spec 0 (len a)), (Z.leb_spec 0 (len o)), (Z.leb_spec (len a + len o) (len a + (len o + len c))); try lia. simpl. f_equal.
  unfold len. by rewrite !Nat2Z.id, drop_app_length, take_app_length.
Qed.

Lemma slice_inv off n buf o : slice off n buf = Some o -> exists a c, buf = a ++ o ++ c /\ len a = off /\ len o = n.
Proof.
  unfold slice. destruct (Z.leb_spec 0 off), (Z.leb_spec 0 n), (Z.leb_spec (off + n) (len buf)); try done. intros [= <-]. unfold len in *.
  exists (take (Z.to_nat off) buf), (drop (Z.to_nat n) (drop (Z.to_nat off) buf)).
  rewrite !take_drop, !length_take, length_drop. split_and!; [done|lia|lia].
Qed.

Lemma put_len off bs buf buf' : put off bs buf = Some buf' -> len buf' = len buf.
Proof. intros (a & o & c & -> & _ & H & ->)%put_inv. rewrite !len_app. lia. Qed.

Lemma put_inside a b b' c off bs : put off bs b = Some b' -> put (len a + off) bs (a ++ b ++ c) = Some (a ++ b' ++ c).
Proof.
  intros (x & o & y & -> & <- & H & ->)%put_inv.
  replace (a ++ (x ++ o ++ y) ++ c) with ((a ++ x) ++ o ++ (y ++ c)) by (by rewrite <- !app_assoc).
  rewrite (put_at (a ++ x) o (y ++ c)); [by rewrite <- !app_assoc|by rewrite len_app|done].
Qed.

Lemma slice_inside a b c off n o : slice off n b = Some o -> slice (len a + off) n (a ++ b ++ c) = Some o.
Proof.
  intros (x & y & -> & <- & H)%slice_inv.
  replace (a ++ (x ++ o ++ y) ++ c) with ((a ++ x) ++ o ++ (y ++ c)) by (by rewrite <- !app_assoc).
  apply slice_at; [by rewrite len_app|done].
Qed.

(** ** Checksums *)

Definition sumz (bs : list Z) : Z := foldr Z.add 0 bs.

Lemma sumz_app a b : sumz (a ++ b) = sumz a + sumz b.
Proof. induction a as [|x a IH]; simpl; lia. Qed.

Lemma sum8_sumz bs : sum8 bs = sumz bs mod 256.
Proof.
  unfold sum8. assert (forall x, 0 <= x < 256 -> foldl (wadd 8) x bs = (x + sumz bs) mod 256) as H.
  { induction bs as [|b bs IH]; intros x Hx; simpl.
    - rewrite Z.add_0_r, Z.mod_small; lia.
    - rewrite IH; unfold wadd; change (2 ^ 8) with 256.
      + rewrite Z.add_mod_idemp_l by lia. f_equal. lia.
      + apply Z.mod_pos_bound. lia. }
  by rewrite H.
Qed.

(** The checksum byte, written over a zero. *)
Definition balance (bs : list Z) : Z := wsub 8 0 (sum8 bs).

Lemma balance_sums a c : sum8 (a ++ [balance (a ++ [0] ++ c)] ++ c) = 0.
Proof.
  unfold balance, wsub. change (2 ^ 8) with 256. rewrite !sum8_sumz, !sumz_app. cbn [sumz foldr]. rewrite Z.add_0_r, Z.add_0_l.
  set (t := sumz a + sumz c). pose proof (Z.div_mod t 256 ltac:(lia)). pose proof (Z.div_mod (0 - t mod 256) 256 ltac:(lia)).
  replace (sumz a + ((0 - t mod 256) mod 256 + sumz c)) with ((t / 256 - (0 - t mod 256) / 256) * 256) by lia.
  apply Z.mod_mul. lia.
Qed.

(** ** A table: 36 bytes of header, the checksum at offset 9 *)

(** A table whose checksum is still zero: the bytes before and after it. *)
Definition unsummed (pre post : list Z) : list Z := pre ++ [0] ++ post.
Definition summed (pre post : list Z) : list Z := pre ++ [balance (unsummed pre post)] ++ post.

Lemma unsummed_len pre post : len (unsummed pre post) = len pre + 1 + len post.
Proof. unfold unsummed. rewrite !len_app. unfold len. simpl. lia. Qed.

Lemma summed_len pre post : len (summed pre post) = len pre + 1 + len post.
Proof. unfold summed. rewrite !len_app. unfold len. simpl. lia. Qed.

Lemma slice_all bs : slice 0 (len bs) bs = Some bs.
Proof. pose proof (slice_at [] bs [] 0 (len bs) eq_refl eq_refl) as H. by rewrite app_nil_r in H. Qed.

Lemma fix_unsummed pre post n : len pre = 9 -> n = len (unsummed pre post) ->
  fix_checksum (unsummed pre post) 0 n = Some (summed pre post).
Proof. intros Hp ->. unfold fix_checksum. rewrite slice_all. by apply put_at. Qed.

Lemma clear_summed pre post x : len pre = 9 -> put 9 [0] (pre ++ [x] ++ post) = Some (unsummed pre post).
Proof. intros Hp. by apply put_at. Qed.

(** What a writer hands to [seal]: a header, with the checksum zero, and the fields. *)
Definition hdr_pre (sig : list Z) (length revision : Z) : list Z := sig ++ le_bytes 4 length ++ [revision].
Definition hdr_post : list Z := OEM_ID ++ OEM_TABLE_ID ++ le_bytes 4 1 ++ CREATOR_ID ++ le_bytes 4 1.

Lemma header_unsummed sig n r fields : write_header sig n r ++ fields = unsummed (hdr_pre sig n r) (hdr_post ++ fields).
Proof. unfold write_header, unsummed, hdr_pre, hdr_post. by rewrite <- !app_assoc. Qed.

Lemma hdr_pre_len sig n r : len sig = 4 -> len (hdr_pre sig n r) = 9.
Proof. intros H. unfold hdr_pre. rewrite !len_app, H. done. Qed.

(** The table a writer returns. *)
Definition sdt (sig : list Z) (revision : Z) (fields : list Z) : list Z :=
  let n := as_u 32 (ACPI_HDR_SIZE + len fields) in summed (hdr_pre sig n revision) (hdr_post ++ fields).
Definition sdt_unsummed (sig : list Z) (revision : Z) (fields : list Z) : list Z :=
  let n := as_u 32 (ACPI_HDR_SIZE + len fields) in unsummed (hdr_pre sig n revision) (hdr_post ++ fields).

Lemma sdt_len sig r fields : len sig = 4 -> len (sdt sig r fields) = ACPI_HDR_SIZE + len fields.
Proof. intros H. unfold sdt. rewrite summed_len, hdr_pre_len, len_app by done. change (len hdr_post) with 26. unfold ACPI_HDR_SIZE. lia. Qed.

Lemma sdt_unsummed_len sig r fields : len sig = 4 -> len (sdt_unsummed sig r fields) = ACPI_HDR_SIZE + len fields.
Proof. intros H. unfold sdt_unsummed. rewrite unsummed_len, hdr_pre_len, len_app by done. change (len hdr_post) with 26. unfold ACPI_HDR_SIZE. lia. Qed.

Lemma fix_sdt sig r fields n : len sig = 4 -> n = ACPI_HDR_SIZE + len fields ->
  fix_checksum (sdt_unsummed sig r fields) 0 n = Some (sdt sig r fields).
Proof. intros H ->. apply fix_unsummed; [by apply hdr_pre_len|]. symmetry. by apply sdt_unsummed_len. Qed.

Lemma clear_sdt sig r fields : len sig = 4 -> put 9 [0] (sdt sig r fields) = Some (sdt_unsummed sig r fields).
Proof. intros H. apply clear_summed. by apply hdr_pre_len. Qed.

Lemma seal_sdt sig r fields n : len sig = 4 -> n = ACPI_HDR_SIZE + len fields ->
  seal (write_header sig (as_u 32 n) r ++ fields) n = Some (sdt sig r fields).
Proof.
  intros H ->. rewrite header_unsummed. unfold seal. fold (sdt_unsummed sig r fields). rewrite sdt_unsummed_len, Z.eqb_refl by done.
  by apply fix_sdt.
Qed.

(** ** What each writer returns *)

Lemma fadt_fields_len a b cfg : len (fadt_fields a b cfg) = 240.
Proof. unfold fadt_fields. destruct (hotplug cfg); reflexivity. Qed.

Lemma build_fadt_eq a b cfg : build_fadt a b cfg = Some (sdt (s2b "FACP") 5 (fadt_fields a b cfg)).
Proof.
  unfold build_fadt, fadt_raw. change FADT_SIZE with (as_u 32 FADT_SIZE) at 1. apply seal_sdt; [done|]. by rewrite fadt_fields_len.
Qed.

Lemma lapic_entries_len n l : len (concat (lapic_entry n <$> l)) = 8 * Z.of_nat (List.length l).
Proof. induction l as [|i l IH]; [done|]. cbn [fmap list_fmap concat]. rewrite len_app, IH. cbn [List.length]. change (len (lapic_entry n i)) with 8. lia. Qed.

Lemma madt_fields_len cfg : 0 <= max_cpus cfg -> ACPI_HDR_SIZE + len (madt_fields cfg) = madt_size cfg.
Proof.
  intros H. unfold madt_fields, madt_size. rewrite !len_app, lapic_entries_len, length_seqZ. change (len madt_tail) with 38.
  change (len (le_bytes 4 LAPIC_ADDR)) with 4. change (len (le_bytes 4 1)) with 4. lia.
Qed.

Lemma build_madt_eq cfg : uint 32 (max_cpus cfg) -> build_madt cfg = Some (sdt (s2b "APIC") 1 (madt_fields cfg)).
Proof.
  intros H. unfold uint in H. unfold build_madt, checked_mul. destruct (Z.ltb_spec (max_cpus cfg * 8) (2 ^ 64)); [|lia].
  unfold madt_raw. apply seal_sdt; [done|]. symmetry. apply madt_fields_len. lia.
Qed.

Definition hpet_fields : list Z := Eval cbv in drop 36 hpet_raw.
Definition spcr_fields : list Z := Eval cbv in drop 36 spcr_raw.

Lemma build_hpet_eq : build_hpet = Some (sdt (s2b "HPET") 1 hpet_fields).
Proof. vm_compute. reflexivity. Qed.

Lemma build_spcr_eq : build_spcr = Some (sdt (s2b "SPCR") 1 spcr_fields).
Proof. vm_compute. reflexivity. Qed.

Definition ptrs (n : nat) (l : list Z) : list Z := concat (le_bytes n <$> l).

Lemma ptrs_len n l : len (ptrs n l) = Z.of_nat (List.length l) * Z.of_nat n.
Proof.
  unfold ptrs. induction l as [|x l IH]; [done|]. cbn [fmap list_fmap concat]. rewrite len_app, IH. cbn [List.length].
  unfold len. rewrite length_le_bytes. lia.
Qed.

Lemma build_rsdt_eq l : build_rsdt l = Some (sdt (s2b "RSDT") 1 (ptrs 4 l)).
Proof. unfold build_rsdt, rsdt_raw. apply seal_sdt; [done|]. fold (ptrs 4 l). rewrite ptrs_len. done. Qed.

Lemma build_xsdt_eq l : build_xsdt l = Some (sdt (s2b "XSDT") 1 (ptrs 8 l)).
Proof. unfold build_xsdt, xsdt_raw. apply seal_sdt; [done|]. fold (ptrs 8 l). rewrite ptrs_len. done. Qed.

Lemma build_dsdt_eq hp cfg body : dsdt_aml hp cfg [] = Some body -> build_dsdt hp cfg = Some (sdt (s2b "DSDT") 2 body).
Proof. intros H. unfold build_dsdt. rewrite H. unfold dsdt_raw. rewrite header_unsummed. by apply fix_sdt. Qed.

Definition facs : list Z := Eval cbv in default [] build_facs.

Lemma build_facs_eq : build_facs = Some facs.
Proof. reflexivity. Qed.

(** ** The RSDP *)

Definition rsdp_bytes (c8 c32 rsdt xsdt : Z) : list Z :=
  s2b "RSD PTR " ++ [c8] ++ OEM_ID ++ [2] ++ le_bytes 4 rsdt ++ le_bytes 4 RSDP_SIZE ++ le_bytes 8 xsdt ++ [c32; 0; 0; 0].

Definition rsdp_sum (rsdt xsdt : Z) : list Z :=
  let c8 := balance (take 20 (rsdp_bytes 0 0 rsdt xsdt)) in
  rsdp_bytes c8 (balance (rsdp_bytes c8 0 rsdt xsdt)) rsdt xsdt.

Lemma build_rsdp_eq rsdt xsdt : build_rsdp rsdt xsdt = Some (rsdp_sum rsdt xsdt).
Proof. cbv -[sum8 wsub Z.modulo Z.div]. reflexivity. Qed.

Lemma rsdp_unsummed rsdt xsdt :
  (let* r := put 8 [0] (rsdp_sum rsdt xsdt) in put 32 [0] r) = Some (rsdp_bytes 0 0 rsdt xsdt).
Proof. unfold rsdp_sum. generalize (balance (take 20 (rsdp_bytes 0 0 rsdt xsdt))). intros c8.
  generalize (balance (rsdp_bytes c8 0 rsdt xsdt)). intros c32. cbv -[Z.modulo Z.div]. reflexivity. Qed.

Module fw_loader.

(** ** The firmware's loader

    A command is 128 bytes; a name is NUL-padded in 56. ALLOC downloads a
    file and places it; ADD_POINTER adds the address of one file to a
    little-endian field of another, which holds an offset into it;
    ADD_CHECKSUM stores the byte that balances a range as it stands. What
    OVMF refuses ([AcpiPlatformDxe/QemuFwCfgAcpi.c]: a range outside its
    file, an offset outside the file it points into, a sum that does not fit
    the field) ends the run with [None]. *)

Inductive cmd : Type :=
| Alloc (file : list Z) (align zone : Z)
| AddPointer (pointer pointee : list Z) (offset size : Z)
| AddChecksum (file : list Z) (result start length : Z).

Fixpoint until_nul (bs : list Z) : list Z :=
  match bs with [] => [] | b :: bs => if b =? 0 then [] else b :: until_nul bs end.

Definition name_at (o : nat) (bs : list Z) : list Z := until_nul (take 56 (drop o bs)).

Definition parse_cmd (bs : list Z) : option cmd :=
  let f := field bs in
  if f 0%nat 4%nat =? 1 then Some (Alloc (name_at 4 bs) (f 60%nat 4%nat) (f 64%nat 1%nat))
  else if f 0%nat 4%nat =? 2 then Some (AddPointer (name_at 4 bs) (name_at 60 bs) (f 116%nat 4%nat) (f 120%nat 1%nat))
  else if f 0%nat 4%nat =? 3 then Some (AddChecksum (name_at 4 bs) (f 60%nat 4%nat) (f 64%nat 4%nat) (f 68%nat 4%nat))
  else None.

Fixpoint parse (fuel : nat) (bs : list Z) : option (list cmd) :=
  match bs, fuel with
  | [], _ => Some []
  | _, O => None
  | _, S fuel =>
      if len bs <? 128 then None
      else let* c := parse_cmd (take 128 bs) in let* cs := parse fuel (drop 128 bs) in Some (c :: cs)
  end.

(** Each placed file: its address and its bytes. *)
Notation Blobs := (gmap (list Z) (Z * list Z)).

Section run.
(** The files of fw_cfg, and where the firmware places each. *)
Context (files : list Z -> option (list Z)) (place : list Z -> Z).

Definition exec (c : cmd) (m : Blobs) : option Blobs :=
  match c with
  | Alloc file align zone =>
      let* bs := files file in
      if bool_decide (m !! file = None) && (place file mod align =? 0) then Some (<[file := (place file, bs)]> m) else None
  | AddPointer pointer pointee offset size =>
      let* '(pa, pb) := m !! pointer in
      let* '(ta, tb) := m !! pointee in
      let* fld := slice offset size pb in
      let v := le_val fld in
      if (v <? len tb) && (v + ta <? 2 ^ (8 * size)) then
        let* pb := put offset (le_bytes (Z.to_nat size) (v + ta)) pb in Some (<[pointer := (pa, pb)]> m)
      else None
  | AddChecksum file result start length =>
      let* '(a, bs) := m !! file in
      let* range := slice start length bs in
      let* bs := put result [wsub 8 0 (sum8 range)] bs in Some (<[file := (a, bs)]> m)
  end.

Fixpoint run (cs : list cmd) (m : Blobs) : option Blobs :=
  match cs with [] => Some m | c :: cs => let* m := exec c m in run cs m end.

Definition load (script : list Z) : option Blobs :=
  let* cs := parse (List.length script) script in run cs ∅.

Lemma run_app cs1 cs2 m : run (cs1 ++ cs2) m = let* m := run cs1 m in run cs2 m.
Proof. revert m. induction cs1 as [|c cs1 IH]; intros m; simpl; [done|]. destruct (exec c m); [apply IH|done]. Qed.

(** *** The two blobs *)

Definition two (T : Z) (t : list Z) (R : Z) (r : list Z) : Blobs :=
  <[TABLES_BLOB_NAME := (T, t)]> (<[RSDP_BLOB_NAME := (R, r)]> ∅).

Lemma two_tables T t R r : two T t R r !! TABLES_BLOB_NAME = Some (T, t).
Proof. unfold two. by rewrite lookup_insert_eq. Qed.

Lemma two_rsdp T t R r : two T t R r !! RSDP_BLOB_NAME = Some (R, r).
Proof. unfold two. by rewrite lookup_insert_ne, lookup_insert_eq. Qed.

Lemma two_set_tables T t R r t' : <[TABLES_BLOB_NAME := (T, t')]> (two T t R r) = two T t' R r.
Proof. unfold two. by rewrite insert_insert_eq. Qed.

Lemma two_set_rsdp T t R r r' : <[RSDP_BLOB_NAME := (R, r')]> (two T t R r) = two T t R r'.
Proof. unfold two. rewrite insert_insert_ne by done. by rewrite insert_insert_eq. Qed.

(** A pointer into the tables, in the tables and in the RSDP. *)
Lemma exec_table_pointer T t R r t' off n v :
  slice off (Z.of_nat n) t = Some (le_bytes n v) -> 0 <= v < len t -> 0 <= T -> T + len t <= 2 ^ (8 * Z.of_nat n) ->
  put off (le_bytes n (v + T)) t = Some t' ->
  exec (AddPointer TABLES_BLOB_NAME TABLES_BLOB_NAME off (Z.of_nat n)) (two T t R r) = Some (two T t' R r).
Proof.
  intros Hs Hv HT Hb Hp. unfold exec. rewrite two_tables, Hs, le_val_le_bytes by lia.
  destruct (Z.ltb_spec v (len t)), (Z.ltb_spec (v + T) (2 ^ (8 * Z.of_nat n))); try lia. simpl. rewrite Nat2Z.id, Hp. by rewrite two_set_tables.
Qed.

Lemma exec_rsdp_pointer T t R r r' off n v :
  slice off (Z.of_nat n) r = Some (le_bytes n v) -> 0 <= v < len t -> 0 <= T -> T + len t <= 2 ^ (8 * Z.of_nat n) ->
  put off (le_bytes n (v + T)) r = Some r' ->
  exec (AddPointer RSDP_BLOB_NAME TABLES_BLOB_NAME off (Z.of_nat n)) (two T t R r) = Some (two T t R r').
Proof.
  intros Hs Hv HT Hb Hp. unfold exec. rewrite two_tables, two_rsdp, Hs, le_val_le_bytes by lia.
  destruct (Z.ltb_spec v (len t)), (Z.ltb_spec (v + T) (2 ^ (8 * Z.of_nat n))); try lia. simpl. rewrite Nat2Z.id, Hp. by rewrite two_set_rsdp.
Qed.

(** *** One table among the others *)

Section segment.
Context (T R : Z) (r : list Z) (a c : list Z).
Notation at_ b := (two T (a ++ b ++ c) R r).

Lemma seg_pointer b b' off n v :
  slice off (Z.of_nat n) b = Some (le_bytes n v) -> 0 <= v < len (a ++ b ++ c) -> 0 <= T ->
  T + len (a ++ b ++ c) <= 2 ^ (8 * Z.of_nat n) -> put off (le_bytes n (v + T)) b = Some b' ->
  exec (AddPointer TABLES_BLOB_NAME TABLES_BLOB_NAME (len a + off) (Z.of_nat n)) (at_ b) = Some (at_ b').
Proof. intros. eapply exec_table_pointer; eauto using slice_inside, put_inside. Qed.

Lemma seg_checksum pre post : len pre = 9 ->
  exec (AddChecksum TABLES_BLOB_NAME (len a + 9) (len a) (len (unsummed pre post))) (at_ (unsummed pre post)) = Some (at_ (summed pre post)).
Proof.
  intros Hp. unfold exec. rewrite two_tables.
  pose proof (slice_inside a _ c 0 _ _ (slice_all (unsummed pre post))) as Hs. rewrite Z.add_0_r in Hs. rewrite Hs.
  erewrite put_inside; [|by apply (put_at pre [0] post)]. by rewrite two_set_tables.
Qed.

(** The pointers of an RSDT or XSDT, from the [i]th on. *)
Lemma seg_pointers n pre past todo post :
  Forall (fun v => 0 <= v < len (a ++ (pre ++ ptrs n (past ++ todo) ++ post) ++ c)) todo -> 0 <= T ->
  T + len (a ++ (pre ++ ptrs n (past ++ todo) ++ post) ++ c) <= 2 ^ (8 * Z.of_nat n) ->
  run ((fun i => AddPointer TABLES_BLOB_NAME TABLES_BLOB_NAME (len a + len pre + i * Z.of_nat n) (Z.of_nat n)) <$>
         seqZ (Z.of_nat (List.length past)) (Z.of_nat (List.length todo)))
      (at_ (pre ++ ptrs n (past ++ todo) ++ post))
  = Some (at_ (pre ++ ptrs n (past ++ ((fun v => v + T) <$> todo)) ++ post)).
Proof.
  intros Hv HT Hb. revert past Hv Hb. induction todo as [|v todo IH]; intros past Hv Hb; [done|].
  inversion_clear Hv as [|? ? Hv1 Hv2]. rewrite seqZ_cons by (cbn; lia). cbn [fmap list_fmap run].
  assert (Hsplit : forall x l, pre ++ ptrs n (past ++ x :: l) ++ post = (pre ++ ptrs n past) ++ le_bytes n x ++ (ptrs n l ++ post)).
  { intros x l. unfold ptrs. rewrite fmap_app, concat_app. cbn [fmap list_fmap concat]. by rewrite <- !app_assoc. }
  assert (Hn : len (pre ++ ptrs n past) = len pre + Z.of_nat (List.length past) * Z.of_nat n) by (rewrite len_app, ptrs_len; lia).
  assert (Hl : forall x, len (le_bytes n x) = Z.of_nat n) by (intros; unfold len; by rewrite length_le_bytes).
  rewrite <- Z.add_assoc, (seg_pointer _ (pre ++ ptrs n (past ++ (v + T) :: todo) ++ post) _ n v); try done.
  - specialize (IH (past ++ [v + T])).
    assert (Hlen : len (a ++ (pre ++ ptrs n ((past ++ [v + T]) ++ todo) ++ post) ++ c) = len (a ++ (pre ++ ptrs n (past ++ v :: todo) ++ post) ++ c)).
    { rewrite !len_app, !ptrs_len, !length_app. cbn [List.length]. lia. }
    rewrite Hlen in IH. specialize (IH Hv2 Hb).
    rewrite <- (app_assoc past), <- (app_assoc past [v + T] (_ <$> _)) in IH. cbn [app] in IH.
    replace (Z.of_nat (List.length (past ++ [v + T]))) with (Z.succ (Z.of_nat (List.length past))) in IH by (rewrite length_app; cbn; lia).
    replace (Z.pred (Z.of_nat (List.length (v :: todo)))) with (Z.of_nat (List.length todo)) by (cbn; lia). exact IH.
  - rewrite Hsplit. apply slice_at; [lia|apply Hl].
  - rewrite !Hsplit. apply put_at; [lia|by rewrite !Hl].
Qed.

End segment.
End run.

(** ** Reading the script back *)

(** A command of the script, and what the firmware reads. *)
Definition written (b : option (list Z)) (c : cmd) : Prop :=
  exists bs, b = Some bs /\ len bs = 128 /\ parse_cmd bs = Some c.

Lemma le_bytes_4 v : uint 32 v -> exists b0 b1 b2 b3, le_bytes 4 v = [b0; b1; b2; b3] /\ le_val [b0; b1; b2; b3] = v.
Proof.
  intros Hv. do 4 eexists. split; [reflexivity|]. change (le_val (le_bytes 4 v) = v). apply le_val_le_bytes. exact Hv.
Qed.

Lemma le_val_1 b : le_val [b] = b.
Proof. simpl. lia. Qed.

Definition a_blob (n : list Z) : Prop := n = TABLES_BLOB_NAME \/ n = RSDP_BLOB_NAME.

Lemma pointer_written d s off size : a_blob d -> a_blob s -> uint 32 off ->
  written (loader_add_pointer_cmd d s off size) (AddPointer d s off size).
Proof.
  intros Hd Hs Ho. destruct (le_bytes_4 off Ho) as (b0 & b1 & b2 & b3 & He & Hv).
  unfold loader_add_pointer_cmd. rewrite He. clear He. subst off.
  destruct Hd as [-> | ->], Hs as [-> | ->]; (eexists; split_and!; [reflexivity|reflexivity|]; unfold parse_cmd;
    (replace (field _ 0 4) with 2 by reflexivity); cbn [Z.eqb Pos.eqb]; do 2 f_equal; try reflexivity; apply le_val_1).
Qed.

Lemma checksum_written n off start l : a_blob n -> uint 32 off -> uint 32 start -> uint 32 l ->
  written (loader_add_checksum_cmd n off start l) (AddChecksum n off start l).
Proof.
  intros Hn Ho Hs Hl. destruct (le_bytes_4 off Ho) as (a0 & a1 & a2 & a3 & He & Hv).
  destruct (le_bytes_4 start Hs) as (b0 & b1 & b2 & b3 & Hf & Hw). destruct (le_bytes_4 l Hl) as (c0 & c1 & c2 & c3 & Hg & Hx).
  unfold loader_add_checksum_cmd. rewrite He, Hf, Hg. clear He Hf Hg. subst off start l.
  destruct Hn as [-> | ->]; (eexists; split_and!; [reflexivity|reflexivity|]; unfold parse_cmd;
    (replace (field _ 0 4) with 3 by reflexivity); reflexivity).
Qed.

(** The script as commands. *)
Definition table_ptr (off size : Z) : cmd := AddPointer TABLES_BLOB_NAME TABLES_BLOB_NAME (as_u 32 off) size.
Definition table_sum (off size : Z) : cmd := AddChecksum TABLES_BLOB_NAME (as_u 32 (off + 9)) (as_u 32 off) (as_u 32 size).

Definition script (l : AcpiLayout) : list cmd :=
  let n := if 0 <? tpm2_len l then 5 else 4 in
  [Alloc TABLES_BLOB_NAME 0x40 ZONE_HIGH; Alloc RSDP_BLOB_NAME 0x10 ZONE_FSEG;
   AddPointer RSDP_BLOB_NAME TABLES_BLOB_NAME 16 4; AddPointer RSDP_BLOB_NAME TABLES_BLOB_NAME 24 8;
   table_ptr (fadt_offset l + 36) 4; table_ptr (fadt_offset l + 40) 4;
   table_ptr (fadt_offset l + 132) 8; table_ptr (fadt_offset l + 140) 8] ++
  ((fun i => table_ptr (rsdt_offset l + ACPI_HDR_SIZE + i * 4) 4) <$> seqZ 0 n) ++
  ((fun i => table_ptr (xsdt_offset l + ACPI_HDR_SIZE + i * 8) 8) <$> seqZ 0 n) ++
  [AddChecksum RSDP_BLOB_NAME 8 0 20; AddChecksum RSDP_BLOB_NAME 32 0 RSDP_SIZE;
   table_sum (fadt_offset l) (fadt_len l); table_sum (dsdt_offset l) (dsdt_len l); table_sum (madt_offset l) (madt_len l);
   table_sum (hpet_offset l) (hpet_len l); table_sum (spcr_offset l) (spcr_len l)] ++
  (if 0 <? tpm2_len l then [table_sum (tpm2_offset l) (tpm2_len l)] else []) ++
  [table_sum (rsdt_offset l) (rsdt_len l); table_sum (xsdt_offset l) (xsdt_len l)].

Lemma written_all bs cs : Forall2 written bs cs ->
  exists l, mapM id bs = Some l /\ parse (List.length (concat l)) (concat l) = Some cs.
Proof.
  intros H. assert (exists l, mapM id bs = Some l /\ (List.length l <= List.length (concat l))%nat /\
                      forall fuel, (List.length l <= fuel)%nat -> parse fuel (concat l) = Some cs) as (l & Hl & Hle & Hp).
  { induction H as [|b c bs cs (x & -> & Hx & Hc) _ (l & Hl & Hle & IH)].
    - exists []. split_and!; [done|simpl; lia|]. by intros [|fuel].
    - assert (Hx' : List.length x = 128%nat) by (unfold len in Hx; lia).
      exists (x :: l). split_and!; [by simpl; rewrite Hl|cbn [concat List.length]; rewrite length_app; lia|].
      intros [|fuel] Hf; cbn [List.length] in Hf; [lia|]. cbn [concat].
      destruct (x ++ concat l) as [|y r] eqn:E; [by destruct x|]. cbn [parse]. rewrite <- E.
      rewrite len_app, Hx. pose proof (len_nonneg (concat l)). destruct (Z.ltb_spec (128 + len (concat l)) 128); [lia|].
      rewrite take_app_length', drop_app_length' by done. rewrite Hc. by rewrite IH by lia. }
  exists l. split; [done|]. by apply Hp.
Qed.

Lemma table_pointer_written off size : written (table_pointer off size) (table_ptr off size).
Proof. apply pointer_written; [by left|by left|by apply as_u_uint]. Qed.

Lemma table_checksum_written off size : written (table_checksum off size) (table_sum off size).
Proof. apply checksum_written; [by left|by apply as_u_uint..]. Qed.

Lemma written_fmap {A} (f : A -> option (list Z)) g l : (forall i, written (f i) (g i)) -> Forall2 written (f <$> l) (g <$> l).
Proof. intros H. induction l; constructor; auto. Qed.

Lemma alloc_written n align zone bs : loader_alloc_cmd n align zone = Some bs -> len bs = 128 ->
  parse_cmd bs = Some (Alloc n align zone) -> written (loader_alloc_cmd n align zone) (Alloc n align zone).
Proof. intros. by exists bs. Qed.

Ltac written_cmd :=
  lazymatch goal with
  | |- written (table_pointer _ _) _ => apply table_pointer_written
  | |- written (table_checksum _ _) _ => apply table_checksum_written
  | |- written (loader_add_pointer_cmd _ _ _ _) _ => apply pointer_written; [by right|by left|unfold uint; lia]
  | |- written (loader_add_checksum_cmd _ _ _ _) _ => apply checksum_written; [by right|unfold uint, RSDP_SIZE; lia..]
  | |- written (loader_alloc_cmd _ _ _) _ => eapply alloc_written; vm_compute; reflexivity
  end.

Ltac written_cmds := repeat (apply Forall2_cons_2; [written_cmd|]); apply Forall2_nil_2.

(** The firmware reads the script as these commands. *)
Lemma script_parses l : exists bs, generate_table_loader l = Some bs /\ parse (List.length bs) bs = Some (script l).
Proof.
  edestruct written_all as (cs & Hm & Hp).
  2: { exists (concat cs). split; [|exact Hp]. unfold generate_table_loader. by rewrite Hm. }
  unfold script. apply Forall2_app; [written_cmds|]. apply Forall2_app; [apply written_fmap; intros; written_cmd|].
  apply Forall2_app; [apply written_fmap; intros; written_cmd|]. apply Forall2_app; [written_cmds|].
  apply Forall2_app; [destruct (0 <? tpm2_len l); written_cmds|written_cmds].
Qed.

End fw_loader.

(** ** The tables blob *)

(** The FADT around its four pointers. *)
Definition fadt_mid (cfg : AcpiConfig) : list Z := take 88 (drop 8 (fadt_fields 0 0 cfg)).
Definition fadt_end (cfg : AcpiConfig) : list Z := drop 112 (fadt_fields 0 0 cfg).

Lemma fadt_split a b cfg :
  fadt_fields a b cfg = le_bytes 4 a ++ le_bytes 4 b ++ fadt_mid cfg ++ le_bytes 8 a ++ le_bytes 8 b ++ fadt_end cfg.
Proof. unfold fadt_mid, fadt_end, fadt_fields. destruct (hotplug cfg); cbv -[Z.modulo Z.div]; reflexivity. Qed.

Lemma fadt_mid_len cfg : len (fadt_mid cfg) = 88.
Proof. unfold fadt_mid, fadt_fields. destruct (hotplug cfg); reflexivity. Qed.

Lemma le_bytes_len n v : len (le_bytes n v) = Z.of_nat n.
Proof. unfold len. by rewrite length_le_bytes. Qed.

Lemma put_same off x buf : slice off (len x) buf = Some x -> put off x buf = Some buf.
Proof. intros (a & c & -> & Ha & _)%slice_inv. by apply put_at. Qed.

(** Any table, with its checksum cleared and with its checksum right. *)
Definition cleared (t : list Z) : list Z := unsummed (take 9 t) (drop 10 t).
Definition balanced (t : list Z) : list Z := summed (take 9 t) (drop 10 t).

Lemma table_split t : 10 <= len t -> exists x, t = take 9 t ++ [x] ++ drop 10 t /\ len (take 9 t) = 9.
Proof.
  intros H. unfold len in *. destruct (drop 9 t) as [|x r] eqn:E.
  { apply (f_equal List.length) in E. rewrite length_drop in E. cbn in E. lia. }
  exists x. split; [|rewrite length_take; lia]. assert (Hd : drop 10 t = r).
  { change 10%nat with (9 + 1)%nat. rewrite <- drop_drop, E. done. }
  rewrite Hd. change ([x] ++ r) with (x :: r). rewrite <- E. by rewrite take_drop.
Qed.

Lemma cleared_len t : 10 <= len t -> len (cleared t) = len t.
Proof. intros H. destruct (table_split t H) as (x & E & _). rewrite E at 2. unfold cleared. by rewrite unsummed_len, !len_app, Z.add_assoc. Qed.

Lemma balanced_len t : 10 <= len t -> len (balanced t) = len t.
Proof. intros H. destruct (table_split t H) as (x & E & _). rewrite E at 2. unfold balanced. by rewrite summed_len, !len_app, Z.add_assoc. Qed.

Lemma clear_table t : 10 <= len t -> put 9 [0] t = Some (cleared t).
Proof. intros H. destruct (table_split t H) as (x & E & Hl). rewrite E at 1. by apply clear_summed. Qed.

Lemma cleared_summed pre x post : len pre = 9 -> cleared (pre ++ [x] ++ post) = unsummed pre post /\ balanced (pre ++ [x] ++ post) = summed pre post.
Proof.
  intros H. assert (Hl : List.length pre = 9%nat) by (unfold len in H; lia). unfold cleared, balanced.
  rewrite take_app_length' by done. replace (drop 10 (pre ++ [x] ++ post)) with post; [done|].
  rewrite app_assoc, drop_app_length'; [done|]. rewrite length_app. simpl. lia.
Qed.

Lemma cleared_sdt sig r fields : len sig = 4 -> cleared (sdt sig r fields) = sdt_unsummed sig r fields /\ balanced (sdt sig r fields) = sdt sig r fields.
Proof. intros H. apply cleared_summed. by apply hdr_pre_len. Qed.

(** Where the tables are, from the start of the blob. *)
Section offsets.
Context (cfg : AcpiConfig) (dsdt_n : Z) (tpm2_n : option Z).
Definition off_fadt : Z := 64 + dsdt_n.
Definition off_madt : Z := off_fadt + 276.
Definition off_hpet : Z := off_madt + madt_size cfg.
Definition off_spcr : Z := off_hpet + 56.
Definition off_tpm2 : Z := off_spcr + 80.
Definition off_rsdt : Z := off_tpm2 + default 0 tpm2_n.
Definition listed : list Z := [off_fadt; off_madt; off_hpet; off_spcr] ++ (if tpm2_n then [off_tpm2] else []).
Definition off_xsdt : Z := off_rsdt + 36 + Z.of_nat (List.length listed) * 4.
Definition blob_size : Z := off_xsdt + 36 + Z.of_nat (List.length listed) * 8.
End offsets.

(** The tables one after another: [mk] writes a table, [T] is the address of
    the first. *)
Definition blob (mk : list Z -> Z -> list Z -> list Z) (T : Z) (cfg : AcpiConfig) (dsdt : list Z) (tpm2 : option (list Z)) : list Z :=
  let entries := (fun v => v + T) <$> listed cfg (len dsdt) (len <$> tpm2) in
  facs ++ dsdt ++ mk (s2b "FACP") 5 (fadt_fields T (64 + T) cfg) ++ mk (s2b "APIC") 1 (madt_fields cfg) ++
  mk (s2b "HPET") 1 hpet_fields ++ mk (s2b "SPCR") 1 spcr_fields ++ default [] tpm2 ++
  mk (s2b "RSDT") 1 (ptrs 4 entries) ++ mk (s2b "XSDT") 1 (ptrs 8 entries).

Lemma blob_len mk T cfg dsdt tpm2 :
  (forall sig r f, len sig = 4 -> len (mk sig r f) = ACPI_HDR_SIZE + len f) -> 0 <= max_cpus cfg ->
  len (blob mk T cfg dsdt tpm2) = blob_size cfg (len dsdt) (len <$> tpm2).
Proof.
  intros Hmk Hm. pose proof (madt_fields_len cfg Hm). unfold blob. rewrite !len_app, !Hmk, !ptrs_len, fadt_fields_len, !length_fmap by done.
  change (len facs) with 64. change (len hpet_fields) with 20. change (len spcr_fields) with 44.
  unfold blob_size, off_xsdt, off_rsdt, off_tpm2, off_spcr, off_hpet, off_madt, off_fadt. unfold ACPI_HDR_SIZE in *.
  destruct tpm2; cbn [default fmap option_fmap option_map from_option]; unfold id; try (change (len []) with 0); lia.
Qed.

(** ** The two layouts *)

Lemma push_sdt b sig r fields : len sig = 4 -> push_unsummed b (sdt sig r fields) = Some (b ++ sdt_unsummed sig r fields).
Proof.
  intros H. pose proof (put_inside b _ _ [] 9 [0] (clear_sdt sig r fields H)) as Hp. rewrite !app_nil_r in Hp. exact Hp.
Qed.

Lemma push_table b t : 10 <= len t -> push_unsummed b t = Some (b ++ cleared t).
Proof. intros H. pose proof (put_inside b _ _ [] 9 [0] (clear_table t H)) as Hp. rewrite !app_nil_r in Hp. exact Hp. Qed.

(** The fields start at offset 36. *)
Lemma sdt_fields sig r fields : len sig = 4 -> exists h, sdt sig r fields = h ++ fields /\ len h = 36.
Proof.
  intros H. unfold sdt, summed. set (b := balance _). exists (hdr_pre sig (as_u 32 (ACPI_HDR_SIZE + len fields)) r ++ [b] ++ hdr_post).
  split; [by rewrite <- !app_assoc|]. rewrite !len_app, hdr_pre_len by done. done.
Qed.

Lemma sdt_unsummed_fields sig r fields :
  sdt_unsummed sig r fields = write_header sig (as_u 32 (ACPI_HDR_SIZE + len fields)) r ++ fields.
Proof. symmetry. apply header_unsummed. Qed.

Lemma header_len sig n r : len sig = 4 -> len (write_header sig n r) = 36.
Proof. intros H. unfold write_header. rewrite !len_app, H. done. Qed.

(** The four pointers, after any 36 bytes. *)
Lemma fadt_slices h f d cfg : len h = 36 ->
  slice 36 4 (h ++ fadt_fields f d cfg) = Some (le_bytes 4 f) /\ slice 40 4 (h ++ fadt_fields f d cfg) = Some (le_bytes 4 d) /\
  slice 132 8 (h ++ fadt_fields f d cfg) = Some (le_bytes 8 f) /\ slice 140 8 (h ++ fadt_fields f d cfg) = Some (le_bytes 8 d).
Proof.
  intros Hh. rewrite fadt_split. pose proof (fadt_mid_len cfg). split_and!.
  - apply slice_at; [done|apply le_bytes_len].
  - rewrite (app_assoc h). apply slice_at; [rewrite len_app, le_bytes_len; lia|apply le_bytes_len].
  - rewrite !(app_assoc h), (app_assoc (h ++ _)), (app_assoc ((h ++ _) ++ _)). apply slice_at; [rewrite !len_app, !le_bytes_len; lia|apply le_bytes_len].
  - rewrite !(app_assoc h), (app_assoc (h ++ _)), (app_assoc ((h ++ _) ++ _)), (app_assoc (((h ++ _) ++ _) ++ _)).
    apply slice_at; [rewrite !len_app, !le_bytes_len; lia|apply le_bytes_len].
Qed.

(** Writing the FADT's 64-bit pointers again changes nothing. *)
Lemma put_x_pointers b f d cfg :
  let t := b ++ sdt (s2b "FACP") 5 (fadt_fields f d cfg) in
  put (len b + 132) (le_bytes 8 f) t = Some t /\ put (len b + 140) (le_bytes 8 d) t = Some t.
Proof.
  intros t. destruct (sdt_fields (s2b "FACP") 5 (fadt_fields f d cfg) eq_refl) as (h & E & Hh).
  destruct (fadt_slices h f d cfg Hh) as (_ & _ & H1 & H2). rewrite <- E in H1, H2.
  split; apply put_same; rewrite le_bytes_len; unfold t; rewrite <- (app_nil_r (sdt _ _ _)); by apply slice_inside.
Qed.

(** The DSDT of a layout: the override, or the one built. *)
Definition dsdt_source (hp : HotplugAml) (cfg : AcpiConfig) (ov : option (list Z)) (d : list Z) : Prop :=
  match ov with
  | Some o => o = d /\ tpm cfg = None /\ 10 <= len d
  | None => exists body, dsdt_aml hp cfg [] = Some body /\ d = sdt (s2b "DSDT") 2 body
  end.

Lemma dsdt_source_len hp cfg ov d : dsdt_source hp cfg ov d -> 10 <= len d.
Proof.
  destruct ov; [by intros (_ & _ & ?)|]. intros (body & _ & ->). rewrite sdt_len by done. pose proof (len_nonneg body). unfold ACPI_HDR_SIZE. lia.
Qed.

(** The sizes fit: the CPU count is a [u32], a TPM2 table has a header, and
    offsets are 32 bits. *)
Record fits (cfg : AcpiConfig) (dsdt : list Z) (tpm2 : option (list Z)) : Prop := {
  fits_cpus : uint 32 (max_cpus cfg);
  fits_dsdt : 10 <= len dsdt;
  fits_tpm2 : forall t, tpm2 = Some t -> 10 <= len t;
  fits_size : blob_size cfg (len dsdt) (len <$> tpm2) < 2 ^ 32;
}.

Lemma offs_small cfg dsdt tpm2 : fits cfg dsdt tpm2 ->
  let n := len dsdt in let t := len <$> tpm2 in
  0 <= madt_size cfg /\ 64 <= off_fadt n /\ off_fadt n < off_madt n /\ off_madt n < off_hpet cfg n /\ off_hpet cfg n < off_spcr cfg n /\
  off_spcr cfg n < off_tpm2 cfg n /\ off_tpm2 cfg n <= off_rsdt cfg n t /\ off_rsdt cfg n t < off_xsdt cfg n t /\
  off_xsdt cfg n t + 36 < blob_size cfg n t /\ blob_size cfg n t < 2 ^ 32.
Proof.
  intros [Hc Hd Ht Hs] n t. unfold uint in Hc. pose proof (len_nonneg dsdt) as Hn. fold n in Hn, Hs |- *. fold t in Hs.
  assert (0 <= default 0 t) by (unfold t; destruct tpm2; simpl; [apply len_nonneg|lia]).
  assert (0 < madt_size cfg) by (unfold madt_size, ACPI_HDR_SIZE; lia).
  revert Hs. unfold blob_size, off_xsdt, off_rsdt, off_tpm2, off_spcr, off_hpet, off_madt, off_fadt, listed.
  rewrite length_app. cbn [List.length]. intros. split_and!; lia.
Qed.

(** The layout: the tables unlinked and unsummed, as offsets from 0. *)
Definition the_layout (cfg : AcpiConfig) (dsdt : list Z) (tpm2 : option (list Z)) : AcpiLayout :=
  let n := len dsdt in let t := len <$> tpm2 in
  mkAcpiLayout (blob sdt_unsummed 0 cfg (cleared dsdt) (cleared <$> tpm2)) (rsdp_bytes 0 0 (off_rsdt cfg n t) (off_xsdt cfg n t))
    0 64 64 n (off_fadt n) 276 (off_madt n) (madt_size cfg) (off_hpet cfg n) 56 (off_spcr cfg n) 80
    (if tpm2 then off_tpm2 cfg n else 0) (default 0 t)
    (off_rsdt cfg n t) (36 + Z.of_nat (List.length (listed cfg n t)) * 4) (off_xsdt cfg n t) (36 + Z.of_nat (List.length (listed cfg n t)) * 8).

Ltac small := rewrite as_u_small by (unfold uint; lia).

(** The tables up to the FADT, the MADT, the HPET and the SPCR. *)
Definition upto_fadt mk T (cfg : AcpiConfig) (dsdt : list Z) : list Z := (facs ++ dsdt) ++ mk (s2b "FACP") 5 (fadt_fields T (64 + T) cfg).
Definition upto_madt mk T cfg dsdt : list Z := upto_fadt mk T cfg dsdt ++ mk (s2b "APIC") 1 (madt_fields cfg).
Definition upto_hpet mk T cfg dsdt : list Z := upto_madt mk T cfg dsdt ++ mk (s2b "HPET") 1 hpet_fields.
Definition upto_spcr mk T cfg dsdt : list Z := upto_hpet mk T cfg dsdt ++ mk (s2b "SPCR") 1 spcr_fields.
Definition upto_rsdt mk T cfg dsdt (tpm2 : option (list Z)) : list Z :=
  (upto_spcr mk T cfg dsdt ++ default [] tpm2) ++ mk (s2b "RSDT") 1 (ptrs 4 ((fun v => v + T) <$> listed cfg (len dsdt) (len <$> tpm2))).

Section upto.
Context (mk : list Z -> Z -> list Z -> list Z) (T : Z) (cfg : AcpiConfig) (dsdt : list Z).
Hypothesis mk_len : forall sig r f, len sig = 4 -> len (mk sig r f) = ACPI_HDR_SIZE + len f.
Hypothesis cpus : 0 <= max_cpus cfg.

Lemma upto_dsdt_len : len (facs ++ dsdt) = off_fadt (len dsdt).
Proof. by rewrite len_app. Qed.
Lemma upto_fadt_len : len (upto_fadt mk T cfg dsdt) = off_madt (len dsdt).
Proof. unfold upto_fadt. rewrite len_app, upto_dsdt_len, mk_len, fadt_fields_len by done. done. Qed.
Lemma upto_madt_len : len (upto_madt mk T cfg dsdt) = off_hpet cfg (len dsdt).
Proof. unfold upto_madt. by rewrite len_app, upto_fadt_len, mk_len, madt_fields_len. Qed.
Lemma upto_hpet_len : len (upto_hpet mk T cfg dsdt) = off_spcr cfg (len dsdt).
Proof. unfold upto_hpet. by rewrite len_app, upto_madt_len, mk_len. Qed.
Lemma upto_spcr_len : len (upto_spcr mk T cfg dsdt) = off_tpm2 cfg (len dsdt).
Proof. unfold upto_spcr. by rewrite len_app, upto_hpet_len, mk_len. Qed.
Lemma upto_tpm2_len tpm2 : len (upto_spcr mk T cfg dsdt ++ default [] tpm2) = off_rsdt cfg (len dsdt) (len <$> tpm2).
Proof. rewrite len_app, upto_spcr_len. unfold off_rsdt. by destruct tpm2. Qed.
Lemma upto_rsdt_len tpm2 : len (upto_rsdt mk T cfg dsdt tpm2) = off_xsdt cfg (len dsdt) (len <$> tpm2).
Proof.
  unfold upto_rsdt. rewrite len_app, upto_tpm2_len, mk_len, ptrs_len, length_fmap by done. unfold off_xsdt, ACPI_HDR_SIZE. lia.
Qed.
End upto.

Lemma listed_small cfg dsdt tpm2 : fits cfg dsdt tpm2 -> as_u 32 <$> listed cfg (len dsdt) (len <$> tpm2) = listed cfg (len dsdt) (len <$> tpm2).
Proof.
  intros Hf. pose proof (offs_small cfg dsdt tpm2 Hf) as Ho. cbv zeta in Ho. unfold listed. destruct tpm2; cbn [fmap list_fmap app option_fmap option_map] in *;
    rewrite !as_u_small by (unfold uint; lia); done.
Qed.

Lemma add_zeros (l : list Z) : (fun v => v + 0) <$> l = l.
Proof. induction l; cbn [fmap list_fmap]; [done|]. rewrite Z.add_0_r. by f_equal. Qed.

Lemma layout_eq hp cfg ov tpm2 dsdt : dsdt_source hp cfg ov dsdt -> fits cfg dsdt tpm2 ->
  generate_acpi_layout_inner hp cfg ov tpm2 = Some (the_layout cfg dsdt tpm2).
Proof.
  intros Hd Hf. pose proof (offs_small cfg dsdt tpm2 Hf) as Ho. cbv zeta in Ho. pose proof (listed_small cfg dsdt tpm2 Hf) as Hls.
  destruct Hf as [Hc Hl Ht Hs]. assert (Hc0 : 0 <= max_cpus cfg) by (unfold uint in Hc; lia).
  pose proof (fun sig r f => sdt_unsummed_len sig r f) as Hmk. unfold generate_acpi_layout_inner.
  assert (match ov, tpm cfg with Some _, Some _ => true | _, _ => false end = false) as ->.
  { destruct ov; [|done]. by destruct Hd as (_ & -> & _). }
  assert (match ov with Some d => Some d | None => build_dsdt hp cfg end = Some dsdt) as ->.
  { destruct ov; [by destruct Hd as (-> & _)|]. destruct Hd as (body & Hb & ->). by apply build_dsdt_eq. }
  rewrite build_facs_eq. cbn [app]. change (len []) with 0. change (len facs) with 64. rewrite upto_dsdt_len, build_fadt_eq. cbv beta iota zeta.
  change (as_u 32 0) with 0. change (as_u 32 64) with 64.
  destruct (put_x_pointers (facs ++ dsdt) 0 64 cfg) as [Hp1 Hp2]. rewrite upto_dsdt_len in Hp1, Hp2. rewrite Hp1, Hp2. clear Hp1 Hp2.
  rewrite sdt_len, fadt_fields_len by done.
  pose proof (push_sdt (facs ++ dsdt) (s2b "FACP") 5 (fadt_fields 0 64 cfg) eq_refl) as Hp. unfold push_unsummed in Hp. rewrite upto_dsdt_len in Hp. rewrite Hp. clear Hp.
  change (fadt_fields 0 64 cfg) with (fadt_fields 0 (64 + 0) cfg). fold (upto_fadt sdt_unsummed 0 cfg dsdt). rewrite upto_fadt_len, (build_madt_eq cfg Hc), push_sdt, sdt_len, madt_fields_len by done.
  fold (upto_madt sdt_unsummed 0 cfg dsdt). rewrite upto_madt_len, build_hpet_eq, push_sdt, sdt_len by done.
  fold (upto_hpet sdt_unsummed 0 cfg dsdt). rewrite upto_hpet_len, build_spcr_eq, push_sdt, sdt_len by done.
  fold (upto_spcr sdt_unsummed 0 cfg dsdt).
  match goal with |- (let* ' _ := ?m in _) = _ => assert (m = Some (upto_spcr sdt_unsummed 0 cfg dsdt ++ default [] (cleared <$> tpm2),
    (if tpm2 then off_tpm2 cfg (len dsdt) else 0), default 0 (len <$> tpm2))) as -> end.
  { destruct tpm2 as [t|]; [|cbn; by rewrite app_nil_r]. rewrite push_table, upto_spcr_len by auto. done. }
  assert ((0 <? default 0 (len <$> tpm2)) = (if tpm2 then true else false)) as ->.
  { destruct tpm2 as [t|]; [|done]. cbn. specialize (Ht t eq_refl). destruct (Z.ltb_spec 0 (len t)); [done|lia]. }
  match goal with |- context [build_rsdt (as_u 32 <$> ?e)] => assert (e = listed cfg (len dsdt) (len <$> tpm2)) as -> by (by destruct tpm2) end.
  rewrite Hls, build_rsdt_eq, push_sdt, sdt_len by done.
  assert (Hn : len <$> (cleared <$> tpm2) = len <$> tpm2) by (destruct tpm2 as [t|]; [|done]; cbn; by rewrite (cleared_len t (Ht t eq_refl))).
  rewrite upto_tpm2_len, Hn by done.
  match goal with |- context [build_rsdp _ (len ?b)] => assert (Hx : len b = off_xsdt cfg (len dsdt) (len <$> tpm2)) end.
  { rewrite len_app, upto_tpm2_len, Hn, sdt_unsummed_len, ptrs_len by done. unfold off_xsdt, ACPI_HDR_SIZE. lia. }
  rewrite Hx, build_xsdt_eq, push_sdt, sdt_len, !ptrs_len by done. clear Hx. small.
  rewrite build_rsdp_eq. pose proof (rsdp_unsummed (off_rsdt cfg (len dsdt) (len <$> tpm2)) (off_xsdt cfg (len dsdt) (len <$> tpm2))) as Hr.
  destruct (put 8 [0] _) as [r1|]; [|done]. rewrite Hr. unfold upto_spcr, upto_hpet, upto_madt, upto_fadt. rewrite <- !app_assoc.
  change 64 with (len facs) at 1. rewrite (put_inside _ _ _ _ 9 _ (clear_table dsdt Hl)).
  unfold the_layout, blob. rewrite !cleared_len, Hn, add_zeros by done. done.
Qed.

Module fw_run.
Import fw_loader.

(** ** Running the script *)

Section segments.
Context (files : list Z -> option (list Z)) (place : list Z -> Z) (T R : Z).
Notation run := (run files place).
Notation exec := (exec files place).

(** The tables as a list of segments. *)
Definition tables_at (r : list Z) (l : list (list Z)) : Blobs := two T (concat l) R r.

Lemma concat_mid (l1 : list (list Z)) b l2 : concat (l1 ++ b :: l2) = concat l1 ++ b ++ concat l2.
Proof. by rewrite concat_app. Qed.

Lemma sum_step r l1 l2 pre post off size : len pre = 9 -> off = len (concat l1) -> size = len (unsummed pre post) -> uint 32 (off + 9) -> uint 32 off -> uint 32 size ->
  exec (table_sum off size) (tables_at r (l1 ++ unsummed pre post :: l2)) = Some (tables_at r (l1 ++ summed pre post :: l2)).
Proof.
  intros Hp -> -> H1 H2 H3. unfold table_sum, tables_at. rewrite !as_u_small, !concat_mid by done. by apply seg_checksum.
Qed.

Lemma ptr_step r a c b b' off sz n v : sz = Z.of_nat n -> slice off sz b = Some (le_bytes n v) -> 0 <= v < len (a ++ b ++ c) -> 0 <= T ->
  T + len (a ++ b ++ c) <= 2 ^ (8 * sz) -> put off (le_bytes n (v + T)) b = Some b' ->
  exec (AddPointer TABLES_BLOB_NAME TABLES_BLOB_NAME (len a + off) sz) (two T (a ++ b ++ c) R r) = Some (two T (a ++ b' ++ c) R r).
Proof. intros ->. apply seg_pointer. Qed.

(** *** The FADT *)

Definition fadt_ptrs (h m e : list Z) (x y z w : Z) : list Z := h ++ le_bytes 4 x ++ le_bytes 4 y ++ m ++ le_bytes 8 z ++ le_bytes 8 w ++ e.

Lemma fadt_slots h m e x y z w : len h = 36 -> len m = 88 ->
  slice 36 4 (fadt_ptrs h m e x y z w) = Some (le_bytes 4 x) /\ slice 40 4 (fadt_ptrs h m e x y z w) = Some (le_bytes 4 y) /\
  slice 132 8 (fadt_ptrs h m e x y z w) = Some (le_bytes 8 z) /\ slice 140 8 (fadt_ptrs h m e x y z w) = Some (le_bytes 8 w) /\
  (forall v, put 36 (le_bytes 4 v) (fadt_ptrs h m e x y z w) = Some (fadt_ptrs h m e v y z w)) /\
  (forall v, put 40 (le_bytes 4 v) (fadt_ptrs h m e x y z w) = Some (fadt_ptrs h m e x v z w)) /\
  (forall v, put 132 (le_bytes 8 v) (fadt_ptrs h m e x y z w) = Some (fadt_ptrs h m e x y v w)) /\
  (forall v, put 140 (le_bytes 8 v) (fadt_ptrs h m e x y z w) = Some (fadt_ptrs h m e x y z v)).
Proof.
  intros Hh Hm. unfold fadt_ptrs.
  assert (A2 : forall y z w, h ++ le_bytes 4 x ++ le_bytes 4 y ++ m ++ le_bytes 8 z ++ le_bytes 8 w ++ e =
    (h ++ le_bytes 4 x) ++ le_bytes 4 y ++ m ++ le_bytes 8 z ++ le_bytes 8 w ++ e) by (intros; by rewrite <- !app_assoc).
  assert (A3 : forall z w, h ++ le_bytes 4 x ++ le_bytes 4 y ++ m ++ le_bytes 8 z ++ le_bytes 8 w ++ e =
    (h ++ le_bytes 4 x ++ le_bytes 4 y ++ m) ++ le_bytes 8 z ++ le_bytes 8 w ++ e) by (intros; by rewrite <- !app_assoc).
  assert (A4 : forall w, h ++ le_bytes 4 x ++ le_bytes 4 y ++ m ++ le_bytes 8 z ++ le_bytes 8 w ++ e =
    (h ++ le_bytes 4 x ++ le_bytes 4 y ++ m ++ le_bytes 8 z) ++ le_bytes 8 w ++ e) by (intros; by rewrite <- !app_assoc).
  split_and!; intros; [|rewrite A2|rewrite A3|rewrite A4| |rewrite !A2|rewrite !A3|rewrite !A4];
    first [apply slice_at|apply put_at]; rewrite ?len_app, ?le_bytes_len, ?Hh, ?Hm; done.
Qed.

(** The four pointers of the FADT, linked. *)
Lemma fadt_linked r l1 l2 h m e a b off n : len h = 36 -> len m = 88 -> off = len (concat l1) ->
  len (concat (l1 ++ fadt_ptrs h m e a b a b :: l2)) = n -> 0 <= a < n -> 0 <= b < n -> 0 <= T -> T + n <= 2 ^ 32 -> 0 <= off < 2 ^ 32 - 140 ->
  run [table_ptr (off + 36) 4; table_ptr (off + 40) 4; table_ptr (off + 132) 8; table_ptr (off + 140) 8]
    (tables_at r (l1 ++ fadt_ptrs h m e a b a b :: l2)) =
  Some (tables_at r (l1 ++ fadt_ptrs h m e (a + T) (b + T) (a + T) (b + T) :: l2)).
Proof.
  intros Hh Hm Ho En Ha Hb HT Hn Hoff.
  assert (Hlen : forall x y z w, len (concat l1 ++ fadt_ptrs h m e x y z w ++ concat l2) = n).
  { intros. rewrite <- En. unfold fadt_ptrs. rewrite concat_mid, !len_app, !le_bytes_len. done. }
  assert (H64 : T + n <= 2 ^ 64) by lia.
  unfold table_ptr, tables_at. rewrite !as_u_small by (unfold uint; lia). rewrite !concat_mid, Ho. cbn [fw_loader.run].
  destruct (fadt_slots h m e a b a b Hh Hm) as (S1 & _ & _ & _ & P1 & _).
  rewrite (ptr_step r (concat l1) (concat l2) _ _ 36 4 4 a eq_refl S1) by (rewrite ?Hlen; eauto; lia).
  destruct (fadt_slots h m e (a + T) b a b Hh Hm) as (_ & S2 & _ & _ & _ & P2 & _).
  rewrite (ptr_step r (concat l1) (concat l2) _ _ 40 4 4 b eq_refl S2) by (rewrite ?Hlen; eauto; lia).
  destruct (fadt_slots h m e (a + T) (b + T) a b Hh Hm) as (_ & _ & S3 & _ & _ & _ & P3 & _).
  rewrite (ptr_step r (concat l1) (concat l2) _ _ 132 8 8 a eq_refl S3) by (rewrite ?Hlen; eauto; lia).
  destruct (fadt_slots h m e (a + T) (b + T) (a + T) b Hh Hm) as (_ & _ & _ & S4 & _ & _ & _ & P4).
  by rewrite (ptr_step r (concat l1) (concat l2) _ _ 140 8 8 b eq_refl S4) by (rewrite ?Hlen; eauto; lia).
Qed.
(** *** The lists of tables *)

Lemma list_linked r l1 l2 h n l off k sz size : len h = 36 -> off = len (concat l1) -> k = Z.of_nat (List.length l) -> sz = Z.of_nat n ->
  len (concat (l1 ++ (h ++ ptrs n l) :: l2)) = size ->
  Forall (fun v => 0 <= v < size) l -> 0 <= T -> T + size <= 2 ^ 32 -> (4 <= n)%nat ->
  run ((fun i => table_ptr (off + ACPI_HDR_SIZE + i * sz) sz) <$> seqZ 0 k) (tables_at r (l1 ++ (h ++ ptrs n l) :: l2)) =
  Some (tables_at r (l1 ++ (h ++ ptrs n ((fun v => v + T) <$> l)) :: l2)).
Proof.
  intros Hh -> -> -> <- Hl HT Hs Hn.
  set (size := len (concat (l1 ++ (h ++ ptrs n l) :: l2))) in *.
  assert (He : concat (l1 ++ (h ++ ptrs n l) :: l2) = concat l1 ++ (h ++ ptrs n ([] ++ l) ++ []) ++ concat l2) by (by rewrite concat_mid, app_nil_r).
  assert (Hb : T + size <= 2 ^ (8 * Z.of_nat n)).
  { etransitivity; [exact Hs|]. apply Z.pow_le_mono_r; lia. }
  unfold size in Hl, Hb. rewrite He in Hl, Hb.
  pose proof (seg_pointers files place T R r (concat l1) (concat l2) n h [] l [] Hl HT Hb) as Hp. rewrite <- He in Hp. cbn [app] in Hp.
  unfold tables_at. rewrite (concat_mid l1 (h ++ ptrs n (_ <$> _))). rewrite app_nil_r in Hp. rewrite <- Hp. f_equal. apply list_fmap_ext. intros j i Hi.
  apply lookup_seqZ in Hi as [Hi Hj]. unfold table_ptr, ACPI_HDR_SIZE. rewrite Hh. cbn [List.length] in Hi. f_equal. apply as_u_small.
  assert (len (concat l1) + 36 + Z.of_nat (List.length l) * Z.of_nat n <= size).
  { unfold size. rewrite concat_mid, !len_app, ptrs_len. pose proof (len_nonneg (concat l2)). lia. }
  pose proof (len_nonneg (concat l1)). assert (0 <= i) by lia. assert (i + 1 <= Z.of_nat (List.length l)) by lia.
  unfold uint. split; [nia|]. assert ((i + 1) * Z.of_nat n <= Z.of_nat (List.length l) * Z.of_nat n) by (apply Z.mul_le_mono_nonneg_r; lia). lia.
Qed.

(** *** Checksums of the tables *)

Lemma balanced_unsummed pre x post : len pre = 9 -> balanced (pre ++ [x] ++ post) = summed pre post.
Proof. intros H. by apply cleared_summed. Qed.

Lemma sum_at r (l : list (list Z)) k t : l !! k = Some (cleared t) -> 10 <= len t -> len (concat l) < 2 ^ 32 ->
  exec (table_sum (len (concat (take k l))) (len t)) (tables_at r l) = Some (tables_at r (<[k := balanced t]> l)).
Proof.
  intros Hk Ht Hs. assert (Hlt : (k < List.length l)%nat) by (by apply lookup_lt_Some in Hk).
  pose proof (take_drop_middle l k _ Hk) as El. destruct (table_split t Ht) as (x & Ex & Hp).
  assert (Hsz : len (concat (take k l)) + len t <= len (concat l)).
  { rewrite <- El at 2. rewrite concat_mid, !len_app, cleared_len by done. pose proof (len_nonneg (concat (drop (S k) l))). lia. }
  pose proof (len_nonneg (concat (take k l))). rewrite <- El at 2. unfold cleared at 1.
  rewrite (sum_step r (take k l) (drop (S k) l)); [|done|done|by rewrite <- (cleared_len t) by done|unfold uint; lia..].
  do 2 f_equal. by rewrite insert_take_drop by done.
Qed.

Lemma balanced_cleared t : 10 <= len t -> balanced (cleared t) = balanced t.
Proof. intros H. destruct (table_split t H) as (x & _ & Hl). by apply balanced_unsummed. Qed.

Lemma len_concat (l : list (list Z)) : len (concat l) = sumz (len <$> l).
Proof. induction l as [|x l IH]; [done|]. cbn [concat fmap list_fmap sumz foldr]. rewrite len_app, IH. done. Qed.

Lemma same_lens (l l0 : list (list Z)) k t : len <$> l = len <$> l0 -> l !! k = Some t ->
  len (concat (take k l0)) = len (concat (take k l)) /\ len (l0 !!! k) = len t.
Proof.
  intros E Hk. rewrite !len_concat, !fmap_take, E. split; [done|].
  assert ((len <$> l0) !! k = Some (len t)) as H by (by rewrite <- E, list_lookup_fmap, Hk).
  rewrite list_lookup_fmap in H. destruct (l0 !! k) as [t0|] eqn:E0; [|done]. rewrite (list_lookup_total_correct _ _ _ E0). by injection H.
Qed.

(** Any set of tables, in any order. *)
Lemma sums_at r (l0 : list (list Z)) ks l : NoDup ks -> len <$> l = len <$> l0 -> len (concat l0) < 2 ^ 32 ->
  Forall (fun k => exists t, l !! k = Some (cleared t) /\ 10 <= len t) ks ->
  run ((fun k => table_sum (len (concat (take k l0))) (len (l0 !!! k))) <$> ks) (tables_at r l) =
  Some (tables_at r (foldl (fun l k => <[k := balanced (l !!! k)]> l) l ks)).
Proof.
  intros Hnd El Hs Hk. revert l El Hk. induction Hnd as [|k ks Hnk Hnd IH]; intros l El Hk; [done|]. cbn [fmap list_fmap fw_loader.run foldl].
  inversion_clear Hk as [|? ? (t & Ht & H10) Hr]. destruct (same_lens l l0 k _ El Ht) as [-> ->]. rewrite cleared_len by done.
  rewrite (sum_at r l k t Ht H10) by (by rewrite len_concat, El, <- len_concat).
  rewrite (list_lookup_total_correct _ _ _ Ht), balanced_cleared by done. apply IH.
  - rewrite list_fmap_insert, list_insert_id; [done|]. rewrite list_lookup_fmap, Ht. cbn. by rewrite cleared_len, balanced_len.
  - apply Forall_forall. intros k' Hk'. rewrite list_lookup_insert_ne by (intros ->; done). exact (proj1 (Forall_forall _ _) Hr k' Hk').
Qed.

(** *** The RSDP *)

Lemma rsdp_linked t a b : 0 <= a < len t -> 0 <= b < len t -> 0 <= T -> T + len t <= 2 ^ 32 ->
  run [AddPointer RSDP_BLOB_NAME TABLES_BLOB_NAME 16 4; AddPointer RSDP_BLOB_NAME TABLES_BLOB_NAME 24 8] (two T t R (rsdp_bytes 0 0 a b)) =
  Some (two T t R (rsdp_bytes 0 0 (a + T) (b + T))).
Proof.
  intros Ha Hb HT Hs. cbn [fw_loader.run]. change 4 with (Z.of_nat 4). change 8 with (Z.of_nat 8).
  rewrite (exec_rsdp_pointer files place T t R _ (rsdp_bytes 0 0 (a + T) b) 16 4 a); try lia; [|done..].
  by rewrite (exec_rsdp_pointer files place T t R _ (rsdp_bytes 0 0 (a + T) (b + T)) 24 8 b) by (done || lia).
Qed.

Lemma rsdp_balanced t a b :
  run [AddChecksum RSDP_BLOB_NAME 8 0 20; AddChecksum RSDP_BLOB_NAME 32 0 RSDP_SIZE] (two T t R (rsdp_bytes 0 0 a b)) =
  Some (two T t R (rsdp_sum a b)).
Proof.
  cbn [fw_loader.run fw_loader.exec]. rewrite two_rsdp.
  assert (slice 0 20 (rsdp_bytes 0 0 a b) = Some (take 20 (rsdp_bytes 0 0 a b))) as -> by done.
  assert (forall c, put 8 [c] (rsdp_bytes 0 0 a b) = Some (rsdp_bytes c 0 a b)) as -> by done. rewrite two_set_rsdp, two_rsdp.
  assert (forall c, slice 0 RSDP_SIZE (rsdp_bytes c 0 a b) = Some (rsdp_bytes c 0 a b)) as -> by done.
  assert (forall c d, put 32 [d] (rsdp_bytes c 0 a b) = Some (rsdp_bytes c d a b)) as -> by done. rewrite two_set_rsdp.
  unfold rsdp_sum, balance. reflexivity.
Qed.
(** *** The whole script *)

Section script.
Context (cfg : AcpiConfig) (dsdt : list Z) (tpm2 : option (list Z)).
Hypothesis Hf : fits cfg dsdt tpm2.
Hypothesis HT : 0 <= T.
Hypothesis HTs : T + blob_size cfg (len dsdt) (len <$> tpm2) <= 2 ^ 32.
Notation n := (len dsdt).
Notation tn := (len <$> tpm2).
Notation L := (the_layout cfg dsdt tpm2).
Notation entries := (listed cfg n tn).
Notation linked := ((fun v => v + T) <$> entries).

Definition segs (mk : list Z -> Z -> list Z -> list Z) (d : list Z) (tp : option (list Z)) (fadt rsdt xsdt : list Z) : list (list Z) :=
  [facs; d; mk (s2b "FACP") 5 fadt; mk (s2b "APIC") 1 (madt_fields cfg); mk (s2b "HPET") 1 hpet_fields; mk (s2b "SPCR") 1 spcr_fields;
   default [] tp; mk (s2b "RSDT") 1 rsdt; mk (s2b "XSDT") 1 xsdt].

Lemma segs_blob mk A d tp : len d = n -> len <$> tp = tn ->
  blob mk A cfg d tp = concat (segs mk d tp (fadt_fields A (64 + A) cfg) (ptrs 4 ((fun v => v + A) <$> entries)) (ptrs 8 ((fun v => v + A) <$> entries))).
Proof. intros Hd Ht. unfold blob, segs. rewrite Hd, Ht. cbn [concat]. by rewrite app_nil_r. Qed.

Lemma cleared_tpm2 : len <$> (cleared <$> tpm2) = tn.
Proof. pose proof (fits_tpm2 _ _ _ Hf) as H. destruct tpm2 as [t|]; [|done]. cbn. by rewrite (cleared_len t (H t eq_refl)). Qed.

(** The length of the tables up to each. *)
Lemma segs_lens d tp fadt rsdt xsdt : len d = n -> len <$> tp = tn -> len fadt = 240 -> len rsdt = Z.of_nat (List.length entries) * 4 -> len xsdt = Z.of_nat (List.length entries) * 8 ->
  let l mk := segs mk d tp fadt rsdt xsdt in
  forall mk, (forall sig r f, len sig = 4 -> len (mk sig r f) = ACPI_HDR_SIZE + len f) ->
  len (concat (take 1 (l mk))) = 64 /\ len (concat (take 2 (l mk))) = off_fadt n /\ len (concat (take 3 (l mk))) = off_madt n /\
  len (concat (take 4 (l mk))) = off_hpet cfg n /\ len (concat (take 5 (l mk))) = off_spcr cfg n /\ len (concat (take 6 (l mk))) = off_tpm2 cfg n /\
  len (concat (take 7 (l mk))) = off_rsdt cfg n tn /\ len (concat (take 8 (l mk))) = off_xsdt cfg n tn /\ len (concat (l mk)) = blob_size cfg n tn.
Proof.
  intros Hd Ht H1 H2 H3 l mk Hmk. assert (Hm : 0 <= max_cpus cfg) by (pose proof (fits_cpus _ _ _ Hf) as H; unfold uint in H; lia).
  pose proof (madt_fields_len cfg Hm) as Hma. assert (Htp : len (default [] tp) = default 0 tn) by (rewrite <- Ht; by destruct tp).
  unfold l, segs. cbn [take concat]. rewrite !len_app, !Hmk, H1, H2, H3, Hd, Htp by done.
  change (len facs) with 64. change (len hpet_fields) with 20. change (len spcr_fields) with 44. change (len []) with 0.
  unfold blob_size, off_xsdt, off_rsdt, off_tpm2, off_spcr, off_hpet, off_madt, off_fadt. unfold ACPI_HDR_SIZE in *. split_and!; lia.
Qed.

Lemma listed_inside : Forall (fun v => 0 <= v < blob_size cfg n tn) entries.
Proof.
  clear - Hf.
  pose proof (offs_small _ _ _ Hf) as Ho. cbv zeta in Ho. unfold listed.
  apply Forall_app. split; [repeat (constructor; [lia|]); constructor|].
  destruct tpm2; [|constructor]. constructor; [|constructor]. cbn [fmap option_fmap option_map] in *. lia.
Qed.

Lemma run_allocs : files TABLES_BLOB_NAME = Some (tables L) -> files RSDP_BLOB_NAME = Some (rsdp L) ->
  place TABLES_BLOB_NAME = T -> place RSDP_BLOB_NAME = R -> T mod 64 = 0 -> R mod 16 = 0 ->
  run [Alloc TABLES_BLOB_NAME 0x40 ZONE_HIGH; Alloc RSDP_BLOB_NAME 0x10 ZONE_FSEG] ∅ = Some (two T (tables L) R (rsdp L)).
Proof.
  intros H1 H2 P1 P2 A1 A2. cbn [fw_loader.run fw_loader.exec]. rewrite H1, P1, A1. rewrite bool_decide_eq_true_2 by (apply lookup_empty). cbn [andb Z.eqb].
  rewrite H2, P2, A2, bool_decide_eq_true_2 by (rewrite lookup_insert_ne by done; apply lookup_empty). cbn [andb Z.eqb]. reflexivity.
Qed.

Lemma run_seq cs1 cs2 m m' r : run cs1 m = Some m' -> run cs2 m' = r -> run (cs1 ++ cs2) m = r.
Proof. intros H1 H2. by rewrite run_app, H1. Qed.

Lemma fadt_unsummed a b : sdt_unsummed (s2b "FACP") 5 (fadt_fields a b cfg) = fadt_ptrs (write_header (s2b "FACP") 276 5) (fadt_mid cfg) (fadt_end cfg) a b a b.
Proof. rewrite sdt_unsummed_fields, fadt_fields_len. unfold fadt_ptrs. by rewrite <- fadt_split. Qed.

Lemma sdt_linked r l1 l2 sig k l off c sz size : len sig = 4 -> off = len (concat l1) -> c = Z.of_nat (List.length l) -> sz = Z.of_nat k ->
  len (concat (l1 ++ sdt_unsummed sig 1 (ptrs k l) :: l2)) = size ->
  Forall (fun v => 0 <= v < size) l -> T + size <= 2 ^ 32 -> (4 <= k)%nat ->
  run ((fun i => table_ptr (off + ACPI_HDR_SIZE + i * sz) sz) <$> seqZ 0 c) (tables_at r (l1 ++ sdt_unsummed sig 1 (ptrs k l) :: l2)) =
  Some (tables_at r (l1 ++ sdt_unsummed sig 1 (ptrs k ((fun v => v + T) <$> l)) :: l2)).
Proof.
  intros Hsig Ho Hc Hs. rewrite !sdt_unsummed_fields, !ptrs_len, length_fmap. intros. by apply (list_linked r l1 l2 _ k l off c sz size); [apply header_len|..].
Qed.

Lemma run_pointers :
  run ([AddPointer RSDP_BLOB_NAME TABLES_BLOB_NAME 16 4; AddPointer RSDP_BLOB_NAME TABLES_BLOB_NAME 24 8] ++
       [table_ptr (off_fadt n + 36) 4; table_ptr (off_fadt n + 40) 4; table_ptr (off_fadt n + 132) 8; table_ptr (off_fadt n + 140) 8] ++
       ((fun i => table_ptr (off_rsdt cfg n tn + ACPI_HDR_SIZE + i * 4) 4) <$> seqZ 0 (Z.of_nat (List.length entries))) ++
       ((fun i => table_ptr (off_xsdt cfg n tn + ACPI_HDR_SIZE + i * 8) 8) <$> seqZ 0 (Z.of_nat (List.length entries))))
      (two T (tables L) R (rsdp L)) =
  Some (tables_at (rsdp_bytes 0 0 (off_rsdt cfg n tn + T) (off_xsdt cfg n tn + T))
          (segs sdt_unsummed (cleared dsdt) (cleared <$> tpm2) (fadt_fields T (64 + T) cfg) (ptrs 4 linked) (ptrs 8 linked))).
Proof.
  pose proof (offs_small _ _ _ Hf) as Ho. cbv zeta in Ho. pose proof listed_inside as Hin. pose proof cleared_tpm2 as Hct.
  pose proof (cleared_len dsdt (fits_dsdt _ _ _ Hf)) as Hcd. cbn [tables rsdp the_layout]. rewrite (segs_blob _ 0 _ _ Hcd Hct), add_zeros.
  assert (Hlens : forall fadt l l', len fadt = 240 -> List.length l = List.length entries -> List.length l' = List.length entries -> _) by
    (intros fadt l l' H1 H2 H3; exact (segs_lens (cleared dsdt) (cleared <$> tpm2) fadt (ptrs 4 l) (ptrs 8 l') Hcd Hct H1
       ltac:(by rewrite ptrs_len, H2) ltac:(by rewrite ptrs_len, H3) sdt_unsummed sdt_unsummed_len)).
  destruct (Hlens (fadt_fields 0 64 cfg) entries entries (fadt_fields_len _ _ _) eq_refl eq_refl) as (_ & Lf & _ & _ & _ & _ & _ & _ & Ln).
  cbv zeta in Lf, Ln. change (64 + 0) with 64.
  eapply run_seq; [apply rsdp_linked; rewrite ?Ln; lia|].
  eapply run_seq.
  { pose proof (fadt_linked (rsdp_bytes 0 0 (off_rsdt cfg n tn + T) (off_xsdt cfg n tn + T)) [facs; cleared dsdt]
      (drop 3 (segs sdt_unsummed (cleared dsdt) (cleared <$> tpm2) (fadt_fields 0 64 cfg) (ptrs 4 entries) (ptrs 8 entries)))
      _ _ (fadt_end cfg) 0 64 (off_fadt n) (blob_size cfg n tn) (header_len (s2b "FACP") 276 5 eq_refl) (fadt_mid_len cfg) (eq_sym Lf)) as Hp.
    rewrite <- !fadt_unsummed in Hp. pose proof (eq_refl : off_madt n = off_fadt n + 276). apply Hp; try lia. exact Ln. }
  rewrite Z.add_0_l.
  destruct (Hlens (fadt_fields T (64 + T) cfg) entries entries (fadt_fields_len _ _ _) eq_refl eq_refl) as (_ & _ & _ & _ & _ & _ & Lr & _ & Ln').
  cbv zeta in Lr, Ln'. eapply run_seq.
  { apply (sdt_linked (rsdp_bytes 0 0 (off_rsdt cfg n tn + T) (off_xsdt cfg n tn + T))
      (take 7 (segs sdt_unsummed (cleared dsdt) (cleared <$> tpm2) (fadt_fields T (64 + T) cfg) (ptrs 4 entries) (ptrs 8 entries)))
      [sdt_unsummed (s2b "XSDT") 1 (ptrs 8 entries)] (s2b "RSDT") 4 entries _ _ 4 _ eq_refl (eq_sym Lr) eq_refl eq_refl Ln'); lia || done. }
  destruct (Hlens (fadt_fields T (64 + T) cfg) linked entries (fadt_fields_len _ _ _) (length_fmap _ _) eq_refl) as (_ & _ & _ & _ & _ & _ & _ & Lx & Lm).
  apply (sdt_linked (rsdp_bytes 0 0 (off_rsdt cfg n tn + T) (off_xsdt cfg n tn + T))
      (take 8 (segs sdt_unsummed (cleared dsdt) (cleared <$> tpm2) (fadt_fields T (64 + T) cfg) (ptrs 4 linked) (ptrs 8 entries)))
      [] (s2b "XSDT") 8 entries _ _ 8 _ eq_refl (eq_sym Lx) eq_refl eq_refl Lm); lia || done.
Qed.

Lemma sdt_table sig r f : len sig = 4 -> sdt_unsummed sig r f = cleared (sdt sig r f) /\ 10 <= len (sdt sig r f).
Proof.
  intros H. split; [symmetry; by apply cleared_sdt|]. rewrite sdt_len by done. pose proof (len_nonneg f). unfold ACPI_HDR_SIZE. lia.
Qed.

Lemma sdt_lookup (l : list (list Z)) k sig r f : l !! k = Some (sdt_unsummed sig r f) -> len sig = 4 ->
  exists t, l !! k = Some (cleared t) /\ 10 <= len t.
Proof. intros Hk H. destruct (sdt_table sig r f H) as [E Hl]. rewrite E in Hk. eauto. Qed.

Lemma balanced_sdt sig r f : len sig = 4 -> balanced (sdt_unsummed sig r f) = sdt sig r f.
Proof. intros H. destruct (sdt_table sig r f H) as [-> Hl]. rewrite balanced_cleared by done. by apply cleared_sdt. Qed.

Lemma run_sums r :
  run ([table_sum (off_fadt n) 276; table_sum 64 n; table_sum (off_madt n) (madt_size cfg); table_sum (off_hpet cfg n) 56; table_sum (off_spcr cfg n) 80] ++
       (if tpm2 then [table_sum (off_tpm2 cfg n) (default 0 tn)] else []) ++
       [table_sum (off_rsdt cfg n tn) (36 + Z.of_nat (List.length entries) * 4); table_sum (off_xsdt cfg n tn) (36 + Z.of_nat (List.length entries) * 8)])
      (tables_at r (segs sdt_unsummed (cleared dsdt) (cleared <$> tpm2) (fadt_fields T (64 + T) cfg) (ptrs 4 linked) (ptrs 8 linked))) =
  Some (tables_at r (segs sdt (balanced dsdt) (balanced <$> tpm2) (fadt_fields T (64 + T) cfg) (ptrs 4 linked) (ptrs 8 linked))).
Proof.
  set (l := segs sdt_unsummed _ _ _ _ _). pose proof (cleared_len dsdt (fits_dsdt _ _ _ Hf)) as Hcd. pose proof cleared_tpm2 as Hct.
  destruct (segs_lens (cleared dsdt) (cleared <$> tpm2) (fadt_fields T (64 + T) cfg) (ptrs 4 linked) (ptrs 8 linked) Hcd Hct (fadt_fields_len _ _ _)
    ltac:(by rewrite ptrs_len, length_fmap) ltac:(by rewrite ptrs_len, length_fmap) sdt_unsummed sdt_unsummed_len) as (L1 & L2 & L3 & L4 & L5 & L6 & L7 & L8 & L9).
  cbv zeta in *. fold l in L1, L2, L3, L4, L5, L6, L7, L8, L9.
  assert (Hm : 0 <= max_cpus cfg) by (pose proof (fits_cpus _ _ _ Hf) as H; unfold uint in H; lia).
  set (ks := [2; 1; 3; 4; 5]%nat ++ (if tpm2 then [6]%nat else []) ++ [7; 8]%nat).
  pose proof (sums_at r l ks l) as Hp. rewrite L9 in Hp.
  assert (H6 : len (l !!! 6%nat) = default 0 tn) by (rewrite <- Hct; by destruct tpm2).
  assert (Hcmds : (fun k => table_sum (len (concat (take k l))) (len (l !!! k))) <$> ks =
    [table_sum (off_fadt n) 276; table_sum 64 n; table_sum (off_madt n) (madt_size cfg); table_sum (off_hpet cfg n) 56; table_sum (off_spcr cfg n) 80] ++
       (if tpm2 then [table_sum (off_tpm2 cfg n) (default 0 tn)] else []) ++
       [table_sum (off_rsdt cfg n tn) (36 + Z.of_nat (List.length entries) * 4); table_sum (off_xsdt cfg n tn) (36 + Z.of_nat (List.length entries) * 8)]).
  { unfold ks. rewrite !fmap_app. assert (forall A B C (f : A -> B) (o : option C) x, f <$> (if o then [x] else []) = if o then [f x] else []) as -> by (by intros ? ? ? ? [] ?).
    cbn [fmap list_fmap]. rewrite L1, L2, L3, L4, L5, L6, L7, L8, H6.
    unfold l, segs. cbn [lookup_total list_lookup_total]. by rewrite !sdt_unsummed_len, !ptrs_len, length_fmap, madt_fields_len, fadt_fields_len, Hcd by done. }
  rewrite <- Hcmds, Hp; clear Hp Hcmds.
  - f_equal. f_equal. pose proof (fits_dsdt _ _ _ Hf) as Hd. pose proof (fits_tpm2 _ _ _ Hf) as Ht. unfold ks, l, segs.
    destruct tpm2 as [t|]; cbn [app foldl insert list_insert lookup_total list_lookup_total fmap option_fmap option_map default from_option];
      unfold id; rewrite !balanced_sdt, !balanced_cleared by auto; done.
  - unfold ks. destruct tpm2; apply (bool_decide_unpack _); exact I.
  - done.
  - pose proof (offs_small _ _ _ Hf) as Ho. cbv zeta in Ho. lia.
  - pose proof (fits_dsdt _ _ _ Hf) as Hd. pose proof (fits_tpm2 _ _ _ Hf) as Ht. unfold ks. rewrite !Forall_app. split_and!.
    + apply Forall_cons. split; [eapply sdt_lookup; reflexivity|]. apply Forall_cons. split; [by exists dsdt|].
      repeat (apply Forall_cons; split; [eapply sdt_lookup; reflexivity|]). apply Forall_nil_2.
    + destruct tpm2 as [t|]; [|apply Forall_nil_2]. apply Forall_cons. split; [exists t; auto|apply Forall_nil_2].
    + repeat (apply Forall_cons; split; [eapply sdt_lookup; reflexivity|]). apply Forall_nil_2.
Qed.
(** The script on the layout gives the tables as built for their addresses. *)
Lemma run_script : files TABLES_BLOB_NAME = Some (tables L) -> files RSDP_BLOB_NAME = Some (rsdp L) ->
  place TABLES_BLOB_NAME = T -> place RSDP_BLOB_NAME = R -> T mod 64 = 0 -> R mod 16 = 0 ->
  run (script L) ∅ = Some (two T (blob sdt T cfg (balanced dsdt) (balanced <$> tpm2)) R (rsdp_sum (off_rsdt cfg n tn + T) (off_xsdt cfg n tn + T))).
Proof.
  intros H1 H2 P1 P2 A1 A2. pose proof (fits_tpm2 _ _ _ Hf) as Ht. pose proof (fits_dsdt _ _ _ Hf) as Hd.
  assert (Htp : (0 <? tpm2_len L) = if tpm2 then true else false).
  { cbn [tpm2_len the_layout]. destruct tpm2 as [t|]; [|done]. cbn. specialize (Ht t eq_refl). destruct (Z.ltb_spec 0 (len t)); [done|lia]. }
  assert (Hc : (if 0 <? tpm2_len L then 5 else 4) = Z.of_nat (List.length entries)) by (rewrite Htp; unfold listed; by destruct tpm2).
  assert (Hb : len <$> (balanced <$> tpm2) = tn) by (destruct tpm2 as [t|]; [|done]; cbn; by rewrite (balanced_len t (Ht t eq_refl))).
  unfold script. rewrite Hc, Htp. cbn [fadt_offset rsdt_offset xsdt_offset dsdt_offset madt_offset hpet_offset spcr_offset
    fadt_len rsdt_len xsdt_len dsdt_len madt_len hpet_len spcr_len the_layout].
  pose proof run_pointers as HP. pose proof (rsdp_balanced (concat (segs sdt_unsummed (cleared dsdt) (cleared <$> tpm2) (fadt_fields T (64 + T) cfg) (ptrs 4 linked) (ptrs 8 linked)))
    (off_rsdt cfg n tn + T) (off_xsdt cfg n tn + T)) as HR.
  pose proof (run_sums (rsdp_sum (off_rsdt cfg n tn + T) (off_xsdt cfg n tn + T))) as HS.
  rewrite (segs_blob sdt T (balanced dsdt) (balanced <$> tpm2) (balanced_len dsdt Hd) Hb).
  match type of HS with fw_loader.run _ _ ?sums _ = _ => match type of HR with fw_loader.run _ _ ?rs _ = _ => match type of HP with fw_loader.run _ _ ?ps _ = _ =>
    transitivity (run ([Alloc TABLES_BLOB_NAME 0x40 ZONE_HIGH; Alloc RSDP_BLOB_NAME 0x10 ZONE_FSEG] ++ ps ++ rs ++ sums) ∅) end end end.
  - f_equal. cbn [app]. do 8 f_equal. rewrite <- !app_assoc. do 2 f_equal. cbn [app]. do 7 f_equal. by destruct tpm2.
  - eapply run_seq; [by apply run_allocs|]. eapply run_seq; [exact HP|]. eapply run_seq; [exact HR|exact HS].
Qed.

Lemma load_layout : files TABLES_BLOB_NAME = Some (tables L) -> files RSDP_BLOB_NAME = Some (rsdp L) ->
  place TABLES_BLOB_NAME = T -> place RSDP_BLOB_NAME = R -> T mod 64 = 0 -> R mod 16 = 0 ->
  exists bs, generate_table_loader L = Some bs /\
    load files place bs = Some (two T (blob sdt T cfg (balanced dsdt) (balanced <$> tpm2)) R (rsdp_sum (off_rsdt cfg n tn + T) (off_xsdt cfg n tn + T))).
Proof. intros. destruct (script_parses L) as (bs & Hg & Hp). exists bs. split; [done|]. unfold load. rewrite Hp. by apply run_script. Qed.
End script.
End segments.

End fw_run.

Module acpi_os.

(** ** Table discovery

    The operating system's walk (ACPI 6.5 sec 5.2): the RSDP with both
    checksums, the RSDT and the XSDT it points to, every table they list, and
    from the FADT the FACS and the DSDT. [mem a n] is [n] bytes of guest
    memory at [a]. *)

Definition Memory : Type := Z -> Z -> option (list Z).

Definition read_sdt (mem : Memory) (a : Z) : option (list Z) :=
  let* h := mem a 36 in
  let n := field h 4 4 in
  if n <? 36 then None else let* t := mem a n in if sum8 t =? 0 then Some t else None.

Definition has_sig (sig t : list Z) : bool := bool_decide (take (List.length sig) t = sig).

(** The pointers of an RSDT ([k] = 4) or an XSDT ([k] = 8). *)
Definition pointers (k : nat) (t : list Z) : list Z :=
  (fun i => field t (36 + i * k) k) <$> seq 0 ((List.length t - 36) / k).

Record Found : Type := mkFound { by_rsdt : list (list Z); by_xsdt : list (list Z); facs_at : Z; found_dsdt : list Z }.

Definition walk (mem : Memory) (rsdp_at : Z) : option Found :=
  let* r := mem rsdp_at 36 in
  if has_sig (s2b "RSD PTR ") r && (sum8 (take 20 r) =? 0) && (sum8 r =? 0) && (field r 15 1 =? 2) && (field r 20 4 =? 36) then
    let* rsdt := read_sdt mem (field r 16 4) in
    let* xsdt := read_sdt mem (field r 24 8) in
    if has_sig (s2b "RSDT") rsdt && has_sig (s2b "XSDT") xsdt then
      let* by_r := mapM (read_sdt mem) (pointers 4 rsdt) in
      let* by_x := mapM (read_sdt mem) (pointers 8 xsdt) in
      let* '(_, fadt) := list_find (has_sig (s2b "FACP")) by_x in
      let facs_addr := field fadt 132 8 in
      let dsdt_addr := field fadt 140 8 in
      let* f := mem facs_addr 64 in
      let* d := read_sdt mem dsdt_addr in
      if has_sig (s2b "FACS") f && (field f 4 4 =? 64) && (field fadt 36 4 =? facs_addr) && has_sig (s2b "DSDT") d && (field fadt 40 4 =? dsdt_addr)
      then Some (mkFound by_r by_x facs_addr d) else None
    else None
  else None.

(** Memory holds these bytes at this address. *)
Definition holds (mem : Memory) (a : Z) (bs : list Z) : Prop :=
  forall i n, 0 <= i -> 0 <= n -> i + n <= len bs -> mem (a + i) n = slice i n bs.

Lemma holds_at mem a x o y i n : holds mem a (x ++ o ++ y) -> i = len x -> n = len o -> mem (a + i) n = Some o.
Proof.
  intros H -> ->. rewrite H; [by apply slice_at|apply len_nonneg|apply len_nonneg|]. rewrite !len_app. pose proof (len_nonneg y). lia.
Qed.

(** A table an operating system accepts. *)
Record good (t : list Z) : Prop := {
  good_len : 36 <= len t;
  good_field : field t 4 4 = len t;
  good_sum : sum8 t = 0;
}.

Lemma field_at x o y (i n : nat) : len x = Z.of_nat i -> len o = Z.of_nat n -> field (x ++ o ++ y) i n = le_val o.
Proof.
  intros Hx Ho. unfold field, len in *. assert (List.length x = i) as <- by lia. assert (List.length o = n) as <- by lia.
  by rewrite drop_app_length, take_app_length.
Qed.

Lemma field_take t (i n k : nat) : (i + n <= k)%nat -> field (take k t) i n = field t i n.
Proof. intros H. unfold field. rewrite !take_drop_commute, take_take. do 3 f_equal. lia. Qed.

Lemma sdt_good sig r f : len sig = 4 -> ACPI_HDR_SIZE + len f < 2 ^ 32 -> good (sdt sig r f).
Proof.
  intros Hs Hf. unfold ACPI_HDR_SIZE in Hf. pose proof (len_nonneg f). split.
  - rewrite sdt_len by done. unfold ACPI_HDR_SIZE. lia.
  - rewrite sdt_len by done. unfold sdt, summed, hdr_pre. rewrite <- !app_assoc.
    rewrite (field_at sig (le_bytes 4 _)) by done. rewrite as_u_small by (unfold uint, ACPI_HDR_SIZE; lia).
    apply le_val_le_bytes. unfold ACPI_HDR_SIZE. change (8 * Z.of_nat 4) with 32. lia.
  - apply balance_sums.
Qed.

Lemma read_good mem a x t y i : holds mem a (x ++ t ++ y) -> good t -> i = a + len x -> read_sdt mem i = Some t.
Proof.
  intros Hm [Hl Hf Hs] ->. unfold read_sdt.
  assert (Hh : mem (a + len x) 36 = Some (take 36 t)).
  { apply (holds_at mem a x (take 36 t) (drop 36 t ++ y)); [|done|unfold len in *; rewrite length_take; lia].
    by rewrite (app_assoc (take 36 t)), take_drop. }
  rewrite Hh, field_take, Hf by lia. destruct (Z.ltb_spec (len t) 36); [lia|]. rewrite (holds_at mem a x t y _ _ Hm) by done. by rewrite Hs.
Qed.

Lemma has_sig_sdt sig r f s : len sig = 4 -> len s = 4 -> has_sig s (sdt sig r f) = bool_decide (sig = s).
Proof.
  intros H1 H2. unfold has_sig, sdt, summed, hdr_pre, len in *. rewrite <- !app_assoc. by rewrite take_app_length' by lia.
Qed.

Lemma pointers_ptrs sig r k l : len sig = 4 -> (0 < k)%nat -> Forall (fun v => 0 <= v < 2 ^ (8 * Z.of_nat k)) l ->
  pointers k (sdt sig r (ptrs k l)) = l.
Proof.
  intros Hs Hk Hl. pose proof (sdt_len sig r (ptrs k l) Hs) as Hn. destruct (sdt_fields sig r (ptrs k l) Hs) as (h & E & Hh).
  unfold pointers. rewrite ptrs_len in Hn. unfold len, ACPI_HDR_SIZE in Hn.
  replace (List.length (sdt sig r (ptrs k l)) - 36)%nat with (List.length l * k)%nat by lia. rewrite Nat.div_mul by lia. rewrite E. clear E Hn.
  revert h Hh.
  assert (forall j h, len h = 36 + Z.of_nat (j * k) -> (fun i => field (h ++ ptrs k l) (36 + i * k) k) <$> seq j (List.length l) = l) as Hgen.
  { induction Hl as [|v l Hv Hl IH]; intros j h Hh; [done|]. cbn [List.length seq fmap list_fmap]. f_equal.
    - unfold ptrs. cbn [fmap list_fmap concat]. rewrite field_at; [by apply le_val_le_bytes|lia|apply le_bytes_len].
    - specialize (IH (S j) (h ++ le_bytes k v)). rewrite <- IH at 2 by (rewrite len_app, le_bytes_len; lia).
      apply list_fmap_ext. intros ? i _. unfold ptrs. cbn [fmap list_fmap concat]. by rewrite <- app_assoc. }
  intros h Hh. by apply (Hgen 0%nat h).
Qed.

(** *** The linked tables *)

Lemma slice_field (b x : list Z) (i n : nat) : slice (Z.of_nat i) (Z.of_nat n) b = Some x -> field b i n = le_val x.
Proof. intros (a & c & -> & Ha & Hx)%slice_inv. by apply field_at. Qed.

Lemma rsdp_bytes_fields a b c8 c32 : let r := rsdp_bytes c8 c32 a b in
  has_sig (s2b "RSD PTR ") r = true /\ field r 15 1 = 2 /\ field r 20 4 = 36 /\ field r 16 4 = le_val (le_bytes 4 a) /\ field r 24 8 = le_val (le_bytes 8 b) /\ len r = 36.
Proof. split_and!; reflexivity. Qed.

Lemma rsdp_fields a b : let r := rsdp_sum a b in
  has_sig (s2b "RSD PTR ") r = true /\ field r 15 1 = 2 /\ field r 20 4 = 36 /\ field r 16 4 = le_val (le_bytes 4 a) /\ field r 24 8 = le_val (le_bytes 8 b) /\ len r = 36.
Proof. apply rsdp_bytes_fields. Qed.

Lemma rsdp_sums a b : sum8 (take 20 (rsdp_sum a b)) = 0 /\ sum8 (rsdp_sum a b) = 0.
Proof.
  unfold rsdp_sum. cbv zeta. set (c8 := balance (take 20 _)). set (c32 := balance (rsdp_bytes c8 0 a b)).
  assert (H20 : forall c d, take 20 (rsdp_bytes c d a b) = s2b "RSD PTR " ++ [c] ++ (OEM_ID ++ [2] ++ le_bytes 4 a)) by done.
  assert (H36 : forall d, rsdp_bytes c8 d a b =
    (s2b "RSD PTR " ++ [c8] ++ OEM_ID ++ [2] ++ le_bytes 4 a ++ le_bytes 4 RSDP_SIZE ++ le_bytes 8 b) ++ [d] ++ [0; 0; 0]).
  { intros. unfold rsdp_bytes. by rewrite <- !app_assoc. }
  split.
  - rewrite H20. unfold c8. rewrite H20. apply balance_sums.
  - rewrite H36. unfold c32. rewrite H36. apply balance_sums.
Qed.

Section linked.
Context (mem : Memory) (T R : Z) (cfg : AcpiConfig) (dsdt : list Z) (tpm2 : option (list Z)).
Notation n := (len dsdt).
Notation tn := (len <$> tpm2).
Hypothesis Hf : fits cfg dsdt tpm2.
Hypothesis Hgd : good dsdt.
Hypothesis Hsd : take 4 dsdt = s2b "DSDT".
Hypothesis Hgt : forall t, tpm2 = Some t -> good t.
Hypothesis HT : 0 <= T.
Hypothesis HTs : T + blob_size cfg n tn <= 2 ^ 32.
Hypothesis Hmt : holds mem T (blob sdt T cfg dsdt tpm2).
Hypothesis Hmr : holds mem R (rsdp_sum (off_rsdt cfg n tn + T) (off_xsdt cfg n tn + T)).

(** What the operating system is to find. *)
Definition the_fadt : list Z := sdt (s2b "FACP") 5 (fadt_fields T (64 + T) cfg).
Definition the_tables : list (list Z) :=
  [the_fadt; sdt (s2b "APIC") 1 (madt_fields cfg); sdt (s2b "HPET") 1 hpet_fields; sdt (s2b "SPCR") 1 spcr_fields] ++
  match tpm2 with Some t => [t] | None => [] end.
Notation entries := ((fun v => v + T) <$> listed cfg n tn).

Lemma option_eq_dec_some {A} (o : option A) : (exists x, o = Some x) \/ o = None.
Proof. destruct o; eauto. Qed.

Lemma cpus_nonneg : 0 <= max_cpus cfg.
Proof. pose proof (fits_cpus _ _ _ Hf) as H. unfold uint in H. lia. Qed.

Lemma entries_small k : (4 <= k)%nat -> Forall (fun v => 0 <= v < 2 ^ (8 * Z.of_nat k)) entries.
Proof.
  intros Hk. assert (2 ^ 32 <= 2 ^ (8 * Z.of_nat k)) by (apply Z.pow_le_mono_r; lia).
  apply Forall_fmap. eapply Forall_impl; [apply (fw_run.listed_inside cfg dsdt tpm2 Hf)|]. cbn. intros v Hv. lia.
Qed.

Lemma found_at x t y i : blob sdt T cfg dsdt tpm2 = x ++ t ++ y -> good t -> i = len x + T -> read_sdt mem i = Some t.
Proof. intros E Hg ->. pose proof Hmt as H. rewrite E in H. eapply read_good; [exact H|done|lia]. Qed.

Lemma madt_good : good (sdt (s2b "APIC") 1 (madt_fields cfg)).
Proof.
  apply sdt_good; [done|]. rewrite (madt_fields_len cfg cpus_nonneg). pose proof (offs_small _ _ _ Hf) as Ho. cbv zeta in Ho.
  pose proof (eq_refl : off_hpet cfg n = off_madt n + madt_size cfg). lia.
Qed.

Lemma entries_read : mapM (read_sdt mem) entries = Some the_tables.
Proof.
  pose proof cpus_nonneg as Hc. unfold listed, the_tables. rewrite fmap_app. apply mapM_Some_2. apply Forall2_app.
  - repeat (apply Forall2_cons_2; [|]); [..|apply Forall2_nil_2].
    + eapply (found_at (facs ++ dsdt)); [unfold blob; by rewrite <- app_assoc| |by rewrite upto_dsdt_len]. apply sdt_good; [done|]. by rewrite fadt_fields_len.
    + eapply (found_at (upto_fadt sdt T cfg dsdt)); [unfold blob, upto_fadt; by rewrite <- !app_assoc|apply madt_good|]. by rewrite (upto_fadt_len sdt) by (done || apply sdt_len).
    + eapply (found_at (upto_madt sdt T cfg dsdt)); [unfold blob, upto_madt, upto_fadt; by rewrite <- !app_assoc|by apply sdt_good|]. by rewrite (upto_madt_len sdt) by (done || apply sdt_len).
    + eapply (found_at (upto_hpet sdt T cfg dsdt)); [unfold blob, upto_hpet, upto_madt, upto_fadt; by rewrite <- !app_assoc|by apply sdt_good|]. by rewrite (upto_hpet_len sdt) by (done || apply sdt_len).
  - destruct (option_eq_dec_some tpm2) as [(t & Et)|Et]; rewrite Et; [|apply Forall2_nil_2]. cbn [fmap option_fmap option_map list_fmap].
    apply Forall2_cons_2; [|apply Forall2_nil_2].
    eapply (found_at (upto_spcr sdt T cfg dsdt)); [unfold blob, upto_spcr, upto_hpet, upto_madt, upto_fadt; rewrite Et; by rewrite <- !app_assoc|by apply Hgt|].
    by rewrite (upto_spcr_len sdt) by (done || apply sdt_len).
Qed.

Lemma lists_read :
  read_sdt mem (off_rsdt cfg n tn + T) = Some (sdt (s2b "RSDT") 1 (ptrs 4 entries)) /\
  read_sdt mem (off_xsdt cfg n tn + T) = Some (sdt (s2b "XSDT") 1 (ptrs 8 entries)).
Proof.
  pose proof cpus_nonneg as Hc. pose proof (offs_small _ _ _ Hf) as Ho. cbv zeta in Ho.
  assert (Hl : (List.length (listed cfg n tn) <= 5)%nat) by (unfold listed; rewrite length_app; destruct tn; simpl; lia).
  assert (Hg : forall k, (k <= 8)%nat -> ACPI_HDR_SIZE + len (ptrs k entries) < 2 ^ 32) by (intros; rewrite ptrs_len, length_fmap; unfold ACPI_HDR_SIZE; nia).
  split.
  - eapply (found_at (upto_spcr sdt T cfg dsdt ++ default [] tpm2)); [unfold blob, upto_spcr, upto_hpet, upto_madt, upto_fadt; by rewrite <- !app_assoc|apply sdt_good; auto with lia|].
    by rewrite (upto_tpm2_len sdt) by (done || apply sdt_len).
  - eapply (found_at (upto_rsdt sdt T cfg dsdt tpm2) _ []); [unfold blob, upto_rsdt, upto_spcr, upto_hpet, upto_madt, upto_fadt; by rewrite app_nil_r, <- !app_assoc|apply sdt_good; auto with lia|].
    by rewrite (upto_rsdt_len sdt) by (done || apply sdt_len).
Qed.

Lemma dsdt_read : read_sdt mem (64 + T) = Some dsdt.
Proof. eapply (found_at facs); [by unfold blob|done|done]. Qed.

Lemma facs_read : mem T 64 = Some facs.
Proof. pose proof Hmt as H. rewrite <- (Z.add_0_r T). by eapply (holds_at mem T []); [exact H|..]. Qed.

Lemma fadt_addresses : field the_fadt 36 4 = T /\ field the_fadt 40 4 = 64 + T /\ field the_fadt 132 8 = T /\ field the_fadt 140 8 = 64 + T.
Proof.
  pose proof (offs_small _ _ _ Hf) as Ho. cbv zeta in Ho. unfold the_fadt.
  destruct (sdt_fields (s2b "FACP") 5 (fadt_fields T (64 + T) cfg) eq_refl) as (h & -> & Hh).
  destruct (fadt_slices h T (64 + T) cfg Hh) as (H1 & H2 & H3 & H4).
  apply (slice_field _ _ 36 4) in H1 as ->. apply (slice_field _ _ 40 4) in H2 as ->. apply (slice_field _ _ 132 8) in H3 as ->. apply (slice_field _ _ 140 8) in H4 as ->.
  rewrite !le_val_le_bytes by (cbn; lia). done.
Qed.

Lemma walk_linked : walk mem R = Some (mkFound the_tables the_tables T dsdt).
Proof.
  pose proof (offs_small _ _ _ Hf) as Ho. cbv zeta in Ho. unfold walk.
  destruct (rsdp_fields (off_rsdt cfg n tn + T) (off_xsdt cfg n tn + T)) as (Hr1 & Hr2 & Hr3 & Hr4 & Hr5 & Hr36).
  assert (mem R 36 = Some (rsdp_sum (off_rsdt cfg n tn + T) (off_xsdt cfg n tn + T))) as ->.
  { rewrite <- (Z.add_0_r R), Hmr by (by rewrite ?Hr36). rewrite <- Hr36 at 1. apply slice_all. }
  destruct (rsdp_sums (off_rsdt cfg n tn + T) (off_xsdt cfg n tn + T)) as [-> ->].
  rewrite Hr1, Hr2, Hr3, Hr4, Hr5, !le_val_le_bytes by (cbn; lia).
  cbn [andb Z.eqb Pos.eqb]. destruct lists_read as [-> ->]. rewrite !has_sig_sdt, !bool_decide_eq_true_2 by done. cbn [andb].
  rewrite !pointers_ptrs, entries_read by (done || lia || apply entries_small; lia).
  assert (list_find (has_sig (s2b "FACP")) the_tables = Some (0%nat, the_fadt)) as ->.
  { unfold the_tables. cbn [app list_find]. rewrite decide_True; [done|]. unfold the_fadt. by rewrite has_sig_sdt. }
  destruct fadt_addresses as (-> & -> & -> & ->). rewrite facs_read, dsdt_read, !Z.eqb_refl.
  assert (has_sig (s2b "DSDT") dsdt = true) as -> by (by apply bool_decide_eq_true_2). done.
Qed.
End linked.
End acpi_os.

(** ** The layout at fixed addresses *)

Lemma wadd_small_len base b : 0 <= base -> base + len b < 2 ^ 64 -> wadd 64 base (len b) = base + len b.
Proof. intros H1 H2. pose proof (len_nonneg b). unfold wadd. apply Z.mod_small. lia. Qed.

Definition legacy_rsdp (cfg : AcpiConfig) (dsdt : list Z) (tpm2 : option (list Z)) : list Z :=
  let T := BHYVE_ACPI_BASE + 36 in
  rsdp_sum (off_rsdt cfg (len dsdt) (len <$> tpm2) + T) (off_xsdt cfg (len dsdt) (len <$> tpm2) + T).

Lemma legacy_rsdp_len cfg dsdt tpm2 : len (legacy_rsdp cfg dsdt tpm2) = 36.
Proof. reflexivity. Qed.

(** The RSDP, then the tables as built for the addresses after it. *)
Lemma legacy_eq hp cfg tpm2 body : let dsdt := sdt (s2b "DSDT") 2 body in
  dsdt_aml hp cfg [] = Some body -> fits cfg dsdt tpm2 -> BHYVE_ACPI_BASE + 36 + blob_size cfg (len dsdt) (len <$> tpm2) < 2 ^ 32 ->
  exists t, generate_acpi_tables_inner hp cfg tpm2 = Some t /\ data t = legacy_rsdp cfg dsdt tpm2 ++ blob sdt (BHYVE_ACPI_BASE + 36) cfg dsdt tpm2.
Proof.
  intros dsdt Hbody Hf Hsz. pose proof (offs_small cfg dsdt tpm2 Hf) as Ho. cbv zeta in Ho. destruct Hf as [Hc Hl Ht Hs].
  assert (Hc0 : 0 <= max_cpus cfg) by (unfold uint in Hc; lia). pose proof (fun sig r f => sdt_len sig r f) as Hmk.
  set (T := BHYVE_ACPI_BASE + 36) in *. set (z := replicate 36 0). assert (Hz : len z = 36) by done.
  assert (Hg : forall b o, len b = 36 + o -> 0 <= o <= blob_size cfg (len dsdt) (len <$> tpm2) -> wadd 64 BHYVE_ACPI_BASE (len b) = o + T /\ as_u 32 (o + T) = o + T).
  { intros b o Hb Hob. unfold T, BHYVE_ACPI_BASE in *. rewrite wadd_small_len by lia. split; [lia|]. apply as_u_small. unfold uint. lia. }
  pose proof (upto_fadt_len sdt T cfg dsdt Hmk) as L1. pose proof (upto_madt_len sdt T cfg dsdt Hmk Hc0) as L2. pose proof (upto_hpet_len sdt T cfg dsdt Hmk Hc0) as L3.
  pose proof (upto_spcr_len sdt T cfg dsdt Hmk Hc0) as L4. pose proof (upto_tpm2_len sdt T cfg dsdt Hmk Hc0 tpm2) as L5. pose proof (upto_rsdt_len sdt T cfg dsdt Hmk Hc0 tpm2) as L6.
  pose proof (upto_dsdt_len dsdt) as L0.
  unfold generate_acpi_tables_inner. rewrite build_facs_eq, (build_dsdt_eq hp cfg body Hbody). fold dsdt. cbv beta iota zeta. fold z.
  destruct (Hg z 0 Hz ltac:(lia)) as [-> ->]. destruct (Hg (z ++ facs) 64) as [-> ->]; [done|lia|]. rewrite Z.add_0_l.
  rewrite build_fadt_eq, (build_madt_eq cfg Hc), build_hpet_eq, build_spcr_eq. rewrite <- !(app_assoc z).
  fold (upto_fadt sdt T cfg dsdt). fold (upto_madt sdt T cfg dsdt). fold (upto_hpet sdt T cfg dsdt). fold (upto_spcr sdt T cfg dsdt).
  destruct (Hg (z ++ facs ++ dsdt) (off_fadt (len dsdt))) as [-> U0]; [by rewrite len_app, L0|lia|].
  destruct (Hg (z ++ upto_fadt sdt T cfg dsdt) (off_madt (len dsdt))) as [-> U1]; [by rewrite len_app, L1|lia|].
  destruct (Hg (z ++ upto_madt sdt T cfg dsdt) (off_hpet cfg (len dsdt))) as [-> U2]; [by rewrite len_app, L2|lia|].
  destruct (Hg (z ++ upto_hpet sdt T cfg dsdt) (off_spcr cfg (len dsdt))) as [-> U3]; [by rewrite len_app, L3|lia|].
  destruct (Hg (z ++ upto_spcr sdt T cfg dsdt) (off_tpm2 cfg (len dsdt))) as [-> U4]; [by rewrite len_app, L4|lia|].
  set (es := (fun v => v + T) <$> listed cfg (len dsdt) (len <$> tpm2)).
  assert (Hpair : match tpm2 with Some bytes => ((z ++ upto_spcr sdt T cfg dsdt) ++ bytes, [off_tpm2 cfg (len dsdt) + T]) | None => (z ++ upto_spcr sdt T cfg dsdt, []) end =
    (z ++ (upto_spcr sdt T cfg dsdt ++ default [] tpm2), if tpm2 then [off_tpm2 cfg (len dsdt) + T] else [])).
  { destruct tpm2; cbn [default from_option]; [by rewrite app_assoc|by rewrite app_nil_r]. }
  rewrite Hpair.
  match goal with |- context [build_rsdt (as_u 32 <$> ?e)] => assert (He : e = es) by (unfold es, listed; by destruct tpm2) end. rewrite !He.
  assert (as_u 32 <$> es = es) as ->.
  { unfold es, listed. destruct tpm2; cbn [app fmap list_fmap option_fmap option_map]; rewrite ?U0, ?U1, ?U2, ?U3, ?U4; done. }
  rewrite build_rsdt_eq, build_xsdt_eq. unfold es. rewrite <- (app_assoc z). fold (upto_rsdt sdt T cfg dsdt tpm2).
  destruct (Hg (z ++ (upto_spcr sdt T cfg dsdt ++ default [] tpm2)) (off_rsdt cfg (len dsdt) (len <$> tpm2))) as [-> ->]; [by rewrite len_app, L5|lia|].
  destruct (Hg (z ++ upto_rsdt sdt T cfg dsdt tpm2) (off_xsdt cfg (len dsdt) (len <$> tpm2))) as [-> _]; [by rewrite len_app, L6|lia|].
  rewrite build_rsdp_eq. fold (legacy_rsdp cfg dsdt tpm2). rewrite <- app_assoc.
  match goal with |- context [put 0 ?r (z ++ ?y)] => pose proof (put_at [] z y r 0 eq_refl eq_refl) as Hput end.
  cbn [app] in Hput. rewrite Hput. eexists. split; [done|]. cbn [data]. f_equal.
  unfold blob, upto_rsdt, upto_spcr, upto_hpet, upto_madt, upto_fadt. by rewrite <- !app_assoc.
Qed.
