(* ===== verification/AcpiDsdt.v ===== *)
(** * What the DSDT says

    The objects an AML reader finds in the byte code of
    [crates/vmm-devices/src/acpi/dsdt.rs], and the PCI interrupt routing
    among them against the pins of [intr_pins.rs]. The reader goes down to
    the host bridge by the lengths of the scopes and devices on its way, so
    what the hotplug sections hold need not be known. *)

From S2P Require Import Prelude IntrPins Aml Acpi.
From Stdlib Require Ascii String.
Import String.StringSyntax.
Import aml acpi.

Module dsdt.

(** ** The namespace *)

Definition nm (n : list Z) : NameRef := ([], [n]).
Definition hid_is (id : list Z) : obj := OName (nm (s2b "_HID")) (DVal (DWord (default 0 (eisa_id id)))).
Definition crs_is (l : list resource) : obj := OName (nm (s2b "_CRS")) (DBuffer l).

Definition isa_obj : obj :=
  ODevice (nm (s2b "ISA_")) [
    OName (nm (s2b "_ADR")) (DVal (DWord 0x00010000));
    ODevice (nm (s2b "COM1")) [hid_is (s2b "PNP0501"); OName (nm (s2b "_UID")) (DVal One); crs_is [RIo 0x3F8 0x3F8 1 8; RIrq (2 ^ 4)]];
    ODevice (nm (s2b "COM2")) [hid_is (s2b "PNP0501"); OName (nm (s2b "_UID")) (DVal (Byte 2)); crs_is [RIo 0x2F8 0x2F8 1 8; RIrq (2 ^ 3)]];
    ODevice (nm (s2b "KBD_")) [hid_is (s2b "PNP0303"); crs_is [RIo 0x60 0x60 1 1; RIo 0x64 0x64 1 1; RIrq (2 ^ 1)]];
    ODevice (nm (s2b "MOU_")) [hid_is (s2b "PNP0F13"); crs_is [RIo 0x60 0x60 1 1; RIo 0x64 0x64 1 1; RIrq (2 ^ 12)]];
    ODevice (nm (s2b "PIC_")) [hid_is (s2b "PNP0000"); crs_is [RIo 0x20 0x20 1 2; RIo 0xA0 0xA0 1 2; RIrq (2 ^ 2)]];
    ODevice (nm (s2b "TIMR")) [hid_is (s2b "PNP0100"); crs_is [RIo 0x40 0x40 1 4; RIrq (2 ^ 0)]];
    ODevice (nm (s2b "RTC0")) [hid_is (s2b "PNP0B00"); crs_is [RIo 0x70 0x70 1 2; RIrq (2 ^ 8)]]].

(** The routing table of a PCI root bus (ACPI 6.5 sec 6.2.13): device, any
    function; pin; no link device; the interrupt. *)
Definition prt_obj (routes : list (Z * Z * Z)) : aml.data :=
  DPackage ((fun '(slot, pin, gsi) => DPackage (DVal <$> [DWord (slot * 65536 + 0xFFFF); Byte pin; Zero; DWord gsi])) <$> routes).

Definition routes : list (Z * Z * Z) :=
  concat ((fun slot => (fun pin => (slot, pin, 16 + (4 + slot + pin) mod 8)) <$> [0; 1; 2; 3]) <$> seqZ 1 31).

Definition pci_children : list obj := [
    hid_is (s2b "PNP0A03");
    OName (nm (s2b "_ADR")) (DVal Zero);
    OMethod (nm (s2b "_BBN")) 0 [OReturnVal Zero];
    crs_is [RBusNumber 0 0xFF 0x100; RIo 0xCF8 0xCF8 1 8; RWordIo 0 0xCF7 0xCF8; RWordIo 0xD00 0xFFFF 0xF300;
            RDWordMemory 0xC0000000 0xFEBFFFFF 0x3EC00000];
    OName (nm (s2b "APRT")) (prt_obj routes);
    OMethod (nm (s2b "_PRT")) 0 [OReturnName (nm (s2b "APRT"))];
    ODevice (nm (s2b "HPET")) [hid_is (s2b "PNP0103"); OName (nm (s2b "_UID")) (DVal Zero); crs_is [RMemory32 0xFED00000 0x400]];
    isa_obj].

(** What comes before the devices. *)
Definition prologue : list obj := [
  OName (nm (s2b "_S5_")) (DPackage [DVal (Byte 5); DVal Zero]);
  OName (nm (s2b "PICM")) (DVal Zero);
  OMethod (nm (s2b "_PIC")) 1 [OStoreArg0 (nm (s2b "PICM"))]].

(** ** The builder writes it *)

Lemma emits_seq_cons b o1 k1 l o2 k2 : emits b o1 k1 -> emits (block l) o2 k2 -> emits (block (b :: l)) (o1 ++ o2) (k1 + k2).
Proof. apply emits_then. Qed.

Lemma resources_seq_cons b r1 l r2 : resources b r1 -> resources (block l) r2 -> resources (block (b :: l)) (r1 ++ r2).
Proof. apply resources_then. Qed.

Lemma resources_seq_nil : resources (block []) [].
Proof. split; [done|]. intros buf. simpl. by rewrite app_nil_r. Qed.

Lemma emits_hid id v : eisa_id id = Some v -> uint 32 v -> emits (hid id) [OName (nm (s2b "_HID")) (DVal (DWord v))] 10.
Proof.
  intros He Hv. destruct (emits_name_val (s2b "_HID") (DWord v) eq_refl Hv) as (bs & Hb & Hc & Hk). exists bs. split_and!; [|done|].
  - intros buf. unfold hid. rewrite He. apply Hb.
  - rewrite Hk. reflexivity.
Qed.

(** Devices already done. *)
Create HintDb emits.

(** Each kind of statement by its lemma; the side conditions compute. *)
Ltac uints := unfold uint; split; [vm_compute; discriminate|vm_compute; reflexivity].
Ltac emit_resources :=
  lazymatch goal with
  | |- resources (block (_ :: _)) _ => eapply resources_seq_cons; [emit_resources|emit_resources]
  | |- resources (block []) _ => apply resources_seq_nil
  | |- resources (io_resource _ _ _ _) _ => apply resources_io; uints
  | |- resources (irq_no_flags _) _ => apply resources_irq; split; [vm_compute; discriminate|vm_compute; reflexivity]
  | |- resources (memory32_fixed _ _) _ => apply resources_memory32; first [assumption|uints]
  | |- resources (word_bus_number _ _ _) _ => apply resources_bus; uints
  | |- resources (word_io _ _ _) _ => apply resources_word_io; uints
  | |- resources (dword_memory _ _ _) _ => apply resources_dword_memory; uints
  end.

Ltac emit :=
  lazymatch goal with
  | |- emits (block (_ :: _)) _ _ => eapply emits_seq_cons; [emit|emit]
  | |- emits (block []) _ _ => apply emits_nil
  | |- emits Some _ _ => apply emits_nil
  | |- emits (hid _) _ _ => eapply emits_hid; [vm_compute; reflexivity|uints]
  | |- emits (name_val _ ?v) _ _ => apply emits_name_val; [reflexivity|lazymatch v with Zero => exact I | One => exact I | Byte _ => uints | DWord _ => uints | VString _ => repeat (apply Forall_cons_2; [discriminate|]); apply Forall_nil_2 end]
  | |- emits (scope _ _) _ _ => eapply emits_scope; [reflexivity|emit|vm_compute; reflexivity]
  | |- emits (device _ _) _ _ => eapply emits_device; [reflexivity|emit|vm_compute; reflexivity]
  | |- emits (method _ _ _ _) _ _ => eapply emits_method; [reflexivity|emit|vm_compute; reflexivity]
  | |- emits (return_val Zero) _ _ => apply (emits_return_val Zero I)
  | |- emits (return_name _) _ _ => apply emits_return_name; [reflexivity|discriminate]
  | |- emits (store_arg0 _) _ _ => apply emits_store_arg0; reflexivity
  | |- emits (name_resource_template _ _) _ _ => eapply emits_name_resource; [reflexivity|emit_resources|vm_compute; reflexivity]
  | |- _ => solve [eauto with emits]
  end.

Lemma emits_is b os os' k k' : emits b os' k' -> os' = os -> k' = k -> emits b os k.
Proof. by intros ? -> ->. Qed.

(** The statement list, then its objects and size computed. *)
Ltac emits_objs := eapply emits_is; [emit|vm_compute; reflexivity|vm_compute; reflexivity].

Lemma isa_emits : emits isa_device [isa_obj] 349.
Proof. unfold isa_device. emits_objs. Qed.
#[local] Hint Resolve isa_emits : emits.

(** [value_ok] on an integer, computed. *)
Definition int_ok (v : AmlValue) : bool :=
  match v with
  | Zero | One => true
  | Byte v => (0 <=? v) && (v <? 2 ^ 8)
  | Word v => (0 <=? v) && (v <? 2 ^ 16)
  | DWord v => (0 <=? v) && (v <? 2 ^ 32)
  | QWord v => (0 <=? v) && (v <? 2 ^ 64)
  | VString _ => false
  end.

Lemma int_ok_value v : int_ok v = true -> value_ok v.
Proof. destruct v; cbn [int_ok value_ok]; unfold uint; intros; try done; lia. Qed.

(** A list of integers that fits a package, computed. *)
Definition row_ok (l : list AmlValue) : bool := forallb int_ok l && (List.length l <? 256)%nat && (values_len l <? 2 ^ 28 - 5).

Lemma row_ok_spec l : row_ok l = true -> Forall value_ok l /\ (List.length l < 256)%nat /\ values_len l < 2 ^ 28 - 5.
Proof.
  unfold row_ok. rewrite !andb_true_iff. intros [[H1 H2%Nat.ltb_lt] H3]. split_and!; [|done|lia].
  apply Forall_forall. intros v Hv. apply int_ok_value. rewrite List.forallb_forall in H1. apply H1. by apply list_elem_of_In.
Qed.

Lemma routes_emit : emits (name_nested_packages (s2b "APRT") prt_storage) [OName (nm (s2b "APRT")) (prt_obj routes)] 1993.
Proof.
  eapply emits_is; [apply (emits_name_nested (s2b "APRT") prt_storage)|vm_compute; reflexivity|vm_compute; reflexivity].
  - reflexivity.
  - apply Forall_forall. intros l Hl. apply row_ok_spec. assert (forallb row_ok prt_storage = true) as H by (vm_compute; reflexivity).
    rewrite List.forallb_forall in H. apply H. by apply list_elem_of_In.
  - apply Nat.ltb_lt. vm_compute. reflexivity.
  - vm_compute. reflexivity.
Qed.

#[local] Hint Resolve routes_emit : emits.

Lemma pci_body_emits : exists body, pci_host_bridge = device (s2b "PC00") body /\ emits body pci_children 2525.
Proof. unfold pci_host_bridge. eexists. split; [reflexivity|]. emits_objs. Qed.

Lemma s5_emits : emits (name_package (s2b "_S5_") [Byte 0x05; Zero]) [OName (nm (s2b "_S5_")) (DPackage [DVal (Byte 5); DVal Zero])] 11.
Proof.
  destruct (row_ok_spec [Byte 0x05; Zero] eq_refl) as (H1 & H2 & H3).
  eapply emits_is; [apply emits_name_package; [reflexivity|done..]|reflexivity|reflexivity].
Qed.
#[local] Hint Resolve s5_emits : emits.

(** The TPM window, if there is one, is two [u32]s. *)
Definition tpm_ok (t : option TpmDevice) : Prop := forall d, t = Some d -> uint 32 (crb_base d) /\ uint 32 (crb_len d).

Lemma prologue_emits :
  emits (block [name_package (s2b "_S5_") [Byte 0x05; Zero]; name_val (s2b "PICM") Zero;
    method (s2b "_PIC") 1 false (store_arg0 (s2b "PICM"))]) prologue 30.
Proof. emits_objs. Qed.

(** ** What is appended, known or not *)

Definition appends (b : Aml -> option Aml) (bs : list Z) : Prop := forall buf, b buf = Some (buf ++ bs).

(** The hotplug sections reach the buffer through [AmlSink] only, which
    appends; each is far smaller than the 256 MiB a package can hold. *)
Definition section_ok (b : Aml -> option Aml) : Prop := exists bs, appends b bs /\ len bs <= 2 ^ 20.
Definition sections_ok (hp : HotplugAml) (cfg : AcpiConfig) : Prop :=
  Forall (fun w => section_ok (w cfg))
    [pci_devices hp; cpu_devices hp; mem_devices hp; pci_gpe_body hp; cpu_gpe_body hp; mem_gpe_body hp].

Lemma appends_nil : appends Some [].
Proof. intros buf. by rewrite app_nil_r. Qed.

Lemma appends_cons b bs l bs' : appends b bs -> appends (block l) bs' -> appends (block (b :: l)) (bs ++ bs').
Proof. intros H1 H2 buf. cbn [block foldr]. unfold then_. rewrite H1. simpl. by rewrite H2, app_assoc. Qed.

Lemma appends_app l l' bs bs' : appends (block l) bs -> appends (block l') bs' -> appends (block (l ++ l')) (bs ++ bs').
Proof.
  intros H1 H2 buf. assert (Hb : forall b, block (l ++ l') b = let* b := block l b in block l' b).
  { clear. induction l as [|x l IH]; intros b; [done|]. cbn [app block foldr]. unfold then_. destruct (x b); simpl; [apply IH|done]. }
  rewrite Hb, H1. simpl. by rewrite H2, app_assoc.
Qed.

(** The head of a scope or a device, with its content. *)
Definition boxed (ops name inner : list Z) : list Z := ops ++ package (default [] (encode_name_string name) ++ inner).

Lemma appends_scope name b bs : name_ok name = true -> appends b bs -> appends (scope name b) (boxed [AML_SCOPE_OP] name bs).
Proof. intros Hn Hb buf. destruct (name_reads name Hn) as (nb & He & _). unfold scope, boxed. by rewrite Hb, He. Qed.

Lemma appends_device name b bs :
  name_ok name = true -> appends b bs -> appends (device name b) (boxed [AML_EXT_PREFIX; AML_DEVICE_OP] name bs).
Proof. intros Hn Hb buf. destruct (name_reads name Hn) as (nb & He & _). unfold device, boxed. by rewrite Hb, He. Qed.

Lemma emits_section b os k : emits b os k -> k <= 2 ^ 20 -> section_ok b.
Proof. intros (bs & Hb & _ & <-) Hk. by exists bs. Qed.

Lemma section_method name b : name_ok name = true -> section_ok b -> exists bs, appends (method name 0 false b) bs.
Proof.
  intros Hn (bs & Hb & _). destruct (name_reads name Hn) as (nb & He & _). eexists. intros buf. unfold method. rewrite Hb, He. done.
Qed.

Lemma gpe_appends hp cfg : sections_ok hp cfg -> exists bs, appends (emit_gpe_handlers hp cfg) bs.
Proof.
  unfold sections_ok. rewrite !Forall_cons. intros (_ & _ & _ & H1 & H2 & H3 & _).
  destruct (section_method (s2b "_E01") _ eq_refl H1) as [b1 A1]. destruct (section_method (s2b "_E02") _ eq_refl H2) as [b2 A2].
  destruct (section_method (s2b "_E03") _ eq_refl H3) as [b3 A3]. eexists. apply appends_scope; [reflexivity|].
  apply appends_cons; [exact A1|]. apply appends_cons; [exact A2|]. apply appends_cons; [exact A3|apply appends_nil].
Qed.

(** ** A reader that goes by lengths *)

Definition read_box (bs : list Z) : option (NameRef * list Z * list Z) :=
  let* '(content, rest) := read_package bs in
  let* '(n, body) := read_name content in Some (n, body, rest).

(** A scope or a device: its name, the bytes in it and those after it. *)
Definition read_head (bs : list Z) : option (NameRef * list Z * list Z) :=
  match bs with
  | c :: rest =>
      if c =? AML_SCOPE_OP then read_box rest
      else if c =? AML_EXT_PREFIX then
        match rest with
        | c2 :: rest => if c2 =? AML_DEVICE_OP then read_box rest else None
        | [] => None
        end
      else None
  | [] => None
  end.

(** The bytes in the scope or device of that name, among the objects that
    follow one another. *)
Fixpoint seek (fuel : nat) (n : NameRef) (bs : list Z) : option (list Z) :=
  match fuel with
  | O => None
  | S fuel =>
      match read_head bs with
      | Some (m, body, rest) => if bool_decide (m = n) then Some body else seek fuel n rest
      | None => let* '(_, rest) := read_obj (read_objs (List.length bs)) bs in seek fuel n rest
      end
  end.

Lemma read_box_package name inner rest :
  name_ok name = true -> name_len name + len inner < 2 ^ 28 - 4 ->
  read_box (package (default [] (encode_name_string name) ++ inner) ++ rest) = Some (name_ref name, inner, rest).
Proof.
  intros Hn Hl. destruct (name_reads name Hn) as (nb & He & Hr). unfold name_len in Hl. rewrite He in *. simpl.
  unfold read_box. rewrite package_reads by (rewrite len_app; lia). simpl. by rewrite Hr.
Qed.

Lemma seek_box f ops name inner rest :
  ops = [AML_SCOPE_OP] \/ ops = [AML_EXT_PREFIX; AML_DEVICE_OP] ->
  name_ok name = true -> name_len name + len inner < 2 ^ 28 - 4 -> seek (S f) (name_ref name) (boxed ops name inner ++ rest) = Some inner.
Proof.
  intros Ho Hn Hl. unfold boxed. rewrite <- app_assoc. cbn [seek].
  assert (Hh : read_head (ops ++ package (default [] (encode_name_string name) ++ inner) ++ rest) = Some (name_ref name, inner, rest))
    by (destruct Ho as [-> | ->]; by apply read_box_package).
  rewrite Hh. by rewrite bool_decide_true.
Qed.

Definition plain (o : obj) : bool := match o with OScope _ _ | ODevice _ _ => false | _ => true end.

Lemma plain_head rec bs o rest : read_obj rec bs = Some (o, rest) -> plain o = true -> read_head bs = None.
Proof.
  unfold read_obj, read_head. destruct bs as [|c bs]; [done|]. destruct (c =? AML_SCOPE_OP).
  { intros Hr Hp. repeat (apply bind_Some in Hr as ([? ?] & _ & Hr)). apply bind_Some in Hr as (? & _ & [= <- _]). done. }
  destruct (c =? AML_EXT_PREFIX); [|done]. destruct bs as [|c2 bs]; [done|]. destruct (c2 =? AML_DEVICE_OP); [|done].
  intros Hr Hp. repeat (apply bind_Some in Hr as ([? ?] & _ & Hr)). apply bind_Some in Hr as (? & _ & [= <- _]). done.
Qed.

Lemma seek_past f n bs os rest :
  chunks bs os -> forallb plain os = true -> seek (List.length os + f) n (bs ++ rest) = seek f n rest.
Proof.
  intros (bss & -> & Hf). induction Hf as [|b o bss os [_ Ho] Hf IH]; [done|]. simpl. rewrite andb_true_iff. intros [Hp Hps].
  rewrite <- app_assoc.
  assert (Hr : read_obj (read_objs (List.length (b ++ concat bss ++ rest))) (b ++ concat bss ++ rest) = Some (o, concat bss ++ rest)).
  { apply Ho. intros b' os' Hlt Hb'. apply Hb'. rewrite !length_app in *. lia. }
  rewrite (plain_head _ _ _ _ Hr Hp), Hr. simpl. by apply IH.
Qed.

(** ** The routing table *)

Definition name_data (n : NameRef) (os : list obj) : option aml.data :=
  head (omap (fun o => match o with OName m d => if bool_decide (m = n) then Some d else None | _ => None end) os).
Definition returned (n : NameRef) (os : list obj) : option NameRef :=
  head (omap (fun o => match o with OMethod m _ [OReturnName r] => if bool_decide (m = n) then Some r else None | _ => None end) os).

(** Evaluating [\_SB.PC00._PRT]: the name its method returns, looked up
    beside it. *)
Definition eval_prt (table : list Z) : option aml.data :=
  let* sb := seek (List.length table) ([0x5C], [s2b "_SB_"]) table in
  let* pci := seek (List.length sb) (nm (s2b "PC00")) sb in
  let* os := read_aml pci in
  let* r := returned (nm (s2b "_PRT")) os in
  name_data r os.

(** The interrupts listed for a device and a pin. *)
Definition gsi_entries (slot pin : Z) (prt : aml.data) : list Z :=
  match prt with
  | DPackage l =>
      omap (fun e => match e with
                     | DPackage [DVal (DWord a); DVal (Byte p); DVal Zero; DVal (DWord g)] =>
                         if (Z.shiftr a 16 =? slot) && (Z.land a 0xFFFF =? 0xFFFF) && (p =? pin) then Some g else None
                     | _ => None
                     end) l
  | _ => []
  end.

Lemma routes_unique slot pin : 1 <= slot < 32 -> 0 <= pin < 4 -> gsi_entries slot pin (prt_obj routes) = [16 + (4 + slot + pin) mod 8].
Proof.
  intros Hs Hp.
  assert (H : forallb (fun s => forallb (fun p => bool_decide (gsi_entries s p (prt_obj routes) = [16 + (4 + s + p) mod 8])) (seqZ 0 4)) (seqZ 1 31) = true)
    by (vm_compute; reflexivity).
  rewrite List.forallb_forall in H. specialize (H slot ltac:(apply list_elem_of_In, elem_of_seqZ; lia)).
  rewrite List.forallb_forall in H. specialize (H pin ltac:(apply list_elem_of_In, elem_of_seqZ; lia)). by apply bool_decide_eq_true in H.
Qed.

(** The rest of the [\_SB] scope. *)
Lemma rest_appends hp cfg : sections_ok hp cfg -> tpm_ok (tpm cfg) ->
  exists bs, appends (block [match tpm cfg with Some t => emit_tpm_device t | None => Some end;
    if hotplug cfg then block [emit_gpe_reservation; emit_devices hp cfg] else Some]) bs /\ len bs <= 2 ^ 23.
Proof.
  unfold sections_ok. rewrite !Forall_cons. intros ((b1 & A1 & L1) & (b2 & A2 & L2) & (b3 & A3 & L3) & _) Ht.
  assert (Htpm : section_ok (match tpm cfg with Some t => emit_tpm_device t | None => Some end)).
  { destruct (tpm cfg) as [t|]; [|by exists []; split; [apply appends_nil|]]. destruct (Ht t eq_refl) as [H1 H2].
    eapply emits_section; [unfold emit_tpm_device; emit|vm_compute; discriminate]. }
  assert (Hgpe : section_ok emit_gpe_reservation) by (eapply emits_section; [unfold emit_gpe_reservation; emit|vm_compute; discriminate]).
  destruct Htpm as (bt & At & Lt), Hgpe as (bg & Ag & Lg). destruct (hotplug cfg).
  - eexists. split.
    + apply appends_cons; [exact At|]. apply appends_cons; [|apply appends_nil]. apply appends_cons; [exact Ag|].
      apply appends_cons; [|apply appends_nil]. unfold emit_devices.
      apply appends_cons; [exact A1|]. apply appends_cons; [exact A2|]. apply appends_cons; [exact A3|apply appends_nil].
    + rewrite !app_nil_r, !len_app. lia.
  - eexists. split; [apply appends_cons; [exact At|]; apply appends_cons; [apply appends_nil|apply appends_nil]|].
    rewrite !app_nil_r. lia.
Qed.

Lemma seek_enough f n bs l : (f <= List.length bs)%nat -> seek f n bs = Some l -> seek (List.length bs) n bs = Some l.
Proof.
  assert (Hm : forall f f' bs, (f <= f')%nat -> seek f n bs = Some l -> seek f' n bs = Some l).
  { clear. induction f as [|f IH]; intros [|f'] bs Hf; try done; [lia|]. cbn [seek].
    destruct (read_head bs) as [[[m body] rest]|]; [case_bool_decide; [done|apply IH; lia]|].
    destruct (read_obj _ bs) as [[o rest]|]; simpl; [apply IH; lia|done]. }
  intros Hf. by apply Hm.
Qed.

(** [_PRT] is found whatever the sections hold. *)
Lemma dsdt_evaluates hp cfg : (hotplug cfg = true -> sections_ok hp cfg) -> tpm_ok (tpm cfg) ->
  exists body, dsdt_aml hp cfg [] = Some body /\ eval_prt body = Some (prt_obj routes).
Proof.
  intros Hh Ht. set (hp' := if hotplug cfg then hp else mkHotplugAml (fun _ => Some) (fun _ => Some) (fun _ => Some) (fun _ => Some) (fun _ => Some) (fun _ => Some)).
  assert (Hs : sections_ok hp' cfg).
  { unfold hp'. destruct (hotplug cfg); [by apply Hh|]. repeat constructor; exists []; (split; [apply appends_nil|done]). }
  replace (dsdt_aml hp cfg []) with (dsdt_aml hp' cfg []) by (unfold dsdt_aml, hp'; by destruct (hotplug cfg)). clearbody hp'. clear Hh.
  destruct prologue_emits as (pre & Apre & Cpre & Lpre). destruct pci_body_emits as (body & Hbody & bs & Abs & Cbs & Lbs).
  destruct (rest_appends hp' cfg Hs Ht) as (more & Amore & Lmore).
  assert (Hgpe : exists gpe, appends (if hotplug cfg then emit_gpe_handlers hp' cfg else Some) gpe).
  { destruct (hotplug cfg); [by apply gpe_appends|exists []; apply appends_nil]. }
  destruct Hgpe as (gpe & Agpe).
  set (pci := boxed [AML_EXT_PREFIX; AML_DEVICE_OP] (s2b "PC00") bs).
  set (sb := boxed [AML_SCOPE_OP] (s2b "\_SB") (pci ++ more)).
  assert (Lpci : len pci <= 2 ^ 20).
  { unfold pci, boxed. rewrite len_app, package_len, len_app, Lbs. vm_compute. discriminate. }
  exists (pre ++ sb ++ gpe). split.
  - change (dsdt_aml hp' cfg []) with (block ([name_package (s2b "_S5_") [Byte 0x05; Zero]; name_val (s2b "PICM") Zero;
      method (s2b "_PIC") 1 false (store_arg0 (s2b "PICM"))] ++ [scope (s2b "\_SB") (block ([pci_host_bridge] ++
      [match tpm cfg with Some t => emit_tpm_device t | None => Some end;
       if hotplug cfg then block [emit_gpe_reservation; emit_devices hp' cfg] else Some])); if hotplug cfg then emit_gpe_handlers hp' cfg else Some]) []).
    rewrite (appends_app _ _ pre (sb ++ gpe) Apre); [done|]. rewrite <- (app_nil_r gpe).
    apply appends_cons; [|apply appends_cons; [exact Agpe|apply appends_nil]]. apply appends_scope; [reflexivity|].
    apply appends_app; [|exact Amore]. rewrite <- (app_nil_r pci). apply appends_cons; [|apply appends_nil].
    rewrite Hbody. by apply appends_device.
  - unfold eval_prt.
    rewrite (seek_enough 4 ([0x5C], [s2b "_SB_"]) _ (pci ++ more)); [| |].
    + simpl option_bind. rewrite (seek_enough 1 (nm (s2b "PC00")) _ bs); [| |].
      * simpl option_bind. unfold read_aml. rewrite (chunks_objs bs _ Cbs) by done. vm_compute. reflexivity.
      * rewrite length_app. unfold pci, boxed. simpl. lia.
      * unfold pci. apply (seek_box 0 _ (s2b "PC00")); [by right|reflexivity|]. rewrite Lbs. vm_compute. reflexivity.
    + unfold len in Lpre. rewrite length_app. lia.
    + rewrite (seek_past 1 _ pre prologue) by done. unfold sb. apply (seek_box 0 _ (s2b "\_SB")); [by left|reflexivity|].
      rewrite len_app. change (name_len (s2b "\_SB")) with 5. lia.
Qed.

Lemma holder_counts p pins : intr_pins.set_asserted p true ∈ pins -> (0 < intr_pins.holders (intr_pins.p_line p) pins)%nat.
Proof.
  intros Hp. unfold intr_pins.holders.
  assert (Hx : intr_pins.set_asserted p true ∈ filter (intr_pins.holds (intr_pins.p_line p)) pins) by (by apply list_elem_of_filter).
  destruct (filter _ pins) as [|x l]; [by apply elem_of_nil in Hx|cbn; lia].
Qed.

(** C21: the routing table of the DSDT agrees with the interrupt pins, in
    every configuration, with hotplug or a TPM or without. An operating
    system that finds the host bridge in the byte code and evaluates [_PRT]
    gets exactly one interrupt for each device and pin of the root bus, and
    it is the line the chipset gives a pin of that device: on every chipset
    whose lines are exact, that input of the I/O APIC is high while the pin
    is asserted. Of the hotplug sections, which another crate writes, only
    that each appends at most a megabyte is used. *)
Theorem dsdt_routes hp cfg slot pin :
  (hotplug cfg = true -> sections_ok hp cfg) -> tpm_ok (tpm cfg) -> 1 <= slot < 32 -> 0 <= pin < 4 ->
  exists body prt gsi, dsdt_aml hp cfg [] = Some body /\ eval_prt body = Some prt /\ gsi_entries slot pin prt = [gsi] /\
    forall c, exists p, intr_pins.c_pins (intr_pins.pci_pin_handle slot pin c) = intr_pins.c_pins c ++ [p] /\
      forall c', intr_pins.lines_exact (R:=intr_pins.pci_router) c' -> intr_pins.set_asserted p true ∈ intr_pins.c_pins c' ->
        intr_pins.line_high (intr_pins.kern (intr_pins.c_bank c')) gsi = true.
Proof.
  intros Hh Ht Hs Hp. destruct (dsdt_evaluates hp cfg Hh Ht) as (body & Hb & Hr).
  exists body, (prt_obj routes), (16 + (4 + slot + pin) mod 8). split_and!; [done|done|by apply routes_unique|].
  intros c. eexists. split; [reflexivity|]. intros c' [Hl _] Hin%holder_counts. cbn [intr_pins.p_line] in Hin.
  pose proof (Z.mod_pos_bound (4 + slot + pin) 8 eq_refl) as Hm. unfold intr_pins.PCI_GSI_COUNT in Hin. set (l := Z.to_nat ((4 + slot + pin) mod 8)) in *.
  destruct (Hl l) as [_ Hk]; [change (l < 8)%nat; lia|]. change (intr_pins.r_base (Router:=intr_pins.pci_router)) with 16 in Hk.
  replace (16 + (4 + slot + pin) mod 8) with (16 + Z.of_nat l) by lia. rewrite Hk. by apply bool_decide_true.
Qed.

End dsdt.

Module dsdt_demo.
Import dsdt.

(** Hotplug sections of two bytes each, one a lone opcode. *)
Definition some_bytes (_ : AcpiConfig) (buf : Aml) : option Aml := Some (buf ++ [0x5B; 0x80]).
Definition demo_sections : HotplugAml := mkHotplugAml some_bytes some_bytes some_bytes some_bytes some_bytes some_bytes.
Definition demo_cfg : AcpiConfig := mkAcpiConfig 2 4 (Some (mkTpmDevice 0xFED40000 0x1000)) true.

Lemma dsdt_routes_witness : exists body prt gsi,
  dsdt_aml demo_sections demo_cfg [] = Some body /\ eval_prt body = Some prt /\ gsi_entries 10 1 prt = [gsi] /\
  forall c, exists p, intr_pins.c_pins (intr_pins.pci_pin_handle 10 1 c) = intr_pins.c_pins c ++ [p] /\
    forall c', intr_pins.lines_exact (R:=intr_pins.pci_router) c' -> intr_pins.set_asserted p true ∈ intr_pins.c_pins c' ->
      intr_pins.line_high (intr_pins.kern (intr_pins.c_bank c')) gsi = true.
Proof.
  apply (dsdt_routes demo_sections demo_cfg 10 1); [| |split; [discriminate|reflexivity]|split; [discriminate|reflexivity]].
  - intros _. repeat constructor; exists [0x5B; 0x80]; (split; [intros buf; reflexivity|vm_compute; discriminate]).
  - intros d [= <-]. split; split; first [discriminate|reflexivity].
Defined.

End dsdt_demo.
