(* ===== verification/FwCfg.v ===== *)
(** * The fw_cfg device

    [crates/vmm-devices/src/fwcfg.rs]: named items behind a selector port and
    a data port, and the directory of their names. The firmware's side of the
    interface ([fw_client], QEMU's [docs/specs/fw_cfg]) is a program of port
    accesses on the bus of [Bus.v]; the theorem is that it reads every file
    that was inserted, byte for byte. *)

From S2P Require Import Prelude ASpace Bus Aml.
From Stdlib Require Ascii String.
Import String.StringSyntax.
Import aspace common pio aml.

Module fwcfg.

Definition FWCFG_PORT_SEL : Z := 0x510.
Definition SEL_SIGNATURE : Z := 0x0000.
Definition SEL_ID : Z := 0x0001.
Definition SEL_FILE_DIR : Z := 0x0019.
Definition FIRST_FILE_SELECTOR : Z := 0x0020.
Definition MAX_NAME_LEN : Z := 56.

Record FwCfgFile : Type := mkFwCfgFile { name : list Z; selector : Z; size : Z }.

(** [BTreeMap<u16, Vec<u8>>] is only inserted into and looked up. *)
Record FwCfg : Type := mkFwCfg {
  items : gmap Z (list Z);
  cur_selector : Z;
  cur_offset : Z;
  next_file_selector : Z;
  file_dir : list FwCfgFile;
}.

Definition be_bytes (n : nat) (v : Z) : list Z := rev (le_bytes n v).

(** [str::cmp]: bytes, lexicographically. *)
Fixpoint name_le (a b : list Z) : bool :=
  match a, b with
  | [], _ => true
  | _ :: _, [] => false
  | x :: a, y :: b => if x =? y then name_le a b else x <? y
  end.

(** [sort_by] is stable: each entry goes in front of the later ones it is not
    above. *)
Fixpoint insert_by_name (e : FwCfgFile) (l : list FwCfgFile) : list FwCfgFile :=
  match l with
  | [] => [e]
  | f :: l' => if name_le (name e) (name f) then e :: l else f :: insert_by_name e l'
  end.

Definition sort_by_name (l : list FwCfgFile) : list FwCfgFile := foldr insert_by_name [] l.

Definition dir_entry (e : FwCfgFile) : list Z :=
  let copy_len := Z.min (len (name e)) (MAX_NAME_LEN - 1) in
  be_bytes 4 (size e) ++ be_bytes 2 (selector e) ++ be_bytes 2 0 ++
  take (Z.to_nat copy_len) (name e) ++ replicate (Z.to_nat (MAX_NAME_LEN - copy_len)) 0.

Definition rebuild_file_dir (s : FwCfg) : FwCfg :=
  let buf := be_bytes 4 (as_u 32 (Z.of_nat (List.length (file_dir s)))) ++ concat (dir_entry <$> sort_by_name (file_dir s)) in
  mkFwCfg (<[SEL_FILE_DIR := buf]> (items s)) (cur_selector s) (cur_offset s) (next_file_selector s) (file_dir s).

Definition new : FwCfg :=
  let items := <[SEL_ID := le_bytes 4 1]> (<[SEL_SIGNATURE := s2b "QEMU"]> ∅) in
  rebuild_file_dir (mkFwCfg items 0 0 FIRST_FILE_SELECTOR []).

Definition insert_named (n data : list Z) (s : FwCfg) : FwCfg :=
  let sel := next_file_selector s in
  rebuild_file_dir (mkFwCfg (<[sel := data]> (items s)) (cur_selector s) (cur_offset s) (wadd 16 sel 1)
    (file_dir s ++ [mkFwCfgFile n sel (as_u 32 (len data))])).

Definition insert_legacy (sel : Z) (data : list Z) (s : FwCfg) : FwCfg :=
  mkFwCfg (<[sel := data]> (items s)) (cur_selector s) (cur_offset s) (next_file_selector s) (file_dir s).

Definition read_data_byte (s : FwCfg) : FwCfg * Z :=
  let byte := match items s !! cur_selector s with
              | Some data => default 0 (data !! Z.to_nat (cur_offset s))
              | None => 0
              end in
  (mkFwCfg (items s) (cur_selector s) (saturating_add 64 (cur_offset s) 1) (next_file_selector s) (file_dir s), byte).

Definition select (sel : Z) (s : FwCfg) : FwCfg := mkFwCfg (items s) sel 0 (next_file_selector s) (file_dir s).

(** The handler of [attach], and its registration. *)
Definition handler : Handler FwCfg := mkHandler
  (fun offset ro s =>
     if offset =? 0 then (s, write_u16 ro (cur_selector s))
     else if offset =? 1 then let '(s, byte) := read_data_byte s in (s, write_u8 ro byte)
     else (s, ro))
  (fun offset wo s => if offset =? 0 then select (read_u16 wo) s else s).

Definition attach (bus : PioBus FwCfg) : option (PioBus FwCfg) :=
  let* r := pio_register bus FWCFG_PORT_SEL 2 handler in
  match r with Ok bus => Some bus | Err _ => None end.

End fwcfg.

Module fw_client.
Import fwcfg.

(** ** The firmware *)

Section client.
Context (bus : PioBus FwCfg).

Fixpoint read_bytes (n : nat) (s : FwCfg) : option (FwCfg * list Z) :=
  match n with
  | O => Some (s, [])
  | S n => let* '(s, b) := handle_in bus s 0x511 1 in let* '(s, bs) := read_bytes n s in Some (s, b :: bs)
  end.

Definition read_item (sel : Z) (n : nat) (s : FwCfg) : option (FwCfg * list Z) :=
  let* s := handle_out bus s 0x510 2 sel in read_bytes n s.

Definition be_val (bs : list Z) : Z := le_val (rev bs).

Fixpoint until_nul (bs : list Z) : list Z :=
  match bs with [] => [] | b :: bs => if b =? 0 then [] else b :: until_nul bs end.

(** The entries of the directory: size, selector and name. *)
Fixpoint find_entry (n : list Z) (count : nat) (bs : list Z) : option (Z * Z) :=
  match count with
  | O => None
  | S count =>
      if bool_decide (until_nul (take 56 (drop 8 bs)) = n) then Some (be_val (take 4 bs), be_val (take 2 (drop 4 bs)))
      else find_entry n count (drop 64 bs)
  end.

(** [QemuFwCfgFindFile] and the download: the count, the directory, the file. *)
Definition read_file (n : list Z) (s : FwCfg) : option (FwCfg * list Z) :=
  let* '(s, c) := read_item SEL_FILE_DIR 4 s in
  let count := Z.to_nat (be_val c) in
  let* '(s, dir) := read_item SEL_FILE_DIR (4 + count * 64) s in
  let* '(size, sel) := find_entry n count (drop 4 dir) in
  read_item sel (Z.to_nat size) s.

End client.

(** ** What is inserted is what is read *)

(** The bus with the device on it. *)
Definition on_bus (bus : PioBus FwCfg) : Prop :=
  pio_lookup bus 0x510 = Some (Some (0, handler)) /\ pio_lookup bus 0x511 = Some (Some (1, handler)).

Definition content (s : FwCfg) : list Z := default [] (items s !! cur_selector s).

Definition at_offset (o : Z) (s : FwCfg) : FwCfg := mkFwCfg (items s) (cur_selector s) o (next_file_selector s) (file_dir s).

(** *** Bytes through the data port *)

Section proofs.
Context (bus : PioBus FwCfg).
Hypothesis Hbus : on_bus bus.

Lemma select_port s sel : uint 16 sel -> handle_out bus s 0x510 2 sel = Some (select sel s).
Proof.
  intros Hs. unfold handle_out. cbn [Z.eqb Pos.eqb orb]. destruct Hbus as [H _].
  change (from_buf (take (Z.to_nat 2) (le_bytes 4 sel))) with (Some (mkWriteOp (le_bytes 2 sel ++ replicate 6 0) (as_u 8 2))).
  rewrite H. cbn [on_write handler Z.eqb]. do 2 f_equal. unfold read_u16. cbn [wo_buf].
  change (take 2 (le_bytes 2 sel ++ replicate 6 0)) with (le_bytes 2 sel). by apply le_val_le_bytes.
Qed.

Lemma data_port s : handle_in bus s 0x511 1 = Some ((read_data_byte s).1, (read_data_byte s).2 mod 256).
Proof.
  unfold handle_in. cbn [Z.eqb Pos.eqb orb]. destruct Hbus as [_ H]. change (read_new 1) with (Some (mkReadOp (replicate 8 0) 1)).
  rewrite H. cbn [on_read handler Z.eqb Pos.eqb]. destruct (read_data_byte s) as [s' b]. cbn [fst snd].
  change (buf_value 1 _) with (Some (b mod 256 + 256 * 0)). do 2 f_equal. lia.
Qed.

Lemma read_bytes_spec n s : is_bytes (content s) -> 0 <= cur_offset s -> cur_offset s + Z.of_nat n <= len (content s) -> len (content s) < 2 ^ 64 ->
  read_bytes bus n s = Some (at_offset (cur_offset s + Z.of_nat n) s, take n (drop (Z.to_nat (cur_offset s)) (content s))).
Proof.
  revert s. induction n as [|n IH]; intros s Hb Ho Hn Hl.
  { cbn. unfold at_offset. rewrite Z.add_0_r, take_0. by destruct s. }
  cbn [read_bytes]. rewrite data_port. unfold content, len in *.
  destruct (items s !! cur_selector s) as [d|] eqn:Ed; cbn [default from_option] in *; unfold id in *; [|simpl in Hn; lia].
  destruct (lookup_lt_is_Some_2 d (Z.to_nat (cur_offset s))) as [b Hd]; [lia|].
  assert (Hr : read_data_byte s = (at_offset (cur_offset s + 1) s, b)).
  { unfold read_data_byte, at_offset. rewrite Ed, Hd. cbn. unfold saturating_add. rewrite Z.min_l by lia. done. }
  rewrite Hr. cbn [fst snd]. rewrite IH; cbn [items cur_selector cur_offset at_offset]; rewrite ?Ed; cbn [default from_option]; unfold id; try lia; try done.
  assert (Hmod : b mod 256 = b) by (apply Z.mod_small; exact (proj1 (Forall_lookup _ _) Hb _ _ Hd)).
  rewrite Hmod, Z2Nat.inj_add by lia. change (Z.to_nat 1) with 1%nat. rewrite Nat.add_1_r.
  rewrite (drop_S d b _ Hd). cbn [take]. do 2 f_equal. unfold at_offset. cbn. f_equal. lia.
Qed.

Lemma read_item_spec sel n s d : uint 16 sel -> items s !! sel = Some d -> is_bytes d -> Z.of_nat n <= len d -> len d < 2 ^ 64 ->
  read_item bus sel n s = Some (at_offset (Z.of_nat n) (select sel s), take n d).
Proof.
  intros Hs Hi Hb Hn Hl. unfold read_item. rewrite select_port by done.
  rewrite read_bytes_spec; unfold content; cbn [items cur_selector cur_offset select]; rewrite ?Hi; cbn [default from_option]; unfold id; try done; lia.
Qed.
End proofs.

(** *** The directory *)

Lemma be_val_be_bytes n v : 0 <= v < 2 ^ (8 * Z.of_nat n) -> be_val (be_bytes n v) = v.
Proof. intros H. unfold be_val, be_bytes. rewrite rev_involutive. by apply le_val_le_bytes. Qed.

Lemma length_be_bytes n v : List.length (be_bytes n v) = n.
Proof. unfold be_bytes. rewrite length_rev. apply length_le_bytes. Qed.

Lemma until_nul_padded n k : Forall (fun b => b <> 0) n -> until_nul (n ++ replicate (S k) 0) = n.
Proof. induction 1 as [|b n Hb _ IH]; [done|]. cbn [app until_nul]. destruct (Z.eqb_spec b 0); [done|]. by rewrite IH. Qed.

(** A file the directory can hold. *)
Definition file_ok (f : FwCfgFile) : Prop :=
  len (name f) < MAX_NAME_LEN /\ Forall (fun b => b <> 0) (name f) /\ is_bytes (name f) /\ uint 16 (selector f) /\ uint 32 (size f).

Lemma dir_entry_spec f : file_ok f ->
  List.length (dir_entry f) = 64%nat /\ until_nul (take 56 (drop 8 (dir_entry f))) = name f /\
  be_val (take 4 (dir_entry f)) = size f /\ be_val (take 2 (drop 4 (dir_entry f))) = selector f /\ is_bytes (dir_entry f).
Proof.
  intros (Hn & Hz & Hb & Hsel & Hsz). unfold MAX_NAME_LEN, len in *. unfold dir_entry, MAX_NAME_LEN, len.
  replace (Z.min (Z.of_nat (List.length (name f))) (56 - 1)) with (Z.of_nat (List.length (name f))) by lia. rewrite Nat2Z.id, firstn_all.
  destruct (Z.to_nat (56 - Z.of_nat (List.length (name f)))) as [|k] eqn:Ek; [lia|].
  set (rest := name f ++ replicate (S k) 0). assert (Hr : List.length rest = 56%nat) by (unfold rest; rewrite length_app, length_replicate; lia).
  pose proof (length_be_bytes 4 (size f)) as H4. pose proof (length_be_bytes 2 (selector f)) as H2. pose proof (length_be_bytes 2 0) as H0.
  split_and!.
  - rewrite !length_app, H4, H2, H0, Hr. done.
  - replace (be_bytes 4 (size f) ++ be_bytes 2 (selector f) ++ be_bytes 2 0 ++ rest) with ((be_bytes 4 (size f) ++ be_bytes 2 (selector f) ++ be_bytes 2 0) ++ rest)
      by (by rewrite <- !app_assoc).
    rewrite drop_app_length' by (rewrite !length_app, H4, H2, H0; done). rewrite take_ge by lia. by apply until_nul_padded.
  - rewrite take_app_length' by done. by apply be_val_be_bytes.
  - rewrite drop_app_length', take_app_length' by done. by apply be_val_be_bytes.
  - assert (Hbe : forall n v, is_bytes (be_bytes n v)) by (intros; unfold be_bytes, is_bytes; apply Forall_rev, le_bytes_is_bytes).
    repeat (apply Forall_app; split; [apply Hbe|]). apply Forall_app. split; [done|]. apply Forall_replicate. unfold uint. lia.
Qed.

Lemma find_entry_spec n l f : Forall file_ok l -> NoDup (name <$> l) -> f ∈ l -> name f = n ->
  find_entry n (List.length l) (concat (dir_entry <$> l)) = Some (size f, selector f).
Proof.
  intros Hok Hnd Hin Hn. induction Hok as [|e l He Hok IH]; [by apply elem_of_nil in Hin|]. cbn [List.length find_entry fmap list_fmap concat].
  destruct (dir_entry_spec e He) as (Hl & Hname & Hsz & Hsel & _).
  rewrite drop_app_le, !take_app_le by (rewrite ?length_drop; lia). rewrite (drop_app_le _ _ 4) by lia. rewrite (take_app_le (drop 4 _)) by (rewrite length_drop; lia).
  rewrite Hname, Hsz, Hsel. rewrite drop_app_length' by done. cbn [fmap list_fmap] in Hnd. apply NoDup_cons in Hnd as [Hne Hnd].
  apply elem_of_cons in Hin as [->|Hin].
  - by rewrite bool_decide_eq_true_2.
  - rewrite bool_decide_eq_false_2; [by apply IH|]. intros E. apply Hne. rewrite E, <- Hn. by apply list_elem_of_fmap_2.
Qed.

Lemma insert_by_name_perm e l : insert_by_name e l ≡ₚ e :: l.
Proof. induction l as [|f l IH]; [done|]. cbn [insert_by_name]. destruct (name_le (name e) (name f)); [done|]. rewrite IH. apply Permutation_swap. Qed.

Lemma sort_by_name_perm l : sort_by_name l ≡ₚ l.
Proof. induction l as [|f l IH]; [done|]. unfold sort_by_name in *. cbn [foldr]. by rewrite insert_by_name_perm, IH. Qed.
(** *** The device over time *)

(** The monitor inserts items, the guest selects and reads. *)
Inductive op : Type :=
| Named (n d : list Z)
| Legacy (sel : Z) (d : list Z)
| Sel (sel : Z)
| Next.

Definition step (bus : PioBus FwCfg) (o : op) (s : FwCfg) : option FwCfg :=
  match o with
  | Named n d => Some (insert_named n d s)
  | Legacy sel d => Some (insert_legacy sel d s)
  | Sel sel => handle_out bus s 0x510 2 sel
  | Next => let* '(s, _) := handle_in bus s 0x511 1 in Some s
  end.

Fixpoint steps (bus : PioBus FwCfg) (l : list op) (s : FwCfg) : option FwCfg :=
  match l with [] => Some s | o :: l => let* s := step bus o s in steps bus l s end.

(** The files named so far. *)
Definition files (l : list op) : list (list Z * list Z) := omap (fun o => match o with Named n d => Some (n, d) | _ => None end) l.

(** A name fits its field and has no NUL, data fits 32 bits, a legacy
    selector is below the files' and not the directory's. *)
Definition op_ok (o : op) : Prop :=
  match o with
  | Named n d => len n < MAX_NAME_LEN /\ Forall (fun b => b <> 0) n /\ is_bytes n /\ len d < 2 ^ 32
  | Legacy sel _ => 0 <= sel < FIRST_FILE_SELECTOR /\ sel <> SEL_FILE_DIR
  | Sel sel => uint 16 sel
  | Next => True
  end.

Fixpoint dir_of (sel : Z) (fs : list (list Z * list Z)) : list FwCfgFile :=
  match fs with [] => [] | (n, d) :: fs => mkFwCfgFile n sel (len d) :: dir_of (sel + 1) fs end.

Definition dir_bytes (dir : list FwCfgFile) : list Z :=
  be_bytes 4 (as_u 32 (Z.of_nat (List.length dir))) ++ concat (dir_entry <$> sort_by_name dir).

Record serves (fs : list (list Z * list Z)) (s : FwCfg) : Prop := {
  serves_dir : file_dir s = dir_of FIRST_FILE_SELECTOR fs;
  serves_next : next_file_selector s = FIRST_FILE_SELECTOR + Z.of_nat (List.length fs);
  serves_items : forall i n d, fs !! i = Some (n, d) -> items s !! (FIRST_FILE_SELECTOR + Z.of_nat i) = Some d;
  serves_list : items s !! SEL_FILE_DIR = Some (dir_bytes (file_dir s));
}.

Lemma dir_of_snoc sel fs n d : dir_of sel (fs ++ [(n, d)]) = dir_of sel fs ++ [mkFwCfgFile n (sel + Z.of_nat (List.length fs)) (len d)].
Proof.
  revert sel. induction fs as [|[m e] fs IH]; intros sel; cbn [app dir_of List.length]; [by rewrite Z.add_0_r|]. rewrite IH. do 3 f_equal. f_equal. lia.
Qed.

Lemma serves_new : serves [] new.
Proof. split; try done. Qed.

Lemma serves_named fs s n d : serves fs s -> op_ok (Named n d) -> Z.of_nat (List.length fs) < 0xFFDF -> serves (fs ++ [(n, d)]) (insert_named n d s).
Proof.
  intros [Hd Hn Hi Hl] (_ & _ & _ & Hlen) Hc. unfold FIRST_FILE_SELECTOR, SEL_FILE_DIR in *. pose proof (len_nonneg d).
  unfold insert_named, rebuild_file_dir. split; cbn [file_dir next_file_selector items].
  - rewrite Hd, Hn, dir_of_snoc, as_u_small by (unfold uint; lia). done.
  - rewrite Hn, length_app. cbn [List.length]. unfold FIRST_FILE_SELECTOR, wadd. rewrite Z.mod_small by lia. lia.
  - unfold SEL_FILE_DIR, FIRST_FILE_SELECTOR. intros i m e Hie. rewrite lookup_insert_ne by lia. rewrite Hn.
    apply lookup_app_Some in Hie as [Hie|[Hge Hie]].
    + rewrite lookup_insert_ne by (apply lookup_lt_Some in Hie; lia). by apply (Hi i m).
    + apply list_lookup_singleton_Some in Hie as [Hi0 [= <- <-]]. replace (Z.of_nat i) with (Z.of_nat (List.length fs)) by lia. by rewrite lookup_insert_eq.
  - by rewrite lookup_insert_eq.
Qed.

Lemma serves_legacy fs s sel d : serves fs s -> op_ok (Legacy sel d) -> serves fs (insert_legacy sel d s).
Proof.
  intros [Hd Hn Hi Hl] [Hs Hne]. unfold FIRST_FILE_SELECTOR in *. split; cbn [file_dir next_file_selector items insert_legacy]; try done.
  - intros i n e Hie. unfold FIRST_FILE_SELECTOR. rewrite lookup_insert_ne by lia. by apply (Hi i n).
  - by rewrite lookup_insert_ne.
Qed.

(** The guest's accesses move the cursor and nothing else. *)
Definition same_store (s s' : FwCfg) : Prop := items s' = items s /\ next_file_selector s' = next_file_selector s /\ file_dir s' = file_dir s.

Lemma serves_same fs s s' : same_store s s' -> serves fs s -> serves fs s'.
Proof. intros (E1 & E2 & E3) [H1 H2 H3 H4]. split; rewrite ?E1, ?E2, ?E3; done. Qed.

Section over_time.
Context (bus : PioBus FwCfg).
Hypothesis Hbus : on_bus bus.

Lemma step_serves o fs s : serves fs s -> op_ok o -> Z.of_nat (List.length fs) < 0xFFDF ->
  exists s', step bus o s = Some s' /\ serves (fs ++ files [o]) s'.
Proof.
  intros Hs Ho Hc. destruct o as [n d|sel d|sel|]; cbn [files omap list_omap]; rewrite ?app_nil_r.
  - eexists. split; [done|]. by apply serves_named.
  - eexists. split; [done|]. by apply serves_legacy.
  - exists (select sel s). split; [by apply select_port|]. by apply (serves_same fs s).
  - exists (read_data_byte s).1. split; [cbn [step]; by rewrite (data_port bus Hbus)|]. by apply (serves_same fs s).
Qed.

Lemma steps_serve l fs s : serves fs s -> Forall op_ok l -> Z.of_nat (List.length (fs ++ files l)) < 0xFFDF ->
  exists s', steps bus l s = Some s' /\ serves (fs ++ files l) s'.
Proof.
  revert fs s. induction l as [|o l IH]; intros fs s Hs Ho Hc; [exists s; by rewrite app_nil_r|].
  inversion_clear Ho as [|? ? Ho1 Hol]. assert (Hf : files (o :: l) = files [o] ++ files l) by (unfold files; by destruct o).
  rewrite Hf in Hc |- *. rewrite app_assoc in Hc |- *.
  destruct (step_serves o fs s Hs Ho1) as (s1 & E1 & H1); [rewrite !length_app in Hc; lia|]. cbn [steps]. rewrite E1. by apply IH.
Qed.

Lemma dir_of_lookup sel fs f : f ∈ dir_of sel fs -> exists i n d, fs !! i = Some (n, d) /\ f = mkFwCfgFile n (sel + Z.of_nat i) (len d).
Proof.
  revert sel. induction fs as [|[n d] fs IH]; intros sel Hf; [by apply elem_of_nil in Hf|]. cbn [dir_of] in Hf. apply elem_of_cons in Hf as [->|Hf].
  - exists 0%nat, n, d. split; [done|]. by rewrite Z.add_0_r.
  - destruct (IH _ Hf) as (i & m & e & Hi & ->). exists (S i), m, e. split; [done|]. f_equal. lia.
Qed.

Lemma dir_of_elem sel fs i n d : fs !! i = Some (n, d) -> mkFwCfgFile n (sel + Z.of_nat i) (len d) ∈ dir_of sel fs.
Proof.
  revert sel i. induction fs as [|[m e] fs IH]; intros sel [|i] Hi; try done; cbn [dir_of].
  - injection Hi as -> ->. rewrite Z.add_0_r. apply elem_of_cons. by left.
  - apply elem_of_cons. right. replace (sel + Z.of_nat (S i)) with (sel + 1 + Z.of_nat i) by lia. by apply IH.
Qed.

Lemma dir_of_names sel fs : name <$> dir_of sel fs = fs.*1.
Proof. revert sel. induction fs as [|[n d] fs IH]; intros sel; [done|]. cbn [dir_of fmap list_fmap]. by rewrite IH. Qed.

Lemma length_dir_of sel fs : List.length (dir_of sel fs) = List.length fs.
Proof. rewrite <- (length_fmap name), dir_of_names. apply length_fmap. Qed.

Definition file_bytes_ok (f : list Z * list Z) : Prop := op_ok (Named f.1 f.2).

Lemma dir_entries_ok fs : Forall file_bytes_ok fs -> Z.of_nat (List.length fs) < 0xFFDF -> Forall file_ok (sort_by_name (dir_of FIRST_FILE_SELECTOR fs)).
Proof.
  intros Hf Hc. rewrite sort_by_name_perm. apply Forall_forall. intros f (i & n & d & Hi & ->)%dir_of_lookup.
  pose proof (proj1 (Forall_lookup _ _) Hf _ _ Hi) as (H1 & H2 & H3 & H4). pose proof (lookup_lt_Some _ _ _ Hi).
  unfold file_ok, FIRST_FILE_SELECTOR, uint. cbn [name selector size] in *. pose proof (len_nonneg d). split_and!; try done; lia.
Qed.

Lemma dir_bytes_len l : Forall file_ok l -> List.length (concat (dir_entry <$> l)) = (List.length l * 64)%nat /\ is_bytes (concat (dir_entry <$> l)).
Proof.
  induction 1 as [|f l Hf _ [IH1 IH2]]; [split; [done|constructor]|]. destruct (dir_entry_spec f Hf) as (H64 & _ & _ & _ & Hb). cbn [fmap list_fmap concat List.length].
  split; [rewrite length_app; lia|]. by apply Forall_app.
Qed.

(** The client finds each file. *)
Lemma read_file_spec fs s n d : serves fs s -> Forall file_bytes_ok fs -> Z.of_nat (List.length fs) < 0xFFDF -> NoDup fs.*1 -> (n, d) ∈ fs -> is_bytes d ->
  exists s', read_file bus n s = Some (s', d) /\ serves fs s'.
Proof.
  intros Hs Hf Hc Hnd Hin Hd. pose proof (dir_entries_ok fs Hf Hc) as Hok. set (dir := dir_of FIRST_FILE_SELECTOR fs) in *.
  assert (Hls : List.length (sort_by_name dir) = List.length fs) by (unfold dir; by rewrite sort_by_name_perm, length_dir_of).
  destruct (dir_bytes_len _ Hok) as [Hl Hb]. rewrite Hls in Hl.
  set (body := concat (dir_entry <$> sort_by_name dir)) in *. set (count := be_bytes 4 (Z.of_nat (List.length fs))).
  assert (Hit : items s !! SEL_FILE_DIR = Some (count ++ body)).
  { rewrite (serves_list _ _ Hs), (serves_dir _ _ Hs). unfold dir_bytes. rewrite length_dir_of, as_u_small by (unfold uint; lia). done. }
  assert (Hcl : List.length count = 4%nat) by apply length_be_bytes.
  assert (Hdb : is_bytes (count ++ body)) by (apply Forall_app; split; [unfold count, be_bytes; apply Forall_rev, le_bytes_is_bytes|done]).
  unfold read_file. unfold len in *.
  rewrite (read_item_spec bus Hbus SEL_FILE_DIR 4 s (count ++ body)); [|unfold uint, SEL_FILE_DIR; lia|done|done|unfold len; rewrite length_app; lia|unfold len; rewrite length_app; lia].
  rewrite take_app_length' by done.
  assert (Z.to_nat (be_val count) = List.length fs) as -> by (unfold count; rewrite be_val_be_bytes, Nat2Z.id by (cbn; lia); done).
  rewrite (read_item_spec bus Hbus SEL_FILE_DIR _ _ (count ++ body)); [|unfold uint, SEL_FILE_DIR; lia|done|done|unfold len; rewrite length_app; lia|unfold len; rewrite length_app; lia].
  rewrite take_ge by (rewrite length_app; lia). rewrite drop_app_length' by done.
  apply list_elem_of_lookup in Hin as [i Hi]. pose proof (lookup_lt_Some _ _ _ Hi) as Hil.
  pose proof (proj1 (Forall_lookup _ _) Hf _ _ Hi) as (_ & _ & _ & Hdl). cbn [fst snd] in Hdl.
  pose proof (dir_of_elem FIRST_FILE_SELECTOR fs i n d Hi) as He. set (f := mkFwCfgFile n (FIRST_FILE_SELECTOR + Z.of_nat i) (len d)) in He.
  assert (Hfe : find_entry n (List.length fs) body = Some (size f, selector f)).
  { rewrite <- Hls. apply find_entry_spec; [done|by rewrite sort_by_name_perm; unfold dir; rewrite dir_of_names|by rewrite sort_by_name_perm|done]. }
  rewrite Hfe. clear Hfe.
  cbn [selector size f]. pose proof (len_nonneg d).
  rewrite (read_item_spec bus Hbus (FIRST_FILE_SELECTOR + Z.of_nat i) _ _ d).
  - unfold len. rewrite Nat2Z.id, firstn_all. eexists. split; [done|]. by apply (serves_same fs s).
  - unfold uint, FIRST_FILE_SELECTOR. lia.
  - cbn [items at_offset select]. by apply (serves_items _ _ Hs i n).
  - done.
  - unfold len. lia.
  - unfold len in *. lia.
Qed.

End over_time.
(** *** The device on its bus *)

(** A bus with only this device attached. *)
Definition attached : option (PioBus FwCfg) := let* bus := pio_new in attach bus.

Definition the_bus : PioBus FwCfg := mkASpace 0 65535 [(FWCFG_PORT_SEL, (2, handler))].

Lemma attached_the_bus : attached = Some the_bus.
Proof. reflexivity. Qed.

Lemma attached_on_bus bus : attached = Some bus -> on_bus bus.
Proof. rewrite attached_the_bus. intros [= <-]. split; reflexivity. Qed.

Lemma files_ok l : Forall op_ok l -> Forall file_bytes_ok (files l).
Proof. induction 1 as [|o l Ho _ IH]; [constructor|]. unfold files in *. destruct o; cbn [omap list_omap]; [by constructor|done..]. Qed.

(** C22: the firmware reads back every file of fw_cfg. Whatever the monitor
    inserted, named and legacy, interleaved with whatever the guest selected
    and read, the client that downloads the directory through the data port
    and looks the name up finds the file and reads exactly its bytes. *)
Theorem fwcfg_serves bus l n d :
  attached = Some bus -> Forall op_ok l -> Z.of_nat (List.length (files l)) < 0xFFDF -> NoDup (files l).*1 -> (n, d) ∈ files l -> is_bytes d ->
  exists s s', steps bus l new = Some s /\ read_file bus n s = Some (s', d).
Proof.
  intros Hb%attached_on_bus Ho Hc Hnd Hin Hd. destruct (steps_serve bus Hb l [] new serves_new Ho Hc) as (s & Es & Hs).
  destruct (read_file_spec bus Hb _ s n d Hs (files_ok l Ho) Hc Hnd Hin Hd) as (s' & Er & _). by exists s, s'.
Qed.

End fw_client.

Module fw_demo.
Import fwcfg fw_client.

Definition demo_ops : list op :=
  [Legacy 5 [2; 0]; Named (s2b "etc/e820") [1; 2; 3]; Sel 0x19; Next; Named (s2b "bootorder") (s2b "/pci@i0cf8/disk@4"); Next].

Lemma demo_ops_ok : Forall op_ok demo_ops.
Proof.
  assert (Hb : forall l, forallb (fun b => (0 <? b) && (b <? 256)) l = true -> Forall (fun b => b <> 0) l /\ is_bytes l).
  { intros l H. rewrite List.forallb_forall in H. split; apply Forall_forall; intros x Hx%list_elem_of_In; specialize (H x Hx); unfold uint; lia. }
  repeat (apply Forall_cons_2); [done..| |done|done| |done|apply Forall_nil_2].
  - destruct (Hb (s2b "etc/e820") eq_refl), (Hb [1; 2; 3] eq_refl). done.
  - destruct (Hb (s2b "bootorder") eq_refl), (Hb (s2b "/pci@i0cf8/disk@4") eq_refl). done.
Qed.

Lemma fwcfg_serves_witness : exists bus, attached = Some bus /\ Forall op_ok demo_ops /\
  exists s s', steps bus demo_ops new = Some s /\ read_file bus (s2b "bootorder") s = Some (s', s2b "/pci@i0cf8/disk@4").
Proof.
  exists the_bus. split; [exact attached_the_bus|]. split; [exact demo_ops_ok|].
  apply (fwcfg_serves the_bus demo_ops); [exact attached_the_bus|exact demo_ops_ok|vm_compute; reflexivity|apply (bool_decide_unpack _); exact I|apply (bool_decide_unpack _); exact I|].
  by apply bytesb_spec.
Defined.

End fw_demo.
