(* ===== verification/Smbios.v ===== *)
(** * SMBIOS tables

    [crates/vmm-devices/src/smbios.rs]: the structure table and the entry
    point, and how [crates/vmm-machine/src/firmware.rs] places them
    ([write_smbios_tables]). A [str] is the list of its scalar values; [None]
    is a panic. The guest's reader ([smbios_os]) follows the SMBIOS 2.8
    reference specification. *)

From S2P Require Import Prelude Aml Acpi AcpiThm.
From Stdlib Require Ascii String.
Import String.StringSyntax.
Import aml acpi.

Module smbios.

(** ** Strings *)

(** UTF-8. *)
Definition utf8_char (c : Z) : list Z :=
  if c <? 0x80 then [c]
  else if c <? 0x800 then [0xC0 + c / 64; 0x80 + c mod 64]
  else if c <? 0x10000 then [0xE0 + c / 4096; 0x80 + c / 64 mod 64; 0x80 + c mod 64]
  else [0xF0 + c / 262144; 0x80 + c / 4096 mod 64; 0x80 + c / 64 mod 64; 0x80 + c mod 64].

Definition as_bytes (s : list Z) : list Z := concat (utf8_char <$> s).

(** The White_Space characters [str::trim] strips. *)
Definition is_whitespace (c : Z) : bool :=
  ((9 <=? c) && (c <=? 13)) || (c =? 0x20) || (c =? 0x85) || (c =? 0xA0) || (c =? 0x1680) || ((0x2000 <=? c) && (c <=? 0x200A)) ||
  (c =? 0x2028) || (c =? 0x2029) || (c =? 0x202F) || (c =? 0x205F) || (c =? 0x3000).

Fixpoint trim_start (s : list Z) : list Z := match s with [] => [] | c :: r => if is_whitespace c then trim_start r else s end.
Definition trim (s : list Z) : list Z := rev (trim_start (rev (trim_start s))).

(** [split_once], for [splitn(2, c)] and [find(c)]. *)
Fixpoint split_once (c : Z) (s : list Z) : option (list Z * list Z) :=
  match s with
  | [] => None
  | x :: r => if x =? c then Some ([], r) else let* '(a, b) := split_once c r in Some (x :: a, b)
  end.

(** [split(c)]: never empty. *)
Fixpoint split (c : Z) (s : list Z) : list (list Z) :=
  match s with
  | [] => [[]]
  | x :: r => if x =? c then [] :: split c r else match split c r with seg :: segs => (x :: seg) :: segs | [] => [[x]] end
  end.

(** ** Configuration *)

Record SmbiosConfig : Type := mkSmbiosConfig {
  vm_name : list Z;
  uuid : option (list Z);
  num_cpus : Z;
  memory_mb : Z;
  manufacturer : option (list Z);
  product : option (list Z);
  version : option (list Z);
  serial : option (list Z);
  sku : option (list Z);
  family : option (list Z);
}.

Inductive SmbiosError : Type :=
| EmptyValue (key : list Z)
| NoMemory
| TableTooLarge (len max : Z).

Definition set_manufacturer v c := mkSmbiosConfig (vm_name c) (uuid c) (num_cpus c) (memory_mb c) (Some v) (product c) (version c) (serial c) (sku c) (family c).
Definition set_product v c := mkSmbiosConfig (vm_name c) (uuid c) (num_cpus c) (memory_mb c) (manufacturer c) (Some v) (version c) (serial c) (sku c) (family c).
Definition set_version v c := mkSmbiosConfig (vm_name c) (uuid c) (num_cpus c) (memory_mb c) (manufacturer c) (product c) (Some v) (serial c) (sku c) (family c).
Definition set_serial v c := mkSmbiosConfig (vm_name c) (uuid c) (num_cpus c) (memory_mb c) (manufacturer c) (product c) (version c) (Some v) (sku c) (family c).
Definition set_sku v c := mkSmbiosConfig (vm_name c) (uuid c) (num_cpus c) (memory_mb c) (manufacturer c) (product c) (version c) (serial c) (Some v) (family c).
Definition set_family v c := mkSmbiosConfig (vm_name c) (uuid c) (num_cpus c) (memory_mb c) (manufacturer c) (product c) (version c) (serial c) (sku c) (Some v).

(** The field a key names. *)
Definition key_field (key : list Z) : option (list Z -> SmbiosConfig -> SmbiosConfig) :=
  if bool_decide (key = s2b "manufacturer") then Some set_manufacturer
  else if bool_decide (key = s2b "product") then Some set_product
  else if bool_decide (key = s2b "version") then Some set_version
  else if bool_decide (key = s2b "serial") then Some set_serial
  else if bool_decide (key = s2b "sku") then Some set_sku
  else if bool_decide (key = s2b "family") then Some set_family
  else None.

(** The [for] over the pairs. *)
Fixpoint parse_pairs (kvs : list (list Z)) (c : SmbiosConfig) : result SmbiosError SmbiosConfig :=
  match kvs with
  | [] => Ok c
  | kv :: kvs =>
      match split_once 0x3D kv with
      | None => parse_pairs kvs c
      | Some (key, val) =>
          match key_field key with
          | None => parse_pairs kvs c
          | Some set => match val with [] => Err (EmptyValue key) | _ => parse_pairs kvs (set val c) end
          end
      end
  end.

Definition parse_smbios_flag (s : list Z) : result SmbiosError SmbiosConfig :=
  let config := mkSmbiosConfig [] None 1 256 None None None None None None in
  let '(first, rest) := match split_once 0x2C s with Some (a, b) => (a, Some b) | None => (s, None) end in
  if bool_decide (trim first <> s2b "1") then Ok config
  else match rest with None => Ok config | Some kvs => parse_pairs (split 0x2C kvs) config end.

(** ** Structures *)

Definition start_struct (stype formatted_len handle : Z) : list Z := [stype; as_u 8 (4 + formatted_len)] ++ le_bytes 2 handle.

Definition finalize_struct (buf : list Z) (strings : list (list Z)) : list Z :=
  match strings with
  | [] => buf ++ [0; 0]
  | _ => buf ++ concat ((fun s => as_bytes s ++ [0]) <$> strings) ++ [0]
  end.

Definition build_type0 (h : Z) : list Z :=
  let cflags := Z.lor (Z.lor (Z.lor (Z.lor 0x10 0x80) 0x1000) 0x8000) 0x80000 in
  finalize_struct
    (start_struct 0 20 h ++ [1; 2] ++ le_bytes 2 0xF000 ++ [3; 0x00] ++ le_bytes 8 cflags ++ [0x01; Z.lor 0x01 0x10] ++ [0; 0] ++ [0xFF; 0xFF])
    [s2b "BHYVE"; s2b "14.0"; s2b "03/31/2026"].

(** [u8::from_str_radix(_, 16)] on two bytes; a sign is accepted in front. *)
Definition radix16_u8 (a b : Z) : option Z :=
  if a =? 0x2B then hex_digit b else let* x := hex_digit a in let* y := hex_digit b in Some (x * 16 + y).

Definition char_boundary (bs : list Z) (i : nat) : bool :=
  match bs !! i with Some b => negb ((0x80 <=? b) && (b <? 0xC0)) | None => true end.

(** The [for] over the 16 byte pairs: panics off a character boundary;
    [Some None] is an [Err]. *)
Fixpoint uuid_bytes (bs : list Z) (i n : nat) : option (option (list Z)) :=
  match n with
  | O => Some (Some [])
  | S n =>
      if char_boundary bs (i * 2) && char_boundary bs (i * 2 + 2) then
        match bs !! (i * 2)%nat, bs !! (i * 2 + 1)%nat with
        | Some a, Some b =>
            match radix16_u8 a b with
            | Some v => let* r := uuid_bytes bs (S i) n in Some (match r with Some l => Some (v :: l) | None => None end)
            | None => Some None
            end
        | _, _ => None
        end
      else None
  end.

Definition parse_uuid (u : option (list Z)) : option (list Z) :=
  let zeroes := replicate 16 0 in
  match u with
  | None => Some zeroes
  | Some s =>
      let hex := as_bytes (List.filter (fun c => negb (c =? 0x2D)) s) in
      if negb (len hex =? 32) then Some zeroes
      else
        let* r := uuid_bytes hex 0 16 in
        match r with
        | Some [b0; b1; b2; b3; b4; b5; b6; b7; b8; b9; b10; b11; b12; b13; b14; b15] =>
            Some [b3; b2; b1; b0; b5; b4; b7; b6; b8; b9; b10; b11; b12; b13; b14; b15]
        | _ => Some zeroes
        end
  end.

(** The six strings of Type 1. *)
Definition type1_strings (c : SmbiosConfig) : list (list Z) :=
  [default (s2b "Joyent") (manufacturer c); default (s2b "SmartDC HVM") (product c); default (s2b "1.0") (version c);
   match serial c with Some s => s | None => default (s2b "None") (uuid c) end;
   default (s2b "None") (sku c); default (s2b "Virtual Machine") (family c)].

Definition build_type1 (c : SmbiosConfig) (h : Z) : option (list Z) :=
  let* u := parse_uuid (uuid c) in
  Some (finalize_struct (start_struct 1 21 h ++ [1; 2; 3; 4] ++ u ++ [0x06; 5; 6]) (type1_strings c)).

Definition build_type2 (chassis_handle h : Z) : list Z :=
  finalize_struct (start_struct 2 11 h ++ [1; 2; 3; 4; 5; 0x01; 6] ++ le_bytes 2 chassis_handle ++ [0x0A; 0])
    [s2b "SmartOS"; s2b "Virtual Machine"; s2b "1.0"; s2b "None"; s2b "None"; s2b "None"].

Definition build_type3 (h : Z) : list Z :=
  finalize_struct
    (start_struct 3 17 h ++ [1; 0x02; 2; 3; 4; 0x03; 0x03; 0x03; 0x03] ++ le_bytes 4 0 ++ [0; 0; 0; 0; 5])
    [s2b "SmartOS"; s2b "1.0"; s2b "None"; s2b "None"; s2b "None"].

(** [format!] of a [u32]: its decimal digits. *)
Fixpoint decimal (fuel : nat) (v : Z) (acc : list Z) : list Z :=
  match fuel with
  | O => acc
  | S fuel => let acc := 0x30 + v mod 10 :: acc in if v <? 10 then acc else decimal fuel (v / 10) acc
  end.

Definition type4_strings (cpu_idx : Z) : list (list Z) :=
  [s2b "CPU #" ++ decimal 10 cpu_idx []; s2b " "; s2b " "; s2b "None"; s2b "None"; s2b "None"].

Definition type4_fields : list Z :=
  [1; 0x03; 0x01; 2] ++ le_bytes 8 0 ++ [3; 0] ++ le_bytes 2 0 ++ le_bytes 2 0 ++ le_bytes 2 0 ++ [Z.lor 0x40 0x01; 0x06] ++
  le_bytes 2 0xFFFF ++ le_bytes 2 0xFFFF ++ le_bytes 2 0xFFFF ++ [4; 5; 6; 0; 0; 0] ++ le_bytes 2 0x04 ++ le_bytes 2 0x01.

Definition build_type4 (cpu_idx h : Z) : list Z := finalize_struct (start_struct 4 38 h ++ type4_fields) (type4_strings cpu_idx).

Definition build_type16 (c : SmbiosConfig) (h : Z) : option (list Z) :=
  let buf := finalize_struct (start_struct 16 11 h ++ [0x03; 0x03; 0x03] ++ le_bytes 4 0x80000000 ++ le_bytes 2 0xFFFE ++ le_bytes 2 1) [] in
  let max_kb := Z.min (memory_mb c * 1024) (2 ^ 64 - 1) in
  if max_kb <=? 0x7FFFFFFF then put (4 + 3) (le_bytes 4 (as_u 32 max_kb)) buf else Some buf.

Definition build_type17 (c : SmbiosConfig) (memarray_handle h : Z) : list Z :=
  let size := if memory_mb c <=? 0x7FFE then le_bytes 2 (as_u 16 (memory_mb c)) else le_bytes 2 0x7FFF in
  finalize_struct
    (start_struct 17 24 h ++ le_bytes 2 memarray_handle ++ le_bytes 2 0xFFFE ++ le_bytes 2 64 ++ le_bytes 2 64 ++ size ++
     [0x02; 0; 1; 2; 0x02] ++ le_bytes 2 0x0004 ++ le_bytes 2 0 ++ [3; 4; 5; 6; 0])
    [s2b "DIMM 0"; s2b "Bank 0"; s2b " "; s2b "None"; s2b "None"; s2b "None"].

Definition build_type19 (c : SmbiosConfig) (memarray_handle h : Z) : list Z :=
  let mem_bytes := Z.min (memory_mb c * (1024 * 1024)) (2 ^ 64 - 1) in
  let mem_kb := Z.min (memory_mb c * 1024) (2 ^ 64 - 1) in
  let range := if mem_kb <=? 0xFFFFFFFE then le_bytes 4 0 ++ le_bytes 4 (as_u 32 (wsub 64 mem_kb 1)) else le_bytes 4 0xFFFFFFFF ++ le_bytes 4 0xFFFFFFFF in
  finalize_struct (start_struct 19 27 h ++ range ++ le_bytes 2 memarray_handle ++ [1] ++ le_bytes 8 0 ++ le_bytes 8 (wsub 64 mem_bytes 1)) [].

Definition build_type32 (h : Z) : list Z := finalize_struct (start_struct 32 7 h ++ replicate 6 0 ++ [0]) [].
Definition build_type127 (h : Z) : list Z := finalize_struct (start_struct 127 0 h) [].

Definition ENTRY_POINT_LEN : Z := 0x1F.

Definition build_entry_point (max_struct_size table_length num_structures : Z) : option (list Z) :=
  let buf := replicate 31 0 in
  let* buf := put 0x00 (s2b "_SM_") buf in
  let* buf := put 0x05 [ENTRY_POINT_LEN] buf in
  let* buf := put 0x06 [2] buf in
  let* buf := put 0x07 [8] buf in
  let* buf := put 0x08 (le_bytes 2 max_struct_size) buf in
  let* buf := put 0x0A [0] buf in
  let* buf := put 0x10 (s2b "_DMI_") buf in
  let* buf := put 0x16 (le_bytes 2 table_length) buf in
  let* buf := put 0x18 (le_bytes 4 0) buf in
  let* buf := put 0x1C (le_bytes 2 num_structures) buf in
  let* buf := put 0x1E [0x28] buf in
  let* buf := fix_checksum_at buf 0x15 0x10 0x0F in
  fix_checksum_at buf 0x04 0x00 0x10.

(** ** The table *)

(** What [generate_smbios] keeps across structures. *)
Record Gen : Type := mkGen { tables : list Z; handle : Z; max_struct_size : Z; num_structures : Z }.

(** [emit], after [next_handle] has moved on. *)
Definition emit (data : list Z) (g : Gen) : Gen :=
  let n := as_u 16 (len data) in
  mkGen (tables g ++ data) (wadd 16 (handle g) 1) (if max_struct_size g <? n then n else max_struct_size g) (wadd 16 (num_structures g) 1).

Definition emit_cpus (n : Z) (g : Gen) : Gen := foldl (fun g i => emit (build_type4 i (handle g)) g) g (seqZ 0 n).

Definition generate_tables (c : SmbiosConfig) : option Gen :=
  let g := mkGen [] 0 0 0 in
  let g := emit (build_type0 (handle g)) g in
  let* t1 := build_type1 c (handle g) in
  let g := emit t1 g in
  let chassis_handle := wadd 16 (handle g) 1 in
  let g := emit (build_type2 chassis_handle (handle g)) g in
  let g := emit (build_type3 (handle g)) g in
  let g := emit_cpus (num_cpus c) g in
  let memarray_handle := handle g in
  let* t16 := build_type16 c (handle g) in
  let g := emit t16 g in
  let g := emit (build_type17 c memarray_handle (handle g)) g in
  let g := emit (build_type19 c memarray_handle (handle g)) g in
  let g := emit (build_type32 (handle g)) g in
  Some (emit (build_type127 (handle g)) g).

Definition generate_smbios (c : SmbiosConfig) (max_table_len : Z) : option (result SmbiosError (list Z * list Z)) :=
  if memory_mb c =? 0 then Some (Err NoMemory)
  else
    let* g := generate_tables c in
    let max_table_len := Z.min max_table_len 0xFFFF in
    if max_table_len <? len (tables g) then Some (Err (TableTooLarge (len (tables g)) max_table_len))
    else
      let* anchor := build_entry_point (max_struct_size g) (as_u 16 (len (tables g))) (num_structures g) in
      Some (Ok (anchor, tables g)).

(** The entry point [write_smbios_tables] puts at 0xF0000: the address of the
    table and both checksums again. *)
Definition place_entry_point (table_gpa : Z) (ep : list Z) : option (list Z) :=
  if len ep <? 0x1F then Some ep
  else
    let* ep := put 0x18 (le_bytes 4 (as_u 32 table_gpa)) ep in
    let* ep := put 0x15 [0] ep in
    let* r := slice 0x10 0x0F ep in
    let* ep := put 0x15 [wsub 8 0 (sum8 r)] ep in
    let* ep := put 0x04 [0] ep in
    let* r := slice 0x00 0x10 ep in
    put 0x04 [wsub 8 0 (sum8 r)] ep.

End smbios.

Module smbios_os.
Import smbios.

(** ** The guest's reader

    A structure (SMBIOS 2.8 sec 6.1): type, length, handle, the rest of the
    formatted area up to [length], then the strings, each NUL-terminated, up
    to an empty one; without strings, two NULs. The table ends with type
    127. *)

Record Struct : Type := mkStruct { s_type : Z; s_handle : Z; s_fields : list Z; s_strings : list (list Z) }.

Fixpoint read_strings (fuel : nat) (bs : list Z) : option (list (list Z) * list Z) :=
  match fuel with
  | O => None
  | S fuel =>
      let* '(s, rest) := read_string bs in
      match s with [] => Some ([], rest) | _ => let* '(l, rest) := read_strings fuel rest in Some (s :: l, rest) end
  end.

Definition read_set (bs : list Z) : option (list (list Z) * list Z) :=
  match bs with
  | a :: b :: rest => if (a =? 0) && (b =? 0) then Some ([], rest) else read_strings (List.length bs) bs
  | _ => None
  end.

Definition read_struct (bs : list Z) : option (Struct * list Z) :=
  let n := field bs 1 1 in
  if (n <? 4) || (len bs <? n) then None
  else
    let* '(strings, rest) := read_set (drop (Z.to_nat n) bs) in
    Some (mkStruct (field bs 0 1) (field bs 2 2) (take (Z.to_nat n - 4) (drop 4 bs)) strings, rest).

Fixpoint read_table (fuel : nat) (bs : list Z) : option (list Struct * list Z) :=
  match fuel with
  | O => None
  | S fuel =>
      let* '(s, rest) := read_struct bs in
      if s_type s =? 127 then Some ([s], rest) else let* '(l, rest) := read_table fuel rest in Some (s :: l, rest)
  end.

(** String number [i] of a structure; 0 is no string. *)
Definition string_at (s : Struct) (i : Z) : option (list Z) := if i =? 0 then None else s_strings s !! Z.to_nat (i - 1).

(** *** Reading one structure *)

(** A string the format can hold. *)
Definition str_ok (s : list Z) : Prop := as_bytes s <> [] /\ Forall (fun b => b <> 0) (as_bytes s).

Definition string_set (l : list (list Z)) : list Z := concat ((fun s => s ++ [0]) <$> l) ++ [0].

Lemma read_strings_set l rest fuel : Forall (fun s => s <> [] /\ Forall (fun b => b <> 0) s) l -> (List.length l < fuel)%nat ->
  read_strings fuel (string_set l ++ rest) = Some (l, rest).
Proof.
  intros Hl. revert fuel. induction Hl as [|s l [Hne Hs] _ IH]; intros [|fuel] Hf; cbn [List.length] in Hf; try lia; [done|].
  unfold string_set in *. cbn [fmap list_fmap concat]. rewrite <- !app_assoc. cbn [app read_strings]. rewrite read_string_app by done.
  destruct s as [|b s]; [done|]. specialize (IH fuel). rewrite <- app_assoc in IH. cbn [app] in IH. by rewrite IH by lia.
Qed.

Lemma string_set_len l : (List.length l < List.length (string_set l))%nat.
Proof. unfold string_set. rewrite length_app. cbn. induction l as [|s l IH]; cbn [fmap list_fmap concat List.length]; [lia|]. rewrite !length_app. cbn. lia. Qed.

Lemma read_set_strings s l rest : Forall (fun s => s <> [] /\ Forall (fun b => b <> 0) s) (s :: l) -> read_set (string_set (s :: l) ++ rest) = Some (s :: l, rest).
Proof.
  intros Hl. pose proof (read_strings_set (s :: l) rest (List.length (string_set (s :: l) ++ rest)) Hl) as Hr.
  assert (Hf : (List.length (s :: l) < List.length (string_set (s :: l) ++ rest))%nat) by (rewrite length_app; pose proof (string_set_len (s :: l)); lia).
  specialize (Hr Hf). inversion_clear Hl as [|? ? [Hne Hs] _]. destruct s as [|b s]; [done|]. inversion_clear Hs as [|? ? Hb _].
  unfold read_set. unfold string_set in *. cbn [fmap list_fmap concat app] in *.
  destruct ((((s ++ [0]) ++ concat ((fun s0 => s0 ++ [0]) <$> l)) ++ [0]) ++ rest) as [|c r] eqn:E.
  { apply (f_equal List.length) in E. rewrite !length_app in E. cbn in E. lia. }
  destruct (Z.eqb_spec b 0); [done|]. exact Hr.
Qed.

(** The strings a reader finds when [extra] bytes of the formatted area lie
    beyond the length in the header. *)
Definition glue (extra : list Z) (l : list (list Z)) : list (list Z) := match l with s :: l => (extra ++ s) :: l | [] => [] end.

Lemma struct_reads t fl h fmt strings rest (k : nat) :
  uint 8 t -> uint 16 h -> 4 + Z.of_nat k < 256 -> Z.of_nat k = fl -> (k <= List.length fmt)%nat -> Forall str_ok strings ->
  Forall (fun b => b <> 0) (drop k fmt) -> (strings = [] -> List.length fmt = k) ->
  read_struct (finalize_struct (start_struct t fl h ++ fmt) strings ++ rest) = Some (mkStruct t h (take k fmt) (glue (drop k fmt) (as_bytes <$> strings)), rest).
Proof.
  intros Ht Hh Hk Hfl Hlen Hs Hx Hnil.
  set (tail := match strings with [] => [0; 0] | _ => string_set (as_bytes <$> strings) end).
  assert (Hb : finalize_struct (start_struct t fl h ++ fmt) strings ++ rest = [t; 4 + fl] ++ le_bytes 2 h ++ take k fmt ++ (drop k fmt ++ tail) ++ rest).
  { unfold start_struct. rewrite as_u_small by (unfold uint; lia). rewrite <- (take_drop k fmt) at 1. unfold finalize_struct, tail.
    destruct strings as [|s l]; [by rewrite <- !app_assoc|]. unfold string_set. rewrite <- list_fmap_compose. by rewrite <- !app_assoc. }
  rewrite Hb. set (bs := [t; 4 + fl] ++ _). assert (Hf1 : field bs 1 1 = 4 + fl) by (unfold field, bs; cbn; lia).
  assert (Hf0 : field bs 0 1 = t) by (unfold field, bs; cbn; lia).
  assert (Hf2 : field bs 2 2 = h) by (unfold bs; rewrite acpi_os.field_at by done; by apply le_val_le_bytes).
  assert (Hbl : len bs = 4 + fl + len ((drop k fmt ++ tail) ++ rest)).
  { unfold bs. rewrite (len_app [t; 4 + fl]), (len_app (le_bytes 2 h)), (len_app (take k fmt)). unfold len. rewrite length_take, length_le_bytes. cbn [List.length]. lia. }
  assert (Hd4 : drop 4 bs = take k fmt ++ (drop k fmt ++ tail) ++ rest) by done.
  unfold read_struct. rewrite Hf1, Hf0, Hf2. pose proof (len_nonneg ((drop k fmt ++ tail) ++ rest)).
  destruct (Z.ltb_spec (4 + fl) 4), (Z.ltb_spec (len bs) (4 + fl)); try lia. cbn [orb].
  assert (Hdn : drop (Z.to_nat (4 + fl)) bs = (drop k fmt ++ tail) ++ rest).
  { replace (Z.to_nat (4 + fl)) with (4 + k)%nat by lia. rewrite <- drop_drop, Hd4. apply drop_app_length'. rewrite length_take. lia. }
  rewrite Hdn, Hd4. replace (Z.to_nat (4 + fl) - 4)%nat with k by lia. rewrite take_app_length' by (rewrite length_take; lia).
  destruct strings as [|s l].
  - rewrite drop_ge by (rewrite (Hnil eq_refl); lia). done.
  - assert (Hset : drop k fmt ++ tail = string_set (glue (drop k fmt) (as_bytes <$> (s :: l)))).
    { unfold tail, string_set. cbn [fmap list_fmap glue concat]. by rewrite <- !app_assoc. }
    rewrite Hset. cbn [fmap list_fmap glue] in *. inversion_clear Hs as [|? ? [Hs1 Hs2] Hl].
    rewrite read_set_strings; [done|]. constructor.
    + split; [intros [_ E]%app_eq_nil; done|by apply Forall_app].
    + by apply Forall_fmap.
Qed.
(** *** The whole table *)

Definition reads (bs : list Z) (s : Struct) : Prop := forall rest, read_struct (bs ++ rest) = Some (s, rest).

Lemma read_table_all bss ss b e fuel : Forall2 reads bss ss -> Forall (fun s => s_type s <> 127) ss -> reads b e -> s_type e = 127 ->
  (List.length bss < fuel)%nat -> read_table fuel (concat (bss ++ [b])) = Some (ss ++ [e], []).
Proof.
  intros Hr Ht He Hte. revert fuel. induction Hr as [|x s bss ss Hx Hr IH]; intros [|fuel] Hf; cbn [List.length] in Hf; try lia; cbn [app concat read_table].
  - rewrite He, Hte. done.
  - inversion_clear Ht as [|? ? Ht1 Ht2]. rewrite Hx. destruct (Z.eqb_spec (s_type s) 127); [done|]. rewrite IH by (done || lia). done.
Qed.

(** The structures by number: [n] CPUs, the UUID bytes [u], the six strings. *)
Section structs.
Context (c : SmbiosConfig) (u : list Z).
Notation n := (num_cpus c).

Definition kb_field : Z := if memory_mb c * 1024 <=? 0x7FFFFFFF then memory_mb c * 1024 else 0x80000000.

Definition struct_bytes : list (list Z) :=
  [build_type0 0; finalize_struct (start_struct 1 21 1 ++ [1; 2; 3; 4] ++ u ++ [0x06; 5; 6]) (type1_strings c); build_type2 3 2; build_type3 3] ++
  ((fun i => build_type4 i (4 + i)) <$> seqZ 0 n) ++
  [finalize_struct (start_struct 16 11 (4 + n) ++ [3; 3; 3] ++ le_bytes 4 kb_field ++ le_bytes 2 0xFFFE ++ le_bytes 2 1) [];
   build_type17 c (4 + n) (5 + n); build_type19 c (4 + n) (6 + n); build_type32 (7 + n)].

Definition type0_fields : list Z := Eval cbv in take 20 (drop 4 (build_type0 0)).
Definition type2_fields : list Z := Eval cbv in take 11 (drop 4 (build_type2 3 2)).
Definition type3_fields : list Z := Eval cbv in take 17 (drop 4 (build_type3 3)).
Definition type17_fields : list Z :=
  le_bytes 2 (4 + n) ++ le_bytes 2 0xFFFE ++ le_bytes 2 64 ++ le_bytes 2 64 ++ le_bytes 2 (Z.min (memory_mb c) 0x7FFF) ++
  [0x02; 0; 1; 2; 0x02] ++ le_bytes 2 0x0004 ++ le_bytes 2 0 ++ [3; 4; 5; 6; 0].
Definition type19_fields : list Z :=
  (if memory_mb c * 1024 <=? 0xFFFFFFFE then le_bytes 4 0 ++ le_bytes 4 (memory_mb c * 1024 - 1) else le_bytes 4 0xFFFFFFFF ++ le_bytes 4 0xFFFFFFFF) ++
  le_bytes 2 (4 + n) ++ [1] ++ le_bytes 8 0 ++ le_bytes 8 (memory_mb c * (1024 * 1024) - 1).

Definition structs : list Struct :=
  [mkStruct 0 0 type0_fields [s2b "BHYVE"; s2b "14.0"; s2b "03/31/2026"];
   mkStruct 1 1 ([1; 2; 3; 4] ++ u ++ [0x06]) (glue [5; 6] (as_bytes <$> type1_strings c));
   mkStruct 2 2 type2_fields [s2b "SmartOS"; s2b "Virtual Machine"; s2b "1.0"; s2b "None"; s2b "None"; s2b "None"];
   mkStruct 3 3 type3_fields [[5] ++ s2b "SmartOS"; s2b "1.0"; s2b "None"; s2b "None"; s2b "None"]] ++
  ((fun i => mkStruct 4 (4 + i) type4_fields (as_bytes <$> type4_strings i)) <$> seqZ 0 n) ++
  [mkStruct 16 (4 + n) ([3; 3; 3] ++ le_bytes 4 kb_field ++ le_bytes 2 0xFFFE ++ le_bytes 2 1) [];
   mkStruct 17 (5 + n) type17_fields [s2b "DIMM 0"; s2b "Bank 0"; s2b " "; s2b "None"; s2b "None"; s2b "None"];
   mkStruct 19 (6 + n) type19_fields [];
   mkStruct 32 (7 + n) (replicate 7 0) []].

Hypothesis Hn : 0 <= n < 65000.
Hypothesis Hm : 0 < memory_mb c < 2 ^ 44.
Hypothesis Hu : List.length u = 16%nat.
Hypothesis Hs : Forall str_ok (type1_strings c).

Ltac str_lit := split; [done|repeat (apply Forall_cons_2; [discriminate|]); apply Forall_nil_2].
Ltac strs_lit := repeat (apply Forall_cons_2; [str_lit|]); apply Forall_nil_2.

Lemma decimal_digits fuel v acc : 0 <= v -> Forall (fun b => 0x30 <= b < 0x3A) acc -> Forall (fun b => 0x30 <= b < 0x3A) (decimal fuel v acc).
Proof.
  revert v acc. induction fuel as [|fuel IH]; intros v acc Hv Ha; [done|]. cbn [decimal].
  assert (Forall (fun b => 0x30 <= b < 0x3A) (0x30 + v mod 10 :: acc)).
  { constructor; [|done]. pose proof (Z.mod_pos_bound v 10 ltac:(lia)). lia. }
  destruct (Z.ltb_spec v 10); [done|]. apply IH; [|done]. apply Z.div_pos; lia.
Qed.

Lemma as_bytes_ascii s : Forall (fun b => 0 <= b < 0x80) s -> as_bytes s = s.
Proof.
  unfold as_bytes. induction 1 as [|b s Hb _ IH]; [done|]. cbn [fmap list_fmap concat]. rewrite IH. unfold utf8_char. destruct (Z.ltb_spec b 0x80); [done|lia].
Qed.

Lemma cpu_string i : 0 <= i -> str_ok (s2b "CPU #" ++ decimal 10 i []).
Proof.
  intros Hi. pose proof (decimal_digits 10 i [] Hi ltac:(constructor)) as Hd.
  assert (E : as_bytes (s2b "CPU #" ++ decimal 10 i []) = s2b "CPU #" ++ decimal 10 i []).
  { apply as_bytes_ascii. apply Forall_app. split; [repeat (apply Forall_cons_2; [done|]); apply Forall_nil_2|]. eapply Forall_impl; [exact Hd|]. cbn. lia. }
  unfold str_ok. rewrite E. split; [done|]. apply Forall_app. split; [repeat (apply Forall_cons_2; [discriminate|]); apply Forall_nil_2|].
  eapply Forall_impl; [exact Hd|]. cbn. lia.
Qed.

(** Structures with nothing past their length. *)
Lemma struct_exact t (k : nat) h fmt strings : uint 8 t -> uint 16 h -> 4 + Z.of_nat k < 256 -> List.length fmt = k -> Forall str_ok strings ->
  reads (finalize_struct (start_struct t (Z.of_nat k) h ++ fmt) strings) (mkStruct t h fmt (as_bytes <$> strings)).
Proof.
  intros Ht Hh Hk Hl Hst rest. rewrite (struct_reads t (Z.of_nat k) h fmt strings rest k) by (rewrite ?drop_ge by lia; done || lia).
  rewrite drop_ge, take_ge by lia. by destruct strings.
Qed.

Lemma type4_reads i : 0 <= i < n -> reads (build_type4 i (4 + i)) (mkStruct 4 (4 + i) type4_fields (as_bytes <$> type4_strings i)).
Proof.
  intros Hi. apply (struct_exact 4 38); [done|unfold uint; lia|done|done|]. unfold type4_strings.
  apply Forall_cons_2; [apply cpu_string; lia|strs_lit].
Qed.

Lemma structs_read : Forall2 reads struct_bytes structs.
Proof.
  unfold struct_bytes, structs. apply Forall2_app; [|apply Forall2_app].
  - apply Forall2_cons_2; [apply (struct_exact 0 20); [done..|strs_lit]|].
    apply Forall2_cons_2.
    { intros rest. assert (Hl : List.length ([1; 2; 3; 4] ++ u ++ [6; 5; 6]) = 23%nat) by (rewrite !length_app, Hu; done).
      assert (Hsp : [1; 2; 3; 4] ++ u ++ [6; 5; 6] = ([1; 2; 3; 4] ++ u ++ [6]) ++ [5; 6]) by (by rewrite <- !app_assoc).
      assert (Hp : List.length ([1; 2; 3; 4] ++ u ++ [6]) = 21%nat) by (rewrite !length_app, Hu; done).
      assert (Hd : drop 21 ([1; 2; 3; 4] ++ u ++ [6; 5; 6]) = [5; 6]) by (rewrite Hsp; by apply drop_app_length').
      rewrite (struct_reads 1 21 1 _ _ rest 21); [|done|done|done|done|lia|done|rewrite Hd; repeat (apply Forall_cons_2; [discriminate|]); apply Forall_nil_2|done].
      rewrite Hd. rewrite Hsp at 1. by rewrite take_app_length'. }
    apply Forall2_cons_2; [apply (struct_exact 2 11); [done..|strs_lit]|].
    apply Forall2_cons_2; [|apply Forall2_nil_2]. intros rest.
    apply (struct_reads 3 17 3 ([1; 0x02; 2; 3; 4; 0x03; 0x03; 0x03; 0x03] ++ le_bytes 4 0 ++ [0; 0; 0; 0; 5])
      [s2b "SmartOS"; s2b "1.0"; s2b "None"; s2b "None"; s2b "None"] rest 17); try done; [cbn; lia|strs_lit|].
    cbn [drop]. apply Forall_cons_2; [discriminate|apply Forall_nil_2].
  - apply Forall2_fmap_2. apply Forall_Forall2_diag. apply Forall_forall. intros i Hi%elem_of_seqZ. apply type4_reads. lia.
  - apply Forall2_cons_2; [apply (struct_exact 16 11); [done|unfold uint; lia|done|done|apply Forall_nil_2]|].
    apply Forall2_cons_2.
    { unfold build_type17, type17_fields. replace (if memory_mb c <=? 0x7FFE then _ else _) with (le_bytes 2 (Z.min (memory_mb c) 0x7FFF)).
      - apply (struct_exact 17 24); [done|unfold uint; lia|done|done|strs_lit].
      - destruct (Z.leb_spec (memory_mb c) 0x7FFE); [rewrite as_u_small, Z.min_l by (unfold uint; lia); done|by rewrite Z.min_r by lia]. }
    apply Forall2_cons_2.
    { unfold build_type19, type19_fields, wsub. rewrite !Z.min_l by lia. rewrite !(Z.mod_small (_ - 1)) by lia.
      destruct (Z.leb_spec (memory_mb c * 1024) 0xFFFFFFFE); [rewrite as_u_small by (unfold uint; lia)|];
        (apply (struct_exact 19 27); [done|unfold uint; lia|done|done|apply Forall_nil_2]). }
    apply Forall2_cons_2; [apply (struct_exact 32 7); [done|unfold uint; lia|done|done|apply Forall_nil_2]|apply Forall2_nil_2].
Qed.

Lemma structs_types : Forall (fun s => s_type s <> 127) structs.
Proof.
  unfold structs. apply Forall_app. split; [repeat (apply Forall_cons_2; [done|]); apply Forall_nil_2|]. apply Forall_app. split.
  - apply Forall_fmap. apply Forall_forall. intros. done.
  - repeat (apply Forall_cons_2; [done|]). apply Forall_nil_2.
Qed.

Definition last_struct : Struct := mkStruct 127 (8 + n) [] [].

(** The guest reads every structure of the table. *)
Lemma table_reads fuel : (List.length struct_bytes < fuel)%nat ->
  read_table fuel (concat (struct_bytes ++ [build_type127 (8 + n)])) = Some (structs ++ [last_struct], []).
Proof.
  intros Hf. apply read_table_all; [exact structs_read|exact structs_types| |done|done].
  pose proof (struct_exact 127 0 (8 + n) [] []) as H. rewrite app_nil_r in H. apply H; [done|unfold uint; lia|done|done|apply Forall_nil_2].
Qed.
(** *** The generator *)

Definition largest (bss : list (list Z)) : Z := foldl (fun m b => if m <? as_u 16 (len b) then as_u 16 (len b) else m) 0 bss.

Definition gen_of (bss : list (list Z)) : Gen := mkGen (concat bss) (Z.of_nat (List.length bss)) (largest bss) (Z.of_nat (List.length bss)).

Lemma emit_gen b bss : Z.of_nat (List.length bss) + 1 < 65536 -> emit b (gen_of bss) = gen_of (bss ++ [b]).
Proof.
  intros Hl. unfold emit, gen_of, largest, wadd. cbn [tables handle max_struct_size num_structures]. rewrite foldl_app, length_app, concat_app.
  cbn [foldl List.length concat]. rewrite app_nil_r, !Z.mod_small by lia. f_equal; lia.
Qed.

Lemma emit_cpus_gen bss k : Z.of_nat (List.length bss) = 4 -> (Z.of_nat k) < 65000 ->
  emit_cpus (Z.of_nat k) (gen_of bss) = gen_of (bss ++ ((fun i => build_type4 i (4 + i)) <$> seqZ 0 (Z.of_nat k))).
Proof.
  intros Hb. unfold emit_cpus. induction k as [|k IH]; intros Hk; [by rewrite app_nil_r|].
  replace (Z.of_nat (S k)) with (Z.of_nat k + 1) by lia. rewrite seqZ_app by lia. rewrite foldl_app, IH by lia.
  assert (E : seqZ (0 + Z.of_nat k) 1 = [Z.of_nat k]) by done. rewrite E, fmap_app. cbn [foldl fmap list_fmap].
  set (g := gen_of (bss ++ _)). assert (handle g = 4 + Z.of_nat k) as -> by (cbn [g gen_of handle]; rewrite length_app, length_fmap, length_seqZ; lia).
  unfold g. rewrite emit_gen by (rewrite length_app, length_fmap, length_seqZ; lia). by rewrite <- app_assoc.
Qed.

Lemma type16_eq h : build_type16 c h = Some (finalize_struct (start_struct 16 11 h ++ [3; 3; 3] ++ le_bytes 4 kb_field ++ le_bytes 2 0xFFFE ++ le_bytes 2 1) []).
Proof.
  unfold build_type16, kb_field. rewrite Z.min_l by lia. destruct (Z.leb_spec (memory_mb c * 1024) 0x7FFFFFFF); [|done].
  rewrite as_u_small by (unfold uint; lia). unfold finalize_struct. rewrite <- !app_assoc.
  exact (put_at (start_struct 16 11 h ++ [3; 3; 3]) (le_bytes 4 0x80000000) _ (le_bytes 4 (memory_mb c * 1024)) 7 eq_refl eq_refl).
Qed.

Lemma generate_tables_eq : parse_uuid (uuid c) = Some u -> generate_tables c = Some (gen_of (struct_bytes ++ [build_type127 (8 + n)])).
Proof.
  intros Hp. unfold generate_tables, build_type1. change (mkGen [] 0 0 0) with (gen_of []). rewrite Hp.
  rewrite emit_gen by done. cbn [app]. rewrite emit_gen by done. cbn [app].
  change (wadd 16 (handle (gen_of _)) 1) with 3. rewrite emit_gen by done. cbn [app]. rewrite emit_gen by done. cbn [app].
  rewrite <- (Z2Nat.id n) by lia. rewrite emit_cpus_gen by (done || lia). rewrite (Z2Nat.id n) by lia.
  set (l4 := [_; _; _; _] ++ _). assert (Hl : Z.of_nat (List.length l4) = 4 + n) by (unfold l4; rewrite length_app, length_fmap, length_seqZ; cbn [List.length]; lia).
  assert (Hh : forall l, handle (gen_of l) = Z.of_nat (List.length l)) by done.
  rewrite type16_eq, emit_gen by lia. rewrite emit_gen by (rewrite length_app; cbn [List.length]; lia).
  rewrite emit_gen by (rewrite !length_app; cbn [List.length]; lia). rewrite emit_gen by (rewrite !length_app; cbn [List.length]; lia).
  rewrite emit_gen by (rewrite !length_app; cbn [List.length]; lia). f_equal. f_equal.
  rewrite !Hh, !length_app. cbn [List.length]. unfold struct_bytes. unfold l4 at 1. rewrite <- !app_assoc. cbn [app].
  replace (Z.of_nat (List.length l4 + 1)) with (5 + n) by lia. replace (Z.of_nat (List.length l4 + 1 + 1)) with (6 + n) by lia.
  replace (Z.of_nat (List.length l4 + 1 + 1 + 1)) with (7 + n) by lia. replace (Z.of_nat (List.length l4 + 1 + 1 + 1 + 1)) with (8 + n) by lia.
  rewrite Hl. done.
Qed.
End structs.

(** *** The entry point *)

Definition ep_bytes (c4 c15 m l k a : Z) : list Z :=
  (s2b "_SM_" ++ [c4] ++ [0x1F; 2; 8] ++ le_bytes 2 m ++ [0; 0; 0; 0; 0; 0]) ++
  (s2b "_DMI_" ++ [c15] ++ le_bytes 2 l ++ le_bytes 4 a ++ le_bytes 2 k ++ [0x28]).

Definition ep_sum (m l k a : Z) : list Z :=
  ep_bytes (balance (take 16 (ep_bytes 0 0 m l k a))) (balance (drop 16 (ep_bytes 0 0 m l k a))) m l k a.

Lemma entry_point_eq m l k : build_entry_point m l k = Some (ep_sum m l k 0).
Proof. cbv -[sum8 wsub Z.modulo Z.div]. reflexivity. Qed.

Lemma place_eq m l k gpa : uint 32 gpa -> place_entry_point gpa (ep_sum m l k 0) = Some (ep_sum m l k gpa).
Proof.
  intros Hg. unfold place_entry_point. rewrite as_u_small by done. unfold ep_sum at 1 2.
  generalize (balance (take 16 (ep_bytes 0 0 m l k 0))) (balance (drop 16 (ep_bytes 0 0 m l k 0))). intros x y.
  cbv -[sum8 wsub Z.modulo Z.div]. reflexivity.
Qed.

(** What a guest checks of an entry point, and what it takes from it. *)
Record entry_point_ok (ep : list Z) (table size count biggest : Z) : Prop := {
  ep_anchor : take 4 ep = s2b "_SM_" /\ take 5 (drop 16 ep) = s2b "_DMI_";
  ep_sums : sum8 ep = 0 /\ sum8 (drop 16 ep) = 0;
  ep_table : field ep 0x18 4 = table;
  ep_size : field ep 0x16 2 = size;
  ep_count : field ep 0x1C 2 = count;
  ep_biggest : field ep 0x08 2 = biggest;
}.

Lemma ep_sum_ok m l k a : uint 16 m -> uint 16 l -> uint 16 k -> uint 32 a -> entry_point_ok (ep_sum m l k a) a l k m.
Proof.
  intros Hm Hl Hk Ha. unfold ep_sum. set (c4 := balance (take 16 _)). set (c15 := balance (drop 16 _)).
  assert (H16 : forall x y, take 16 (ep_bytes x y m l k a) = s2b "_SM_" ++ [x] ++ ([0x1F; 2; 8] ++ le_bytes 2 m ++ [0; 0; 0; 0; 0; 0])) by done.
  assert (Hd : forall x y, drop 16 (ep_bytes x y m l k a) = s2b "_DMI_" ++ [y] ++ (le_bytes 2 l ++ le_bytes 4 a ++ le_bytes 2 k ++ [0x28])) by done.
  assert (S1 : sum8 (take 16 (ep_bytes c4 c15 m l k a)) = 0) by (rewrite H16; unfold c4; rewrite H16; apply balance_sums).
  assert (S2 : sum8 (drop 16 (ep_bytes c4 c15 m l k a)) = 0) by (rewrite Hd; unfold c15; rewrite Hd; apply balance_sums).
  split; try done.
  - split; [|done]. rewrite sum8_sumz in S1, S2 |- *. rewrite <- (take_drop 16 (ep_bytes c4 c15 m l k a)), sumz_app, Z.add_mod, S1, S2 by lia. done.
  - change (field _ 0x18 4) with (le_val (le_bytes 4 a)). by apply le_val_le_bytes.
  - change (field _ 0x16 2) with (le_val (le_bytes 2 l)). by apply le_val_le_bytes.
  - change (field _ 0x1C 2) with (le_val (le_bytes 2 k)). by apply le_val_le_bytes.
  - change (field _ 0x08 2) with (le_val (le_bytes 2 m)). by apply le_val_le_bytes.
Qed.

Lemma largest_max bss : len (concat bss) <= 0xFFFF -> largest bss = foldl Z.max 0 (len <$> bss).
Proof.
  unfold largest. assert (forall m, 0 <= m -> len (concat bss) <= 0xFFFF ->
    foldl (fun m b => if m <? as_u 16 (len b) then as_u 16 (len b) else m) m bss = foldl Z.max m (len <$> bss)) as H; [|by apply H].
  induction bss as [|b bss IH]; intros m Hm Hl; [done|]. cbn [concat fmap list_fmap foldl] in *. rewrite len_app in Hl.
  pose proof (len_nonneg b). pose proof (len_nonneg (concat bss)). rewrite as_u_small by (unfold uint; lia).
  rewrite IH by (try lia; destruct (m <? len b); lia). f_equal. destruct (Z.ltb_spec m (len b)); lia.
Qed.

Lemma largest_uint bss : uint 16 (largest bss).
Proof.
  unfold largest. assert (forall m, uint 16 m -> uint 16 (foldl (fun m b => if m <? as_u 16 (len b) then as_u 16 (len b) else m) m bss)) as H; [|apply H; done].
  induction bss as [|b bss IH]; intros m Hm; [done|]. cbn [foldl]. apply IH. destruct (m <? _); [|done]. by apply as_u_uint.
Qed.

Lemma parse_uuid_len o u : parse_uuid o = Some u -> List.length u = 16%nat.
Proof.
  unfold parse_uuid. destruct o as [s|]; [|by intros [= <-]]. case_match; [by intros [= <-]|]. case_match; [|done]. repeat case_match; by intros [= <-].
Qed.

Lemma reads_lengths bss ss : Forall2 reads bss ss -> (List.length bss <= List.length (concat bss))%nat.
Proof.
  induction 1 as [|b s bss ss Hb _ IH]; [done|]. cbn [List.length concat]. rewrite length_app. destruct b as [|x b]; [by specialize (Hb [])|]. cbn. lia.
Qed.

(** C24: the guest reads the SMBIOS tables. For any CPU count and memory size
    and any strings without NULs, the generator either refuses because the
    table is larger than its window, or the entry point placed at 0xF0000 has
    right anchors and checksums and gives the table's address, size, structure
    count and largest structure, and a reader that follows the lengths in the
    headers finds exactly the structures of the VM, ending at type 127. The
    headers of types 1 and 3 say two and one bytes too few, so what that reader
    takes for their first string, the manufacturer, starts with those bytes. *)
Theorem smbios_found c max gpa u :
  0 <= num_cpus c < 65000 -> 0 < memory_mb c < 2 ^ 44 -> parse_uuid (uuid c) = Some u ->
  Forall str_ok (type1_strings c) -> uint 32 gpa ->
  let bss := struct_bytes c u ++ [build_type127 (8 + num_cpus c)] in
  let size := len (concat bss) in
  if Z.min max 0xFFFF <? size then generate_smbios c max = Some (Err (TableTooLarge size (Z.min max 0xFFFF)))
  else exists anchor ep, generate_smbios c max = Some (Ok (anchor, concat bss)) /\ place_entry_point gpa anchor = Some ep /\
    entry_point_ok ep gpa size (9 + num_cpus c) (foldl Z.max 0 (len <$> bss)) /\
    read_table (List.length (concat bss)) (concat bss) = Some (structs c u ++ [last_struct c], []) /\
    (let* s := structs c u !! 1%nat in string_at s 1) = Some ([5; 6] ++ as_bytes (default (s2b "Joyent") (manufacturer c))).
Proof.
  intros Hn Hm Hp Hs Hg bss size. pose proof (parse_uuid_len _ _ Hp) as Hu. assert (Hl : Z.of_nat (List.length bss) = 9 + num_cpus c).
  { unfold bss, struct_bytes. rewrite !length_app, length_fmap, length_seqZ. cbn [List.length]. lia. }
  unfold generate_smbios. destruct (Z.eqb_spec (memory_mb c) 0); [lia|]. rewrite (generate_tables_eq c u) by done. fold bss.
  cbn [gen_of tables max_struct_size num_structures]. fold size. destruct (Z.ltb_spec (Z.min max 0xFFFF) size) as [|Hle]; [done|].
  pose proof (len_nonneg (concat bss)) as Hnn. fold size in Hnn. rewrite as_u_small, entry_point_eq, Hl by (unfold uint; lia).
  do 2 eexists. split_and!; [done|by apply place_eq| | |].
  - rewrite <- largest_max by (fold size; lia). apply ep_sum_ok; [apply largest_uint|unfold uint; lia..|done].
  - apply table_reads; try done. pose proof (reads_lengths _ _ (structs_read c u Hn Hm Hu Hs)).
    unfold bss. rewrite concat_app, length_app. cbn [concat app]. rewrite app_nil_r. change (List.length (build_type127 _)) with 6%nat. lia.
  - done.
Qed.

End smbios_os.

Module smbios_demo.
Import smbios smbios_os.

Definition demo_config : SmbiosConfig := mkSmbiosConfig (s2b "vm0") None 2 2048 None None None None None None.

Lemma smbios_found_witness : let u := replicate 16 0 in
  let bss := struct_bytes demo_config u ++ [build_type127 (8 + num_cpus demo_config)] in
  let size := len (concat bss) in
  if Z.min 0x1400 0xFFFF <? size then generate_smbios demo_config 0x1400 = Some (Err (TableTooLarge size (Z.min 0x1400 0xFFFF)))
  else exists anchor ep, generate_smbios demo_config 0x1400 = Some (Ok (anchor, concat bss)) /\ place_entry_point 0xF1000 anchor = Some ep /\
    entry_point_ok ep 0xF1000 size (9 + num_cpus demo_config) (foldl Z.max 0 (len <$> bss)) /\
    read_table (List.length (concat bss)) (concat bss) = Some (structs demo_config u ++ [last_struct demo_config], []) /\
    (let* s := structs demo_config u !! 1%nat in string_at s 1) = Some ([5; 6] ++ as_bytes (default (s2b "Joyent") (manufacturer demo_config))).
Proof.
  apply (smbios_found demo_config 0x1400 0xF1000 (replicate 16 0)); [split; [discriminate|reflexivity]|split; reflexivity|reflexivity| |split; [discriminate|reflexivity]].
  repeat (apply Forall_cons_2; [split; [discriminate|apply Forall_forall; intros x Hx%list_elem_of_In; repeat (destruct Hx as [<-|Hx]; [discriminate|]); destruct Hx]|]). apply Forall_nil_2.
Defined.

End smbios_demo.
