(* ===== verification/Machine.v ===== *)
(** * The machine: RAM and vCPUs

    [crates/vmm-core/src/machine.rs]: the checks of the builder, the instance
    it creates and arms, and the RAM it maps around the MMIO hole. *)

From S2P Require Import Prelude Mapping PhysMap PhysMapInv ASpace Bus.
Import mapping physmap.

Module machine.

Definition VM_MAXCPU : Z := 64.
Definition MIN_MEM_SIZE : Z := 1024 * 1024.
Definition MAX_MEM_SIZE : Z := 1024 * 1024 * 1024 * 1024.

(** The low and high RAM of a machine. *)
Definition split_memory (mem_size : Z) : Z * Z :=
  let low := Z.min mem_size MMIO_HOLE_BASE in (low, wsub 64 mem_size low).

Record Builder : Type := mkBuilder { b_num_cpus : Z; b_mem_size : Z }.

Definition new : Builder := mkBuilder 1 (256 * 1024 * 1024).
Definition cpus (count : Z) (b : Builder) : Builder := mkBuilder count (b_mem_size b).
Definition memory (size : Z) (b : Builder) : Builder := mkBuilder (b_num_cpus b) size.

Inductive BuildError : Type :=
| NumCpus (n : Z)
| MemTooSmall (n : Z)
| MemTooLarge (n : Z)
| MemUnaligned (n : Z)
| Create (e : ErrorKind)
| Unarmed (refused : ErrorKind) (lost : option ErrorKind)
| AddRam (e : ErrorKind).

(** What the kernel answers while a machine is built. *)
Record Kernel : Type := mkKernel {
  k_create : result ErrorKind unit;
  k_arm : result ErrorKind unit;
  k_destroy : result ErrorKind unit;
  k_low_seg : result ErrorKind unit;
  k_low : answers;
  k_high_seg : result ErrorKind unit;
  k_high : answers;
}.

(** The instance is armed, or gone, or both errors are reported. *)
Definition arm_or_destroy (arm destroy : result ErrorKind unit) : result BuildError unit :=
  match arm with
  | Ok _ => Ok tt
  | Err refused => match destroy with Ok _ => Err (Unarmed refused None) | Err lost => Err (Unarmed refused (Some lost)) end
  end.

Record MachineSetup : Type := mkMachineSetup { ms_map : PhysMap; ms_num_cpus : Z; ms_mem_size : Z }.

Definition build (b : Builder) (k : Kernel) : result BuildError MachineSetup :=
  if negb ((0 <? b_num_cpus b) && (b_num_cpus b <=? VM_MAXCPU)) then Err (NumCpus (b_num_cpus b))
  else if b_mem_size b <? MIN_MEM_SIZE then Err (MemTooSmall (b_mem_size b))
  else if MAX_MEM_SIZE <? b_mem_size b then Err (MemTooLarge (b_mem_size b))
  else if negb (is_multiple_of (b_mem_size b) PAGE_SIZE) then Err (MemUnaligned (b_mem_size b))
  else
    match k_create k with
    | Err e => Err (Create e)
    | Ok _ =>
        let? _u := arm_or_destroy (k_arm k) (k_destroy k) in
        let '(lowmem_size, highmem_size) := split_memory (b_mem_size b) in
        match add_ram physmap_new 0 lowmem_size (k_low_seg k) (k_low k) with
        | (_, Err e) => Err (AddRam e)
        | (map, Ok _) =>
            if 0 <? highmem_size then
              match add_ram map MMIO_HOLE_END highmem_size (k_high_seg k) (k_high k) with
              | (_, Err e) => Err (AddRam e)
              | (map, Ok _) => Ok (mkMachineSetup map (b_num_cpus b) (b_mem_size b))
              end
            else Ok (mkMachineSetup map (b_num_cpus b) (b_mem_size b))
        end
    end.

(** The machine: the map it shares, the next segment of the shared allocator,
    and one vCPU for each number. *)
Record Machine : Type := mkMachine {
  map : PhysMap;
  vcpus : list Z;
  num_cpus : Z;
  mem_size : Z;
  segids : Z;
}.

Definition finalize (s : MachineSetup) : Machine :=
  let segids := next_segid (ms_map s) in
  mkMachine (ms_map s) (seqZ 0 (ms_num_cpus s)) (ms_num_cpus s) (ms_mem_size s) segids.

(** ** The RAM a built machine has *)

(** Guest RAM in the regions of a map. *)
Definition ram_at (pm : PhysMap) (a : Z) : bool :=
  existsb (fun '(g, l, k) => bool_decide (k = Ram) && (g <=? a) && (a <? g + l)) (region_list pm).

Lemma publish_list pm c run direct : region_list (publish_claim pm c run direct) =
  let i := match binary_search_by (cmp_gpa (c_gpa c)) (regions pm) with Ok i => i | Err i => i end in
  vec_insert i (c_gpa c, c_len c, c_kind c) (region_list pm).
Proof.
  unfold region_list, publish_claim. cbn [regions]. set (i := match binary_search_by _ _ with Ok i => i | Err i => i end).
  unfold adopt_run. rewrite <- list_fmap_compose. unfold vec_insert. rewrite fmap_app, fmap_cons, fmap_take, fmap_drop.
  f_equal; [|f_equal]; rewrite <- ?fmap_take, <- ?fmap_drop; try apply list_fmap_ext; intros; cbn; by case_match.
Qed.

Lemma add_ram_list pm g l seg k pm' : claims pm = [] -> add_ram pm g l seg k = (pm', Ok tt) ->
  exists i, claims pm' = [] /\ region_list pm' = vec_insert i (g, l, Ram) (region_list pm) /\
    i = match binary_search_by (cmp_gpa g) (regions pm) with Ok i => i | Err i => i end.
Proof.
  intros Hc. unfold add_ram, add_region, claim. destruct (region_end g l) as [e|]; [|done]. cbn [placement_ok negb].
  destruct (check_free pm g e); [|done]. destruct seg; [|done]. unfold commit. cbn [c_gpa c_len c_kind c_prot]. cbn [Z.ltb Z.compare orb negb is_multiple_of].
  set (pm1 := mkPhysMap _ _ _). change (negb (is_multiple_of 0 PAGE_SIZE)) with false. cbn [orb].
  destruct (run_bounds pm1 g l Ram) as [rg rl]. destruct (tracked_view rg rl Ram RWX _) as [tr|]; [|done].
  destruct (a_map_memseg k); [|done]. destruct (devmem_view 0 l _ _) as [d|].
  - intros [= <-]. eexists. split_and!; [| |reflexivity].
    + unfold bump_segid, publish_claim, pm1. cbn [claims c_gpa]. rewrite Hc. unfold remove_claim. cbn. rewrite decide_True by done. done.
    + change (region_list (bump_segid ?x)) with (region_list x). rewrite publish_list. done.
  - by destruct (a_munmap_memseg k).
Qed.

(** A machine that was built has RAM below the hole and above it, and nothing
    else. *)
Lemma build_regions b k s : build b k = Ok s ->
  let '(low, high) := split_memory (b_mem_size b) in
  region_list (ms_map s) = (0, low, Ram) :: (if 0 <? high then [(MMIO_HOLE_END, high, Ram)] else []) /\ ms_mem_size s = b_mem_size b.
Proof.
  unfold build. repeat (case_match; [done|]). destruct (k_create k); [|done]. destruct (arm_or_destroy _ _); [|done].
  destruct (split_memory (b_mem_size b)) as [low high] eqn:Es.
  destruct (add_ram physmap_new 0 low _ _) as [pm [[]|]] eqn:E1; [|done].
  apply add_ram_list in E1 as (i & Hc & Hl & Hi); [|done]. cbn in Hi. subst i. cbn in Hl.
  destruct (0 <? high); [|by intros [= <-]].
  destruct (add_ram pm MMIO_HOLE_END high _ _) as [pm' [[]|]] eqn:E2; [|done]. intros [= <-].
  apply add_ram_list in E2 as (i & _ & Hl' & Hi); [|done]. split; [|done]. cbn [ms_map]. rewrite Hl', Hi, Hl.
  unfold region_list in Hl. destruct (regions pm) as [|r [|]]; [done| |done]. cbn in Hl. injection Hl as Hg _ _.
  unfold binary_search_by. cbn. unfold cmp_gpa. by rewrite Hg.
Qed.

Lemma build_sizes b k s : build b k = Ok s -> MIN_MEM_SIZE <= b_mem_size b <= MAX_MEM_SIZE.
Proof.
  unfold build. case_match; [done|]. destruct (Z.ltb_spec (b_mem_size b) MIN_MEM_SIZE); [done|].
  destruct (Z.ltb_spec MAX_MEM_SIZE (b_mem_size b)); [done|]. done.
Qed.

End machine.
