(* ===== verification/Firmware.v ===== *)
(** * From the monitor's tables to the guest's

    [crates/vmm-machine/src/firmware.rs]: the fw_cfg files and the writes to
    guest memory a VM starts with. The theorems run the other side: the
    firmware downloads the loader script and its blobs through the data port
    ([FwCfg.v]) and runs it, the operating system walks the tables
    ([AcpiThm.v]) and reads the DSDT ([AcpiDsdt.v]); or it finds the tables,
    and SMBIOS, at their fixed addresses. *)

From S2P Require Import Prelude IntrPins ASpace Bus Mapping PhysMap PhysMapInv Machine Aml Acpi AcpiThm AcpiDsdt FwCfg Smbios.
From Stdlib Require Ascii String.
Import String.StringSyntax.
Import aml acpi.

Module firmware.

Definition SMBIOS_EP_GPA : Z := 0xF0000.
Definition SMBIOS_TABLE_GPA : Z := 0xF1000.

Inductive Error : Type :=
| EAcpi (e : AcpiConfigError)
| ESmbios (e : smbios.SmbiosError).

(** The options [firmware.rs] reads. *)
Record VmOpts : Type := mkVmOpts {
  o_vm_name : list Z;
  o_uuid : option (list Z);
  o_max_cpus : Z;
  o_hotplug : bool;
  o_smbios : option (list Z);
}.

Definition fw_cfg_cpu_counts (cfg : AcpiConfig) : list Z * list Z := (le_bytes 2 (as_u 16 (num_cpus cfg)), le_bytes 2 (as_u 16 (max_cpus cfg))).

(** Writes to guest memory, in order: an address and its bytes. One that
    fails is logged and the next is tried. *)
Definition Writes : Type := list (Z * list Z).

Definition write_legacy_acpi_tables (hp : HotplugAml) (cfg : AcpiConfig) (t : option TpmAcpi) : option Writes :=
  let* tables := generate_acpi_tables_for_config hp cfg t in
  let rsdp_size := 36 in
  Some ((if rsdp_size <=? len (data tables) then [(0xE0000, take 36 (data tables))] else []) ++ [(BHYVE_ACPI_BASE, data tables)]).

(** The configuration from [-B] or the defaults. *)
Definition smbios_config (opts : VmOpts) (n_cpus mem_size : Z) : result smbios.SmbiosError smbios.SmbiosConfig :=
  let mb := mem_size / (1024 * 1024) in
  match o_smbios opts with
  | Some flag =>
      let? cfg := smbios.parse_smbios_flag flag in
      Ok (smbios.mkSmbiosConfig (o_vm_name opts) (o_uuid opts) n_cpus mb (smbios.manufacturer cfg) (smbios.product cfg)
            (smbios.version cfg) (smbios.serial cfg) (smbios.sku cfg) (smbios.family cfg))
  | None => Ok (smbios.mkSmbiosConfig (o_vm_name opts) (o_uuid opts) n_cpus mb None None None None None None)
  end.

Definition write_smbios_tables (opts : VmOpts) (n_cpus mem_size : Z) (fw : fwcfg.FwCfg) : option (result Error (fwcfg.FwCfg * Writes)) :=
  match smbios_config opts n_cpus mem_size with
  | Err e => Some (Err (ESmbios e))
  | Ok cfg =>
      let window := BHYVE_ACPI_BASE - SMBIOS_TABLE_GPA in
      let* r := smbios.generate_smbios cfg window in
      match r with
      | Err e => Some (Err (ESmbios e))
      | Ok (anchor, tables) =>
          let fw := fwcfg.insert_named (s2b "etc/smbios/smbios-anchor") anchor fw in
          let fw := fwcfg.insert_named (s2b "etc/smbios/smbios-tables") tables fw in
          let* ep := smbios.place_entry_point SMBIOS_TABLE_GPA anchor in
          Some (Ok (fw, [(SMBIOS_TABLE_GPA, tables); (SMBIOS_EP_GPA, ep)]))
      end
  end.

Definition setup_fwcfg_and_acpi (hp : HotplugAml) (limit : Z) (machine_mem_size : Z) (opts : VmOpts) (n_cpus mem_size : Z) (bootorder : list Z)
    (tpm_acpi : option TpmAcpi) : option (result Error (fwcfg.FwCfg * Writes)) :=
  match config_new limit n_cpus (o_max_cpus opts) with
  | Err e => Some (Err (EAcpi e))
  | Ok cfg =>
      let acpi_cfg := with_hotplug cfg (o_hotplug opts) in
      let fw := fwcfg.new in
      let '(nb_cpus, max_cpus) := fw_cfg_cpu_counts acpi_cfg in
      let fw := fwcfg.insert_legacy 0x05 nb_cpus fw in
      let fw := fwcfg.insert_legacy 0x0F max_cpus fw in
      let fw := fwcfg.insert_named (s2b "etc/e820") (build_e820 machine_mem_size) fw in
      let* layout := generate_acpi_layout_for_config hp acpi_cfg None tpm_acpi in
      let fw := fwcfg.insert_named (s2b "etc/acpi/tables") (tables layout) fw in
      let fw := fwcfg.insert_named (s2b "etc/acpi/rsdp") (rsdp layout) fw in
      let* table_loader := generate_table_loader layout in
      let fw := fwcfg.insert_named (s2b "etc/table-loader") table_loader fw in
      let fw := fwcfg.insert_named (s2b "bootorder") bootorder fw in
      let* legacy := write_legacy_acpi_tables hp acpi_cfg tpm_acpi in
      let* r := write_smbios_tables opts n_cpus mem_size fw in
      match r with
      | Err e => Some (Err e)
      | Ok (fw, smb) => Some (Ok (fw, legacy ++ smb))
      end
  end.

End firmware.

(** ** Bytes are bytes *)

Lemma put_bytes off bs buf buf' : is_bytes bs -> is_bytes buf -> put off bs buf = Some buf' -> is_bytes buf'.
Proof.
  intros Hb Hbuf (a & o & c & -> & _ & _ & ->)%put_inv. apply Forall_app in Hbuf as [Ha Hc]. apply Forall_app in Hc as [_ Hc].
  apply Forall_app. split; [done|]. by apply Forall_app.
Qed.

Lemma balance_byte bs : uint 8 (balance bs).
Proof. unfold balance, wsub, uint. apply Z.mod_pos_bound. done. Qed.

Lemma concat_bytes {A} (f : A -> list Z) l : (forall x, x ∈ l -> is_bytes (f x)) -> is_bytes (concat (f <$> l)).
Proof. intros H. induction l as [|x l IH]; [constructor|]. cbn. apply Forall_app. split; [apply H; set_solver|apply IH; set_solver]. Qed.

Create HintDb bytes.
#[export] Hint Resolve le_bytes_is_bytes balance_byte : bytes.
Ltac bytes := repeat (apply Forall_app; split); first [done|apply le_bytes_is_bytes|apply bytesb_spec; reflexivity|eauto with bytes].

Lemma byte_bytes b : uint 8 b -> is_bytes [b].
Proof. intros. by apply Forall_singleton. Qed.
#[export] Hint Resolve byte_bytes : bytes.

Lemma sdt_unsummed_bytes sig r f : bytesb sig = true -> uint 8 r -> is_bytes f -> is_bytes (sdt_unsummed sig r f).
Proof. intros Hs%bytesb_spec Hr Hf. unfold sdt_unsummed, unsummed, hdr_pre, hdr_post. rewrite <- !app_assoc. bytes. Qed.

Lemma sdt_bytes sig r f : bytesb sig = true -> uint 8 r -> is_bytes f -> is_bytes (sdt sig r f).
Proof. intros Hs%bytesb_spec Hr Hf. unfold sdt, summed, hdr_pre, hdr_post. rewrite <- !app_assoc. bytes. Qed.

Lemma fadt_fields_bytes a b cfg : is_bytes (fadt_fields a b cfg).
Proof. rewrite fadt_split. bytes; unfold fadt_mid, fadt_end, fadt_fields; destruct (hotplug cfg); apply bytesb_spec; reflexivity. Qed.

Lemma madt_fields_bytes cfg : is_bytes (madt_fields cfg).
Proof.
  unfold madt_fields. bytes. apply concat_bytes. intros id _. unfold lapic_entry. apply Forall_app. split; [|apply le_bytes_is_bytes].
  assert (uint 8 (as_u 8 id)) by (by apply as_u_uint). repeat (apply Forall_cons_2; [done|]). apply Forall_nil_2.
Qed.

Lemma ptrs_bytes n l : is_bytes (ptrs n l).
Proof. apply concat_bytes. intros. apply le_bytes_is_bytes. Qed.
#[export] Hint Resolve sdt_unsummed_bytes sdt_bytes fadt_fields_bytes madt_fields_bytes ptrs_bytes : bytes.

Lemma cleared_bytes t : is_bytes t -> is_bytes (cleared t).
Proof. intros H. unfold cleared, unsummed. apply Forall_app. split; [by apply Forall_take|]. apply Forall_app. split; [by apply byte_bytes|by apply Forall_drop]. Qed.

Lemma blob_bytes T cfg dsdt tpm2 : is_bytes dsdt -> (forall t, tpm2 = Some t -> is_bytes t) -> is_bytes (blob sdt_unsummed T cfg dsdt tpm2).
Proof.
  intros Hd Ht. unfold blob. apply Forall_app. split; [by apply bytesb_spec|]. apply Forall_app. split; [done|].
  apply Forall_app. split; [apply sdt_unsummed_bytes; [done|done|apply fadt_fields_bytes]|].
  apply Forall_app. split; [apply sdt_unsummed_bytes; [done|done|apply madt_fields_bytes]|].
  do 2 (apply Forall_app; split; [apply sdt_unsummed_bytes; [done|done|by apply bytesb_spec]|]).
  apply Forall_app. split; [destruct tpm2; [by apply Ht|constructor]|].
  apply Forall_app. split; apply sdt_unsummed_bytes; first [done|apply ptrs_bytes].
Qed.

Lemma rsdp_bytes_bytes a b : is_bytes (rsdp_bytes 0 0 a b).
Proof. unfold rsdp_bytes. bytes. Qed.

(** The loader script is bytes, 128 to a command. *)
Definition entry_bytes (e : list Z) : Prop := is_bytes e /\ len e = 128.
Definition entry (b : option (list Z)) : Prop := forall bs, b = Some bs -> entry_bytes bs.

Lemma entry_put e off bs : entry_bytes e -> is_bytes bs -> entry (put off bs e).
Proof.
  intros [H1 H2] Hbs e' He. split; [by apply (put_bytes off bs e)|]. by rewrite (put_len _ _ _ _ He).
Qed.

Lemma entry_bind b (k : list Z -> option (list Z)) : entry b -> (forall e, entry_bytes e -> entry (k e)) -> entry (let* e := b in k e).
Proof. intros Hb Hk. destruct b as [e|]; [|done]. apply Hk, Hb, eq_refl. Qed.

Lemma entry_name n (k : list Z -> option (list Z)) : fw_loader.a_blob n -> (forall e, is_bytes e -> entry (k e)) -> entry (let* e := write_loader_name n in k e).
Proof. intros [-> | ->] Hk; (destruct (write_loader_name _) eqn:E; [|done]); apply Hk; vm_compute in E; injection E as <-; by apply bytesb_spec. Qed.

Ltac entry :=
  repeat first
    [ apply entry_put; [first [assumption|split; [by apply bytesb_spec|reflexivity]]|first [assumption|apply le_bytes_is_bytes|by apply byte_bytes]]
    | apply entry_name; [done|intros ? ?]
    | apply entry_bind; [|intros ? ?] ].

Lemma pointer_entry d s off size : fw_loader.a_blob d -> fw_loader.a_blob s -> uint 8 size -> entry (loader_add_pointer_cmd d s off size).
Proof. intros Hd Hs Hz. unfold loader_add_pointer_cmd. entry. Qed.

Lemma checksum_entry n off start l : fw_loader.a_blob n -> entry (loader_add_checksum_cmd n off start l).
Proof. intros Hn. unfold loader_add_checksum_cmd. entry. Qed.

Lemma alloc_entry n align zone : fw_loader.a_blob n -> uint 8 zone -> entry (loader_alloc_cmd n align zone).
Proof. intros Hn Hz. unfold loader_alloc_cmd. entry. Qed.

Lemma entries_bytes l bs : Forall entry l -> mapM id l = Some bs -> is_bytes (concat bs) /\ len (concat bs) = 128 * Z.of_nat (List.length l).
Proof.
  intros Hl Hm%mapM_Some. induction Hm as [|b e l bs He Hm IH]; [split; [constructor|done]|].
  apply Forall_cons in Hl as [Hb Hl]. destruct (IH Hl) as [I1 I2]. destruct (Hb e He) as [H1 H2]. cbn [concat List.length].
  split; [by apply Forall_app|]. rewrite len_app. lia.
Qed.

Lemma fmap_entries {A} (f : A -> option (list Z)) l : (forall x, entry (f x)) -> Forall entry (f <$> l).
Proof. intros H. apply Forall_fmap, Forall_true. done. Qed.

Lemma script_bytes l bs : generate_table_loader l = Some bs -> is_bytes bs /\ len bs < 2 ^ 32.
Proof.
  assert (HT : fw_loader.a_blob TABLES_BLOB_NAME) by by left. assert (HR : fw_loader.a_blob RSDP_BLOB_NAME) by by right.
  assert (Hp : forall off size, uint 8 size -> entry (table_pointer off size)) by (intros; by apply pointer_entry).
  assert (Hc : forall off size, entry (table_checksum off size)) by (intros; by apply checksum_entry).
  unfold generate_table_loader. set (n := if 0 <? tpm2_len l then 5 else 4). assert (Hn : n <= 5) by (unfold n; by destruct (0 <? _)).
  destruct (mapM id _) as [cs|] eqn:E; [|done]. intros [= <-]. apply entries_bytes in E as [E1 E2].
  - split; [done|]. rewrite E2, !length_app, !length_fmap, !length_seqZ. cbn [List.length]. destruct (0 <? tpm2_len l); cbn [List.length]; lia.
  - repeat (apply Forall_app; split); try (by apply fmap_entries; intros; apply Hp); [..|destruct (0 <? tpm2_len l); [|constructor]|];
      repeat (apply Forall_cons_2; [first [by apply alloc_entry|by apply pointer_entry|by apply Hp|by apply checksum_entry|apply Hc]|]); apply Forall_nil_2.
Qed.

(** ** What [setup_fwcfg_and_acpi] leaves *)
Module setup.
Import firmware.

(** The configuration the tables are for. *)
Definition the_cfg (opts : VmOpts) (n_cpus : Z) (t : option TpmAcpi) : AcpiConfig :=
  with_tpm (with_hotplug (mkAcpiConfig n_cpus (o_max_cpus opts) None false) (o_hotplug opts)) (device_ <$> t).

Record outcome (hp : HotplugAml) (mm : Z) (opts : VmOpts) (n_cpus mem_size : Z) (bootorder : list Z) (t : option TpmAcpi)
    (fw : fwcfg.FwCfg) (ws : Writes) (layout : AcpiLayout) (loader anchor smb ep : list Z) (legacy : AcpiTables) : Prop := {
  out_layout : generate_acpi_layout_inner hp (the_cfg opts n_cpus t) None (table <$> t) = Some layout;
  out_loader : generate_table_loader layout = Some loader;
  out_legacy : generate_acpi_tables_inner hp (the_cfg opts n_cpus t) (table <$> t) = Some legacy;
  out_smbios : exists c, smbios_config opts n_cpus mem_size = Ok c /\ smbios.generate_smbios c (BHYVE_ACPI_BASE - SMBIOS_TABLE_GPA) = Some (Ok (anchor, smb));
  out_ep : smbios.place_entry_point SMBIOS_TABLE_GPA anchor = Some ep;
  out_writes : ws = ((if 36 <=? len (data legacy) then [(0xE0000, take 36 (data legacy))] else []) ++ [(BHYVE_ACPI_BASE, data legacy)]) ++
                    [(SMBIOS_TABLE_GPA, smb); (SMBIOS_EP_GPA, ep)];
  out_serves : len bootorder < 2 ^ 32 -> len (tables layout) < 2 ^ 32 -> len (rsdp layout) < 2 ^ 32 ->
    let fs := [(s2b "etc/e820", build_e820 mm); (TABLES_BLOB_NAME, tables layout); (RSDP_BLOB_NAME, rsdp layout);
               (s2b "etc/table-loader", loader); (s2b "bootorder", bootorder);
               (s2b "etc/smbios/smbios-anchor", anchor); (s2b "etc/smbios/smbios-tables", smb)] in
    fw_client.serves fs fw /\ Forall fw_client.file_bytes_ok fs;
}.

Lemma e820_len mm : len (build_e820 mm) < 2 ^ 32.
Proof.
  unfold build_e820, build_e820_entries. repeat case_match; reflexivity.
Qed.

Lemma name_ok n : forallb (fun b => (0 <? b) && (b <? 256)) n = true -> Forall (fun b => b <> 0) n /\ is_bytes n.
Proof. intros H. rewrite List.forallb_forall in H. split; apply Forall_forall; intros x Hx%list_elem_of_In; specialize (H x Hx); unfold uint; lia. Qed.

Lemma named_ok n d : len n < fwcfg.MAX_NAME_LEN -> forallb (fun b => (0 <? b) && (b <? 256)) n = true -> len d < 2 ^ 32 -> fw_client.op_ok (fw_client.Named n d).
Proof. intros Hl [H1 H2]%name_ok Hd. done. Qed.

Lemma smbios_len c max a t : max < 2 ^ 32 -> smbios.generate_smbios c max = Some (Ok (a, t)) -> len a < 2 ^ 32 /\ len t < 2 ^ 32.
Proof.
  intros Hm. unfold smbios.generate_smbios. destruct (_ =? 0); [done|]. destruct (smbios.generate_tables c) as [g|]; [|done].
  destruct (Z.ltb_spec (Z.min max 0xFFFF) (len (smbios.tables g))) as [|H]; [done|].
  rewrite smbios_os.entry_point_eq. intros [= <- <-]. split; [done|lia].
Qed.

Lemma serve_all fs : forall fs0 s, fw_client.serves fs0 s -> Forall fw_client.file_bytes_ok fs -> Z.of_nat (List.length (fs0 ++ fs)) < 0xFFDF ->
  fw_client.serves (fs0 ++ fs) (foldl (fun s f => fwcfg.insert_named f.1 f.2 s) s fs).
Proof.
  induction fs as [|[n d] fs IH]; intros fs0 s Hs Hok Hc; [by rewrite app_nil_r|]. apply Forall_cons in Hok as [Hf Hok].
  rewrite cons_middle, app_assoc in *. apply IH; [|done|done]. apply fw_client.serves_named; [done|done|]. rewrite !length_app in Hc. lia.
Qed.

Lemma setup_outcome hp limit mm opts n_cpus mem_size bootorder t fw ws :
  setup_fwcfg_and_acpi hp limit mm opts n_cpus mem_size bootorder t = Some (Ok (fw, ws)) ->
  exists layout loader anchor smb ep legacy, outcome hp mm opts n_cpus mem_size bootorder t fw ws layout loader anchor smb ep legacy.
Proof.
  unfold setup_fwcfg_and_acpi, config_new, write_legacy_acpi_tables, generate_acpi_layout_for_config, generate_acpi_tables_for_config.
  destruct (n_cpus =? 0); [done|]. destruct (o_max_cpus opts <? n_cpus); [done|]. destruct (limit <? o_max_cpus opts); [done|]. fold (the_cfg opts n_cpus t).
  unfold fw_cfg_cpu_counts. destruct (generate_acpi_layout_inner _ _ _ _) as [layout|] eqn:El; [|done].
  destruct (generate_table_loader layout) as [loader|] eqn:Ed; [|done]. destruct (generate_acpi_tables_inner _ _ _) as [legacy|] eqn:Eg; [|done].
  unfold write_smbios_tables. destruct (smbios_config opts n_cpus mem_size) as [c|] eqn:Ec; [|done].
  destruct (smbios.generate_smbios c _) as [[[anchor smb]|]|] eqn:Es; [|done..].
  destruct (smbios.place_entry_point SMBIOS_TABLE_GPA anchor) as [ep|] eqn:Ep; [|done]. intros [= <- <-].
  exists layout, loader, anchor, smb, ep, legacy. split; try done; [by exists c|].
  intros Hb Ht Hr fs. destruct (script_bytes _ _ Ed) as [_ Hd]. apply smbios_len in Es as [Ha Hs]; [|done]. pose proof (e820_len mm) as He.
  assert (Hok : Forall fw_client.file_bytes_ok fs) by (unfold fs; repeat (apply Forall_cons_2; [by apply named_ok|]); apply Forall_nil_2).
  split; [|done].
  pose proof (fw_client.serves_legacy _ _ 0xF (le_bytes 2 (as_u 16 (o_max_cpus opts)))
    (fw_client.serves_legacy _ _ 0x5 (le_bytes 2 (as_u 16 n_cpus)) fw_client.serves_new ltac:(done)) ltac:(done)) as H.
  exact (serve_all fs [] _ H Hok eq_refl).
Qed.

End setup.

(** ** The firmware and the operating system *)
Module guest_boot.
Import firmware setup fw_loader acpi_os.

(** The firmware downloads the script and the two blobs, and runs it. *)
Definition download (bus : pio.PioBus fwcfg.FwCfg) (place : list Z -> Z) (fw : fwcfg.FwCfg) : option (gmap (list Z) (Z * list Z)) :=
  let* '(fw, script) := fw_client.read_file bus (s2b "etc/table-loader") fw in
  let* '(fw, t) := fw_client.read_file bus TABLES_BLOB_NAME fw in
  let* '(fw, r) := fw_client.read_file bus RSDP_BLOB_NAME fw in
  load (fun n => if decide (n = TABLES_BLOB_NAME) then Some t else if decide (n = RSDP_BLOB_NAME) then Some r else None) place script.

(** Guest memory that has the blobs where the firmware put them. *)
Definition placed (mem : Memory) (blobs : gmap (list Z) (Z * list Z)) : Prop := forall n a bs, blobs !! n = Some (a, bs) -> holds mem a bs.

(** A TPM2 table as the TPM crate gives it: bytes, with its length in its
    header. *)
Definition tpm2_ok (t : option TpmAcpi) : Prop :=
  forall a, t = Some a -> is_bytes (table a) /\ 36 <= len (table a) /\ field (table a) 4 4 = len (table a).

Lemma balanced_good t : 36 <= len t -> field t 4 4 = len t -> good (balanced t).
Proof.
  intros Hl Hf. split; [by rewrite balanced_len by lia| |apply balance_sums]. rewrite balanced_len by lia. rewrite <- Hf.
  destruct (table_split t ltac:(lia)) as (x & E & H9). rewrite E at 2. unfold balanced, summed, field.
  assert (List.length (take 9 t) = 9%nat) by (unfold len in H9; lia).
  rewrite <- (firstn_skipn 4 (take 9 t)). rewrite <- !app_assoc. rewrite !drop_app_length' by (rewrite length_take; lia).
  rewrite !take_app_le by (rewrite length_drop; lia). done.
Qed.

Section download.
Context (cfg : AcpiConfig) (body : list Z) (tpm2 : option (list Z)) (T : Z).
Notation dsdt := (sdt (s2b "DSDT") 2 body).
Hypothesis Hc : uint 32 (max_cpus cfg).
Hypothesis Hb : is_bytes body.
Hypothesis Ht : forall x, tpm2 = Some x -> is_bytes x /\ 36 <= len x /\ field x 4 4 = len x.
Hypothesis HT : 0 <= T.
Hypothesis Hsz : T + blob_size cfg (len dsdt) (len <$> tpm2) < 2 ^ 32.

Lemma boot_fits : fits cfg dsdt tpm2.
Proof.
  split; [done| | |lia].
  - by apply fw_run.sdt_table.
  - intros t E. destruct (Ht t E) as (_ & ? & _). lia.
Qed.

Lemma balanced_lens : len <$> (balanced <$> tpm2) = len <$> tpm2.
Proof. destruct tpm2 as [t|]; [|done]. destruct (Ht t eq_refl) as (_ & ? & _). cbn. by rewrite balanced_len by lia. Qed.

Lemma dsdt_good : good dsdt.
Proof.
  apply sdt_good; [done|]. pose proof (offs_small _ _ _ boot_fits) as Ho. cbv zeta in Ho. unfold off_fadt in Ho. rewrite sdt_len in Ho by done. lia.
Qed.

Lemma layout_files : let L := the_layout cfg dsdt tpm2 in
  is_bytes (tables L) /\ is_bytes (rsdp L) /\ len (tables L) < 2 ^ 32 /\ len (rsdp L) < 2 ^ 32.
Proof.
  cbn [tables rsdp the_layout]. split_and!; [|apply rsdp_bytes_bytes| |done].
  - apply blob_bytes; [apply cleared_bytes, sdt_bytes; try done|]. intros t (t' & Ht' & ->)%fmap_Some. apply cleared_bytes. by apply Ht.
  - rewrite blob_len; [|intros; by apply sdt_unsummed_len|unfold uint in Hc; lia].
    destruct (fw_run.sdt_table (s2b "DSDT") 2 body eq_refl) as [_ H10]. rewrite cleared_len by done.
    replace (len <$> (cleared <$> tpm2)) with (len <$> tpm2); [lia|].
    destruct tpm2 as [t|]; [|done]. destruct (Ht t eq_refl) as (_ & ? & _). cbn. by rewrite cleared_len by lia.
Qed.

(** The walk from the RSDP, for any memory that has the loaded blobs. *)
Lemma walk_placed mem R : placed mem (two T (blob sdt T cfg dsdt (balanced <$> tpm2)) R (rsdp_sum (off_rsdt cfg (len dsdt) (len <$> tpm2) + T) (off_xsdt cfg (len dsdt) (len <$> tpm2) + T))) ->
  walk mem R = Some (mkFound (the_tables T cfg (balanced <$> tpm2)) (the_tables T cfg (balanced <$> tpm2)) T dsdt).
Proof.
  intros Hp. pose proof boot_fits as Hf. pose proof balanced_lens as Hbl. apply walk_linked; [|apply dsdt_good|done| |done|rewrite Hbl; lia| |].
  - destruct Hf as [F1 F2 F3 F4]. split; [done|done| |by rewrite Hbl].
    intros t (t' & Ht' & ->)%fmap_Some. rewrite balanced_len by auto. auto.
  - intros t (t' & Ht' & ->)%fmap_Some. destruct (Ht t' Ht') as (_ & ? & ?). by apply balanced_good.
  - apply (Hp TABLES_BLOB_NAME), two_tables.
  - rewrite Hbl. apply (Hp RSDP_BLOB_NAME), two_rsdp.
Qed.
End download.

(** C11: ACPI reaches the guest through fw_cfg. When [setup_fwcfg_and_acpi]
    returns, the firmware reads the loader script and both blobs through the
    data port and runs it without error, wherever it places the blobs (64-byte
    aligned for the tables, below 4 GiB); and an operating system that starts
    from the relocated RSDP then finds every checksum right, and the same FADT,
    MADT, HPET, SPCR and TPM2 table by the RSDT and by the XSDT, the FACS at
    the start of the tables and the DSDT with the byte code of [build_dsdt]. *)
Theorem acpi_via_loader hp limit mm opts n_cpus mem_size bootorder t fw ws body bus place :
  setup_fwcfg_and_acpi hp limit mm opts n_cpus mem_size bootorder t = Some (Ok (fw, ws)) ->
  let cfg := the_cfg opts n_cpus t in let dsdt := sdt (s2b "DSDT") 2 body in
  let T := place TABLES_BLOB_NAME in let R := place RSDP_BLOB_NAME in let tpm2 := table <$> t in
  dsdt_aml hp cfg [] = Some body -> is_bytes body -> tpm2_ok t -> uint 32 (max_cpus cfg) -> len bootorder < 2 ^ 32 ->
  fw_client.attached = Some bus -> 0 <= T -> T mod 64 = 0 -> R mod 16 = 0 ->
  T + blob_size cfg (len dsdt) (len <$> tpm2) < 2 ^ 32 ->
  exists blobs, download bus place fw = Some blobs /\
    forall mem, placed mem blobs ->
      walk mem R = Some (mkFound (the_tables T cfg (balanced <$> tpm2)) (the_tables T cfg (balanced <$> tpm2)) T dsdt).
Proof.
  intros Hset cfg dsdt T R tpm2 Hbody Hbb Ht Hc Hbo Hbus%fw_client.attached_on_bus HT H64 H16 Hsz.
  destruct (setup_outcome _ _ _ _ _ _ _ _ _ _ Hset) as (L & loader & anchor & smb & ep & legacy & O).
  assert (Hlt : forall x, tpm2 = Some x -> is_bytes x /\ 36 <= len x /\ field x 4 4 = len x) by (intros x (a & Ha & ->)%fmap_Some; by apply Ht).
  pose proof (boot_fits cfg body tpm2 T Hc Hlt HT Hsz) as Hf.
  pose proof (out_layout _ _ _ _ _ _ _ _ _ _ _ _ _ _ _ O) as HL. fold cfg tpm2 in HL.
  rewrite (layout_eq hp cfg None tpm2 dsdt) in HL by (done || by exists body). injection HL as <-.
  destruct (layout_files cfg body tpm2 T Hc Hbb Hlt HT Hsz) as (B1 & B2 & L1 & L2). set (L := the_layout cfg (sdt (s2b "DSDT") 2 body) tpm2) in *.
  pose proof (out_loader _ _ _ _ _ _ _ _ _ _ _ _ _ _ _ O) as Hld. destruct (script_bytes _ _ Hld) as [B3 _].
  destruct (out_serves _ _ _ _ _ _ _ _ _ _ _ _ _ _ _ O Hbo L1 L2) as [Hs Hok]. set (fs := [_; _; _; _; _; _; _]) in *.
  assert (Hnd : NoDup fs.*1) by (apply (bool_decide_unpack _); exact I).
  destruct (fw_client.read_file_spec bus Hbus fs fw (s2b "etc/table-loader") loader Hs Hok eq_refl Hnd ltac:(unfold fs; set_solver) B3) as (fw1 & R1 & S1).
  destruct (fw_client.read_file_spec bus Hbus fs fw1 TABLES_BLOB_NAME (tables L) S1 Hok eq_refl Hnd ltac:(unfold fs; set_solver) B1) as (fw2 & R2 & S2).
  destruct (fw_client.read_file_spec bus Hbus fs fw2 RSDP_BLOB_NAME (rsdp L) S2 Hok eq_refl Hnd ltac:(unfold fs; set_solver) B2) as (fw3 & R3 & _).
  eexists. split.
  - unfold download. rewrite R1, R2, R3. set (files := fun n : list Z => _).
    destruct (fw_run.load_layout files place T R cfg dsdt tpm2 Hf HT ltac:(lia) eq_refl eq_refl eq_refl eq_refl H64 H16) as (bs & Hg & Hload).
    fold L in Hg. rewrite Hld in Hg. injection Hg as <-. exact Hload.
  - intros mem Hp. destruct (cleared_sdt (s2b "DSDT") 2 body eq_refl) as [_ E]. fold dsdt in E. rewrite E in Hp. by apply walk_placed in Hp.
Qed.
End guest_boot.

(** ** At the fixed addresses *)
Module guest_scan.
Import firmware setup guest_boot acpi_os.

(** Guest memory byte by byte, and the monitor's writes to it. *)
Definition Ram : Type := Z -> Z.
Definition write (a : Z) (bs : list Z) (m : Ram) : Ram := fun x => if (a <=? x) && (x <? a + len bs) then nth (Z.to_nat (x - a)) bs 0 else m x.
Definition apply_writes (ws : Writes) (m : Ram) : Ram := foldl (fun m w => write w.1 w.2 m) m ws.
Definition read (m : Ram) : Memory := fun a n => Some (m <$> seqZ a n).

(** The search for the RSDP in the BIOS area, on 16-byte boundaries (ACPI 6.5
    sec 5.2.5.1). *)
Definition is_rsdp (mem : Memory) (a : Z) : bool :=
  match mem a 20 with Some r => has_sig (s2b "RSD PTR ") r && (sum8 r =? 0) | None => false end.
Definition scan (mem : Memory) : option Z := snd <$> list_find (fun a => is_rsdp mem a) ((fun i => 0xE0000 + 16 * i) <$> seqZ 0 0x2000).

Lemma write_other a bs m x : x < a \/ a + len bs <= x -> write a bs m x = m x.
Proof. intros H. unfold write. destruct (Z.leb_spec a x), (Z.ltb_spec x (a + len bs)); try done; lia. Qed.

Lemma write_at a bs m i : 0 <= i < len bs -> write a bs m (a + i) = nth (Z.to_nat i) bs 0.
Proof.
  intros H. unfold write. destruct (Z.leb_spec a (a + i)), (Z.ltb_spec (a + i) (a + len bs)); try lia. cbn [andb]. do 2 f_equal. lia.
Qed.

Lemma slice_nth bs i n : 0 <= i -> 0 <= n -> i + n <= len bs -> slice i n bs = Some ((fun x => nth (Z.to_nat x) bs 0) <$> seqZ i n).
Proof.
  intros Hi Hn Hl. unfold len in Hl.
  rewrite <- (take_drop (Z.to_nat i) bs) at 1. rewrite <- (take_drop (Z.to_nat n) (drop (Z.to_nat i) bs)) at 1.
  rewrite (slice_at (take (Z.to_nat i) bs)) by (unfold len; rewrite ?length_take, ?length_drop; lia). f_equal. apply list_eq. intros k.
  rewrite list_lookup_fmap. destruct (decide (k < Z.to_nat n)%nat) as [Hk|Hk].
  - rewrite lookup_take_lt, lookup_drop, lookup_seqZ_lt by lia. cbn. destruct (lookup_lt_is_Some_2 bs (Z.to_nat i + k)) as [x Hx]; [lia|].
    rewrite Hx. f_equal. symmetry. apply nth_lookup_Some. replace (Z.to_nat (i + Z.of_nat k)) with (Z.to_nat i + k)%nat by lia. done.
  - rewrite lookup_take_ge, lookup_seqZ_ge by lia. done.
Qed.

Lemma holds_write a bs m : holds (read (write a bs m)) a bs.
Proof.
  intros i n Hi Hn Hl. rewrite slice_nth by done. unfold read. f_equal. rewrite <- (fmap_add_seqZ a), <- list_fmap_compose.
  apply list_fmap_ext. intros k x Hx%lookup_seqZ. cbn. apply write_at. lia.
Qed.

Lemma holds_other a bs a' bs' m : holds (read m) a bs -> a + len bs <= a' \/ a' + len bs' <= a -> holds (read (write a' bs' m)) a bs.
Proof.
  intros H Hd i n Hi Hn Hl. rewrite <- (H i n Hi Hn Hl). unfold read. f_equal. apply list_fmap_ext. intros k x Hx%lookup_seqZ. apply write_other. lia.
Qed.

Lemma slice_some i n bs : 0 <= i -> 0 <= n -> i + n <= len bs -> exists o, slice i n bs = Some o.
Proof. intros. rewrite slice_nth by done. by eexists. Qed.

Lemma holds_app mem a x y : holds mem a (x ++ y) -> holds mem a x /\ holds mem (a + len x) y.
Proof.
  intros H. pose proof (len_nonneg x). pose proof (len_nonneg y). split; intros i n Hi Hn Hl; destruct (slice_some i n _ Hi Hn Hl) as (o & Ho); rewrite Ho.
  - rewrite H by (rewrite ?len_app; lia). apply (slice_inside [] x y i n o Ho).
  - rewrite <- Z.add_assoc, H by (rewrite ?len_app; lia). rewrite <- (app_nil_r y). by apply slice_inside.
Qed.

(** Everything [setup_fwcfg_and_acpi] writes stays: no write covers another. *)
Record fixed_tables (mem : Memory) (data smb ep : list Z) : Prop := {
  at_copy : holds mem 0xE0000 (take 36 data);
  at_base : holds mem BHYVE_ACPI_BASE data;
  at_smbios : holds mem SMBIOS_TABLE_GPA smb;
  at_ep : holds mem SMBIOS_EP_GPA ep;
}.

Lemma writes_stay m data smb ep : 36 <= len data -> len smb <= 0x1400 -> len ep = 31 ->
  fixed_tables (read (apply_writes ([(0xE0000, take 36 data); (BHYVE_ACPI_BASE, data); (SMBIOS_TABLE_GPA, smb); (SMBIOS_EP_GPA, ep)]) m)) data smb ep.
Proof.
  intros Hd Hs He. assert (len (take 36 data) = 36) by (unfold len in *; rewrite length_take; lia).
  unfold apply_writes. cbn [foldl fst snd].
  split; unfold BHYVE_ACPI_BASE, SMBIOS_TABLE_GPA, SMBIOS_EP_GPA; repeat first [apply holds_write|apply holds_other; [|lia]].
Qed.

Lemma smbios_sizes c anchor smb ep : smbios.generate_smbios c (BHYVE_ACPI_BASE - SMBIOS_TABLE_GPA) = Some (Ok (anchor, smb)) ->
  smbios.place_entry_point SMBIOS_TABLE_GPA anchor = Some ep -> len smb <= 0x1400 /\ len ep = 31.
Proof.
  unfold smbios.generate_smbios. destruct (_ =? 0); [done|]. destruct (smbios.generate_tables c) as [g|]; [|done].
  destruct (Z.ltb_spec (Z.min (BHYVE_ACPI_BASE - SMBIOS_TABLE_GPA) 0xFFFF) (len (smbios.tables g))) as [|H]; [done|].
  rewrite smbios_os.entry_point_eq. intros [= <- <-]. rewrite smbios_os.place_eq by done. intros [= <-]. split; [exact H|reflexivity].
Qed.

Lemma scan_first mem a b : holds mem 0xE0000 (rsdp_sum a b) -> scan mem = Some 0xE0000.
Proof.
  intros H. unfold scan. rewrite seqZ_cons by lia. cbn [fmap list_fmap]. change (0xE0000 + 16 * 0) with 0xE0000.
  assert (E : is_rsdp mem 0xE0000 = true).
  { unfold is_rsdp. change 0xE0000 with (0xE0000 + 0). rewrite H by (done || vm_compute; congruence).
    assert (slice 0 20 (rsdp_sum a b) = Some (take 20 (rsdp_sum a b))) as -> by reflexivity.
    destruct (rsdp_sums a b) as [-> _]. rewrite Z.eqb_refl, andb_true_r. apply bool_decide_true. reflexivity. }
  cbn [list_find]. rewrite decide_True by (by rewrite E). done.
Qed.

(** C12: ACPI and SMBIOS at their fixed addresses, for a guest without a
    firmware that loads from fw_cfg. After the writes of
    [setup_fwcfg_and_acpi], over whatever memory held, the search of the BIOS
    area stops at the copy of the RSDP at 0xE0000; from it, and from the RSDP
    at 0xF2400, an operating system finds the FADT, MADT, HPET, SPCR and TPM2
    table by the RSDT and by the XSDT, the FACS and the DSDT, every checksum
    right; and the SMBIOS table and its entry point are intact. *)
Theorem acpi_via_scan hp limit mm opts n_cpus mem_size bootorder t fw ws body m :
  setup_fwcfg_and_acpi hp limit mm opts n_cpus mem_size bootorder t = Some (Ok (fw, ws)) ->
  let cfg := the_cfg opts n_cpus t in let dsdt := sdt (s2b "DSDT") 2 body in
  let T := BHYVE_ACPI_BASE + RSDP_SIZE in let tpm2 := table <$> t in let mem := read (apply_writes ws m) in
  dsdt_aml hp cfg [] = Some body -> (forall x, tpm2 = Some x -> good x) -> uint 32 (max_cpus cfg) ->
  T + blob_size cfg (len dsdt) (len <$> tpm2) < 2 ^ 32 ->
  let found := mkFound (the_tables T cfg tpm2) (the_tables T cfg tpm2) T dsdt in
  scan mem = Some 0xE0000 /\ walk mem 0xE0000 = Some found /\ walk mem BHYVE_ACPI_BASE = Some found /\
  exists c anchor smb ep, smbios_config opts n_cpus mem_size = Ok c /\
    smbios.generate_smbios c (BHYVE_ACPI_BASE - SMBIOS_TABLE_GPA) = Some (Ok (anchor, smb)) /\ smbios.place_entry_point SMBIOS_TABLE_GPA anchor = Some ep /\
    holds mem SMBIOS_TABLE_GPA smb /\ holds mem SMBIOS_EP_GPA ep.
Proof.
  intros Hset cfg dsdt T tpm2 mem Hbody Ht Hc Hsz found.
  destruct (setup_outcome _ _ _ _ _ _ _ _ _ _ Hset) as (L & loader & anchor & smb & ep & legacy & O).
  destruct (out_smbios _ _ _ _ _ _ _ _ _ _ _ _ _ _ _ O) as (c & Ec & Es). pose proof (out_ep _ _ _ _ _ _ _ _ _ _ _ _ _ _ _ O) as Ep.
  destruct (smbios_sizes c anchor smb ep Es Ep) as [Hs He].
  assert (Hf : fits cfg dsdt tpm2).
  { split; [done|by apply fw_run.sdt_table| |unfold T, BHYVE_ACPI_BASE, RSDP_SIZE in Hsz; lia]. intros x Hx. destruct (Ht x Hx). lia. }
  destruct (legacy_eq hp cfg tpm2 body Hbody Hf Hsz) as (tb & Eg & Hdata). 
  pose proof (out_legacy _ _ _ _ _ _ _ _ _ _ _ _ _ _ _ O) as Eg'. fold cfg tpm2 in Eg'. rewrite Eg' in Eg. injection Eg as <-.
  assert (Hl : 36 <= len (data legacy)) by (rewrite Hdata, len_app, legacy_rsdp_len; match goal with |- context [len ?b] => pose proof (len_nonneg b) end; lia).
  pose proof (out_writes _ _ _ _ _ _ _ _ _ _ _ _ _ _ _ O) as Hw. destruct (Z.leb_spec 36 (len (data legacy))); [|lia]. cbn [app] in Hw.
  pose proof (writes_stay m (data legacy) smb ep Hl Hs He) as W. rewrite <- Hw in W. fold mem in W. destruct W as [W1 W2 W3 W4].
  rewrite Hdata in W1, W2. rewrite take_app_length' in W1 by done. apply holds_app in W2 as [W2 W2']. rewrite legacy_rsdp_len in W2'.
  assert (HwalkR : forall R, holds mem R (legacy_rsdp cfg dsdt tpm2) -> walk mem R = Some found).
  { intros R HR. apply walk_linked; try done; [|unfold T, RSDP_SIZE, dsdt in *; lia]. apply sdt_good; [done|].
    pose proof (offs_small _ _ _ Hf) as Ho. cbv zeta in Ho. unfold off_fadt, dsdt in Ho. rewrite sdt_len in Ho by done. lia. }
  split_and!; [by eapply scan_first|by apply HwalkR..|]. by exists c, anchor, smb, ep.
Qed.
End guest_scan.

(** ** The memory map *)
Module e820_map.
Import machine physmap.

(** A reader of [etc/e820]: 20 bytes an entry. *)
Fixpoint parse_e820 (fuel : nat) (bs : list Z) : option (list E820Entry) :=
  match bs, fuel with
  | [], _ => Some []
  | _, O => None
  | _, S fuel =>
      if len bs <? 20 then None
      else let* l := parse_e820 fuel (drop 20 bs) in Some (mkE820Entry (field bs 0 8) (field bs 8 8) (field bs 16 4) :: l)
  end.

(** The types listed for an address. *)
Definition types_at (l : list E820Entry) (a : Z) : list Z := type_ <$> filter (fun e => addr e <= a < addr e + size e) l.

Definition in_hole (a : Z) : bool := (E820_VGA_BASE <=? a) && (a <? E820_ROM_END).

Definition entry_ok (e : E820Entry) : Prop := uint 64 (addr e) /\ uint 64 (size e) /\ uint 32 (type_ e).

Lemma parse_entries l fuel : Forall entry_ok l -> (List.length l <= fuel)%nat ->
  parse_e820 fuel (concat ((fun e => le_bytes 8 (addr e) ++ le_bytes 8 (size e) ++ le_bytes 4 (type_ e)) <$> l)) = Some l.
Proof.
  intros Hl. revert fuel. induction Hl as [|[a s t] l (Ha & Hs & Ht) _ IH]; intros fuel Hf; [by destruct fuel|].
  destruct fuel as [|fuel]; [cbn in Hf; lia|]. cbn [fmap list_fmap concat addr size type_] in *. set (r := concat _) in *.
  assert (E20 : len (le_bytes 8 a ++ le_bytes 8 s ++ le_bytes 4 t) = 20) by reflexivity.
  set (x := le_bytes 8 a ++ le_bytes 8 s ++ le_bytes 4 t) in *.
  assert (Hp : forall y, parse_e820 (S fuel) (x ++ y) = if len (x ++ y) <? 20 then None else
    let* l := parse_e820 fuel (drop 20 (x ++ y)) in Some (mkE820Entry (field (x ++ y) 0 8) (field (x ++ y) 8 8) (field (x ++ y) 16 4) :: l)) by reflexivity.
  rewrite Hp, len_app, E20. pose proof (len_nonneg r). destruct (Z.ltb_spec (20 + len r) 20); [lia|].
  rewrite drop_app_length' by (unfold len in E20; lia). rewrite IH by (cbn in Hf; lia). do 3 f_equal; unfold x; rewrite <- ?app_assoc.
  - rewrite <- (app_nil_l (le_bytes 8 a ++ _)), acpi_os.field_at by done. by apply le_val_le_bytes.
  - rewrite acpi_os.field_at by done. by apply le_val_le_bytes.
  - rewrite (app_assoc (le_bytes 8 a)), acpi_os.field_at by done. by apply le_val_le_bytes.
Qed.

Lemma types_app l1 l2 a : types_at (l1 ++ l2) a = types_at l1 a ++ types_at l2 a.
Proof. unfold types_at. by rewrite filter_app, fmap_app. Qed.

Lemma types_one b (e : E820Entry) a : types_at (if b : bool then [e] else []) a = if b && (addr e <=? a) && (a <? addr e + size e) then [type_ e] else [].
Proof.
  destruct b; [|done]. unfold types_at. cbn [andb]. destruct (Z.leb_spec (addr e) a), (Z.ltb_spec a (addr e + size e)); cbn [andb];
    first [rewrite filter_cons_True by lia|rewrite filter_cons_False by lia]; done.
Qed.

Lemma entries_eq m : MIN_MEM_SIZE <= m <= MAX_MEM_SIZE ->
  build_e820_entries m =
    [mkE820Entry 0 0xA0000 E820_TYPE_RAM] ++ [mkE820Entry 0xA0000 0x60000 E820_TYPE_RESERVED] ++
    (if 0x100000 <? Z.min m LOWMEM_LIMIT then [mkE820Entry 0x100000 (Z.min m LOWMEM_LIMIT - 0x100000) E820_TYPE_RAM] else []) ++
    (if 0 <? Z.max 0 (m - LOWMEM_LIMIT) then [mkE820Entry FOUR_GIB (Z.max 0 (m - LOWMEM_LIMIT)) E820_TYPE_RAM] else []).
Proof.
  unfold MIN_MEM_SIZE, MAX_MEM_SIZE, build_e820_entries, saturating_sub. intros H.
  destruct (Z.ltb_spec 0 (Z.min m LOWMEM_LIMIT)); [|unfold LOWMEM_LIMIT in *; lia].
  assert (Z.min (Z.min m LOWMEM_LIMIT) E820_VGA_BASE = 0xA0000) as -> by (unfold LOWMEM_LIMIT, E820_VGA_BASE; lia). done.
Qed.

Lemma entries_ok m : MIN_MEM_SIZE <= m <= MAX_MEM_SIZE -> Forall entry_ok (build_e820_entries m).
Proof.
  intros H. rewrite entries_eq by done. unfold MIN_MEM_SIZE, MAX_MEM_SIZE, LOWMEM_LIMIT, FOUR_GIB in *.
  repeat (apply Forall_app; split); try case_match; try (apply Forall_nil_2); (apply Forall_cons_2; [|apply Forall_nil_2]); unfold entry_ok, uint, E820_TYPE_RAM, E820_TYPE_RESERVED; cbn [addr size type_]; lia.
Qed.

Lemma e820_fuel l : (List.length l <= List.length (concat ((fun e => le_bytes 8 (addr e) ++ le_bytes 8 (size e) ++ le_bytes 4 (type_ e)) <$> l)))%nat.
Proof. induction l as [|e l IH]; [done|]. cbn [fmap list_fmap concat List.length]. rewrite !length_app, !length_le_bytes. lia. Qed.

Lemma ram_at_two g l (b : bool) g' l' a pm : region_list pm = (g, l, Ram) :: (if b then [(g', l', Ram)] else []) ->
  ram_at pm a = (g <=? a) && (a <? g + l) || b && (g' <=? a) && (a <? g' + l').
Proof. unfold ram_at. intros ->. destruct b; cbn; by rewrite ?orb_false_r. Qed.

(** C23: the E820 map is the guest's RAM. On a machine that was built, the
    bytes of [etc/e820] read as entries that type every address at most once:
    the VGA and ROM area as reserved, every other byte of the RAM the machine
    mapped as RAM, and nothing else. *)
Theorem e820_exact b k s : build b k = Ok s ->
  exists es, parse_e820 (List.length (build_e820 (ms_mem_size s))) (build_e820 (ms_mem_size s)) = Some es /\
    forall a, 0 <= a -> types_at es a = if in_hole a then [E820_TYPE_RESERVED] else if ram_at (ms_map s) a then [E820_TYPE_RAM] else [].
Proof.
  intros Hb. pose proof (build_regions b k s Hb) as Hr. pose proof (build_sizes b k s Hb) as Hm.
  unfold split_memory, MMIO_HOLE_BASE, MMIO_HOLE_END in Hr. destruct Hr as [Hr ->]. set (m := b_mem_size b) in *.
  exists (build_e820_entries m). split; [apply parse_entries; [by apply entries_ok|apply e820_fuel]|].
  intros a Ha. rewrite entries_eq by done. rewrite (ram_at_two _ _ _ _ _ a _ Hr), !types_app, !types_one, (types_one true (mkE820Entry 0 _ _)), (types_one true (mkE820Entry 0xA0000 _ _)). cbn [addr size type_ andb].
  unfold MIN_MEM_SIZE, MAX_MEM_SIZE, LOWMEM_LIMIT, FOUR_GIB, in_hole, E820_VGA_BASE, E820_ROM_END in *.
  assert (wsub 64 m (Z.min m 0xC0000000) = Z.max 0 (m - 0xC0000000)) as -> by (unfold wsub; rewrite Z.mod_small; lia).
  repeat match goal with |- context [?x <=? ?y] => destruct (Z.leb_spec x y); try lia | |- context [?x <? ?y] => destruct (Z.ltb_spec x y); try lia end; reflexivity.
Qed.
End e820_map.

Module firmware_demo.
Import firmware setup guest_boot guest_scan fw_loader acpi_os machine e820_map.

Definition no_hotplug : HotplugAml := mkHotplugAml (fun _ => Some) (fun _ => Some) (fun _ => Some) (fun _ => Some) (fun _ => Some) (fun _ => Some).
Definition demo_opts : VmOpts := mkVmOpts (s2b "vm0") None 4 false None.
Notation demo_setup := (setup_fwcfg_and_acpi no_hotplug 32 (2 ^ 32) demo_opts 2 (2 ^ 32) (s2b "/pci@i0cf8/disk@4") None).
Definition demo_place (n : list Z) : Z := if decide (n = TABLES_BLOB_NAME) then 0xBFF00000 else 0xF0100.
Definition demo_body : list Z := default [] (dsdt_aml no_hotplug (the_cfg demo_opts 2 None) []).

Lemma demo_setup_ok : exists fw ws, demo_setup = Some (Ok (fw, ws)).
Proof.
  assert (H : match demo_setup with Some (Ok _) => true | _ => false end = true) by (vm_compute; reflexivity).
  destruct demo_setup as [[[fw ws]|]|]; [by exists fw, ws|done..].
Qed.

Lemma demo_body_eq : dsdt_aml no_hotplug (the_cfg demo_opts 2 None) [] = Some demo_body.
Proof. vm_compute. reflexivity. Qed.

Lemma demo_body_bytes : is_bytes demo_body.
Proof. apply bytesb_spec. vm_compute. reflexivity. Qed.

Lemma demo_sizes : 0 <= demo_place TABLES_BLOB_NAME /\ demo_place TABLES_BLOB_NAME mod 64 = 0 /\ demo_place RSDP_BLOB_NAME mod 16 = 0 /\
  demo_place TABLES_BLOB_NAME + blob_size (the_cfg demo_opts 2 None) (len (sdt (s2b "DSDT") 2 demo_body)) None < 2 ^ 32.
Proof. split_and!; vm_compute; congruence. Qed.

Lemma acpi_via_loader_witness : exists fw ws, demo_setup = Some (Ok (fw, ws)) /\
  exists blobs, download fw_client.the_bus demo_place fw = Some blobs /\
    forall mem, placed mem blobs ->
      let T := demo_place TABLES_BLOB_NAME in let tabs := the_tables T (the_cfg demo_opts 2 None) (balanced <$> (table <$> None)) in
      walk mem (demo_place RSDP_BLOB_NAME) = Some (mkFound tabs tabs T (sdt (s2b "DSDT") 2 demo_body)).
Proof.
  destruct demo_setup_ok as (fw & ws & E). exists fw, ws. split; [exact E|]. destruct demo_sizes as (S1 & S2 & S3 & S4).
  refine (acpi_via_loader no_hotplug 32 (2 ^ 32) demo_opts 2 (2 ^ 32) (s2b "/pci@i0cf8/disk@4") None fw ws demo_body fw_client.the_bus demo_place E
    demo_body_eq demo_body_bytes _ _ _ fw_client.attached_the_bus S1 S2 S3 S4); [intros a; discriminate|split; [discriminate|reflexivity]|reflexivity].
Defined.

Lemma acpi_via_scan_witness : exists fw ws, demo_setup = Some (Ok (fw, ws)) /\
  let T := BHYVE_ACPI_BASE + RSDP_SIZE in let mem := read (apply_writes ws (fun _ => 0)) in
  let tabs := the_tables T (the_cfg demo_opts 2 None) (table <$> None) in
  let found := mkFound tabs tabs T (sdt (s2b "DSDT") 2 demo_body) in
  scan mem = Some 0xE0000 /\ walk mem 0xE0000 = Some found /\ walk mem BHYVE_ACPI_BASE = Some found /\
  exists c anchor smb ep, smbios_config demo_opts 2 (2 ^ 32) = Ok c /\
    smbios.generate_smbios c (BHYVE_ACPI_BASE - SMBIOS_TABLE_GPA) = Some (Ok (anchor, smb)) /\ smbios.place_entry_point SMBIOS_TABLE_GPA anchor = Some ep /\
    holds mem SMBIOS_TABLE_GPA smb /\ holds mem SMBIOS_EP_GPA ep.
Proof.
  destruct demo_setup_ok as (fw & ws & E). exists fw, ws. split; [exact E|].
  refine (acpi_via_scan no_hotplug 32 (2 ^ 32) demo_opts 2 (2 ^ 32) (s2b "/pci@i0cf8/disk@4") None fw ws demo_body (fun _ => 0) E
    demo_body_eq _ _ _); [intros x; discriminate|split; [discriminate|reflexivity]|vm_compute; reflexivity].
Defined.

Definition demo_answers : physmap.answers := physmap.mkAnswers (Ok 0x100000) (Ok tt) (Ok 0) (Ok 0x200000) (Ok tt).
Definition demo_kernel : Kernel := mkKernel (Ok tt) (Ok tt) (Ok tt) (Ok tt) demo_answers (Ok tt) demo_answers.
Definition demo_builder : Builder := memory (2 ^ 32) (cpus 2 new).

Lemma demo_build_ok : exists s, build demo_builder demo_kernel = Ok s.
Proof. eexists. vm_compute. reflexivity. Qed.

Lemma e820_exact_witness : exists s, build demo_builder demo_kernel = Ok s /\
  exists es, parse_e820 (List.length (build_e820 (ms_mem_size s))) (build_e820 (ms_mem_size s)) = Some es /\
    forall a, 0 <= a -> types_at es a = if in_hole a then [E820_TYPE_RESERVED] else if ram_at (ms_map s) a then [E820_TYPE_RAM] else [].
Proof. destruct demo_build_ok as (s & E). exists s. split; [exact E|]. exact (e820_exact demo_builder demo_kernel s E). Defined.

End firmware_demo.
